(* ===== verification/_CoqProject ===== *)
-Q . S2P
Prelude.v
Framer.v
Text.v
Wal.v
Sessions.v
Naming.v
Spec.v
Decoder.v
Codec.v
Clock.v
SessionDir.v
Csv.v
Capture.v
Pcapng.v
PcapStream.v
Wire.v
Runner.v
PcapRunner.v
PcapStop.v
Detect.v
Manager.v
Export.v
Auth.v
Annotations.v
WsParse.v
Ws.v
WsManager.v
Secrets.v
Mirror.v
Interchange.v
RunnerStop.v
Downloads.v
Confine.v
Transports.v
Client.v
Native.v
Startup.v
Summary.v
Commands.v
Watch.v
Host.v
Connect.v
VirtPeer.v
Config.v
Serve.v
Live.v
Limits.v
Cli.v
ClockLog.v
Meta.v
Routes.v
