(* ===== verification/Prelude.v ===== *)
(** * TraceMux: verification development

    TraceMux collects byte streams and packets from many sources (serial
    lines, sockets, processes, packet capture), frames and decodes them, logs
    them to disk, and serves them live to clients.  This library models the
    program's own logic, from crates/core, crates/server, crates/replay,
    crates/cli, tools/virt-peer and app-tauri, as executable Rocq functions
    and step relations, and proves what makes it correct.

    ** Parts of the program and where they are

    - [Prelude]: machine integers at their width, Rust results with panics
      ([res]), error identifiers (core/src/error_id.rs), notations, tactics,
      hint databases and lemmas shared by the other files.
    - [Text]: characters, UTF-8, [str] methods (trim, split, find, replace) and
      number parsing and printing of the Rust standard library, as used.
    - [Framer]: core/src/framer (trait, line, length-prefixed and passthrough
      framers) and the loop that drains a framer.  The class [Framer] is the
      trait, with the laws the runner relies on; each framer is an instance.
    - [Wal]: core/src/log/wal.rs and group_commit.rs, the write-ahead log on a
      file whose writes and fsyncs fail and that crashes may cut or extend.
    - [Sessions]: core/src/session (ring, registry, fan-out) and the server's
      hold queue, connection cap (a step relation over threads), multiplexer,
      coalescer, panel priorities and ingest counters, a Module each.
    - [Naming]: session names, rotation, retention and the server's pruning
      (core/src/session_name.rs, log/rotate.rs, log/retention.rs,
      server/src/lib.rs).
    - [Spec]: channel specifications, packet-capture settings and the URI forms
      of cli/src/cmd/spec.rs.
    - [Decoder]: line splitting (core/src/codec.rs) and the decoders of
      core/src/decoder; [Codec]: the encodings of core/src/codec.rs over the
      class [Encodings].
    - [Clock]: core/src/time, timestamps, offset estimation and clock table.
    - [SessionDir]: the files of a session directory (core/src/log/raw.rs,
      index.rs, lines.rs, frames.rs) and the sinks of core/src/logsink, where
      each write and flush may fail; the class [LogSink] is what a runner
      needs of a sink.
    - [Csv], [Pcapng], [PcapStream]: core/src/exporter and importer for CSV and
      pcapng, and the rotating pcapng writer of live captures.
    - [Capture]: core/src/source/pcap.rs, the capture source over any backend.
    - [Wire]: server/src/wire.rs, the envelopes sent to clients.
    - [Runner]: server/src/runner.rs, one source lifetime from [Source] through
      framer and decoder to sink and fan-out; [PcapRunner]: the same for packet
      capture (server/src/pcap_runner.rs).  [RunnerStop] and [PcapStop]: both
      when the disk fails or the task is aborted; the first against the class
      [SinkKeeps] of what a sink promises.
    - [Detect]: core/src/classify.rs and core/src/detect/content.rs.
    - [Manager]: server/src/source_manager.rs, the table of sources; calls hold
      its lock only in short sections, so the model has the calls in flight in
      its state and every interleaving as a step.
    - [Export]: server/src/export_api.rs, download tickets, names of exported
      files and the ZIP writer of bundles; [Downloads]: its handlers, their
      temporary files and the streams of their responses; [Confine]: the
      directories of [Manager] against the guard of [Downloads].
    - [Auth]: server/src/auth.rs, fingerprint.rs, audit.rs and clientlog.rs.
    - [Annotations]: server/src/annotation_api.rs, the notes, their file and
      their handlers.
    - [WsParse], [Ws]: server/src/ws.rs, reading of requests, then replies,
      handlers, subscriptions and the loop of a connection; the class
      [SourceApi] is what a connection needs of the sources.  [WsManager] is
      the instance over [Manager].
    - [Secrets]: core/src/secret.rs, the resolvers over memory and over the
      class [Keyring]; [Mirror]: server/src/remote_mirror.rs, a session of
      another server logged here and written through.
    - [Interchange]: the text and JSON-lines exporters, the text and Tera Term
      importers, and replay (core/src/exporter, importer, source/replay.rs,
      crates/replay).
    - [Transports]: the TCP, serial, pipe, UDP, syslog, file and process
      sources of core/src/source and the sinks of core/src/sink.
    - [Client]: cli/src/cmd/send.rs, core/src/config/migrate.rs and
      core/src/log/schemas.rs.
    - [Native]: the live backend of core/src/source/pcap.rs over the class
      [PcapLib] of what the pcap library promises, an instance of
      [PcapBackend]; the reading thread against the task that may be aborted
      is the step relation of Module [Readers]; core/src/detect/pcap.rs.
    - [Startup]: server/src/lib.rs, the verifier built from provisioned hashes
      and the start of configured channels and serial ports, against the
      class [StartKeeps] over [SourceApi]; core/src/detect/serial.rs.
    - [Summary]: core/src/packet_summary.rs over the slices of etherparse.
    - [Commands]: cli/src/cmd/extcap.rs, profile.rs and log.rs; [Watch]:
      cli/src/cmd/watch.rs.
    - [Host]: server/src/tls.rs and core/src/metrics.rs.
    - [Connect]: cli/src/cmd/connect.rs.
    - [VirtPeer]: tools/virt-peer, scenarios, transcripts and both transports;
      the script and the reader of a peer are two threads of a step function.
    - [Config]: core/src/config/schema_v1.rs as codecs over TOML values, each
      with the law [CodecOk] that what is written reads back.
    - [Serve]: the serve command of cli/src/main.rs, the server's run function
      (server/src/lib.rs) from provisioning to the bound listener, and the
      upgrade of a connection (server/src/ws.rs).
    - [Live]: core/src/session/fanout.rs and core/src/eventbus.rs over the
      class [Broadcast] of broadcast channels with its laws [BroadcastOk];
      Module [Conn] is the forwarding tasks, bounded queue and writer of a
      connection (server/src/ws.rs) as a step relation.
    - [Limits]: the token bucket of server/src/ratelimit.rs over rationals
      rounded to binary64.
    - [Cli]: the export, import, detect and ai-verify commands, token-hash,
      the choice of an extcap mode (cli/src), server/src/ai_api.rs and the
      detection report of server/src/routes.rs, and the process the desktop
      shell starts (app-tauri).
    - [Routes]: server/src/routes.rs and range.rs with the routers of the other
      parts: the table of routes and the dispatch of a request to its handler.
    - [ClockLog]: core/src/log/clock_table.rs; [Meta]: the description files
      of server/src/pcap_runner.rs and core/src/logsink/file.rs.

    Components meet at type classes: a runner is verified against any
    [Source], [Framer] and [LogSink], capture against any [PcapBackend] and
    [PcapNgWriter], the live backend against any [PcapLib], a connection
    against any [SourceApi], start-up against any [StartKeeps], a write against
    any [Sink], live delivery against any [Broadcast]; the implementations are
    instances and the end-to-end theorems put them together.

    ** What the theorems show

    - Durability: appending to any log that opens and reading back gives the
      recovered and the new records; after any run with failing fsyncs and any
      crash, reopening recovers every durable record; recovery is idempotent
      and truncates exactly the torn tail; group commit loses no more than the
      documented bound.
    - Framing: draining terminates, loses and invents no bytes; a framer gives
      the same frames however the stream is cut into reads; frames that are
      encoded come back.
    - Logging: the rows of a sink name exactly the bytes that were appended;
      a run of the runner leaves a closed directory with every chunk once,
      publishes each chunk once and counts exactly, and logs a chunk before it
      publishes or decodes it; a committed log replays to what was logged.
    - Stopping and failing: a run or a capture that is stopped at any point, or
      whose disk fails in any write or flush, leaves a directory that replays
      or exports to everything it received, or all but the last chunk or
      packet, unless the write that failed left a part of a row; a capture
      that cannot make its files registers no session.
    - Transports: what a peer sends over TCP, a serial line or a pipe arrives
      whole and in order however it is cut; a growing file is followed exactly;
      a UDP write goes where it was told or to the latest sender.
    - Live capture: the backend delivers exactly the packets the library gave,
      waiting out its timeouts, and an abort loses at most one packet; a packet
      summary locates the payload within the packet.
    - Start-up: every configured channel and port is tried once whatever the
      others do, what started runs, and only provisioned hashes are accepted;
      a TLS identity is the same at every start after the first.
    - Connections: every request of a connection is answered once with its own
      number, and the answer is true of the sources afterwards; a write from
      the command line or through a mirror reports what happened; a mirror
      logs what the edge logged and answers every write it took.
    - Live delivery: under every interleaving of publishers, subscription
      tasks, requests and the writer, the frames on the socket for a
      subscription are published ones, in order and once; when the publishers
      rest, the connection comes to rest and nothing is owed but what was
      reported as missed.  The event bus accounts for every event.
    - Access: from the command line and the configuration file to the upgrade,
      only a provisioned token or an exemption the operator asked for lets a
      client in, and what token-hash prints does let its token in; over the
      whole table of HTTP routes, in any run of requests, a stranger gets no
      session data, notes, tickets or connection without a ticket issued to
      an authorized client; no path belongs to two routes; a pinned
      certificate stays the only one accepted; secrets in the keyring behave
      as a map and other programs' entries are not touched.
    - Confinement: whatever names clients ask for and however calls overlap,
      session directories lie directly below the session root, and the guard
      of the downloads agrees.
    - Serving: a server that listens has pruned, loaded its notes and
      identity, and tried every configured source.
    - Configuration: a configuration that is written loads as it was.
    - Annotations: the API with its file is a map of notes across restarts.
    - Commands: what is recorded replays; what an extcap run writes to its
      FIFO reads back as the captured packets; profiles are a map on a
      directory; watching prints the channel's payloads in order; connecting
      shows what it received and saves only what it showed; an imported text
      exports line by line, and an export from the command line is the
      download from the server; the virtual peer sends its script and answers
      what it reads; a counter's value is the sum of what was added to it.
    - Round trips: CSV and pcapng export and import, capture to pcapng, channel
      URIs, envelopes, directory timestamps, the clock table and its file
      after a crash, the description of a capture.
    - Limits: rings, hold queues, connection cap, the rate limiter with its
      rounding, coalescer, size and duration of pcapng parts, retention.
    - Sources: detection changes an encoding only for a clear leader and takes
      no frame away; classification adds exactly the tags of matching rules;
      with exclusive calls on a source a task is never lost.
    - Downloads: a ticket admits one request, in time and for its scope; a
      bundle is a ZIP file a reader of the format understands, with distinct
      and safe entry names; a client that keeps reading gets the exported
      bytes, and no download leaves a temporary file behind.
    - Findings: theorems marked as such exhibit behaviour the code or its
      documentation does not intend: a write error that makes a later record
      unrecoverable, panics on malformed input, values that do not survive a
      round trip, a task leaked by overlapping calls.

    ** Bounds, fuel and parameters

    Integers are [Z] with the width's bounds; arithmetic that Rust checks is
    [checked] and panics, saturating arithmetic is clamped, casts are written
    out; [usize] has 64 bits.  Loops that are not structural take fuel and
    return no value (or a panic, in [Wal]) when it runs out; the theorems give
    a sufficient amount: one more than the bytes in the buffer or the stream
    for draining, recovery, reading and receiving, one more than the rows for
    a replay, more than the number of chunks or packets a source gives for the
    runners and for sampling.  The live backend's wait for a packet recurses on
    the accessibility of the library's timeouts and takes no fuel.  No theorem
    is only about runs that happen to end, except that a followed file has no
    end: there the statement is about all that was received so far.  The queue
    of a connection holds 64 messages and a channel 1024 frames, as in the
    code.  Rounding to binary64 leaves the exponent unbounded: the values of
    the rate limiter stay far inside its range.

    Code outside the repository is a parameter with its documented behaviour
    as hypothesis: crc32fast, serde_json, rmp_serde, encoding_rs, regex, the
    calendar and RFC 3339 of the time crate, Unicode lower-casing, tokio's
    broadcast channel, pcap_file's block writer, the pcap library, etherparse,
    argon2, SHA-256, the text of UUIDs and addresses, the keyring, TOML,
    rcgen, PEM and rustls.
    What the operating system answers to opens, reads and writes is part of
    the state or of the events, and the theorems hold for every answer unless
    they say otherwise.
    Each theorem with such a hypothesis has a witness with a concrete
    instance.

    ** Not modelled

    The regex framer and the stub sources, whose files hold only a comment;
    axum's matching beyond its documented rule, and CORS; the parsing of
    arguments by clap and the dispatch to the commands; the fixed texts of
    the json-schema and extcap discovery commands; the fuzz targets, which
    call modelled components; constructors and accessors that only copy a
    field; the JSON text of rows, which is serde_json's; write errors of the
    importers' destination; the text of error messages and log lines, on which
    nothing branches.  Each part is listed with its reason beside the library. *)
From stdpp Require Import base decidable numbers gmap strings list.

Local Open Scope Z_scope.

(** ** Bytes, lengths and machine integers

    A [u8] is a [Z] in [0..256), a byte buffer a [list Z]; a character is
    its Unicode scalar value.  Machine integers are [Z] with their bounds
    written out, and [usize] has 64 bits. *)
Definition zlen {A} (l : list A) : Z := Z.of_nat (length l).

Definition u8_max : Z := 255.
Definition u16_max : Z := 65535.
Definition u32_max : Z := 4294967295.
Definition u64_max : Z := 18446744073709551615.
Definition usize_max : Z := u64_max.
Definition i8_max : Z := 127.
Definition i8_min : Z := -128.
Definition i32_max : Z := 2147483647.
Definition i32_min : Z := -2147483648.
Definition i64_max : Z := 9223372036854775807.
Definition i64_min : Z := -9223372036854775808.

Definition in_range (lo hi z : Z) : bool := (lo <=? z) && (z <=? hi).
Definition is_byte (b : Z) : bool := in_range 0 u8_max b.
Definition bytes_ok (l : list Z) : Prop := Forall (fun b => 0 <= b < 256) l.

(** [T::try_from]: [None] when the value does not fit. *)
Definition try_from (lo hi z : Z) : option Z := if in_range lo hi z then Some z else None.

(** [saturating_add] / [saturating_sub] / [saturating_mul] at given bounds. *)
Definition clampz (lo hi z : Z) : Z := Z.max lo (Z.min hi z).
Definition sat_add (lo hi a b : Z) : Z := clampz lo hi (a + b).
Definition sat_sub (lo hi a b : Z) : Z := clampz lo hi (a - b).
Definition sat_mul (lo hi a b : Z) : Z := clampz lo hi (a * b).

(** [as i64] on a [u64]: two's complement reinterpretation. *)
Definition u64_as_i64 (z : Z) : Z := if z <=? i64_max then z else z - 2 ^ 64.

(** ** Fallible code: [Result] plus the panic a Rust program may raise *)
Inductive res (E A : Type) : Type :=
| Ok (a : A)
| Err (e : E)
| Panic.
Arguments Ok {E A} a.
Arguments Err {E A} e.
Arguments Panic {E A}.

#[export] Instance res_ret E : MRet (res E) := fun A a => Ok a.
#[export] Instance res_bind E : MBind (res E) := fun A B k r =>
  match r with Ok a => k a | Err e => Err e | Panic => Panic end.
#[export] Instance res_fmap E : FMap (res E) := fun A B f r =>
  match r with Ok a => Ok (f a) | Err e => Err e | Panic => Panic end.

Definition ok_or {E A} (o : option A) (e : E) : res E A :=
  match o with Some a => Ok a | None => Err e end.
Definition map_err {E E' A} (f : E -> E') (r : res E A) : res E' A :=
  match r with Ok a => Ok a | Err e => Err (f e) | Panic => Panic end.

(** Arithmetic that must fit: an overflow is a panic (overflow checks on). *)
Definition checked {E} (lo hi z : Z) : res E Z := if in_range lo hi z then Ok z else Panic.

Declare Scope tm_scope.
Delimit Scope tm_scope with tm.
Notation "'let*' x := e 'in' k" := (mbind (fun x => k) e)
  (at level 200, x name, e at level 200, k at level 200, right associativity) : tm_scope.
Notation "'let*' ' p := e 'in' k" := (mbind (fun x => match x with p => k end) e)
  (at level 200, p pattern, e at level 200, k at level 200, right associativity) : tm_scope.
Notation "'do*' e 'in' k" := (mbind (fun _ => k) e)
  (at level 200, e at level 200, k at level 200, right associativity) : tm_scope.

(** ** Error identifiers (crates/core/src/error_id.rs)

    The human-readable message and the attached source error are not
    modelled: no code branches on them. *)
Inductive ErrorId : Type :=
| E1001PipelineGeneric
| E1002Backpressure
| E1003FramerOverflow
| E1101SourceOpen
| E1102SourceClosed
| E1103PcapBackendUnavailable
| E1104PcapPermissionDenied
| E1105PcapInvalidFilter
| E1106PcapInterfaceUnavailable
| E1301DecoderSchema
| E1401WalFsync
| E1402RotateFail
| E2001WireMalformed
| E2002WireLimit
| E2101AuthRejected
| E2102TlsHandshake
| E2103TofuMismatch.

#[export] Instance ErrorId_eq_dec : EqDecision ErrorId.
Proof. solve_decision. Defined.

Abbreviation result A := (res ErrorId A).

(** ** String literals as lists of scalar values *)
Definition lit (s : string) : list Z :=
  map (fun c => Z.of_N (Ascii.N_of_ascii c)) (String.list_ascii_of_string s).

(** [ErrorId::code]. *)
Definition code (e : ErrorId) : list Z :=
  lit match e with
      | E1001PipelineGeneric => "E-1001"
      | E1002Backpressure => "E-1002"
      | E1003FramerOverflow => "E-1003"
      | E1101SourceOpen => "E-1101"
      | E1102SourceClosed => "E-1102"
      | E1103PcapBackendUnavailable => "E-1103"
      | E1104PcapPermissionDenied => "E-1104"
      | E1105PcapInvalidFilter => "E-1105"
      | E1106PcapInterfaceUnavailable => "E-1106"
      | E1301DecoderSchema => "E-1301"
      | E1401WalFsync => "E-1401"
      | E1402RotateFail => "E-1402"
      | E2001WireMalformed => "E-2001"
      | E2002WireLimit => "E-2002"
      | E2101AuthRejected => "E-2101"
      | E2102TlsHandshake => "E-2102"
      | E2103TofuMismatch => "E-2103"
      end.

(** ** Iterator searches over slices *)
Section Search.
  Context {A : Type}.

(** [iter().position(p)]. *)
Fixpoint position (p : A -> bool) (l : list A) : option nat :=
  match l with
  | [] => None
  | x :: l' => if p x then Some O else S <$> position p l'
  end.

(** [iter().rposition(p)]. *)
Definition rposition (p : A -> bool) (l : list A) : option nat :=
  (fun i => (length l - 1 - i)%nat) <$> position p (rev l).

(** [windows(2).position(p)]. *)
Fixpoint position2 (p : A -> A -> bool) (l : list A) : option nat :=
  match l with
  | x :: (y :: _) as l' => if p x y then Some O else S <$> position2 p l'
  | _ => None
  end.
End Search.

(** ** Little- and big-endian integers *)
Fixpoint le_bytes (n : nat) (z : Z) : list Z :=
  match n with
  | O => []
  | S n' => z mod 256 :: le_bytes n' (z / 256)
  end.

Fixpoint le_val (l : list Z) : Z :=
  match l with
  | [] => 0
  | b :: l' => b + 256 * le_val l'
  end.

Definition be_val (l : list Z) : Z := le_val (rev l).
Definition be_bytes (n : nat) (z : Z) : list Z := rev (le_bytes n z).

(** ** Tactics *)

(** Turn boolean comparisons in the context and the goal into propositions. *)
Ltac bprop :=
  repeat match goal with
  | H : andb _ _ = true |- _ => apply andb_true_iff in H; destruct H
  | H : orb _ _ = false |- _ => apply orb_false_iff in H; destruct H
  | H : negb _ = true |- _ => apply negb_true_iff in H
  | H : negb _ = false |- _ => apply negb_false_iff in H
  | H : (_ <=? _) = true |- _ => apply Z.leb_le in H
  | H : (_ <=? _) = false |- _ => apply Z.leb_gt in H
  | H : (_ <? _) = true |- _ => apply Z.ltb_lt in H
  | H : (_ <? _) = false |- _ => apply Z.ltb_ge in H
  | H : (_ =? _) = true |- _ => apply Z.eqb_eq in H
  | H : (_ =? _) = false |- _ => apply Z.eqb_neq in H
  | H : Is_true _ |- _ => apply Is_true_true in H
  end.

(** Case analysis on the boolean test of the next [if] of the goal. *)
Ltac case_if :=
  match goal with
  | |- context [if ?b then _ else _] => destruct b eqn:?
  end.
Ltac case_if_in H :=
  match type of H with
  | context [if ?b then _ else _] => destruct b eqn:?
  end.

(** Arithmetic on lengths and machine bounds. *)
Ltac zlia :=
  unfold zlen, usize_max, u8_max, u16_max, u32_max, u64_max, i8_max, i8_min, i32_max, i32_min,
    i64_max, i64_min in *;
  repeat rewrite ?length_app, ?length_cons, ?length_nil, ?length_take, ?length_drop,
    ?length_rev in *;
  cbn [length] in *; lia.

Create HintDb tm.

(** ** Lemmas on lengths and bounds *)
Lemma zlen_nil {A} : zlen (@nil A) = 0.
Proof. reflexivity. Qed.
Lemma zlen_cons {A} (x : A) l : zlen (x :: l) = 1 + zlen l.
Proof. unfold zlen. simpl. lia. Qed.
Lemma zlen_app {A} (l k : list A) : zlen (l ++ k) = zlen l + zlen k.
Proof. unfold zlen. rewrite length_app. lia. Qed.
Lemma zlen_nonneg {A} (l : list A) : 0 <= zlen l.
Proof. unfold zlen. lia. Qed.
Lemma zlen_zero {A} (l : list A) : zlen l = 0 <-> l = [].
Proof. destruct l; [done|]. rewrite zlen_cons. pose proof (zlen_nonneg l). split; [lia|done]. Qed.
#[export] Hint Resolve zlen_nonneg : tm.

Lemma in_range_spec lo hi z : in_range lo hi z = true <-> lo <= z <= hi.
Proof. unfold in_range. rewrite andb_true_iff, Z.leb_le, Z.leb_le. done. Qed.
Lemma in_range_false lo hi z : in_range lo hi z = false <-> z < lo \/ hi < z.
Proof.
  unfold in_range. rewrite andb_false_iff, Z.leb_gt, Z.leb_gt. done.
Qed.
Lemma try_from_Some lo hi z v : try_from lo hi z = Some v <-> v = z /\ lo <= z <= hi.
Proof.
  unfold try_from. destruct (in_range lo hi z) eqn:E.
  - apply in_range_spec in E. naive_solver.
  - apply in_range_false in E. split; [done | lia].
Qed.
Lemma checked_ok {E} lo hi z : lo <= z <= hi -> @checked E lo hi z = Ok z.
Proof. intros H. unfold checked. by rewrite (proj2 (in_range_spec lo hi z) H). Qed.
Lemma checked_panic {E} lo hi z : ~ lo <= z <= hi -> @checked E lo hi z = Panic.
Proof. intros H. unfold checked. by rewrite (proj2 (in_range_false lo hi z) ltac:(lia)). Qed.
Lemma checked_inv {E} lo hi z v : @checked E lo hi z = Ok v -> v = z /\ lo <= z <= hi.
Proof.
  unfold checked. destruct (in_range lo hi z) eqn:E'; [|done].
  apply in_range_spec in E'. naive_solver.
Qed.
Lemma clampz_bounds lo hi z : lo <= hi -> lo <= clampz lo hi z <= hi.
Proof. unfold clampz. lia. Qed.
Lemma clampz_id lo hi z : lo <= z <= hi -> clampz lo hi z = z.
Proof. unfold clampz. lia. Qed.

(** Inversion of a successful bind. *)
Lemma bind_Ok {E A B} (k : A -> res E B) r v :
  mbind k r = Ok v -> exists a, r = Ok a /\ k a = Ok v.
Proof. destruct r; simpl; naive_solver. Qed.

(** ** Lemmas on slices *)
Section SearchFacts.
  Context {A : Type}.
  Implicit Types (l k : list A).

Lemma position_Some (p : A -> bool) l i :
  position p l = Some i <->
  exists x, l !! i = Some x /\ p x = true /\ Forall (fun y => p y = false) (take i l).
Proof.
  revert i. induction l as [|y l IH]; intros i; simpl.
  - split; [done|]. intros (x & Hx & _). by rewrite lookup_nil in Hx.
  - destruct (p y) eqn:Hy.
    + split.
      * intros [= <-]. exists y. repeat split; [done|]. constructor.
      * intros (x & Hx & Hp & Hf). destruct i as [|i]; [done|]. simpl in Hf.
        inversion Hf. congruence.
    + destruct i as [|i].
      * split; [by destruct (position p l)|]. intros (x & Hx & Hp & _). simpl in Hx. congruence.
      * split.
        -- intros H. apply fmap_Some in H as (j & Hj & [= ->]). apply IH in Hj.
           destruct Hj as (x & ? & ? & ?). exists x. repeat split; [done..|]. by constructor.
        -- intros (x & Hx & Hp & Hf). simpl in Hf. inversion Hf; subst.
           assert (position p l = Some i) as -> by (apply IH; eauto). done.
Qed.

Lemma position_None (p : A -> bool) l :
  position p l = None <-> Forall (fun y => p y = false) l.
Proof.
  induction l as [|y l IH]; simpl; [by split|]. destruct (p y) eqn:Hy.
  - split; [done|]. intros H. inversion H. congruence.
  - rewrite Forall_cons_iff, fmap_None, IH. naive_solver.
Qed.

Lemma position_lt (p : A -> bool) l i : position p l = Some i -> (i < length l)%nat.
Proof. intros (x & Hx & _)%position_Some. by eapply lookup_lt_Some. Qed.

(** A found position splits the slice around the matching element. *)
Lemma position_split (p : A -> bool) l i :
  position p l = Some i ->
  exists x, p x = true /\ l = take i l ++ x :: drop (S i) l /\
    Forall (fun y => p y = false) (take i l).
Proof.
  intros (x & Hx & Hp & Hf)%position_Some. exists x. split; [done|].
  split; [|done]. symmetry. by apply take_drop_middle.
Qed.

Lemma position_prefix (p : A -> bool) l x k :
  Forall (fun y => p y = false) l -> p x = true ->
  position p (l ++ x :: k) = Some (length l).
Proof.
  induction l as [|y l IH]; intros Hl Hx; simpl; [by rewrite Hx|].
  inversion Hl; subst. rewrite H1, IH; done.
Qed.

Lemma position2_Some (p : A -> A -> bool) l i :
  position2 p l = Some i <->
  exists x y, l !! i = Some x /\ l !! S i = Some y /\ p x y = true /\
    forall j x' y', (j < i)%nat -> l !! j = Some x' -> l !! S j = Some y' -> p x' y' = false.
Proof.
  revert i. induction l as [|a l IH]; intros i; simpl.
  { split; [done|]. intros (x & y & Hx & _). by rewrite lookup_nil in Hx. }
  destruct l as [|b l].
  { split; [done|]. intros (x & y & _ & Hy & _). by destruct i. }
  destruct (p a b) eqn:Hp.
  - split.
    + intros [= <-]. exists a, b. repeat split; [done..|]. intros; lia.
    + intros (x & y & Hx & Hy & Hp' & Hf). destruct i as [|i]; [done|].
      rewrite (Hf O a b) in Hp; [done|lia|done|done].
  - destruct i as [|i].
    + split; [by destruct (position2 p _)|]. intros (x & y & Hx & Hy & Hp' & _).
      simpl in *. congruence.
    + transitivity (position2 p (b :: l) = Some i).
      { rewrite fmap_Some. naive_solver. }
      rewrite IH. split; intros (x & y & Hx & Hy & Hp' & Hf); exists x, y;
        (split; [done|split; [done|split; [done|]]]).
      * intros [|j] x' y' Hj Hx' Hy'; simpl in *; [congruence|].
        apply (Hf j); [lia|done..].
      * intros j x' y' Hj Hx' Hy'. apply (Hf (S j)); [lia|done..].
Qed.

Lemma position_app_l (p : A -> bool) l k i :
  position p l = Some i -> position p (l ++ k) = Some i.
Proof.
  revert i. induction l as [|y l IH]; intros i; simpl; [done|]. destruct (p y); [done|].
  intros (j & Hj & ->)%fmap_Some. by rewrite (IH j).
Qed.

Lemma position2_app_l (p : A -> A -> bool) l k i :
  position2 p l = Some i -> position2 p (l ++ k) = Some i.
Proof.
  revert i. induction l as [|y l IH]; intros i; simpl; [done|].
  destruct l as [|z l]; [done|]. simpl in *. destruct (p y z); [done|].
  intros (j & Hj & ->)%fmap_Some. by rewrite (IH j).
Qed.

(** Later bytes do not change what [split_to] returns inside the buffer. *)
Lemma split_to_app n l k :
  (n <= length l)%nat -> take n (l ++ k) = take n l /\ drop n (l ++ k) = drop n l ++ k.
Proof. intros. split; [by apply take_app_le | by apply drop_app_le]. Qed.
End SearchFacts.

(** ** Lemmas on byte strings *)
Lemma lor_parts a n : 0 <= n -> Z.lor (Z.shiftl (a / 2 ^ n) n) (a mod 2 ^ n) = a.
Proof.
  intros Hn. apply Z.bits_inj'. intros m Hm. rewrite Z.lor_spec, Z.shiftl_spec by done.
  rewrite <- Z.shiftr_div_pow2 by done. destruct (Z.lt_ge_cases m n).
  - by rewrite Z.testbit_neg_r, Z.mod_pow2_bits_low by lia.
  - rewrite Z.shiftr_spec, Z.mod_pow2_bits_high, orb_false_r by lia. f_equal. lia.
Qed.

Lemma length_le_bytes n z : length (le_bytes n z) = n.
Proof. revert z. induction n as [|n IH]; intros z; simpl; [done|]. by rewrite IH. Qed.

Lemma le_bytes_ok n z : bytes_ok (le_bytes n z).
Proof.
  unfold bytes_ok. revert z. induction n as [|n IH]; intros z; simpl; constructor; [|apply IH].
  apply Z.mod_pos_bound. lia.
Qed.

Lemma le_val_le_bytes n z : 0 <= z < 256 ^ Z.of_nat n -> le_val (le_bytes n z) = z.
Proof.
  revert z. induction n as [|n IH]; intros z Hz; simpl; [simpl in Hz; lia|].
  rewrite Nat2Z.inj_succ, Z.pow_succ_r in Hz by lia.
  rewrite IH.
  - pose proof (Z.div_mod z 256). lia.
  - split; [apply Z.div_pos; lia|]. apply Z.div_lt_upper_bound; lia.
Qed.

Lemma le_val_bound l : bytes_ok l -> 0 <= le_val l < 256 ^ zlen l.
Proof.
  unfold bytes_ok, zlen. induction l as [|b l IH]; intros H; [simpl; lia|].
  inversion H; subst. specialize (IH H3). simpl length. rewrite Nat2Z.inj_succ, Z.pow_succ_r by lia.
  simpl. lia.
Qed.

Lemma le_bytes_le_val l : bytes_ok l -> le_bytes (length l) (le_val l) = l.
Proof.
  unfold bytes_ok. induction l as [|b l IH]; intros H; [done|]. inversion H; subst. simpl.
  replace (b + 256 * le_val l) with (le_val l * 256 + b) by lia.
  rewrite Z.add_comm, Z.mod_add, Z.mod_small, Z.div_add, Z.div_small, Z.add_0_l, IH by (done || lia).
  done.
Qed.

Lemma be_val_be_bytes n z : 0 <= z < 256 ^ Z.of_nat n -> be_val (be_bytes n z) = z.
Proof. intros. unfold be_val, be_bytes. rewrite rev_involutive. by apply le_val_le_bytes. Qed.

Lemma length_be_bytes n z : length (be_bytes n z) = n.
Proof. unfold be_bytes. rewrite length_rev. apply length_le_bytes. Qed.

Lemma be_val_bound l : bytes_ok l -> 0 <= be_val l < 256 ^ zlen l.
Proof.
  intros H. unfold be_val. replace (zlen l) with (zlen (rev l)) by (unfold zlen; by rewrite length_rev).
  apply le_val_bound. unfold bytes_ok in *. by apply Forall_rev.
Qed.

#[export] Hint Resolve le_bytes_ok : tm.
#[export] Hint Rewrite length_le_bytes length_be_bytes : tm.

Lemma bytes_ok_app l k : bytes_ok (l ++ k) <-> bytes_ok l /\ bytes_ok k.
Proof. apply Forall_app. Qed.
Lemma bytes_ok_take n l : bytes_ok l -> bytes_ok (take n l).
Proof. apply Forall_take. Qed.
Lemma bytes_ok_drop n l : bytes_ok l -> bytes_ok (drop n l).
Proof. apply Forall_drop. Qed.
#[export] Hint Resolve bytes_ok_take bytes_ok_drop : tm.
