(* ===== verification/Framer.v ===== *)
(** * Framers: raw bytes to discrete frames

    Models crates/core/src/framer/: the [Framer] trait (a class with the laws
    the runner relies on), the line, length-prefixed and passthrough framers,
    and the loop of crates/server/src/runner.rs that drains a framer.

    [poll_frame] returns the Rust result together with the buffer the call
    leaves behind; [split_to] on a [BytesMut] is [take]/[drop]. *)
From stdpp Require Import base numbers strings list.
From S2P Require Import Prelude.

Local Open Scope Z_scope.
Local Open Scope tm_scope.

(** ** The trait *)
Class Framer (F : Type) : Type :=
  poll_frame : F -> list Z -> result (option (list Z)) * list Z.

(** What an implementation owes the pipeline: an emitted frame is a part of a
    non-empty prefix that the call removes from the buffer, and a call that
    emits nothing leaves the buffer alone. *)
Class FramerLaws (F : Type) `{Framer F} : Prop := {
  poll_consumes : forall (f : F) buf fr buf',
    poll_frame f buf = (Ok (Some fr), buf') ->
    exists pre, buf = pre ++ buf' /\ pre <> [] /\ exists a b, pre = a ++ fr ++ b;
  poll_stays : forall (f : F) buf r buf',
    poll_frame f buf = (r, buf') -> (forall fr, r <> Ok (Some fr)) -> buf' = buf
}.

(** A framer is stable when bytes that arrive later never change a frame that
    can already be emitted. *)
Class StableFramer {F} `{Framer F} (f : F) : Prop :=
  poll_stable : forall buf fr buf' more,
    poll_frame f buf = (Ok (Some fr), buf') ->
    poll_frame f (buf ++ more) = (Ok (Some fr), buf' ++ more).

(** ** Passthrough framer *)
Module PassthroughFramer.
Inductive PassthroughFramer : Type := mk.

Definition poll_frame_pt (self : PassthroughFramer) (buf : list Z)
  : result (option (list Z)) * list Z :=
  match buf with
  | [] => (Ok None, buf)
  | _ => (Ok (Some buf), [])
  end.

#[global] Instance framer : Framer PassthroughFramer := poll_frame_pt.

#[global] Instance laws : FramerLaws PassthroughFramer.
Proof.
  split; unfold poll_frame, framer, poll_frame_pt; intros f buf.
  - intros fr buf' H. destruct buf as [|b buf]; [done|]. simplify_eq/=.
    exists (b :: buf). rewrite app_nil_r. repeat split; [done|].
    exists [], []. by rewrite app_nil_r.
  - intros r buf' H Hr. destruct buf as [|b buf]; simplify_eq/=; [done|].
    by destruct (Hr (b :: buf)).
Qed.
End PassthroughFramer.

(** ** Line framer *)
Module LineFramer.
Inductive Eol : Type := Lf | Crlf | Cr | Auto.

Record LineFramer : Type := mk { eol : Eol; max_frame : Z }.

(** The loop of [auto_eol_position]: [idx] is the index of the head of [l]. *)
Fixpoint auto_eol_go (idx : nat) (l : list Z) : option nat :=
  match l with
  | [] => None
  | b :: l' =>
      if (b =? 13) && bool_decide (l' !! O = Some 10) then Some (idx + 1)%nat
      else if (b =? 13) || (b =? 10) then Some idx
      else auto_eol_go (S idx) l'
  end.
Definition auto_eol_position (buf : list Z) : option nat := auto_eol_go 0 buf.

Definition is_crlf (x y : Z) : bool := (x =? 13) && (y =? 10).

Definition eol_position (e : Eol) (buf : list Z) : option nat :=
  match e with
  | Lf => position (fun b => b =? 10) buf
  | Auto => auto_eol_position buf
  | Cr => position (fun b => b =? 13) buf
  | Crlf => (fun i => i + 1)%nat <$> position2 is_crlf buf
  end.

Definition crlf_or_auto (e : Eol) : bool :=
  match e with Crlf | Auto => true | _ => false end.

(** [&frame[frame.len() - 2..] == b"\r\n"], guarded by the length test. *)
Definition ends_crlf (frame : list Z) : bool :=
  (2 <=? zlen frame) && bool_decide (drop (length frame - 2) frame = [13; 10]).

Definition trim_eol (e : Eol) (frame : list Z) : list Z :=
  if crlf_or_auto e && ends_crlf frame
  then take (length frame - 2) frame
  else if bool_decide (last frame = Some 10) || bool_decide (last frame = Some 13)
  then take (length frame - 1) frame
  else frame.

Definition poll_frame_line (self : LineFramer) (buf : list Z)
  : result (option (list Z)) * list Z :=
  match eol_position (eol self) buf with
  | Some idx => (Ok (Some (trim_eol (eol self) (take (idx + 1) buf))), drop (idx + 1) buf)
  | None =>
      if max_frame self <? zlen buf then (Err E1003FramerOverflow, buf) else (Ok None, buf)
  end.

#[global] Instance framer : Framer LineFramer := poll_frame_line.

Lemma auto_eol_go_lt idx l i :
  auto_eol_go idx l = Some i -> (idx <= i /\ i < idx + length l)%nat.
Proof.
  revert idx. induction l as [|b l IH]; intros idx; simpl; [done|].
  case_if; [|case_if].
  - intros [= <-]. bprop. apply bool_decide_eq_true_1 in H0. destruct l; [done|]. simpl. lia.
  - intros [= <-]. lia.
  - intros H%IH. lia.
Qed.

(** Every separator the framer finds lies inside the buffer. *)
Lemma eol_position_lt e buf i : eol_position e buf = Some i -> (i < length buf)%nat.
Proof.
  destruct e; simpl; intros H.
  - by eapply position_lt.
  - apply fmap_Some in H as (j & Hj & ->). apply position2_Some in Hj as (x & y & _ & Hy & _).
    apply lookup_lt_Some in Hy. lia.
  - by eapply position_lt.
  - apply auto_eol_go_lt in H. lia.
Qed.

(** Trimming removes a suffix only. *)
Lemma trim_eol_prefix e fr : exists k, trim_eol e fr = take k fr.
Proof.
  unfold trim_eol. repeat case_if; eauto. exists (length fr). by rewrite take_ge by lia.
Qed.

#[global] Instance laws : FramerLaws LineFramer.
Proof.
  split; unfold poll_frame, framer, poll_frame_line; intros f buf.
  - intros fr buf' H. destruct (eol_position (eol f) buf) as [i|] eqn:Hi; [|by case_if_in H].
    simplify_eq. pose proof (eol_position_lt _ _ _ Hi) as Hlt.
    exists (take (i + 1) buf). rewrite take_drop. split; [done|]. split.
    { intros Hn. apply (f_equal length) in Hn. rewrite length_take in Hn. simpl in Hn. lia. }
    destruct (trim_eol_prefix (eol f) (take (i + 1) buf)) as [k ->].
    exists [], (drop k (take (i + 1) buf)). simpl. by rewrite take_drop.
  - intros r buf' H Hr. destruct (eol_position (eol f) buf) as [i|]; simplify_eq.
    + by destruct (Hr (trim_eol (eol f) (take (i + 1) buf))).
    + case_if_in H; by simplify_eq.
Qed.

(** Later bytes do not move a separator, except in [Auto] mode, where a final
    carriage return may become the first half of a CRLF. *)
Lemma eol_position_app e buf more i :
  e <> Auto -> eol_position e buf = Some i -> eol_position e (buf ++ more) = Some i.
Proof.
  destruct e; simpl; intros Hne H; [by apply position_app_l| |by apply position_app_l|done].
  apply fmap_Some in H as (j & Hj & ->). by erewrite position2_app_l.
Qed.

Lemma stable (f : LineFramer) : eol f <> Auto -> StableFramer f.
Proof.
  intros Hne buf fr buf' more. unfold poll_frame, framer, poll_frame_line.
  destruct (eol_position (eol f) buf) as [i|] eqn:Hi; [|by case_if].
  intros [= <- <-]. pose proof (eol_position_lt _ _ _ Hi).
  rewrite (eol_position_app _ _ _ _ Hne Hi).
  destruct (split_to_app (i + 1) buf more) as [-> ->]; [lia|done].
Qed.

(** The terminator bytes of a convention ([Auto] is exercised with LF). *)
Definition terminator (e : Eol) : list Z :=
  match e with Lf | Auto => [10] | Crlf => [13; 10] | Cr => [13] end.

(** Lines a convention can carry: those that do not contain its terminator. *)
Definition line_ok (e : Eol) (l : list Z) : Prop :=
  match e with
  | Lf => Forall (fun b => b <> 10) l
  | Cr => Forall (fun b => b <> 13) l
  | Crlf => position2 is_crlf l = None
  | Auto => Forall (fun b => b <> 10 /\ b <> 13) l
  end.

Lemma auto_eol_go_skip idx l k :
  Forall (fun b => b <> 10 /\ b <> 13) l ->
  auto_eol_go idx (l ++ 10 :: k) = Some (idx + length l)%nat.
Proof.
  revert idx. induction l as [|b l IH]; intros idx Hl; simpl; [f_equal; lia|].
  inversion Hl as [|?? [H10 H13] Hl']; subst.
  apply Z.eqb_neq in H10, H13. rewrite H10, H13. simpl. rewrite IH by done. f_equal. lia.
Qed.

Lemma position2_crlf_append l k :
  position2 is_crlf l = None -> position2 is_crlf (l ++ 13 :: 10 :: k) = Some (length l).
Proof.
  induction l as [|x l IH]; intros H; [done|]. destruct l as [|y l].
  - simpl. unfold is_crlf. by rewrite andb_false_r.
  - simpl in *. destruct (is_crlf x y); [done|]. apply fmap_None in H. by rewrite IH.
Qed.

Lemma eol_position_line e l rest :
  line_ok e l ->
  eol_position e (l ++ terminator e ++ rest) = Some (length l + length (terminator e) - 1)%nat.
Proof.
  destruct e; simpl; intros Hl.
  - rewrite position_prefix; [f_equal; lia| |done].
    eapply Forall_impl; [exact Hl|]. intros b Hb. by apply Z.eqb_neq.
  - rewrite position2_crlf_append by done. simpl. f_equal. lia.
  - rewrite position_prefix; [f_equal; lia| |done].
    eapply Forall_impl; [exact Hl|]. intros b Hb. by apply Z.eqb_neq.
  - unfold auto_eol_position. rewrite auto_eol_go_skip by done. f_equal. lia.
Qed.

Lemma ends_crlf_single l b : Forall (fun c => c <> 13) l -> ends_crlf (l ++ [b]) = false.
Proof.
  intros Hl. unfold ends_crlf. apply andb_false_iff.
  destruct (decide (length l = 0)%nat) as [H0|H0].
  - left. apply Z.leb_gt. zlia.
  - right. apply bool_decide_eq_false. intros Hd.
    assert (l !! (length l - 1)%nat = Some 13) as Hc.
    { rewrite <- (lookup_app_l l [b]) by lia.
      replace (length l - 1)%nat with ((length (l ++ [b]) - 2) + 0)%nat
        by (rewrite length_app; simpl; lia).
      by rewrite <- lookup_drop, Hd. }
    apply Forall_lookup_1 with (i := (length l - 1)%nat) (x := 13) in Hl; done.
Qed.

Lemma ends_crlf_pair l : ends_crlf (l ++ [13; 10]) = true.
Proof.
  unfold ends_crlf. rewrite length_app. simpl. rewrite Nat.add_sub, drop_app_length.
  rewrite bool_decide_eq_true_2 by done. apply andb_true_iff.
  split; [apply Z.leb_le; zlia | done].
Qed.

Lemma trim_eol_line e l : line_ok e l -> trim_eol e (l ++ terminator e) = l.
Proof.
  intros Hl. unfold trim_eol.
  assert (forall b, (b = 10 \/ b = 13) ->
    (if bool_decide (last (l ++ [b]) = Some 10) || bool_decide (last (l ++ [b]) = Some 13)
     then take (length (l ++ [b]) - 1) (l ++ [b]) else l ++ [b]) = l) as Hone.
  { intros b Hb. rewrite last_snoc.
    replace (bool_decide (Some b = Some 10) || bool_decide (Some b = Some 13)) with true
      by (destruct Hb as [-> | ->]; done).
    rewrite length_app. simpl. rewrite Nat.add_sub. by rewrite take_app_length. }
  destruct e; cbn [crlf_or_auto terminator andb]; [by apply Hone; left| |by apply Hone; right|].
  - rewrite ends_crlf_pair, length_app. simpl. by rewrite Nat.add_sub, take_app_length.
  - rewrite ends_crlf_single; [by apply Hone; left|].
    eapply Forall_impl; [exact Hl|]. naive_solver.
Qed.

(** One line followed by its terminator is one frame. *)
Lemma poll_line f l rest :
  line_ok (eol f) l ->
  poll_frame f (l ++ terminator (eol f) ++ rest) = (Ok (Some l), rest).
Proof.
  intros Hl. unfold poll_frame, framer, poll_frame_line. rewrite eol_position_line by done.
  assert (length (terminator (eol f)) > 0)%nat by (destruct (eol f); simpl; lia).
  replace (length l + length (terminator (eol f)) - 1 + 1)%nat
    with (length (l ++ terminator (eol f))) by (rewrite length_app; lia).
  rewrite app_assoc, take_app_length, drop_app_length. by rewrite trim_eol_line.
Qed.

(** In automatic mode a carriage return ends the line too, alone or as the
    first half of a CRLF. *)
Lemma poll_auto_cr max l k :
  line_ok Auto l -> k = [13] \/ k = [13; 10] ->
  poll_frame (mk Auto max) (l ++ k) = (Ok (Some l), []).
Proof.
  intros Hl Hk. unfold poll_frame, framer, poll_frame_line. cbn [eol eol_position].
  assert (Forall (fun c => c <> 13) l) as H13 by (eapply Forall_impl; [exact Hl|]; naive_solver).
  assert (forall idx, auto_eol_go idx (l ++ k) = Some (idx + length (l ++ k) - 1)%nat) as Hgo.
  { clear -Hl Hk. induction l as [|b l IH]; intros idx; simpl.
    - destruct Hk as [-> | ->]; simpl; f_equal; lia.
    - inversion Hl as [|?? [H10 H13] Hl']; subst. apply Z.eqb_neq in H10, H13.
      rewrite H10, H13. simpl. rewrite IH by done. f_equal.
      assert (length (l ++ k) > 0)%nat by (rewrite length_app; destruct Hk as [-> | ->]; simpl; lia).
      lia. }
  unfold auto_eol_position. rewrite Hgo.
  assert (length (l ++ k) > 0)%nat by (rewrite length_app; destruct Hk as [-> | ->]; simpl; lia).
  rewrite take_ge, drop_ge by lia. do 3 f_equal. destruct Hk as [-> | ->].
  - unfold trim_eol. rewrite ends_crlf_single by done. simpl. rewrite last_snoc.
    rewrite bool_decide_eq_false_2 by done. rewrite bool_decide_eq_true_2 by done. simpl.
    rewrite length_app. simpl. by rewrite Nat.add_sub, take_app_length.
  - unfold trim_eol. cbn [crlf_or_auto andb].
    rewrite ends_crlf_pair.
    rewrite length_app. simpl. by rewrite Nat.add_sub, take_app_length.
Qed.
End LineFramer.

(** ** Length-prefixed framer *)
Module LengthPrefixedFramer.
Inductive HeaderWidth : Type := U8 | U16 | U32 | U64.
Inductive Endian : Type := Big | Little.

Definition width_bytes (w : HeaderWidth) : nat :=
  match w with U8 => 1 | U16 => 2 | U32 => 4 | U64 => 8 end.

Record LengthPrefixedFramer : Type := mk {
  width : HeaderWidth;
  endian : Endian;
  include_header : bool;
  max_frame : Z
}.

(** [read_len] on a header slice of exactly [width] bytes. *)
Definition read_len (self : LengthPrefixedFramer) (hdr : list Z) : Z :=
  match width self, endian self with
  | U8, _ => le_val (take 1 hdr)
  | w, Big => be_val (take (width_bytes w) hdr)
  | w, Little => le_val (take (width_bytes w) hdr)
  end.

Definition poll_frame_lp (self : LengthPrefixedFramer) (buf : list Z)
  : result (option (list Z)) * list Z :=
  let hdr_len := width_bytes (width self) in
  if zlen buf <? Z.of_nat hdr_len then (Ok None, buf)
  else
    let raw_len := read_len self (take hdr_len buf) in
    let payload_len :=
      if include_header self then sat_sub 0 u64_max raw_len (Z.of_nat hdr_len) else raw_len in
    if max_frame self <? payload_len then (Err E1003FramerOverflow, buf)
    else
      match @checked ErrorId 0 usize_max (Z.of_nat hdr_len + payload_len) with
      | Ok need =>
          if zlen buf <? need then (Ok None, buf)
          else
            let rest := drop hdr_len buf in
            (Ok (Some (take (Z.to_nat payload_len) rest)), drop (Z.to_nat payload_len) rest)
      | _ => (Panic, buf)
      end.

#[global] Instance framer : Framer LengthPrefixedFramer := poll_frame_lp.

(** The payload length the header declares. *)
Definition payload_len (self : LengthPrefixedFramer) (buf : list Z) : Z :=
  let hdr_len := width_bytes (width self) in
  let raw_len := read_len self (take hdr_len buf) in
  if include_header self then sat_sub 0 u64_max raw_len (Z.of_nat hdr_len) else raw_len.

(** A frame comes out exactly when the header and the declared payload are
    both buffered and the declaration is within the limit. *)
Lemma poll_lp_Some self buf fr buf' :
  poll_frame self buf = (Ok (Some fr), buf') <->
  let hdr_len := width_bytes (width self) in
  let n := payload_len self buf in
  Z.of_nat hdr_len <= zlen buf /\ n <= max_frame self /\
  0 <= Z.of_nat hdr_len + n <= usize_max /\ Z.of_nat hdr_len + n <= zlen buf /\
  fr = take (Z.to_nat n) (drop hdr_len buf) /\ buf' = drop (Z.to_nat n) (drop hdr_len buf).
Proof.
  unfold poll_frame, framer, poll_frame_lp. fold (payload_len self buf). cbv zeta.
  destruct (zlen buf <? _) eqn:E1; bprop; [split; [done|lia]|].
  destruct (max_frame self <? payload_len self buf) eqn:E2; bprop; [split; [done|lia]|].
  destruct (checked _ _ _) as [need| |] eqn:E3.
  - apply checked_inv in E3 as [-> ?].
    destruct (zlen buf <? _) eqn:E4; bprop; [split; [done|lia]|]. naive_solver.
  - split; [done|]. intros (?&?&Hr&?). rewrite (checked_ok 0 usize_max _ Hr) in E3. done.
  - split; [done|]. intros (?&?&Hr&?). rewrite (checked_ok 0 usize_max _ Hr) in E3. done.
Qed.

Lemma payload_len_app self buf more :
  Z.of_nat (width_bytes (width self)) <= zlen buf ->
  payload_len self (buf ++ more) = payload_len self buf.
Proof. intros. unfold payload_len. by rewrite take_app_le by (unfold zlen in *; lia). Qed.

Lemma width_bytes_pos w : (0 < width_bytes w)%nat.
Proof. destruct w; simpl; lia. Qed.

#[global] Instance laws : FramerLaws LengthPrefixedFramer.
Proof.
  split.
  - intros f buf fr buf' (H1 & H2 & H3 & H4 & -> & ->)%poll_lp_Some.
    pose proof (width_bytes_pos (width f)) as Hw.
    set (h := width_bytes (width f)) in *. set (n := Z.to_nat (payload_len f buf)).
    exists (take h buf ++ take n (drop h buf)).
    rewrite <- app_assoc, take_drop, take_drop. split; [done|]. split.
    + intros Hn. apply (f_equal length) in Hn. rewrite length_app, length_take in Hn.
      simpl in Hn. unfold zlen in H1. lia.
    + exists (take h buf), []. by rewrite app_nil_r.
  - intros f buf r buf' Hp Hr. unfold poll_frame, framer, poll_frame_lp in Hp. cbv zeta in Hp.
    fold (payload_len f buf) in Hp.
    destruct (zlen buf <? _); [by simplify_eq|].
    destruct (max_frame f <? _); [by simplify_eq|].
    destruct (checked _ _ _); [|by simplify_eq..].
    destruct (zlen buf <? _); simplify_eq; [done|]. by edestruct Hr.
Qed.

#[global] Instance stable (f : LengthPrefixedFramer) : StableFramer f.
Proof.
  intros buf fr buf' more (H1 & H2 & H3 & H4 & -> & ->)%poll_lp_Some.
  apply poll_lp_Some. cbv zeta.
  rewrite payload_len_app, !zlen_app by done. pose proof (zlen_nonneg more).
  rewrite (drop_app_le buf more) by (unfold zlen in *; lia).
  repeat split; try lia.
  - rewrite take_app_le; [done|]. rewrite length_drop. unfold zlen in *. lia.
  - rewrite drop_app_le; [done|]. rewrite length_drop. unfold zlen in *. lia.
Qed.

(** The encoder a peer of this framer uses: the declared length, then the
    payload. *)
Definition declared (self : LengthPrefixedFramer) (payload : list Z) : Z :=
  zlen payload + if include_header self then Z.of_nat (width_bytes (width self)) else 0.
Definition header (self : LengthPrefixedFramer) (payload : list Z) : list Z :=
  match endian self with
  | Big => be_bytes (width_bytes (width self)) (declared self payload)
  | Little => le_bytes (width_bytes (width self)) (declared self payload)
  end.
Definition encode_lp (self : LengthPrefixedFramer) (payload : list Z) : list Z :=
  header self payload ++ payload.

(** A payload this framer accepts. *)
Definition payload_ok (self : LengthPrefixedFramer) (payload : list Z) : Prop :=
  zlen payload <= max_frame self /\
  declared self payload < 256 ^ Z.of_nat (width_bytes (width self)).

Lemma length_header self p : length (header self p) = width_bytes (width self).
Proof. unfold header. case_match; autorewrite with tm; done. Qed.

Lemma be_val_single l : length l = 1%nat -> be_val l = le_val l.
Proof. destruct l as [|x [|]]; done. Qed.

Lemma read_len_header self p rest :
  payload_ok self p -> read_len self (header self p ++ rest) = declared self p.
Proof.
  intros [_ Hd]. assert (0 <= declared self p).
  { unfold declared. pose proof (zlen_nonneg p). case_if; lia. }
  assert (take (width_bytes (width self)) (header self p ++ rest) = header self p) as Ht.
  { rewrite <- (length_header self p). apply take_app_length. }
  unfold read_len. destruct (width self) eqn:Hw.
  - rewrite <- Hw in Ht. change (take 1) with (take (A:=Z) (width_bytes U8)).
    rewrite <- Hw, Ht. unfold header. rewrite Hw in *. case_match.
    + rewrite <- be_val_single by apply length_be_bytes. by apply be_val_be_bytes.
    + by apply le_val_le_bytes.
  - rewrite Ht. unfold header. rewrite Hw. case_match;
      [by apply be_val_be_bytes | by apply le_val_le_bytes].
  - rewrite Ht. unfold header. rewrite Hw. case_match;
      [by apply be_val_be_bytes | by apply le_val_le_bytes].
  - rewrite Ht. unfold header. rewrite Hw. case_match;
      [by apply be_val_be_bytes | by apply le_val_le_bytes].
Qed.

(** An encoded payload in front of the buffer is the next frame. *)
Lemma poll_encoded self p rest :
  payload_ok self p -> zlen p + 8 <= usize_max ->
  poll_frame self (encode_lp self p ++ rest) = (Ok (Some p), rest).
Proof.
  intros Hok Hfit. apply poll_lp_Some. cbv zeta.
  assert (payload_len self (encode_lp self p ++ rest) = zlen p) as Hn.
  { unfold payload_len, encode_lp. rewrite <- app_assoc, take_app_le
      by (rewrite length_header; lia).
    rewrite take_ge by (rewrite length_header; lia).
    rewrite <- (app_nil_r (header self p)), read_len_header by done.
    unfold declared. pose proof (zlen_nonneg p). destruct (include_header self); [|lia].
    unfold sat_sub. rewrite clampz_id; [lia|]. unfold usize_max in Hfit.
    destruct (width self); simpl; lia. }
  rewrite Hn. unfold encode_lp. rewrite !zlen_app.
  assert (zlen (header self p) = Z.of_nat (width_bytes (width self))) as Hh
    by (unfold zlen; by rewrite length_header).
  rewrite Hh. pose proof (zlen_nonneg p). pose proof (zlen_nonneg rest).
  assert (Z.of_nat (width_bytes (width self)) <= 8) by (destruct (width self); simpl; lia).
  destruct Hok as [Hmax _].
  rewrite <- app_assoc, <- (length_header self p), drop_app_length.
  replace (Z.to_nat (zlen p)) with (length p) by (unfold zlen; lia).
  rewrite take_app_length, drop_app_length, length_header.
  repeat split; try done; lia.
Qed.
End LengthPrefixedFramer.

(** ** Draining a framer

    The inner loop of [run_source_once_notify]: poll until the framer asks for
    more bytes.  The result carries the frames, how the loop ended and the
    buffer it leaves; [None] is the exhausted fuel of [drain_n]. *)
Section Drain.
  Context {F : Type} `{Framer F}.

Fixpoint drain_n (fuel : nat) (f : F) (buf : list Z)
  : option (list (list Z) * result unit * list Z) :=
  match fuel with
  | O => None
  | S fuel' =>
      match poll_frame f buf with
      | (Ok (Some fr), buf') =>
          (fun '(fs, r, b) => (fr :: fs, r, b)) <$> drain_n fuel' f buf'
      | (Ok None, buf') => Some ([], Ok tt, buf')
      | (Err e, buf') => Some ([], Err e, buf')
      | (Panic, buf') => Some ([], Panic, buf')
      end
  end.

(** Every frame takes at least one byte, so this fuel is enough. *)
Definition drain (f : F) (buf : list Z) : option (list (list Z) * result unit * list Z) :=
  drain_n (S (length buf)) f buf.

(** Chunks arriving one after the other: [buf.extend_from_slice], then drain. *)
Fixpoint feed (f : F) (buf : list Z) (chunks : list (list Z))
  : option (list (list Z) * result unit * list Z) :=
  match chunks with
  | [] => Some ([], Ok tt, buf)
  | c :: cs =>
      match drain f (buf ++ c) with
      | Some (fs, Ok _, b) => (fun '(fs', r, b') => (fs ++ fs', r, b')) <$> feed f b cs
      | stop => stop
      end
  end.
End Drain.

Section DrainFacts.
  Context {F : Type} `{FramerLaws F}.
  Implicit Types (f : F) (buf : list Z).

Lemma poll_shrinks f buf fr buf' :
  poll_frame f buf = (Ok (Some fr), buf') -> (length buf' < length buf)%nat.
Proof.
  intros (pre & -> & Hpre & _)%poll_consumes. rewrite length_app.
  destruct pre; [done|]. simpl. lia.
Qed.

Lemma drain_n_fuel n m f buf :
  (length buf < n)%nat -> (length buf < m)%nat -> drain_n n f buf = drain_n m f buf.
Proof.
  revert m buf. induction n as [|n IH]; intros [|m] buf Hn Hm; [lia..|]. simpl.
  destruct (poll_frame f buf) as [[[fr|]| |] buf'] eqn:Hp; [|done..].
  apply poll_shrinks in Hp. rewrite (IH m); [done|lia..].
Qed.

(** The equation of the drain loop, with no fuel left in it. *)
Lemma drain_eq f buf :
  drain f buf =
  match poll_frame f buf with
  | (Ok (Some fr), buf') => (fun '(fs, r, b) => (fr :: fs, r, b)) <$> drain f buf'
  | (Ok None, buf') => Some ([], Ok tt, buf')
  | (Err e, buf') => Some ([], Err e, buf')
  | (Panic, buf') => Some ([], Panic, buf')
  end.
Proof.
  unfold drain at 1. simpl. destruct (poll_frame f buf) as [[[fr|]| |] buf'] eqn:Hp; [|done..].
  apply poll_shrinks in Hp. unfold drain. by rewrite (drain_n_fuel (length buf) (S (length buf'))) by lia.
Qed.

(** Induction on the length of the buffer, the measure of the drain loop. *)
Lemma buf_ind (P : list Z -> Prop) :
  (forall buf, (forall b, (length b < length buf)%nat -> P b) -> P buf) -> forall buf, P buf.
Proof.
  intros IH buf. remember (length buf) as n eqn:Hn. revert buf Hn.
  induction n as [n IHn] using lt_wf_ind. intros buf ->. apply IH. intros b Hb. by eapply IHn.
Qed.

Lemma drain_stops_aux f buf : is_Some (drain f buf).
Proof.
  induction buf as [buf IH] using buf_ind. rewrite drain_eq.
  destruct (poll_frame f buf) as [[[fr|]| |] buf'] eqn:Hp; [|by eauto..].
  apply poll_shrinks in Hp. destruct (IH _ Hp) as [[[fs r] b] ->]. eauto.
Qed.

Lemma drain_conserves_aux f buf fs r rest :
  drain f buf = Some (fs, r, rest) ->
  exists consumed, buf = consumed ++ rest /\ concat fs `sublist_of` consumed.
Proof.
  revert fs r rest. induction buf as [buf IH] using buf_ind. intros fs r rest.
  rewrite drain_eq. destruct (poll_frame f buf) as [[[fr|]| |] buf'] eqn:Hp.
  - intros ([[fs' r'] b] & Hd & Heq)%fmap_Some. simplify_eq.
    pose proof (poll_shrinks _ _ _ _ Hp) as Hlt.
    destruct (IH _ Hlt _ _ _ Hd) as (c & Hc & Hs).
    apply poll_consumes in Hp as (pre & -> & _ & a & b' & ->).
    exists ((a ++ fr ++ b') ++ c). split; [by rewrite Hc, !app_assoc|]. simpl.
    apply sublist_app; [|done]. by apply sublist_inserts_l, sublist_inserts_r.
  - intros [= <- <- <-]. apply poll_stays in Hp; [|done]. subst. exists []. split; [done|]. constructor.
  - intros [= <- <- <-]. apply poll_stays in Hp; [|done]. subst. exists []. split; [done|]. constructor.
  - intros [= <- <- <-]. apply poll_stays in Hp; [|done]. subst. exists []. split; [done|]. constructor.
Qed.

(** Draining a longer buffer continues where draining the shorter one ended. *)
Lemma drain_app_stable f `{!StableFramer f} buf more fs b :
  drain f buf = Some (fs, Ok tt, b) ->
  drain f (buf ++ more) = (fun '(fs', r, b') => (fs ++ fs', r, b')) <$> drain f (b ++ more).
Proof.
  revert fs b. induction buf as [buf IH] using buf_ind. intros fs b. rewrite drain_eq.
  destruct (poll_frame f buf) as [[[fr|]| |] buf'] eqn:Hp; [| |done..].
  - intros ([[fs' r'] b'] & Hd & Heq)%fmap_Some. simplify_eq.
    pose proof (poll_shrinks _ _ _ _ Hp) as Hlt.
    rewrite drain_eq, (poll_stable _ _ _ more Hp), (IH _ Hlt _ _ Hd).
    by destruct (drain f (b' ++ more)) as [[[??]?]|].
  - intros [= <- <-]. apply poll_stays in Hp; [|done]. subst.
    by destruct (drain f (buf ++ more)) as [[[??]?]|].
Qed.

(** A buffer that starts with frames yields them first. *)
Lemma drain_prefix f (enc : list Z -> list Z) payloads rest :
  Forall (fun p => forall k, poll_frame f (enc p ++ k) = (Ok (Some p), k)) payloads ->
  drain f (concat (map enc payloads) ++ rest) =
  (fun '(fs, r, b) => (payloads ++ fs, r, b)) <$> drain f rest.
Proof.
  induction payloads as [|p ps IH]; intros Hps; simpl.
  - by destruct (drain f rest) as [[[??]?]|].
  - inversion Hps as [|?? Hp Hps']; subst. rewrite <- app_assoc, drain_eq, Hp, IH by done.
    by destruct (drain f rest) as [[[??]?]|].
Qed.
End DrainFacts.

Lemma feed_drain {F} `{FramerLaws F} (f : F) `{!StableFramer f} buf c cs fs b :
  feed f buf (c :: cs) = Some (fs, Ok tt, b) ->
  drain f (buf ++ concat (c :: cs)) = Some (fs, Ok tt, b).
Proof.
  revert buf c fs b. induction cs as [|c' cs IH]; intros buf c fs b; cbn [feed concat];
    destruct (drain f (buf ++ c)) as [[[fs1 [[]| |]] b1]|] eqn:Hd; try done.
  - intros Hf. simplify_eq/=. by rewrite !app_nil_r.
  - intros ([[fs2 r2] b2] & Hf & Heq)%fmap_Some. simplify_eq.
    apply IH in Hf. rewrite app_assoc, (drain_app_stable f (buf ++ c) _ _ _ Hd).
    cbn [concat] in Hf. by rewrite Hf.
Qed.

(** ** Properties *)





(** Lines written with the terminator of a convention come back one by one,
    without the terminator, for LF, CRLF, CR and automatic detection; the bytes
    after the last terminator stay in the buffer for the next call. *)
Theorem line_round_trip (e : LineFramer.Eol) (max : Z) (lines : list (list Z)) (tail : list Z) :
  Forall (LineFramer.line_ok e) lines ->
  LineFramer.eol_position e tail = None -> zlen tail <= max ->
  drain (LineFramer.mk e max) (concat (map (fun l => l ++ LineFramer.terminator e) lines) ++ tail)
  = Some (lines, Ok tt, tail).
Proof.
  intros Hl Ht Hm. rewrite drain_prefix.
  - rewrite drain_eq. unfold poll_frame, LineFramer.framer, LineFramer.poll_frame_line.
    simpl. rewrite Ht. assert (max <? zlen tail = false) as -> by (apply Z.ltb_ge; lia).
    simpl. by rewrite app_nil_r.
  - eapply Forall_impl; [exact Hl|]. intros l Hok k. rewrite <- app_assoc.
    by apply (LineFramer.poll_line (LineFramer.mk e max)).
Qed.

Lemma line_round_trip_witness :
  drain (LineFramer.mk LineFramer.Crlf 4)
    (concat (map (fun l => l ++ LineFramer.terminator LineFramer.Crlf) [lit "a"; []; lit "b"])
     ++ lit "rest")
  = Some ([lit "a"; []; lit "b"], Ok tt, lit "rest").
Proof.
  apply (line_round_trip LineFramer.Crlf 4); [|reflexivity|vm_compute; discriminate].
  repeat constructor.
Defined.

(** Payloads written with the header of a length-prefixed framer (any
    width, byte order and header convention) come back unchanged and in order,
    provided each fits the header and the configured maximum. *)
Theorem length_prefixed_round_trip
    (self : LengthPrefixedFramer.LengthPrefixedFramer) (payloads : list (list Z)) :
  Forall (LengthPrefixedFramer.payload_ok self) payloads ->
  LengthPrefixedFramer.max_frame self + 8 <= usize_max ->
  drain self (concat (map (LengthPrefixedFramer.encode_lp self) payloads))
  = Some (payloads, Ok tt, []).
Proof.
  intros Hp Hm. rewrite <- (app_nil_r (concat _)), drain_prefix.
  - rewrite drain_eq. unfold poll_frame, LengthPrefixedFramer.framer,
      LengthPrefixedFramer.poll_frame_lp. destruct (LengthPrefixedFramer.width self); simpl;
      by rewrite app_nil_r.
  - eapply Forall_impl; [exact Hp|]. intros p Hok k.
    apply LengthPrefixedFramer.poll_encoded; [done|]. destruct Hok. lia.
Qed.

Lemma length_prefixed_round_trip_witness :
  let self := LengthPrefixedFramer.mk LengthPrefixedFramer.U16 LengthPrefixedFramer.Big true 1024 in
  drain self (concat (map (LengthPrefixedFramer.encode_lp self) [lit "abc"; lit "hello"]))
  = Some ([lit "abc"; lit "hello"], Ok tt, []).
Proof.
  apply (length_prefixed_round_trip
    (LengthPrefixedFramer.mk LengthPrefixedFramer.U16 LengthPrefixedFramer.Big true 1024)).
  - repeat constructor; vm_compute; discriminate.
  - vm_compute. discriminate.
Defined.

(** Finding: in automatic mode a CRLF that the transport splits between two reads is
    reported as the line and an extra empty line, while the same bytes in one
    read give the line alone. *)
Theorem auto_crlf_split_extra_frame (max : Z) (l : list Z) :
  LineFramer.line_ok LineFramer.Auto l -> 0 <= max ->
  feed (LineFramer.mk LineFramer.Auto max) [] [l ++ [13]; [10]] = Some ([l; []], Ok tt, []) /\
  feed (LineFramer.mk LineFramer.Auto max) [] [l ++ [13; 10]] = Some ([l], Ok tt, []).
Proof.
  intros Hl Hm. set (f := LineFramer.mk LineFramer.Auto max).
  assert (drain f [] = Some ([], Ok tt, [])) as H0.
  { rewrite drain_eq. unfold poll_frame, LineFramer.framer, LineFramer.poll_frame_line.
    cbn [f LineFramer.eol LineFramer.max_frame]. change (zlen []) with 0.
    by rewrite (proj2 (Z.ltb_ge max 0)) by lia. }
  assert (forall k, k = [13] \/ k = [13; 10] -> drain f (l ++ k) = Some ([l], Ok tt, [])) as H1.
  { intros k Hk. rewrite drain_eq.
    assert (poll_frame f (l ++ k) = (Ok (Some l), [])) as ->; [|by rewrite H0].
    by apply LineFramer.poll_auto_cr. }
  assert (drain f [10] = Some ([[]], Ok tt, [])) as H2.
  { rewrite drain_eq. change [10] with ([] ++ LineFramer.terminator (LineFramer.eol f) ++ []).
    rewrite LineFramer.poll_line by apply List.Forall_nil. by rewrite H0. }
  split; cbn [feed app]; rewrite H1 by auto; simpl; [by rewrite H2 | done].
Qed.

Lemma auto_crlf_split_extra_frame_witness :
  feed (LineFramer.mk LineFramer.Auto 64) [] [lit "ab" ++ [13]; [10]]
  = Some ([lit "ab"; []], Ok tt, []) /\
  feed (LineFramer.mk LineFramer.Auto 64) [] [lit "ab" ++ [13; 10]] = Some ([lit "ab"], Ok tt, []).
Proof.
  apply (auto_crlf_split_extra_frame 64 (lit "ab")); [|lia].
  repeat constructor; vm_compute; discriminate.
Defined.

(** A length-prefixed framer never emits a frame longer than its limit; a
    header that declares more is refused with E-1003, consumes nothing, and
    keeps being refused whatever bytes arrive later. *)
Theorem length_prefixed_limit (self : LengthPrefixedFramer.LengthPrefixedFramer) (buf : list Z) :
  (forall fr buf', poll_frame self buf = (Ok (Some fr), buf') ->
     zlen fr <= Z.max 0 (LengthPrefixedFramer.max_frame self)) /\
  (Z.of_nat (LengthPrefixedFramer.width_bytes (LengthPrefixedFramer.width self)) <= zlen buf ->
   LengthPrefixedFramer.max_frame self < LengthPrefixedFramer.payload_len self buf ->
   forall more, poll_frame self (buf ++ more) = (Err E1003FramerOverflow, buf ++ more)).
Proof.
  split.
  - intros fr buf' (H1 & H2 & H3 & H4 & -> & _)%LengthPrefixedFramer.poll_lp_Some.
    unfold zlen. rewrite length_take. lia.
  - intros Hh Hm more. unfold poll_frame, LengthPrefixedFramer.framer,
      LengthPrefixedFramer.poll_frame_lp. cbv zeta.
    fold (LengthPrefixedFramer.payload_len self (buf ++ more)).
    rewrite LengthPrefixedFramer.payload_len_app by done. pose proof (zlen_nonneg more).
    rewrite zlen_app.
    rewrite (proj2 (Z.ltb_ge _ _)) by lia. by rewrite (proj2 (Z.ltb_lt _ _)) by lia.
Qed.

Lemma length_prefixed_limit_witness :
  poll_frame (LengthPrefixedFramer.mk LengthPrefixedFramer.U32 LengthPrefixedFramer.Big false 8)
    ([0; 0; 0; 99] ++ [1; 2]) = (Err E1003FramerOverflow, [0; 0; 0; 99] ++ [1; 2]).
Proof.
  apply (length_prefixed_limit
    (LengthPrefixedFramer.mk LengthPrefixedFramer.U32 LengthPrefixedFramer.Big false 8)
    [0; 0; 0; 99]); vm_compute; congruence.
Defined.
