(* ===== verification/Text.v ===== *)
(** * Text: the parts of Rust's [str] and [String] the program uses

    A string is the list of its Unicode scalar values; its UTF-8 bytes are
    [utf8 s].  [from_utf8_lossy] follows the standard library: each maximal
    ill-formed prefix becomes one U+FFFD.  The functions below model the
    language's standard library, so they carry no source lines of their own;
    the lemmas are the ones the other files build on. *)
From stdpp Require Import base numbers strings list.
From S2P Require Import Prelude.

Local Open Scope Z_scope.

(** ** UTF-8 *)
Definition scalar_ok (c : Z) : bool :=
  in_range 0 0xD7FF c || in_range 0xE000 0x10FFFF c.
Definition str_ok (s : list Z) : Prop := Forall (fun c => scalar_ok c = true) s.

Definition utf8_char (c : Z) : list Z :=
  if c <? 0x80 then [c]
  else if c <? 0x800 then [0xC0 + c / 64; 0x80 + c mod 64]
  else if c <? 0x10000 then [0xE0 + c / 4096; 0x80 + (c / 64) mod 64; 0x80 + c mod 64]
  else [0xF0 + c / 262144; 0x80 + (c / 4096) mod 64; 0x80 + (c / 64) mod 64; 0x80 + c mod 64].
Definition utf8 (s : list Z) : list Z := concat (map utf8_char s).

(** [str::len]: the length in bytes. *)
Definition str_len (s : list Z) : Z := zlen (utf8 s).

Definition is_cont (b : Z) : bool := in_range 0x80 0xBF b.
Definition second3 (b0 b1 : Z) : bool :=
  if b0 =? 0xE0 then in_range 0xA0 0xBF b1
  else if b0 =? 0xED then in_range 0x80 0x9F b1
  else is_cont b1.
Definition second4 (b0 b1 : Z) : bool :=
  if b0 =? 0xF0 then in_range 0x90 0xBF b1
  else if b0 =? 0xF4 then in_range 0x80 0x8F b1
  else is_cont b1.

Definition replacement : Z := 0xFFFD.

Fixpoint from_utf8_lossy (l : list Z) : list Z :=
  match l with
  | [] => []
  | b0 :: l1 =>
      if b0 <? 0x80 then b0 :: from_utf8_lossy l1
      else if in_range 0xC2 0xDF b0 then
        match l1 with
        | b1 :: l2 =>
            if is_cont b1 then ((b0 - 0xC0) * 64 + (b1 - 0x80)) :: from_utf8_lossy l2
            else replacement :: from_utf8_lossy l1
        | [] => [replacement]
        end
      else if in_range 0xE0 0xEF b0 then
        match l1 with
        | b1 :: l2 =>
            if second3 b0 b1 then
              match l2 with
              | b2 :: l3 =>
                  if is_cont b2
                  then ((b0 - 0xE0) * 4096 + (b1 - 0x80) * 64 + (b2 - 0x80)) :: from_utf8_lossy l3
                  else replacement :: from_utf8_lossy l2
              | [] => [replacement]
              end
            else replacement :: from_utf8_lossy l1
        | [] => [replacement]
        end
      else if in_range 0xF0 0xF4 b0 then
        match l1 with
        | b1 :: l2 =>
            if second4 b0 b1 then
              match l2 with
              | b2 :: l3 =>
                  if is_cont b2 then
                    match l3 with
                    | b3 :: l4 =>
                        if is_cont b3
                        then ((b0 - 0xF0) * 262144 + (b1 - 0x80) * 4096 + (b2 - 0x80) * 64
                              + (b3 - 0x80)) :: from_utf8_lossy l4
                        else replacement :: from_utf8_lossy l3
                    | [] => [replacement]
                    end
                  else replacement :: from_utf8_lossy l2
              | [] => [replacement]
              end
            else replacement :: from_utf8_lossy l1
        | [] => [replacement]
        end
      else replacement :: from_utf8_lossy l1
  end.

(** [str::from_utf8]: the text when the bytes are well formed. *)
Definition from_utf8 (l : list Z) : option (list Z) :=
  let s := from_utf8_lossy l in if bool_decide (utf8 s = l) then Some s else None.

(** ** Character classes *)
Definition is_digit (c : Z) : bool := in_range 48 57 c.
Definition is_upper (c : Z) : bool := in_range 65 90 c.
Definition is_lower (c : Z) : bool := in_range 97 122 c.
Definition is_ascii_alphanumeric (c : Z) : bool := is_digit c || is_upper c || is_lower c.
Definition to_ascii_lower (c : Z) : Z := if is_upper c then c + 32 else c.
Definition to_ascii_lowercase (s : list Z) : list Z := map to_ascii_lower s.
(** [u8::is_ascii_whitespace]: space, tab, LF, form feed, CR. *)
Definition is_ascii_whitespace (b : Z) : bool :=
  (b =? 32) || (b =? 9) || (b =? 10) || (b =? 12) || (b =? 13).
(** [char::is_whitespace]: the Unicode White_Space property. *)
Definition is_whitespace (c : Z) : bool :=
  in_range 9 13 c || (c =? 32) || (c =? 0x85) || (c =? 0xA0) || (c =? 0x1680) ||
  in_range 0x2000 0x200A c || (c =? 0x2028) || (c =? 0x2029) || (c =? 0x202F) ||
  (c =? 0x205F) || (c =? 0x3000).
(** [char::is_control]: general category Cc. *)
Definition is_control (c : Z) : bool := in_range 0 31 c || in_range 127 159 c.

(** ** Trimming, searching and splitting *)
Fixpoint trim_start_matches (p : Z -> bool) (s : list Z) : list Z :=
  match s with
  | c :: s' => if p c then trim_start_matches p s' else s
  | [] => []
  end.
Definition trim_end_matches (p : Z -> bool) (s : list Z) : list Z :=
  rev (trim_start_matches p (rev s)).
Definition trim_matches (p : Z -> bool) (s : list Z) : list Z :=
  trim_end_matches p (trim_start_matches p s).
Definition trim (s : list Z) : list Z := trim_matches is_whitespace s.

Fixpoint strip_prefix (pre s : list Z) : option (list Z) :=
  match pre, s with
  | [], _ => Some s
  | p :: pre', c :: s' => if p =? c then strip_prefix pre' s' else None
  | _ :: _, [] => None
  end.
Definition starts_with (pre s : list Z) : bool :=
  match strip_prefix pre s with Some _ => true | None => false end.
Definition strip_suffix (suf s : list Z) : option (list Z) :=
  (fun r => rev r) <$> strip_prefix (rev suf) (rev s).
Definition str_eqb (a b : list Z) : bool := bool_decide (a = b).

(** [str::find] with a string pattern. *)
Fixpoint find_str (pat s : list Z) : option nat :=
  if starts_with pat s then Some O
  else match s with [] => None | _ :: s' => S <$> find_str pat s' end.
Definition contains_str (pat s : list Z) : bool :=
  match find_str pat s with Some _ => true | None => false end.

(** [str::split_once] with a string pattern. *)
Definition split_once (pat s : list Z) : option (list Z * list Z) :=
  (fun i => (take i s, drop (i + length pat) s)) <$> find_str pat s.

(** [str::split_at] and slicing at a byte offset: [None] when the offset is
    past the end or not on a character boundary, where the code panics. *)
Fixpoint split_at_byte (n : Z) (s : list Z) : option (list Z * list Z) :=
  if n =? 0 then Some ([], s)
  else match s with
       | [] => None
       | c :: s' =>
           let w := zlen (utf8_char c) in
           if n <? w then None
           else (fun p => (c :: fst p, snd p)) <$> split_at_byte (n - w) s'
       end.

(** [str::split] on one character: always at least one piece. *)
Fixpoint split_on (sep : Z) (s : list Z) : list (list Z) :=
  match s with
  | [] => [[]]
  | c :: s' =>
      if c =? sep then [] :: split_on sep s'
      else match split_on sep s' with
           | w :: ws => (c :: w) :: ws
           | [] => [[c]]
           end
  end.

(** [BufRead::lines] and [str::lines] on text: pieces that end with LF, a CR
    before it dropped too, and what follows the last LF when it is not empty. *)
Definition strip_cr (l : list Z) : list Z :=
  match last l with Some 13 => take (length l - 1) l | _ => l end.
Definition buf_lines (s : list Z) : list (list Z) :=
  let ps := split_on 10 s in
  map strip_cr (take (length ps - 1) ps) ++ match last ps with Some [] | None => [] | Some l => [l] end.

(** [str::replace] and [match_indices(..).count()] for a non-empty pattern:
    matches are taken left to right and do not overlap; [skip] counts the
    characters of the current match still to be dropped. *)
Fixpoint replace_go (pat to : list Z) (skip : nat) (s : list Z) : list Z :=
  match s with
  | [] => []
  | c :: s' =>
      match skip with
      | S k => replace_go pat to k s'
      | O => if starts_with pat s then to ++ replace_go pat to (length pat - 1) s'
             else c :: replace_go pat to O s'
      end
  end.
Definition replace (pat to s : list Z) : list Z := replace_go pat to O s.

Fixpoint count_go (pat : list Z) (skip : nat) (s : list Z) : nat :=
  match s with
  | [] => O
  | c :: s' =>
      match skip with
      | S k => count_go pat k s'
      | O => if starts_with pat s then S (count_go pat (length pat - 1) s')
             else count_go pat O s'
      end
  end.

Fixpoint join (sep : list Z) (ws : list (list Z)) : list Z :=
  match ws with
  | [] => []
  | [w] => w
  | w :: ws' => w ++ sep ++ join sep ws'
  end.

(** ** Numbers *)
Definition digit_val (radix c : Z) : option Z :=
  let v := if is_digit c then c - 48
           else if is_lower c then c - 97 + 10
           else if is_upper c then c - 65 + 10 else radix in
  if v <? radix then Some v else None.

Fixpoint parse_digits (radix acc : Z) (s : list Z) : option Z :=
  match s with
  | [] => Some acc
  | c :: s' =>
      match digit_val radix c with
      | Some d => parse_digits radix (acc * radix + d) s'
      | None => None
      end
  end.

(** [uN::from_str_radix] and [str::parse] for an unsigned type of maximum [hi]. *)
Definition parse_unsigned (radix hi : Z) (s : list Z) : option Z :=
  let body := match s with 43 :: s' => s' | _ => s end in
  match body with
  | [] => None
  | _ => match parse_digits radix 0 body with
         | Some v => if v <=? hi then Some v else None
         | None => None
         end
  end.

(** [str::parse] for a signed type. *)
Definition parse_signed (lo hi : Z) (s : list Z) : option Z :=
  match s with
  | 45 :: body =>
      match body with
      | [] => None
      | _ => match parse_digits 10 0 body with
             | Some v => if lo <=? - v then Some (- v) else None
             | None => None
             end
      end
  | _ => parse_unsigned 10 hi s
  end.

Fixpoint dec_go (fuel : nat) (n : Z) (acc : list Z) : list Z :=
  match fuel with
  | O => acc
  | S k => if n <? 10 then (48 + n) :: acc else dec_go k (n / 10) ((48 + n mod 10) :: acc)
  end.
(** Decimal rendering of a non-negative integer; one digit per factor of ten,
    so the binary logarithm bounds the digits. *)
Definition show_nat (n : Z) : list Z := dec_go (S (Z.to_nat (Z.log2 n))) n [].
Definition show_int (n : Z) : list Z := if n <? 0 then 45 :: show_nat (- n) else show_nat n.

Definition hex_digit (upper : bool) (n : Z) : Z :=
  if n <? 10 then 48 + n else (if upper then 55 else 87) + n.
(** [{:02x}] / [{:02X}] of a byte. *)
Definition show_hex2 (upper : bool) (b : Z) : list Z :=
  [hex_digit upper (b / 16); hex_digit upper (b mod 16)].

(** ** Lemmas: UTF-8 *)

(** Decide the comparisons of a decoder step by arithmetic. *)
Ltac decide_ranges :=
  repeat (unfold is_cont, second3, second4, in_range; simpl;
    match goal with
    | |- context [?a <? ?b] =>
        first [ rewrite (proj2 (Z.ltb_lt a b)) by lia | rewrite (proj2 (Z.ltb_ge a b)) by lia ]
    | |- context [?a <=? ?b] =>
        first [ rewrite (proj2 (Z.leb_le a b)) by lia | rewrite (proj2 (Z.leb_gt a b)) by lia ]
    | |- context [?a =? ?b] =>
        first [ rewrite (proj2 (Z.eqb_eq a b)) by lia | rewrite (proj2 (Z.eqb_neq a b)) by lia ]
    end).

Lemma scalar_ok_spec c :
  scalar_ok c = true <-> 0 <= c <= 0xD7FF \/ 0xE000 <= c <= 0x10FFFF.
Proof. unfold scalar_ok. rewrite orb_true_iff, !in_range_spec. done. Qed.

Lemma div_mod_64 c : c = c / 64 * 64 + c mod 64 /\ 0 <= c mod 64 < 64.
Proof. pose proof (Z.div_mod c 64). pose proof (Z.mod_pos_bound c 64). lia. Qed.

Lemma lossy_utf8_char c l :
  scalar_ok c = true -> from_utf8_lossy (utf8_char c ++ l) = c :: from_utf8_lossy l.
Proof.
  intros Hc%scalar_ok_spec. unfold utf8_char.
  destruct (div_mod_64 c) as [E0 B0]. destruct (div_mod_64 (c / 64)) as [E1 B1].
  destruct (div_mod_64 (c / 64 / 64)) as [E2 B2].
  rewrite (Z.div_div c 64 64) in * by lia. rewrite (Z.div_div c (64 * 64) 64) in * by lia.
  change (64 * 64) with 4096 in *. change (4096 * 64) with 262144 in *.
  set (r0 := c mod 64) in *. set (q1 := c / 64) in *. set (r1 := q1 mod 64) in *.
  set (q2 := c / 4096) in *. set (r2 := q2 mod 64) in *. set (q3 := c / 262144) in *.
  destruct (c <? 0x80) eqn:C1; bprop; [simpl; decide_ranges; done|].
  destruct (c <? 0x800) eqn:C2; bprop; [cbn [app from_utf8_lossy]; decide_ranges; f_equal; lia|].
  destruct (c <? 0x10000) eqn:C3; bprop.
  - cbn [app from_utf8_lossy]. decide_ranges.
    destruct (0xE0 + q2 =? 0xE0) eqn:Q; bprop; [decide_ranges; f_equal; lia|].
    destruct (0xE0 + q2 =? 0xED) eqn:Q'; bprop; decide_ranges; f_equal; lia.
  - cbn [app from_utf8_lossy]. decide_ranges.
    destruct (0xF0 + q3 =? 0xF0) eqn:Q; bprop; [decide_ranges; f_equal; lia|].
    destruct (0xF0 + q3 =? 0xF4) eqn:Q'; bprop; decide_ranges; f_equal; lia.
Qed.

Lemma utf8_cons c s : utf8 (c :: s) = utf8_char c ++ utf8 s.
Proof. reflexivity. Qed.
Lemma utf8_app s t : utf8 (s ++ t) = utf8 s ++ utf8 t.
Proof. unfold utf8. by rewrite map_app, concat_app. Qed.

(** Decoding what was encoded gives the text back. *)
Lemma lossy_utf8 s : str_ok s -> from_utf8_lossy (utf8 s) = s.
Proof.
  induction s as [|c s IH]; intros H; [done|]. inversion H; subst.
  rewrite utf8_cons, lossy_utf8_char by done. by rewrite IH.
Qed.

Lemma utf8_char_bytes c : scalar_ok c = true -> bytes_ok (utf8_char c).
Proof.
  intros Hc%scalar_ok_spec. unfold utf8_char, bytes_ok.
  pose proof (div_mod_64 c). pose proof (div_mod_64 (c / 64)).
  pose proof (div_mod_64 (c / 4096)).
  assert (c / 4096 = c / 64 / 64) as E by (rewrite Z.div_div by lia; done).
  assert (c / 262144 = c / 4096 / 64) as E' by (rewrite Z.div_div by lia; done).
  repeat case_if; bprop; repeat constructor; lia.
Qed.

Lemma utf8_bytes s : str_ok s -> bytes_ok (utf8 s).
Proof.
  induction s as [|c s IH]; intros H; [constructor|]. inversion H; subst.
  rewrite utf8_cons, bytes_ok_app. auto using utf8_char_bytes.
Qed.

Lemma utf8_ascii s : Forall (fun c => 0 <= c < 128) s -> utf8 s = s.
Proof.
  induction s as [|c s IH]; intros H; [done|]. inversion H; subst.
  rewrite utf8_cons, IH by done. unfold utf8_char. by rewrite (proj2 (Z.ltb_lt c 0x80)) by lia.
Qed.

Lemma ascii_scalar c : 0 <= c < 128 -> scalar_ok c = true.
Proof. intros. apply scalar_ok_spec. lia. Qed.

(** ** Lemmas: trimming *)
Lemma trim_start_suffix p s : exists k, s = k ++ trim_start_matches p s /\ Forall (fun c => p c = true) k.
Proof.
  induction s as [|c s IH]; simpl; [by exists []|]. destruct (p c) eqn:Hc.
  - destruct IH as (k & Hk & Hf). exists (c :: k). simpl. split; [by f_equal|]. by constructor.
  - exists []. by split.
Qed.

Lemma trim_start_head p s c k : trim_start_matches p s = c :: k -> p c = false.
Proof.
  induction s as [|x s IH]; simpl; [done|]. destruct (p x) eqn:Hx; [done|].
  intros [= -> ->]. done.
Qed.

Lemma trim_start_id p s : (forall c k, s = c :: k -> p c = false) -> trim_start_matches p s = s.
Proof. destruct s as [|c s]; [done|]. intros H. simpl. by rewrite (H c s). Qed.

Lemma trim_end_id p s : (forall c, last s = Some c -> p c = false) -> trim_end_matches p s = s.
Proof.
  intros H. unfold trim_end_matches. rewrite trim_start_id; [apply rev_involutive|].
  intros c k Hr. apply H. apply (f_equal (@rev Z)) in Hr. rewrite rev_involutive in Hr.
  rewrite Hr. simpl. apply last_snoc.
Qed.

Lemma trim_matches_id p s :
  (forall c k, s = c :: k -> p c = false) -> (forall c, last s = Some c -> p c = false) ->
  trim_matches p s = s.
Proof. intros H1 H2. unfold trim_matches. by rewrite trim_start_id, trim_end_id by done. Qed.

Lemma trim_end_prefix p s : exists k, s = trim_end_matches p s ++ k /\ Forall (fun c => p c = true) k.
Proof.
  unfold trim_end_matches. destruct (trim_start_suffix p (rev s)) as (k & Hk & Hf).
  exists (rev k). split; [|by apply Forall_rev].
  apply (f_equal (@rev Z)) in Hk. by rewrite rev_involutive, rev_app_distr in Hk.
Qed.

Lemma trim_end_last p s c : last (trim_end_matches p s) = Some c -> p c = false.
Proof.
  unfold trim_end_matches. destruct (trim_start_matches p (rev s)) as [|x k] eqn:E; [done|].
  simpl. rewrite last_snoc. intros [= ->]. by eapply trim_start_head.
Qed.

Lemma trim_end_head p s c k :
  (forall x l, s = x :: l -> p x = false) -> trim_end_matches p s = c :: k -> p c = false.
Proof.
  intros H Ht. destruct (trim_end_prefix p s) as (k' & Hs & _). rewrite Ht in Hs. by eapply H.
Qed.

(** Both ends of a trimmed string fail the predicate. *)
Lemma trim_matches_ends p s :
  (forall c k, trim_matches p s = c :: k -> p c = false) /\
  (forall c, last (trim_matches p s) = Some c -> p c = false).
Proof.
  unfold trim_matches. split.
  - intros c k. apply trim_end_head. intros x l. apply trim_start_head.
  - intros c. apply trim_end_last.
Qed.

Lemma trim_matches_Forall (P : Z -> Prop) p s : Forall P s -> Forall P (trim_matches p s).
Proof.
  intros H. unfold trim_matches. destruct (trim_start_suffix p s) as (k & Hk & _).
  rewrite Hk in H. apply Forall_app in H as [_ H].
  destruct (trim_end_prefix p (trim_start_matches p s)) as (k' & Hk' & _).
  rewrite Hk' in H. by apply Forall_app in H as [H _].
Qed.

Lemma trim_matches_length p s : (length (trim_matches p s) <= length s)%nat.
Proof.
  unfold trim_matches. destruct (trim_start_suffix p s) as (k & Hk & _).
  destruct (trim_end_prefix p (trim_start_matches p s)) as (k' & Hk' & _).
  apply (f_equal length) in Hk, Hk'. rewrite length_app in *. lia.
Qed.

Lemma trim_matches_idem p s : trim_matches p (trim_matches p s) = trim_matches p s.
Proof. destruct (trim_matches_ends p s). by apply trim_matches_id. Qed.

(** ** Lemmas: splitting and joining *)
Lemma split_on_nonempty sep s : split_on sep s <> [].
Proof.
  destruct s as [|c s]; simpl; [done|]. destruct (c =? sep); [done|]. by destruct (split_on sep s).
Qed.

Lemma split_on_app sep a b : split_on sep (a ++ sep :: b) = split_on sep a ++ split_on sep b.
Proof.
  induction a as [|c a IH]; simpl.
  - by rewrite Z.eqb_refl.
  - rewrite IH. destruct (c =? sep); [done|]. pose proof (split_on_nonempty sep a).
    by destruct (split_on sep a).
Qed.

Lemma split_on_none sep s : Forall (fun c => c <> sep) s -> split_on sep s = [s].
Proof.
  induction 1 as [|c s Hc _ IH]; simpl; [done|]. apply Z.eqb_neq in Hc. by rewrite Hc, IH.
Qed.

Lemma split_on_join sep ws :
  ws <> [] -> Forall (Forall (fun c => c <> sep)) ws -> split_on sep (join [sep] ws) = ws.
Proof.
  induction ws as [|w [|w' ws] IH]; intros Hne HF; [done| |].
  - inversion HF; subst. by apply split_on_none.
  - inversion HF as [|? ? Hw HF']; subst. change (join [sep] (w :: w' :: ws)) with (w ++ sep :: join [sep] (w' :: ws)).
    by rewrite split_on_app, split_on_none, IH by done.
Qed.

(** The last piece is what follows the last separator. *)
Lemma rsplit_last sep a b :
  Forall (fun c => c <> sep) b -> last (split_on sep (a ++ sep :: b)) = Some b.
Proof. intros. by rewrite split_on_app, (split_on_none sep b), last_snoc. Qed.

(** ** Lemmas: numbers *)
Lemma parse_digits_app radix s : forall acc t,
  parse_digits radix acc (s ++ t) =
  match parse_digits radix acc s with Some a => parse_digits radix a t | None => None end.
Proof.
  induction s as [|c s IH]; intros acc t; simpl; [done|]. by destruct (digit_val radix c).
Qed.

Lemma digit_val_dec d : 0 <= d < 10 -> digit_val 10 (48 + d) = Some d.
Proof.
  intros. unfold digit_val, is_digit, in_range. decide_ranges. f_equal. lia.
Qed.

Lemma is_digit_dec d : 0 <= d < 10 -> is_digit (48 + d) = true.
Proof. intros. unfold is_digit. apply in_range_spec. lia. Qed.

Lemma dec_go_parse fuel : forall n acc, 0 <= n < 2 ^ Z.of_nat fuel -> (0 < fuel)%nat ->
  parse_digits 10 0 (dec_go fuel n acc) = parse_digits 10 n acc.
Proof.
  induction fuel as [|fuel IH]; intros n acc Hn Hf; [lia|]. cbn [dec_go].
  destruct (Z.ltb_spec n 10).
  - cbn [parse_digits]. by rewrite digit_val_dec by lia.
  - rewrite Nat2Z.inj_succ, Z.pow_succ_r in Hn by lia.
    pose proof (Z.mod_pos_bound n 10 ltac:(lia)). pose proof (Z.div_mod n 10 ltac:(lia)).
    assert (0 < fuel)%nat by (destruct fuel; [simpl in Hn; lia|lia]).
    rewrite IH; [|split; [apply Z.div_pos; lia|apply Z.div_lt_upper_bound; lia]|done].
    cbn [parse_digits]. rewrite digit_val_dec by lia. f_equal. lia.
Qed.

Lemma dec_go_digits fuel : forall n acc,
  0 <= n -> Forall (fun c => is_digit c = true) acc ->
  Forall (fun c => is_digit c = true) (dec_go fuel n acc).
Proof.
  induction fuel as [|fuel IH]; intros n acc Hn Ha; [done|]. cbn [dec_go].
  destruct (Z.ltb_spec n 10).
  - constructor; [|done]. apply is_digit_dec. lia.
  - apply IH; [apply Z.div_pos; lia|]. constructor; [|done]. apply is_digit_dec.
    apply Z.mod_pos_bound. lia.
Qed.

Lemma dec_go_nonempty fuel n acc : (0 < fuel)%nat \/ acc <> [] -> dec_go fuel n acc <> [].
Proof.
  revert n acc. induction fuel as [|fuel IH]; intros n acc H; cbn [dec_go]; [destruct H; [lia|done]|].
  destruct (n <? 10); [done|]. apply IH. by right.
Qed.

Lemma show_nat_parse n : 0 <= n -> parse_digits 10 0 (show_nat n) = Some n.
Proof.
  intros. unfold show_nat. rewrite dec_go_parse; [done| |lia].
  rewrite Nat2Z.inj_succ, Z2Nat.id by apply Z.log2_nonneg.
  destruct (Z.eq_dec n 0) as [->|]; [simpl; lia|]. pose proof (Z.log2_spec n). lia.
Qed.
Lemma show_nat_digits n : 0 <= n -> Forall (fun c => is_digit c = true) (show_nat n).
Proof. intros. apply dec_go_digits; [done|constructor]. Qed.
Lemma show_nat_nonempty n : show_nat n <> [].
Proof. apply dec_go_nonempty. left. lia. Qed.

Lemma parse_unsigned_digits radix hi s v :
  s <> [] -> (forall k, s <> 43 :: k) -> parse_digits radix 0 s = Some v -> v <= hi ->
  parse_unsigned radix hi s = Some v.
Proof.
  intros Hne Hplus Hp Hv. unfold parse_unsigned. apply Z.leb_le in Hv.
  assert (match s with 43 :: s' => s' | _ => s end = s) as ->.
  { destruct s as [|c s]; [done|]. destruct (decide (c = 43)) as [->|Hc]; [by destruct (Hplus s)|].
    repeat (destruct c as [|c|c]; try done). }
  destruct s as [|c s]; [done|]. by rewrite Hp, Hv.
Qed.

Lemma digits_no_sign s k sign :
  Forall (fun c => is_digit c = true) s -> sign = 43 \/ sign = 45 -> s <> sign :: k.
Proof. intros H Hs ->. inversion H as [|? ? Hd _]; subst. by destruct Hs as [->| ->]. Qed.

(** Printing then parsing an unsigned number gives it back. *)
Lemma parse_show_nat hi n : 0 <= n <= hi -> parse_unsigned 10 hi (show_nat n) = Some n.
Proof.
  intros. apply parse_unsigned_digits; [apply show_nat_nonempty| |apply show_nat_parse; lia|lia].
  intros k. apply digits_no_sign; [apply show_nat_digits; lia|by left].
Qed.
Lemma parse_signed_unsigned lo hi s :
  (forall k, s <> 45 :: k) -> parse_signed lo hi s = parse_unsigned 10 hi s.
Proof.
  intros H. unfold parse_signed. destruct s as [|c s]; [done|].
  destruct (decide (c = 45)) as [->|Hc]; [by destruct (H s)|].
  repeat (destruct c as [|c|c]; try done).
Qed.
Lemma parse_show_int lo hi n : lo <= n <= hi -> lo <= 0 <= hi -> parse_signed lo hi (show_int n) = Some n.
Proof.
  intros Hn H0. unfold show_int. destruct (Z.ltb_spec n 0).
  - unfold parse_signed. pose proof (show_nat_nonempty (- n)) as Hne.
    pose proof (show_nat_parse (- n) ltac:(lia)) as Hp.
    destruct (show_nat (- n)) as [|c s]; [done|]. rewrite Hp.
    replace (- - n) with n by lia. destruct (Z.leb_spec lo n); [done|lia].
  - rewrite parse_signed_unsigned; [apply parse_show_nat; lia|].
    intros k. apply digits_no_sign; [apply show_nat_digits; lia|by right].
Qed.

(** Lines written with [\n] after each read back as they were. *)
Lemma strip_cr_id l : Forall (fun c => c <> 13) l -> strip_cr l = l.
Proof.
  intros H. unfold strip_cr. destruct (last l) as [c|] eqn:E; [|done].
  apply last_Some_elem_of in E. rewrite Forall_forall in H. apply H in E.
  repeat (destruct c as [|c|c]; try done).
Qed.
Lemma buf_lines_concat ls :
  Forall (Forall (fun c => c <> 10 /\ c <> 13)) ls ->
  buf_lines (concat (map (fun l => l ++ [10]) ls)) = ls.
Proof.
  intros HF. assert (Hs : split_on 10 (concat (map (fun l => l ++ [10]) ls)) = ls ++ [[]]).
  { induction HF as [|l ls Hl _ IH]; [done|]. cbn [map concat]. rewrite <- (assoc_L (++)). cbn [app].
    rewrite split_on_app, IH, split_on_none; [done|]. eapply Forall_impl; [exact Hl|]. naive_solver. }
  unfold buf_lines. rewrite Hs, last_snoc, length_app, app_nil_r. cbn [length].
  replace (length ls + 1 - 1)%nat with (length ls) by lia. rewrite take_app_length.
  clear Hs. induction HF as [|l ls Hl _ IH]; [done|]. simpl. rewrite strip_cr_id, IH; [done|].
  eapply Forall_impl; [exact Hl|]. naive_solver.
Qed.

(** ** Lemmas: searching for one character *)
Lemma find_char_prefix c a b :
  Forall (fun x => x <> c) a -> find_str [c] (a ++ c :: b) = Some (length a).
Proof.
  induction 1 as [|x a Hx _ IH]; simpl.
  - unfold starts_with. simpl. by rewrite Z.eqb_refl.
  - unfold starts_with. simpl. rewrite (proj2 (Z.eqb_neq c x)) by congruence. by rewrite IH.
Qed.
Lemma find_char_none c a : Forall (fun x => x <> c) a -> find_str [c] a = None.
Proof.
  induction 1 as [|x a Hx _ IH]; simpl; [done|].
  unfold starts_with. simpl. rewrite (proj2 (Z.eqb_neq c x)) by congruence. by rewrite IH.
Qed.
Lemma split_once_char c a b :
  Forall (fun x => x <> c) a -> split_once [c] (a ++ c :: b) = Some (a, b).
Proof.
  intros H. unfold split_once. rewrite find_char_prefix by done. simpl.
  rewrite take_app_length. by rewrite (assoc_L (++) a [c] b : a ++ c :: b = _), drop_app_length' by (by rewrite length_app).
Qed.
Lemma split_once_char_none c a : Forall (fun x => x <> c) a -> split_once [c] a = None.
Proof. intros H. unfold split_once. by rewrite find_char_none. Qed.

Lemma replace_char_none c to s : Forall (fun x => x <> c) s -> replace [c] to s = s.
Proof.
  unfold replace. induction 1 as [|x s Hx _ IH]; simpl; [done|].
  unfold starts_with. simpl. rewrite (proj2 (Z.eqb_neq c x)) by congruence. by rewrite IH.
Qed.

(** ** Lemmas: prefixes and suffixes *)
Lemma strip_prefix_app_same p s : strip_prefix p (p ++ s) = Some s.
Proof. induction p as [|c p IH]; [done|]. cbn. by rewrite Z.eqb_refl. Qed.
Lemma strip_prefix_Some p s r : strip_prefix p s = Some r -> s = p ++ r.
Proof.
  revert s. induction p as [|c p IH]; intros s; cbn; [naive_solver|].
  destruct s as [|d s]; [done|]. case_if; [|done]. bprop. subst. intros H. by rewrite (IH _ H).
Qed.
Lemma strip_suffix_app suf s : strip_suffix suf (s ++ suf) = Some s.
Proof. unfold strip_suffix. rewrite rev_app_distr, strip_prefix_app_same. cbn. by rewrite rev_involutive. Qed.
Lemma strip_suffix_Some suf s r : strip_suffix suf s = Some r -> s = r ++ suf.
Proof.
  unfold strip_suffix. destruct (strip_prefix (rev suf) (rev s)) as [q|] eqn:E; [|done]. intros [= <-].
  apply strip_prefix_Some in E. rewrite <- (rev_involutive s), E, rev_app_distr. by rewrite rev_involutive.
Qed.
