(* ===== verification/Wal.v ===== *)
(** * The write-ahead log and its group commit

    [WalWriter], [WalReader] and the torn-tail recovery of
    crates/core/src/log/wal.rs, and the fsync scheduler of
    crates/core/src/log/group_commit.rs.  A file is its bytes, the cursor of
    the handle and the number of leading bytes known to be durable; writes may
    fail after any number of bytes, and a crash may replace everything behind
    the durable prefix by arbitrary bytes.  The CRC of the [crc32fast] crate is
    a parameter. *)
From stdpp Require Import base numbers strings list.
From S2P Require Import Prelude.

Local Open Scope Z_scope.
Local Open Scope tm_scope.

(** ** The file underneath *)
Record File := mkFile { f_bytes : list Z; f_pos : nat; f_durable : nat }.

(** Bytes written at [pos]: overwrites, extends, and zero-fills a hole. *)
Definition write_at (pos : nat) (data c : list Z) : list Z :=
  take pos c ++ replicate (pos - length c) 0 ++ data ++ drop (pos + length data) c.

(** [write_all]: [None] writes everything, [Some k] fails after [k] bytes. *)
Definition write_all (io : option nat) (f : File) (data : list Z) : File * bool :=
  let out := match io with None => data | Some k => take k data end in
  (mkFile (write_at (f_pos f) out (f_bytes f)) (f_pos f + length out)
          (Nat.min (f_durable f) (f_pos f)),
   match io with None => true | Some _ => false end).

Definition sync_data (ok : bool) (f : File) : File * bool :=
  (if ok then mkFile (f_bytes f) (f_pos f) (length (f_bytes f)) else f, ok).

Definition set_len (n : nat) (f : File) : File :=
  mkFile (take n (f_bytes f) ++ replicate (n - length (f_bytes f)) 0) (f_pos f)
         (Nat.min (f_durable f) n).

Definition seek (n : nat) (f : File) : File := mkFile (f_bytes f) n (f_durable f).

(** [read_exact]: [None] is [UnexpectedEof]. *)
Definition read_exact (n : nat) (rest : list Z) : option (list Z * list Z) :=
  if (n <=? length rest)%nat then Some (take n rest, drop n rest) else None.

(** What may be on disk after a crash: the durable prefix is intact, the rest
    is arbitrary. *)
Definition crash (f : File) (c : list Z) : Prop :=
  (f_durable f <= length c)%nat /\ take (f_durable f) c = take (f_durable f) (f_bytes f) /\ bytes_ok c.

(** ** wal.rs *)
Definition MAGIC : list Z := lit "WLOG".
Definition FORMAT_VERSION : Z := 1.
Definition HEADER_LEN : Z := 12.
Definition MAX_PAYLOAD : Z := 1024 * 1024.

Record WalWriter := mkWal { file : File; end_ : Z }.
Record WalRecord := mkRecord { offset : Z; payload : list Z }.
Record WriteIo := mkIo { io_hdr : option nat; io_payload : option nat }.
Definition io_fine : WriteIo := mkIo None None.

(** [h] is twelve zero bytes with the magic and the version copied in. *)
Definition header_bytes : list Z := MAGIC ++ le_bytes 2 FORMAT_VERSION ++ replicate 6 0.

Definition write_header (f : File) : File := fst (write_all None f header_bytes).

Definition verify_header (c : list Z) : result unit :=
  match read_exact (Z.to_nat HEADER_LEN) c with
  | None => Err E1001PipelineGeneric
  | Some (h, _) =>
      if negb (bool_decide (take 4 h = MAGIC)) then Err E1001PipelineGeneric
      else if negb (le_val (take 2 (drop 4 h)) =? FORMAT_VERSION) then Err E1001PipelineGeneric
      else Ok tt
  end.

Section Wal.
  Variable crc32 : list Z -> Z.

(** The loop of [scan_valid_end]; running out of fuel is [Panic]. *)
Fixpoint scan_loop (fuel : nat) (rest : list Z) (pos len : Z) : result Z :=
  match fuel with
  | O => Panic
  | S fuel' =>
      if pos =? len then Ok pos else
      match read_exact 8 rest with
      | None => Ok pos
      | Some (hdr, rest1) =>
          let rlen := le_val (take 4 hdr) in
          let rcrc := le_val (drop 4 hdr) in
          if MAX_PAYLOAD <? rlen then Ok pos
          else if len <? pos + 8 + rlen then Ok pos
          else match read_exact (Z.to_nat rlen) rest1 with
               | None => Ok pos
               | Some (payload, rest2) =>
                   if negb (crc32 payload =? rcrc) then Ok pos
                   else scan_loop fuel' rest2 (pos + (8 + rlen)) len
               end
      end
  end.

Definition scan_valid_end (c : list Z) (len : Z) : result Z :=
  scan_loop (S (length c)) (drop (Z.to_nat HEADER_LEN) c) HEADER_LEN len.

(** [WalWriter::open] on a file that exists ([create(true)] makes an empty one). *)
Definition wal_open (f : File) : result WalWriter :=
  let len := zlen (f_bytes f) in
  let* '(f1, e) :=
    (if len =? 0 then Ok (fst (sync_data true (write_header f)), HEADER_LEN)
     else do* verify_header (f_bytes f) in
          let* e := scan_valid_end (f_bytes f) len in
          Ok (f, e)) in
  let f2 := if e =? len then f1 else set_len (Z.to_nat e) f1 in
  Ok (mkWal (seek (Z.to_nat e) f2) e).

(** [WalWriter::append]. *)
Definition append (io : WriteIo) (w : WalWriter) (p : list Z) : WalWriter * result Z :=
  match try_from 0 u32_max (zlen p) with
  | None => (w, Err E1001PipelineGeneric)
  | Some len =>
      if MAX_PAYLOAD <? len then (w, Err E1003FramerOverflow)
      else
        let crc := crc32 p in
        let header_off := end_ w in
        match @checked ErrorId 0 u64_max (header_off + 8) with
        | Ok payload_off =>
            let hdr := le_bytes 4 len ++ le_bytes 4 crc in
            let '(f1, ok1) := write_all (io_hdr io) (file w) hdr in
            if negb ok1 then (mkWal f1 (end_ w), Err E1001PipelineGeneric)
            else
              let '(f2, ok2) := write_all (io_payload io) f1 p in
              if negb ok2 then (mkWal f2 (end_ w), Err E1001PipelineGeneric)
              else match @checked ErrorId 0 u64_max (payload_off + len) with
                   | Ok e => (mkWal f2 e, Ok payload_off)
                   | _ => (mkWal f2 (end_ w), Panic)
                   end
        | _ => (w, Panic)
        end
  end.

(** [WalWriter::sync]. *)
Definition sync (ok : bool) (w : WalWriter) : WalWriter * result unit :=
  let '(f, b) := sync_data ok (file w) in
  (mkWal f (end_ w), if b then Ok tt else Err E1401WalFsync).

(** The loop of [WalReader::read_all]. *)
Fixpoint read_loop (fuel : nat) (rest : list Z) (pos : Z) (out : list WalRecord)
  : result (list WalRecord * Z) :=
  match fuel with
  | O => Panic
  | S fuel' =>
      match read_exact 8 rest with
      | None => Ok (out, pos)
      | Some (hdr, rest1) =>
          let len := le_val (take 4 hdr) in
          let crc := le_val (drop 4 hdr) in
          if MAX_PAYLOAD <? len then Ok (out, pos)
          else match read_exact (Z.to_nat len) rest1 with
               | None => Ok (out, pos)
               | Some (payload, rest2) =>
                   if negb (crc32 payload =? crc) then Ok (out, pos)
                   else
                     let payload_off := pos + 8 in
                     read_loop fuel' rest2 (payload_off + len) (out ++ [mkRecord payload_off payload])
               end
      end
  end.

(** [WalReader::open] and [read_all] on the bytes of a file. *)
Definition read_all (c : list Z) : result (list WalRecord * Z) :=
  do* verify_header c in
  read_loop (S (length c)) (drop (Z.to_nat HEADER_LEN) c) HEADER_LEN [].

(** ** group_commit.rs; instants and durations are nanoseconds *)
Record CommitPolicy := mkPolicy { window : Z; size_bytes : Z }.
Definition default_policy : CommitPolicy := mkPolicy 50000000 (256 * 1024).
Record GroupCommit := mkGC { wal : WalWriter; policy : CommitPolicy; in_flight : Z; last_sync : Z }.
Inductive CommitOutcome := Buffered | Synced.

Definition gc_new (w : WalWriter) (p : CommitPolicy) (now : Z) : GroupCommit := mkGC w p 0 now.

(** [Instant::duration_since] saturates at zero. *)
Definition duration_since (now earlier : Z) : Z := Z.max 0 (now - earlier).

Definition should_sync (g : GroupCommit) (now : Z) : bool :=
  (size_bytes (policy g) <=? in_flight g) ||
  (window (policy g) <=? duration_since now (last_sync g)).

(** The [sync; in_flight = 0; last_sync = now] sequence of [append_at], [tick]
    and [flush]. *)
Definition commit {A} (sync_ok : bool) (now : Z) (g : GroupCommit) (a : A) : GroupCommit * result A :=
  let '(w, r) := sync sync_ok (wal g) in
  match r with
  | Ok _ => (mkGC w (policy g) 0 now, Ok a)
  | Err e => (mkGC w (policy g) (in_flight g) (last_sync g), Err e)
  | Panic => (mkGC w (policy g) (in_flight g) (last_sync g), Panic)
  end.

Definition append_at (io : WriteIo) (sync_ok : bool) (g : GroupCommit) (p : list Z) (now : Z)
  : GroupCommit * result (Z * CommitOutcome) :=
  let '(w, r) := append io (wal g) p in
  match r with
  | Err e => (mkGC w (policy g) (in_flight g) (last_sync g), Err e)
  | Panic => (mkGC w (policy g) (in_flight g) (last_sync g), Panic)
  | Ok off =>
      let g1 := mkGC w (policy g) (sat_add 0 u64_max (in_flight g) (zlen p + 8)) (last_sync g) in
      if should_sync g1 now then commit sync_ok now g1 (off, Synced)
      else (g1, Ok (off, Buffered))
  end.

Definition flush (sync_ok : bool) (g : GroupCommit) (now : Z) : GroupCommit * result unit :=
  commit sync_ok now g tt.

Definition tick (sync_ok : bool) (g : GroupCommit) (now : Z) : GroupCommit * result bool :=
  if in_flight g =? 0 then (g, Ok false)
  else if window (policy g) <=? duration_since now (last_sync g) then commit sync_ok now g true
  else (g, Ok false).

(** A run of the scheduler: its calls with the instants they see and whether
    their fsync succeeds. *)
Inductive gc_op :=
| OpAppend (p : list Z) (now : Z) (sync_ok : bool)
| OpTick (now : Z) (sync_ok : bool)
| OpFlush (now : Z) (sync_ok : bool).

Definition gc_step (g : GroupCommit) (o : gc_op) : GroupCommit :=
  match o with
  | OpAppend p now ok => fst (append_at io_fine ok g p now)
  | OpTick now ok => fst (tick ok g now)
  | OpFlush now ok => fst (flush ok g now)
  end.
Definition gc_run (g : GroupCommit) (os : list gc_op) : GroupCommit := fold_left gc_step os g.
End Wal.

(** ** What a log file means

    [enc_record] is the on-disk form of a payload; [Parses c ps t] says that
    the valid records at the head of [c] are [ps] and that [t] is the tail at
    which recovery stops. *)
Section WalSpec.
  Variable crc32 : list Z -> Z.
  Hypothesis crc32_u32 : forall p, 0 <= crc32 p <= u32_max.

Definition enc_record (p : list Z) : list Z := le_bytes 4 (zlen p) ++ le_bytes 4 (crc32 p) ++ p.
Definition encode_log (ps : list (list Z)) : list Z := concat (map enc_record ps).
Definition payload_ok (p : list Z) : Prop := bytes_ok p /\ zlen p <= MAX_PAYLOAD.

Definition next_record (c : list Z) : option (list Z * list Z) :=
  match read_exact 8 c with
  | None => None
  | Some (hdr, rest1) =>
      if MAX_PAYLOAD <? le_val (take 4 hdr) then None
      else match read_exact (Z.to_nat (le_val (take 4 hdr))) rest1 with
           | None => None
           | Some (p, rest2) => if crc32 p =? le_val (drop 4 hdr) then Some (p, rest2) else None
           end
  end.

Inductive Parses : list Z -> list (list Z) -> list Z -> Prop :=
| Parses_stop c : next_record c = None -> Parses c [] c
| Parses_record c p c' ps t :
    next_record c = Some (p, c') -> Parses c' ps t -> Parses c (p :: ps) t.

(** Offsets of consecutive payloads, the first record starting at [pos]. *)
Fixpoint records_from (pos : Z) (ps : list (list Z)) : list WalRecord :=
  match ps with
  | [] => []
  | p :: ps' => mkRecord (pos + 8) p :: records_from (pos + 8 + zlen p) ps'
  end.
Definition log_size (ps : list (list Z)) : Z := zlen (encode_log ps).

Lemma read_exact_Some n c h t :
  read_exact n c = Some (h, t) <-> c = h ++ t /\ length h = n.
Proof.
  unfold read_exact. destruct (Nat.leb_spec n (length c)); split.
  - intros [= <- <-]. rewrite take_drop, length_take. split; [done|lia].
  - intros [-> <-]. by rewrite take_app_length, drop_app_length.
  - done.
  - intros [-> <-]. rewrite length_app in *. lia.
Qed.

Lemma length_enc_record p : length (enc_record p) = (8 + length p)%nat.
Proof. unfold enc_record. rewrite !length_app, !length_le_bytes. lia. Qed.

Lemma encode_log_cons p ps : encode_log (p :: ps) = enc_record p ++ encode_log ps.
Proof. reflexivity. Qed.

Lemma zlen_enc_record p : zlen (enc_record p) = 8 + zlen p.
Proof. unfold zlen. rewrite length_enc_record. lia. Qed.

Lemma log_size_nil : log_size [] = 0.
Proof. reflexivity. Qed.
Lemma log_size_cons p ps : log_size (p :: ps) = 8 + zlen p + log_size ps.
Proof. unfold log_size. by rewrite encode_log_cons, zlen_app, zlen_enc_record. Qed.

Lemma encode_log_app ps qs : encode_log (ps ++ qs) = encode_log ps ++ encode_log qs.
Proof. unfold encode_log. by rewrite map_app, concat_app. Qed.

Lemma next_record_inv c p c' :
  bytes_ok c -> next_record c = Some (p, c') ->
  c = enc_record p ++ c' /\ payload_ok p.
Proof.
  unfold next_record. intros Hc. destruct (read_exact 8 c) as [[h r1]|] eqn:E1; [|done].
  apply read_exact_Some in E1 as [-> Hh].
  destruct (Z.ltb_spec MAX_PAYLOAD (le_val (take 4 h))); [done|].
  destruct (read_exact _ r1) as [[q r2]|] eqn:E2; [|done].
  apply read_exact_Some in E2 as [-> Hq].
  destruct (Z.eqb_spec (crc32 q) (le_val (drop 4 h))) as [Ecrc|]; [|done].
  intros [= <- <-]. apply bytes_ok_app in Hc as [Bh Br]. apply bytes_ok_app in Br as [Bq _].
  pose proof (le_val_bound (take 4 h) (bytes_ok_take _ _ Bh)).
  assert (Hz : zlen q = le_val (take 4 h)) by (unfold zlen; rewrite Hq; lia).
  split; [|split; [done|lia]].
  unfold enc_record. rewrite Hz, Ecrc.
  replace 4%nat with (length (take 4 h)) at 1 by (rewrite length_take; lia).
  rewrite le_bytes_le_val by auto with tm.
  replace 4%nat with (length (drop 4 h)) at 2 by (rewrite length_drop; lia).
  rewrite le_bytes_le_val by auto with tm. by rewrite <- !(assoc_L (++)), (assoc_L (++) (take 4 h)), take_drop.
Qed.

Lemma next_record_enc p c : zlen p <= MAX_PAYLOAD -> next_record (enc_record p ++ c) = Some (p, c).
Proof.
  intros Hp. unfold next_record.
  assert (read_exact 8 (enc_record p ++ c) =
    Some (le_bytes 4 (zlen p) ++ le_bytes 4 (crc32 p), p ++ c)) as ->.
  { apply read_exact_Some. unfold enc_record. rewrite length_app, !length_le_bytes.
    by rewrite <- !(assoc_L (++)). }
  rewrite take_app_length', drop_app_length' by (by rewrite length_le_bytes).
  pose proof (zlen_nonneg p). unfold MAX_PAYLOAD in *.
  rewrite !le_val_le_bytes by (pose proof (crc32_u32 p); unfold u32_max in *; lia).
  destruct (Z.ltb_spec (1024 * 1024) (zlen p)); [lia|].
  assert (read_exact (Z.to_nat (zlen p)) (p ++ c) = Some (p, c)) as ->.
  { apply read_exact_Some. unfold zlen. by rewrite Nat2Z.id. }
  by rewrite Z.eqb_refl.
Qed.

Lemma next_record_shorter c p c' : next_record c = Some (p, c') -> (length c' < length c)%nat.
Proof.
  unfold next_record. destruct (read_exact 8 c) as [[h r1]|] eqn:E1; [|done].
  apply read_exact_Some in E1 as [-> Hh]. case_if; [done|].
  destruct (read_exact _ r1) as [[q r2]|] eqn:E2; [|done].
  apply read_exact_Some in E2 as [-> Hq]. case_if; [|done].
  intros [= <- <-]. rewrite !length_app. lia.
Qed.

(** Every file has exactly one reading. *)
Lemma Parses_total c : exists ps t, Parses c ps t.
Proof.
  induction c as [c IH] using (induction_ltof1 _ (@length Z)).
  destruct (next_record c) as [[p c']|] eqn:E.
  - destruct (IH c') as (ps & t & H); [by eapply next_record_shorter|].
    exists (p :: ps), t. by econstructor.
  - exists [], c. by constructor.
Qed.
Lemma Parses_det c ps t ps' t' : Parses c ps t -> Parses c ps' t' -> ps = ps' /\ t = t'.
Proof.
  intros H. revert ps' t'. induction H; intros ps' t' H'; inversion H'; subst; try congruence; [done|].
  assert (p0 = p /\ c'0 = c') as [-> ->] by (split; congruence). naive_solver.
Qed.

Lemma Parses_inv c ps t :
  bytes_ok c -> Parses c ps t -> c = encode_log ps ++ t /\ Forall payload_ok ps.
Proof.
  intros Hc H. revert Hc. induction H as [|c p c' ps t Hn Hp IH]; intros Hc; [done|].
  apply next_record_inv in Hn as [-> Hok]; [|done]. apply bytes_ok_app in Hc as [_ Hc'].
  destruct (IH Hc') as [-> HF]. rewrite encode_log_cons, <- (assoc_L (++)). auto.
Qed.

Lemma Parses_enc ps c qs t :
  Forall payload_ok ps -> Parses c qs t -> Parses (encode_log ps ++ c) (ps ++ qs) t.
Proof.
  induction ps as [|p ps IH]; intros HF H; [done|]. inversion HF as [|? ? [_ Hp] HF']; subst.
  rewrite encode_log_cons, <- (assoc_L (++)). simpl. econstructor; [by apply next_record_enc|].
  by apply IH.
Qed.
Lemma Parses_nil : Parses [] [] [].
Proof. by constructor. Qed.
Lemma Parses_encode ps : Forall payload_ok ps -> Parses (encode_log ps) ps [].
Proof.
  intros HF. pose proof (Parses_enc ps [] [] [] HF Parses_nil) as H.
  by rewrite !app_nil_r in H.
Qed.

(** ** The two loops compute it *)
Lemma payload_len c p c' h r1 :
  read_exact 8 c = Some (h, r1) -> bytes_ok c ->
  read_exact (Z.to_nat (le_val (take 4 h))) r1 = Some (p, c') -> le_val (take 4 h) = zlen p.
Proof.
  intros [-> _]%read_exact_Some [Bh _]%bytes_ok_app [-> Hq]%read_exact_Some.
  pose proof (le_val_bound (take 4 h) (bytes_ok_take _ _ Bh)). unfold zlen. rewrite Hq. lia.
Qed.

Lemma read_loop_spec c ps t fuel pos out :
  Parses c ps t -> bytes_ok c -> (length c < fuel)%nat ->
  read_loop crc32 fuel c pos out = Ok (out ++ records_from pos ps, pos + log_size ps).
Proof.
  intros H. revert fuel pos out. induction H as [c Hn|c p c' ps t Hn Hp IH];
    intros [|fuel] pos out Hb Hf; try lia; simpl.
  - assert (log_size [] = 0) as -> by done. rewrite app_nil_r, Z.add_0_r.
    unfold next_record in Hn. destruct (read_exact 8 c) as [[h r1]|]; [|done].
    case_if; [done|]. destruct (read_exact _ r1) as [[q r2]|]; [|done].
    destruct (crc32 q =? _); done.
  - pose proof (next_record_shorter _ _ _ Hn) as Hs.
    destruct (next_record_inv _ _ _ Hb Hn) as [Hc _].
    unfold next_record in Hn. destruct (read_exact 8 c) as [[h r1]|] eqn:E1; [|done].
    case_if; [done|]. destruct (read_exact _ r1) as [[q r2]|] eqn:E2; [|done].
    destruct (crc32 q =? _); [|done]. simplify_eq. simpl.
    rewrite (payload_len _ _ _ _ _ E1 Hb E2), IH;
      [|by apply bytes_ok_app in Hb as [_ ?]|lia].
    rewrite log_size_cons, <- (assoc_L (++)). simpl. f_equal. f_equal. lia.
Qed.

Lemma scan_loop_spec c ps t fuel pos :
  Parses c ps t -> bytes_ok c -> (length c < fuel)%nat ->
  scan_loop crc32 fuel c pos (pos + zlen c) = Ok (pos + log_size ps).
Proof.
  intros H. revert fuel pos. induction H as [c Hn|c p c' ps t Hn Hp IH];
    intros [|fuel] pos Hb Hf; try lia; simpl.
  - assert (log_size [] = 0) as -> by done. rewrite Z.add_0_r. case_if; [done|].
    unfold next_record in Hn. destruct (read_exact 8 c) as [[h r1]|]; [|done].
    case_if; [done|]. case_if; [done|]. destruct (read_exact _ r1) as [[q r2]|]; [|done].
    destruct (crc32 q =? _); done.
  - pose proof (next_record_shorter _ _ _ Hn) as Hs.
    destruct (next_record_inv _ _ _ Hb Hn) as [Hc _].
    assert (Hz : zlen c = 8 + zlen p + zlen c') by
      (rewrite Hc, zlen_app, zlen_enc_record; lia).
    assert (Hb' : bytes_ok c') by (rewrite Hc in Hb; by apply bytes_ok_app in Hb as [_ ?]). clear Hc.
    pose proof (zlen_nonneg p). pose proof (zlen_nonneg c').
    unfold next_record in Hn. destruct (read_exact 8 c) as [[h r1]|] eqn:E1; [|done].
    case_if_in Hn; [done|]. destruct (read_exact _ r1) as [[q r2]|] eqn:E2; [|done].
    destruct (crc32 q =? _); [|done]. simplify_eq. simpl.
    rewrite (payload_len _ _ _ _ _ E1 Hb E2).
    rewrite Hz. destruct (Z.eqb_spec pos (pos + (8 + zlen p + zlen c'))); [lia|].
    destruct (Z.ltb_spec (pos + (8 + zlen p + zlen c')) (pos + 8 + zlen p)); [lia|]. replace (pos + (8 + zlen p + zlen c')) with (pos + (8 + zlen p) + zlen c') by lia.
    rewrite IH; [|done|lia]. rewrite log_size_cons. f_equal. lia.
Qed.

(** ** The writer's invariant *)
Record wal_inv (w : WalWriter) (ps : list (list Z)) : Prop := {
  inv_bytes : exists h, f_bytes (file w) = h ++ encode_log ps /\ length h = 12%nat /\
                        verify_header h = Ok tt /\ bytes_ok h;
  inv_payloads : Forall payload_ok ps;
  inv_pos : f_pos (file w) = length (f_bytes (file w));
  inv_end : end_ w = zlen (f_bytes (file w));
  inv_durable : (f_durable (file w) <= length (f_bytes (file w)))%nat
}.

Lemma verify_header_app h c :
  length h = 12%nat -> verify_header (h ++ c) = verify_header h.
Proof.
  intros Hh. unfold verify_header.
  assert (read_exact (Z.to_nat HEADER_LEN) (h ++ c) = Some (h, c)) as -> by (by apply read_exact_Some).
  assert (read_exact (Z.to_nat HEADER_LEN) h = Some (h, [])) as ->; [|done].
  apply read_exact_Some. by rewrite app_nil_r.
Qed.

Lemma verify_header_inv c :
  verify_header c = Ok tt ->
  exists h k, c = h ++ k /\ length h = 12%nat /\ verify_header h = Ok tt.
Proof.
  intros H. destruct (read_exact (Z.to_nat HEADER_LEN) c) as [[h k]|] eqn:E.
  - apply read_exact_Some in E as [-> Hh]. exists h, k. rewrite verify_header_app in H; done.
  - unfold verify_header in H. by rewrite E in H.
Qed.

Lemma enc_record_ok p : bytes_ok p -> bytes_ok (enc_record p).
Proof. intros. unfold enc_record. rewrite !bytes_ok_app. auto with tm. Qed.
Lemma encode_log_ok ps : Forall payload_ok ps -> bytes_ok (encode_log ps).
Proof.
  induction 1 as [|p ps [Hp _] _ IH]; [constructor|]. rewrite encode_log_cons, bytes_ok_app.
  auto using enc_record_ok.
Qed.

Lemma read_all_spec h c ps t :
  length h = 12%nat -> verify_header h = Ok tt -> bytes_ok c -> Parses c ps t ->
  read_all crc32 (h ++ c) = Ok (records_from HEADER_LEN ps, HEADER_LEN + log_size ps).
Proof.
  intros Hh Hv Hb Hp. unfold read_all. rewrite verify_header_app, Hv by done. cbn [mbind res_bind].
  rewrite drop_app_length' by done. erewrite read_loop_spec; [reflexivity|done..|].
  rewrite length_app. lia.
Qed.

Lemma scan_spec h c ps t :
  length h = 12%nat -> bytes_ok c -> Parses c ps t ->
  scan_valid_end crc32 (h ++ c) (zlen (h ++ c)) = Ok (HEADER_LEN + log_size ps).
Proof.
  intros Hh Hb Hp. unfold scan_valid_end. rewrite drop_app_length' by done.
  replace (zlen (h ++ c)) with (HEADER_LEN + zlen c) by (unfold HEADER_LEN; zlia).
  eapply scan_loop_spec; [done..|]. rewrite length_app. lia.
Qed.

Lemma wal_inv_read_all w ps :
  wal_inv w ps ->
  read_all crc32 (f_bytes (file w)) = Ok (records_from HEADER_LEN ps, end_ w) /\
  end_ w = HEADER_LEN + log_size ps /\ bytes_ok (f_bytes (file w)) /\
  verify_header (f_bytes (file w)) = Ok tt.
Proof.
  intros [(h & Hc & Hh & Hv & Hbh) HF _ He _].
  assert (Hz : end_ w = HEADER_LEN + log_size ps).
  { rewrite He, Hc, zlen_app. unfold HEADER_LEN, log_size. zlia. }
  rewrite Hz, Hc. split; [|split; [done|split]].
  - eapply read_all_spec; [done..|by apply encode_log_ok|by apply Parses_encode].
  - apply bytes_ok_app. auto using encode_log_ok.
  - by rewrite verify_header_app.
Qed.

Lemma set_len_le n f :
  (n <= length (f_bytes f))%nat ->
  set_len n f = mkFile (take n (f_bytes f)) (f_pos f) (Nat.min (f_durable f) n).
Proof.
  intros. unfold set_len. replace (n - length (f_bytes f))%nat with O by lia. by rewrite app_nil_r.
Qed.

(** [open] keeps the header and the valid records and drops the tail. *)
Lemma wal_open_spec h c ps t d pos :
  length h = 12%nat -> verify_header h = Ok tt -> bytes_ok (h ++ c) -> Parses c ps t ->
  (d <= length (h ++ c))%nat ->
  exists w, wal_open crc32 (mkFile (h ++ c) pos d) = Ok w /\ wal_inv w ps /\
    f_bytes (file w) = h ++ encode_log ps /\
    f_durable (file w) = Nat.min d (length (h ++ encode_log ps)).
Proof.
  intros Hh Hv [Hbh Hbc]%bytes_ok_app Hp Hd. destruct (Parses_inv _ _ _ Hbc Hp) as [Hc HF].
  unfold wal_open. cbn [f_bytes].
  destruct (Z.eqb_spec (zlen (h ++ c)) 0); [zlia|].
  rewrite verify_header_app, Hv by done. cbn [mbind res_bind].
  erewrite scan_spec by done. cbn [mbind res_bind].
  assert (Hz : HEADER_LEN + log_size ps = zlen (h ++ encode_log ps))
    by (rewrite zlen_app; unfold HEADER_LEN, log_size; zlia).
  assert (Hn : Z.to_nat (HEADER_LEN + log_size ps) = length (h ++ encode_log ps)) by zlia.
  rewrite Hz in *. destruct (Z.eqb_spec (zlen (h ++ encode_log ps)) (zlen (h ++ c))) as [E|E].
  - assert (t = []) as -> by (apply zlen_zero; rewrite Hc, !zlen_app in E; lia).
    rewrite app_nil_r in Hc. subst c.
    eexists. split; [reflexivity|]. cbn [file f_bytes f_durable seek]. split; [|split; [done|lia]].
    split; cbn [file f_bytes f_pos f_durable end_ seek]; eauto.
  - eexists. split; [reflexivity|].
    assert (Hlen : (length (h ++ encode_log ps) <= length (h ++ c))%nat)
      by (rewrite Hc, !length_app; lia).
    rewrite Hn, set_len_le by done. cbn [file f_bytes f_durable seek f_pos].
    assert (take (length (h ++ encode_log ps)) (h ++ c) = h ++ encode_log ps) as ->.
    { rewrite Hc, (assoc_L (++)). by rewrite take_app_length. }
    split; [|done]. split; cbn [file f_bytes f_pos f_durable end_ seek]; eauto with lia.
Qed.

Lemma write_at_end c data : write_at (length c) data c = c ++ data.
Proof.
  unfold write_at. rewrite firstn_all, Nat.sub_diag, drop_ge by lia. simpl. by rewrite app_nil_r.
Qed.

Lemma append_spec w ps p :
  wal_inv w ps -> payload_ok p -> end_ w + 8 + zlen p <= u64_max ->
  exists w', append crc32 io_fine w p = (w', Ok (end_ w + 8)) /\ wal_inv w' (ps ++ [p]) /\
    f_bytes (file w') = f_bytes (file w) ++ enc_record p /\ f_durable (file w') = f_durable (file w).
Proof.
  intros [(h & Hc & Hh & Hv & Hbh) HF Hpos He Hd] [Hpb Hpl] Hu.
  pose proof (zlen_nonneg p). pose proof (zlen_nonneg (f_bytes (file w))). unfold append.
  assert (try_from 0 u32_max (zlen p) = Some (zlen p)) as ->
    by (apply try_from_Some; unfold MAX_PAYLOAD in *; zlia).
  destruct (Z.ltb_spec MAX_PAYLOAD (zlen p)); [lia|].
  rewrite checked_ok by lia. cbn [io_hdr io_payload io_fine write_all negb f_bytes f_pos f_durable].
  rewrite Hpos. replace (length (f_bytes (file w)) + length (le_bytes 4 (zlen p) ++ le_bytes 4 (crc32 p)))%nat
    with (length (f_bytes (file w) ++ le_bytes 4 (zlen p) ++ le_bytes 4 (crc32 p)))
    by (by rewrite length_app).
  rewrite !write_at_end, checked_ok by lia. eexists. split; [reflexivity|].
  cbn [file f_bytes f_durable].
  rewrite <- !(assoc_L (++)). change (le_bytes 4 (zlen p) ++ le_bytes 4 (crc32 p) ++ p) with (enc_record p).
  rewrite <- Hpos. split; [|split; [done|rewrite length_app; lia]].
  split; cbn [file f_bytes f_durable f_pos end_].
  - exists h. rewrite Hc, <- (assoc_L (++)), encode_log_app. unfold encode_log at 3. simpl.
    by rewrite app_nil_r.
  - apply Forall_app. split; [done|]. by repeat constructor.
  - rewrite !length_app. unfold enc_record. rewrite !length_app. lia.
  - rewrite zlen_app, zlen_enc_record. lia.
  - rewrite !length_app. lia.
Qed.

(** A handle just opened on a file of bytes. *)
Definition fresh (f : File) : Prop :=
  f_pos f = O /\ (f_durable f <= length (f_bytes f))%nat /\ bytes_ok (f_bytes f).

Lemma wal_open_inv f w :
  fresh f -> wal_open crc32 f = Ok w -> exists ps, wal_inv w ps.
Proof.
  intros (Hpos & Hd & Hb) Ho. destruct f as [c pos d]. simpl in *. subst pos.
  destruct c as [|x c].
  - exists []. injection Ho as <-. split; simpl; [|constructor|done..].
    exists header_bytes. split; [done|]. split; [done|]. split; [done|].
    unfold bytes_ok. apply (bool_decide_unpack _). by vm_compute.
  - unfold wal_open in Ho. cbn [f_bytes] in Ho.
    destruct (Z.eqb_spec (zlen (x :: c)) 0) as [E|_]; [zlia|].
    destruct (verify_header (x :: c)) as [[]| |] eqn:Hv; [|done..].
    destruct (verify_header_inv _ Hv) as (h & k & Hc & Hh & Hvh).
    destruct (Parses_total k) as (ps & t & Hp). rewrite Hc in *.
    destruct (wal_open_spec h k ps t d 0 Hh Hvh Hb Hp Hd) as (w' & Ho' & Hi & _).
    unfold wal_open in Ho'. cbn [f_bytes] in Ho'.
    destruct (Z.eqb_spec (zlen (h ++ k)) 0) as [E|_]; [zlia|].
    rewrite verify_header_app, Hvh in Ho' by done. cbn [mbind res_bind] in *.
    exists ps. congruence.
Qed.

Fixpoint append_all (w : WalWriter) (ps : list (list Z)) : WalWriter * list (result Z) :=
  match ps with
  | [] => (w, [])
  | p :: ps' =>
      let '(w1, r) := append crc32 io_fine w p in
      let '(w2, rs) := append_all w1 ps' in (w2, r :: rs)
  end.

Lemma records_from_app pos ps qs :
  records_from pos (ps ++ qs) = records_from pos ps ++ records_from (pos + log_size ps) qs.
Proof.
  revert pos. induction ps as [|p ps IH]; intros pos; simpl.
  - f_equal. rewrite log_size_nil. lia.
  - rewrite IH, log_size_cons. do 3 f_equal. lia.
Qed.

Lemma append_all_spec w ps qs :
  wal_inv w ps -> Forall payload_ok qs -> end_ w + log_size qs <= u64_max ->
  exists w', append_all w qs = (w', map (fun r => Ok (offset r)) (records_from (end_ w) qs)) /\
    wal_inv w' (ps ++ qs) /\ f_bytes (file w') = f_bytes (file w) ++ encode_log qs.
Proof.
  revert w ps. induction qs as [|q qs IH]; intros w ps Hi HF Hu.
  - exists w. rewrite !app_nil_r. done.
  - inversion HF; subst. rewrite log_size_cons in Hu.
    assert (0 <= log_size qs) by apply zlen_nonneg.
    destruct (append_spec w ps q) as (w1 & Ha & Hi1 & Hb1 & _); [done..|lia|].
    assert (He1 : end_ w1 = end_ w + 8 + zlen q).
    { rewrite (inv_end _ _ Hi1), (inv_end _ _ Hi), Hb1, zlen_app, zlen_enc_record. lia. }
    destruct (IH w1 (ps ++ [q])) as (w2 & Ha2 & Hi2 & Hb2); [done..|lia|].
    exists w2. simpl. rewrite Ha, Ha2, He1. split; [done|].
    rewrite <- (assoc_L (++)) in Hi2. split; [done|].
    by rewrite Hb2, Hb1, <- (assoc_L (++)).
Qed.

Lemma records_slices pos ps pre r :
  r ∈ records_from pos ps -> zlen pre = pos ->
  take (length (payload r)) (drop (Z.to_nat (offset r)) (pre ++ encode_log ps)) = payload r.
Proof.
  revert pos pre. induction ps as [|p ps IH]; intros pos pre Hr Hz; [by apply not_elem_of_nil in Hr|].
  rewrite encode_log_cons. simpl in Hr. apply elem_of_cons in Hr as [->|Hr].
  - cbn [payload offset].
    assert (pre ++ enc_record p ++ encode_log ps =
      (pre ++ le_bytes 4 (zlen p) ++ le_bytes 4 (crc32 p)) ++ p ++ encode_log ps) as ->.
    { unfold enc_record. by rewrite <- !(assoc_L (++)). }
    rewrite drop_app_length' by (rewrite !length_app, !length_le_bytes; zlia).
    by rewrite take_app_length.
  - rewrite (assoc_L (++)). apply (IH (pos + 8 + zlen p)); [done|].
    rewrite zlen_app, zlen_enc_record. lia.
Qed.

(** ** Crashes *)
Lemma next_record_app c p c' k :
  next_record c = Some (p, c') -> next_record (c ++ k) = Some (p, c' ++ k).
Proof.
  unfold next_record. destruct (read_exact 8 c) as [[h r1]|] eqn:E1; [|done].
  apply read_exact_Some in E1 as [-> Hh].
  assert (read_exact 8 ((h ++ r1) ++ k) = Some (h, r1 ++ k)) as ->
    by (apply read_exact_Some; by rewrite (assoc_L (++))).
  case_if; [done|]. destruct (read_exact _ r1) as [[q r2]|] eqn:E2; [|done].
  apply read_exact_Some in E2 as [-> Hq].
  assert (read_exact (Z.to_nat (le_val (take 4 h))) ((q ++ r2) ++ k) = Some (q, r2 ++ k)) as ->
    by (apply read_exact_Some; by rewrite (assoc_L (++))).
  case_if; [|done]. by intros [= <- <-].
Qed.

(** Cutting an intact log anywhere leaves a prefix of its records. *)
Lemma Parses_prefix c qs t ps k :
  Parses c qs t -> Forall payload_ok ps -> c ++ k = encode_log ps -> qs `prefix_of` ps.
Proof.
  intros H. revert ps k. induction H as [c Hn|c p c' qs t Hn Hp IH]; intros ps k HF E.
  - apply prefix_nil.
  - pose proof (next_record_app _ _ _ k Hn) as Hn'. rewrite E in Hn'.
    destruct ps as [|p' ps]; [by vm_compute in Hn'|]. inversion HF as [|? ? [_ Hm] HF']; subst.
    rewrite encode_log_cons, next_record_enc in Hn' by done. simplify_eq.
    apply prefix_cons. by eapply IH.
Qed.

Definition ends_by (d : Z) (r : WalRecord) : Prop := offset r + zlen (payload r) <= d.
#[global] Instance ends_by_dec d r : Decision (ends_by d r).
Proof. unfold ends_by. apply _. Defined.

Lemma ends_by_none d pos ps : d < pos -> filter (ends_by d) (records_from pos ps) = [].
Proof.
  revert pos. induction ps as [|p ps IH]; intros pos Hd; [done|]. simpl.
  pose proof (zlen_nonneg p). rewrite filter_cons_False; [|unfold ends_by; simpl; lia].
  apply IH. lia.
Qed.

(** The records that end within the first [d] bytes are a prefix of the log. *)
Lemma ends_by_split d pos ps :
  exists qs ks, ps = qs ++ ks /\ filter (ends_by d) (records_from pos ps) = records_from pos qs /\
    (pos <= d -> pos + log_size qs <= d).
Proof.
  revert pos. induction ps as [|p ps IH]; intros pos.
  - exists [], []. split; [done|]. split; [done|]. rewrite log_size_nil. lia.
  - simpl. destruct (decide (ends_by d (mkRecord (pos + 8) p))) as [H|H].
    + rewrite filter_cons_True by done. destruct (IH (pos + 8 + zlen p)) as (qs & ks & -> & Hf & Hd).
      exists (p :: qs), ks. split; [done|]. split; [by rewrite Hf|].
      unfold ends_by in H. simpl in H. rewrite log_size_cons. lia.
    + rewrite filter_cons_False by done. unfold ends_by in H. simpl in H.
      exists [], (p :: ps). split; [done|]. split; [by apply ends_by_none; lia|].
      rewrite log_size_nil. lia.
Qed.

(** Recovery after a crash that kept the first [f_durable] bytes. *)
Lemma crash_recovers w ps c :
  wal_inv w ps -> (12 <= f_durable (file w))%nat -> crash (file w) c ->
  exists w' qs, wal_open crc32 (mkFile c 0 (length c)) = Ok w' /\ wal_inv w' qs /\
    filter (ends_by (Z.of_nat (f_durable (file w)))) (records_from HEADER_LEN ps)
      `prefix_of` records_from HEADER_LEN qs /\
    (c `prefix_of` f_bytes (file w) -> qs `prefix_of` ps).
Proof.
  intros [(h & Hc & Hh & Hv & Hbh) HF _ _ Hd] Hd12 (Hlc & Htk & Hb).
  set (d := f_durable (file w)) in *.
  destruct (ends_by_split (Z.of_nat d) HEADER_LEN ps) as (qs & ks & -> & Hf & Hqs).
  assert (Hle : (length (h ++ encode_log qs) <= d)%nat).
  { unfold HEADER_LEN, log_size in Hqs. zlia. }
  assert (Hcut : c = (h ++ encode_log qs) ++ drop (length (h ++ encode_log qs)) c).
  { rewrite <- (take_drop (length (h ++ encode_log qs)) c) at 1. f_equal.
    replace (length (h ++ encode_log qs)) with (Nat.min (length (h ++ encode_log qs)) d) by lia.
    rewrite <- take_take, Htk, take_take, Nat.min_l, Hc, encode_log_app, (assoc_L (++)) by lia.
    by rewrite take_app_length. }
  set (k := drop (length (h ++ encode_log qs)) c) in *. clearbody k. subst c.
  apply Forall_app in HF as [HFq HFk]. destruct (Parses_total k) as (rs & t & Hk).
  pose proof (Parses_enc _ _ _ _ HFq Hk) as Hall.
  rewrite <- (assoc_L (++)) in *.
  destruct (wal_open_spec h (encode_log qs ++ k) (qs ++ rs) t (length (h ++ encode_log qs ++ k)) 0)
    as (w' & Ho & Hi & _); [done..|].
  exists w', (qs ++ rs). split; [done|]. split; [done|]. split.
  - rewrite Hf, records_from_app. by apply prefix_app_r.
  - intros [k' Hk']. rewrite Hc, <- !(assoc_L (++)), encode_log_app in Hk'. simplify_list_eq.
    apply prefix_app. eapply Parses_prefix; [done..|]. by symmetry.
Qed.

(** Reopening a log and appending loses nothing: whatever file [open]
    accepts (an empty one included), appending payloads of at most
    [MAX_PAYLOAD] bytes succeeds, and reading the file back yields the records
    that recovery had kept followed by exactly the new payloads, at the offsets
    [append] returned; the bytes at each offset are the payload. *)
Theorem wal_append_read_all f w ps :
  fresh f -> wal_open crc32 f = Ok w -> Forall payload_ok ps -> end_ w + log_size ps <= u64_max ->
  exists old w' offs,
    read_all crc32 (f_bytes (file w)) = Ok (old, end_ w) /\
    append_all w ps = (w', map Ok offs) /\ length offs = length ps /\
    read_all crc32 (f_bytes (file w')) = Ok (old ++ zip_with mkRecord offs ps, end_ w') /\
    forall off p, (off, p) ∈ zip offs ps ->
      take (length p) (drop (Z.to_nat off) (f_bytes (file w'))) = p.
Proof.
  intros Hf Ho HF Hu. destruct (wal_open_inv f w Hf Ho) as (qs & Hi).
  destruct (wal_inv_read_all _ _ Hi) as (Hr & He & _).
  destruct (append_all_spec w qs ps Hi HF Hu) as (w' & Ha & Hi' & Hb).
  destruct (wal_inv_read_all _ _ Hi') as (Hr' & _).
  exists (records_from HEADER_LEN qs), w', (map offset (records_from (end_ w) ps)).
  assert (Hzip : forall pos l, zip_with mkRecord (map offset (records_from pos l)) l = records_from pos l).
  { intros pos l. revert pos. induction l as [|a l IH]; intros pos; simpl; [done|]. by rewrite IH. }
  assert (Hlen : forall pos l, length (records_from pos l) = length l).
  { intros pos l. revert pos. induction l as [|a l IH]; intros pos; simpl; [done|]. by rewrite IH. }
  split; [done|]. split; [by rewrite map_map|]. split; [by rewrite length_map, Hlen|]. split.
  - by rewrite Hr', Hzip, records_from_app, He.
  - intros off p Hin. rewrite Hb.
    apply (records_slices (end_ w) ps (f_bytes (file w)) (mkRecord off p)); [|by rewrite (inv_end _ _ Hi)].
    rewrite <- (Hzip (end_ w) ps). apply list_elem_of_lookup in Hin as [i Hi2].
    apply lookup_zip_with_Some in Hi2 as (x & y & [= -> ->] & Hx & Hy).
    apply list_elem_of_lookup. exists i. apply lookup_zip_with_Some. eauto.
Qed.

(** C10: torn-tail recovery: on any file with a valid header, [open] succeeds,
    truncates the file to the end of the valid records, and both the untouched
    and the truncated file read back as those records; opening the truncated
    file again changes nothing. *)
Theorem wal_open_recovers f :
  fresh f -> verify_header (f_bytes f) = Ok tt ->
  exists w recs, wal_open crc32 f = Ok w /\
    read_all crc32 (f_bytes f) = Ok (recs, end_ w) /\
    f_bytes (file w) = take (Z.to_nat (end_ w)) (f_bytes f) /\
    read_all crc32 (f_bytes (file w)) = Ok (recs, end_ w) /\
    wal_open crc32 (seek 0 (file w)) = Ok w.
Proof.
  intros (Hpos & Hd & Hb) Hv. destruct f as [c pos d]. simpl in *. subst pos.
  destruct (verify_header_inv _ Hv) as (h & k & -> & Hh & Hvh).
  destruct (proj1 (bytes_ok_app _ _) Hb) as [Hbh Hbk].
  destruct (Parses_total k) as (ps & t & Hp).
  destruct (wal_open_spec h k ps t d 0 Hh Hvh Hb Hp Hd) as (w & Ho & Hi & Hbw & Hdw).
  destruct (wal_inv_read_all _ _ Hi) as (Hr & He & Hbw' & _).
  destruct (Parses_inv _ _ _ Hbk Hp) as [Hk HF].
  exists w, (records_from HEADER_LEN ps). split; [done|]. split; [|split; [|split; [done|]]].
  - rewrite He. by eapply read_all_spec.
  - rewrite (inv_end _ _ Hi), Hbw, Hk, (assoc_L (++)).
    replace (Z.to_nat (zlen (h ++ encode_log ps))) with (length (h ++ encode_log ps)) by zlia.
    by rewrite take_app_length.
  - unfold seek. rewrite Hbw in *.
    destruct (wal_open_spec h (encode_log ps) ps [] (f_durable (file w)) 0)
      as (w' & -> & Hi' & Hb' & Hd'); [done..|by apply Parses_encode|lia|].
    f_equal. destruct w as [[cw pw dw] ew], w' as [[cw' pw' dw'] ew'].
    pose proof (inv_pos _ _ Hi). pose proof (inv_pos _ _ Hi'). pose proof (inv_end _ _ Hi).
    pose proof (inv_end _ _ Hi'). simpl in *. subst. f_equal; f_equal; lia.
Qed.

(** ** Group commit *)
Record gc_inv (g : GroupCommit) (ps : list (list Z)) : Prop := {
  gc_wal : wal_inv (wal g) ps;
  gc_durable : (12 <= f_durable (file (wal g)))%nat;
  gc_in_flight : in_flight g = end_ (wal g) - Z.of_nat (f_durable (file (wal g)))
}.

Definition op_ok (o : gc_op) : Prop :=
  match o with OpAppend p _ _ => bytes_ok p | _ => True end.
Definition op_size (o : gc_op) : Z :=
  match o with OpAppend p _ _ => 8 + zlen p | _ => 0 end.
Fixpoint ops_size (os : list gc_op) : Z :=
  match os with [] => 0 | o :: os' => op_size o + ops_size os' end.

Lemma op_size_nonneg o : 0 <= op_size o.
Proof. destruct o; simpl; [pose proof (zlen_nonneg p)|..]; lia. Qed.
Lemma ops_size_nonneg os : 0 <= ops_size os.
Proof. induction os as [|o os IH]; simpl; [lia|]. pose proof (op_size_nonneg o). lia. Qed.

(** A commit changes only what is known to be durable. *)
Lemma commit_inv {A} ok now g ps (a : A) :
  gc_inv g ps ->
  let g' := fst (commit ok now g a) in
  gc_inv g' ps /\ end_ (wal g') = end_ (wal g) /\
  snd (commit ok now g a) = (if ok then Ok a else Err E1401WalFsync) /\
  (ok = true -> Z.of_nat (f_durable (file (wal g'))) = end_ (wal g')) /\ policy g' = policy g.
Proof.
  intros [Hw Hd Hi]. pose proof (inv_durable _ _ Hw). pose proof (inv_end _ _ Hw) as He.
  unfold commit, sync, sync_data. destruct ok; cbn [fst snd].
  - split; [|split; [done|split; [done|split; [intros _; symmetry; exact He|done]]]].
    destruct Hw as [H1 H2 H3 H4 H5]. split; cbn [wal file f_durable f_bytes end_ in_flight]; [|lia|zlia].
    by split.
  - split; [|done]. destruct g as [[f e] p i l]. by split.
Qed.

Lemma append_too_long io w p : MAX_PAYLOAD < zlen p -> exists e, append crc32 io w p = (w, Err e).
Proof.
  intros. unfold append, try_from. case_if; [|eauto].
  destruct (Z.ltb_spec MAX_PAYLOAD (zlen p)); [eauto|lia].
Qed.

Lemma append_at_inv g ps p now ok :
  gc_inv g ps -> payload_ok p -> end_ (wal g) + 8 + zlen p <= u64_max ->
  let '(g', r) := append_at crc32 io_fine ok g p now in
  gc_inv g' (ps ++ [p]) /\ end_ (wal g') = end_ (wal g) + 8 + zlen p /\ policy g' = policy g /\
  (r = Ok (end_ (wal g) + 8, Synced) /\ Z.of_nat (f_durable (file (wal g'))) = end_ (wal g') \/
   r = Ok (end_ (wal g) + 8, Buffered) /\ 8 <= in_flight g' < size_bytes (policy g) \/
   r = Err E1401WalFsync /\ ok = false).
Proof.
  intros [Hw Hd Hi] Hp Hu. destruct (append_spec _ _ _ Hw Hp Hu) as (w' & Ha & Hw' & Hb & Hd').
  assert (He : end_ w' = end_ (wal g) + 8 + zlen p).
  { rewrite (inv_end _ _ Hw'), (inv_end _ _ Hw), Hb, zlen_app, zlen_enc_record. lia. }
  pose proof (inv_durable _ _ Hw) as Hdu. pose proof (inv_end _ _ Hw) as Hew.
  pose proof (zlen_nonneg p).
  unfold append_at. rewrite Ha. unfold sat_add. rewrite clampz_id by zlia.
  set (g1 := mkGC w' (policy g) (in_flight g + (zlen p + 8)) (last_sync g)).
  assert (Hg1 : gc_inv g1 (ps ++ [p])) by (split; simpl; [done|lia..]).
  destruct (should_sync g1 now) eqn:Hs.
  - destruct (commit_inv ok now g1 _ (end_ (wal g) + 8, Synced) Hg1) as (Hg' & He' & Hr & Hdur & Hpol).
    destruct (commit ok now g1 _) as [g' r]. cbn [fst snd] in *.
    split; [done|]. split; [by rewrite He'|]. split; [by rewrite Hpol|]. destruct ok; naive_solver.
  - split; [done|]. split; [done|]. split; [done|]. right; left. split; [done|].
    unfold should_sync in Hs. bprop. cbn [in_flight policy g1] in *. zlia.
Qed.

Lemma gc_step_inv g ps o :
  gc_inv g ps -> op_ok o -> end_ (wal g) + op_size o <= u64_max ->
  exists qs, gc_inv (gc_step crc32 g o) qs /\ end_ (wal (gc_step crc32 g o)) <= end_ (wal g) + op_size o /\
    policy (gc_step crc32 g o) = policy g.
Proof.
  intros Hg Ho Hu. destruct o as [p now ok|now ok|now ok]; simpl in *.
  - destruct (Z_le_gt_dec (zlen p) MAX_PAYLOAD) as [Hl|Hl].
    + pose proof (append_at_inv g ps p now ok Hg (conj Ho Hl) ltac:(lia)) as H.
      destruct (append_at crc32 io_fine ok g p now) as [g' r]. destruct H as (? & ? & ? & _).
      exists (ps ++ [p]). simpl. split; [done|]. split; [lia|done].
    + destruct (append_too_long io_fine (wal g) p ltac:(lia)) as [e He].
      unfold append_at. rewrite He. exists ps. destruct g. simpl. pose proof (zlen_nonneg p).
      split; [done|]. split; [lia|done].
  - unfold tick. exists ps. case_if; [simpl; split; [done|split; [lia|done]]|].
    case_if; [|simpl; split; [done|split; [lia|done]]].
    destruct (commit_inv ok now g ps true Hg) as (? & He & _ & _ & ?). split; [done|]. split; [lia|done].
  - unfold flush. exists ps.
    destruct (commit_inv ok now g ps tt Hg) as (? & He & _ & _ & ?). split; [done|]. split; [lia|done].
Qed.

Lemma gc_run_inv os : forall g ps,
  gc_inv g ps -> Forall op_ok os -> end_ (wal g) + ops_size os <= u64_max ->
  exists qs, gc_inv (gc_run crc32 g os) qs /\
    end_ (wal (gc_run crc32 g os)) <= end_ (wal g) + ops_size os /\
    policy (gc_run crc32 g os) = policy g.
Proof.
  induction os as [|o os IH]; intros g ps Hg HF Hu; simpl in *.
  - exists ps. split; [done|]. split; [lia|done].
  - inversion HF; subst. pose proof (ops_size_nonneg os).
    destruct (gc_step_inv g ps o Hg) as (qs & Hq & He & Hp); [done|lia|].
    destruct (IH (gc_step crc32 g o) qs) as (rs & Hr & He' & Hp'); [done..|lia|].
    exists rs. split; [done|]. split; [|congruence].
    unfold gc_run in *. simpl. lia.
Qed.

(** The start of a run: a log opened from disk. *)
Lemma gc_new_inv f w pol t0 :
  fresh f -> wal_open crc32 f = Ok w -> f_durable (file w) = length (f_bytes (file w)) ->
  exists ps, gc_inv (gc_new w pol t0) ps.
Proof.
  intros Hf Ho Hd. destruct (wal_open_inv f w Hf Ho) as (ps & Hi). exists ps.
  destruct (inv_bytes _ _ Hi) as (h & Hb & Hh & _).
  split; simpl; [done| |].
  - rewrite Hd, Hb, length_app. lia.
  - rewrite Hd, (inv_end _ _ Hi). zlia.
Qed.

(** C1: durability across a crash: after any run of appends, ticks and flushes
    (fsyncs failing at will), and any crash that keeps the durable bytes and
    puts anything behind them, reopening succeeds and the recovered records
    start with every record that was wholly durable; when the crash merely cut
    the file, the recovered records are a prefix of those written. *)
Theorem gc_crash_recovers f w pol t0 os c :
  fresh f -> wal_open crc32 f = Ok w -> f_durable (file w) = length (f_bytes (file w)) ->
  Forall op_ok os -> end_ w + ops_size os <= u64_max ->
  let g := gc_run crc32 (gc_new w pol t0) os in
  crash (file (wal g)) c ->
  exists recs w' recs',
    read_all crc32 (f_bytes (file (wal g))) = Ok (recs, end_ (wal g)) /\
    wal_open crc32 (mkFile c 0 (length c)) = Ok w' /\
    read_all crc32 (f_bytes (file w')) = Ok (recs', end_ w') /\
    filter (ends_by (Z.of_nat (f_durable (file (wal g))))) recs `prefix_of` recs' /\
    (c `prefix_of` f_bytes (file (wal g)) -> recs' `prefix_of` recs).
Proof.
  intros Hf Ho Hd HF Hu g Hc. destruct (gc_new_inv f w pol t0 Hf Ho Hd) as (ps0 & H0).
  destruct (gc_run_inv os _ _ H0 HF Hu) as (ps & Hg & _). fold g in Hg.
  destruct (crash_recovers _ _ c (gc_wal _ _ Hg) (gc_durable _ _ Hg) Hc) as (w' & qs & Ho' & Hi' & Hpre & Hcut).
  destruct (wal_inv_read_all _ _ (gc_wal _ _ Hg)) as (Hr & _).
  destruct (wal_inv_read_all _ _ Hi') as (Hr' & _).
  exists (records_from HEADER_LEN ps), w', (records_from HEADER_LEN qs).
  split; [done|]. split; [done|]. split; [done|]. split; [done|].
  intros [k ->]%Hcut. rewrite records_from_app. by apply prefix_app_r.
Qed.

(** The group-commit bound: whenever an append of the run returns, the
    bytes a crash can lose are fewer than [size_bytes], they are exactly the
    [in_flight] counter, and [Synced] means that nothing can be lost. *)
Theorem gc_loss_bound f w pol t0 os p now ok :
  fresh f -> wal_open crc32 f = Ok w -> f_durable (file w) = length (f_bytes (file w)) ->
  Forall op_ok os -> payload_ok p -> end_ w + ops_size os + 8 + zlen p <= u64_max ->
  0 < size_bytes pol ->
  let '(g, r) := append_at crc32 io_fine ok (gc_run crc32 (gc_new w pol t0) os) p now in
  in_flight g = zlen (f_bytes (file (wal g))) - Z.of_nat (f_durable (file (wal g))) /\
  (forall off out, r = Ok (off, out) ->
     in_flight g < size_bytes pol /\ (out = Synced <-> in_flight g = 0)) /\
  (ok = true -> exists off out, r = Ok (off, out)).
Proof.
  intros Hf Ho Hd HF Hp Hu Hs. destruct (gc_new_inv f w pol t0 Hf Ho Hd) as (ps0 & H0).
  pose proof (zlen_nonneg p).
  destruct (gc_run_inv os _ _ H0 HF) as (ps & Hg & He & Hpol); [simpl; lia|].
  pose proof (append_at_inv _ ps p now ok Hg Hp) as HA. simpl in He.
  destruct (append_at _ _ _ _ _ _) as [g r]. destruct HA as (Hg' & _ & Hpol' & Hcase); [lia|].
  rewrite Hpol in Hcase. cbn [policy gc_new] in Hcase. split.
  { rewrite (gc_in_flight _ _ Hg'). by rewrite (inv_end _ _ (gc_wal _ _ Hg')). }
  pose proof (gc_in_flight _ _ Hg') as Hfl. split.
  - intros off out ->. destruct Hcase as [[[= -> ->] ?]|[[[= -> ->] ?]|[? _]]]; [| |done].
    + split; [lia|]. split; [lia|done].
    + split; [lia|]. split; [done|lia].
  - intros ->. destruct Hcase as [[-> _]|[[-> _]|[_ ?]]]; [eauto..|done].
Qed.
(** A record whose payload is cut short ends recovery. *)
Lemma next_record_short p c :
  zlen p <= MAX_PAYLOAD -> (length c < length p)%nat ->
  next_record (le_bytes 4 (zlen p) ++ le_bytes 4 (crc32 p) ++ c) = None.
Proof.
  intros Hp Hc. unfold next_record.
  assert (read_exact 8 (le_bytes 4 (zlen p) ++ le_bytes 4 (crc32 p) ++ c) =
    Some (le_bytes 4 (zlen p) ++ le_bytes 4 (crc32 p), c)) as ->.
  { apply read_exact_Some. rewrite length_app, !length_le_bytes. by rewrite <- (assoc_L (++)). }
  rewrite take_app_length' by (by rewrite length_le_bytes). pose proof (zlen_nonneg p).
  unfold MAX_PAYLOAD in *. rewrite le_val_le_bytes by lia.
  case_if; [done|]. unfold read_exact. destruct (Nat.leb_spec (Z.to_nat (zlen p)) (length c)); [zlia|done].
Qed.

(** Finding: after a write error in the middle of a payload the writer keeps its old
    [end] while the file cursor has moved: a later append that returns [Ok]
    reports the offset of the torn record, and when the torn record claims more
    bytes than follow it the new payload is not recovered. *)
Theorem wal_short_write_loses_next w ps p q k :
  wal_inv w ps -> payload_ok p -> payload_ok q -> (k + 8 + length q < length p)%nat ->
  end_ w + 8 + zlen q <= u64_max ->
  exists w1 w2,
    append crc32 (mkIo None (Some k)) w p = (w1, Err E1001PipelineGeneric) /\
    append crc32 io_fine w1 q = (w2, Ok (end_ w + 8)) /\
    f_bytes (file w) `prefix_of` f_bytes (file w2) /\
    read_all crc32 (f_bytes (file w2)) = Ok (records_from HEADER_LEN ps, end_ w).
Proof.
  intros Hi [Hpb Hpl] [Hqb Hql] Hk Hu. destruct (wal_inv_read_all _ _ Hi) as (_ & He & _).
  destruct Hi as [(h & Hc & Hh & Hv & Hbh) HF Hpos Hend Hd].
  pose proof (zlen_nonneg p). pose proof (zlen_nonneg q). pose proof (zlen_nonneg (f_bytes (file w))).
  assert (Hm : forall x : list Z, zlen x <= MAX_PAYLOAD -> try_from 0 u32_max (zlen x) = Some (zlen x)).
  { intros x Hx. pose proof (zlen_nonneg x). apply try_from_Some. unfold MAX_PAYLOAD in *. zlia. }
  set (w1 := mkWal (mkFile (f_bytes (file w) ++ le_bytes 4 (zlen p) ++ le_bytes 4 (crc32 p) ++ take k p)
      (length (f_bytes (file w) ++ le_bytes 4 (zlen p) ++ le_bytes 4 (crc32 p) ++ take k p))
      (f_durable (file w))) (end_ w)).
  assert (HA1 : append crc32 (mkIo None (Some k)) w p = (w1, Err E1001PipelineGeneric)).
  { unfold append. rewrite Hm by done. destruct (Z.ltb_spec MAX_PAYLOAD (zlen p)); [lia|].
    rewrite checked_ok by lia. cbn [io_hdr io_payload write_all negb f_bytes f_pos f_durable].
    rewrite Hpos, <- length_app, !write_at_end. unfold w1. do 3 f_equal.
    - by rewrite <- !(assoc_L (++)).
    - rewrite !length_app. lia.
    - rewrite length_app. lia. }
  eexists w1, _. split; [done|]. split.
  { unfold append. rewrite Hm by done. destruct (Z.ltb_spec MAX_PAYLOAD (zlen q)); [lia|].
    rewrite checked_ok by (simpl; lia).
    cbn [io_hdr io_payload io_fine write_all negb f_bytes f_pos f_durable w1 file end_].
    rewrite <- length_app, !write_at_end, checked_ok by (simpl; lia). reflexivity. }
  cbn [file f_bytes]. rewrite <- !(assoc_L (++)). split; [by apply prefix_app_r|].
  rewrite Hc, <- !(assoc_L (++)), He. eapply read_all_spec; [done..| |].
  - rewrite !bytes_ok_app. eauto 10 using encode_log_ok with tm.
  - rewrite <- (app_nil_r ps) at 2. apply Parses_enc; [done|]. constructor.
    apply next_record_short; [done|]. rewrite !length_app, !length_le_bytes, length_take. lia.
Qed.
End WalSpec.

(** ** Witnesses: a stand-in checksum and a small log *)
Definition sum32 (p : list Z) : Z := foldr Z.add 0 p mod 2 ^ 32.
Lemma sum32_u32 p : 0 <= sum32 p <= u32_max.
Proof. unfold sum32, u32_max. pose proof (Z.mod_pos_bound (foldr Z.add 0 p) (2 ^ 32)). lia. Qed.

Definition empty_file : File := mkFile [] 0 0.
Definition wal0 : WalWriter := mkWal (mkFile header_bytes 12 12) 12.
Lemma empty_fresh : fresh empty_file.
Proof. repeat split; [done|constructor]. Qed.
Lemma small_payload p :
  bool_decide (Forall (fun b => 0 <= b < 256) p) = true -> zlen p <= MAX_PAYLOAD -> payload_ok p.
Proof. intros H%bool_decide_eq_true_1 Hl. by split. Qed.

Ltac small := apply small_payload; [reflexivity|vm_compute; discriminate].

Lemma wal_append_read_all_witness :
  exists old w' offs, read_all sum32 (f_bytes (file wal0)) = Ok (old, end_ wal0) /\
    append_all sum32 wal0 [[1; 2]; []] = (w', map Ok offs) /\ length offs = 2%nat /\
    read_all sum32 (f_bytes (file w')) = Ok (old ++ zip_with mkRecord offs [[1; 2]; []], end_ w') /\
    forall off p, (off, p) ∈ zip offs [[1; 2]; []] ->
      take (length p) (drop (Z.to_nat off) (f_bytes (file w'))) = p.
Proof.
  apply (wal_append_read_all sum32 sum32_u32 empty_file wal0).
  - exact empty_fresh.
  - reflexivity.
  - repeat (apply Forall_cons; split; [small|]). constructor.
  - vm_compute. discriminate.
Defined.

(** A valid record followed by a torn one. *)
Definition torn : list Z := header_bytes ++ enc_record sum32 [7; 8] ++ [9; 0; 0].

Lemma wal_open_recovers_witness :
  exists w recs, wal_open sum32 (mkFile torn 0 23) = Ok w /\
    read_all sum32 torn = Ok (recs, end_ w) /\
    f_bytes (file w) = take (Z.to_nat (end_ w)) torn /\
    read_all sum32 (f_bytes (file w)) = Ok (recs, end_ w) /\
    wal_open sum32 (seek 0 (file w)) = Ok w.
Proof.
  apply (wal_open_recovers sum32 sum32_u32 (mkFile torn 0 23)).
  - split; [reflexivity|]. split; [vm_compute; lia|]. unfold bytes_ok.
    apply (bool_decide_unpack _). reflexivity.
  - reflexivity.
Defined.

Definition run0 : list gc_op := [OpAppend [5] 0 true; OpFlush 1 true; OpAppend [6; 6] 2 true].
Definition gc0 : GroupCommit := gc_run sum32 (gc_new wal0 default_policy 0) run0.

Lemma gc_crash_recovers_witness :
  exists recs w' recs', read_all sum32 (f_bytes (file (wal gc0))) = Ok (recs, end_ (wal gc0)) /\
    wal_open sum32 (mkFile (take 24 (f_bytes (file (wal gc0)))) 0 24) = Ok w' /\
    read_all sum32 (f_bytes (file w')) = Ok (recs', end_ w') /\
    filter (ends_by (Z.of_nat (f_durable (file (wal gc0))))) recs `prefix_of` recs' /\
    (take 24 (f_bytes (file (wal gc0))) `prefix_of` f_bytes (file (wal gc0)) -> recs' `prefix_of` recs).
Proof.
  apply (gc_crash_recovers sum32 sum32_u32 empty_file wal0 default_policy 0 run0).
  - exact empty_fresh.
  - reflexivity.
  - reflexivity.
  - repeat (apply Forall_cons; split;
      [simpl; try exact I; unfold bytes_ok; apply (bool_decide_unpack _); reflexivity|]). constructor.
  - vm_compute. discriminate.
  - split; [vm_compute; lia|]. split; [reflexivity|]. unfold bytes_ok.
    apply (bool_decide_unpack _). reflexivity.
Defined.

Lemma gc_loss_bound_witness :
  let '(g, r) := append_at sum32 io_fine true gc0 [1] 3 in
  in_flight g = zlen (f_bytes (file (wal g))) - Z.of_nat (f_durable (file (wal g))) /\
  (forall off out, r = Ok (off, out) ->
     in_flight g < size_bytes default_policy /\ (out = Synced <-> in_flight g = 0)) /\
  (true = true -> exists off out, r = Ok (off, out)).
Proof.
  apply (gc_loss_bound sum32 sum32_u32 empty_file wal0 default_policy 0 run0 [1] 3 true).
  - exact empty_fresh.
  - reflexivity.
  - reflexivity.
  - repeat (apply Forall_cons; split;
      [simpl; try exact I; unfold bytes_ok; apply (bool_decide_unpack _); reflexivity|]). constructor.
  - small.
  - vm_compute. discriminate.
  - reflexivity.
Defined.

Lemma wal0_inv : wal_inv sum32 wal0 [].
Proof.
  split; simpl; [|constructor|done..]. exists header_bytes.
  split; [done|]. split; [done|]. split; [done|]. unfold bytes_ok.
  apply (bool_decide_unpack _). reflexivity.
Qed.

Lemma wal_short_write_loses_next_witness :
  exists w1 w2,
    append sum32 (mkIo None (Some 1%nat)) wal0 (replicate 20 7) = (w1, Err E1001PipelineGeneric) /\
    append sum32 io_fine w1 [9] = (w2, Ok (end_ wal0 + 8)) /\
    f_bytes (file wal0) `prefix_of` f_bytes (file w2) /\
    read_all sum32 (f_bytes (file w2)) = Ok (records_from HEADER_LEN [], end_ wal0).
Proof.
  apply (wal_short_write_loses_next sum32 sum32_u32 wal0 [] (replicate 20 7) [9] 1).
  - exact wal0_inv.
  - small.
  - small.
  - simpl. lia.
  - vm_compute. discriminate.
Defined.
