(* ===== verification/Sessions.v ===== *)
(** * Session bookkeeping: queues, registry, multiplexer, connection cap

    The bounded byte ring of crates/core/src/session/ring.rs, the hold queue,
    coalescer, panel priorities, multiplexer and connection counter of
    crates/server/src, and the session registry with the ingest counters on
    top of it (crates/core/src/session/registry.rs,
    crates/server/src/ingest.rs).  The broadcast channel behind a session's
    fan-out belongs to tokio and is a parameter. *)
From stdpp Require Import base numbers strings gmap relations list.
From S2P Require Import Prelude.

Local Open Scope Z_scope.
Local Open Scope tm_scope.

(** ** session/ring.rs *)
Module Ring.
Definition DEFAULT_CAPACITY : Z := 8 * 1024 * 1024.

Record Ring := mkRing { capacity : Z; used : Z; items : list (list Z); dropped : Z }.

Definition with_capacity (cap : Z) : Ring := mkRing cap 0 [] 0.

(** The eviction loop of [push], on the fields it changes. *)
Fixpoint evict (cap blen : Z) (its : list (list Z)) (used dropped evicted : Z)
  : result (list (list Z) * Z * Z * Z) :=
  let* need := checked 0 usize_max (used + blen) in
  match its with
  | old :: its' =>
      if cap <? need then
        let* used' := checked 0 usize_max (used - zlen old) in
        let* dropped' := checked 0 u64_max (dropped + 1) in
        evict cap blen its' used' dropped' (evicted + 1)
      else Ok (its, used, dropped, evicted)
  | [] => Ok (its, used, dropped, evicted)
  end.

Definition push (r : Ring) (b : list Z) : result (Ring * Z) :=
  let* '(its, u, d, ev) := evict (capacity r) (zlen b) (items r) (used r) (dropped r) 0 in
  if zlen b <=? capacity r then
    let* u' := checked 0 usize_max (u + zlen b) in
    Ok (mkRing (capacity r) u' (its ++ [b]) d, ev)
  else
    let* d' := checked 0 u64_max (d + 1) in
    Ok (mkRing (capacity r) u its d', ev + 1).

Definition pop (r : Ring) : result (Ring * option (list Z)) :=
  match items r with
  | [] => Ok (r, None)
  | b :: its =>
      let* u := checked 0 usize_max (used r - zlen b) in
      Ok (mkRing (capacity r) u its (dropped r), Some b)
  end.

(** What the ring promises: the longest suffix of what was pushed that fits. *)
Fixpoint total (l : list (list Z)) : Z :=
  match l with [] => 0 | b :: l' => zlen b + total l' end.
Fixpoint keep (cap : Z) (l : list (list Z)) : list (list Z) :=
  if total l <=? cap then l else match l with [] => [] | _ :: l' => keep cap l' end.

Record ring_inv (r : Ring) : Prop := {
  inv_used : used r = total (items r);
  inv_cap : total (items r) <= capacity r <= i64_max;
  inv_dropped : 0 <= dropped r
}.

Lemma total_app l k : total (l ++ k) = total l + total k.
Proof. induction l as [|b l IH]; simpl; lia. Qed.
Lemma total_nonneg l : 0 <= total l.
Proof. induction l as [|b l IH]; simpl; [lia|]. pose proof (zlen_nonneg b). lia. Qed.
Lemma keep_le cap l : 0 <= cap -> total (keep cap l) <= cap.
Proof.
  induction l as [|b l IH]; intros; simpl; [by case_if|]. case_if; [bprop; done|auto].
Qed.
Lemma keep_id cap l : total l <= cap -> keep cap l = l.
Proof. intros. destruct l; simpl in *; [by case_if|]. case_if; bprop; [done|lia]. Qed.
Lemma keep_suffix cap l : exists k, l = k ++ keep cap l.
Proof.
  induction l as [|b l IH]; simpl; [exists []; by case_if|].
  case_if; [by exists []|]. destruct IH as [k Hk]. exists (b :: k). by rewrite Hk at 1.
Qed.
(** Keeping step by step is keeping at the end. *)
Lemma keep_keep cap l k : keep cap (keep cap l ++ k) = keep cap (l ++ k).
Proof.
  induction l as [|b l IH]; simpl; [by case_if|]. case_if; bprop; [done|].
  rewrite IH. pose proof (total_nonneg k).
  destruct (Z.leb_spec (zlen b + total (l ++ k)) cap); [|done]. rewrite total_app in *. lia.
Qed.

(** The eviction loop drops a prefix until the new entry fits. *)
Lemma evict_spec cap blen its used dropped ev :
  used = total its -> total its <= cap <= i64_max -> 0 <= blen <= i64_max ->
  0 <= dropped -> dropped + zlen its <= u64_max ->
  exists k its', its = k ++ its' /\
    evict cap blen its used dropped ev = Ok (its', total its', dropped + zlen k, ev + zlen k) /\
    (blen <= cap -> total its' + blen <= cap) /\ (cap < blen -> its' = []) /\
    (forall k1 x k2, k = k1 ++ x :: k2 -> cap < total (x :: k2 ++ its') + blen).
Proof.
  intros Hu. revert used dropped ev Hu. induction its as [|old its IH]; intros used dropped ev Hu Hc Hb Hd Ho; simpl in *.
  - rewrite checked_ok by zlia. exists [], []. subst used. cbn [mbind res_bind].
    split; [done|]. split; [do 2 f_equal; [f_equal|]; zlia|]. split; [simpl; lia|].
    split; [done|]. by intros [|].
  - pose proof (total_nonneg its). pose proof (zlen_nonneg old). pose proof (zlen_nonneg its).
    rewrite zlen_cons in Ho. rewrite (checked_ok 0 usize_max (used + blen)) by zlia. cbn [mbind res_bind].
    destruct (cap <? used + blen) eqn:Hlt; bprop.
    + rewrite (checked_ok 0 usize_max) by zlia. cbn [mbind res_bind]. rewrite checked_ok by zlia. cbn [mbind res_bind].
      destruct (IH (used - zlen old) (dropped + 1) (ev + 1)) as (k & its' & -> & He & Hf & Hx & Hk);
        [lia..|]. exists (old :: k), its'. rewrite He, zlen_cons. split; [done|].
      split.
      { by replace (dropped + (1 + zlen k)) with (dropped + 1 + zlen k) by lia;
          replace (ev + (1 + zlen k)) with (ev + 1 + zlen k) by lia. }
      split; [done|]. split; [done|].
      intros [|y k1] x k2 [= -> ->]; [simpl in *; lia|]. by eapply Hk.
    + exists [], (old :: its). subst used. split; [done|]. split; [do 2 f_equal; [f_equal|]; zlia|].
      split; [simpl; lia|]. split; [lia|]. by intros [|].
Qed.

Lemma keep_drop_prefix cap k l :
  (forall k1 x k2, k = k1 ++ x :: k2 -> cap < total (x :: k2 ++ l)) -> keep cap (k ++ l) = keep cap l.
Proof.
  induction k as [|x k IH]; intros H; [done|]. simpl.
  pose proof (H [] x k eq_refl) as Hx. simpl in Hx.
  destruct (Z.leb_spec (zlen x + total (k ++ l)) cap); [lia|]. apply IH.
  intros k1 y k2 ->. by apply (H (x :: k1)).
Qed.

Lemma push_spec r b :
  ring_inv r -> zlen b <= i64_max -> dropped r + zlen (items r) + 1 <= u64_max -> 0 <= capacity r ->
  exists r' ev, push r b = Ok (r', ev) /\ ring_inv r' /\ capacity r' = capacity r /\
    items r' = keep (capacity r) (items r ++ [b]) /\
    ev = zlen (items r) + 1 - zlen (items r') /\ dropped r' = dropped r + ev.
Proof.
  intros [Hu Hc Hd] Hb Ho Hcap. pose proof (zlen_nonneg b). pose proof (zlen_nonneg (items r)).
  destruct (evict_spec (capacity r) (zlen b) (items r) (used r) (dropped r) 0)
    as (k & its' & Hits & He & Hfit & Hbig & Hk); [done|lia..|].
  pose proof (zlen_nonneg k). pose proof (total_nonneg its'). pose proof (zlen_nonneg its').
  assert (Hlen : zlen (items r) = zlen k + zlen its') by (by rewrite Hits, zlen_app).
  unfold push. rewrite He. cbn [mbind res_bind].
  assert (Hkeep : keep (capacity r) (items r ++ [b]) = keep (capacity r) (its' ++ [b])).
  { rewrite Hits, <- (assoc_L (++)). apply keep_drop_prefix. intros k1 x k2 E.
    specialize (Hk k1 x k2 E). simpl in *. rewrite (assoc_L (++)), total_app. simpl. lia. }
  destruct (Z.leb_spec (zlen b) (capacity r)) as [Hle|Hgt].
  - specialize (Hfit Hle). rewrite checked_ok by zlia. cbn [mbind res_bind].
    eexists _, _. split; [reflexivity|]. cbn [items dropped capacity].
    assert (Hsum : total (its' ++ [b]) = total its' + zlen b) by (rewrite total_app; simpl; lia).
    split; [split; cbn [used items capacity dropped]; lia|]. split; [done|].
    split; [rewrite Hkeep, keep_id; [done|lia]|].
    split; zlia.
  - specialize (Hbig Hgt). subst its'. rewrite checked_ok by zlia. cbn [mbind res_bind].
    eexists _, _. split; [reflexivity|]. cbn [items dropped capacity].
    split; [split; cbn [used items capacity dropped total]; lia|]. split; [done|].
    split; [|split; zlia].
    rewrite Hkeep. simpl. destruct (Z.leb_spec (zlen b + 0) (capacity r)); [lia|]. by case_if.
Qed.

Fixpoint push_all (r : Ring) (bs : list (list Z)) : result Ring :=
  match bs with
  | [] => Ok r
  | b :: bs' => let* '(r', _) := push r b in push_all r' bs'
  end.

Lemma push_all_spec bs : forall r,
  ring_inv r -> Forall (fun b => zlen b <= i64_max) bs -> 0 <= capacity r ->
  dropped r + zlen (items r) + zlen bs <= u64_max ->
  exists r', push_all r bs = Ok r' /\ ring_inv r' /\ capacity r' = capacity r /\
    items r' = keep (capacity r) (items r ++ bs) /\
    dropped r' = dropped r + zlen (items r) + zlen bs - zlen (items r').
Proof.
  induction bs as [|b bs IH]; intros r Hr HF Hc Ho.
  - exists r. rewrite app_nil_r. split; [done|]. split; [done|]. split; [done|].
    rewrite keep_id by (destruct Hr; lia). split; [done|]. rewrite zlen_nil. lia.
  - inversion HF; subst. rewrite zlen_cons in *. pose proof (zlen_nonneg bs).
    destruct (push_spec r b) as (r1 & ev & Hp & Hi & Hcap & Hits & Hev & Hd); [done|done|lia|done|].
    destruct (IH r1) as (r' & Ha & Hi' & Hcap' & Hits' & Hd'); [done|done|lia|lia|].
    exists r'. simpl. rewrite Hp. cbn [mbind res_bind]. split; [done|]. split; [done|].
    split; [congruence|]. split; [|lia].
    by rewrite Hits', Hits, Hcap, keep_keep, <- (assoc_L (++)).
Qed.
End Ring.

(** C37: the ring refines its specification: after any pushes onto an empty ring
    it holds exactly the longest suffix of the pushed entries whose bytes fit
    the capacity, [used] is their size, and [dropped] counts all the others;
    no arithmetic of [push] overflows. *)
Theorem ring_push_all cap bs :
  0 <= cap <= i64_max -> Forall (fun b => zlen b <= i64_max) bs -> zlen bs <= u64_max ->
  exists r, Ring.push_all (Ring.with_capacity cap) bs = Ok r /\
    Ring.items r = Ring.keep cap bs /\ Ring.used r = Ring.total (Ring.keep cap bs) /\
    Ring.used r <= cap /\ Ring.dropped r + zlen (Ring.items r) = zlen bs.
Proof.
  intros Hc HF Hl.
  destruct (Ring.push_all_spec bs (Ring.with_capacity cap)) as (r & Hp & [Hu Hcap _] & Hc' & Hi & Hd);
    [split; simpl; lia|done|simpl; lia|simpl; zlia|].
  exists r. simpl in *. rewrite Hu, Hi in *.
  split; [done|]. split; [done|]. split; [done|]. split; zlia.
Qed.

Lemma ring_push_all_witness :
  exists r, Ring.push_all (Ring.with_capacity 4) [[1; 2]; [3]; [4; 5; 6]] = Ok r /\
    Ring.items r = Ring.keep 4 [[1; 2]; [3]; [4; 5; 6]] /\
    Ring.used r = Ring.total (Ring.keep 4 [[1; 2]; [3]; [4; 5; 6]]) /\
    Ring.used r <= 4 /\ Ring.dropped r + zlen (Ring.items r) = zlen [[1; 2]; [3]; [4; 5; 6]].
Proof.
  apply ring_push_all.
  - vm_compute. split; discriminate.
  - repeat (apply Forall_cons; split; [vm_compute; discriminate|]). constructor.
  - vm_compute. discriminate.
Defined.

(** ** server/src/hold.rs *)
Module Hold.
Section Hold.
  Context {T : Type}.

Inductive DropPolicy := DropOldest | DropNew.
Record HoldQueue := mkHold { inner : list T; capacity : Z; policy : DropPolicy; dropped : Z }.

Definition new (cap : Z) (p : DropPolicy) : result HoldQueue :=
  if 0 <? cap then Ok (mkHold [] cap p 0) else Panic.

Definition push (q : HoldQueue) (item : T) : result (HoldQueue * bool) :=
  if zlen (inner q) <? capacity q then
    Ok (mkHold (inner q ++ [item]) (capacity q) (policy q) (dropped q), true)
  else
    let* d := checked 0 u64_max (dropped q + 1) in
    match policy q with
    | DropOldest => Ok (mkHold (drop 1 (inner q) ++ [item]) (capacity q) (policy q) d, true)
    | DropNew => Ok (mkHold (inner q) (capacity q) (policy q) d, false)
    end.

Definition pop (q : HoldQueue) : HoldQueue * option T :=
  (mkHold (drop 1 (inner q)) (capacity q) (policy q) (dropped q), head (inner q)).

Fixpoint push_all (q : HoldQueue) (xs : list T) : result (HoldQueue * list bool) :=
  match xs with
  | [] => Ok (q, [])
  | x :: xs' =>
      let* '(q1, k) := push q x in
      let* '(q2, ks) := push_all q1 xs' in Ok (q2, k :: ks)
  end.

(** The last [n] elements. *)
Definition last_n (n : nat) (l : list T) : list T := drop (length l - n) l.

Definition kept (p : DropPolicy) (n : nat) (l : list T) : list T :=
  match p with DropOldest => last_n n l | DropNew => take n l end.

(** One push of a well-formed queue keeps what the policy says. *)
Lemma push_kept q x :
  zlen (inner q) <= capacity q -> 0 < capacity q -> 0 <= dropped q < u64_max ->
  exists q' k, push q x = Ok (q', k) /\
    inner q' = kept (policy q) (Z.to_nat (capacity q)) (inner q ++ [x]) /\
    capacity q' = capacity q /\ policy q' = policy q /\
    dropped q' = dropped q + zlen (inner q) + 1 - zlen (inner q') /\ dropped q <= dropped q' /\
    k = (if policy q then true else zlen (inner q) <? capacity q).
Proof.
  intros Hl Hc Hd. unfold push. destruct (Z.ltb_spec (zlen (inner q)) (capacity q)).
  - eexists _, _. split; [done|]. cbn [inner capacity policy dropped].
    split; [|split; [done|split; [done|split; [zlia|split; [lia|by destruct (policy q)]]]]].
    unfold kept, last_n. destruct (policy q).
    + assert (length (inner q ++ [x]) - Z.to_nat (capacity q) = 0)%nat as ->; [|done].
      zlia.
    + rewrite take_ge; [done|]. zlia.
  - rewrite checked_ok by zlia. cbn [mbind res_bind].
    destruct (policy q) eqn:Hp; eexists _, _; (split; [done|]); cbn [inner capacity policy dropped].
    + split; [|split; [done|split; [done|split; [|split; [lia|done]]]]].
      * unfold kept, last_n.
        assert (length (inner q ++ [x]) - Z.to_nat (capacity q) = 1)%nat as -> by zlia.
        by rewrite drop_app_le by zlia.
      * zlia.
    + split; [|split; [done|split; [done|split; [lia|split; [lia|done]]]]].
      unfold kept. rewrite take_app_le, take_ge; [done|zlia..].
Qed.

Lemma kept_length p n l : (length (kept p n l) <= n)%nat.
Proof. destruct p; unfold kept, last_n; [rewrite length_drop|rewrite length_take]; lia. Qed.

Lemma kept_kept p n l k : kept p n (kept p n l ++ k) = kept p n (l ++ k).
Proof.
  destruct p; unfold kept, last_n.
  - destruct (le_gt_dec (length l) n).
    + by replace (length l - n)%nat with O by lia.
    + rewrite <- drop_app_le by lia. rewrite drop_drop, length_drop, !length_app. f_equal. lia.
  - destruct (le_gt_dec (length l) n); [by rewrite (take_ge l) by lia|].
    rewrite !take_app_le; [|lia|rewrite length_take; lia].
    rewrite take_take. f_equal. lia.
Qed.

Lemma push_all_kept xs : forall q,
  zlen (inner q) <= capacity q -> 0 < capacity q -> 0 <= dropped q ->
  dropped q + zlen xs <= u64_max ->
  exists q' ks, push_all q xs = Ok (q', ks) /\
    inner q' = kept (policy q) (Z.to_nat (capacity q)) (inner q ++ xs) /\
    dropped q' = dropped q + zlen (inner q) + zlen xs - zlen (inner q') /\ length ks = length xs.
Proof.
  induction xs as [|x xs IH]; intros q Hl Hc Hd Ho.
  - exists q, []. rewrite app_nil_r. split; [done|]. split; [|split; [zlia|done]].
    unfold kept, last_n. destruct (policy q); [|rewrite take_ge; [done|zlia]].
    assert (length (inner q) - Z.to_nat (capacity q) = 0)%nat as -> by zlia. done.
  - rewrite zlen_cons in Ho. pose proof (zlen_nonneg xs).
    destruct (push_kept q x) as (q1 & k & Hp & Hi & Hcap & Hpol & Hdr & Hge & _); [done|done|lia|].
    assert (zlen (inner q1) <= capacity q).
    { rewrite Hi. pose proof (kept_length (policy q) (Z.to_nat (capacity q)) (inner q ++ [x])). zlia. }
    destruct (decide (dropped q1 <= dropped q + 1)) as [Hd1|Hd1].
    + destruct (IH q1) as (q2 & ks & Ha & Hi2 & Hd2 & Hks); [lia..|].
      exists q2, (k :: ks). simpl. rewrite Hp. cbn [mbind res_bind]. rewrite Ha. cbn [mbind res_bind].
      split; [done|]. split; [by rewrite Hi2, Hpol, Hcap, Hi, kept_kept, <- (assoc_L (++))|].
      rewrite zlen_cons. split; [lia|simpl; lia].
    + exfalso. apply Hd1. unfold push in Hp. case_if_in Hp; [by injection Hp as <- _; simpl; lia|].
      rewrite checked_ok in Hp by zlia. cbn [mbind res_bind] in Hp.
      by destruct (policy q); injection Hp as <- _; simpl; lia.
Qed.
End Hold.
Arguments HoldQueue : clear implicits.
End Hold.

(** The hold queue refines its policy: after any pushes onto a new queue,
    [DropOldest] holds exactly the newest [capacity] items and [DropNew] the
    oldest [capacity], in order, and every other item is counted as dropped;
    a capacity of zero panics. *)
Theorem hold_push_all {T} cap (p : Hold.DropPolicy) (xs : list T) :
  zlen xs <= u64_max ->
  (cap <= 0 -> @Hold.new T cap p = Panic) /\
  (0 < cap ->
   exists q0 q ks, Hold.new cap p = Ok q0 /\ Hold.push_all q0 xs = Ok (q, ks) /\
     Hold.inner q = Hold.kept p (Z.to_nat cap) xs /\
     Hold.dropped q + zlen (Hold.inner q) = zlen xs /\ zlen (Hold.inner q) <= cap).
Proof.
  intros Hl. unfold Hold.new. split; intros Hc.
  - destruct (Z.ltb_spec 0 cap); [lia|done].
  - destruct (Z.ltb_spec 0 cap); [|lia].
    destruct (Hold.push_all_kept xs (Hold.mkHold [] cap p 0)) as (q & ks & Ha & Hi & Hd & _);
      [simpl; zlia..|]. cbn [Hold.inner Hold.capacity Hold.policy Hold.dropped] in *.
    exists (Hold.mkHold [] cap p 0), q, ks. split; [done|]. split; [done|]. split; [done|].
    split; [zlia|]. rewrite Hi. pose proof (Hold.kept_length p (Z.to_nat cap) ([] ++ xs)). zlia.
Qed.

Lemma hold_push_all_witness :
  (2 <= 0 -> @Hold.new Z 2 Hold.DropOldest = Panic) /\
  (0 < 2 ->
   exists q0 q ks, Hold.new 2 Hold.DropOldest = Ok q0 /\ Hold.push_all q0 [7; 8; 9] = Ok (q, ks) /\
     Hold.inner q = Hold.kept Hold.DropOldest (Z.to_nat 2) [7; 8; 9] /\
     Hold.dropped q + zlen (Hold.inner q) = zlen [7; 8; 9] /\ zlen (Hold.inner q) <= 2).
Proof. apply hold_push_all. vm_compute. discriminate. Defined.

(** ** server/src/ratelimit.rs: the connection counter

    [acquire] is a load followed by a compare-exchange loop; every thread may
    be between any two of its steps, and the weak compare-exchange may fail
    spuriously. *)
Module Conn.
Definition MAX_CONNS : Z := 32.

Inductive thread := Idle | Trying (seen : Z) | Holding | Refused.
Record state := mkState { cap : Z; cur : Z; threads : list thread }.

Definition initial (c : Z) (n : nat) : state := mkState c 0 (replicate n Idle).

Inductive step : state -> state -> Prop :=
| S_load s i : threads s !! i = Some Idle ->
    step s (mkState (cap s) (cur s) (<[i := Trying (cur s)]> (threads s)))
| S_refuse s i v : threads s !! i = Some (Trying v) -> cap s <= v ->
    step s (mkState (cap s) (cur s) (<[i := Refused]> (threads s)))
| S_cas_ok s i v : threads s !! i = Some (Trying v) -> v < cap s -> cur s = v ->
    step s (mkState (cap s) ((v + 1) mod 2 ^ 32) (<[i := Holding]> (threads s)))
| S_cas_fail s i v : threads s !! i = Some (Trying v) -> v < cap s ->
    step s (mkState (cap s) (cur s) (<[i := Trying (cur s)]> (threads s)))
| S_drop s i : threads s !! i = Some Holding ->
    step s (mkState (cap s) ((cur s - 1) mod 2 ^ 32) (<[i := Idle]> (threads s))).

Definition holding (t : thread) : bool := match t with Holding => true | _ => false end.
Definition held (ts : list thread) : Z := zlen (List.filter holding ts).

Lemma held_insert ts i old new :
  ts !! i = Some old ->
  held (<[i := new]> ts) = held ts - Z.b2z (holding old) + Z.b2z (holding new).
Proof.
  unfold held. revert i. induction ts as [|t ts IH]; intros [|i] H; simplify_eq/=.
  - destruct (holding old), (holding new); cbn [Z.b2z]; rewrite ?zlen_cons; lia.
  - specialize (IH i H). destruct (holding t); rewrite ?zlen_cons; lia.
Qed.
Lemma held_holding ts i : ts !! i = Some Holding -> 1 <= held ts.
Proof.
  intros H. pose proof (held_insert ts i Holding Idle H) as E. simpl in E.
  pose proof (zlen_nonneg (List.filter holding (<[i := Idle]> ts))). unfold held in *. lia.
Qed.

Definition inv (s : state) : Prop := cur s = held (threads s) /\ cur s <= cap s <= u32_max.

Lemma step_inv s s' : step s s' -> inv s -> inv s' /\ cap s' = cap s.
Proof.
  intros H [Hc Hcap]. unfold inv.
  destruct H as [s i Ht|s i v Ht Hv|s i v Ht Hv He|s i v Ht Hv|s i Ht]; simpl;
    rewrite (held_insert _ _ _ _ Ht); cbn [holding Z.b2z]; (split; [|done]).
  - lia.
  - lia.
  - pose proof (zlen_nonneg (List.filter holding (threads s))). unfold held in *.
    rewrite Z.mod_small by zlia. lia.
  - lia.
  - pose proof (held_holding _ _ Ht). rewrite Z.mod_small by zlia. lia.
Qed.
End Conn.

(** C38: the connection cap holds under every interleaving: in any state
    reachable from [n] idle threads the shared counter is exactly the number of
    guards held, never above the cap, so neither the increment nor the
    decrement wraps. *)
Theorem conn_cap_safe c n s :
  0 <= c <= u32_max -> rtc Conn.step (Conn.initial c n) s ->
  Conn.cur s = Conn.held (Conn.threads s) /\ 0 <= Conn.cur s <= c.
Proof.
  intros Hc Hr.
  assert (Conn.inv s /\ Conn.cap s = c) as [[H1 H2] H3].
  { remember (Conn.initial c n) as s0 eqn:E. assert (Conn.inv s0 /\ Conn.cap s0 = c) as H0.
    { subst s0. unfold Conn.inv, Conn.initial. simpl. split; [|done]. split; [|lia].
      clear. induction n; simpl; [done|]. exact IHn. }
    clear E. induction Hr as [|s1 s2 s3 H12 _ IH]; [done|]. destruct H0 as [Hi <-].
    destruct (Conn.step_inv _ _ H12 Hi) as [Hi2 Hc2]. rewrite <- Hc2 in *. by apply IH. }
  pose proof (zlen_nonneg (List.filter Conn.holding (Conn.threads s))). unfold Conn.held in *. lia.
Qed.

Lemma conn_cap_safe_witness :
  Conn.cur (Conn.mkState 1 1 [Conn.Holding; Conn.Refused]) = Conn.held [Conn.Holding; Conn.Refused] /\
  0 <= Conn.cur (Conn.mkState 1 1 [Conn.Holding; Conn.Refused]) <= 1.
Proof.
  apply (conn_cap_safe 1 2).
  - vm_compute. split; discriminate.
  - eapply rtc_l; [apply (Conn.S_load _ 0); reflexivity|].
    eapply rtc_l; [apply (Conn.S_load _ 1); reflexivity|].
    eapply rtc_l; [apply (Conn.S_cas_ok _ 0 0); [reflexivity|reflexivity|reflexivity]|].
    eapply rtc_l; [apply (Conn.S_cas_fail _ 1 0); reflexivity|].
    eapply rtc_l; [apply (Conn.S_refuse _ 1 1); [reflexivity|vm_compute; discriminate]|].
    apply rtc_refl.
Defined.

(** ** server/src/mux.rs *)
Module Mux.
Record ChannelInfo := mkInfo { kind : list Z; sid : option (list Z) }.
Record Mux := mkMux { next : Z; channels : gmap Z ChannelInfo }.
Definition new : Mux := mkMux 0 ∅.

(** [fetch_add] wraps. *)
Definition open (m : Mux) (i : ChannelInfo) : Mux * Z :=
  (mkMux ((next m + 1) mod 2 ^ 32) (<[next m := i]> (channels m)), next m).
Definition close (m : Mux) (id : Z) : Mux * option ChannelInfo :=
  (mkMux (next m) (delete id (channels m)), channels m !! id).
Definition get (m : Mux) (id : Z) : option ChannelInfo := channels m !! id.
Definition len (m : Mux) : Z := Z.of_nat (size (channels m)).

Inductive op := Open (i : ChannelInfo) | Close (id : Z).
(** The ids handed out by a run. *)
Fixpoint run (m : Mux) (os : list op) : Mux * list Z :=
  match os with
  | [] => (m, [])
  | Open i :: os' =>
      let '(m1, id) := open m i in let '(m2, ids) := run m1 os' in (m2, id :: ids)
  | Close id :: os' => run (fst (close m id)) os'
  end.
Definition opens (os : list op) : list ChannelInfo :=
  omap (fun o => match o with Open i => Some i | Close _ => None end) os.

Lemma run_spec os : forall m, 0 <= next m < 2 ^ 32 ->
  next (fst (run m os)) = (next m + zlen (opens os)) mod 2 ^ 32 /\
  snd (run m os) = map (fun k => (next m + Z.of_nat k) mod 2 ^ 32) (seq 0 (length (opens os))).
Proof.
  induction os as [|[i|id] os IH]; intros m Hm.
  - simpl. rewrite Z.add_0_r, Z.mod_small by lia. done.
  - change (opens (Open i :: os)) with (i :: opens os). cbn [run open length].
    destruct (run _ os) as [m2 ids] eqn:E.
    destruct (IH (mkMux ((next m + 1) mod 2 ^ 32) (<[next m := i]> (channels m)))) as [Hn Hi];
      [simpl; apply Z.mod_pos_bound; lia|].
    rewrite E in Hn, Hi. cbn [fst snd next] in *. split.
    + rewrite Hn, zlen_cons, Zplus_mod_idemp_l. f_equal. lia.
    + rewrite Hi. cbn [seq map]. change (Z.of_nat 0) with 0.
      rewrite Z.add_0_r, (Z.mod_small (next m)) by lia. f_equal.
      rewrite <- seq_shift, map_map. apply map_ext. intros k.
      rewrite Zplus_mod_idemp_l. f_equal. lia.
  - simpl. destruct (IH (mkMux (next m) (delete id (channels m)))) as [Hn Hi]; [done|]. done.
Qed.
End Mux.

(** Channel ids of one connection are pairwise distinct as long as at most
    [2^32] channels are opened, whatever is closed in between. *)
Theorem mux_ids_unique os :
  zlen (Mux.opens os) <= 2 ^ 32 -> NoDup (snd (Mux.run Mux.new os)).
Proof.
  intros Hl. destruct (Mux.run_spec os Mux.new) as [_ ->]; [vm_compute; split; [discriminate|reflexivity]|].
  apply NoDup_fmap_2_strong; [|apply NoDup_seq].
  intros x y Hx%elem_of_seq Hy%elem_of_seq. simpl. unfold zlen in Hl.
  rewrite !Z.mod_small by lia. lia.
Qed.
Lemma mux_ids_unique_witness :
  NoDup (snd (Mux.run Mux.new [Mux.Open (Mux.mkInfo [] None); Mux.Close 0; Mux.Open (Mux.mkInfo [1] None)])).
Proof. apply mux_ids_unique. vm_compute. discriminate. Defined.

(** Finding: after [2^32] opens the counter wraps instead of panicking: the next
    open hands out id 0 again, and if channel 0 is still open its metadata is
    replaced. *)
Theorem mux_id_reused infos i :
  zlen infos = 2 ^ 32 ->
  let m := fst (Mux.run Mux.new (map Mux.Open infos)) in
  0 ∈ snd (Mux.run Mux.new (map Mux.Open infos)) /\ snd (Mux.open m i) = 0 /\
  Mux.get (fst (Mux.open m i)) 0 = Some i.
Proof.
  intros Hl.
  assert (Ho : Mux.opens (map Mux.Open infos) = infos).
  { unfold Mux.opens. clear Hl. induction infos as [|x infos IH]; simpl; [done|]. by f_equal. }
  destruct (Mux.run_spec (map Mux.Open infos) Mux.new) as [Hn Hi];
    [vm_compute; split; [discriminate|reflexivity]|].
  rewrite Ho, Hl in Hn. change ((Mux.next Mux.new + 2 ^ 32) mod 2 ^ 32) with 0 in Hn.
  cbv zeta. rewrite Hi, Ho. split; [|split].
  - apply list_elem_of_In, in_map_iff. exists O. split; [done|]. apply in_seq.
    unfold zlen in Hl. lia.
  - done.
  - unfold Mux.get, Mux.open. simpl. rewrite Hn. by rewrite lookup_insert_eq.
Qed.
Lemma mux_id_reused_witness :
  let infos := replicate (Z.to_nat (2 ^ 32)) (Mux.mkInfo [] None) in
  let m := fst (Mux.run Mux.new (map Mux.Open infos)) in
  0 ∈ snd (Mux.run Mux.new (map Mux.Open infos)) /\ snd (Mux.open m (Mux.mkInfo [1] None)) = 0 /\
  Mux.get (fst (Mux.open m (Mux.mkInfo [1] None))) 0 = Some (Mux.mkInfo [1] None).
Proof.
  apply (mux_id_reused (replicate (Z.to_nat (2 ^ 32)) (Mux.mkInfo [] None)) (Mux.mkInfo [1] None)).
  unfold zlen. rewrite length_replicate. apply Z2Nat.id. discriminate.
Defined.

(** ** server/src/coalesce.rs and server/src/panel_priority.rs *)
Module Coalesce.
Inductive Bucket := Live | Visible | Hidden.
(** Periods in nanoseconds. *)
Definition period (b : Bucket) : Z :=
  match b with Live => 16 * 1000000 | Visible => 500 * 1000000 | Hidden => 2 * 1000000000 end.

Record Coalescer := mkCoalescer { bucket : Bucket; last_flush : Z }.
Definition new (b : Bucket) (now : Z) : Coalescer := mkCoalescer b now.
Definition set_bucket (c : Coalescer) (b : Bucket) : Coalescer := mkCoalescer b (last_flush c).
Definition should_flush (c : Coalescer) (now : Z) : Coalescer * bool :=
  if period (bucket c) <=? Z.max 0 (now - last_flush c)
  then (mkCoalescer (bucket c) now, true) else (c, false).

Inductive PanelVisibility := PForeground | PVisible | PHidden.
Definition visibility_bucket (v : PanelVisibility) : Bucket :=
  match v with PForeground => Live | PVisible => Visible | PHidden => Hidden end.
Abbreviation PanelPriority := (gmap Z PanelVisibility).
Definition set (p : PanelPriority) (panel : Z) (v : PanelVisibility) : PanelPriority := <[panel := v]> p.
Definition remove (p : PanelPriority) (panel : Z) : PanelPriority := delete panel p.
Definition get (p : PanelPriority) (panel : Z) : PanelVisibility := default PHidden (p !! panel).
Definition panel_bucket (p : PanelPriority) (panel : Z) : Bucket := visibility_bucket (get p panel).

(** A channel polled at given instants, its bucket following a panel hint. *)
Fixpoint polls (c : Coalescer) (ps : list (Bucket * Z)) : Coalescer * list bool :=
  match ps with
  | [] => (c, [])
  | (b, now) :: ps' =>
      let '(c1, f) := should_flush (set_bucket c b) now in
      let '(c2, fs) := polls c1 ps' in (c2, f :: fs)
  end.

Fixpoint flush_time (ps : list (Bucket * Z)) (fs : list bool) : Z :=
  match ps, fs with
  | (b, _) :: ps', true :: fs' => period b + flush_time ps' fs'
  | _ :: ps', _ :: fs' => flush_time ps' fs'
  | _, _ => 0
  end.

Lemma period_pos b : 0 < period b.
Proof. destruct b; reflexivity. Qed.

Lemma polls_spec ps : forall c,
  let '(c', fs) := polls c ps in
  flush_time ps fs <= last_flush c' - last_flush c /\
  (last_flush c' = last_flush c \/ last_flush c' ∈ map snd ps).
Proof.
  induction ps as [|[b now] ps IH]; intros c; simpl; [split; [lia|by left]|].
  unfold should_flush. cbn [bucket last_flush set_bucket]. pose proof (period_pos b).
  destruct (Z.leb_spec (period b) (Z.max 0 (now - last_flush c))).
  - specialize (IH (mkCoalescer b now)). destruct (polls _ ps) as [c' fs]. cbn [last_flush] in IH.
    destruct IH as [IH1 IH2]. split; [lia|]. right. apply elem_of_cons.
    destruct IH2 as [->|]; auto.
  - specialize (IH (set_bucket c b)). destruct (polls _ ps) as [c' fs]. cbn [last_flush set_bucket] in IH.
    destruct IH as [IH1 IH2]. split; [lia|]. destruct IH2; [by left|]. right. by apply elem_of_cons; right.
Qed.
End Coalesce.

(** The coalescer bounds the flush rate: polled at any instants up to [T]
    (in any order, with the bucket changing at will), the periods of the polls
    that flushed sum to at most the time since the previous flush. *)
Theorem coalescer_rate c ps T :
  Forall (fun p => snd p <= T) ps -> Coalesce.last_flush c <= T ->
  Coalesce.flush_time ps (snd (Coalesce.polls c ps)) <= T - Coalesce.last_flush c.
Proof.
  intros HF Hc. pose proof (Coalesce.polls_spec ps c) as H.
  destruct (Coalesce.polls c ps) as [c' fs]. destruct H as [H1 H2]. simpl.
  enough (Coalesce.last_flush c' <= T) by lia. destruct H2 as [->|H2]; [done|].
  apply list_elem_of_In, in_map_iff in H2 as (x & <- & Hx%list_elem_of_In).
  rewrite Forall_forall in HF. by apply HF.
Qed.
Lemma coalescer_rate_witness :
  Coalesce.flush_time [(Coalesce.Live, 20000000); (Coalesce.Live, 30000000); (Coalesce.Hidden, 40000000)]
    (snd (Coalesce.polls (Coalesce.new Coalesce.Live 0)
       [(Coalesce.Live, 20000000); (Coalesce.Live, 30000000); (Coalesce.Hidden, 40000000)]))
  <= 40000000 - 0.
Proof.
  apply (coalescer_rate (Coalesce.new Coalesce.Live 0) _ 40000000).
  - repeat (apply Forall_cons; split; [vm_compute; discriminate|]). constructor.
  - vm_compute. discriminate.
Defined.

(** ** core/src/session/registry.rs, core/src/session/fanout.rs, server/src/ingest.rs *)
Module Ingest.
Section Ingest.
  (** tokio's broadcast channel: its state and [Sender::send], which returns the
      number of receivers or an error. *)
  Variable Tx : Type.
  Variable send : Tx -> list Z -> Tx * option Z.

Definition Fanout_publish (f : Tx) (b : list Z) : Tx * Z :=
  let '(f', r) := send f b in (f', default 0 r).

Record SessionState := mkSession {
  sid : Z; kind : list Z; iface : list Z; label : option (list Z); fanout : Tx }.

Abbreviation Registry := (gmap Z SessionState).
Definition insert (r : Registry) (s : SessionState) : Registry * Z := (<[sid s := s]> r, sid s).
Definition insert_if_absent (r : Registry) (s : SessionState) : Registry * SessionState :=
  match r !! sid s with
  | Some existing => (r, existing)
  | None => (<[sid s := s]> r, s)
  end.
Definition get (r : Registry) (i : Z) : option SessionState := r !! i.
Definition remove (r : Registry) (i : Z) : Registry * option SessionState := (delete i r, r !! i).
Definition ids (r : Registry) : list Z := map fst (map_to_list r).

Record IngestStats := mkStats { frames_in : Z; bytes_logged : Z; dropped : Z }.
Definition no_stats : IngestStats := mkStats 0 0 0.
Record Ingest := mkIngest { registry : Registry; stats : gmap Z IngestStats }.
Definition new : Ingest := mkIngest ∅ ∅.

Definition register_session (g : Ingest) (s : SessionState) : Ingest * Z :=
  let '(r, st) := insert_if_absent (registry g) s in (mkIngest r (stats g), sid st).

Definition record_frame (g : Ingest) (i bytes : Z) : result Ingest :=
  let e := default no_stats (stats g !! i) in
  let* f := checked 0 u64_max (frames_in e + 1) in
  let* b := checked 0 u64_max (bytes_logged e + bytes) in
  Ok (mkIngest (registry g) (<[i := mkStats f b (dropped e)]> (stats g))).

Definition record_drop (g : Ingest) (i n : Z) : result Ingest :=
  let e := default no_stats (stats g !! i) in
  let* d := checked 0 u64_max (dropped e + n) in
  Ok (mkIngest (registry g) (<[i := mkStats (frames_in e) (bytes_logged e) d]> (stats g))).

Definition publish_wire (g : Ingest) (i : Z) (bytes : list Z) : result (Ingest * option Z) :=
  let byte_count := default u64_max (try_from 0 u64_max (zlen bytes)) in
  match get (registry g) i with
  | None => Ok (g, None)
  | Some s =>
      let '(f', delivered) := Fanout_publish (fanout s) bytes in
      let g1 := mkIngest (<[i := mkSession (sid s) (kind s) (iface s) (label s) f']> (registry g)) (stats g) in
      let* g2 := record_frame g1 i byte_count in
      Ok (g2, Some delivered)
  end.

Definition stats_of (g : Ingest) (i : Z) : option IngestStats := stats g !! i.

(** ** Counting along a run *)
Inductive op :=
| Register (s : SessionState)
| Unregister (i : Z)
| Publish (i : Z) (bytes : list Z)
| Dropped (i n : Z).

Definition apply_op (g : Ingest) (o : op) : result (Ingest * option Z) :=
  match o with
  | Register s => Ok (fst (register_session g s), None)
  | Unregister i => Ok (mkIngest (fst (remove (registry g) i)) (stats g), None)
  | Publish i bytes => publish_wire g i bytes
  | Dropped i n => let* g' := record_drop g i n in Ok (g', None)
  end.
Fixpoint run (g : Ingest) (os : list op) : result (Ingest * list (option Z)) :=
  match os with
  | [] => Ok (g, [])
  | o :: os' =>
      let* '(g1, r) := apply_op g o in
      let* '(g2, rs) := run g1 os' in Ok (g2, r :: rs)
  end.

(** What the counters of [i] should gain from a run and its results. *)
Fixpoint tally (i : Z) (os : list op) (rs : list (option Z)) : IngestStats :=
  match os, rs with
  | o :: os', r :: rs' =>
      let t := tally i os' rs' in
      match o, r with
      | Publish j bytes, Some _ =>
          if j =? i then mkStats (frames_in t + 1) (bytes_logged t + zlen bytes) (dropped t) else t
      | Dropped j n, _ =>
          if j =? i then mkStats (frames_in t) (bytes_logged t) (dropped t + n) else t
      | _, _ => t
      end
  | _, _ => no_stats
  end.

Definition plus (a b : IngestStats) : IngestStats :=
  mkStats (frames_in a + frames_in b) (bytes_logged a + bytes_logged b) (dropped a + dropped b).
Definition stats_or (g : Ingest) (i : Z) : IngestStats := default no_stats (stats g !! i).

Lemma record_frame_stats g i b g' j :
  record_frame g i b = Ok g' ->
  stats_or g' j = if i =? j then plus (stats_or g j) (mkStats 1 b 0) else stats_or g j.
Proof.
  unfold record_frame. intros (f & [-> _]%checked_inv & H)%bind_Ok.
  apply bind_Ok in H as (b' & [-> _]%checked_inv & [= <-]). unfold stats_or. cbn [stats].
  destruct (Z.eqb_spec i j) as [->|E].
  - rewrite lookup_insert_eq. unfold plus. simpl. f_equal. lia.
  - by rewrite lookup_insert_ne.
Qed.

Lemma record_drop_stats g i n g' j :
  record_drop g i n = Ok g' ->
  stats_or g' j = if i =? j then plus (stats_or g j) (mkStats 0 0 n) else stats_or g j.
Proof.
  unfold record_drop. intros (d & [-> _]%checked_inv & [= <-])%bind_Ok. unfold stats_or. cbn [stats].
  destruct (Z.eqb_spec i j) as [->|E].
  - rewrite lookup_insert_eq. unfold plus. simpl. f_equal; lia.
  - by rewrite lookup_insert_ne.
Qed.

Lemma byte_count_ok (b : list Z) : zlen b <= u64_max -> default u64_max (try_from 0 u64_max (zlen b)) = zlen b.
Proof.
  intros. assert (try_from 0 u64_max (zlen b) = Some (zlen b)) as ->; [|done].
  apply try_from_Some. pose proof (zlen_nonneg b). lia.
Qed.

Lemma plus_assoc a b c : plus a (plus b c) = plus (plus a b) c.
Proof. unfold plus. simpl. f_equal; lia. Qed.
Lemma plus_0_r a : plus a no_stats = a.
Proof. destruct a. unfold plus. simpl. f_equal; lia. Qed.

Lemma run_tally os : forall g g' rs i,
  Forall (fun o => match o with Publish _ b => zlen b <= u64_max | _ => True end) os ->
  run g os = Ok (g', rs) -> stats_or g' i = plus (stats_or g i) (tally i os rs).
Proof.
  induction os as [|o os IH]; intros g g' rs i HF Hr.
  - injection Hr as <- <-. by rewrite plus_0_r.
  - inversion HF as [|? ? Ho HF']; subst. simpl in Hr.
    apply bind_Ok in Hr as ([g1 r] & H1 & Hr). apply bind_Ok in Hr as ([g2 rs'] & H2 & [= <- <-]).
    rewrite (IH _ _ _ i HF' H2). destruct o as [s|j|j b|j n]; simpl in H1.
    + injection H1 as <- <-. unfold register_session. destruct (insert_if_absent _ s). done.
    + injection H1 as <- <-. done.
    + unfold publish_wire in H1. destruct (get (registry g) j) as [s|].
      * destruct (Fanout_publish _ b) as [f' dl]. apply bind_Ok in H1 as (g3 & H3 & [= <- <-]).
        rewrite byte_count_ok in H3 by done. rewrite (record_frame_stats _ _ _ _ i H3). cbn [tally].
        unfold stats_or. cbn [stats]. destruct (Z.eqb_spec j i); [|done].
        rewrite <- plus_assoc. f_equal. unfold plus. simpl. f_equal; lia.
      * injection H1 as <- <-. done.
    + apply bind_Ok in H1 as (g3 & H3 & [= <- <-]). rewrite (record_drop_stats _ _ _ _ i H3). cbn [tally].
      destruct (Z.eqb_spec j i); [|done].
      rewrite <- plus_assoc. f_equal. unfold plus. simpl. f_equal; lia.
Qed.

(** The first registration of an id wins until it is removed. *)
Lemma register_stable os : forall g g' rs s,
  registry g !! sid s = Some s -> run g os = Ok (g', rs) ->
  (forall o, o ∈ os -> match o with Unregister j => j <> sid s | _ => True end) ->
  exists f, registry g' !! sid s = Some (mkSession (sid s) (kind s) (iface s) (label s) f).
Proof.
  induction os as [|o os IH]; intros g g' rs s Hs Hr Hu.
  - injection Hr as <- <-. exists (fanout s). rewrite Hs. by destruct s.
  - simpl in Hr. apply bind_Ok in Hr as ([g1 r] & H1 & Hr).
    apply bind_Ok in Hr as ([g2 rs'] & H2 & [= <- <-]).
    assert (exists f, registry g1 !! sid s = Some (mkSession (sid s) (kind s) (iface s) (label s) f))
      as [f Hf].
    { assert (Hid : exists f, registry g !! sid s = Some (mkSession (sid s) (kind s) (iface s) (label s) f))
        by (exists (fanout s); rewrite Hs; by destruct s).
      specialize (Hu o (list_elem_of_here _ _)). destruct o as [s'|j|j b|j n]; simpl in H1.
      - injection H1 as <- <-. unfold register_session, insert_if_absent.
        destruct (registry g !! sid s') eqn:E; [done|]. simpl.
        rewrite lookup_insert_ne; [done|]. intros E'. rewrite E' in E. congruence.
      - injection H1 as <- <-. simpl. rewrite lookup_delete_ne; done.
      - unfold publish_wire, get in H1. destruct (registry g !! j) as [s'|] eqn:E.
        + destruct (Fanout_publish _ b) as [f' dl]. apply bind_Ok in H1 as (g3 & H3 & [= <- <-]).
          unfold record_frame in H3. apply bind_Ok in H3 as (a & _ & H3).
          apply bind_Ok in H3 as (c & _ & [= <-]). cbn [registry].
          destruct (decide (j = sid s)) as [->|Hne].
          * rewrite lookup_insert_eq. simplify_eq. eauto.
          * by rewrite lookup_insert_ne.
        + injection H1 as <- <-. done.
      - apply bind_Ok in H1 as (g3 & H3 & [= <- <-]). unfold record_drop in H3.
        apply bind_Ok in H3 as (a & _ & [= <-]). done. }
    destruct (IH g1 g2 rs' (mkSession (sid s) (kind s) (iface s) (label s) f)) as [f' Hf'];
      [done|done| |eauto]. intros o' Ho'. apply (Hu o'). by apply list_elem_of_further.
Qed.
End Ingest.
End Ingest.

(** The ingest counters are exact: along any run of registrations,
    removals, publishes and drop reports, the counters of a session are the
    number and total size of the publishes that found it registered and the
    sum of the drops reported for it. *)
Theorem ingest_counts_exact Tx send (os : list (Ingest.op Tx)) g rs i :
  Forall (fun o => match o with Ingest.Publish _ _ b => zlen b <= u64_max | _ => True end) os ->
  Ingest.run Tx send (Ingest.new Tx) os = Ok (g, rs) ->
  Ingest.stats_or Tx g i = Ingest.tally Tx i os rs.
Proof.
  intros HF Hr. rewrite (Ingest.run_tally Tx send os _ _ _ i HF Hr).
  unfold Ingest.stats_or, Ingest.plus. simpl. by destruct (Ingest.tally Tx i os rs).
Qed.

(** A broadcast channel that only counts its receivers. *)
Definition count_send (n : Z) (_ : list Z) : Z * option Z := (n, if 0 <? n then Some n else None).
Definition ingest_ops : list (Ingest.op Z) :=
  [Ingest.Register Z (Ingest.mkSession Z 7 [] [] None 2); Ingest.Publish Z 7 [1; 2; 3];
   Ingest.Publish Z 8 [1]; Ingest.Dropped Z 7 4].
Lemma ingest_counts_exact_witness :
  exists g rs, Ingest.run Z count_send (Ingest.new Z) ingest_ops = Ok (g, rs) /\
    Ingest.stats_or Z g 7 = Ingest.tally Z 7 ingest_ops rs /\
    Ingest.tally Z 7 ingest_ops rs = Ingest.mkStats 1 3 4.
Proof.
  eexists _, _. split; [reflexivity|]. split; [|reflexivity].
  apply (ingest_counts_exact Z count_send ingest_ops).
  - repeat (apply Forall_cons; split; [vm_compute; first [exact I|discriminate]|]). constructor.
  - reflexivity.
Defined.
