(* ===== verification/Naming.v ===== *)
(** * Session directories: names, rotation, retention

    crates/core/src/session_name.rs, crates/core/src/log/rotate.rs,
    crates/core/src/log/retention.rs and the retention pass of the server
    (crates/server/src/lib.rs).  The calendar of the [time] crate is a
    parameter. *)
From stdpp Require Import base numbers strings list.
From S2P Require Import Prelude Text.

Local Open Scope Z_scope.
Local Open Scope tm_scope.

(** ** session_name.rs *)
Module SessionName.
Definition DEFAULT_CLI_SESSION_NAME_PATTERN : list Z := lit "{prefix}_{kind}_{iface}_{timestamp}".
Definition DEFAULT_SERVER_SESSION_NAME_PATTERN : list Z := lit "tracemux_{kind}_{iface}_{unix_ns}".

Record SessionNameParts := mkParts {
  prefix : list Z; kind : list Z; iface : list Z; timestamp : list Z; unix_ns : Z }.

Definition name_char (ch : Z) : bool :=
  is_ascii_alphanumeric ch || (ch =? 45) || (ch =? 95) || (ch =? 46).
Definition dash_or_dot (ch : Z) : bool := (ch =? 45) || (ch =? 46).

(** The character loop: anything else becomes a dash, runs of dashes collapse. *)
Fixpoint sanitize_loop (previous_dash : bool) (input : list Z) : list Z :=
  match input with
  | [] => []
  | ch :: input' =>
      let mapped := if name_char ch then ch else 45 in
      if mapped =? 45 then
        if negb previous_dash then mapped :: sanitize_loop true input' else sanitize_loop true input'
      else mapped :: sanitize_loop false input'
  end.

(** Only ASCII characters leave the loop, so [len] and [truncate], which count
    bytes, count characters here. *)
Definition sanitize_session_name (input : list Z) : list Z :=
  let trimmed := trim_matches dash_or_dot (sanitize_loop false input) in
  let trimmed := if 160 <? zlen trimmed then trim_matches dash_or_dot (take 160 trimmed) else trimmed in
  match trimmed with [] => lit "session" | _ => trimmed end.

Definition render_session_name (pattern : list Z) (parts : SessionNameParts) : list Z :=
  let pattern := match trim pattern with [] => DEFAULT_CLI_SESSION_NAME_PATTERN | p => p end in
  let rendered :=
    replace (lit "{unix_ns}") (show_int (unix_ns parts))
      (replace (lit "{timestamp}") (timestamp parts)
         (replace (lit "{iface}") (iface parts)
            (replace (lit "{kind}") (kind parts)
               (replace (lit "{prefix}") (prefix parts) pattern)))) in
  sanitize_session_name rendered.

(** No two adjacent dashes; [prev] tells whether a dash precedes. *)
Fixpoint no_double_dash (prev : bool) (l : list Z) : bool :=
  match l with
  | [] => true
  | c :: l' => negb (prev && (c =? 45)) && no_double_dash (c =? 45) l'
  end.

Lemma sanitize_loop_safe prev l :
  Forall (fun c => name_char c = true) (sanitize_loop prev l) /\
  no_double_dash prev (sanitize_loop prev l) = true.
Proof.
  revert prev. induction l as [|c l IH]; intros prev; [by split; [constructor|]|]. cbn [sanitize_loop].
  set (m := if name_char c then c else 45).
  assert (Hm : name_char m = true) by (unfold m; by destruct (name_char c) eqn:E).
  destruct (m =? 45) eqn:Em.
  - destruct prev; cbn [negb]; [apply IH|]. destruct (IH true) as [H1 H2]. split; [by constructor|].
    cbn [no_double_dash]. rewrite Em. by rewrite H2.
  - destruct (IH false) as [H1 H2]. split; [by constructor|]. cbn [no_double_dash].
    by rewrite Em, H2, andb_false_r.
Qed.

Lemma sanitize_loop_id prev l :
  Forall (fun c => name_char c = true) l -> no_double_dash prev l = true -> sanitize_loop prev l = l.
Proof.
  revert prev. induction l as [|c l IH]; intros prev HF Hd; [done|].
  inversion HF as [|? ? Hc HF']; subst. cbn [no_double_dash sanitize_loop] in *. rewrite Hc.
  bprop. destruct (c =? 45) eqn:E.
  - destruct prev; [done|]. cbn [negb]. by rewrite IH.
  - by rewrite IH.
Qed.

Lemma no_double_dash_weaken p l : no_double_dash p l = true -> no_double_dash false l = true.
Proof. destruct l as [|c l]; [done|]. cbn [no_double_dash]. intros H. bprop. by rewrite H0. Qed.
Lemma no_double_dash_app p a b :
  no_double_dash p (a ++ b) = true -> no_double_dash p a = true /\ no_double_dash false b = true.
Proof.
  revert p. induction a as [|c a IH]; intros p H; simpl in *.
  - split; [done|]. by eapply no_double_dash_weaken.
  - bprop. destruct (IH _ H0) as [Ha Hb]. rewrite Ha, Hb. by rewrite H.
Qed.

(** Everything [sanitize_session_name] promises of its result. *)
Record safe_name (s : list Z) : Prop := {
  safe_nonempty : s <> [];
  safe_length : zlen s <= 160;
  safe_chars : Forall (fun c => name_char c = true) s;
  safe_first : forall c k, s = c :: k -> dash_or_dot c = false;
  safe_last : forall c, last s = Some c -> dash_or_dot c = false;
  safe_dashes : no_double_dash false s = true
}.

Lemma trim_infix p s : exists a b, s = a ++ trim_matches p s ++ b.
Proof.
  unfold trim_matches. destruct (trim_start_suffix p s) as (a & Ha & _).
  destruct (trim_end_prefix p (trim_start_matches p s)) as (b & Hb & _).
  exists a, b. by rewrite <- Hb.
Qed.

Definition body_ok (s : list Z) : Prop :=
  Forall (fun c => name_char c = true) s /\ no_double_dash false s = true.
Lemma body_ok_infix a s b : body_ok (a ++ s ++ b) -> body_ok s.
Proof.
  intros [HF Hd]. apply Forall_app in HF as [_ HF]. apply Forall_app in HF as [HF _].
  apply no_double_dash_app in Hd as [_ Hd]. apply no_double_dash_app in Hd as [Hd _]. done.
Qed.
Lemma body_ok_trim p s : body_ok s -> body_ok (trim_matches p s).
Proof. intros H. destruct (trim_infix p s) as (a & b & E). rewrite E in H. by eapply body_ok_infix. Qed.
Lemma body_ok_take n s : body_ok s -> body_ok (take n s).
Proof.
  intros H. apply (body_ok_infix [] _ (drop n s)). by rewrite app_nil_l, take_drop.
Qed.

Lemma sanitize_safe input : safe_name (sanitize_session_name input).
Proof.
  unfold sanitize_session_name.
  set (t := trim_matches dash_or_dot (sanitize_loop false input)).
  set (u := if 160 <? zlen t then trim_matches dash_or_dot (take 160 t) else t).
  assert (Hu : body_ok u /\ zlen u <= 160 /\ (forall c k, u = c :: k -> dash_or_dot c = false) /\
               (forall c, last u = Some c -> dash_or_dot c = false)).
  { assert (Ht : body_ok t) by (apply body_ok_trim; destruct (sanitize_loop_safe false input); by split).
    unfold u. destruct (Z.ltb_spec 160 (zlen t)).
    - split; [by apply body_ok_trim, body_ok_take|].
      split; [|apply trim_matches_ends].
      pose proof (trim_matches_length dash_or_dot (take 160 t)) as Hl. rewrite length_take in Hl. zlia.
    - split; [done|]. split; [lia|]. apply trim_matches_ends. }
  destruct Hu as ([HF Hd] & Hl & Hf & Hla). destruct u as [|x u'] eqn:Eu.
  - split; [done|vm_compute; discriminate| | | |done].
    + apply (bool_decide_unpack _). reflexivity.
    + intros c k [= <- _]. done.
    + intros c [= <-]. done.
  - by split.
Qed.

Lemma sanitize_id s : safe_name s -> sanitize_session_name s = s.
Proof.
  intros [Hne Hl HF Hf Hla Hd]. unfold sanitize_session_name.
  rewrite sanitize_loop_id, trim_matches_id by done.
  destruct (Z.ltb_spec 160 (zlen s)); [lia|]. by destruct s.
Qed.
End SessionName.

(** C40: every name [render_session_name] produces is safe as one directory
    name: not empty, at most 160 characters, only ASCII letters, digits, [-],
    [_] and [.], no path separator, no leading or trailing dash or dot (so
    never [.] or [..]), no double dash; and sanitising it again changes
    nothing. *)
Theorem session_name_safe pattern parts :
  SessionName.safe_name (SessionName.render_session_name pattern parts) /\
  SessionName.sanitize_session_name (SessionName.render_session_name pattern parts) =
    SessionName.render_session_name pattern parts /\
  Forall (fun c => c <> 47 /\ c <> 92) (SessionName.render_session_name pattern parts).
Proof.
  unfold SessionName.render_session_name. set (r := replace _ _ _).
  pose proof (SessionName.sanitize_safe r) as H. split; [done|].
  split; [by apply SessionName.sanitize_id|]. destruct H as [_ _ HF _ _ _].
  eapply Forall_impl; [exact HF|]. intros c Hc. split; intros ->; done.
Qed.

(** A name that is already safe is kept as it is. *)
Theorem session_name_keeps_safe s :
  SessionName.safe_name s <-> SessionName.sanitize_session_name s = s.
Proof.
  split; [apply SessionName.sanitize_id|]. intros <-. apply SessionName.sanitize_safe.
Qed.

(** ** rotate.rs *)
Module Rotate.
(** Durations are nanoseconds. *)
Record RotatePolicy := mkRPolicy { size_limit : option Z; duration_limit : option Z }.
Definition default_policy : RotatePolicy := mkRPolicy (Some (256 * 1024 * 1024)) (Some (60 * 60 * 24 * 1000000000)).
Record RotateStats := mkRStats { size_bytes : Z; age : Z }.

Definition should_rotate (stats : RotateStats) (policy : RotatePolicy) : bool :=
  if match size_limit policy with Some limit => limit <=? size_bytes stats | None => false end then true
  else if match duration_limit policy with Some limit => limit <=? age stats | None => false end then true
  else false.

Definition sanitize_iface (iface : list Z) : list Z :=
  match iface with
  | [] => lit "unknown"
  | _ => map (fun c => if is_ascii_alphanumeric c || (c =? 46) || (c =? 95) || (c =? 45) then c else 95) iface
  end.
End Rotate.

(** ** The calendar and retention.rs *)
Module Retention.
Section Retention.
  (** [OffsetDateTime] (UTC), its construction from calendar fields
      ([Date::from_calendar_date], [Time::from_hms]), its rendering under
      [[year][month][day]-[hour][minute][second]], its order, and the
      subtraction of days, which panics out of range. *)
  Variable DateTime : Type.
  Variable of_fields : Z -> Z -> Z -> Z -> Z -> Z -> option DateTime.
  Variable format_compact : DateTime -> option (list Z).
  Variable dt_ltb : DateTime -> DateTime -> bool.
  Variable sub_days : DateTime -> Z -> option DateTime.

Definition format_session_dirname (prefix kind iface : list Z) (now : DateTime) : list Z :=
  let ts := default (lit "00000000-000000") (format_compact now) in
  let safe_iface := Rotate.sanitize_iface iface in
  prefix ++ [95] ++ kind ++ [95] ++ safe_iface ++ [95] ++ ts.

(** On the UTF-8 bytes of the last piece: byte 8 is ASCII, so the slices around
    it are on character boundaries, and a field that is not ASCII digits with an
    optional sign does not parse. *)
Definition parse_session_timestamp (name : list Z) : option DateTime :=
  match last (split_on 95 name) with
  | None => None
  | Some piece =>
      let s := utf8 piece in
      if negb (zlen s =? 15) || negb (nth 8 s 0 =? 45) then None
      else
        let date := take 8 s in
        let tm := drop 9 s in
        y ← parse_signed i32_min i32_max (take 4 date);
        mo ← parse_unsigned 10 u8_max (take 2 (drop 4 date));
        d ← parse_unsigned 10 u8_max (take 2 (drop 6 date));
        h ← parse_unsigned 10 u8_max (take 2 tm);
        mi ← parse_unsigned 10 u8_max (take 2 (drop 2 tm));
        se ← parse_unsigned 10 u8_max (take 2 (drop 4 tm));
        of_fields y mo d h mi se
  end.

(** A directory entry: its path, whether it is a directory, its name when that
    is valid UTF-8. *)
Record Entry := mkEntry { path : Z; is_dir : bool; file_name : option (list Z) }.
Record RetentionReport := mkReport { deleted : list Z; kept : list Z; skipped : list Z }.
Definition empty_report : RetentionReport := mkReport [] [] [].

Definition apply_entry (cutoff : DateTime) (remove_ok : Z -> bool) (r : RetentionReport) (e : Entry)
  : RetentionReport :=
  if negb (is_dir e) then r else
  match file_name e with
  | None => mkReport (deleted r) (kept r) (skipped r ++ [path e])
  | Some name =>
      match parse_session_timestamp name with
      | Some ts =>
          if dt_ltb ts cutoff then
            if remove_ok (path e) then mkReport (deleted r ++ [path e]) (kept r) (skipped r)
            else mkReport (deleted r) (kept r) (skipped r ++ [path e])
          else mkReport (deleted r) (kept r ++ [path e]) (skipped r)
      | None => mkReport (deleted r) (kept r) (skipped r ++ [path e])
      end
  end.

(** [RetentionPolicy::apply] on a readable parent. *)
Definition apply (keep_days : Z) (remove_ok : Z -> bool) (entries : list Entry) (now : DateTime)
  : res unit RetentionReport :=
  match sub_days now keep_days with
  | None => Panic
  | Some cutoff => Ok (fold_left (apply_entry cutoff remove_ok) entries empty_report)
  end.

(** What the pass decides about one entry. *)
Inductive verdict := Ignored | Deletes | Keeps | Skips.
#[global] Instance verdict_eq_dec : EqDecision verdict.
Proof. solve_decision. Defined.

Definition verdict_of (cutoff : DateTime) (remove_ok : Z -> bool) (e : Entry) : verdict :=
  if negb (is_dir e) then Ignored else
  match n ← file_name e; parse_session_timestamp n with
  | Some ts => if dt_ltb ts cutoff then if remove_ok (path e) then Deletes else Skips else Keeps
  | None => Skips
  end.
Definition paths_with (v : verdict) (cutoff : DateTime) (ok : Z -> bool) (es : list Entry) : list Z :=
  map path (filter (fun e => verdict_of cutoff ok e = v) es).
Definition dir_paths (es : list Entry) : list Z := map path (filter (fun e => is_dir e = true) es).

Lemma paths_with_cons v cutoff ok e es :
  paths_with v cutoff ok (e :: es) =
  (if decide (verdict_of cutoff ok e = v) then [path e] else []) ++ paths_with v cutoff ok es.
Proof using Type. unfold paths_with. rewrite filter_cons. by case_decide. Qed.

Lemma apply_entry_verdict cutoff ok r e :
  apply_entry cutoff ok r e =
  match verdict_of cutoff ok e with
  | Ignored => r
  | Deletes => mkReport (deleted r ++ [path e]) (kept r) (skipped r)
  | Keeps => mkReport (deleted r) (kept r ++ [path e]) (skipped r)
  | Skips => mkReport (deleted r) (kept r) (skipped r ++ [path e])
  end.
Proof using Type.
  unfold apply_entry, verdict_of. destruct (is_dir e); simpl; [|done].
  destruct (file_name e) as [n|]; simpl; [|done]. destruct (parse_session_timestamp n); [|done].
  by destruct (dt_ltb _ _), (ok (path e)).
Qed.

Lemma apply_entries_spec cutoff ok es : forall r,
  fold_left (apply_entry cutoff ok) es r =
  mkReport (deleted r ++ paths_with Deletes cutoff ok es) (kept r ++ paths_with Keeps cutoff ok es)
           (skipped r ++ paths_with Skips cutoff ok es).
Proof using Type.
  induction es as [|e es IH]; intros r; cbn [fold_left].
  - rewrite !app_nil_r. by destruct r.
  - rewrite IH, apply_entry_verdict, !paths_with_cons.
    destruct (verdict_of cutoff ok e); simpl; by rewrite <- ?(assoc_L (++)).
Qed.

(** Every directory gets exactly one verdict. *)
Lemma paths_partition cutoff ok es :
  paths_with Deletes cutoff ok es ++ paths_with Keeps cutoff ok es ++ paths_with Skips cutoff ok es
    ≡ₚ dir_paths es.
Proof using Type.
  induction es as [|e es IH]; [done|]. unfold dir_paths in *. rewrite !paths_with_cons.
  assert (Hv : verdict_of cutoff ok e = Ignored <-> is_dir e = false).
  { unfold verdict_of. destruct (is_dir e); simpl; [|done]. split; [|done].
    destruct (file_name e); simpl; [|done]. destruct (parse_session_timestamp _); [|done].
    destruct (dt_ltb _ _); [|done]. by destruct (ok _). }
  destruct (is_dir e) eqn:Ed.
  - rewrite filter_cons_True by done. cbn [map].
    destruct (verdict_of cutoff ok e) eqn:Ev; [by destruct Hv as [Hv _]; specialize (Hv eq_refl)| | |];
      simpl; rewrite <- IH.
    + done.
    + by rewrite <- Permutation_middle.
    + by rewrite !(assoc_L (++)), <- Permutation_middle.
  - rewrite filter_cons_False by congruence. by rewrite (proj2 Hv eq_refl).
Qed.

Lemma paths_with_In v cutoff ok es p :
  p ∈ paths_with v cutoff ok es <-> exists e, e ∈ es /\ path e = p /\ verdict_of cutoff ok e = v.
Proof using Type.
  unfold paths_with. rewrite list_elem_of_fmap. split.
  - intros (e & -> & Hv). apply list_elem_of_filter in Hv as [Hv He]. exists e. done.
  - intros (e & He & <- & Hv). exists e. split; [done|]. by apply list_elem_of_filter.
Qed.

(** ** Laws *)
(** Two decimal digits, four decimal digits. *)
Definition pad2 (n : Z) : list Z := [48 + n / 10; 48 + n mod 10].
Definition pad4 (n : Z) : list Z := pad2 (n / 100) ++ pad2 (n mod 100).

Definition compact (y mo d h mi se : Z) : list Z :=
  pad4 y ++ pad2 mo ++ pad2 d ++ [45] ++ pad2 h ++ pad2 mi ++ pad2 se.

(** Documented behaviour of [time]: fields of a valid date and time are in
    range, and the format writes them in fixed-width decimal for years with
    four digits. *)
Hypothesis of_fields_range : forall y mo d h mi se t,
  of_fields y mo d h mi se = Some t ->
  1 <= mo <= 12 /\ 1 <= d <= 31 /\ 0 <= h <= 23 /\ 0 <= mi <= 59 /\ 0 <= se <= 59.
Hypothesis format_fields : forall y mo d h mi se t,
  of_fields y mo d h mi se = Some t -> 0 <= y <= 9999 ->
  format_compact t = Some (compact y mo d h mi se).

Lemma pad2_parse n : 0 <= n < 100 -> parse_digits 10 0 (pad2 n) = Some n.
Proof.
  intros. unfold pad2. pose proof (Z.mod_pos_bound n 10 ltac:(lia)).
  pose proof (Z.div_mod n 10 ltac:(lia)). cbn [parse_digits].
  rewrite !digit_val_dec; [f_equal; lia|lia|]. split; [apply Z.div_pos; lia|apply Z.div_lt_upper_bound; lia].
Qed.
Lemma pad2_digits n : 0 <= n < 100 -> Forall (fun c => is_digit c = true) (pad2 n).
Proof.
  intros. pose proof (Z.mod_pos_bound n 10 ltac:(lia)). unfold pad2.
  repeat constructor; apply is_digit_dec; [|lia].
  split; [apply Z.div_pos; lia|apply Z.div_lt_upper_bound; lia].
Qed.
Lemma pad2_unsigned n : 0 <= n < 100 -> parse_unsigned 10 u8_max (pad2 n) = Some n.
Proof.
  intros. apply parse_unsigned_digits; [done| |by apply pad2_parse|zlia].
  intros k. apply digits_no_sign; [by apply pad2_digits|by left].
Qed.
Lemma pad4_digits n : 0 <= n <= 9999 -> Forall (fun c => is_digit c = true) (pad4 n).
Proof.
  intros. pose proof (Z.mod_pos_bound n 100 ltac:(lia)). apply Forall_app. split; apply pad2_digits; [|lia].
  split; [apply Z.div_pos; lia|apply Z.div_lt_upper_bound; lia].
Qed.
Lemma pad4_parse n : 0 <= n <= 9999 -> parse_signed i32_min i32_max (pad4 n) = Some n.
Proof.
  intros. pose proof (pad4_digits n H) as HF.
  rewrite parse_signed_unsigned by (intros k; apply digits_no_sign; [done|by right]).
  apply parse_unsigned_digits; [done|intros k; apply digits_no_sign; [done|by left]| |zlia].
  pose proof (Z.mod_pos_bound n 100 ltac:(lia)). pose proof (Z.div_mod n 100 ltac:(lia)).
  assert (0 <= n / 100 < 100) by (split; [apply Z.div_pos; lia|apply Z.div_lt_upper_bound; lia]).
  unfold pad4. rewrite parse_digits_app, pad2_parse by lia. unfold pad2. cbn [parse_digits].
  pose proof (Z.mod_pos_bound (n mod 100) 10 ltac:(lia)). pose proof (Z.div_mod (n mod 100) 10 ltac:(lia)).
  rewrite !digit_val_dec; [f_equal; lia|lia|]. split; [apply Z.div_pos; lia|apply Z.div_lt_upper_bound; lia].
Qed.

Lemma digit_ascii c : is_digit c = true -> 0 <= c < 128 /\ c <> 95.
Proof. unfold is_digit. intros H%in_range_spec. lia. Qed.

Lemma compact_chars y mo d h mi se :
  0 <= y <= 9999 -> 1 <= mo <= 12 -> 1 <= d <= 31 -> 0 <= h <= 23 -> 0 <= mi <= 59 -> 0 <= se <= 59 ->
  Forall (fun c => 0 <= c < 128 /\ c <> 95) (compact y mo d h mi se).
Proof.
  intros. unfold compact. rewrite !Forall_app. repeat split;
    try (eapply Forall_impl; [first [apply pad4_digits; lia|apply pad2_digits; lia]|]; apply digit_ascii).
  repeat constructor; lia.
Qed.

Lemma dirname_tail (p k i ts : list Z) :
  p ++ [95] ++ k ++ [95] ++ i ++ [95] ++ ts = (p ++ [95] ++ k ++ [95] ++ i) ++ 95 :: ts.
Proof. by rewrite <- !(assoc_L (++)). Qed.

Lemma name_round_trip prefix kind iface t y mo d h mi se :
  of_fields y mo d h mi se = Some t -> 0 <= y <= 9999 ->
  parse_session_timestamp (format_session_dirname prefix kind iface t) = Some t.
Proof.
  intros Ht Hy. destruct (of_fields_range _ _ _ _ _ _ _ Ht) as (Hmo & Hd & Hh & Hmi & Hse).
  unfold format_session_dirname. rewrite (format_fields _ _ _ _ _ _ _ Ht Hy). cbn [default from_option id].
  pose proof (compact_chars y mo d h mi se Hy Hmo Hd Hh Hmi Hse) as Hc.
  unfold parse_session_timestamp.
  rewrite dirname_tail, rsplit_last by (eapply Forall_impl; [exact Hc|]; cbv beta; lia).
  rewrite utf8_ascii by (eapply Forall_impl; [exact Hc|]; cbv beta; lia).
  change (zlen (compact y mo d h mi se)) with 15. change (nth 8 (compact y mo d h mi se) 0) with 45.
  cbn [Z.eqb Pos.eqb negb orb].
  change (take 4 (take 8 (compact y mo d h mi se))) with (pad4 y).
  rewrite pad4_parse by done.
  change (take 2 (drop 4 (take 8 (compact y mo d h mi se)))) with (pad2 mo).
  change (take 2 (drop 6 (take 8 (compact y mo d h mi se)))) with (pad2 d).
  change (take 2 (drop 9 (compact y mo d h mi se))) with (pad2 h).
  change (take 2 (drop 2 (drop 9 (compact y mo d h mi se)))) with (pad2 mi).
  change (take 2 (drop 4 (drop 9 (compact y mo d h mi se)))) with (pad2 se).
  cbn [mbind option_bind]. rewrite !pad2_unsigned by lia. exact Ht.
Qed.

End Retention.
End Retention.

(** The timestamp suffix of a session directory reads back: whatever the
    prefix, kind and interface contain, [parse_session_timestamp] recovers from
    the name [format_session_dirname] makes exactly the instant it was made
    for (years 0 to 9999). *)
Theorem dirname_timestamp_round_trip DateTime of_fields format_compact
    (of_fields_range : forall y mo d h mi se t,
      of_fields y mo d h mi se = Some t ->
      1 <= mo <= 12 /\ 1 <= d <= 31 /\ 0 <= h <= 23 /\ 0 <= mi <= 59 /\ 0 <= se <= 59)
    (format_fields : forall y mo d h mi se t,
      of_fields y mo d h mi se = Some t -> 0 <= y <= 9999 ->
      format_compact t = Some (Retention.compact y mo d h mi se))
    prefix kind iface (t : DateTime) y mo d h mi se :
  of_fields y mo d h mi se = Some t -> 0 <= y <= 9999 ->
  Retention.parse_session_timestamp DateTime of_fields
    (Retention.format_session_dirname DateTime format_compact prefix kind iface t) = Some t.
Proof. intros. by eapply Retention.name_round_trip. Qed.

(** A stand-in calendar: tuples of fields with their ranges checked. *)
Definition fields : Type := Z * Z * Z * Z * Z * Z.
Definition cal_of_fields (y mo d h mi se : Z) : option fields :=
  if in_range 1 12 mo && in_range 1 31 d && in_range 0 23 h && in_range 0 59 mi && in_range 0 59 se
  then Some (y, mo, d, h, mi, se) else None.
Definition cal_format (t : fields) : option (list Z) :=
  let '(y, mo, d, h, mi, se) := t in
  if in_range 0 9999 y then Some (Retention.compact y mo d h mi se) else None.
Definition cal_ltb (a b : fields) : bool :=
  let '(y, mo, d, h, mi, se) := a in
  let '(y', mo', d', h', mi', se') := b in
  ((((y * 12 + mo) * 31 + d) * 24 + h) * 60 + mi) * 60 + se <?
  ((((y' * 12 + mo') * 31 + d') * 24 + h') * 60 + mi') * 60 + se'.
Definition cal_sub_days (t : fields) (n : Z) : option fields :=
  let '(y, mo, d, h, mi, se) := t in Some (y, mo, d - n, h, mi, se).

Lemma cal_range y mo d h mi se t :
  cal_of_fields y mo d h mi se = Some t ->
  1 <= mo <= 12 /\ 1 <= d <= 31 /\ 0 <= h <= 23 /\ 0 <= mi <= 59 /\ 0 <= se <= 59.
Proof. unfold cal_of_fields, in_range. case_if; [|done]. bprop. lia. Qed.
Lemma cal_fields y mo d h mi se t :
  cal_of_fields y mo d h mi se = Some t -> 0 <= y <= 9999 ->
  cal_format t = Some (Retention.compact y mo d h mi se).
Proof.
  unfold cal_of_fields. case_if; [|done]. intros [= <-] Hy. unfold cal_format.
  by rewrite (proj2 (in_range_spec _ _ _) Hy).
Qed.

Lemma dirname_timestamp_round_trip_witness :
  Retention.parse_session_timestamp fields cal_of_fields
    (Retention.format_session_dirname fields cal_format (lit "tm_x") (lit "tcp") (lit "10.0.0.1:5") (2026, 5, 19, 15, 30, 45))
  = Some (2026, 5, 19, 15, 30, 45).
Proof.
  apply (dirname_timestamp_round_trip fields cal_of_fields cal_format cal_range cal_fields
    (lit "tm_x") (lit "tcp") (lit "10.0.0.1:5") (2026, 5, 19, 15, 30, 45) 2026 5 19 15 30 45).
  - reflexivity.
  - lia.
Defined.

(** A retention pass accounts for every directory exactly once, and deletes
    a directory exactly when its name carries a timestamp older than the cutoff
    and the removal succeeded: files and names that do not parse are never
    deleted. *)
Theorem retention_partition DateTime of_fields dt_ltb sub_days keep_days ok es (now cutoff : DateTime) r :
  sub_days now keep_days = Some cutoff ->
  Retention.apply DateTime of_fields dt_ltb sub_days keep_days ok es now = Ok r ->
  Retention.deleted r ++ Retention.kept r ++ Retention.skipped r ≡ₚ Retention.dir_paths es /\
  (forall p, p ∈ Retention.deleted r <-> exists e name ts,
     e ∈ es /\ Retention.path e = p /\ Retention.is_dir e = true /\ Retention.file_name e = Some name /\
     Retention.parse_session_timestamp DateTime of_fields name = Some ts /\ dt_ltb ts cutoff = true /\ ok p = true).
Proof.
  intros Hc. unfold Retention.apply. rewrite Hc. intros [= <-].
  rewrite Retention.apply_entries_spec. simpl. split; [apply Retention.paths_partition|].
  intros p. rewrite Retention.paths_with_In. unfold Retention.verdict_of. split.
  - intros (e & He & <- & Hv). destruct (Retention.is_dir e) eqn:Ed; [|done]. simpl in Hv.
    destruct (Retention.file_name e) as [n|] eqn:En; [|done]. simpl in Hv.
    destruct (Retention.parse_session_timestamp _ _ n) as [ts|] eqn:Et; [|done].
    destruct (dt_ltb ts cutoff) eqn:El; [|done]. destruct (ok (Retention.path e)) eqn:Eo; [|done].
    exists e, n, ts. repeat split; assumption.
  - intros (e & n & ts & He & <- & Hd & Hn & Ht & Hl & Ho). exists e. split; [done|]. split; [done|].
    rewrite Hd, Hn. simpl. by rewrite Ht, Hl, Ho.
Qed.

Definition retention_entries : list Retention.Entry :=
  [Retention.mkEntry 1 true (Some (lit "a_tcp_x_20260101-000000")); Retention.mkEntry 2 true (Some (lit "notes"));
   Retention.mkEntry 3 true (Some (lit "a_tcp_x_20260519-000000")); Retention.mkEntry 4 false (Some (lit "z_20200101-000000"))].
Lemma retention_partition_witness :
  exists r, Retention.apply fields cal_of_fields cal_ltb cal_sub_days 7 (fun _ => true) retention_entries (2026, 5, 20, 0, 0, 0) = Ok r /\
    Retention.deleted r = [1] /\ Retention.skipped r = [2] /\
    Retention.deleted r ++ Retention.kept r ++ Retention.skipped r ≡ₚ Retention.dir_paths retention_entries.
Proof.
  eexists. split; [reflexivity|]. split; [reflexivity|]. split; [reflexivity|].
  refine (proj1 (retention_partition fields cal_of_fields cal_ltb cal_sub_days 7 (fun _ => true)
    retention_entries (2026, 5, 20, 0, 0, 0) (2026, 5, 13, 0, 0, 0) _ _ _)); reflexivity.
Defined.

(** ** server/src/lib.rs: [prune_old_session_dirs_at]

    Times are nanoseconds since the epoch; a [SystemTime] holds 64-bit seconds. *)
Module Prune.
Record DirEntry := mkDir { is_dir : bool; name : list Z; meta_modified : option Z }.
Record RetentionPruneStats := mkPrune { scanned : Z; removed : Z }.
Definition ns : Z := 1000000000.

Definition prune_cutoff (keep_days now : Z) : Z :=
  let back := sat_mul 0 u64_max keep_days 86400 * ns in
  if i64_min * ns <=? now - back then now - back else 0.

(** The loop: the entries still on disk, and the statistics or the removal
    error that ended it. *)
Fixpoint prune_loop (cutoff : Z) (remove_ok : DirEntry -> bool) (es : list DirEntry)
    (st : RetentionPruneStats) : list DirEntry * res unit RetentionPruneStats :=
  match es with
  | [] => ([], Ok st)
  | e :: es' =>
      let next st' :=
        let '(rest, r) := prune_loop cutoff remove_ok es' st' in (e :: rest, r) in
      if negb (is_dir e) then next st
      else if str_eqb (name e) (lit ".tracemux") then next st
      else match meta_modified e with
           | None => next st
           | Some modified =>
               let st1 := mkPrune (scanned st + 1) (removed st) in
               if modified <? cutoff then
                 if remove_ok e then
                   prune_loop cutoff remove_ok es' (mkPrune (scanned st1) (removed st1 + 1))
                 else (e :: es', Err tt)
               else next st1
           end
  end.

Definition prune_old_session_dirs_at (keep_days now : Z) (remove_ok : DirEntry -> bool)
    (es : list DirEntry) : list DirEntry * res unit RetentionPruneStats :=
  if keep_days =? 0 then (es, Ok (mkPrune 0 0))
  else prune_loop (prune_cutoff keep_days now) remove_ok es (mkPrune 0 0).

(** A session directory, and one whose [meta.toml] is older than the cutoff. *)
Definition session (e : DirEntry) : bool :=
  is_dir e && negb (str_eqb (name e) (lit ".tracemux")) &&
  match meta_modified e with Some _ => true | None => false end.
Definition expired (cutoff : Z) (e : DirEntry) : bool :=
  session e && match meta_modified e with Some m => m <? cutoff | None => false end.
Definition survivors (cutoff : Z) (es : list DirEntry) : list DirEntry :=
  List.filter (fun e => negb (expired cutoff e)) es.

(** What the loop leaves: the survivors with exact counts, or the survivors up
    to the directory whose removal failed. *)
Definition prune_post (cutoff : Z) (ok : DirEntry -> bool) (es : list DirEntry) (st : RetentionPruneStats)
    (out : list DirEntry * res unit RetentionPruneStats) : Prop :=
  match snd out with
  | Ok st' => fst out = survivors cutoff es /\
      scanned st' = scanned st + zlen (List.filter session es) /\
      removed st' = removed st + zlen (List.filter (expired cutoff) es)
  | Err _ => exists pre e post, es = pre ++ e :: post /\ expired cutoff e = true /\ ok e = false /\
      fst out = survivors cutoff pre ++ e :: post
  | Panic => False
  end.

Lemma prune_post_cons cutoff ok e es st st1 out :
  prune_post cutoff ok es st1 out ->
  scanned st1 = scanned st + Z.b2z (session e) -> removed st1 = removed st + Z.b2z (expired cutoff e) ->
  prune_post cutoff ok (e :: es) st ((if expired cutoff e then fst out else e :: fst out), snd out).
Proof.
  unfold prune_post, survivors. cbn [fst snd List.filter]. intros H Hs Hr.
  destruct (snd out) as [st'| |]; [| |done].
  - destruct H as (-> & H1 & H2). split; [by destruct (expired cutoff e)|].
    destruct (session e), (expired cutoff e); cbn [Z.b2z] in *; rewrite ?zlen_cons; lia.
  - destruct H as (pre & x & post & -> & Hx & Ho & ->). exists (e :: pre), x, post.
    split; [done|]. split; [done|]. split; [done|]. cbn [List.filter]. by destruct (expired cutoff e).
Qed.

Lemma prune_loop_spec cutoff ok es : forall st, prune_post cutoff ok es st (prune_loop cutoff ok es st).
Proof.
  induction es as [|e es IH]; intros st; [unfold prune_post; simpl; rewrite !Z.add_0_r; done|].
  pose proof (fun st1 => prune_post_cons cutoff ok e es st st1 _ (IH st1)) as H.
  unfold session, expired, session in H. cbn [prune_loop].
  destruct (is_dir e) eqn:Ed; simpl in *.
  2: { specialize (H st). destruct (prune_loop cutoff ok es st). apply H; lia. }
  destruct (str_eqb (name e) (lit ".tracemux")) eqn:En; simpl in *.
  { specialize (H st). destruct (prune_loop cutoff ok es st). apply H; lia. }
  destruct (meta_modified e) as [m|] eqn:Em; simpl in *.
  2: { specialize (H st). destruct (prune_loop cutoff ok es st). apply H; lia. }
  destruct (m <? cutoff) eqn:Hm; simpl in *.
  - destruct (ok e) eqn:Eo.
    + specialize (H (mkPrune (scanned st + 1) (removed st + 1))).
      destruct (prune_loop cutoff ok es _). apply H; simpl; lia.
    + exists [], e, es. unfold expired, session. simpl. by rewrite Ed, En, Em, Hm.
  - specialize (H (mkPrune (scanned st + 1) (removed st))).
    destruct (prune_loop cutoff ok es _). apply H; simpl; lia.
Qed.
End Prune.

(** The server's retention pass: with [keep_days] zero it touches nothing;
    otherwise it removes only expired session directories, never the
    [.tracemux] directory, files, or directories without [meta.toml]; when it
    succeeds no expired session is left and both counters are exact, and when a
    removal fails everything from that directory on is untouched. *)
Theorem prune_removes_expired keep_days now ok es :
  let cutoff := Prune.prune_cutoff keep_days now in
  let '(rest, r) := Prune.prune_old_session_dirs_at keep_days now ok es in
  (keep_days = 0 -> rest = es /\ r = Ok (Prune.mkPrune 0 0)) /\
  (keep_days <> 0 ->
   match r with
   | Ok st => rest = Prune.survivors cutoff es /\
       Prune.scanned st = zlen (List.filter Prune.session es) /\
       Prune.removed st = zlen (List.filter (Prune.expired cutoff) es)
   | Err _ => exists pre e post, es = pre ++ e :: post /\ Prune.expired cutoff e = true /\ ok e = false /\
       rest = Prune.survivors cutoff pre ++ e :: post
   | Panic => False
   end).
Proof.
  unfold Prune.prune_old_session_dirs_at. destruct (Z.eqb_spec keep_days 0) as [->|Hk]; [by split|].
  pose proof (Prune.prune_loop_spec (Prune.prune_cutoff keep_days now) ok es (Prune.mkPrune 0 0)) as H.
  destruct (Prune.prune_loop _ _ _ _) as [rest r]. split; [done|]. intros _.
  unfold Prune.prune_post in H. simpl in H. exact H.
Qed.
