(* ===== verification/Spec.v ===== *)
(** * Channel specifications and their URI form

    [ChannelSpec] (crates/core/src/source/mod.rs), the packet-capture
    configuration (crates/core/src/source/pcap.rs) and the parser and renderer
    of the command line (crates/cli/src/cmd/spec.rs). *)
From stdpp Require Import base numbers strings gmap list.
From S2P Require Import Prelude Text.

Local Open Scope Z_scope.
Local Open Scope tm_scope.

(** ** source/pcap.rs: modes *)
Inductive PcapSaveMode := SaveSession | SavePcapng | SaveBoth.
Inductive PcapPublishMode := StatsOnly | Sampled | Full.

Definition save_mode_fmt (m : PcapSaveMode) : list Z :=
  lit match m with SaveSession => "session" | SavePcapng => "pcapng" | SaveBoth => "both" end.
Definition save_mode_from_str (v : list Z) : option PcapSaveMode :=
  if str_eqb v (lit "session") || str_eqb v (lit "session-dir") then Some SaveSession
  else if str_eqb v (lit "pcapng") then Some SavePcapng
  else if str_eqb v (lit "both") then Some SaveBoth
  else None.
Definition publish_mode_fmt (m : PcapPublishMode) : list Z :=
  lit match m with StatsOnly => "stats-only" | Sampled => "sampled" | Full => "full" end.
Definition publish_mode_from_str (v : list Z) : option PcapPublishMode :=
  if str_eqb v (lit "stats") || str_eqb v (lit "stats-only") then Some StatsOnly
  else if str_eqb v (lit "sample") || str_eqb v (lit "sampled") then Some Sampled
  else if str_eqb v (lit "full") || str_eqb v (lit "packet-list") then Some Full
  else None.

Definition DEFAULT_SNAPLEN : Z := 65535.
Definition DEFAULT_TIMEOUT_MS : Z := 1000.

(** A path is kept as its text: [PathBuf::from] and [display] are inverse on
    valid UTF-8. *)
Record PcapConfig := mkPcap {
  interface : list Z; display_name : option (list Z); promiscuous : bool; snaplen : Z;
  buffer_bytes : option Z; timeout_ms : Z; immediate : bool; filter_expr : option (list Z);
  save_mode : PcapSaveMode; pcapng_path : option (list Z); publish_mode : PcapPublishMode }.

Definition pcap_default : PcapConfig :=
  mkPcap [] None false DEFAULT_SNAPLEN None DEFAULT_TIMEOUT_MS false None SaveSession None StatsOnly.
Definition pcap_new (iface : list Z) : PcapConfig :=
  mkPcap iface None false DEFAULT_SNAPLEN None DEFAULT_TIMEOUT_MS false None SaveSession None StatsOnly.

Definition iface_label (c : PcapConfig) : list Z :=
  match display_name c with
  | Some ((_ :: _) as v) => v
  | _ => interface c
  end.

Definition validate (c : PcapConfig) : result unit :=
  match trim (interface c) with
  | [] => Err E1101SourceOpen
  | _ =>
      if snaplen c =? 0 then Err E1101SourceOpen
      else match buffer_bytes c with
           | Some 0 => Err E1101SourceOpen
           | _ => Ok tt
           end
  end.

(** ** source/mod.rs *)
Inductive ChannelSpec :=
| Serial (port : list Z) (baud data_bits : Z) (parity : list Z) (stop_bits : Z) (flow : list Z)
| Tcp (addr : list Z)
| Udp (bind : list Z)
| Pcap (c : PcapConfig)
| File (path : list Z) (follow : bool)
| Pipe (path : list Z)
| Process (argv : list (list Z))
| Mock (tag : list Z)
| Replay (path : list Z)
| Syslog (bind : list Z)
| Mqtt (broker topic : list Z)
| HttpWebhook (bind path : list Z)
| Telnet (addr : list Z)
| Ssh (addr user : list Z)
| Visa (resource : list Z)
| Remote (url : list Z)
| Journald (unit_filter : option (list Z))
| WinEventLog (channel : list Z)
| Etw (provider : list Z)
| JLinkRtt (channel : Z)
| CanBus (iface : list Z).

(** The fields of [ChannelSpec::Pcap] are those of the configuration. *)
Definition from_channel_spec (s : ChannelSpec) : option PcapConfig :=
  match s with Pcap c => Some c | _ => None end.
Definition into_channel_spec (c : PcapConfig) : ChannelSpec := Pcap c.

(** ** spec.rs: percent coding *)
Definition hex_val (b : Z) : option Z :=
  if in_range 48 57 b then Some (b - 48)
  else if in_range 97 102 b then Some (b - 97 + 10)
  else if in_range 65 70 b then Some (b - 65 + 10)
  else None.

Fixpoint pct_decode_bytes (l : list Z) : list Z :=
  match l with
  | [] => []
  | b :: rest =>
      match rest with
      | h :: (lo :: rest') =>
          if b =? 37 then
            match hex_val h, hex_val lo with
            | Some hv, Some lv => Z.lor (Z.shiftl hv 4) lv :: pct_decode_bytes rest'
            | _, _ => b :: pct_decode_bytes rest
            end
          else (if b =? 43 then 32 else b) :: pct_decode_bytes rest
      | _ => (if b =? 43 then 32 else b) :: pct_decode_bytes rest
      end
  end.
Definition pct_decode (s : list Z) : list Z := from_utf8_lossy (pct_decode_bytes (utf8 s)).

Definition unreserved (b : Z) : bool :=
  is_ascii_alphanumeric b || (b =? 45) || (b =? 46) || (b =? 95) || (b =? 126).
Definition pct_encode_byte (b : Z) : list Z :=
  if unreserved b then [b] else 37 :: show_hex2 true b.
Definition pct_encode (s : list Z) : list Z := concat (map pct_encode_byte (utf8 s)).

(** ** spec.rs: queries *)
Inductive SpecError :=
| MissingScheme
| MissingEq
| BadNumber (key : list Z)
| BadMode
| NoProgram
| Unsupported
| Core (e : ErrorId).
Abbreviation sres A := (res SpecError A).
Abbreviation Query := (gmap (list Z) (list Z)).

Fixpoint parse_pairs (out : Query) (pairs : list (list Z)) : sres Query :=
  match pairs with
  | [] => Ok out
  | kvp :: pairs' =>
      match kvp with
      | [] => parse_pairs out pairs'
      | _ =>
          match split_once [61] kvp with
          | None => Err MissingEq
          | Some (k, v) => parse_pairs (<[k := pct_decode v]> out) pairs'
          end
      end
  end.
Definition parse_query (q : list Z) : sres Query := parse_pairs ∅ (split_on 38 q).

(** Numbers are unsigned here; [hi] is the maximum of the type. *)
Definition parse_num (hi : Z) (q : Query) (key : list Z) (dflt : Z) : sres Z :=
  match q !! key with
  | Some v => ok_or (parse_unsigned 10 hi v) (BadNumber key)
  | None => Ok dflt
  end.
Definition parse_optional_num (hi : Z) (q : Query) (key : list Z) : sres (option Z) :=
  match q !! key with
  | Some ((_ :: _) as v) => let* n := ok_or (parse_unsigned 10 hi v) (BadNumber key) in Ok (Some n)
  | _ => Ok None
  end.
Definition truthy (v : list Z) : bool :=
  str_eqb v (lit "1") || str_eqb v (lit "true") || str_eqb v (lit "yes") || str_eqb v (lit "on").
Definition parse_bool (q : Query) (key : list Z) (dflt : bool) : bool :=
  match q !! key with Some v => truthy v | None => dflt end.
Fixpoint find_key (q : Query) (keys : list (list Z)) : option (list Z) :=
  match keys with
  | [] => None
  | k :: keys' => match q !! k with Some v => Some v | None => find_key q keys' end
  end.
Definition parse_bool_alias (q : Query) (keys : list (list Z)) (dflt : bool) : bool :=
  match find_key q keys with Some v => truthy v | None => dflt end.
Definition query_optional_string (q : Query) (keys : list (list Z)) : option (list Z) :=
  match find_key q keys with
  | Some v => match trim v with [] => None | t => Some t end
  | None => None
  end.

Definition parse_mode {M} (from_str : list Z -> option M) (dflt : M) (o : option (list Z)) : sres M :=
  match o with
  | Some v => ok_or (from_str v) BadMode
  | None => Ok dflt
  end.

Definition parse_pcap (body : list Z) (query : Query) : sres ChannelSpec :=
  let iface := trim (pct_decode body) in
  let dn := query_optional_string query [lit "display_name"; lit "display"] in
  let pr := parse_bool_alias query [lit "promiscuous"; lit "promisc"] false in
  let* sn := parse_num u32_max query (lit "snaplen") DEFAULT_SNAPLEN in
  let* b1 := parse_optional_num u32_max query (lit "buffer_bytes") in
  let* b2 := parse_optional_num u32_max query (lit "buffer") in
  let bb := match b1 with Some _ => b1 | None => b2 end in
  let* tm :=
    (if query !! lit "timeout_ms" then parse_num u32_max query (lit "timeout_ms") DEFAULT_TIMEOUT_MS
     else parse_num u32_max query (lit "timeout") DEFAULT_TIMEOUT_MS) in
  let im := parse_bool query (lit "immediate") false in
  let fl := query_optional_string query [lit "filter"] in
  let* sm := parse_mode save_mode_from_str SaveSession
               (query_optional_string query [lit "save_mode"; lit "save"]) in
  let pp := query_optional_string query [lit "pcapng_path"; lit "pcapng"] in
  let* pm := parse_mode publish_mode_from_str StatsOnly
               (query_optional_string query [lit "publish_mode"; lit "publish"]) in
  let config := mkPcap iface dn pr sn bb tm im fl sm pp pm in
  do* map_err Core (validate config) in
  Ok (into_channel_spec config).

Definition is_slash (c : Z) : bool := c =? 47.

Definition parse_argv (body : list Z) (q : Query) : sres (list (list Z)) :=
  let prog := match body with [] => [] | _ => [pct_decode (trim_start_matches is_slash body)] end in
  let args :=
    match q !! lit "args" with
    | Some rest => List.filter (fun a => negb (bool_decide (a = []))) (split_on 59 rest)
    | None => []
    end in
  match prog ++ args with
  | [] => Err NoProgram
  | argv => Ok argv
  end.

Definition parse (spec : list Z) : sres ChannelSpec :=
  let* '(scheme, rest) := ok_or (split_once (lit "://") spec) MissingScheme in
  let* '(body, query) :=
    match split_once [63] rest with
    | Some (b, q) => let* m := parse_query q in Ok (b, m)
    | None => Ok (rest, ∅)
    end in
  if str_eqb scheme (lit "file") then
    Ok (File (trim_start_matches is_slash body)
          (match query !! lit "follow" with
           | Some v => str_eqb v (lit "1") || str_eqb v (lit "true") || str_eqb v (lit "yes")
           | None => false
           end))
  else if str_eqb scheme (lit "tcp") then Ok (Tcp body)
  else if str_eqb scheme (lit "udp") then Ok (Udp body)
  else if str_eqb scheme (lit "pcap") then parse_pcap body query
  else if str_eqb scheme (lit "serial") then
    let* baud := parse_num u32_max query (lit "baud") 115200 in
    let* data := parse_num u8_max query (lit "data") 8 in
    let parity := default (lit "none") (query !! lit "parity") in
    let* stop := parse_num u8_max query (lit "stop") 1 in
    let flow := default (lit "none") (query !! lit "flow") in
    Ok (Serial body baud data parity stop flow)
  else if str_eqb scheme (lit "process") then
    let* argv := parse_argv body query in Ok (Process argv)
  else if str_eqb scheme (lit "pipe") then Ok (Pipe (trim_start_matches is_slash body))
  else if str_eqb scheme (lit "mock") then Ok (Mock body)
  else if str_eqb scheme (lit "remote") then Ok (Remote (pct_decode body))
  else Err Unsupported.

(** ** spec.rs: rendering *)
Definition bit (b : bool) : list Z := lit (if b then "1" else "0").
Definition kv (k : string) (v : list Z) : list Z * list Z := (lit k, v).
Definition opt_kv (k : string) (o : option (list Z)) : list (list Z * list Z) :=
  match o with Some v => [kv k v] | None => [] end.
Definition show_kv (p : list Z * list Z) : list Z := fst p ++ [61] ++ snd p.

Definition pcap_query (c : PcapConfig) : list (list Z * list Z) :=
  [kv "snaplen" (show_nat (snaplen c)); kv "promisc" (bit (promiscuous c));
   kv "timeout_ms" (show_nat (timeout_ms c)); kv "immediate" (bit (immediate c));
   kv "save" (save_mode_fmt (save_mode c)); kv "publish" (publish_mode_fmt (publish_mode c))]
  ++ opt_kv "display_name" (pct_encode <$> display_name c)
  ++ opt_kv "buffer_bytes" (show_nat <$> buffer_bytes c)
  ++ opt_kv "filter" (pct_encode <$> filter_expr c)
  ++ opt_kv "pcapng_path" (pct_encode <$> pcapng_path c).

Definition render_pcap (s : ChannelSpec) : list Z :=
  match from_channel_spec s with
  | None => lit "unsupported://pcap"
  | Some c => lit "pcap://" ++ pct_encode (interface c) ++ [63] ++ join [38] (map show_kv (pcap_query c))
  end.

Section Render.
  (** The derived [Debug] text of a spec without a URI form. *)
  Variable debug_fmt : ChannelSpec -> list Z.

Definition render (s : ChannelSpec) : list Z :=
  replace [32] (lit "%20")
    match s with
    | File path follow =>
        lit "file:///" ++ trim_start_matches is_slash path ++ (if follow then lit "?follow=1" else [])
    | Tcp addr => lit "tcp://" ++ addr
    | Udp bind => lit "udp://" ++ bind
    | Pcap _ => render_pcap s
    | Serial port baud data parity stop flow =>
        lit "serial://" ++ port ++ lit "?baud=" ++ show_nat baud ++ lit "&data=" ++ show_nat data ++
        lit "&parity=" ++ parity ++ lit "&stop=" ++ show_nat stop ++ lit "&flow=" ++ flow
    | Process argv =>
        let prog := default [] (head argv) in
        match drop 1 argv with
        | [] => lit "process:///" ++ prog
        | rest => lit "process:///" ++ prog ++ lit "?args=" ++ join [59] rest
        end
    | Pipe path => lit "pipe:///" ++ trim_start_matches is_slash path
    | Mock tag => lit "mock://" ++ tag
    | Remote url => lit "remote://" ++ pct_encode url
    | other => lit "unsupported://" ++ debug_fmt other
    end.
End Render.

Definition kind_tag (s : ChannelSpec) : list Z :=
  lit match s with
      | File _ _ => "file" | Tcp _ => "tcp" | Udp _ => "udp" | Pcap _ => "pcap"
      | Serial _ _ _ _ _ _ => "serial" | Process _ => "process" | Pipe _ => "pipe"
      | Mock _ => "mock" | Replay _ => "replay" | Syslog _ => "syslog" | Mqtt _ _ => "mqtt"
      | HttpWebhook _ _ => "http" | Telnet _ => "telnet" | Ssh _ _ => "ssh" | Remote _ => "remote"
      | _ => "other"
      end.

Definition tag_char (c : Z) : bool :=
  is_ascii_alphanumeric c || (c =? 45) || (c =? 46) || (c =? 95).
Definition sanitize (s : list Z) : list Z :=
  trim_matches (fun c => c =? 45) (map (fun c => if tag_char c then c else 45) s).

(** [Path::file_name] on Unix: the last component when it is a normal one;
    [.] components vanish except a leading one. *)
Definition path_parts (p : list Z) : list (list Z) :=
  let parts := List.filter (fun w => negb (bool_decide (w = []))) (split_on 47 p) in
  let keep w := negb (str_eqb w (lit ".")) in
  match p, parts with
  | 47 :: _, _ => List.filter keep parts
  | _, w :: ws => w :: List.filter keep ws
  | _, [] => []
  end.
Definition path_file_name (p : list Z) : option (list Z) :=
  match last (path_parts p) with
  | Some w => if str_eqb w (lit "..") || str_eqb w (lit ".") then None else Some w
  | None => None
  end.

Definition iface_tag (s : ChannelSpec) : list Z :=
  match s with
  | Serial port _ _ _ _ _ => sanitize port
  | Tcp addr | Telnet addr | Ssh addr _ => sanitize addr
  | Udp bind | Syslog bind | HttpWebhook bind _ => sanitize bind
  | Pcap c => sanitize (interface c)
  | File path _ | Pipe path => sanitize (default (lit "file") (path_file_name path))
  | Process argv =>
      let prog := default (lit "proc") (head argv) in
      sanitize (default (lit "proc") (path_file_name prog))
  | Mqtt _ topic => sanitize topic
  | Mock tag => sanitize tag
  | Replay path => sanitize path
  | Remote url => sanitize url
  | _ => lit "iface"
  end.

(** ** Percent coding is invertible *)
Lemma hex_val_digit n : 0 <= n < 16 -> hex_val (hex_digit true n) = Some n.
Proof.
  intros. unfold hex_val, hex_digit. destruct (Z.ltb_spec n 10); decide_ranges; f_equal; lia.
Qed.

Lemma nibbles b : 0 <= b < 256 -> Z.lor (Z.shiftl (b / 16) 4) (b mod 16) = b.
Proof.
  intros Hb.
  assert (H : forallb (fun b => Z.lor (Z.shiftl (b / 16) 4) (b mod 16) =? b) (map Z.of_nat (seq 0 256)) = true)
    by (by vm_compute).
  rewrite forallb_forall in H. apply Z.eqb_eq, H, in_map_iff.
  exists (Z.to_nat b). rewrite in_seq. lia.
Qed.

Lemma pct_decode_byte b rest :
  0 <= b < 256 -> pct_decode_bytes (pct_encode_byte b ++ rest) = b :: pct_decode_bytes rest.
Proof.
  intros Hb. unfold pct_encode_byte. destruct (unreserved b) eqn:Hu.
  - assert (b <> 37 /\ b <> 43) as [H1 H2] by (split; intros ->; done).
    apply Z.eqb_neq in H1, H2. cbn [app pct_decode_bytes].
    destruct rest as [|h [|l r]]; by rewrite ?H1, H2.
  - pose proof (Z.mod_pos_bound b 16 ltac:(lia)).
    assert (0 <= b / 16 < 16) by (split; [apply Z.div_pos; lia|apply Z.div_lt_upper_bound; lia]).
    unfold show_hex2. cbn [app pct_decode_bytes]. cbn [Z.eqb Pos.eqb].
    rewrite !hex_val_digit by lia. by rewrite nibbles.
Qed.

Definition enc_char (c : Z) : Prop := unreserved c = true \/ c = 37.

Lemma hex_digit_unreserved n : 0 <= n < 16 -> unreserved (hex_digit true n) = true.
Proof.
  intros. unfold unreserved, is_ascii_alphanumeric, is_digit, is_upper, hex_digit.
  destruct (Z.ltb_spec n 10); decide_ranges; by rewrite ?orb_true_r.
Qed.
Lemma pct_encode_chars s : str_ok s -> Forall enc_char (pct_encode s).
Proof.
  intros Hs%utf8_bytes. unfold pct_encode. induction Hs as [|b l Hb _ IH]; simpl; [constructor|].
  apply Forall_app. split; [|done]. unfold pct_encode_byte. destruct (unreserved b) eqn:E.
  - apply Forall_singleton. by left.
  - pose proof (Z.mod_pos_bound b 16 ltac:(lia)).
    assert (0 <= b / 16 < 16) by (split; [apply Z.div_pos; lia|apply Z.div_lt_upper_bound; lia]).
    unfold show_hex2. rewrite !Forall_cons_iff.
    split; [by right|]. split; [left; by apply hex_digit_unreserved|].
    split; [left; by apply hex_digit_unreserved|constructor].
Qed.
Lemma enc_char_range c : enc_char c -> 0 <= c < 128 /\ c <> 32 /\ c <> 38 /\ c <> 61 /\ c <> 63.
Proof.
  unfold enc_char, unreserved, is_ascii_alphanumeric, is_digit, is_upper, is_lower, in_range.
  intros [H| ->]; [|lia]. rewrite !orb_true_iff, !andb_true_iff, !Z.leb_le, !Z.eqb_eq in H. lia.
Qed.

Lemma pct_decode_encode s : str_ok s -> pct_decode (pct_encode s) = s.
Proof.
  intros Hs. unfold pct_decode. rewrite utf8_ascii.
  - rewrite <- (lossy_utf8 s) at 2 by done. f_equal. pose proof (utf8_bytes s Hs) as Hb.
    unfold pct_encode. induction Hb as [|b l Hb _ IH]; simpl; [done|].
    by rewrite pct_decode_byte, IH.
  - eapply Forall_impl; [by apply pct_encode_chars|]. intros c Hc%enc_char_range. lia.
Qed.

(** ** Queries read back *)
Definition query_of (kvs : list (list Z * list Z)) (m : Query) : Query :=
  fold_left (fun m p => <[fst p := pct_decode (snd p)]> m) kvs m.
Fixpoint assoc_last (k : list Z) (kvs : list (list Z * list Z)) (dflt : option (list Z)) : option (list Z) :=
  match kvs with
  | [] => dflt
  | p :: kvs' => assoc_last k kvs' (if bool_decide (k = fst p) then Some (pct_decode (snd p)) else dflt)
  end.
Lemma query_of_lookup kvs k : forall m, query_of kvs m !! k = assoc_last k kvs (m !! k).
Proof.
  induction kvs as [|[k' v] kvs IH]; intros m; simpl; [done|]. unfold query_of in IH. rewrite IH. f_equal.
  case_bool_decide as E; [subst; by rewrite lookup_insert_eq|by rewrite lookup_insert_ne by congruence].
Qed.

Definition kv_ok (p : list Z * list Z) : Prop :=
  fst p <> [] /\ Forall (fun c => c <> 61 /\ c <> 38) (fst p) /\ Forall (fun c => c <> 38) (snd p).

Lemma parse_pairs_show kvs : forall m,
  Forall kv_ok kvs -> parse_pairs m (map show_kv kvs) = Ok (query_of kvs m).
Proof.
  induction kvs as [|[k v] kvs IH]; intros m HF; [done|].
  inversion HF as [|? ? (Hne & Hk & Hv) HF']; subst. cbn [map parse_pairs fst snd] in *.
  destruct (show_kv (k, v)) as [|x l] eqn:E; [by destruct k|]. rewrite <- E. unfold show_kv. cbn [fst snd app].
  rewrite split_once_char by (eapply Forall_impl; [exact Hk|]; naive_solver). by rewrite IH.
Qed.

Lemma parse_query_show kvs :
  kvs <> [] -> Forall kv_ok kvs -> parse_query (join [38] (map show_kv kvs)) = Ok (query_of kvs ∅).
Proof.
  intros Hne HF. unfold parse_query. rewrite split_on_join; [by apply parse_pairs_show| |].
  - by destruct kvs.
  - apply Forall_map. eapply Forall_impl; [exact HF|]. intros [k v] (_ & Hk & Hv). unfold show_kv. cbn [fst snd].
    rewrite !Forall_app. repeat split; [|by repeat constructor|done].
    eapply Forall_impl; [exact Hk|]. naive_solver.
Qed.

(** ** Round trips *)
Lemma pct_decode_bytes_plain s :
  Forall (fun c => c <> 37 /\ c <> 43) s -> pct_decode_bytes s = s.
Proof.
  induction 1 as [|c s [H1 H2] _ IH]; [done|]. apply Z.eqb_neq in H1, H2.
  cbn [pct_decode_bytes]. destruct s as [|h [|l r]]; by rewrite ?H1, H2, IH.
Qed.
Lemma pct_decode_plain s :
  Forall (fun c => 0 <= c < 128 /\ c <> 37 /\ c <> 43) s -> pct_decode s = s.
Proof.
  intros H. assert (Ha : Forall (fun c => 0 <= c < 128) s) by (eapply Forall_impl; [exact H|]; naive_solver).
  unfold pct_decode. rewrite utf8_ascii, pct_decode_bytes_plain; [|eapply Forall_impl; [exact H|]; naive_solver|done].
  rewrite <- (utf8_ascii s) at 1 by done. apply lossy_utf8. eapply Forall_impl; [exact Ha|]. apply ascii_scalar.
Qed.
Lemma show_nat_ascii n : 0 <= n -> Forall (fun c => 0 <= c < 128 /\ c <> 37 /\ c <> 43 /\ c <> 38 /\ c <> 32) (show_nat n).
Proof.
  intros H. eapply Forall_impl; [by apply show_nat_digits|]. intros c Hc. unfold is_digit in Hc.
  apply in_range_spec in Hc. lia.
Qed.
Lemma pct_decode_show n : 0 <= n -> pct_decode (show_nat n) = show_nat n.
Proof.
  intros H. apply pct_decode_plain. eapply Forall_impl; [by apply show_nat_ascii|]. naive_solver.
Qed.

(** Text that survives [trim]: valid, not empty, no outer white space. *)
Definition text_ok (s : list Z) : Prop := str_ok s /\ s <> [] /\ trim s = s.
Definition opt_ok (P : list Z -> Prop) (o : option (list Z)) : Prop :=
  match o with Some s => P s | None => True end.
Record config_ok (c : PcapConfig) : Prop := {
  ok_interface : text_ok (interface c);
  ok_display : opt_ok text_ok (display_name c);
  ok_filter : opt_ok text_ok (filter_expr c);
  ok_path : opt_ok text_ok (pcapng_path c);
  ok_snaplen : 1 <= snaplen c <= u32_max;
  ok_timeout : 0 <= timeout_ms c <= u32_max;
  ok_buffer : match buffer_bytes c with Some n => 1 <= n <= u32_max | None => True end
}.

Definition plain_kv (p : list Z * list Z) : Prop :=
  kv_ok p /\ Forall (fun c => c <> 32) (fst p) /\ Forall (fun c => c <> 32) (snd p).

Lemma plain_kv_lit k v :
  bool_decide (lit k <> []) && forallb (fun c => negb (c =? 61) && negb (c =? 38) && negb (c =? 32)) (lit k) = true ->
  Forall (fun c => c <> 38 /\ c <> 32) v -> plain_kv (kv k v).
Proof.
  intros H Hv. bprop. apply bool_decide_eq_true_1 in H. rewrite forallb_forall in H0.
  assert (Hk : Forall (fun c => c <> 61 /\ c <> 38 /\ c <> 32) (lit k)).
  { apply Forall_forall. intros x Hx%list_elem_of_In%H0. bprop. lia. }
  split; [split; [done|split]|split]; cbn [kv fst snd];
    (eapply Forall_impl; [first [exact Hk|exact Hv]|]; naive_solver).
Qed.

Lemma opt_kv_plain {A} k (f : A -> list Z) o :
  bool_decide (lit k <> []) && forallb (fun c => negb (c =? 61) && negb (c =? 38) && negb (c =? 32)) (lit k) = true ->
  (forall a, o = Some a -> Forall (fun c => c <> 38 /\ c <> 32) (f a)) -> Forall plain_kv (opt_kv k (f <$> o)).
Proof.
  intros Hk Hf. destruct o as [a|]; simpl; [|constructor]. apply Forall_singleton. apply plain_kv_lit; auto.
Qed.

Lemma encode_plain s : str_ok s -> Forall (fun c => c <> 38 /\ c <> 32) (pct_encode s).
Proof.
  intros H. eapply Forall_impl; [by apply pct_encode_chars|]. intros c Hc%enc_char_range. lia.
Qed.
Lemma show_plain n : 0 <= n -> Forall (fun c => c <> 38 /\ c <> 32) (show_nat n).
Proof. intros H. eapply Forall_impl; [by apply show_nat_ascii|]. naive_solver. Qed.
Lemma lit_plain s : forallb (fun c => negb (c =? 38) && negb (c =? 32)) (lit s) = true ->
  Forall (fun c => c <> 38 /\ c <> 32) (lit s).
Proof.
  rewrite forallb_forall. intros H. apply Forall_forall. intros x Hx%list_elem_of_In%H. bprop. done.
Qed.

Lemma pcap_query_plain c : config_ok c -> Forall plain_kv (pcap_query c).
Proof.
  intros [Hi Hd Hf Hp Hs Ht Hb]. unfold pcap_query. rewrite !Forall_app. split; [|repeat split].
  - repeat (apply Forall_cons; split); [| | | | | |constructor];
      apply plain_kv_lit; try reflexivity; try (apply show_plain; lia); unfold bit, save_mode_fmt, publish_mode_fmt.
    + by destruct (promiscuous c); apply lit_plain.
    + by destruct (immediate c); apply lit_plain.
    + by destruct (save_mode c); apply lit_plain.
    + by destruct (publish_mode c); apply lit_plain.
  - apply opt_kv_plain; [reflexivity|]. intros a Ha. rewrite Ha in Hd. apply encode_plain, Hd.
  - apply opt_kv_plain; [reflexivity|]. intros a Ha. rewrite Ha in Hb. apply show_plain. lia.
  - apply opt_kv_plain; [reflexivity|]. intros a Ha. rewrite Ha in Hf. apply encode_plain, Hf.
  - apply opt_kv_plain; [reflexivity|]. intros a Ha. rewrite Ha in Hp. apply encode_plain, Hp.
Qed.

Lemma query_string_some q keys s :
  text_ok s -> find_key q keys = Some s -> query_optional_string q keys = Some s.
Proof.
  intros (_ & Hne & Ht) Hf. unfold query_optional_string. rewrite Hf, Ht. by destruct s.
Qed.

Section PcapRoundTrip.
  Context (c : PcapConfig) (Hc : config_ok c).
Let q := query_of (pcap_query c) ∅.

Lemma q_lookup k v :
  assoc_last k (pcap_query c) None = v -> q !! k = v.
Proof. intros <-. unfold q. by rewrite query_of_lookup, lookup_empty. Qed.

Ltac key := apply q_lookup; clear Hc; destruct c as [? [?|] ? ? [?|] ? ? [?|] ? [?|] ?]; reflexivity.

Lemma q_fixed :
  q !! lit "snaplen" = Some (pct_decode (show_nat (snaplen c))) /\
  q !! lit "promiscuous" = None /\
  q !! lit "promisc" = Some (pct_decode (bit (promiscuous c))) /\
  q !! lit "timeout_ms" = Some (pct_decode (show_nat (timeout_ms c))) /\
  q !! lit "immediate" = Some (pct_decode (bit (immediate c))) /\
  q !! lit "save_mode" = None /\
  q !! lit "save" = Some (pct_decode (save_mode_fmt (save_mode c))) /\
  q !! lit "publish_mode" = None /\
  q !! lit "publish" = Some (pct_decode (publish_mode_fmt (publish_mode c))) /\
  q !! lit "buffer" = None.
Proof using Type. repeat split; key. Qed.

Lemma q_optional :
  q !! lit "display_name" = (pct_decode ∘ pct_encode) <$> display_name c /\
  q !! lit "display" = None /\
  q !! lit "buffer_bytes" = (pct_decode ∘ show_nat) <$> buffer_bytes c /\
  q !! lit "filter" = (pct_decode ∘ pct_encode) <$> filter_expr c /\
  q !! lit "pcapng_path" = (pct_decode ∘ pct_encode) <$> pcapng_path c /\
  q !! lit "pcapng" = None.
Proof using Type. repeat split; key. Qed.

(** An optional text parameter reads back. *)
Lemma q_text k alt o :
  opt_ok text_ok o -> q !! k = (pct_decode ∘ pct_encode) <$> o -> Forall (fun k' => q !! k' = None) alt ->
  query_optional_string q (k :: alt) = o.
Proof using Type.
  intros Ho Hk Ha. destruct o as [s|]; simpl in *.
  - apply query_string_some; [done|]. simpl. rewrite Hk. by rewrite pct_decode_encode by apply Ho.
  - unfold query_optional_string. simpl. rewrite Hk.
    assert (find_key q alt = None) as ->; [|done].
    induction Ha as [|k' alt Hk' _ IH]; simpl; [done|]. by rewrite Hk'.
Qed.

Lemma parse_pcap_query : parse_pcap (pct_encode (interface c)) q = Ok (Pcap c).
Proof using Type*.
  destruct Hc as [(Hi & Hine & Hit) Hd Hf Hp Hs Ht Hb].
  destruct q_fixed as (Q1 & Q2 & Q3 & Q4 & Q5 & Q6 & Q7 & Q8 & Q9 & Q10).
  destruct q_optional as (O1 & O2 & O3 & O4 & O5 & O6).
  unfold parse_pcap. rewrite pct_decode_encode, Hit by done.
  rewrite (q_text (lit "display_name") [lit "display"] _ Hd O1) by (by repeat constructor).
  rewrite (q_text (lit "filter") [] _ Hf O4) by constructor.
  rewrite (q_text (lit "pcapng_path") [lit "pcapng"] _ Hp O5) by (by repeat constructor).
  assert (Epr : parse_bool_alias q [lit "promiscuous"; lit "promisc"] false = promiscuous c).
  { unfold parse_bool_alias. cbn [find_key]. rewrite Q2, Q3. by destruct (promiscuous c). }
  assert (Eim : parse_bool q (lit "immediate") false = immediate c).
  { unfold parse_bool. rewrite Q5. by destruct (immediate c). }
  assert (Esn : parse_num u32_max q (lit "snaplen") DEFAULT_SNAPLEN = Ok (snaplen c)).
  { unfold parse_num. rewrite Q1, pct_decode_show, parse_show_nat by lia. done. }
  assert (Etm : parse_num u32_max q (lit "timeout_ms") DEFAULT_TIMEOUT_MS = Ok (timeout_ms c)).
  { unfold parse_num. rewrite Q4, pct_decode_show, parse_show_nat by lia. done. }
  assert (Eb1 : parse_optional_num u32_max q (lit "buffer_bytes") = Ok (buffer_bytes c)).
  { unfold parse_optional_num. rewrite O3. destruct (buffer_bytes c) as [n|]; simpl; [|done].
    rewrite pct_decode_show by lia. pose proof (parse_show_nat u32_max n ltac:(lia)) as E.
    pose proof (show_nat_nonempty n). destruct (show_nat n); [done|]. by rewrite E. }
  assert (Eb2 : parse_optional_num u32_max q (lit "buffer") = Ok None).
  { unfold parse_optional_num. by rewrite Q10. }
  assert (Esm : parse_mode save_mode_from_str SaveSession
      (query_optional_string q [lit "save_mode"; lit "save"]) = Ok (save_mode c)).
  { unfold query_optional_string. cbn [find_key]. rewrite Q6, Q7. by destruct (save_mode c). }
  assert (Epm : parse_mode publish_mode_from_str StatsOnly
      (query_optional_string q [lit "publish_mode"; lit "publish"]) = Ok (publish_mode c)).
  { unfold query_optional_string. cbn [find_key]. rewrite Q8, Q9. by destruct (publish_mode c). }
  rewrite Epr, Eim, Esn, Etm, Eb1, Eb2, Esm, Epm, Q4. cbn [mbind res_bind].
  assert (Ebuf : match buffer_bytes c with Some _ => buffer_bytes c | None => None end = buffer_bytes c)
    by (by destruct (buffer_bytes c)).
  rewrite Ebuf.
  assert (Ecfg : mkPcap (interface c) (display_name c) (promiscuous c) (snaplen c) (buffer_bytes c)
    (timeout_ms c) (immediate c) (filter_expr c) (save_mode c) (pcapng_path c) (publish_mode c) = c)
    by (by destruct c).
  rewrite Ecfg. assert (Hv : validate c = Ok tt).
  { unfold validate. rewrite Hit. destruct (interface c); [done|].
    destruct (Z.eqb_spec (snaplen c) 0); [lia|]. destruct (buffer_bytes c) as [[|m|m]|]; try done; lia. }
  by rewrite Hv.
Qed.
End PcapRoundTrip.

Lemma show_kv_no_space p : plain_kv p -> Forall (fun c => c <> 32) (show_kv p).
Proof.
  intros (_ & Hk & Hv). unfold show_kv. rewrite !Forall_app. split; [done|]. split; [|done].
  by apply Forall_singleton.
Qed.
Lemma join_no_space ws :
  Forall (Forall (fun c => c <> 32)) ws -> Forall (fun c : Z => c <> 32) (join [38] ws).
Proof.
  induction ws as [|w [|w' ws] IH]; intros HF; [constructor|by inversion HF|].
  inversion HF as [|? ? Hw HF']; subst. change (join [38] (w :: w' :: ws)) with (w ++ [38] ++ join [38] (w' :: ws)).
  rewrite !Forall_app. split; [done|]. split; [by apply Forall_singleton|by apply IH].
Qed.

(** Percent coding and the [remote] form are invertible: any URL renders
    to a specification without spaces that parses back to the same URL. *)
Theorem remote_spec_round_trip debug url :
  str_ok url -> parse (render debug (Remote url)) = Ok (Remote url) /\ pct_decode (pct_encode url) = url.
Proof.
  intros Hu. pose proof (pct_encode_chars url Hu) as He. split; [|by apply pct_decode_encode].
  unfold render. rewrite replace_char_none.
  - unfold parse.
    change (split_once (lit "://") (lit "remote://" ++ pct_encode url)) with (Some (lit "remote", pct_encode url)).
    cbn [ok_or mbind res_bind]. rewrite split_once_char_none.
    + cbn [mbind res_bind].
      transitivity (@Ok SpecError _ (Remote (pct_decode (pct_encode url)))); [reflexivity|].
      by rewrite pct_decode_encode.
    + eapply Forall_impl; [exact He|]. intros c Hc%enc_char_range. lia.
  - apply Forall_app. split; [by apply (bool_decide_unpack _); vm_compute|].
    eapply Forall_impl; [exact He|]. intros c Hc%enc_char_range. lia.
Qed.
Lemma remote_spec_round_trip_witness :
  parse (render (fun _ => []) (Remote (lit "wss://edge:9000/ws?sid=a&ch=0 %+"))) =
    Ok (Remote (lit "wss://edge:9000/ws?sid=a&ch=0 %+")) /\
  pct_decode (pct_encode (lit "wss://edge:9000/ws?sid=a&ch=0 %+")) = lit "wss://edge:9000/ws?sid=a&ch=0 %+".
Proof. apply remote_spec_round_trip. unfold str_ok. apply (bool_decide_unpack _). reflexivity. Defined.

(** A packet-capture configuration survives the command line: rendering
    any valid configuration and parsing the URI gives the same configuration,
    with every optional field, whatever characters its texts contain. *)
Theorem pcap_spec_round_trip debug c :
  config_ok c -> parse (render debug (Pcap c)) = Ok (Pcap c).
Proof.
  intros Hc. pose proof (pcap_query_plain c Hc) as Hq.
  destruct (ok_interface c Hc) as (Hi & _). pose proof (pct_encode_chars _ Hi) as He.
  unfold render, render_pcap. cbn [from_channel_spec]. rewrite replace_char_none.
  - unfold parse.
    change (split_once (lit "://") (lit "pcap://" ++ pct_encode (interface c) ++ [63] ++ join [38] (map show_kv (pcap_query c))))
      with (Some (lit "pcap", pct_encode (interface c) ++ 63 :: join [38] (map show_kv (pcap_query c)))).
    cbn [ok_or mbind res_bind]. rewrite split_once_char.
    + rewrite parse_query_show; [|by unfold pcap_query|eapply Forall_impl; [exact Hq|]; by intros p [? _]].
      cbn [mbind res_bind]. transitivity (parse_pcap (pct_encode (interface c)) (query_of (pcap_query c) ∅)); [reflexivity|].
      by apply parse_pcap_query.
    + eapply Forall_impl; [exact He|]. intros x Hx%enc_char_range. lia.
  - rewrite !Forall_app. split; [by apply (bool_decide_unpack _); vm_compute|]. split.
    + eapply Forall_impl; [exact He|]. intros x Hx%enc_char_range. lia.
    + split; [by apply Forall_singleton|]. apply join_no_space, Forall_map.
      eapply Forall_impl; [exact Hq|]. apply show_kv_no_space.
Qed.
Definition pcap_example : PcapConfig :=
  mkPcap (lit "Ethernet 2") (Some (lit "lab & co")) true 65535 (Some 1048576) 250 true
    (Some (lit "tcp port 502")) SaveBoth (Some (lit "/tmp/a b.pcapng")) Sampled.
Lemma pcap_spec_round_trip_witness : parse (render (fun _ => []) (Pcap pcap_example)) = Ok (Pcap pcap_example).
Proof.
  apply pcap_spec_round_trip. split; simpl; unfold text_ok, str_ok;
    try (split; [apply (bool_decide_unpack _); reflexivity|split; [discriminate|reflexivity]]);
    vm_compute; split; discriminate.
Defined.

(** Finding: the path of a [file] specification never keeps a leading slash:
    [file:///abs/path] names the relative path [abs/path]. *)
Theorem file_spec_drops_root p :
  Forall (fun c => c <> 63) p ->
  exists rel, parse (lit "file:///" ++ p) = Ok (File rel false) /\
    rel = trim_start_matches is_slash p /\ (forall k, rel <> 47 :: k).
Proof.
  intros Hp. exists (trim_start_matches is_slash p). split; [|split; [done|]].
  - unfold parse. change (split_once (lit "://") (lit "file:///" ++ p)) with (Some (lit "file", 47 :: p)).
    cbn [ok_or mbind res_bind]. rewrite split_once_char_none by (constructor; [lia|done]). reflexivity.
  - intros k Hk. apply trim_start_head in Hk. done.
Qed.
Lemma file_spec_drops_root_witness :
  exists rel, parse (lit "file:///" ++ lit "var/log/x") = Ok (File rel false) /\
    rel = trim_start_matches is_slash (lit "var/log/x") /\ (forall k, rel <> 47 :: k).
Proof. apply file_spec_drops_root. apply (bool_decide_unpack _). reflexivity. Defined.

(** Finding: a [process] specification does not survive rendering when an argument
    has a plus sign: the arguments are joined without percent coding and the
    parser turns the plus into a space. *)
Theorem process_spec_loses_plus debug :
  parse (render debug (Process [lit "sh"; lit "a+b"])) = Ok (Process [lit "sh"; lit "a b"]).
Proof. reflexivity. Qed.
