(* ===== verification/Decoder.v ===== *)
(** * Line splitting and decoders

    The end-of-line helpers of crates/core/src/codec.rs and the decoders of
    crates/core/src/decoder.  The character decoders of [encoding_rs] and the
    JSON parser and printer of [serde_json] are parameters. *)
From stdpp Require Import base numbers strings gmap list.
From S2P Require Import Prelude Text.

Local Open Scope Z_scope.
Local Open Scope tm_scope.

(** ** codec.rs *)
Module Codec.
Inductive Eol := Lf | Crlf | Cr | Auto.

Definition eol_bytes (e : Eol) : list Z :=
  match e with Lf | Auto => [10] | Crlf => [13; 10] | Cr => [13] end.

(** The counting loop of [Eol::detect]: [(crlf, cr, lf)]. *)
Fixpoint count_eols (buf : list Z) : nat * nat * nat :=
  match buf with
  | [] => (O, O, O)
  | b :: rest =>
      match rest with
      | 10 :: rest' =>
          if b =? 13 then let '(crlf, cr, lf) := count_eols rest' in (S crlf, cr, lf)
          else let '(crlf, cr, lf) := count_eols rest in (crlf, cr, if b =? 10 then S lf else lf)
      | _ =>
          let '(crlf, cr, lf) := count_eols rest in
          (crlf, if b =? 13 then S cr else cr, if b =? 10 then S lf else lf)
      end
  end.

Definition detect (sample : list Z) : Eol :=
  let '(crlf, cr, lf) := count_eols (take (64 * 1024) sample) in
  if ((lf <=? crlf) && (cr <=? crlf) && (0 <? crlf))%nat then Crlf
  else if ((lf <? cr) && (0 <? cr))%nat then Cr
  else Lf.

Record LineIter := mkIter { buf : list Z; eol : Eol; done : bool }.

Definition terminator_at (resolved : Eol) (b : list Z) : option nat * nat :=
  match resolved with
  | Lf | Auto => (position (Z.eqb 10) b, 1%nat)
  | Cr => (position (Z.eqb 13) b, 1%nat)
  | Crlf => (position2 (fun x y => (x =? 13) && (y =? 10)) b, 2%nat)
  end.

(** [Iterator::next]; [Auto] never reaches [terminator_at]. *)
Definition next (it : LineIter) : option (list Z) * LineIter :=
  if done it then (None, it)
  else
    let resolved := match eol it with Auto => detect (buf it) | other => other end in
    let '(term_pos, term_len) := terminator_at resolved (buf it) in
    match term_pos with
    | Some idx => (Some (take idx (buf it)), mkIter (drop term_len (drop idx (buf it))) (eol it) (done it))
    | None =>
        match buf it with
        | [] => (None, mkIter [] (eol it) true)
        | line => (Some line, mkIter [] (eol it) true)
        end
    end.

(** Collecting the iterator; the fuel bounds the number of lines. *)
Fixpoint collect (fuel : nat) (it : LineIter) : option (list (list Z)) :=
  match fuel with
  | O => None
  | S fuel' =>
      match next it with
      | (None, _) => Some []
      | (Some line, it') => cons line <$> collect fuel' it'
      end
  end.
Definition split_lines (b : list Z) (e : Eol) : option (list (list Z)) :=
  collect (S (S (length b))) (mkIter b e false).

(** What splitting means for a fixed terminator: each line but the last is
    followed by it, and none contains it. *)
Fixpoint lines_text (term : list Z) (ls : list (list Z)) : list Z :=
  match ls with [] => [] | l :: ls' => l ++ term ++ lines_text term ls' end.
Definition line_free (e : Eol) (l : list Z) : Prop := fst (terminator_at e l) = None.

Lemma terminator_split e b idx len :
  e <> Auto -> terminator_at e b = (Some idx, len) ->
  b = take idx b ++ eol_bytes e ++ drop len (drop idx b) /\ (len + length (drop len (drop idx b)) <= length b)%nat /\
  (0 < len)%nat /\ len = length (eol_bytes e) /\ line_free e (take idx b).
Proof.
  intros He Ht. destruct e; [| | |done]; unfold terminator_at, line_free in *; injection Ht as H0 <-; cbn [fst].
  - destruct (proj1 (position_Some _ _ _) H0) as (x & Hx & Hp & Hf). apply Z.eqb_eq in Hp. subst x.
    pose proof (drop_S b 10 idx Hx) as Hd. apply lookup_lt_Some in Hx.
    split; [transitivity (take idx b ++ drop idx b); [by rewrite take_drop|by rewrite Hd]|]. rewrite Hd. simpl.
    split; [rewrite !length_drop; lia|]. split; [lia|]. split; [done|]. by apply position_None.
  - destruct (proj1 (position2_Some _ _ _) H0) as (x & y & Hx & Hy & Hp & Hf). bprop. subst x y.
    assert (Hd : drop idx b = 13 :: 10 :: drop (S (S idx)) b).
    { rewrite (drop_S b 13 idx Hx). f_equal. by rewrite (drop_S b 10 (S idx) Hy). }
    apply lookup_lt_Some in Hy.
    split; [transitivity (take idx b ++ drop idx b); [by rewrite take_drop|by rewrite Hd]|]. rewrite Hd. simpl.
    split; [rewrite !length_drop; lia|]. split; [lia|]. split; [done|].
    destruct (position2 _ (take idx b)) as [j|] eqn:Ej; [|done].
    apply position2_Some in Ej as (x & y & Hxj & Hyj & Hpj & _).
    assert (j < idx)%nat by (apply lookup_lt_Some in Hxj; rewrite length_take in Hxj; lia).
    apply lookup_take_Some in Hxj as [Hxj _]. apply lookup_take_Some in Hyj as [Hyj _].
    by rewrite (Hf j x y) in Hpj.
  - destruct (proj1 (position_Some _ _ _) H0) as (x & Hx & Hp & Hf). apply Z.eqb_eq in Hp. subst x.
    pose proof (drop_S b 13 idx Hx) as Hd. apply lookup_lt_Some in Hx.
    split; [transitivity (take idx b ++ drop idx b); [by rewrite take_drop|by rewrite Hd]|]. rewrite Hd. simpl.
    split; [rewrite !length_drop; lia|]. split; [lia|]. split; [done|]. by apply position_None.
Qed.

Lemma next_fixed e b : e <> Auto ->
  next (mkIter b e false) =
  let '(term_pos, term_len) := terminator_at e b in
  match term_pos with
  | Some idx => (Some (take idx b), mkIter (drop term_len (drop idx b)) e false)
  | None => match b with [] => (None, mkIter [] e true) | line => (Some line, mkIter [] e true) end
  end.
Proof. intros He. destruct e; [| | |congruence]; destruct b as [|x b]; reflexivity. Qed.

Lemma collect_spec e : e <> Auto -> forall fuel b, (length b < fuel)%nat ->
  exists ls last_line, collect (S fuel) (mkIter b e false) =
      Some (ls ++ match last_line with [] => [] | _ => [last_line] end) /\
    b = lines_text (eol_bytes e) ls ++ last_line /\
    Forall (line_free e) ls /\ line_free e last_line.
Proof.
  intros He. induction fuel as [|fuel IH]; intros b Hf; [lia|].
  cbn [collect]. rewrite next_fixed by done.
  destruct (terminator_at e b) as [[idx|] len] eqn:Et.
  - destruct (terminator_split e b idx len He Et) as (Hb & Hl & Hlen & _ & Hfree).
    destruct (IH (drop len (drop idx b))) as (ls & ll & Hc & Hbb & HF & Hll); [lia|].
    exists (take idx b :: ls), ll. cbn [collect] in Hc. rewrite Hc. split; [done|].
    split; [simpl; rewrite Hb at 1; rewrite Hbb at 1; by rewrite <- !(assoc_L (++))|]. split; [by constructor|done].
  - exists [], b. assert (line_free e b) by (unfold line_free; by rewrite Et).
    destruct b as [|x b]; [by split|]. split; [|done]. cbn [collect next done]. by destruct fuel.
Qed.
End Codec.

(** Line splitting loses nothing: for a fixed convention the lines, each
    followed by its terminator, and the unterminated rest spell the buffer, and
    no line contains a terminator. *)
Theorem split_lines_spec e b :
  e <> Codec.Auto ->
  exists ls rest, Codec.split_lines b e = Some (ls ++ match rest with [] => [] | _ => [rest] end) /\
    b = Codec.lines_text (Codec.eol_bytes e) ls ++ rest /\
    Forall (Codec.line_free e) ls /\ Codec.line_free e rest.
Proof. intros He. apply Codec.collect_spec; [done|lia]. Qed.
Lemma split_lines_spec_witness :
  exists ls rest, Codec.split_lines [97; 13; 10; 98; 10; 13] Codec.Crlf =
      Some (ls ++ match rest with [] => [] | _ => [rest] end) /\
    [97; 13; 10; 98; 10; 13] = Codec.lines_text (Codec.eol_bytes Codec.Crlf) ls ++ rest /\
    Forall (Codec.line_free Codec.Crlf) ls /\ Codec.line_free Codec.Crlf rest.
Proof. apply split_lines_spec. discriminate. Defined.

(** Finding: in [Auto] mode the convention is guessed again on what remains, so it
    can change in the middle of a buffer: in [a\nb\nc\r\nd] the first line ends
    at LF and the second swallows the next LF. *)
Theorem split_lines_auto_flips :
  Codec.split_lines (lit "a" ++ [10] ++ lit "b" ++ [10] ++ lit "c" ++ [13; 10] ++ lit "d") Codec.Auto =
  Some [lit "a"; lit "b" ++ [10] ++ lit "c"; lit "d"].
Proof. vm_compute. reflexivity. Qed.

(** ** decoder/mod.rs

    [Value] is [serde_json::Value]; an object keeps its entries in key order,
    numbers are kept as their text. *)
Inductive Value :=
| VNull
| VBool (b : bool)
| VNumber (n : list Z)
| VString (s : list Z)
| VArray (l : list Value)
| VObject (m : list (list Z * Value)).

Inductive Level := Trace | Debug | Info | Warn | Error | Fatal.

Record Record_ := mkRecord {
  schema_id : option (list Z); level : option Level; text : option (list Z); fields : Value;
  tags : list (list Z); correlation_id : option (list Z) }.

Definition text_record (t : list Z) (f : Value) (tg : list (list Z)) : Record_ :=
  mkRecord None None (Some t) f tg None.

(** ** decoder/passthrough.rs and decoder/utf8_text.rs *)
Definition passthrough_decode (frame : list Z) : option Record_ :=
  match frame with
  | [] => None
  | _ => Some (text_record (from_utf8_lossy frame) VNull [])
  end.

Section Utf8Text.
  (** [codec::decode]: text and whether something was replaced. *)
  Variable decode_label : list Z -> list Z -> list Z * bool.
Definition utf8_text_decode (label frame : list Z) : option Record_ :=
  match frame with
  | [] => None
  | _ =>
      let '(t, had_errors) := decode_label frame label in
      Some (text_record t VNull (if had_errors then [lit "decode_error"] else []))
  end.
End Utf8Text.

(** ** decoder/nmea.rs *)
Module Nmea.
Definition xor_checksum (body : list Z) : Z := fold_left Z.lxor body 0.

Definition is_eol (b : Z) : bool := (b =? 13) || (b =? 10).

(** The optional checksum: the payload between [$] and [*], and whether the
    stated value matches. *)
Definition split_checksum (body : list Z) : list Z * option bool :=
  match rposition (Z.eqb 42) body with
  | Some idx =>
      if (idx + 3 <=? length body)%nat then
        let computed := xor_checksum (take (idx - 1) (drop 1 body)) in
        let stated_hex := take 2 (drop (idx + 1) body) in
        let stated := parse_unsigned 16 255 (default [] (from_utf8 stated_hex)) in
        (take (idx - 1) (drop 1 body), Some (bool_decide (stated = Some computed)))
      else (drop 1 body, None)
  | None => (drop 1 body, None)
  end.

(** Slicing the header at byte 2 panics inside a character. *)
Definition split_header (header : list Z) : result (list Z * list Z) :=
  if 5 <=? str_len header then
    match split_at_byte 2 header with Some p => Ok p | None => Panic end
  else Ok ([], header).

Definition nmea_fields (talker message : list Z) (parts : list (list Z)) (ok : option bool) : Value :=
  VObject [(lit "checksum_ok", match ok with Some b => VBool b | None => VNull end);
           (lit "message", VString message);
           (lit "parts", VArray (map VString parts));
           (lit "talker", VString talker)].

Definition decode (frame : list Z) : result (option Record_) :=
  let body := trim_end_matches is_eol frame in
  match body with
  | [] => Ok None
  | b0 :: _ =>
      let t := from_utf8_lossy body in
      if (b0 =? 36) || (b0 =? 33) then
        let '(payload, checksum_ok) := split_checksum body in
        let pieces := split_on 44 (from_utf8_lossy payload) in
        let header := default [] (head pieces) in
        let* '(talker, message) := split_header header in
        let parts := drop 1 pieces in
        let tg := match checksum_ok with Some false => [lit "checksum_mismatch"] | _ => [] end in
        Ok (Some (text_record t (nmea_fields talker message parts checksum_ok) tg))
      else Ok (Some (text_record t (VObject []) [lit "not_nmea"]))
  end.

Lemma lxor_byte a b : 0 <= a < 256 -> 0 <= b < 256 -> 0 <= Z.lxor a b < 256.
Proof.
  intros Ha Hb. split; [apply Z.lxor_nonneg; lia|].
  destruct (Z.eq_dec (Z.lxor a b) 0) as [->|Hne]; [lia|].
  apply (Z.log2_lt_pow2 _ 8); [pose proof (proj2 (Z.lxor_nonneg a b)); lia|].
  pose proof (Z.log2_lxor a b ltac:(lia) ltac:(lia)).
  assert (Z.log2 a < 8) by (destruct (Z.eq_dec a 0) as [->|]; [reflexivity|apply Z.log2_lt_pow2; lia]).
  assert (Z.log2 b < 8) by (destruct (Z.eq_dec b 0) as [->|]; [reflexivity|apply Z.log2_lt_pow2; lia]).
  lia.
Qed.
Lemma xor_checksum_byte body : bytes_ok body -> 0 <= xor_checksum body < 256.
Proof.
  intros Hb. unfold xor_checksum.
  enough (forall a, 0 <= a < 256 -> 0 <= fold_left Z.lxor body a < 256) as H by (apply H; lia).
  induction Hb as [|b body Hb _ IH]; intros a Ha; [done|]. apply IH. by apply lxor_byte.
Qed.

Lemma rposition_last p (a : list Z) x b :
  p x = true -> Forall (fun y => p y = false) b -> rposition p (a ++ x :: b) = Some (length a).
Proof.
  intros Hx Hb. unfold rposition. rewrite rev_app_distr. cbn [rev]. rewrite <- (assoc_L (++)). cbn [app].
  rewrite position_prefix by (done || by apply Forall_rev). simpl. f_equal.
  rewrite length_app, length_rev. simpl. lia.
Qed.

Lemma hex_digit_val up n : 0 <= n < 16 -> digit_val 16 (hex_digit up n) = Some n.
Proof.
  intros. unfold digit_val, hex_digit, is_digit, is_lower, is_upper.
  destruct up, (Z.ltb_spec n 10); decide_ranges; f_equal; lia.
Qed.
Lemma hex2_parse up b : 0 <= b < 256 -> parse_unsigned 16 255 (show_hex2 up b) = Some b.
Proof.
  intros Hb. pose proof (Z.mod_pos_bound b 16 ltac:(lia)). pose proof (Z.div_mod b 16 ltac:(lia)).
  assert (0 <= b / 16 < 16) by (split; [apply Z.div_pos; lia|apply Z.div_lt_upper_bound; lia]).
  apply parse_unsigned_digits; [done| | |lia].
  - intros k [= E _]. unfold hex_digit in E. destruct up, (Z.ltb_spec (b / 16) 10); lia.
  - unfold show_hex2. cbn [parse_digits]. rewrite !hex_digit_val by lia. f_equal. lia.
Qed.
Lemma hex2_ascii up b : 0 <= b < 256 -> Forall (fun c => 48 <= c < 128) (show_hex2 up b).
Proof.
  intros Hb. pose proof (Z.mod_pos_bound b 16 ltac:(lia)).
  assert (0 <= b / 16 < 16) by (split; [apply Z.div_pos; lia|apply Z.div_lt_upper_bound; lia]).
  unfold show_hex2, hex_digit. repeat (apply Forall_cons; split); [| |constructor];
    case_if; bprop; destruct up; lia.
Qed.

Lemma ascii_str_ok s : Forall (fun c => 0 <= c < 128) s -> str_ok s.
Proof. intros H. eapply Forall_impl; [exact H|]. apply ascii_scalar. Qed.
Lemma lossy_ascii s : Forall (fun c => 0 <= c < 128) s -> from_utf8_lossy s = s.
Proof. intros H. rewrite <- (utf8_ascii s) at 1 by done. by apply lossy_utf8, ascii_str_ok. Qed.
Lemma from_utf8_ascii s : Forall (fun c => 0 <= c < 128) s -> from_utf8 s = Some s.
Proof. intros H. unfold from_utf8. rewrite lossy_ascii, utf8_ascii by done. by rewrite bool_decide_true. Qed.

Lemma split_checksum_stated up payload stated :
  Forall (fun c => 0 <= c < 128) payload -> 0 <= stated < 256 ->
  split_checksum (36 :: payload ++ 42 :: show_hex2 up stated) =
  (payload, Some (stated =? xor_checksum payload)).
Proof.
  intros Hp Hs. pose proof (hex2_ascii up stated Hs) as Hh. unfold split_checksum.
  change (36 :: payload ++ 42 :: show_hex2 up stated) with ((36 :: payload) ++ 42 :: show_hex2 up stated).
  rewrite rposition_last; [|done|eapply Forall_impl; [exact Hh|]; intros c Hc; apply Z.eqb_neq; cbv beta in Hc; lia].
  cbn [length]. rewrite (proj2 (Nat.leb_le _ _)) by (rewrite length_app; simpl; lia).
  replace (S (length payload) - 1)%nat with (length payload) by lia. cbn [app]. change (drop 1 (36 :: ?x)) with x.
  rewrite take_app_length.
  replace (S (length payload) + 1)%nat with (S (length (payload ++ [42]))) by (rewrite length_app; simpl; lia).
  change (36 :: payload ++ 42 :: show_hex2 up stated) with (36 :: payload ++ [42] ++ show_hex2 up stated).
  rewrite (assoc_L (++)). cbn [drop]. rewrite drop_app_length.
  change (take 2 (show_hex2 up stated)) with (show_hex2 up stated).
  rewrite from_utf8_ascii by (eapply Forall_impl; [exact Hh|]; cbv beta; lia). simpl default.
  rewrite hex2_parse by done. f_equal. f_equal.
  destruct (Z.eqb_spec stated (xor_checksum payload)); case_bool_decide; congruence.
Qed.

(** Trailing CR and LF are stripped; a hex digit is neither. *)
Lemma trim_eol_hex s up n eol :
  Forall (fun b => b = 13 \/ b = 10) eol -> 0 <= n < 256 ->
  trim_end_matches is_eol ((s ++ show_hex2 up n) ++ eol) = s ++ show_hex2 up n.
Proof.
  intros He Hn.
  assert (Hskip : forall l k, Forall (fun b => b = 13 \/ b = 10) l ->
    trim_start_matches is_eol (l ++ k) = trim_start_matches is_eol k).
  { intros l k H. induction H as [|x l Hx _ IH]; [done|]. simpl.
    assert (is_eol x = true) as -> by (by destruct Hx as [->| ->]). done. }
  transitivity (trim_end_matches is_eol (s ++ show_hex2 up n)).
  - unfold trim_end_matches. by rewrite rev_app_distr, Hskip by (by apply Forall_rev).
  - apply trim_end_id. intros c Hc. rewrite last_app in Hc. injection Hc as <-.
    pose proof (hex2_ascii up n Hn) as Hh. unfold show_hex2 in Hh.
    inversion Hh as [|? ? _ Hh2]; subst. inversion Hh2 as [|? ? Hx _]; subst.
    unfold is_eol. apply orb_false_iff. split; apply Z.eqb_neq; lia.
Qed.

Lemma head_split_Forall (P : Z -> Prop) sep s :
  Forall P s -> Forall P (default [] (head (split_on sep s))).
Proof.
  induction 1 as [|c s Hc _ IH]; [constructor|]. simpl. destruct (c =? sep); [constructor|].
  destruct (split_on sep s); simpl in *; by constructor.
Qed.

(** An ASCII header can be cut after two characters. *)
Lemma split_header_ascii header :
  Forall (fun c => 0 <= c < 128) header -> exists p, split_header header = Ok p.
Proof.
  intros Hh. unfold split_header. destruct (Z.leb_spec 5 (str_len header)) as [Hlen|]; [|eauto].
  unfold str_len in Hlen. rewrite utf8_ascii in Hlen by done.
  destruct header as [|a [|b k]]; [done|done|]. inversion Hh as [|? ? Ha Hh2]; subst.
  inversion Hh2 as [|? ? Hb _]; subst. cbn [split_at_byte Z.eqb].
  unfold utf8_char. rewrite (proj2 (Z.ltb_lt a 128)), (proj2 (Z.ltb_lt b 128)) by lia. simpl.
  destruct k; simpl; eauto.
Qed.
End Nmea.

(** The NMEA checksum is verified: an ASCII sentence [$payload*HH], with
    either hex case and any end of line, is decoded without error, its text is
    the sentence, and the record carries [checksum_mismatch] exactly when the
    stated value differs from the xor of the payload. *)
Theorem nmea_checksum up payload stated eol :
  Forall (fun c => 0 <= c < 128) payload -> Forall (fun b => b = 13 \/ b = 10) eol -> 0 <= stated < 256 ->
  let sentence := 36 :: payload ++ 42 :: show_hex2 up stated in
  exists f tg, Nmea.decode (sentence ++ eol) = Ok (Some (text_record sentence f tg)) /\
    (lit "checksum_mismatch" ∈ tg <-> stated <> Nmea.xor_checksum payload).
Proof.
  intros Hp He Hs sentence. unfold Nmea.decode.
  assert (Hasc : Forall (fun c => 0 <= c < 128) sentence).
  { constructor; [lia|]. apply Forall_app. split; [done|]. constructor; [lia|].
    eapply Forall_impl; [by apply Nmea.hex2_ascii|]. cbv beta. lia. }
  assert (trim_end_matches Nmea.is_eol (sentence ++ eol) = sentence) as ->.
  { assert (sentence = (36 :: payload ++ [42]) ++ show_hex2 up stated) as ->
      by (unfold sentence; simpl; by rewrite <- (assoc_L (++))).
    by apply Nmea.trim_eol_hex. }
  unfold sentence at 1 2. rewrite Nmea.split_checksum_stated by done.
  fold sentence. cbn [Z.eqb Pos.eqb orb]. rewrite !Nmea.lossy_ascii by done.
  destruct (Nmea.split_header_ascii (default [] (head (split_on 44 payload)))) as ([talker message] & ->);
    [by apply Nmea.head_split_Forall|]. cbn [mbind res_bind].
  eexists _, _. split; [reflexivity|]. destruct (Z.eqb_spec stated (Nmea.xor_checksum payload)) as [E|E].
  - split; [|done]. intros H. by apply not_elem_of_nil in H.
  - split; [done|]. intros _. by apply list_elem_of_singleton.
Qed.
Lemma nmea_checksum_witness :
  exists f tg, Nmea.decode ((36 :: lit "GPGLL,1,2" ++ 42 :: show_hex2 false 94) ++ [13; 10]) =
      Ok (Some (text_record (36 :: lit "GPGLL,1,2" ++ 42 :: show_hex2 false 94) f tg)) /\
    (lit "checksum_mismatch" ∈ tg <-> 94 <> Nmea.xor_checksum (lit "GPGLL,1,2")).
Proof.
  apply (nmea_checksum false (lit "GPGLL,1,2") 94 [13; 10]).
  - apply (bool_decide_unpack _). reflexivity.
  - repeat (apply Forall_cons; split; [auto|]). constructor.
  - lia.
Defined.

(** Finding: the NMEA decoder panics on bytes that are not UTF-8: a sentence whose
    header decodes to replacement characters is sliced inside one. *)
Theorem nmea_panics_on_binary rest :
  Forall (fun c => 0 <= c < 128 /\ c <> 42 /\ c <> 13 /\ c <> 10) rest ->
  Nmea.decode (36 :: 255 :: 255 :: rest) = Panic.
Proof.
  intros Hr. assert (Hasc : Forall (fun c => 0 <= c < 128) rest)
    by (eapply Forall_impl; [exact Hr|]; naive_solver).
  unfold Nmea.decode.
  assert (trim_end_matches Nmea.is_eol (36 :: 255 :: 255 :: rest) = 36 :: 255 :: 255 :: rest) as ->.
  { apply trim_end_id. intros c Hc. change (36 :: 255 :: 255 :: rest) with ([36; 255; 255] ++ rest) in Hc.
    rewrite last_app in Hc. destruct (last rest) as [x|] eqn:El; [|by injection Hc as <-]. injection Hc as <-.
    apply last_Some_elem_of in El. rewrite Forall_forall in Hr. apply Hr in El.
    unfold Nmea.is_eol. apply orb_false_iff. split; apply Z.eqb_neq; lia. }
  assert (rposition (Z.eqb 42) (36 :: 255 :: 255 :: rest) = None) as Hnone.
  { unfold rposition. rewrite (proj2 (position_None _ _)); [done|]. apply Forall_rev.
    repeat (apply Forall_cons; split; [done|]). eapply Forall_impl; [exact Hr|].
    intros c Hc. apply Z.eqb_neq. cbv beta in Hc. lia. }
  unfold Nmea.split_checksum. rewrite Hnone. cbn [Z.eqb Pos.eqb orb]. change (drop 1 (36 :: ?x)) with x.
  change (from_utf8_lossy (255 :: 255 :: rest)) with (0xFFFD :: 0xFFFD :: from_utf8_lossy rest).
  rewrite (Nmea.lossy_ascii rest) by done. cbn [split_on Z.eqb Pos.eqb].
  pose proof (split_on_nonempty 44 rest) as Hne. destruct (split_on 44 rest) as [|w ws]; [done|].
  cbn [head default from_option id]. unfold Nmea.split_header, str_len. rewrite !utf8_cons, !zlen_app.
  change (zlen (utf8_char 65533)) with 3. pose proof (zlen_nonneg (utf8 w)).
  destruct (Z.leb_spec 5 (3 + (3 + zlen (utf8 w)))); [|lia]. reflexivity.
Qed.
Lemma nmea_panics_on_binary_witness : Nmea.decode [36; 255; 255; 44; 65] = Panic.
Proof. apply (nmea_panics_on_binary [44; 65]). apply (bool_decide_unpack _). reflexivity. Defined.

(** ** decoder/json_lines.rs *)
Module JsonLines.
Section JsonLines.
  (** [serde_json::from_slice] and [Value]'s [Display]. *)
  Variable from_slice : list Z -> option Value.
  Variable value_to_string : Value -> list Z.

Definition parse_level (s : list Z) : option Level :=
  let l := to_ascii_lowercase s in
  if str_eqb l (lit "trace") then Some Trace
  else if str_eqb l (lit "debug") then Some Debug
  else if str_eqb l (lit "info") || str_eqb l (lit "information") then Some Info
  else if str_eqb l (lit "warn") || str_eqb l (lit "warning") then Some Warn
  else if str_eqb l (lit "error") || str_eqb l (lit "err") then Some Error
  else if str_eqb l (lit "fatal") || str_eqb l (lit "critical") || str_eqb l (lit "crit") then Some Fatal
  else None.

Abbreviation Obj := (list (list Z * Value)).
Fixpoint obj_get (k : list Z) (m : Obj) : option Value :=
  match m with [] => None | (k', v) :: m' => if bool_decide (k = k') then Some v else obj_get k m' end.
Fixpoint obj_remove (k : list Z) (m : Obj) : Obj :=
  match m with [] => [] | (k', v) :: m' => if bool_decide (k = k') then obj_remove k m' else (k', v) :: obj_remove k m' end.

Definition take_string (key : string) (obj : Obj) : option (list Z) * Obj :=
  match obj_get (lit key) obj with
  | None => (None, obj)
  | Some (VString s) => (Some s, obj_remove (lit key) obj)
  | Some other => (Some (value_to_string other), obj_remove (lit key) obj)
  end.
(** [take_string(a).or_else(|| take_string(b))]. *)
Definition or_take (r : option (list Z) * Obj) (key : string) : option (list Z) * Obj :=
  match fst r with Some _ => r | None => take_string key (snd r) end.

Definition take_tags (obj : Obj) : list (list Z) * Obj :=
  (match obj_get (lit "tags") obj with
   | Some (VArray a) => omap (fun v => match v with VString s => Some s | _ => None end) a
   | _ => []
   end, obj_remove (lit "tags") obj).

Definition trim_ws (bytes : list Z) : list Z :=
  let ns b := negb (is_ascii_whitespace b) in
  let start := default (length bytes) (position ns bytes) in
  let stop := match rposition ns bytes with Some p => (p + 1)%nat | None => start end in
  take (stop - start) (drop start bytes).

Definition lift_object (obj : Obj) : Record_ :=
  let '(lv, o1) := take_string "level" obj in
  let '(t, o2) := or_take (or_take (take_string "msg" o1) "message") "text" in
  let '(cid, o3) := take_string "correlation_id" o2 in
  let '(sid, o4) := take_string "schema_id" o3 in
  let '(tg, o5) := take_tags o4 in
  mkRecord sid (lv ≫= parse_level) t (VObject o5) tg cid.

Definition decode (frame : list Z) : option Record_ :=
  match trim_ws frame with
  | [] => None
  | trimmed =>
      Some match from_slice trimmed with
           | Some (VObject obj) => lift_object obj
           | Some other => mkRecord None None None other [] None
           | None => text_record (from_utf8_lossy frame) VNull [lit "json_parse_error"]
           end
  end.

(** ** What survives decoding *)
Definition lifted : list (list Z) :=
  [lit "level"; lit "msg"; lit "message"; lit "text"; lit "correlation_id"; lit "schema_id"; lit "tags"].

Lemma obj_get_remove k k' m : k <> k' -> obj_get k (obj_remove k' m) = obj_get k m.
Proof.
  intros Hne. induction m as [|[q v] m IH]; simpl; [done|].
  case_bool_decide as E1; simpl; [subst; by rewrite bool_decide_false|]. by rewrite IH.
Qed.
Lemma obj_get_removed k m : obj_get k (obj_remove k m) = None.
Proof.
  induction m as [|[q v] m IH]; simpl; [done|]. case_bool_decide as E1; simpl; [done|].
  by rewrite bool_decide_false.
Qed.
Lemma take_string_other key obj k :
  k <> lit key -> obj_get k (snd (take_string key obj)) = obj_get k obj.
Proof.
  intros H. unfold take_string. destruct (obj_get (lit key) obj) as [v|]; [|done].
  by destruct v; apply obj_get_remove.
Qed.
Lemma or_take_other r key k : k <> lit key -> obj_get k (snd (or_take r key)) = obj_get k (snd r).
Proof. intros H. unfold or_take. destruct (fst r); [done|]. by apply take_string_other. Qed.

Lemma lift_object_keeps obj k :
  k ∉ lifted -> exists m, fields (lift_object obj) = VObject m /\ obj_get k m = obj_get k obj.
Proof.
  unfold lifted. rewrite !not_elem_of_cons. intros (H1 & H2 & H3 & H4 & H5 & H6 & H7 & _).
  unfold lift_object, take_tags.
  pose proof (take_string_other "level" obj k H1) as E1. destruct (take_string "level" obj) as [lv o1].
  pose proof (take_string_other "msg" o1 k H2) as E2. destruct (take_string "msg" o1) as [m1 om].
  pose proof (or_take_other (m1, om) "message" k H3) as E3. destruct (or_take (m1, om) "message") as [m2 om2].
  pose proof (or_take_other (m2, om2) "text" k H4) as E4. destruct (or_take (m2, om2) "text") as [t o2].
  pose proof (take_string_other "correlation_id" o2 k H5) as E5. destruct (take_string "correlation_id" o2) as [cid o3].
  pose proof (take_string_other "schema_id" o3 k H6) as E6. destruct (take_string "schema_id" o3) as [sid o4].
  cbn [snd] in *. eexists. split; [reflexivity|]. rewrite obj_get_remove by done. congruence.
Qed.
End JsonLines.
End JsonLines.

(** The JSON-lines decoder keeps data: every frame that is not blank gives
    a record; when it is not JSON the record's text is the whole frame, tagged;
    when it is an object every key that is not lifted keeps its value in
    [fields]. *)
Theorem json_lines_keeps from_slice show frame :
  JsonLines.trim_ws frame <> [] ->
  exists r, JsonLines.decode from_slice show frame = Some r /\
    (from_slice (JsonLines.trim_ws frame) = None ->
       text r = Some (from_utf8_lossy frame) /\ tags r = [lit "json_parse_error"]) /\
    (forall obj k, from_slice (JsonLines.trim_ws frame) = Some (VObject obj) -> k ∉ JsonLines.lifted ->
       exists m, fields r = VObject m /\ JsonLines.obj_get k m = JsonLines.obj_get k obj).
Proof.
  intros Hne. unfold JsonLines.decode. destruct (JsonLines.trim_ws frame) as [|b l] eqn:E; [done|].
  eexists. split; [reflexivity|]. split.
  - by intros ->.
  - intros obj k -> Hk. by apply JsonLines.lift_object_keeps.
Qed.
Lemma json_lines_keeps_witness :
  exists r, JsonLines.decode (fun _ => Some (VObject [(lit "a", VBool true); (lit "msg", VString [120])])) (fun _ => []) [123; 125] = Some r /\
    (Some (VObject [(lit "a", VBool true); (lit "msg", VString [120])]) = None ->
       text r = Some (from_utf8_lossy [123; 125]) /\ tags r = [lit "json_parse_error"]) /\
    (forall obj k, Some (VObject [(lit "a", VBool true); (lit "msg", VString [120])]) = Some (VObject obj) -> k ∉ JsonLines.lifted ->
       exists m, fields r = VObject m /\ JsonLines.obj_get k m = JsonLines.obj_get k obj).
Proof.
  apply (json_lines_keeps (fun _ => Some (VObject [(lit "a", VBool true); (lit "msg", VString [120])])) (fun _ => []) [123; 125]).
  discriminate.
Defined.

(** Finding: a [level] the decoder does not know is lost: it is taken out of the
    object, not recorded as a level, and kept nowhere else. *)
Theorem json_level_dropped from_slice show frame s :
  JsonLines.trim_ws frame <> [] -> JsonLines.parse_level s = None ->
  from_slice (JsonLines.trim_ws frame) = Some (VObject [(lit "level", VString s)]) ->
  JsonLines.decode from_slice show frame = Some (mkRecord None None None (VObject []) [] None).
Proof.
  intros Hne Hp Hf. unfold JsonLines.decode. destruct (JsonLines.trim_ws frame) as [|b l] eqn:E; [done|].
  rewrite Hf. unfold JsonLines.lift_object. simpl. by rewrite Hp.
Qed.
Lemma json_level_dropped_witness :
  JsonLines.decode (fun _ => Some (VObject [(lit "level", VString (lit "notice"))])) (fun _ => []) [123; 125] =
  Some (mkRecord None None None (VObject []) [] None).
Proof. apply (json_level_dropped _ _ _ (lit "notice")); [discriminate|reflexivity|reflexivity]. Defined.
