(* ===== verification/Codec.v ===== *)
(** * Text encodings: core/src/codec.rs

    The choice of an encoding by its label, decoding and encoding over the
    [encoding_rs] crate, which is an interface with the laws its documentation
    states: encoding names the encoding it really used, text without
    replacements is decoded back, and a byte-order mark overrides the label. *)
From stdpp Require Import base numbers strings gmap list.
From S2P Require Import Prelude Text Decoder.

Local Open Scope Z_scope.
Local Open Scope tm_scope.

(** [Encoding::for_label], [UTF_8], [decode] and [encode]: the result, the
    encoding that was used and whether something was replaced. *)
Class Encodings (E : Type) := {
  for_label : list Z -> option E;
  UTF_8 : E;
  enc_decode : E -> list Z -> list Z * E * bool;
  enc_encode : E -> list Z -> list Z * E * bool }.
Definition BOMS : list (list Z) := [[0xEF; 0xBB; 0xBF]; [0xFF; 0xFE]; [0xFE; 0xFF]].
Definition bom_free (b : list Z) : Prop := Forall (fun m => starts_with m b = false) BOMS.
Class EncodingLaws (E : Type) `{!Encodings E} : Prop := {
  decode_encoded e t b e' : enc_encode e t = (b, e', false) -> bom_free b -> enc_decode e' b = (t, e', false);
  encode_utf8 t : str_ok t -> enc_encode UTF_8 t = (utf8 t, UTF_8, false);
  decode_bom e b : enc_decode e ([0xEF; 0xBB; 0xBF] ++ b) = enc_decode UTF_8 ([0xEF; 0xBB; 0xBF] ++ b) }.

Section Codec.
  Context {E : Type} `{!Encodings E}.
Definition encoding_for_label (label : list Z) : E := default UTF_8 (for_label label).
Definition codec_decode (bytes label : list Z) : list Z * bool :=
  let enc := encoding_for_label label in
  let '(cow, _, had_errors) := enc_decode enc bytes in (cow, had_errors).
Definition encode_text (text label : list Z) : list Z * bool :=
  let enc := encoding_for_label label in
  let '(cow, _, had_errors) := enc_encode enc text in (cow, had_errors).

Context `{!EncodingLaws E}.
(** The label's encoding is one that text can be written in. *)
Definition writes_itself (label : list Z) : Prop :=
  forall t, snd (fst (enc_encode (encoding_for_label label) t)) = encoding_for_label label.
(** What is sent as text in an encoding is logged as that text by a source with
    the same encoding: without replacements or a byte-order mark in front. *)
Theorem sent_text_decodes label t b :
  writes_itself label -> encode_text t label = (b, false) -> bom_free b -> b <> [] ->
  utf8_text_decode codec_decode label b = Some (text_record t VNull []).
Proof using EncodingLaws0.
  intros Hw. unfold encode_text. specialize (Hw t). destruct (enc_encode (encoding_for_label label) t) as [[c e'] h] eqn:Ee.
  cbn [fst snd] in Hw. subst e'. intros [= -> ->] Hb Hne. unfold utf8_text_decode, codec_decode.
  destruct b as [|x b]; [done|]. by rewrite (decode_encoded _ _ _ _ Ee Hb).
Qed.
(** A label nobody knows is UTF-8. *)
Theorem unknown_label_utf8 label t : for_label label = None -> str_ok t -> encode_text t label = (utf8 t, false).
Proof using EncodingLaws0. intros Hn Ht. unfold encode_text, encoding_for_label. rewrite Hn. cbn [default from_option id]. by rewrite encode_utf8. Qed.
(** Finding: a UTF-8 byte-order mark in front of the bytes beats the configured
    encoding, whatever it is. *)
Theorem bom_beats_label label label' b :
  codec_decode ([0xEF; 0xBB; 0xBF] ++ b) label = codec_decode ([0xEF; 0xBB; 0xBF] ++ b) label'.
Proof using EncodingLaws0. unfold codec_decode. by rewrite (decode_bom (encoding_for_label label)), (decode_bom (encoding_for_label label')). Qed.
End Codec.

(** A library with UTF-8 alone obeys the laws. *)
Module Utf8Only.
Definition strip_bom (b : list Z) : list Z := default b (strip_prefix [0xEF; 0xBB; 0xBF] b).
Definition scalar (c : Z) : Z := if scalar_ok c then c else replacement.
#[export] Instance utf8_encodings : Encodings unit := {|
  for_label _ := None; UTF_8 := tt;
  enc_decode _ b := (from_utf8_lossy (strip_bom b), tt, negb (bool_decide (utf8 (from_utf8_lossy (strip_bom b)) = strip_bom b)));
  enc_encode _ t := (utf8 (map scalar t), tt, negb (forallb scalar_ok t)) |}.
Lemma scalar_id t : forallb scalar_ok t = true -> map scalar t = t /\ str_ok t.
Proof.
  induction t as [|c t IH]; [by split; [|constructor]|]. cbn. intros [Hc Ht]%andb_true_iff. destruct (IH Ht) as [-> Hok].
  unfold scalar. rewrite Hc. split; [done|by constructor].
Qed.
#[export] Instance utf8_laws : EncodingLaws unit.
Proof.
  split; cbn [enc_decode enc_encode utf8_encodings UTF_8].
  - intros e t b e' H Hb. assert (Hf : forallb scalar_ok t = true) by (injection H as _ _ H; by destruct (forallb scalar_ok t)).
    destruct (scalar_id t Hf) as [Hm Hok]. rewrite Hm, Hf in H. injection H as <- <-.
    assert (strip_bom (utf8 t) = utf8 t) as ->.
    { unfold strip_bom. apply Forall_cons in Hb as [Hb _]. unfold starts_with in Hb. by destruct (strip_prefix _ (utf8 t)). }
    rewrite lossy_utf8 by done. by rewrite bool_decide_eq_true_2.
  - intros t Ht. assert (Hf : forallb scalar_ok t = true) by by apply forallb_forall; intros x Hx; apply (proj1 (List.Forall_forall _ _) Ht).
    destruct (scalar_id t Hf) as [-> _]. by rewrite Hf.
  - done.
Qed.
Example greeting : codec_decode (fst (encode_text [104; 0x3042] (lit "x"))) (lit "x") = ([104; 0x3042], false) /\
  codec_decode (fst (encode_text [0xFEFF; 104] (lit "x"))) (lit "x") = ([104], false).
Proof. vm_compute. repeat split. Qed.
End Utf8Only.
