(* ===== verification/Clock.v ===== *)
(** * Timestamps and clock reconciliation

    crates/core/src/time: the dual timestamp and its two sources, the
    Cristian-style offset estimate, and the per-node clock table with its
    JSON-lines file ([serde_json] is a parameter). *)
From stdpp Require Import base numbers strings gmap list.
From S2P Require Import Prelude Text.

Local Open Scope Z_scope.
Local Open Scope tm_scope.

(** ** time/mod.rs *)
Inductive ClockQuality := QSynced | QBestEffort | QUnknown | QImported.
Inductive ClockSource := CSystem | CNtp | CPtp | CMonotonic | CImported.

(** [drift_ppm] is carried as the bits of an [f32]; nothing computes with it. *)
Record DualTimestamp := mkTs {
  ts_origin_ns : Z; ts_ingest_ns : Z; mono_ns : Z; boot_id : Z; node_id : Z;
  clock_offset_ms : Z; clock_quality : ClockQuality; drift_ppm : Z; clock_source : ClockSource }.

(** [unix_ns_now] from the nanoseconds the OS clock reports, which are zero
    before the epoch. *)
Definition unix_ns_now (os_ns : Z) : Z := default i64_max (try_from 0 i64_max (Z.max 0 os_ns)).

(** ** time/system.rs and time/monotonic.rs: a reading of the clocks is the
    wall clock and the nanoseconds since construction *)
Record SystemTimeSource := mkSystem { sys_boot : Z; sys_node : Z; last_offset_ms : Z }.
Definition sys_mono (elapsed : Z) : Z := default u64_max (try_from 0 u64_max elapsed).
Definition sys_stamp_origin (s : SystemTimeSource) (os_ns elapsed : Z) : DualTimestamp :=
  mkTs (unix_ns_now os_ns) (unix_ns_now os_ns) (sys_mono elapsed) (sys_boot s) (sys_node s)
       0 QBestEffort 0 CSystem.
Definition sys_stamp_ingest (s : SystemTimeSource) (os_ns elapsed : Z) (o : DualTimestamp) : DualTimestamp :=
  mkTs (ts_origin_ns o) (unix_ns_now os_ns) (sys_mono elapsed) (sys_boot s) (node_id o)
       (last_offset_ms s) (clock_quality o) (drift_ppm o) (clock_source o).

Record MonotonicTimeSource := mkMono { mono_boot : Z; mono_node : Z }.
Definition mono_stamp_origin (s : MonotonicTimeSource) (elapsed : Z) : DualTimestamp :=
  mkTs 0 0 (sys_mono elapsed) (mono_boot s) (mono_node s) 0 QUnknown 0 CMonotonic.
Definition mono_stamp_ingest (s : MonotonicTimeSource) (elapsed : Z) (o : DualTimestamp) : DualTimestamp :=
  mkTs (ts_origin_ns o) (ts_ingest_ns o) (sys_mono elapsed) (mono_boot s) (node_id o)
       (clock_offset_ms o) (clock_quality o) (drift_ppm o) (clock_source o).

(** ** time/clock_sync.rs *)
Definition i64_checked (z : Z) : result Z := checked i64_min i64_max z.
(** [i64::midpoint] rounds toward zero, as does [/]. *)
Definition midpoint (a b : Z) : Z := Z.quot (a + b) 2.

Definition estimate_offset_rtt_ms (t1 t2 t3 t4 : Z) : result (Z * Z) :=
  let* d21 := i64_checked (t2 - t1) in
  let* d34 := i64_checked (t3 - t4) in
  let offset_nanos := midpoint d21 d34 in
  let* d41 := i64_checked (t4 - t1) in
  let* d32 := i64_checked (t3 - t2) in
  let* rtt_nanos := i64_checked (d41 - d32) in
  let offset := default i32_max (try_from i32_min i32_max (Z.quot offset_nanos 1000000)) in
  let rtt := default u32_max (try_from 0 u32_max (Z.quot (Z.max rtt_nanos 0) 1000000)) in
  Ok (offset, rtt).

(** An exchange between a client and a server whose clock is [skew] ahead:
    [up] and [down] are the network delays, [busy] the time on the server. *)
Record exchange := mkExchange { start : Z; skew : Z; up : Z; busy : Z; down : Z }.
Definition t2_of (x : exchange) : Z := start x + up x + skew x.
Definition t3_of (x : exchange) : Z := t2_of x + busy x.
Definition t4_of (x : exchange) : Z := start x + up x + busy x + down x.

Lemma quot_error a n : 0 < n -> Z.abs (Z.quot a n * n - a) < n.
Proof.
  intros Hn. pose proof (Z.quot_rem a n ltac:(lia)). pose proof (Z.rem_bound_abs a n ltac:(lia)).
  rewrite Z.abs_lt in *. lia.
Qed.

Lemma estimate_ok t1 t2 t3 t4 :
  i64_min <= t2 - t1 <= i64_max -> i64_min <= t3 - t4 <= i64_max -> i64_min <= t4 - t1 <= i64_max ->
  i64_min <= t3 - t2 <= i64_max -> i64_min <= t4 - t1 - (t3 - t2) <= i64_max ->
  estimate_offset_rtt_ms t1 t2 t3 t4 =
  Ok (default i32_max (try_from i32_min i32_max (Z.quot (midpoint (t2 - t1) (t3 - t4)) 1000000)),
      default u32_max (try_from 0 u32_max (Z.quot (Z.max (t4 - t1 - (t3 - t2)) 0) 1000000))).
Proof.
  intros. unfold estimate_offset_rtt_ms, i64_checked. rewrite checked_ok by done. cbn [mbind res_bind].
  rewrite checked_ok by done. cbn [mbind res_bind]. rewrite checked_ok by done. cbn [mbind res_bind].
  rewrite checked_ok by done. cbn [mbind res_bind]. rewrite checked_ok by done. reflexivity.
Qed.

(** The clock estimate is right up to network asymmetry: for an exchange
    with non-negative delays (and times that stay in range), the round trip is
    the sum of the two delays in whole milliseconds, and the offset differs
    from the true skew by less than half the difference of the delays plus two
    milliseconds of rounding; the offset is the server's lead over the client. *)
Theorem clock_estimate_accurate x :
  0 <= up x -> 0 <= busy x -> 0 <= down x -> up x + busy x + down x <= 2 ^ 40 ->
  Z.abs (skew x) <= 2 ^ 50 ->
  exists offset rtt,
    estimate_offset_rtt_ms (start x) (t2_of x) (t3_of x) (t4_of x) = Ok (offset, rtt) /\
    rtt = (up x + down x) / 1000000 /\
    2 * Z.abs (offset * 1000000 - skew x) <= Z.abs (up x - down x) + 2 * 1000000 + 2.
Proof.
  intros Hu Hb Hd Hs Hk. unfold t3_of, t4_of, t2_of in *.
  rewrite estimate_ok by (unfold i64_min, i64_max; lia).
  replace (start x + up x + busy x + down x - start x - (start x + up x + skew x + busy x - (start x + up x + skew x)))
    with (up x + down x) by lia.
  unfold midpoint.
  replace (start x + up x + skew x - start x + (start x + up x + skew x + busy x - (start x + up x + busy x + down x)))
    with (2 * skew x + (up x - down x)) by lia.
  set (m := Z.quot (2 * skew x + (up x - down x)) 2).
  pose proof (quot_error (2 * skew x + (up x - down x)) 2 ltac:(lia)) as E1. fold m in E1.
  pose proof (quot_error m 1000000 ltac:(lia)) as E2. set (o := Z.quot m 1000000) in *.
  assert (try_from i32_min i32_max o = Some o) as -> by (apply try_from_Some; unfold i32_min, i32_max; lia).
  assert (Z.quot (Z.max (up x + down x) 0) 1000000 = (up x + down x) / 1000000) as ->
    by (rewrite Z.max_l, Z.quot_div_nonneg by lia; done).
  assert (0 <= (up x + down x) / 1000000 <= u32_max).
  { split; [apply Z.div_pos; lia|]. transitivity (2 ^ 40 / 1000000); [apply Z.div_le_mono; lia|].
    vm_compute. discriminate. }
  assert (try_from 0 u32_max ((up x + down x) / 1000000) = Some ((up x + down x) / 1000000)) as ->
    by (by apply try_from_Some).
  exists o, ((up x + down x) / 1000000). split; [done|]. split; [done|]. lia.
Qed.
Definition exchange0 : exchange := mkExchange 1000 (-100000000) 10000000 5000000 12000000.
Lemma clock_estimate_accurate_witness :
  exists offset rtt,
    estimate_offset_rtt_ms (start exchange0) (t2_of exchange0) (t3_of exchange0) (t4_of exchange0) = Ok (offset, rtt) /\
    rtt = (up exchange0 + down exchange0) / 1000000 /\
    2 * Z.abs (offset * 1000000 - skew exchange0) <= Z.abs (up exchange0 - down exchange0) + 2 * 1000000 + 2.
Proof. apply clock_estimate_accurate; vm_compute; discriminate. Defined.

(** Finding: a skew below the range of [i32] milliseconds is reported as the largest
    positive offset: the fallback ignores the sign. *)
Theorem clock_estimate_wrong_sign t1 t2 :
  i64_min <= t2 - t1 <= i64_max -> i64_min <= t1 - t2 -> t2 - t1 <= (i32_min - 1) * 1000000 ->
  estimate_offset_rtt_ms t1 t2 t2 t1 = Ok (i32_max, 0).
Proof.
  intros H1 H2 H3. rewrite estimate_ok by (unfold i64_min, i64_max, i32_min in *; lia). unfold midpoint.
  replace (t2 - t1 + (t2 - t1)) with ((t2 - t1) * 2) by lia. rewrite Z.quot_mul by lia.
  replace (t1 - t1 - (t2 - t2)) with 0 by lia. f_equal. f_equal.
  assert (try_from i32_min i32_max (Z.quot (t2 - t1) 1000000) = None) as ->; [|done].
  unfold try_from. destruct (in_range _ _ _) eqn:E; [|done]. apply in_range_spec in E.
  pose proof (Z.quot_le_mono (t2 - t1) ((i32_min - 1) * 1000000) 1000000 ltac:(lia) H3) as Hq.
  rewrite Z.quot_mul in Hq by lia. lia.
Qed.
Lemma clock_estimate_wrong_sign_witness :
  estimate_offset_rtt_ms 3000000000000000 0 0 3000000000000000 = Ok (i32_max, 0).
Proof.
  apply clock_estimate_wrong_sign; [vm_compute; split; discriminate|vm_compute; discriminate|vm_compute; discriminate].
Defined.

(** ** time/node_clock_table.rs *)
Module ClockTable.
Record ClockTableEntry := mkEntry {
  ts : list Z; node : Z; rtt_ms : Z; offset_ms : Z; drift : Z; quality : ClockQuality }.
Abbreviation NodeClockTable := (gmap Z ClockTableEntry).

Definition upsert (t : NodeClockTable) (e : ClockTableEntry) : NodeClockTable * option ClockTableEntry :=
  (<[node e := e]> t, t !! node e).
Definition best_offset_ms (t : NodeClockTable) (n : Z) : Z :=
  match t !! n with Some e => offset_ms e | None => 0 end.
Definition snapshot (t : NodeClockTable) : list ClockTableEntry := map snd (map_to_list t).

Section Jsonl.
  (** [serde_json] on one row. *)
  Variable to_string : ClockTableEntry -> list Z.
  Variable from_str : list Z -> option ClockTableEntry.

Definition append_jsonl (file : list Z) (e : ClockTableEntry) : list Z := file ++ to_string e ++ [10].

Fixpoint load_lines (ls : list (list Z)) (t : NodeClockTable) (skipped : Z) : NodeClockTable * Z :=
  match ls with
  | [] => (t, skipped)
  | line :: ls' =>
      match trim line with
      | [] => load_lines ls' t skipped
      | _ =>
          match from_str line with
          | Some e => load_lines ls' (fst (upsert t e)) skipped
          | None => load_lines ls' t (skipped + 1)
          end
      end
  end.
Definition load_jsonl (file : list Z) : NodeClockTable * Z := load_lines (buf_lines file) ∅ 0.

(** Documented behaviour of [serde_json::to_string]: one line, not blank, read
    back by [from_str]. *)
Hypothesis serde_round_trip : forall e, from_str (to_string e) = Some e.
Hypothesis serde_one_line : forall e,
  Forall (fun c => c <> 10 /\ c <> 13) (to_string e) /\ trim (to_string e) <> [].

Definition upsert_all (es : list ClockTableEntry) (t : NodeClockTable) : NodeClockTable :=
  fold_left (fun t e => fst (upsert t e)) es t.

Lemma load_lines_rows es : forall t,
  load_lines (map to_string es) t 0 = (upsert_all es t, 0).
Proof.
  induction es as [|e es IH]; intros t; simpl; [done|]. destruct (serde_one_line e) as [_ Hne].
  destruct (trim (to_string e)) eqn:E; [done|]. by rewrite serde_round_trip, IH.
Qed.
Lemma append_all_concat es : forall f,
  fold_left append_jsonl es f = f ++ concat (map (fun l => l ++ [10]) (map to_string es)).
Proof.
  induction es as [|e es IH]; intros f; simpl; [by rewrite app_nil_r|].
  rewrite IH. unfold append_jsonl. by rewrite <- !(assoc_L (++)).
Qed.
Lemma table_reload es : load_jsonl (fold_left append_jsonl es []) = (upsert_all es ∅, 0).
Proof.
  unfold load_jsonl. rewrite append_all_concat. simpl. rewrite buf_lines_concat; [apply load_lines_rows|].
  apply Forall_map, Forall_true. intros e. apply serde_one_line.
Qed.
End Jsonl.

(** The table keeps the newest entry of each node. *)
Lemma upsert_all_lookup es n : forall t,
  upsert_all es t !! n =
  match last (List.filter (fun e => node e =? n) es) with Some e => Some e | None => t !! n end.
Proof.
  induction es as [|e es IH]; intros t; simpl; [done|]. unfold upsert_all in *. rewrite IH.
  destruct (Z.eqb_spec (node e) n) as [E|E].
  - rewrite last_cons. destruct (last _); [done|]. subst. by rewrite lookup_insert_eq.
  - destruct (last _); [done|]. by rewrite lookup_insert_ne.
Qed.
End ClockTable.

(** The persisted clock table reloads: after any rows are appended to an
    empty file, loading it skips nothing and reports for each node the offset
    of its newest row, zero when it has none. *)
Theorem clock_table_reload to_string from_str es n
    (serde_round_trip : forall e, from_str (to_string e) = Some e)
    (serde_one_line : forall e, Forall (fun c => c <> 10 /\ c <> 13) (to_string e) /\ trim (to_string e) <> []) :
  let '(t, skipped) := ClockTable.load_jsonl from_str (fold_left (ClockTable.append_jsonl to_string) es []) in
  skipped = 0 /\
  ClockTable.best_offset_ms t n =
    match last (List.filter (fun e => ClockTable.node e =? n) es) with
    | Some e => ClockTable.offset_ms e | None => 0 end.
Proof.
  rewrite ClockTable.table_reload by done. split; [done|]. unfold ClockTable.best_offset_ms.
  rewrite ClockTable.upsert_all_lookup. by destruct (last _).
Qed.

(** A stand-in row codec: the row's number in decimal. *)
#[global] Instance ClockQuality_eq_dec : EqDecision ClockQuality.
Proof. solve_decision. Defined.
#[global] Instance ClockQuality_countable : Countable ClockQuality.
Proof.
  refine (inj_countable'
    (fun q => match q with QSynced => 0 | QBestEffort => 1 | QUnknown => 2 | QImported => 3 end)
    (fun n => if n =? 0 then QSynced else if n =? 1 then QBestEffort else if n =? 2 then QUnknown else QImported) _).
  by intros [].
Defined.
#[global] Instance ClockTableEntry_eq_dec : EqDecision ClockTable.ClockTableEntry.
Proof. solve_decision. Defined.
#[global] Instance ClockTableEntry_countable : Countable ClockTable.ClockTableEntry.
Proof.
  refine (inj_countable'
    (fun e => (ClockTable.ts e, ClockTable.node e, ClockTable.rtt_ms e, ClockTable.offset_ms e,
               ClockTable.drift e, ClockTable.quality e))
    (fun p => let '(a, b, c, d, e, f) := p in ClockTable.mkEntry a b c d e f) _).
  by intros [].
Defined.
Definition row_text (e : ClockTable.ClockTableEntry) : list Z := show_nat (Z.pos (encode e)).
Definition row_parse (s : list Z) : option ClockTable.ClockTableEntry :=
  match parse_digits 10 0 s with Some (Z.pos p) => decode p | _ => None end.

Lemma row_round_trip e : row_parse (row_text e) = Some e.
Proof. unfold row_parse, row_text. rewrite show_nat_parse by lia. apply decode_encode. Qed.
Lemma row_one_line e :
  Forall (fun c => c <> 10 /\ c <> 13) (row_text e) /\ trim (row_text e) <> [].
Proof.
  pose proof (show_nat_digits (Z.pos (encode e)) ltac:(lia)) as HF. fold (row_text e) in HF. split.
  - eapply Forall_impl; [exact HF|]. intros c Hc. unfold is_digit in Hc. apply in_range_spec in Hc. lia.
  - unfold trim. rewrite trim_matches_id; [apply show_nat_nonempty| |].
    + intros c k E. rewrite E in HF. inversion HF as [|? ? Hc _]; subst. unfold is_digit in Hc.
      apply in_range_spec in Hc. unfold is_whitespace, in_range. by decide_ranges.
    + intros c E. apply last_Some_elem_of in E. rewrite Forall_forall in HF. apply HF in E.
      unfold is_digit in E. apply in_range_spec in E. unfold is_whitespace, in_range. by decide_ranges.
Qed.

Definition rows0 : list ClockTable.ClockTableEntry :=
  [ClockTable.mkEntry [] 1 5 7 0 QSynced; ClockTable.mkEntry [] 2 5 (-3) 0 QUnknown; ClockTable.mkEntry [] 1 4 9 0 QSynced].
Lemma clock_table_reload_witness :
  let '(t, skipped) := ClockTable.load_jsonl row_parse (fold_left (ClockTable.append_jsonl row_text) rows0 []) in
  skipped = 0 /\
  ClockTable.best_offset_ms t 1 =
    match last (List.filter (fun e => ClockTable.node e =? 1) rows0) with
    | Some e => ClockTable.offset_ms e | None => 0 end.
Proof.
  apply (clock_table_reload row_text row_parse rows0 1).
  - exact row_round_trip.
  - exact row_one_line.
Defined.
