(* ===== verification/SessionDir.v ===== *)
(** * The session directory and its log sinks

    [raw.bin] (crates/core/src/log/raw.rs), the index, line and frame rows
    (index.rs, lines.rs, frames.rs), the file sink that writes them
    (crates/core/src/logsink/file.rs) and the fan-out over several sinks
    (crates/core/src/logsink/fanout.rs).  A buffered writer is what is on disk
    and what is still in its buffer; rows are kept as values, their JSON text
    and the RFC 3339 rendering being parameters. *)
From stdpp Require Import base numbers strings list.
From S2P Require Import Prelude Text Decoder Clock.

Local Open Scope Z_scope.
Local Open Scope tm_scope.

(** ** Buffered append-only files *)
Record Writer (A : Type) := mkWriter { disk : list A; buffered : list A }.
Arguments mkWriter {A}. Arguments disk {A}. Arguments buffered {A}.

(** [write_all] into the buffer; [spill] buffered items reach the disk early. *)
Definition w_append {A} (spill : nat) (w : Writer A) (xs : list A) : Writer A :=
  mkWriter (disk w ++ take spill (buffered w ++ xs)) (drop spill (buffered w ++ xs)).
(** [flush]; a failure may have written the first [k] items. *)
Definition w_flush {A} (fail : option nat) (w : Writer A) : Writer A * bool :=
  match fail with
  | None => (mkWriter (disk w ++ buffered w) [], true)
  | Some k => (mkWriter (disk w ++ take k (buffered w)) (drop k (buffered w)), false)
  end.
Definition stream {A} (w : Writer A) : list A := disk w ++ buffered w.

Lemma stream_append {A} n (w : Writer A) xs : stream (w_append n w xs) = stream w ++ xs.
Proof. unfold stream, w_append. simpl. by rewrite <- !(assoc_L (++)), take_drop. Qed.
Lemma stream_flush {A} f (w : Writer A) : stream (fst (w_flush f w)) = stream w.
Proof. destruct f; unfold stream; simpl; [by rewrite <- (assoc_L (++)), take_drop|by rewrite app_nil_r]. Qed.
Lemma disk_append {A} n (w : Writer A) xs : disk w `prefix_of` disk (w_append n w xs).
Proof. by apply prefix_app_r. Qed.
Lemma disk_flush {A} f (w : Writer A) : disk w `prefix_of` disk (fst (w_flush f w)).
Proof. by destruct f; apply prefix_app_r. Qed.

(** ** log/raw.rs *)
Record RawWriter := mkRaw { inner : Writer Z; pos : Z }.
Definition raw_create (existing : list Z) : RawWriter := mkRaw (mkWriter existing []) (zlen existing).

(** [append]; [short] is a write error after that many bytes. *)
Definition raw_append (spill : nat) (short : option nat) (w : RawWriter) (data : list Z)
  : RawWriter * result (Z * Z) :=
  match short with
  | Some k => (mkRaw (w_append spill (inner w) (take k data)) (pos w), Err E1001PipelineGeneric)
  | None =>
      let w1 := w_append spill (inner w) data in
      let off := pos w in
      let len := default u32_max (try_from 0 u32_max (zlen data)) in
      match @checked ErrorId 0 u64_max (pos w + zlen data) with
      | Ok p => (mkRaw w1 p, Ok (off, len))
      | _ => (mkRaw w1 (pos w), Panic)
      end
  end.

(** [RawReader::read_at] on the bytes of the file. *)
Definition read_at (file : list Z) (off len : Z) : result (list Z) :=
  if off + len <=? zlen file then Ok (take (Z.to_nat len) (drop (Z.to_nat off) file))
  else if len =? 0 then Ok []
  else Err E1001PipelineGeneric.

(** ** log/index.rs, log/lines.rs, log/frames.rs *)
Inductive Dir := In | Out.
Inductive Kind := KBytes | KDatagram | KFrame | KRecord.
Record IndexEntry := mkIndex {
  ts_origin : list Z; ts_ingest : list Z; e_mono_ns : Z; e_boot_id : Z; e_node_id : Z;
  e_clock_offset_ms : Z; e_clock_quality : ClockQuality; e_drift_ppm : Z; e_clock_source : ClockSource;
  e_sid : Z; dir : Dir; kind : Kind; off : Z; len : Z;
  e_level : option (list Z); e_tags : list (list Z); e_correlation_id : option (list Z);
  e_source : option (list Z); e_host : option (list Z); e_schema_id : option (list Z) }.
Record LineEntry := mkLine {
  l_ts : list Z; l_level : option (list Z); l_text : list Z;
  l_correlation_id : option (list Z); l_tags : list (list Z) }.
Record FrameEntry := mkFrame { f_ts : list Z; f_decoder : list Z; f_record : Record_ }.

(** A row is written with [serde_json::to_writer] and then its newline: when that
    fails, nothing, a part of the row or all but the newline was written.  A part
    of a row makes the end of the file unreadable; no caller appends to a writer
    after an append to it failed. *)
Inductive RowFault := RowLost | RowTorn | RowNoNewline.
Definition row_append {A : Type} (spill : nat) (fail : option RowFault) (w : Writer A) (torn : bool) (row : A)
  : Writer A * bool * result unit :=
  match fail with
  | None => (w_append spill w [row], torn, Ok tt)
  | Some RowLost => (w, torn, Err E1001PipelineGeneric)
  | Some RowTorn => (w, true, Err E1001PipelineGeneric)
  | Some RowNoNewline => (w_append spill w [row], torn, Err E1001PipelineGeneric)
  end.
(** The lines of a file whose last row may have been written in part. *)
Definition lines_of {A : Type} (w : Writer A) (torn : bool) : list (option (option A)) :=
  map (fun r => Some (Some r)) (disk w) ++ (if torn then [Some None] else []).

Definition level_token (l : Level) : list Z :=
  lit match l with
      | Trace => "trace" | Debug => "debug" | Info => "info" | Warn => "warn"
      | Error => "error" | Fatal => "fatal"
      end.

Section Sink.
  (** The RFC 3339 text of an instant, when [time] can render it. *)
  Variable rfc3339 : Z -> option (list Z).

Definition format_rfc3339_ns (ns : Z) : list Z := default (lit "1970-01-01T00:00:00Z") (rfc3339 ns).

Definition from_envelope (t : DualTimestamp) (sid : Z) (d : Dir) (k : Kind) (o l : Z) : IndexEntry :=
  mkIndex (format_rfc3339_ns (ts_origin_ns t)) (format_rfc3339_ns (ts_ingest_ns t)) (mono_ns t)
    (boot_id t) (node_id t) (clock_offset_ms t) (clock_quality t) (drift_ppm t) (clock_source t)
    sid d k o l None [] None None None None.

Definition with_labels (src host : option (list Z)) (e : IndexEntry) : IndexEntry :=
  mkIndex (ts_origin e) (ts_ingest e) (e_mono_ns e) (e_boot_id e) (e_node_id e) (e_clock_offset_ms e)
    (e_clock_quality e) (e_drift_ppm e) (e_clock_source e) (e_sid e) (dir e) (kind e) (off e) (len e)
    (e_level e) (e_tags e) (e_correlation_id e) src host (e_schema_id e).

(** ** logsink/file.rs *)
Record FileLogSink := mkSink {
  s_sid : Z; s_source : option (list Z); s_host : option (list Z); s_decoder : list Z;
  raw : RawWriter; index : Writer IndexEntry; lines : Writer LineEntry; frames : Writer FrameEntry;
  closed : bool; index_torn : bool; lines_torn : bool; frames_torn : bool }.

(** [create_with_labels] on a directory whose files already hold something. *)
Definition sink_create (sid : Z) (src host : option (list Z)) (decoder : list Z)
    (raw0 : list Z) (idx0 : list IndexEntry) (ln0 : list LineEntry) (fr0 : list FrameEntry) : FileLogSink :=
  mkSink sid src host decoder (raw_create raw0) (mkWriter idx0 []) (mkWriter ln0 []) (mkWriter fr0 []) false false false false.

(** Where an [append_raw] meets an I/O error, and how much was written. *)
Inductive fault :=
| NoFault
| RawShort (k : nat)
| RawFlush (k : nat)
| IndexRow (f : RowFault)
| IndexFlush (k : nat).

Definition set_raw (s : FileLogSink) (r : RawWriter) : FileLogSink :=
  mkSink (s_sid s) (s_source s) (s_host s) (s_decoder s) r (index s) (lines s) (frames s) (closed s)
    (index_torn s) (lines_torn s) (frames_torn s).
Definition set_index (s : FileLogSink) (i : Writer IndexEntry) (torn : bool) : FileLogSink :=
  mkSink (s_sid s) (s_source s) (s_host s) (s_decoder s) (raw s) i (lines s) (frames s) (closed s)
    torn (lines_torn s) (frames_torn s).
Definition set_lines (s : FileLogSink) (l : Writer LineEntry) (torn : bool) : FileLogSink :=
  mkSink (s_sid s) (s_source s) (s_host s) (s_decoder s) (raw s) (index s) l (frames s) (closed s)
    (index_torn s) torn (frames_torn s).
Definition set_frames (s : FileLogSink) (f : Writer FrameEntry) (torn : bool) : FileLogSink :=
  mkSink (s_sid s) (s_source s) (s_host s) (s_decoder s) (raw s) (index s) (lines s) f (closed s)
    (index_torn s) (lines_torn s) torn.

Definition append_raw (f : fault) (spill : nat) (s : FileLogSink) (t : DualTimestamp) (d : Dir) (data : list Z)
  : FileLogSink * result unit :=
  let '(r1, res) := raw_append spill (match f with RawShort k => Some k | _ => None end) (raw s) data in
  let s1 := set_raw s r1 in
  match res with
  | Err e => (s1, Err e)
  | Panic => (s1, Panic)
  | Ok (o, l) =>
      let '(w2, ok2) := w_flush (match f with RawFlush k => Some k | _ => None end) (inner r1) in
      let s2 := set_raw s1 (mkRaw w2 (pos r1)) in
      if negb ok2 then (s2, Err E1001PipelineGeneric) else
      let entry := with_labels (s_source s) (s_host s) (from_envelope t (s_sid s) d KBytes o l) in
      let '(i3, torn, r3) := row_append 0 (match f with IndexRow x => Some x | _ => None end) (index s2) (index_torn s2) entry in
      match r3 with
      | Ok _ =>
          let '(i4, ok4) := w_flush (match f with IndexFlush k => Some k | _ => None end) i3 in
          (set_index s2 i4 torn, if ok4 then Ok tt else Err E1001PipelineGeneric)
      | e => (set_index s2 i3 torn, e)
      end
  end.

(** A row appended and flushed, as lines and frames are. *)
Record RowIo := mkRowIo { row_spill : nat; row_fail : option RowFault; row_flush : option nat }.
Definition row_fine : RowIo := mkRowIo 0 None None.
Definition append_flush {A : Type} (io : RowIo) (w : Writer A) (torn : bool) (row : A) : Writer A * bool * result unit :=
  let '(w1, t1, r) := row_append (row_spill io) (row_fail io) w torn row in
  match r with
  | Ok _ => let '(w2, ok) := w_flush (row_flush io) w1 in (w2, t1, if ok then Ok tt else Err E1001PipelineGeneric)
  | e => (w1, t1, e)
  end.
Definition append_record (iol iof : RowIo) (s : FileLogSink) (t : DualTimestamp) (r : Record_) : FileLogSink * result unit :=
  let ts := format_rfc3339_ns (ts_ingest_ns t) in
  let '(s1, r1) :=
    match text r with
    | Some x =>
        let '(l, torn, rl) := append_flush iol (lines s) (lines_torn s)
                                (mkLine ts (level_token <$> level r) x (correlation_id r) (tags r)) in
        (set_lines s l torn, rl)
    | None => (s, Ok tt)
    end in
  match r1 with
  | Ok _ =>
      let '(f, torn, rf) := append_flush iof (frames s1) (frames_torn s1) (mkFrame ts (s_decoder s1) r) in
      (set_frames s1 f torn, rf)
  | e => (s1, e)
  end.

(** What the disk does in a flush of the four files; a flush that fails leaves
    the later ones out. *)
Record SyncIo := mkSyncIo { sy_raw : option nat; sy_index : option nat; sy_lines : option nat; sy_frames : option nat }.
Definition sync_fine : SyncIo := mkSyncIo None None None None.
Definition commit (io : SyncIo) (s : FileLogSink) : FileLogSink * result unit :=
  let '(w, ok) := w_flush (sy_raw io) (inner (raw s)) in
  let s1 := set_raw s (mkRaw w (pos (raw s))) in
  if negb ok then (s1, Err E1001PipelineGeneric) else
  let '(i, ok) := w_flush (sy_index io) (index s1) in
  let s2 := set_index s1 i (index_torn s1) in
  if negb ok then (s2, Err E1001PipelineGeneric) else
  let '(l, ok) := w_flush (sy_lines io) (lines s2) in
  let s3 := set_lines s2 l (lines_torn s2) in
  if negb ok then (s3, Err E1001PipelineGeneric) else
  let '(f, ok) := w_flush (sy_frames io) (frames s3) in
  (set_frames s3 f (frames_torn s3), if ok then Ok tt else Err E1001PipelineGeneric).
Definition set_closed (s : FileLogSink) : FileLogSink :=
  mkSink (s_sid s) (s_source s) (s_host s) (s_decoder s) (raw s) (index s) (lines s) (frames s) true
    (index_torn s) (lines_torn s) (frames_torn s).
Definition close (io : SyncIo) (s : FileLogSink) : FileLogSink * result unit :=
  if closed s then (s, Ok tt)
  else let '(c, r) := commit io s in
       match r with Ok _ => (set_closed c, Ok tt) | e => (c, e) end.
(** The sink goes out of scope: each buffer is written as far as the disk takes it. *)
Definition drop_sink (io : SyncIo) (s : FileLogSink) : FileLogSink :=
  let s1 := set_raw s (mkRaw (fst (w_flush (sy_raw io) (inner (raw s)))) (pos (raw s))) in
  let s2 := set_index s1 (fst (w_flush (sy_index io) (index s))) (index_torn s) in
  let s3 := set_lines s2 (fst (w_flush (sy_lines io) (lines s))) (lines_torn s) in
  set_frames s3 (fst (w_flush (sy_frames io) (frames s))) (frames_torn s).

(** ** Runs of a sink *)
Inductive sink_op :=
| OpRaw (f : fault) (spill : nat) (t : DualTimestamp) (d : Dir) (data : list Z)
| OpRecord (iol iof : RowIo) (t : DualTimestamp) (r : Record_)
| OpCommit (io : SyncIo)
| OpClose (io : SyncIo).
Definition sink_step (s : FileLogSink) (o : sink_op) : FileLogSink :=
  match o with
  | OpRaw f spill t d data => fst (append_raw f spill s t d data)
  | OpRecord iol iof t r => fst (append_record iol iof s t r)
  | OpCommit io => fst (commit io s)
  | OpClose io => fst (close io s)
  end.
Definition sink_run (s : FileLogSink) (os : list sink_op) : FileLogSink := fold_left sink_step os s.

(** The payloads whose index row was written, and all payload bytes. *)
Definition indexed (o : sink_op) : list (Dir * list Z) :=
  match o with
  | OpRaw (NoFault | IndexFlush _) _ _ d data => [(d, data)]
  | _ => []
  end.
Definition op_bytes (o : sink_op) : Z := match o with OpRaw _ _ _ _ data => zlen data | _ => 0 end.
Definition op_fine (o : sink_op) : Prop :=
  match o with
  | OpRaw (RawShort _ | IndexRow (RowTorn | RowNoNewline)) _ _ _ _ => False
  | OpRaw _ _ _ _ data => zlen data <= u32_max
  | _ => True
  end.
Fixpoint ops_bytes (os : list sink_op) : Z :=
  match os with [] => 0 | o :: os' => op_bytes o + ops_bytes os' end.

(** Row [e] names the payload [p] among the bytes on disk. *)
Definition names (file : list Z) (e : IndexEntry) (p : Dir * list Z) : Prop :=
  dir e = fst p /\ 0 <= off e /\ read_at file (off e) (len e) = Ok (snd p) /\ off e + len e <= zlen file.

Lemma names_prefix f f' e p : f `prefix_of` f' -> names f e p -> names f' e p.
Proof.
  intros [k ->] (Hd & Ho & Hr & Hl). unfold read_at in *. pose proof (zlen_nonneg k).
  rewrite (proj2 (Z.leb_le _ _)) in Hr by done. injection Hr as Hr.
  split; [done|]. split; [done|]. rewrite zlen_app. split; [|lia].
  unfold read_at. rewrite zlen_app, (proj2 (Z.leb_le _ _)) by lia. f_equal. rewrite <- Hr.
  destruct (Z.le_ge_cases 0 (len e)).
  - rewrite drop_app_le by zlia. by rewrite take_app_le by (rewrite length_drop; zlia).
  - by replace (Z.to_nat (len e)) with O by lia.
Qed.

(** The sink's invariant: its logical position is the length of the raw stream
    and every row names its payload on disk. *)
Record sink_inv (s : FileLogSink) (ps : list (Dir * list Z)) : Prop := {
  sink_pos : pos (raw s) = zlen (stream (inner (raw s)));
  sink_rows : Forall2 (names (disk (inner (raw s)))) (stream (index s)) ps
}.

Lemma rows_mono f f' es ps :
  f `prefix_of` f' -> Forall2 (names f) es ps -> Forall2 (names f') es ps.
Proof. intros Hp HF. eapply Forall2_impl; [exact HF|]. intros e p. by apply names_prefix. Qed.

(** The row [append_raw] builds names the bytes just flushed. *)
Definition row (s : FileLogSink) (t : DualTimestamp) (d : Dir) (o l : Z) : IndexEntry :=
  with_labels (s_source s) (s_host s) (from_envelope t (s_sid s) d KBytes o l).
Lemma row_names s t d before data :
  names (before ++ data) (row s t d (zlen before) (zlen data)) (d, data).
Proof.
  pose proof (zlen_nonneg before). split; [done|]. cbn [off len row with_labels from_envelope snd].
  split; [lia|]. rewrite zlen_app. split; [|lia]. unfold read_at. rewrite zlen_app.
  rewrite (proj2 (Z.leb_le _ _)) by lia. f_equal. rewrite drop_app_length' by zlia. apply take_ge. zlia.
Qed.

(** A raw write that succeeds within its bounds. *)
Lemma raw_append_ok spill w data : 0 <= pos w -> zlen data <= u32_max -> pos w + zlen data <= u64_max ->
  raw_append spill None w data = (mkRaw (w_append spill (inner w) data) (pos w + zlen data), Ok (pos w, zlen data)).
Proof.
  intros H0 Hd Hu. pose proof (zlen_nonneg data). unfold raw_append.
  assert (try_from 0 u32_max (zlen data) = Some (zlen data)) as -> by (apply try_from_Some; lia).
  by rewrite checked_ok by lia.
Qed.

(** [append_raw] with the raw write succeeding, step by step. *)
Lemma append_raw_unfold f spill s t d data :
  op_fine (OpRaw f spill t d data) -> pos (raw s) + zlen data <= u64_max -> 0 <= pos (raw s) ->
  fst (append_raw f spill s t d data) =
  let w1 := w_append spill (inner (raw s)) data in
  let '(w2, ok2) := w_flush (match f with RawFlush k => Some k | _ => None end) w1 in
  let s2 := set_raw s (mkRaw w2 (pos (raw s) + zlen data)) in
  if negb ok2 then s2 else
  match f with
  | IndexRow _ => s2
  | _ => set_index s2 (fst (w_flush (match f with IndexFlush k => Some k | _ => None end)
                       (w_append 0 (index s) [row s t d (pos (raw s)) (zlen data)]))) (index_torn s)
  end.
Proof.
  intros Hok Hu Hp. pose proof (zlen_nonneg data).
  assert (Hnr : match f with RawShort k => Some k | _ => None end = None) by (destruct f as [| | |[]|]; done).
  assert (Hlen : zlen data <= u32_max) by (destruct f as [| | |[]|]; done).
  unfold append_raw, raw_append. rewrite Hnr.
  assert (try_from 0 u32_max (zlen data) = Some (zlen data)) as -> by (apply try_from_Some; lia).
  rewrite checked_ok by lia. cbn [default from_option id set_raw inner pos raw index].
  destruct (w_flush _ (w_append spill (inner (raw s)) data)) as [w2 ok2]. destruct ok2; [|done].
  by destruct f as [| | |[]|].
Qed.

Lemma append_raw_inv f spill s ps t d data :
  sink_inv s ps -> op_fine (OpRaw f spill t d data) -> pos (raw s) + zlen data <= u64_max ->
  let s' := fst (append_raw f spill s t d data) in
  sink_inv s' (ps ++ indexed (OpRaw f spill t d data)) /\ pos (raw s') = pos (raw s) + zlen data.
Proof.
  intros [Hp Hr] Hok Hu. pose proof (zlen_nonneg (stream (inner (raw s)))).
  rewrite append_raw_unfold by (done || lia). cbv zeta.
  set (w1 := w_append spill (inner (raw s)) data).
  assert (Hs1 : stream w1 = stream (inner (raw s)) ++ data) by apply stream_append.
  set (fl := match f with RawFlush k => Some k | _ => None end).
  pose proof (stream_flush fl w1) as Hs2.
  assert (Hd2 : disk (inner (raw s)) `prefix_of` disk (fst (w_flush fl w1)))
    by (etrans; [apply disk_append|apply disk_flush]).
  destruct (w_flush fl w1) as [w2 ok2] eqn:Ew. cbn [fst] in *.
  pose proof (rows_mono _ _ _ _ Hd2 Hr) as Hr2.
  assert (Hpos : pos (raw s) + zlen data = zlen (stream w2)) by (rewrite Hs2, Hs1, zlen_app; lia).
  destruct ok2; cbn [negb].
  2: { assert (exists k, f = RawFlush k) as [k ->] by (unfold fl in Ew; destruct f; simplify_eq/=; eauto).
       split; [|done]. cbn [indexed]. rewrite app_nil_r. by split. }
  assert (Hw2 : disk w2 = stream (inner (raw s)) ++ data).
  { rewrite <- Hs1. destruct fl; simplify_eq/=; done. }
  assert (Hnew : names (disk w2) (row s t d (pos (raw s)) (zlen data)) (d, data))
    by (rewrite Hw2, Hp; apply row_names).
  assert (Hi : forall fl', sink_inv (set_index (set_raw s (mkRaw w2 (pos (raw s) + zlen data)))
      (fst (w_flush fl' (w_append 0 (index s) [row s t d (pos (raw s)) (zlen data)]))) (index_torn s)) (ps ++ [(d, data)])).
  { intros fl'. split; [done|]. cbn [raw index inner set_index set_raw].
    rewrite stream_flush, stream_append. apply Forall2_app; [done|]. by constructor. }
  destruct f as [|k|k|x|k]; cbn [indexed].
  - split; [apply Hi|done].
  - done.
  - by unfold fl in Ew.
  - rewrite app_nil_r. split; [by split|done].
  - split; [apply Hi|done].
Qed.

(** Steps that leave the rows and the raw stream as they are. *)
Definition settles (s s' : FileLogSink) : Prop :=
  stream (index s') = stream (index s) /\ stream (inner (raw s')) = stream (inner (raw s)) /\ pos (raw s') = pos (raw s) /\
  disk (inner (raw s)) `prefix_of` disk (inner (raw s')) /\ index_torn s' = index_torn s.
Lemma settles_inv s s' ps : settles s s' -> sink_inv s ps -> sink_inv s' ps.
Proof. intros (Hi & Hr & Hp & Hd & _) [H1 H2]. split; [by rewrite Hp, Hr|]. rewrite Hi. by eapply rows_mono. Qed.
Lemma record_settles iol iof s t r : settles s (fst (append_record iol iof s t r)).
Proof.
  unfold append_record. destruct (text r) as [x|].
  - destruct (append_flush iol _ _ _) as [[l tl] [[]|e|]]; [destruct (append_flush iof _ _ _) as [[f tf] rf]|..]; done.
  - destruct (append_flush iof _ _ _) as [[f tf] rf]. done.
Qed.
(** On a disk that takes everything a record is on disk at once. *)
Lemma append_record_fine s t r :
  exists s', append_record row_fine row_fine s t r = (s', Ok tt) /\ raw s' = raw s /\ index s' = index s /\ closed s' = closed s /\
    stream (frames s') = stream (frames s) ++ [mkFrame (format_rfc3339_ns (ts_ingest_ns t)) (s_decoder s) r].
Proof.
  unfold append_record. destruct (text r) as [x|]; eexists; (split; [reflexivity|]);
    do 3 (split; [done|]); unfold stream; cbn; rewrite !app_nil_r, ?drop_0; by rewrite (assoc_L (++)).
Qed.
Lemma commit_settles io s : settles s (fst (commit io s)).
Proof.
  unfold commit. pose proof (stream_flush (sy_raw io) (inner (raw s))) as Hr. pose proof (disk_flush (sy_raw io) (inner (raw s))) as Hd.
  destruct (w_flush (sy_raw io) _) as [w []]; [|done]. cbn [fst negb set_raw index] in *.
  pose proof (stream_flush (sy_index io) (index s)) as Hi.
  destruct (w_flush (sy_index io) _) as [i []]; [|done]. cbn [fst negb set_index lines] in *.
  destruct (w_flush (sy_lines io) _) as [l []]; [|done]. cbn [fst negb set_lines frames] in *.
  by destruct (w_flush (sy_frames io) _) as [f []].
Qed.
Lemma close_settles io s : settles s (fst (close io s)).
Proof.
  unfold close. destruct (closed s); [done|]. pose proof (commit_settles io s) as H.
  by destruct (commit io s) as [c [[]|e|]].
Qed.
Lemma commit_fine s : commit sync_fine s = (drop_sink sync_fine s, Ok tt).
Proof. reflexivity. Qed.
Lemma close_fine s : close sync_fine s = (if closed s then s else set_closed (drop_sink sync_fine s), Ok tt).
Proof. unfold close. by destruct (closed s). Qed.
Lemma drop_settles io s : settles s (drop_sink io s).
Proof.
  unfold drop_sink. split; [apply stream_flush|]. split; [apply stream_flush|]. split; [done|]. split; [apply disk_flush|done].
Qed.

Lemma sink_step_inv s ps o :
  sink_inv s ps -> op_fine o -> pos (raw s) + op_bytes o <= u64_max ->
  sink_inv (sink_step s o) (ps ++ indexed o) /\ pos (raw (sink_step s o)) = pos (raw s) + op_bytes o.
Proof.
  intros Hi Ho Hu. assert (Hs : forall s', settles s s' -> sink_inv s' (ps ++ []) /\ pos (raw s') = pos (raw s) + 0).
  { intros s' Hs. rewrite app_nil_r, Z.add_0_r. split; [by eapply settles_inv|]. by destruct Hs as (_ & _ & ? & _). }
  destruct o as [f spill t d data|iol iof t r|io|io]; cbn [sink_step op_bytes indexed] in *.
  - by apply append_raw_inv.
  - apply Hs, record_settles.
  - apply Hs, commit_settles.
  - apply Hs, close_settles.
Qed.

Lemma sink_run_inv os : forall s ps,
  sink_inv s ps -> Forall op_fine os -> pos (raw s) + ops_bytes os <= u64_max ->
  sink_inv (sink_run s os) (ps ++ concat (map indexed os)).
Proof.
  induction os as [|o os IH]; intros s ps Hi HF Hu; [by rewrite app_nil_r|].
  inversion HF; subst. cbn [ops_bytes map concat] in *.
  assert (Hnn : forall l, 0 <= ops_bytes l).
  { clear. induction l as [|[] l IH]; simpl; try lia. pose proof (zlen_nonneg data). lia. }
  pose proof (Hnn os). destruct (sink_step_inv s ps o Hi) as [Hi' Hp']; [done|lia|].
  rewrite (assoc_L (++)). apply IH; [done|done|]. lia.
Qed.

Lemma create_inv sid src host decoder : sink_inv (sink_create sid src host decoder [] [] [] []) [].
Proof. by split. Qed.
End Sink.

(** The index never dangles: after any run of a fresh sink, with flushes,
    record writes and whole index rows failing at will and buffers spilling at
    will, also when its caller goes on after a failure, the index rows
    written so far are in order exactly the payloads whose row was reached, and
    each row's offset and length read back its payload from the bytes that are
    already on disk (so also after a crash at that point). *)
Theorem sink_rows_read_back rfc sid src host decoder os :
  Forall op_fine os -> ops_bytes os <= u64_max ->
  let s := sink_run rfc (sink_create sid src host decoder [] [] [] []) os in
  Forall2 (names (disk (inner (raw s)))) (stream (index s)) (concat (map indexed os)).
Proof.
  intros HF Hu s.
  destruct (sink_run_inv rfc os _ [] (create_inv sid src host decoder) HF) as [_ H]; [|exact H].
  cbn [raw sink_create raw_create pos]. zlia.
Qed.
Definition ts0 : DualTimestamp := mkTs 0 0 0 0 0 0 QUnknown 0 CSystem.
Definition sink_ops0 : list sink_op :=
  [OpRaw NoFault 0 ts0 In [1; 2]; OpRaw (RawFlush 1) 0 ts0 In [3; 4]; OpRaw (IndexFlush 0) 1 ts0 Out [5];
   OpRecord row_fine (mkRowIo 0 (Some RowTorn) None) ts0 (mkRecord None None None VNull [] None); OpCommit (mkSyncIo None (Some 0%nat) None None);
   OpCommit sync_fine].
Lemma sink_rows_read_back_witness :
  let s := sink_run (fun _ => None) (sink_create 7 None None [] [] [] [] []) sink_ops0 in
  Forall2 (names (disk (inner (raw s)))) (stream (index s)) (concat (map indexed sink_ops0)).
Proof.
  apply (sink_rows_read_back (fun _ => None) 7 None None [] sink_ops0).
  - repeat (apply Forall_cons; split; [vm_compute; first [exact I|discriminate]|]). constructor.
  - vm_compute. discriminate.
Defined.

(** Finding: after a short write to [raw.bin] the writer's position is stale: the
    next row is written with the offset of the torn bytes, and reading it back
    does not give its payload. *)
Theorem raw_short_write_misindexes rfc :
  let s0 := sink_create 7 None None [] [] [] [] [] in
  let '(s1, r1) := append_raw rfc (RawShort 1) 0 s0 ts0 In [1; 2] in
  let '(s2, r2) := append_raw rfc NoFault 0 s1 ts0 In [8; 9] in
  r1 = Err E1001PipelineGeneric /\ r2 = Ok tt /\
  exists e, disk (index s2) = [e] /\ read_at (disk (inner (raw s2))) (off e) (len e) = Ok [1; 8].
Proof. repeat split. eexists. split; reflexivity. Qed.

(** ** logsink/mod.rs and logsink/fanout.rs *)
Class LogSink (S : Type) := {
  ls_append_raw : S -> DualTimestamp -> Dir -> list Z -> S * result unit;
  ls_append_record : S -> DualTimestamp -> Record_ -> S * result unit;
  ls_commit : S -> S * result unit;
  ls_close : S -> S * result unit
}.

(** The file sink as a [LogSink], without I/O errors. *)
#[export] Instance FileLogSink_LogSink (rfc3339 : Z -> option (list Z)) : LogSink FileLogSink := {
  ls_append_raw := append_raw rfc3339 NoFault 0;
  ls_append_record := append_record rfc3339 row_fine row_fine;
  ls_commit := commit sync_fine;
  ls_close := close sync_fine
}.

Section Fanout.
  Context {S} `{!LogSink S}.

(** The loop every method shares: the first error ends it. *)
Fixpoint forward (call : S -> S * result unit) (sinks : list S) : list S * result unit :=
  match sinks with
  | [] => ([], Ok tt)
  | s :: sinks' =>
      let '(s1, r) := call s in
      match r with
      | Ok _ => let '(rest, r') := forward call sinks' in (s1 :: rest, r')
      | Err e => (s1 :: sinks', Err e)
      | Panic => (s1 :: sinks', Panic)
      end
  end.
Definition fanout_append_raw (sinks : list S) (t : DualTimestamp) (d : Dir) (data : list Z) : list S * result unit :=
  forward (fun s => ls_append_raw s t d data) sinks.
Definition fanout_append_record (sinks : list S) (t : DualTimestamp) (r : Record_) : list S * result unit :=
  forward (fun s => ls_append_record s t r) sinks.
Definition fanout_commit (sinks : list S) : list S * result unit := forward ls_commit sinks.
Definition fanout_close (sinks : list S) : list S * result unit := forward ls_close sinks.

(** The sinks called are a prefix; those behind a failing one are untouched. *)
Lemma forward_prefix call sinks :
  let '(out, r) := forward call sinks in
  exists k, (k <= length sinks)%nat /\
    out = map (fun s => fst (call s)) (take k sinks) ++ drop k sinks /\
    (r = Ok tt -> k = length sinks).
Proof.
  induction sinks as [|s sinks IH]; simpl; [by exists O|].
  destruct (call s) as [s1 [[]|e|]] eqn:E.
  - destruct (forward call sinks) as [out r]. destruct IH as (k & Hk & -> & Hr).
    exists (Datatypes.S k). simpl. rewrite E. split; [lia|]. split; [done|]. intros H. by rewrite (Hr H).
  - exists 1%nat. simpl. rewrite E. split; [lia|]. split; [done|]. done.
  - exists 1%nat. simpl. rewrite E. split; [lia|]. split; [done|]. done.
Qed.
End Fanout.
