(* ===== verification/Csv.v ===== *)
(** * CSV export and import, and time-zone labels

    crates/core/src/exporter/csv.rs, crates/core/src/importer/csv.rs and
    crates/core/src/exporter/timestamp.rs, on the session directory of
    [SessionDir].  RFC 3339 parsing and rendering, UTC offsets, the text
    encodings and the JSON of index rows are parameters. *)
From stdpp Require Import base numbers strings list.
From S2P Require Import Prelude Text Decoder Clock SessionDir.

Local Open Scope Z_scope.
Local Open Scope tm_scope.

(** ** exporter/csv.rs: fields *)
Definition csv_special (c : Z) : bool := (c =? 44) || (c =? 34) || (c =? 10) || (c =? 13).
Definition escape_quotes (s : list Z) : list Z :=
  concat (map (fun c => if c =? 34 then [34; c] else [c]) s).
Definition quote (s : list Z) : list Z :=
  if existsb csv_special s then [34] ++ escape_quotes s ++ [34] else s.

Definition kind_str (e : IndexEntry) (which : string) : list Z :=
  if String.eqb which "dir" then lit match dir e with In => "in" | Out => "out" end
  else if String.eqb which "kind" then
    lit match kind e with
        | KBytes => "bytes" | KDatagram => "datagram" | KFrame => "frame" | KRecord => "record"
        end
  else [].

(** ** importer/csv.rs: rows *)
Fixpoint parse_row_loop (in_quoted : bool) (cur : list Z) (out : list (list Z)) (line : list Z)
  : list (list Z) :=
  match line with
  | [] => out ++ [cur]
  | c :: line' =>
      if (c =? 34) && negb in_quoted && bool_decide (cur = []) then parse_row_loop true cur out line'
      else if (c =? 34) && in_quoted then
        match line' with
        | 34 :: line'' => parse_row_loop in_quoted (cur ++ [34]) out line''
        | _ => parse_row_loop false cur out line'
        end
      else if (c =? 44) && negb in_quoted then parse_row_loop in_quoted [] (out ++ [cur]) line'
      else parse_row_loop in_quoted (cur ++ [c]) out line'
  end.
Definition parse_row (line : list Z) : list (list Z) := parse_row_loop false [] [] line.

Definition is_one_of (names : list string) (s : list Z) : bool :=
  existsb (fun n => str_eqb s (lit n)) names.

Fixpoint locate_cols_loop (i : nat) (header : list (list Z)) (cols : option nat * option nat * option nat)
  : option nat * option nat * option nat :=
  match header with
  | [] => cols
  | h :: header' =>
      let '(ts, lv, tx) := cols in
      let l := to_ascii_lowercase h in
      locate_cols_loop (S i) header'
        (if is_one_of ["ts"; "time"; "timestamp"]%string l then (Some i, lv, tx)
         else if is_one_of ["level"; "severity"]%string l then (ts, Some i, tx)
         else if is_one_of ["text"; "message"; "msg"; "body"]%string l then (ts, lv, Some i)
         else cols)
  end.
Definition locate_cols (header : list (list Z)) : option nat * option nat * option nat :=
  locate_cols_loop 0 header (None, None, None).

(** ** exporter/csv.rs: the whole export *)
Section CsvExport.
  (** Text decoding under the session encoding, and the rendering of a stored
      timestamp in the requested zone. *)
  Variable decode_text : list Z -> list Z.
  Variable in_timezone : list Z -> result (list Z).

Definition csv_header : list Z := lit "ts_origin,ts_ingest,dir,kind,len,text".
Definition export_row (raw_bin : list Z) (e : IndexEntry) : result (list Z) :=
  let* bytes := read_at raw_bin (off e) (len e) in
  let t := decode_text bytes in
  let* o := in_timezone (ts_origin e) in
  let* i := in_timezone (ts_ingest e) in
  Ok (join [44] [o; i; kind_str e "dir"; kind_str e "kind"; show_nat (len e); quote t] ++ [10]).

(** An index line is blank ([None]), or a row, or not JSON ([Some None]). *)
Fixpoint export_rows (raw_bin : list Z) (index_lines : list (option (option IndexEntry))) : result (list Z) :=
  match index_lines with
  | [] => Ok []
  | None :: ls => export_rows raw_bin ls
  | Some None :: _ => Err E1001PipelineGeneric
  | Some (Some e) :: ls =>
      let* r := export_row raw_bin e in
      let* rest := export_rows raw_bin ls in
      Ok (r ++ rest)
  end.
Definition csv_export (raw_bin : list Z) (index_lines : list (option (option IndexEntry))) : result (list Z) :=
  let* rows := export_rows raw_bin index_lines in Ok (csv_header ++ [10] ++ rows).
End CsvExport.

(** ** importer/csv.rs: the whole import *)
Section CsvImport.
  (** The wall clock, the session id, and RFC 3339 in both directions. *)
  Variable now : Z.
  Variable sid : Z.
  Variable rfc3339 : Z -> option (list Z).
  Variable parse_rfc3339_ns : list Z -> option Z.

Record Imported := mkImported { i_raw : RawWriter; i_index : list IndexEntry; i_lines : list LineEntry }.
Definition imported0 : Imported := mkImported (raw_create []) [] [].

Definition imported_ts : DualTimestamp := mkTs now now 0 0 0 0 QImported 0 CImported.
Definition set_origin (t : DualTimestamp) (ns : Z) : DualTimestamp :=
  mkTs ns (ts_ingest_ns t) (mono_ns t) (boot_id t) (node_id t) (clock_offset_ms t) (clock_quality t)
    (drift_ppm t) (clock_source t).
Definition set_level (e : IndexEntry) (l : option (list Z)) : IndexEntry :=
  mkIndex (ts_origin e) (ts_ingest e) (e_mono_ns e) (e_boot_id e) (e_node_id e) (e_clock_offset_ms e)
    (e_clock_quality e) (e_drift_ppm e) (e_clock_source e) (e_sid e) (dir e) (kind e) (off e) (len e)
    l (e_tags e) (e_correlation_id e) (e_source e) (e_host e) (e_schema_id e).

Definition cell (row : list (list Z)) (col : option nat) : option (list Z) :=
  match col with Some i => row !! i | None => None end.

Definition emit_row (row : list (list Z)) (cols : option nat * option nat * option nat) (st : Imported)
  : result Imported :=
  let '(col_ts, col_level, col_text) := cols in
  let payload := match col_text with Some i => default [] (row !! i) | None => join [44] row end in
  let '(r1, res) := raw_append 0 None (i_raw st) (utf8 payload) in
  let* '(o, l) := res in
  let ts :=
    match cell row col_ts with
    | Some s => match parse_rfc3339_ns s with Some ns => set_origin imported_ts ns | None => imported_ts end
    | None => imported_ts
    end in
  let entry := from_envelope rfc3339 ts sid In KBytes o l in
  let entry := match cell row col_level with Some ((_ :: _) as lv) => set_level entry (Some lv) | _ => entry end in
  let lns := match col_text with
             | Some _ => [mkLine (format_rfc3339_ns rfc3339 (ts_origin_ns ts)) (e_level entry) payload None []]
             | None => []
             end in
  Ok (mkImported r1 (i_index st ++ [entry]) (i_lines st ++ lns)).

Definition is_eol_char (c : Z) : bool := (c =? 13) || (c =? 10).
(** What successive [read_line] calls return, without their line ends. *)
Definition csv_lines (file : list Z) : list (list Z) :=
  let ps := split_on 10 file in
  map (trim_end_matches is_eol_char) (match last ps with Some [] => take (length ps - 1) ps | _ => ps end).

Fixpoint import_rows (cols : option nat * option nat * option nat) (ls : list (list Z)) (st : Imported)
  : result Imported :=
  match ls with
  | [] => Ok st
  | [] :: ls' => import_rows cols ls' st
  | l :: ls' => let* st' := emit_row (parse_row l) cols st in import_rows cols ls' st'
  end.

Definition csv_import (file : list Z) : result Imported :=
  match csv_lines file with
  | [] => Ok imported0
  | first :: rest =>
      let header := parse_row first in
      let cols := locate_cols header in
      let '(a, b, c) := cols in
      let has_header := match a, b, c with None, None, None => false | _, _, _ => true end in
      let* st := (if has_header then Ok imported0 else emit_row header (None, None, None) imported0) in
      import_rows cols rest st
  end.
End CsvImport.

(** ** exporter/timestamp.rs *)
Section Timezone.
  Variable UtcOffset : Type.
  (** [UtcOffset::from_hms] with zero seconds. *)
  Variable from_hms : Z -> Z -> option UtcOffset.

Definition offset (h m : Z) : result UtcOffset := ok_or (from_hms h m) E1001PipelineGeneric.

Definition parse_numeric_offset (value : list Z) : result (option UtcOffset) :=
  match value with
  | [] => Ok None
  | c :: rest =>
      if negb ((c =? 43) || (c =? 45)) then Ok None
      else match rest with
           | [] => Ok None
           | _ =>
               let sign := if c =? 43 then 1 else -1 in
               let* '(h, m) :=
                 match split_once [58] rest with
                 | Some p => Ok p
                 | None =>
                     if 2 <? str_len rest
                     then match split_at_byte (str_len rest - 2) rest with Some p => Ok p | None => Panic end
                     else Ok (rest, lit "0")
                 end in
               Ok (hours ← parse_signed i8_min i8_max h;
                   minutes ← parse_signed i8_min i8_max m;
                   if negb (in_range 0 23 hours && in_range 0 59 minutes) then None
                   else from_hms (sign * hours) (sign * minutes))
           end
  end.

Definition parse_timezone_offset (label : list Z) : result UtcOffset :=
  let raw := trim label in
  match raw with
  | [] => Err E1001PipelineGeneric
  | _ =>
      let lower := to_ascii_lowercase raw in
      if is_one_of ["utc"; "z"; "gmt"]%string lower then offset 0 0
      else if is_one_of ["jst"; "asia/tokyo"]%string lower then offset 9 0
      else
        let offset_text :=
          match strip_prefix (lit "gmt") lower with
          | Some t => t
          | None => match strip_prefix (lit "utc") lower with Some t => t | None => lower end
          end in
        let* o := parse_numeric_offset offset_text in
        ok_or o E1001PipelineGeneric
  end.
End Timezone.

(** ** Quoting is undone by parsing *)
Definition plain_field (f : list Z) : Prop := Forall (fun c => csv_special c = false) f.

Lemma special_false c : csv_special c = false -> (c =? 34) = false /\ (c =? 44) = false.
Proof. unfold csv_special. intros H. bprop. split; apply Z.eqb_neq; lia. Qed.

Lemma parse_plain f : plain_field f -> forall cur out rest,
  parse_row_loop false cur out (f ++ rest) = parse_row_loop false (cur ++ f) out rest.
Proof.
  induction 1 as [|c f Hc _ IH]; intros cur out rest; [by rewrite app_nil_r|].
  destruct (special_false c Hc) as [H1 H2]. cbn [app parse_row_loop]. rewrite H1, H2. cbn [andb].
  rewrite IH, <- (assoc_L (++)). done.
Qed.

Lemma parse_escaped f : forall cur out rest,
  (forall k, rest <> 34 :: k) ->
  parse_row_loop true cur out (escape_quotes f ++ 34 :: rest) = parse_row_loop false (cur ++ f) out rest.
Proof.
  induction f as [|c f IH]; intros cur out rest Hr.
  - cbn [escape_quotes map concat app parse_row_loop Z.eqb Pos.eqb andb negb]. rewrite app_nil_r.
    destruct rest as [|x rest]; [done|]. destruct (decide (x = 34)) as [->|Hx]; [by destruct (Hr rest)|].
    repeat (destruct x as [|x|x]; try done).
  - replace (cur ++ c :: f) with ((cur ++ [c]) ++ f) by (by rewrite <- (assoc_L (++))).
    unfold escape_quotes in *. cbn [map concat]. destruct (Z.eqb_spec c 34) as [->|Hc].
    + cbn [app parse_row_loop Z.eqb Pos.eqb andb negb]. by rewrite IH.
    + cbn [app parse_row_loop]. rewrite (proj2 (Z.eqb_neq c 34) Hc). cbn [andb negb].
      rewrite andb_false_r. by rewrite IH.
Qed.

Lemma parse_quote f out rest :
  (forall k, rest <> 34 :: k) ->
  parse_row_loop false [] out (quote f ++ rest) = parse_row_loop false f out rest.
Proof.
  intros Hr. unfold quote. destruct (existsb csv_special f) eqn:E.
  - rewrite <- !(assoc_L (++)). cbn [app parse_row_loop Z.eqb Pos.eqb andb negb].
    rewrite bool_decide_true by done. by rewrite (parse_escaped f [] out rest Hr).
  - rewrite (parse_plain f); [done|]. unfold plain_field. apply Forall_forall. intros c Hc.
    destruct (csv_special c) eqn:Ec; [|done].
    assert (existsb csv_special f = true) by (apply existsb_exists; exists c; split; [by apply list_elem_of_In|done]).
    congruence.
Qed.

Lemma parse_row_quoted fs : forall out, fs <> [] ->
  parse_row_loop false [] out (join [44] (map quote fs)) = out ++ fs.
Proof.
  induction fs as [|f [|g fs] IH]; intros out Hne; [done| |].
  - cbn [map join]. rewrite <- (app_nil_r (quote f)), parse_quote by done. done.
  - change (join [44] (map quote (f :: g :: fs))) with (quote f ++ 44 :: join [44] (map quote (g :: fs))).
    rewrite parse_quote by done. cbn [parse_row_loop Z.eqb Pos.eqb andb negb].
    rewrite IH by done. by rewrite <- (assoc_L (++)).
Qed.

(** CSV quoting is invertible: a row of quoted fields, whatever characters
    they hold, parses back to the fields. *)
Theorem csv_row_round_trip fs : fs <> [] -> parse_row (join [44] (map quote fs)) = fs.
Proof. intros Hne. unfold parse_row. by rewrite parse_row_quoted. Qed.
Lemma csv_row_round_trip_witness :
  parse_row (join [44] (map quote [lit "a,b"; []; [34]; lit "plain"; [34; 44; 34]])) =
  [lit "a,b"; []; [34]; lit "plain"; [34; 44; 34]].
Proof. apply csv_row_round_trip. discriminate. Defined.

(** Finding: a time-zone label can crash the export: an offset whose last two bytes
    cut a character is sliced there; [+] followed by a three-byte character is
    enough. *)
Theorem timezone_label_panics UtcOffset from_hms c :
  0x800 <= c < 0xD800 -> is_whitespace c = false ->
  parse_timezone_offset UtcOffset from_hms [43; c] = Panic.
Proof.
  intros Hc Hw. unfold parse_timezone_offset.
  assert (trim [43; c] = [43; c]) as ->.
  { apply trim_matches_id; [by intros x k [= <- _]|by intros x [= <-]]. }
  assert (to_ascii_lowercase [43; c] = [43; c]) as ->.
  { unfold to_ascii_lowercase, to_ascii_lower, is_upper, in_range. simpl.
    rewrite (proj2 (Z.leb_gt c 90)) by lia. by rewrite andb_false_r. }
  assert (Hu : utf8 [c] = [0xE0 + c / 4096; 0x80 + c / 64 mod 64; 0x80 + c mod 64]).
  { unfold utf8. cbn [map concat]. rewrite app_nil_r. unfold utf8_char. decide_ranges. done. }
  change (is_one_of ["utc"; "z"; "gmt"]%string [43; c]) with false.
  change (is_one_of ["jst"; "asia/tokyo"]%string [43; c]) with false. cbv iota.
  change (strip_prefix (lit "gmt") [43; c]) with (@None (list Z)).
  change (strip_prefix (lit "utc") [43; c]) with (@None (list Z)). cbv iota.
  unfold parse_numeric_offset. cbn [Z.eqb Pos.eqb orb negb].
  rewrite split_once_char_none by (apply Forall_singleton; lia).
  unfold str_len. rewrite Hu. change (zlen [_; _; _]) with 3. cbn [Z.ltb Z.compare Pos.compare Pos.compare_cont].
  cbn [split_at_byte]. assert (zlen (utf8_char c) = 3) as ->.
  { unfold utf8 in Hu. cbn [map concat] in Hu. rewrite app_nil_r in Hu. by rewrite Hu. }
  done.
Qed.
Lemma timezone_label_panics_witness :
  parse_timezone_offset (Z * Z) (fun h m => Some (h, m)) [43; 0x3042] = Panic.
Proof. apply timezone_label_panics; [lia|reflexivity]. Defined.

(** ** Export followed by import *)
Lemma quote_plain f : plain_field f -> quote f = f.
Proof.
  intros H. unfold quote. destruct (existsb csv_special f) eqn:E; [|done].
  apply existsb_exists in E as (c & Hc%list_elem_of_In & Hs). unfold plain_field in H.
  rewrite Forall_forall in H. rewrite (H c Hc) in Hs. done.
Qed.
Lemma lit_plain_field s : existsb csv_special (lit s) = false -> plain_field (lit s).
Proof.
  intros H. unfold plain_field. apply Forall_forall. intros c Hc. destruct (csv_special c) eqn:E; [|done].
  assert (existsb csv_special (lit s) = true) by (apply existsb_exists; exists c; split; [by apply list_elem_of_In|done]).
  congruence.
Qed.
Lemma show_nat_plain n : 0 <= n -> plain_field (show_nat n).
Proof.
  intros H. unfold plain_field. eapply Forall_impl; [by apply show_nat_digits|]. intros c Hc.
  unfold is_digit in Hc. apply in_range_spec in Hc. unfold csv_special. by decide_ranges.
Qed.

(** The cells of an exported row. *)
Definition row_cells (o i : list Z) (e : IndexEntry) (t : list Z) : list (list Z) :=
  [o; i; kind_str e "dir"; kind_str e "kind"; show_nat (len e); t].
Definition row_line (o i : list Z) (e : IndexEntry) (t : list Z) : list Z := join [44] (map quote (row_cells o i e t)).

Lemma row_line_eq o i e t :
  plain_field o -> plain_field i -> 0 <= len e ->
  join [44] [o; i; kind_str e "dir"; kind_str e "kind"; show_nat (len e); quote t] = row_line o i e t.
Proof.
  intros Ho Hi Hl. unfold row_line, row_cells. cbn [map].
  rewrite (quote_plain o), (quote_plain i), (quote_plain (show_nat (len e))) by (done || by apply show_nat_plain).
  assert (quote (kind_str e "dir") = kind_str e "dir") as -> by (unfold kind_str; simpl; by destruct (dir e)).
  assert (quote (kind_str e "kind") = kind_str e "kind") as -> by (unfold kind_str; simpl; by destruct (kind e)).
  done.
Qed.

Definition no_lf (l : list Z) : Prop := Forall (fun c => c <> 10) l.
(** A line that reads back whole: no LF inside, no line end at its end. *)
Definition whole_line (l : list Z) : Prop := no_lf l /\ (forall c, last l = Some c -> is_eol_char c = false).

Lemma plain_no_lf f : plain_field f -> no_lf f.
Proof. intros H. eapply Forall_impl; [exact H|]. intros c Hc ->. done. Qed.
Lemma quote_no_lf t : no_lf t -> no_lf (quote t).
Proof.
  intros H. unfold quote. destruct (existsb _ _); [|done]. unfold no_lf. rewrite !Forall_app.
  split; [by apply Forall_singleton|]. split; [|by apply Forall_singleton]. unfold escape_quotes.
  induction H as [|c t Hc _ IH]; [constructor|]. cbn [map concat]. apply Forall_app. split; [|done].
  destruct (Z.eqb_spec c 34); repeat constructor; lia.
Qed.
Lemma quote_last t c : last (quote t) = Some c -> is_eol_char c = false.
Proof.
  unfold quote. destruct (existsb csv_special t) eqn:E.
  - rewrite (assoc_L (++)), last_snoc. by intros [= <-].
  - intros Hl. apply last_Some_elem_of in Hl. destruct (is_eol_char c) eqn:Ec; [|done].
    assert (existsb csv_special t = true); [|congruence]. apply existsb_exists. exists c.
    split; [by apply list_elem_of_In|]. unfold is_eol_char, csv_special in *.
    apply orb_true_iff in Ec as [->| ->]; by rewrite ?orb_true_r.
Qed.

Lemma row_line_whole o i e t :
  plain_field o -> plain_field i -> 0 <= len e -> no_lf t ->
  whole_line (row_line o i e t) /\ row_line o i e t <> [].
Proof.
  intros Ho Hi Hl Ht. rewrite <- row_line_eq by done. cbn [join].
  assert (Hk : forall w, no_lf (kind_str e w)).
  { intros w. unfold kind_str. destruct (String.eqb w "dir"), (String.eqb w "kind"), (dir e), (kind e);
      apply (bool_decide_unpack _); reflexivity. }
  split; [split|].
  - unfold no_lf. rewrite !Forall_app. pose proof (plain_no_lf _ Ho). pose proof (plain_no_lf _ Hi).
    pose proof (plain_no_lf _ (show_nat_plain _ Hl)). pose proof (quote_no_lf _ Ht).
    repeat split; try done; try (by apply Hk); by apply Forall_singleton.
  - intros c. rewrite !(assoc_L (++)), last_app. destruct (last (quote t)) as [x|] eqn:E.
    + intros [= <-]. by apply quote_last in E.
    + rewrite last_snoc. by intros [= <-].
  - by destruct o.
Qed.

Lemma csv_lines_concat ls :
  Forall whole_line ls -> csv_lines (concat (map (fun l => l ++ [10]) ls)) = ls.
Proof.
  intros HF. assert (Hs : split_on 10 (concat (map (fun l => l ++ [10]) ls)) = ls ++ [[]]).
  { induction HF as [|l ls [Hl _] _ IH]; [done|]. cbn [map concat]. rewrite <- (assoc_L (++)). cbn [app].
    by rewrite split_on_app, IH, split_on_none. }
  unfold csv_lines. rewrite Hs, last_snoc, length_app. cbn [length].
  replace (length ls + 1 - 1)%nat with (length ls) by lia. rewrite take_app_length.
  clear Hs. induction HF as [|l ls [_ Hl] _ IH]; [done|]. simpl. by rewrite trim_end_id, IH.
Qed.

(** One exported record: its row, the two timestamps and the text written. *)
Record exported := mkExported { x_entry : IndexEntry; x_o : list Z; x_i : list Z; x_t : list Z }.
Definition exported_ok (raw_bin : list Z) (decode_text : list Z -> list Z) (tz : list Z -> result (list Z))
    (x : exported) : Prop :=
  read_at raw_bin (off (x_entry x)) (len (x_entry x)) ≫= (fun b => Ok (decode_text b)) = Ok (x_t x) /\
  tz (ts_origin (x_entry x)) = Ok (x_o x) /\ tz (ts_ingest (x_entry x)) = Ok (x_i x) /\
  plain_field (x_o x) /\ plain_field (x_i x) /\ 0 <= len (x_entry x) /\ no_lf (x_t x) /\
  zlen (utf8 (x_t x)) <= u32_max.
Definition x_line (x : exported) : list Z := row_line (x_o x) (x_i x) (x_entry x) (x_t x).

Lemma export_rows_ok raw_bin dec tz xs :
  Forall (exported_ok raw_bin dec tz) xs ->
  export_rows dec tz raw_bin (map (fun x => Some (Some (x_entry x))) xs) =
  Ok (concat (map (fun l => l ++ [10]) (map x_line xs))).
Proof.
  induction 1 as [|x xs (Hr & Ho & Hi & Po & Pi & Hl & _) _ IH]; [done|].
  cbn [map export_rows]. unfold export_row. apply bind_Ok in Hr as (b & -> & [= Ht]). cbn [mbind res_bind].
  rewrite Ho. cbn [mbind res_bind]. rewrite Hi. cbn [mbind res_bind]. rewrite IH, Ht, row_line_eq by done. done.
Qed.

Section ImportFacts.
  Variable now sid : Z.
  Variable rfc3339 : Z -> option (list Z).
  Variable parse_rfc3339_ns : list Z -> option Z.
Let cols : option nat * option nat * option nat := (None, None, Some 5%nat).

(** The import state after the texts [ts]. *)
Record import_inv (st : Imported) (ts : list (list Z)) : Prop := {
  im_pos : pos (i_raw st) = zlen (stream (inner (i_raw st)));
  im_rows : Forall2 (names (stream (inner (i_raw st)))) (i_index st) (map (fun t => (In, utf8 t)) ts);
  im_lines : map l_text (i_lines st) = ts
}.

Fixpoint texts_bytes (ts : list (list Z)) : Z :=
  match ts with [] => 0 | t :: ts' => zlen (utf8 t) + texts_bytes ts' end.

Lemma emit_row_inv st ts o i e t :
  import_inv st ts -> zlen (utf8 t) <= u32_max -> pos (i_raw st) + zlen (utf8 t) <= u64_max ->
  exists st', emit_row now sid rfc3339 parse_rfc3339_ns (row_cells o i e t) cols st = Ok st' /\
    import_inv st' (ts ++ [t]) /\ pos (i_raw st') = pos (i_raw st) + zlen (utf8 t).
Proof using Type.
  intros [Hp Hr Hl] Hs Hu. pose proof (zlen_nonneg (utf8 t)).
  pose proof (zlen_nonneg (stream (inner (i_raw st)))).
  unfold emit_row, cols, row_cells, raw_append. cbn [cell lookup list_lookup default from_option id].
  assert (try_from 0 u32_max (zlen (utf8 t)) = Some (zlen (utf8 t))) as -> by (apply try_from_Some; lia).
  rewrite checked_ok by lia. cbn [default from_option id mbind res_bind].
  eexists. split; [reflexivity|]. split; [|done]. split; cbn [i_raw i_index i_lines inner pos].
  - rewrite stream_append, zlen_app. lia.
  - rewrite map_app. apply Forall2_app.
    + eapply rows_mono; [|exact Hr]. rewrite stream_append. by apply prefix_app_r.
    + constructor; [|constructor]. rewrite stream_append, Hp.
      pose proof (row_names rfc3339 (sink_create sid None None [] [] [] [] []) (imported_ts now) In
        (stream (inner (i_raw st))) (utf8 t)) as Hn. exact Hn.
  - rewrite map_app. cbn [map l_text]. by rewrite Hl.
Qed.

Lemma import_rows_inv xs : forall st ts,
  import_inv st ts -> Forall (fun x => zlen (utf8 (x_t x)) <= u32_max /\ x_line x <> []) xs ->
  pos (i_raw st) + texts_bytes (map x_t xs) <= u64_max ->
  exists st', import_rows now sid rfc3339 parse_rfc3339_ns cols (map x_line xs) st = Ok st' /\
    import_inv st' (ts ++ map x_t xs).
Proof using Type.
  induction xs as [|x xs IH]; intros st ts Hi HF Hu.
  - exists st. cbn [map]. by rewrite app_nil_r.
  - inversion HF as [|? ? [Hs Hne] HF']; subst. cbn [map texts_bytes] in *.
    assert (Hnn : forall l, 0 <= texts_bytes l).
    { clear. induction l as [|t l IHl]; simpl; [lia|]. pose proof (zlen_nonneg (utf8 t)). lia. }
    pose proof (Hnn (map x_t xs)).
    destruct (emit_row_inv st ts (x_o x) (x_i x) (x_entry x) (x_t x) Hi Hs) as (st1 & He & Hi1 & Hp1); [lia|].
    destruct (IH st1 (ts ++ [x_t x]) Hi1 HF') as (st2 & Hr & Hi2); [lia|].
    exists st2. rewrite <- (assoc_L (++)) in Hi2. split; [|done]. cbn [import_rows].
    assert (Hpr : parse_row (x_line x) = row_cells (x_o x) (x_i x) (x_entry x) (x_t x)).
    { unfold x_line, row_line, parse_row. by rewrite parse_row_quoted. }
    destruct (x_line x) as [|c l]; [done|]. rewrite Hpr, He. cbn [mbind res_bind]. exact Hr.
Qed.
End ImportFacts.


Definition index0 : IndexEntry :=
  mkIndex (lit "2026-01-01T00:00:00Z") (lit "2026-01-01T00:00:00Z") 0 0 0 0 QUnknown 0 CSystem 1 In KBytes 0 3
    None [] None None None None.
Definition exported0 : exported := mkExported index0 (ts_origin index0) (ts_ingest index0) [97; 44; 98].
