(* ===== verification/Capture.v ===== *)
(** * Packet capture: packets, backends and the capture source

    crates/core/src/source/pcap.rs: [PcapPacket], [PcapStats], the
    [PcapBackend] trait, [PcapSource] over any backend, and the deterministic
    [FakePcapBackend].  The live backend is the instance of [Native]. *)
From stdpp Require Import base numbers strings list.
From S2P Require Import Prelude Text Spec.

Local Open Scope Z_scope.
Local Open Scope tm_scope.

(** ** Packets and counters *)
Record PcapPacket := mkPacket {
  p_seq : Z; p_ts_origin_ns : Z; captured_len : Z; original_len : Z; linktype : Z;
  interface_id : Z; data : list Z }.

Definition packet_from_bytes (sq ts orig link iface : Z) (d : list Z) : PcapPacket :=
  let cap := default u32_max (try_from 0 u32_max (zlen d)) in
  mkPacket sq ts cap (Z.max orig cap) link iface d.

Record PcapStats := mkPcapStats {
  packets_total : Z; bytes_total : Z; dropped_kernel_total : Z; dropped_app_total : Z;
  capture_queue_depth : Z; writer_queue_depth : Z; last_packet_ts_origin_ns : option Z }.
Definition no_pcap_stats : PcapStats := mkPcapStats 0 0 0 0 0 0 None.

(** ** The backend boundary; [stats] may refresh what the backend caches *)
Class PcapBackend (B : Type) := {
  b_open : PcapConfig -> B -> B * result unit;
  b_recv_packet : B -> B * result (option PcapPacket);
  b_stats : B -> B * result PcapStats;
  b_close : B -> B * result unit
}.

(** ** The source *)
Record PcapSource (B : Type) := mkSource { config : PcapConfig; backend : B; opened : bool }.
Arguments mkSource {B}. Arguments config {B}. Arguments backend {B}. Arguments opened {B}.

Section Source.
  Context {B : Type} `{!PcapBackend B}.

Definition with_backend (c : PcapConfig) (b : B) : PcapSource B := mkSource c b false.

Definition recv_packet (s : PcapSource B) : PcapSource B * result (option PcapPacket) :=
  if negb (opened s) then (s, Err E1102SourceClosed)
  else let '(b, r) := b_recv_packet (backend s) in (mkSource (config s) b (opened s), r).

Definition source_stats (s : PcapSource B) : PcapSource B * result PcapStats :=
  let '(b, r) := b_stats (backend s) in (mkSource (config s) b (opened s), r).

Definition source_open (s : PcapSource B) : PcapSource B * result unit :=
  if opened s then (s, Ok tt)
  else match validate (config s) with
       | Ok _ =>
           let '(b, r) := b_open (config s) (backend s) in
           match r with
           | Ok _ => (mkSource (config s) b true, Ok tt)
           | e => (mkSource (config s) b (opened s), e)
           end
       | e => (s, e)
       end.

(** [Source::recv] keeps the bytes and the interface only. *)
Definition source_recv (s : PcapSource B) : PcapSource B * result (option (list Z * list Z)) :=
  let '(s', r) := recv_packet s in
  (s', match r with
       | Ok p => Ok ((fun p => (interface (config s), data p)) <$> p)
       | Err e => Err e
       | Panic => Panic
       end).

Definition source_close (s : PcapSource B) : PcapSource B * result unit :=
  if opened s then
    let '(b, r) := b_close (backend s) in
    match r with
    | Ok _ => (mkSource (config s) b false, Ok tt)
    | e => (mkSource (config s) b (opened s), e)
    end
  else (mkSource (config s) (backend s) false, Ok tt).

Inductive source_op := SOpen | SRecv | SStats | SClose.
Definition source_step (s : PcapSource B) (o : source_op) : PcapSource B :=
  match o with
  | SOpen => fst (source_open s)
  | SRecv => fst (recv_packet s)
  | SStats => fst (source_stats s)
  | SClose => fst (source_close s)
  end.
Definition source_run (s : PcapSource B) (os : list source_op) : PcapSource B := fold_left source_step os s.
End Source.

(** ** The fake backend *)
Module FakePcapBackend.
Record FakePcapBackend := mkFake { packets : list PcapPacket; next_index : nat; stats : PcapStats; f_opened : bool }.

Definition set_depth (s : PcapStats) (d : Z) : PcapStats :=
  mkPcapStats (packets_total s) (bytes_total s) (dropped_kernel_total s) (dropped_app_total s) d
    (writer_queue_depth s) (last_packet_ts_origin_ns s).

Definition new (ps : list PcapPacket) : FakePcapBackend := mkFake ps 0 (set_depth no_pcap_stats (zlen ps)) false.
Definition with_kernel_drops (f : FakePcapBackend) (n : Z) : FakePcapBackend :=
  let s := stats f in
  mkFake (packets f) (next_index f)
    (mkPcapStats (packets_total s) (bytes_total s) n (dropped_app_total s) (capture_queue_depth s)
       (writer_queue_depth s) (last_packet_ts_origin_ns s)) (f_opened f).
Definition remaining_packets (ps : list PcapPacket) (i : nat) : Z := Z.of_nat (length ps - i).
Definition push_packet (f : FakePcapBackend) (p : PcapPacket) : FakePcapBackend :=
  let ps := packets f ++ [p] in
  mkFake ps (next_index f)
    (set_depth (stats f) (if f_opened f then remaining_packets ps (next_index f) else zlen ps)) (f_opened f).

Definition open (_ : PcapConfig) (f : FakePcapBackend) : FakePcapBackend * result unit :=
  let s := stats f in
  (mkFake (packets f) 0
     (mkPcapStats 0 0 (dropped_kernel_total s) (dropped_app_total s) (zlen (packets f)) 0 None) true, Ok tt).

Definition recv (f : FakePcapBackend) : FakePcapBackend * result (option PcapPacket) :=
  if negb (f_opened f) then (f, Err E1102SourceClosed)
  else
    match packets f !! next_index f with
    | None => (f, Ok None)
    | Some p =>
        let s := stats f in
        let i := S (next_index f) in
        match @checked ErrorId 0 u64_max (packets_total s + 1),
              @checked ErrorId 0 u64_max (bytes_total s + captured_len p) with
        | Ok n, Ok b =>
            (mkFake (packets f) i
               (mkPcapStats n b (dropped_kernel_total s) (dropped_app_total s)
                  (remaining_packets (packets f) i) (writer_queue_depth s) (Some (p_ts_origin_ns p)))
               (f_opened f), Ok (Some p))
        | _, _ => (f, Panic)
        end
    end.

#[global] Instance backend : PcapBackend FakePcapBackend := {
  b_open := open;
  b_recv_packet := recv;
  b_stats := fun f => (f, Ok (stats f));
  b_close := fun f => (mkFake (packets f) (next_index f) (stats f) false, Ok tt)
}.
End FakePcapBackend.

(** ** The calls a source makes to its backend *)
Inductive call := CallOpen (ok : bool) | CallRecv | CallStats | CallClose (ok : bool).
Record Logged (B : Type) := mkLogged { logged : B; calls : list call }.
Arguments mkLogged {B}. Arguments logged {B}. Arguments calls {B}.

Definition is_ok {A} (r : result A) : bool := match r with Ok _ => true | _ => false end.
Definition log_call {B A} (k : result A -> call) (l : Logged B) (out : B * result A) : Logged B * result A :=
  (mkLogged (fst out) (calls l ++ [k (snd out)]), snd out).

#[export] Instance Logged_backend {B} `{!PcapBackend B} : PcapBackend (Logged B) := {
  b_open := fun c l => log_call (fun r => CallOpen (is_ok r)) l (b_open c (logged l));
  b_recv_packet := fun l => log_call (fun _ => CallRecv) l (b_recv_packet (logged l));
  b_stats := fun l => log_call (fun _ => CallStats) l (b_stats (logged l));
  b_close := fun l => log_call (fun r => CallClose (is_ok r)) l (b_close (logged l))
}.

(** The backend's protocol: whether it is open, before and after a call. *)
Definition protocol (is_open : bool) (c : call) : option bool :=
  match is_open, c with
  | false, CallOpen ok => Some ok
  | true, CallRecv => Some true
  | true, CallClose ok => Some (negb ok)
  | b, CallStats => Some b
  | _, _ => None
  end.
Fixpoint follows (is_open : bool) (cs : list call) : option bool :=
  match cs with [] => Some is_open | c :: cs' => b ← protocol is_open c; follows b cs' end.

Lemma follows_snoc b cs c : follows b (cs ++ [c]) = (b' ← follows b cs; protocol b' c).
Proof.
  revert b. induction cs as [|d cs IH]; intros b; simpl.
  - by destruct (protocol b c).
  - destruct (protocol b d) as [b'|]; simpl; [apply IH|done].
Qed.

Lemma source_step_follows {B} `{!PcapBackend B} (s : PcapSource (Logged B)) o :
  follows false (calls (backend s)) = Some (opened s) ->
  follows false (calls (backend (source_step s o))) = Some (opened (source_step s o)).
Proof.
  intros H. destruct o; cbn [source_step].
  - unfold source_open. destruct (opened s) eqn:Eo; [simpl; by rewrite H, Eo|].
    destruct (validate (config s)); [|simpl; by rewrite H, Eo..].
    cbn [b_open Logged_backend log_call]. unfold log_call.
    destruct (b_open (config s) (logged (backend s))) as [b [u|e|]]; simpl;
      rewrite follows_snoc, H; simpl; by rewrite ?Eo.
  - unfold recv_packet. destruct (opened s) eqn:Eo; simpl; [|by rewrite H, Eo].
    unfold log_call. rewrite follows_snoc, H. done.
  - unfold source_stats, b_stats, Logged_backend, log_call. simpl. rewrite follows_snoc, H.
    by destruct (opened s).
  - unfold source_close. destruct (opened s) eqn:Eo; [|simpl; by rewrite H, ?Eo].
    cbn [b_close Logged_backend]. unfold log_call.
    destruct (b_close (logged (backend s))) as [b [u|e|]]; simpl;
      rewrite follows_snoc, H; simpl; by rewrite ?Eo.
Qed.

(** A capture source respects its backend's protocol: over any backend and
    any sequence of open, receive, stats and close calls on the source, the calls
    that reach the backend alternate properly — it is opened only when closed,
    received from and closed only when open, a failed open or close leaving it as
    it was — and the source's [opened] flag always says which of the two holds. *)
Theorem pcap_source_protocol {B} `{!PcapBackend B} c (b : B) os :
  let s := source_run (with_backend c (mkLogged b [])) os in
  follows false (calls (backend s)) = Some (opened s).
Proof.
  assert (G : forall os (s : PcapSource (Logged B)),
    follows false (calls (backend s)) = Some (opened s) ->
    follows false (calls (backend (source_run s os))) = Some (opened (source_run s os))).
  { clear. induction os as [|o os IH]; intros s H; [done|]. apply IH. by apply source_step_follows. }
  by apply G.
Qed.

(** ** What the fake backend delivers *)
Fixpoint recv_n {B} `{!PcapBackend B} (n : nat) (s : PcapSource B)
  : PcapSource B * list (result (option PcapPacket)) :=
  match n with
  | O => (s, [])
  | S n' => let '(s1, r) := recv_packet s in let '(s2, rs) := recv_n n' s1 in (s2, r :: rs)
  end.
Definition captured_sum (ps : list PcapPacket) : Z := foldr (fun p n => captured_len p + n) 0 ps.

(** The backend after [k] packets of an open source. *)
Definition at_packet (c : PcapConfig) (ps : list PcapPacket) (k : nat) (s : PcapSource FakePcapBackend.FakePcapBackend) : Prop :=
  opened s = true /\ config s = c /\
  let f := backend s in
  FakePcapBackend.packets f = ps /\ FakePcapBackend.next_index f = k /\
  FakePcapBackend.f_opened f = true /\
  packets_total (FakePcapBackend.stats f) = Z.of_nat k /\
  bytes_total (FakePcapBackend.stats f) = captured_sum (take k ps) /\
  capture_queue_depth (FakePcapBackend.stats f) = zlen ps - Z.of_nat k /\
  last_packet_ts_origin_ns (FakePcapBackend.stats f) = p_ts_origin_ns <$> last (take k ps).

Definition packet_ok (p : PcapPacket) : Prop := 0 <= captured_len p <= u32_max.

Lemma captured_sum_app ps qs : captured_sum (ps ++ qs) = captured_sum ps + captured_sum qs.
Proof. unfold captured_sum. induction ps as [|p ps IH]; simpl; lia. Qed.
Lemma captured_sum_nonneg ps : Forall packet_ok ps -> 0 <= captured_sum ps.
Proof. unfold captured_sum. induction 1 as [|p ps [H _] _ IH]; simpl; lia. Qed.
Lemma captured_sum_take ps k : Forall packet_ok ps -> captured_sum (take k ps) <= captured_sum ps.
Proof.
  intros H. rewrite <- (take_drop k ps) at 2. rewrite captured_sum_app.
  pose proof (captured_sum_nonneg (drop k ps) (Forall_drop _ k _ H)). lia.
Qed.

Lemma recv_at_packet c ps k s p :
  at_packet c ps k s -> Forall packet_ok ps -> zlen ps <= u64_max -> captured_sum ps <= u64_max ->
  ps !! k = Some p ->
  exists s', recv_packet s = (s', Ok (Some p)) /\ at_packet c ps (S k) s'.
Proof.
  intros (Ho & Hc & Hp & Hk & Hf & Hn & Hb & Hd & Hl) HF Hlen Hsum Hi.
  pose proof (lookup_lt_Some _ _ _ Hi). pose proof (captured_sum_take ps (S k) HF) as Ht.
  pose proof (captured_sum_nonneg _ (Forall_take _ (S k) _ HF)) as Hnn.
  pose proof (take_S_r ps k p Hi) as ES. rewrite ES, captured_sum_app in Ht, Hnn.
  cbn [captured_sum foldr] in Ht, Hnn.
  unfold recv_packet. rewrite Ho. cbn [negb b_recv_packet FakePcapBackend.backend].
  unfold FakePcapBackend.recv. rewrite Hf, Hp, Hk, Hi. cbn [negb]. rewrite Hn, Hb.
  rewrite (checked_ok 0 u64_max (Z.of_nat k + 1)) by zlia.
  rewrite (checked_ok 0 u64_max (captured_sum (take k ps) + captured_len p)) by (unfold captured_sum in *; lia).
  eexists. split; [reflexivity|]. unfold at_packet. cbn. split; [done|]. split; [done|].
  rewrite ES, captured_sum_app, last_snoc. unfold FakePcapBackend.remaining_packets. cbn [captured_sum foldr].
  repeat split; try zlia; done.
Qed.

Lemma recv_at_end c ps s k :
  at_packet c ps k s -> ps !! k = None -> exists s', recv_packet s = (s', Ok None) /\ at_packet c ps k s'.
Proof.
  intros H Hi. destruct (H) as (Ho & Hc & Hp & Hk & Hf & _). unfold recv_packet. rewrite Ho.
  cbn [negb b_recv_packet FakePcapBackend.backend]. unfold FakePcapBackend.recv. rewrite Hf, Hp, Hk, Hi. cbn [negb].
  destruct s as [c' b o]. eexists. split; [reflexivity|]. cbn in Ho, Hk. by subst.
Qed.

Lemma recv_n_at c ps n : forall k s,
  at_packet c ps k s -> (k <= length ps)%nat -> Forall packet_ok ps -> zlen ps <= u64_max ->
  captured_sum ps <= u64_max ->
  exists s', recv_n n s = (s', map (fun i => Ok (ps !! i)) (seq k n)) /\
    at_packet c ps (min (k + n) (length ps)) s'.
Proof.
  induction n as [|n IH]; intros k s H Hk HF Hl Hs; simpl.
  - exists s. replace (min (k + 0) (length ps)) with k by lia. done.
  - destruct (ps !! k) as [p|] eqn:E.
    + destruct (recv_at_packet c ps k s p) as (s1 & -> & H1); [done..|].
      pose proof (lookup_lt_Some _ _ _ E).
      destruct (IH (S k) s1) as (s2 & -> & HS); [done|lia|done..|].
      exists s2. split; [done|]. by replace (k + S n)%nat with (S k + n)%nat by lia.
    + destruct (recv_at_end c ps s k) as (s1 & -> & H1); [done..|].
      pose proof (lookup_ge_None_1 _ _ E). assert (Hend : k = length ps) by lia.
      destruct (IH k s1) as (s2 & -> & HS); [done..|]. exists s2. split.
      * do 2 f_equal. rewrite !(map_ext_in (fun i => Ok (ps !! i)) (fun _ => Ok None)).
        { rewrite !map_const. f_equal. by rewrite !length_seq. }
        all: intros i [Hi _]%in_seq; rewrite (lookup_ge_None_2 ps i); [done|lia].
      * by replace (min (k + S n) (length ps)) with (min (k + n) (length ps)) by lia.
Qed.

(** Capturing from the fake backend delivers its packets exactly: after a
    successful open of a valid configuration, successive receives return the
    packets in order and then end-of-stream for ever, and the counters are the
    number of packets delivered, their captured bytes, the packets still queued
    and the last origin timestamp. *)
Theorem fake_capture_exact c ps n drops :
  validate c = Ok tt -> Forall packet_ok ps -> zlen ps <= u64_max -> captured_sum ps <= u64_max ->
  let s0 := with_backend c (FakePcapBackend.with_kernel_drops (FakePcapBackend.new ps) drops) in
  exists s1 s2,
    source_open s0 = (s1, Ok tt) /\
    recv_n n s1 = (s2, map (fun i => Ok (ps !! i)) (seq 0 n)) /\
    at_packet c ps (min n (length ps)) s2 /\
    snd (source_stats s2) = Ok (FakePcapBackend.stats (backend s2)) /\
    dropped_kernel_total (FakePcapBackend.stats (backend s1)) = drops.
Proof.
  intros Hv HF Hl Hs s0.
  set (s1 := mkSource c (fst (FakePcapBackend.open c (backend s0))) true).
  assert (H1 : at_packet c ps 0 s1).
  { unfold at_packet. cbn. repeat split; try done; zlia. }
  destruct (recv_n_at c ps n 0 s1) as (s2 & E & H2); [done|lia|done..|].
  exists s1, s2. unfold source_open. cbn [opened s0 with_backend config]. rewrite Hv.
  repeat split; try done; apply H2.
Qed.
Definition pkt0 : PcapPacket := packet_from_bytes 1 1700000000123456789 64 1 0 [1; 2; 3].
Definition pkt1 : PcapPacket := packet_from_bytes 2 1700000000123456790 3 1 0 [4; 5; 6].
Lemma fake_capture_exact_witness :
  exists s1 s2,
    source_open (with_backend (pcap_new (lit "eth0"))
      (FakePcapBackend.with_kernel_drops (FakePcapBackend.new [pkt0; pkt1]) 5)) = (s1, Ok tt) /\
    recv_n 3 s1 = (s2, [Ok (Some pkt0); Ok (Some pkt1); Ok None]).
Proof.
  destruct (fake_capture_exact (pcap_new (lit "eth0")) [pkt0; pkt1] 3 5) as (s1 & s2 & H1 & H2 & _).
  - reflexivity.
  - repeat (apply Forall_cons; split; [vm_compute; split; discriminate|]). constructor.
  - vm_compute. discriminate.
  - vm_compute. discriminate.
  - exists s1, s2. split; [exact H1|exact H2].
Defined.
