(* ===== verification/Pcapng.v ===== *)
(** * pcapng export, direct streaming and import

    crates/core/src/exporter/pcapng.rs and crates/core/src/importer/pcapng.rs.
    The block writer belongs to the pcap_file crate: it is the class
    [PcapNgWriter], and [PcapNgFormat] states what its documentation and the
    pcapng format promise (a block is appended when its interface exists; the
    byte layout of the blocks).  RFC 3339 and the JSON of rows are parameters,
    as in [SessionDir]. *)
From stdpp Require Import base numbers strings gmap list.
From S2P Require Import Prelude Text Naming Spec Decoder Clock SessionDir Capture.

Local Open Scope Z_scope.
Local Open Scope tm_scope.

(** ** Blocks, and the crate's writer *)
Inductive Block :=
| IDB (link snap tsresol : Z) (name : list Z)
| EPB (interface_id timestamp_ns original_len : Z) (packet : list Z).

Definition is_idb (b : Block) : bool := match b with IDB _ _ _ _ => true | EPB _ _ _ _ => false end.
Definition idbs (bs : list Block) : list Block := List.filter is_idb bs.
Definition epbs (bs : list Block) : list Block := List.filter (fun b => negb (is_idb b)) bs.

Class PcapNgWriter (W : Type) := {
  wr_new : W;
  wr_write : W -> Block -> W * result unit;
  wr_bytes : W -> list Z
}.

Definition PCAP_PACKET_SCHEMA_ID : list Z := lit "tracemux.pcap.packet.v1".
Definition DEFAULT_ETHERNET_LINKTYPE : Z := 1.
Definition PCAPNG_NANOSECOND_TSRESOL : Z := 9.

(** ** exporter/pcapng.rs: packet metadata *)
Record PacketMetadata := mkMeta {
  m_raw_off : Z; m_raw_len : Z; m_captured_len : option Z; m_original_len : option Z;
  m_linktype : option Z; m_interface : option (list Z) }.

Definition field (v : Value) (key : string) : option Value :=
  match v with VObject m => JsonLines.obj_get (lit key) m | _ => None end.
Definition u64_field (v : Value) (key : string) : option Z :=
  match field v key with
  | Some (VNumber n) => parse_unsigned 10 u64_max n
  | Some (VString s) => parse_unsigned 10 u64_max s
  | _ => None
  end.
Definition u32_field (v : Value) (key : string) : option Z := u64_field v key ≫= try_from 0 u32_max.
Definition string_field (v : Value) (key : string) : option (list Z) :=
  match field v key with Some (VString s) => Some s | _ => None end.

Definition from_fields (v : Value) : option PacketMetadata :=
  o ← u64_field v "raw_off"; l ← u32_field v "raw_len";
  Some (mkMeta o l (u32_field v "captured_len") (u32_field v "original_len") (u32_field v "linktype")
          (string_field v "interface")).

Abbreviation MetaMap := (gmap (Z * Z) PacketMetadata).
Definition is_packet_schema (o : option (list Z)) : bool := bool_decide (o = Some PCAP_PACKET_SCHEMA_ID).

(** A frame line is blank ([None]), a row, or not JSON ([Some None]). *)
Fixpoint read_metadata_lines (out : MetaMap) (ls : list (option (option FrameEntry))) : result MetaMap :=
  match ls with
  | [] => Ok out
  | None :: ls' => read_metadata_lines out ls'
  | Some None :: _ => Err E1001PipelineGeneric
  | Some (Some f) :: ls' =>
      read_metadata_lines
        (if is_packet_schema (schema_id (f_record f)) then
           match from_fields (fields (f_record f)) with
           | Some m => <[(m_raw_off m, m_raw_len m) := m]> out
           | None => out
           end
         else out) ls'
  end.
(** [None] is a session without [frames.jsonl]. *)
Definition read_packet_metadata (frames : option (list (option (option FrameEntry)))) : result MetaMap :=
  match frames with None => Ok ∅ | Some ls => read_metadata_lines ∅ ls end.

Definition is_pcap_datagram (e : IndexEntry) (meta : option PacketMetadata) : bool :=
  bool_decide (is_Some meta) || is_packet_schema (e_schema_id e) ||
  match e_source e with Some s => starts_with (lit "pcap:") s | None => false end.

Definition packet_interface_label (e : IndexEntry) (meta : option PacketMetadata) : list Z :=
  let l := match meta ≫= m_interface with
           | Some i => Some i
           | None => e_source e ≫= strip_prefix (lit "pcap:")
           end in
  match l with Some ((_ :: _) as s) => s | _ => lit "pcap" end.

(** [timestamp_nanos_duration]: the nanoseconds of the resulting [Duration]. *)
Definition timestamp_nanos_duration (nanos : Z) : result Z :=
  if nanos <? 0 then Err E1001PipelineGeneric
  else
    let secs := nanos / 1000000000 in
    let subsec := nanos mod 1000000000 in
    match try_from 0 u64_max secs with
    | None => Err E1001PipelineGeneric
    | Some s => Ok (s * 1000000000 + subsec)
    end.

(** ** Interfaces *)
Abbreviation InterfaceKey := (Z * list Z)%type.
Abbreviation Interfaces := (gmap InterfaceKey Z).

Section Writer.
  Context {W : Type} `{!PcapNgWriter W}.

Definition ensure_interface (w : W) (ifs : Interfaces) (key : InterfaceKey) : W * Interfaces * result Z :=
  match ifs !! key with
  | Some id => (w, ifs, Ok id)
  | None =>
      match try_from 0 u32_max (Z.of_nat (size ifs)) with
      | None => (w, ifs, Err E1001PipelineGeneric)
      | Some id =>
          let '(w', r) := wr_write w (IDB (fst key) 0 PCAPNG_NANOSECOND_TSRESOL (snd key)) in
          match r with
          | Ok _ => (w', <[key := id]> ifs, Ok id)
          | Err e => (w', ifs, Err e)
          | Panic => (w', ifs, Panic)
          end
      end
  end.

(** ** The session export *)
Section Export_.
  (** The instant of an RFC 3339 text, in nanoseconds. *)
  Variable parse_rfc3339 : list Z -> option Z.

Definition timestamp_duration (ts : list Z) : result Z :=
  match parse_rfc3339 ts with None => Err E1001PipelineGeneric | Some n => timestamp_nanos_duration n end.

Definition export_entry (meta : MetaMap) (raw_bin : list Z) (st : W * Interfaces * Z) (e : IndexEntry)
  : result (W * Interfaces * Z) :=
  let '(w, ifs, exported) := st in
  match kind e with
  | KDatagram =>
      let m := meta !! (off e, len e) in
      if negb (is_pcap_datagram e m) then Ok st
      else
        let* bytes := read_at raw_bin (off e) (len e) in
        let link := default DEFAULT_ETHERNET_LINKTYPE (m ≫= m_linktype) in
        let '(w1, ifs1, r) := ensure_interface w ifs (link, packet_interface_label e m) in
        let* id := r in
        let orig := match m ≫= m_original_len with
                    | Some n => n
                    | None => default (len e) (m ≫= m_captured_len)
                    end in
        let* ts := timestamp_duration (ts_origin e) in
        let '(w2, r2) := wr_write w1 (EPB id ts orig bytes) in
        do* r2 in
        let* n := checked 0 usize_max (exported + 1) in
        Ok (w2, ifs1, n)
  | _ => Ok st
  end.

Fixpoint export_entries (meta : MetaMap) (raw_bin : list Z) (st : W * Interfaces * Z)
    (ls : list (option (option IndexEntry))) : result (W * Interfaces * Z) :=
  match ls with
  | [] => Ok st
  | None :: ls' => export_entries meta raw_bin st ls'
  | Some None :: _ => Err E1001PipelineGeneric
  | Some (Some e) :: ls' => let* st' := export_entry meta raw_bin st e in export_entries meta raw_bin st' ls'
  end.

Definition pcapng_export (raw_bin : list Z) (index_lines : list (option (option IndexEntry)))
    (frames : option (list (option (option FrameEntry)))) : result W :=
  let* meta := read_packet_metadata frames in
  let* '(w, _, exported) := export_entries meta raw_bin (wr_new, ∅, 0) index_lines in
  if exported =? 0 then Err E1001PipelineGeneric else Ok w.
End Export_.
End Writer.

(** ** importer/pcapng.rs *)
Definition BLOCK_SHB : Z := 0x0A0D0D0A.
Definition BLOCK_EPB : Z := 6.
Definition SHB_MAGIC : Z := 0x1A2B3C4D.

Record PImported := mkPImported { pi_raw : RawWriter; pi_index : list IndexEntry }.

Section Import_.
  (** The wall clock, the session id and RFC 3339 rendering. *)
  Variable now : Z.
  Variable sid : Z.
  Variable rfc3339 : Z -> option (list Z).

Definition read4 (body : list Z) (i : nat) : Z := le_val (take 4 (drop i body)).
Definition p_imported_ts (ns : Z) : DualTimestamp := mkTs ns now 0 0 0 0 QImported 0 CImported.

(** One block, after its header, body and trailer were read. *)
Definition import_block (block_type : Z) (body : list Z) (st : PImported) : PImported * result unit :=
  let body_len := zlen body in
  if block_type =? BLOCK_SHB then
    if body_len <? 4 then (st, Err E1001PipelineGeneric)
    else if negb (read4 body 0 =? SHB_MAGIC) then (st, Err E1001PipelineGeneric)
    else (st, Ok tt)
  else if block_type =? BLOCK_EPB then
    if body_len <? 20 then (st, Ok tt)
    else
      let ts_high := read4 body 4 in
      let ts_low := read4 body 8 in
      let cap_len := read4 body 12 in
      if body_len <? 20 + cap_len then (st, Err E1001PipelineGeneric)
      else
        let pkt := take (Z.to_nat cap_len) (drop 20 body) in
        let '(r1, res) := raw_append 0 None (pi_raw st) pkt in
        match res with
        | Ok (o, l) =>
            let ts_us := Z.lor (Z.shiftl ts_high 32) ts_low in
            let ts_ns := sat_mul i64_min i64_max (u64_as_i64 ts_us) 1000 in
            let e := from_envelope rfc3339 (p_imported_ts ts_ns) sid In KDatagram o l in
            (mkPImported r1 (pi_index st ++ [e]), Ok tt)
        | Err e => (mkPImported r1 (pi_index st), Err e)
        | Panic => (mkPImported r1 (pi_index st), Panic)
        end
  else (st, Ok tt).

(** [read_exact] on what is left of the file. *)
Definition read_n (n : nat) (rest : list Z) : option (list Z * list Z) :=
  if (n <=? length rest)%nat then Some (take n rest, drop n rest) else None.

(** The block loop; it ends at the first end of file in a block header. *)
Fixpoint import_loop (fuel : nat) (rest : list Z) (st : PImported) : PImported * result unit :=
  match fuel with
  | O => (st, Panic)
  | S fuel' =>
      match read_n 8 rest with
      | None => (st, Ok tt)
      | Some (header, r1) =>
          let block_type := read4 header 0 in
          let total_len := read4 header 4 in
          if total_len <? 12 then (st, Err E1001PipelineGeneric)
          else
            match read_n (Z.to_nat (total_len - 12)) r1 with
            | None => (st, Err E1001PipelineGeneric)
            | Some (body, r2) =>
                match read_n 4 r2 with
                | None => (st, Err E1001PipelineGeneric)
                | Some (_, r3) =>
                    let '(st1, r) := import_block block_type body st in
                    match r with Ok _ => import_loop fuel' r3 st1 | e => (st1, e) end
                end
            end
      end
  end.

(** Every block is at least twelve bytes: this fuel is never used up. *)
Definition pcapng_import (file : list Z) : PImported * result unit :=
  import_loop (S (length file)) file (mkPImported (raw_create []) []).
End Import_.

(** ** What the crate's writer and the format promise, I/O errors aside *)
Definition frame (ty : Z) (body : list Z) : list Z :=
  le_bytes 4 ty ++ le_bytes 4 (12 + zlen body) ++ body ++ le_bytes 4 (12 + zlen body).
Definition pad (d : list Z) : list Z := replicate (Z.to_nat ((- zlen d) mod 4)) 0.
(** The timestamp is in ticks of the interface's [if_tsresol], here 10^-9 s. *)
Definition epb_body (id ts orig : Z) (d : list Z) : list Z :=
  le_bytes 4 id ++ le_bytes 4 (ts / 2 ^ 32) ++ le_bytes 4 (ts mod 2 ^ 32) ++
  le_bytes 4 (zlen d) ++ le_bytes 4 orig ++ d ++ pad d.

Definition block_fits (bs : list Block) (b : Block) : Prop :=
  match b with IDB _ _ _ _ => True | EPB id _ _ _ => 0 <= id < zlen (idbs bs) end.

Class PcapNgFormat (W : Type) `{!PcapNgWriter W} := {
  written : W -> list Block;
  shb_rest : list Z;
  idb_body : Z -> Z -> Z -> list Z -> list Z;
  block_bytes (b : Block) : list Z :=
    match b with
    | IDB l s r n => frame 1 (idb_body l s r n)
    | EPB id ts orig d => frame 6 (epb_body id ts orig d)
    end;
  shb_len : zlen shb_rest <= 2 ^ 20;
  idb_len l s r n : zlen n <= u16_max -> zlen (idb_body l s r n) <= 2 ^ 20;
  written_new : written wr_new = [];
  write_ok w b : block_fits (written w) b ->
    exists w', wr_write w b = (w', Ok tt) /\ written w' = written w ++ [b];
  bytes_layout w :
    wr_bytes w = frame 0x0A0D0D0A (le_bytes 4 0x1A2B3C4D ++ shb_rest) ++ concat (map block_bytes (written w))
}.

(** A reader's view of a section: each packet with its interface, timestamp,
    original length and bytes. *)
Definition view : Type := option InterfaceKey * Z * Z * list Z.
Definition iface_at (bs : list Block) (id : Z) : option InterfaceKey :=
  match idbs bs !! Z.to_nat id with Some (IDB l _ _ n) => Some (l, n) | _ => None end.
Definition view_block (bs : list Block) (b : Block) : list view :=
  match b with EPB id ts orig d => [(iface_at bs id, ts, orig, d)] | IDB _ _ _ _ => [] end.
Definition packets_of (bs : list Block) : list view := concat (map (view_block bs) bs).

(** Every packet's interface is described, and the map names the descriptions. *)
Record section_ok (bs : list Block) (ifs : Interfaces) : Prop := {
  ifs_size : Z.of_nat (size ifs) = zlen (idbs bs);
  ifs_named key id : ifs !! key = Some id ->
    0 <= id /\ idbs bs !! Z.to_nat id = Some (IDB (fst key) 0 PCAPNG_NANOSECOND_TSRESOL (snd key));
  epb_ids : Forall (block_fits bs) bs
}.

Lemma idbs_app a b : idbs (a ++ b) = idbs a ++ idbs b.
Proof. apply List.filter_app. Qed.
Lemma idbs_are_idb bs i b : idbs bs !! i = Some b -> exists l s r n, b = IDB l s r n.
Proof.
  intros H%list_elem_of_lookup_2. apply list_elem_of_In, List.filter_In in H as [_ H].
  destruct b; [by eauto|done].
Qed.
Lemma fits_app a k b : block_fits a b -> block_fits (a ++ k) b.
Proof. destruct b; simpl; [done|]. rewrite idbs_app. zlia. Qed.
Lemma view_block_app a k b : block_fits a b -> view_block (a ++ k) b = view_block a b.
Proof.
  destruct b as [|id ts orig d]; [done|]. simpl. intros Hf. unfold iface_at.
  rewrite idbs_app, lookup_app_l by zlia. done.
Qed.
Lemma packets_of_snoc bs b :
  Forall (block_fits bs) bs -> packets_of (bs ++ [b]) = packets_of bs ++ view_block (bs ++ [b]) b.
Proof.
  intros HF. unfold packets_of. rewrite map_app, concat_app. simpl. rewrite app_nil_r. f_equal.
  f_equal. apply map_ext_in. intros c Hc%list_elem_of_In. apply view_block_app.
  by eapply Forall_forall in HF.
Qed.
Lemma section_empty : section_ok [] ∅.
Proof. split; [done| |constructor]. intros key id. by rewrite lookup_empty. Qed.

Section WriterFacts.
  Context {W : Type} `{!PcapNgWriter W} `{!PcapNgFormat W}.

Lemma ensure_spec (w : W) ifs key :
  section_ok (written w) ifs -> Z.of_nat (size ifs) <= u32_max ->
  exists w' ifs' id post,
    ensure_interface w ifs key = (w', ifs', Ok id) /\ section_ok (written w') ifs' /\
    ifs' !! key = Some id /\ written w' = written w ++ post /\
    (post = [] \/ post = [IDB (fst key) 0 PCAPNG_NANOSECOND_TSRESOL (snd key)]) /\
    packets_of (written w') = packets_of (written w) /\ (size ifs' <= size ifs + 1)%nat.
Proof.
  intros [Hs Hn He] Hb. unfold ensure_interface. destruct (ifs !! key) as [id|] eqn:E.
  - exists w, ifs, id, []. rewrite app_nil_r.
    split; [done|]. split; [by split|]. split; [done|]. split; [done|]. split; [by left|]. split; [done|lia].
  - assert (try_from 0 u32_max (Z.of_nat (size ifs)) = Some (Z.of_nat (size ifs))) as ->
      by (apply try_from_Some; split; [done|]; lia).
    set (b := IDB (fst key) 0 PCAPNG_NANOSECOND_TSRESOL (snd key)).
    destruct (write_ok w b) as (w' & -> & Hw); [done|].
    exists w', (<[key := Z.of_nat (size ifs)]> ifs), (Z.of_nat (size ifs)), [b].
    split; [done|]. rewrite Hw. split; [split|].
    + rewrite map_size_insert_None, idbs_app by done. cbn. zlia.
    + intros k i [[<- <-]|[Hk Hi]]%lookup_insert_Some.
      * split; [lia|]. rewrite idbs_app, lookup_app_r by zlia.
        replace (_ - _)%nat with O by zlia. done.
      * destruct (Hn k i Hi) as [H0 H1]. split; [done|]. rewrite idbs_app.
        rewrite lookup_app_l by (by eapply lookup_lt_Some). done.
    + apply Forall_app. split; [|by constructor]. eapply Forall_impl; [exact He|].
      intros c. apply fits_app.
    + split; [by rewrite lookup_insert_eq|]. split; [done|]. split; [by right|].
      rewrite packets_of_snoc by done. cbn [view_block b]. rewrite app_nil_r. split; [done|].
      rewrite map_size_insert_None by done. lia.
Qed.

Lemma write_packet_spec (w : W) ifs key id ts orig d :
  section_ok (written w) ifs -> ifs !! key = Some id ->
  exists w', wr_write w (EPB id ts orig d) = (w', Ok tt) /\ section_ok (written w') ifs /\
    written w' = written w ++ [EPB id ts orig d] /\
    packets_of (written w') = packets_of (written w) ++ [(Some key, ts, orig, d)].
Proof.
  intros [Hs Hn He] Hk. destruct (Hn key id Hk) as [H0 Hl]. pose proof (lookup_lt_Some _ _ _ Hl).
  assert (Hf : block_fits (written w) (EPB id ts orig d)) by (simpl; zlia).
  destruct (write_ok w _ Hf) as (w' & E & Hw). exists w'. split; [done|]. rewrite Hw.
  assert (Hi : idbs (written w ++ [EPB id ts orig d]) = idbs (written w)) by (rewrite idbs_app; apply app_nil_r).
  split; [split|split; [done|]].
  - by rewrite Hi.
  - intros k i. rewrite Hi. apply Hn.
  - apply Forall_app. split; [|by constructor; [apply fits_app|]].
    eapply Forall_impl; [exact He|]. intros c. apply fits_app.
  - rewrite packets_of_snoc by done. cbn [view_block]. unfold iface_at. rewrite Hi, Hl.
    by destruct key.
Qed.
End WriterFacts.

(** Blocks whose lengths fit the format's fields. *)
Definition packet_small (ts : Z) (d : list Z) : Prop := 0 <= ts < 2 ^ 64 /\ zlen d <= 2 ^ 31.
Definition block_small (b : Block) : Prop :=
  match b with IDB _ _ _ n => zlen n <= u16_max | EPB _ ts _ d => packet_small ts d end.
Definition view_small (v : view) : Prop :=
  let '(key, ts, _, d) := v in
  match key with Some (_, n) => zlen n <= u16_max | None => False end /\ packet_small ts d.

(** ** What an export holds *)
Definition link_of (m : option PacketMetadata) : Z := default DEFAULT_ETHERNET_LINKTYPE (m ≫= m_linktype).
Definition orig_of (e : IndexEntry) (m : option PacketMetadata) : Z :=
  match m ≫= m_original_len with Some n => n | None => default (len e) (m ≫= m_captured_len) end.
Definition exported (meta : MetaMap) (e : IndexEntry) : bool :=
  match kind e with KDatagram => is_pcap_datagram e (meta !! (off e, len e)) | _ => false end.
(** The packet an index row stands for. *)
Definition row_packet (parse_rfc3339 : list Z -> option Z) (meta : MetaMap) (raw_bin : list Z)
    (e : IndexEntry) (v : view) : Prop :=
  let m := meta !! (off e, len e) in
  exists ts bytes,
    read_at raw_bin (off e) (len e) = Ok bytes /\ timestamp_duration parse_rfc3339 (ts_origin e) = Ok ts /\
    v = (Some (link_of m, packet_interface_label e m), ts, orig_of e m, bytes).
(** The rows of an index whose lines are rows or blank. *)
Definition index_rows (ls : list (option (option IndexEntry))) : list IndexEntry := omap (fun l => l ≫= id) ls.
Definition lines_ok (ls : list (option (option IndexEntry))) : Prop := Forall (fun l => l <> Some None) ls.

Section ExportFacts.
  Context {W : Type} `{!PcapNgWriter W} `{!PcapNgFormat W}.
  Variable parse_rfc3339 : list Z -> option Z.
  Variable meta : MetaMap.
  Variable raw_bin : list Z.

Lemma export_entry_skip st e :
  exported meta e = false -> export_entry parse_rfc3339 meta raw_bin st e = @Ok ErrorId (W * Interfaces * Z) st.
Proof using Type.
  unfold exported, export_entry. destruct st as [[w ifs] n]. destruct (kind e); [done| |done|done].
  intros ->. done.
Qed.

Lemma export_entry_spec w ifs n e v :
  exported meta e = true -> row_packet parse_rfc3339 meta raw_bin e v ->
  section_ok (written w) ifs -> Z.of_nat (size ifs) <= u32_max -> 0 <= n < usize_max ->
  exists w' ifs', export_entry parse_rfc3339 meta raw_bin (w, ifs, n) e = Ok (w', ifs', n + 1) /\
    section_ok (written w') ifs' /\ (size ifs' <= size ifs + 1)%nat /\
    packets_of (written w') = packets_of (written w) ++ [v] /\
    (view_small v -> Forall block_small (written w) -> Forall block_small (written w')).
Proof using Type.
  intros He (ts & bytes & Hr & Ht & ->) Hs Hz Hn. unfold exported in He. unfold export_entry.
  destruct (kind e); try done. rewrite He. cbn [negb]. rewrite Hr. cbn [mbind res_bind].
  destruct (ensure_spec w ifs (link_of (meta !! (off e, len e)), packet_interface_label e (meta !! (off e, len e))))
    as (w1 & ifs1 & id & post & E1 & Hs1 & Hk & Hw1 & Hpost & Hp & Hz1); [done..|].
  unfold link_of in E1 at 1. rewrite E1. cbn [mbind res_bind]. rewrite Ht. cbn [mbind res_bind].
  destruct (write_packet_spec w1 ifs1 _ id ts (orig_of e (meta !! (off e, len e))) bytes Hs1 Hk)
    as (w2 & E2 & Hs2 & Hw2 & Hp2).
  unfold orig_of in E2 at 1. rewrite E2. cbn [mbind res_bind].
  rewrite checked_ok by lia. cbn [mbind res_bind]. exists w2, ifs1.
  split; [done|]. split; [done|]. split; [done|]. split; [by rewrite Hp2, Hp|].
  intros [Hn' Hd] HF. rewrite Hw2, Hw1. apply Forall_app. split; [apply Forall_app; split; [done|]|by constructor].
  by destruct Hpost as [->| ->]; repeat constructor.
Qed.

Lemma export_entries_spec ls : forall w ifs n vs,
  lines_ok ls -> Forall2 (row_packet parse_rfc3339 meta raw_bin) (List.filter (exported meta) (index_rows ls)) vs ->
  section_ok (written w) ifs -> Z.of_nat (size ifs) + zlen vs <= u32_max -> 0 <= n -> n + zlen vs <= usize_max ->
  exists w' ifs', export_entries parse_rfc3339 meta raw_bin (w, ifs, n) ls = Ok (w', ifs', n + zlen vs) /\
    section_ok (written w') ifs' /\ packets_of (written w') = packets_of (written w) ++ vs /\
    (Forall view_small vs -> Forall block_small (written w) -> Forall block_small (written w')).
Proof using Type.
  induction ls as [|[[e|]|] ls IH]; intros w ifs n vs Hl HF Hs Hz H0 Hn.
  - inversion HF; subst. exists w, ifs. rewrite app_nil_r, zlen_nil, Z.add_0_r. done.
  - apply Forall_cons in Hl as [_ Hl]. cbn [export_entries].
    change (index_rows (Some (Some e) :: ls)) with (e :: index_rows ls) in HF. cbn [List.filter] in HF.
    destruct (exported meta e) eqn:Ee.
    + apply Forall2_cons_inv_l in HF as (v & vs' & Hv & HF & ->). rewrite zlen_cons in *.
      pose proof (zlen_nonneg vs').
      destruct (export_entry_spec w ifs n e v) as (w1 & ifs1 & -> & Hs1 & Hz1 & Hp1 & Hb1); [done..|lia|lia|].
      cbn [mbind res_bind]. destruct (IH w1 ifs1 (n + 1) vs') as (w2 & ifs2 & -> & Hs2 & Hp2 & Hb2); [done..|lia|lia|lia|].
      exists w2, ifs2. rewrite Hp2, Hp1, <- (assoc_L (++)). split; [do 2 f_equal; lia|].
      split; [done|]. split; [done|]. intros [Hv1 Hv2]%Forall_cons Hw. by apply Hb2, Hb1.
    + rewrite export_entry_skip by done. cbn [mbind res_bind]. by apply IH.
  - apply Forall_cons in Hl as [Hl _]. done.
  - apply Forall_cons in Hl as [_ Hl]. by apply IH.
Qed.

Lemma pcapng_export_ok ls frames vs :
  read_packet_metadata frames = Ok meta -> lines_ok ls ->
  Forall2 (row_packet parse_rfc3339 meta raw_bin) (List.filter (exported meta) (index_rows ls)) vs ->
  vs <> [] -> zlen vs <= u32_max ->
  exists w ifs, pcapng_export parse_rfc3339 raw_bin ls frames = Ok w /\
    section_ok (written w) ifs /\ packets_of (written w) = vs /\
    (Forall view_small vs -> Forall block_small (written w)).
Proof using Type.
  intros Hm Hl HF Hne Hz. unfold pcapng_export. rewrite Hm. cbn [mbind res_bind].
  destruct (export_entries_spec ls wr_new ∅ 0 vs) as (w & ifs & -> & Hs & Hp & Hb); [done..| | | | |].
  - rewrite written_new. apply section_empty.
  - rewrite map_size_empty. lia.
  - lia.
  - unfold u32_max, usize_max, u64_max in *. lia.
  - cbn [mbind res_bind]. rewrite written_new in Hp.
    assert (zlen vs <> 0) by (rewrite zlen_zero; done).
    rewrite (proj2 (Z.eqb_neq _ _)) by lia. exists w, ifs.
    rewrite written_new in Hb. split; [done|]. split; [done|]. split; [done|]. intros Hv. by apply Hb.
Qed.
End ExportFacts.

(** ** What an import reads *)
Lemma read4_at pre v rest :
  0 <= v <= u32_max -> read4 (pre ++ le_bytes 4 v ++ rest) (length pre) = v.
Proof.
  intros Hv. unfold read4. rewrite drop_app_length, take_app_length' by (by rewrite length_le_bytes).
  apply le_val_le_bytes. unfold u32_max in Hv. lia.
Qed.
Lemma read4_eq pre v rest l i :
  l = pre ++ le_bytes 4 v ++ rest -> i = length pre -> 0 <= v <= u32_max -> read4 l i = v.
Proof. intros -> -> ?. by apply read4_at. Qed.

Lemma read_n_app n a b : length a = n -> read_n n (a ++ b) = Some (a, b).
Proof.
  intros <-. unfold read_n. rewrite length_app. rewrite (proj2 (Nat.leb_le _ _)) by lia.
  by rewrite take_app_length, drop_app_length.
Qed.

Lemma epb_fields id ts orig d :
  packet_small ts d ->
  let b := epb_body id ts orig d in
  read4 b 4 = ts / 2 ^ 32 /\ read4 b 8 = ts mod 2 ^ 32 /\ read4 b 12 = zlen d /\
  take (length d) (drop 20 b) = d /\ 20 + zlen d <= zlen b <= 24 + zlen d.
Proof.
  intros [Ht Hd] b. pose proof (zlen_nonneg d). unfold u32_max in *.
  pose proof (Z.mod_pos_bound ts (2 ^ 32) ltac:(lia)).
  assert (0 <= ts / 2 ^ 32 <= u32_max).
  { pose proof (Z.div_pos ts (2 ^ 32)). pose proof (Z.div_lt_upper_bound ts (2 ^ 32) (2 ^ 32)). unfold u32_max. lia. }
  unfold b, epb_body. split.
  { eapply (read4_eq (le_bytes 4 id)); [reflexivity|by rewrite length_le_bytes|done]. }
  split.
  { eapply (read4_eq (le_bytes 4 id ++ le_bytes 4 (ts / 2 ^ 32))); [by rewrite <- !(assoc_L (++))|
      by rewrite length_app, !length_le_bytes|unfold u32_max; lia]. }
  split.
  { eapply (read4_eq (le_bytes 4 id ++ le_bytes 4 (ts / 2 ^ 32) ++ le_bytes 4 (ts mod 2 ^ 32)));
      [by rewrite <- !(assoc_L (++))|by rewrite !length_app, !length_le_bytes|unfold u32_max; lia]. }
  split.
  { set (tl := d ++ pad d). rewrite 4!(assoc_L (++)).
    rewrite drop_app_length' by (by rewrite !length_app, !length_le_bytes). apply take_app_length. }
  unfold pad. pose proof (Z.mod_pos_bound (- zlen d) 4 ltac:(lia)).
  unfold zlen in *. rewrite !length_app, !length_le_bytes, length_replicate. lia.
Qed.

Section ImportFacts_.
  Variable now sid : Z.
  Variable rfc3339 : Z -> option (list Z).

Lemma import_loop_frame fuel ty body rest st :
  0 <= ty <= u32_max -> 12 + zlen body <= u32_max ->
  import_loop now sid rfc3339 (S fuel) (frame ty body ++ rest) st =
  let '(st1, r) := import_block now sid rfc3339 ty body st in
  match r with Ok _ => import_loop now sid rfc3339 fuel rest st1 | e => (st1, e) end.
Proof using Type.
  intros Hty Hb. pose proof (zlen_nonneg body). cbn [import_loop]. unfold frame.
  set (L := 12 + zlen body) in *.
  replace ((le_bytes 4 ty ++ le_bytes 4 L ++ body ++ le_bytes 4 L) ++ rest)
    with ((le_bytes 4 ty ++ le_bytes 4 L) ++ body ++ le_bytes 4 L ++ rest) by (by rewrite <- !(assoc_L (++))).
  rewrite read_n_app by (by rewrite length_app, !length_le_bytes).
  rewrite (read4_eq [] ty (le_bytes 4 L) _ 0) by done.
  rewrite (read4_eq (le_bytes 4 ty) L [] _ 4) by first [by rewrite app_nil_r|by rewrite length_le_bytes|unfold L; lia].
  rewrite (proj2 (Z.ltb_ge L 12)) by lia.
  rewrite read_n_app by (unfold L, zlen; lia). rewrite read_n_app by apply length_le_bytes. done.
Qed.

(** The rows an import writes for packets [(timestamp ticks, bytes)]. *)
Definition imported_ns (ticks : Z) : Z := sat_mul i64_min i64_max (u64_as_i64 ticks) 1000.
Fixpoint imported_rows (p : Z) (ps : list (Z * list Z)) : list IndexEntry :=
  match ps with
  | [] => []
  | (ts, d) :: ps' =>
      from_envelope rfc3339 (p_imported_ts now (imported_ns ts)) sid In KDatagram p (zlen d)
      :: imported_rows (p + zlen d) ps'
  end.

Lemma import_epb ifid ts orig d st :
  packet_small ts d -> 0 <= pos (pi_raw st) -> pos (pi_raw st) + zlen d <= u64_max ->
  exists r1, import_block now sid rfc3339 6 (epb_body ifid ts orig d) st =
    (mkPImported r1 (pi_index st ++ imported_rows (pos (pi_raw st)) [(ts, d)]), Ok tt) /\
    pos r1 = pos (pi_raw st) + zlen d /\ stream (inner r1) = stream (inner (pi_raw st)) ++ d.
Proof using Type.
  intros Hp H0 Hpos. pose proof (zlen_nonneg d).
  destruct (epb_fields ifid ts orig d Hp) as (E4 & E8 & E12 & Ed & El). destruct Hp as [Ht Hd].
  unfold import_block. change (6 =? BLOCK_SHB) with false. change (6 =? BLOCK_EPB) with true. cbn [negb].
  rewrite E4, E8, E12. rewrite (proj2 (Z.ltb_ge (zlen (epb_body ifid ts orig d)) 20)) by lia.
  rewrite (proj2 (Z.ltb_ge (zlen (epb_body ifid ts orig d)) (20 + zlen d))) by lia.
  replace (Z.to_nat (zlen d)) with (length d) by (unfold zlen; lia). rewrite Ed.
  rewrite raw_append_ok by (unfold u32_max; lia).
  assert (Z.lor (Z.shiftl (ts / 2 ^ 32) 32) (ts mod 2 ^ 32) = ts) as ->.
  { apply lor_parts. lia. }
  eexists. split; [reflexivity|]. split; [done|]. apply stream_append.
Qed.

Context {W : Type} `{!PcapNgWriter W} `{!PcapNgFormat W}.

Definition epb_data (bs : list Block) : list (Z * list Z) :=
  omap (fun b => match b with EPB _ ts _ d => Some (ts, d) | IDB _ _ _ _ => None end) bs.
Definition data_bytes (ps : list (Z * list Z)) : list Z := concat (map snd ps).

Lemma import_blocks bs : forall fuel st,
  Forall block_small bs -> (length bs < fuel)%nat -> 0 <= pos (pi_raw st) ->
  pos (pi_raw st) + zlen (data_bytes (epb_data bs)) <= u64_max ->
  exists st', import_loop now sid rfc3339 fuel (concat (map block_bytes bs)) st = (st', Ok tt) /\
    stream (inner (pi_raw st')) = stream (inner (pi_raw st)) ++ data_bytes (epb_data bs) /\
    pi_index st' = pi_index st ++ imported_rows (pos (pi_raw st)) (epb_data bs).
Proof using Type.
  induction bs as [|b bs IH]; intros fuel st HF Hf H0 Hp; (destruct fuel as [|fuel]; [simpl in Hf; lia|]).
  - exists st. rewrite !app_nil_r. done.
  - apply Forall_cons in HF as [Hb HF]. cbn [map concat]. simpl in Hf.
    destruct b as [l sn r n|ifid ts orig d]; cbn [block_bytes].
    + pose proof (idb_len l sn r n Hb). rewrite import_loop_frame by (unfold u32_max; lia).
      change (import_block now sid rfc3339 1 _ st) with (st, @Ok ErrorId unit tt). cbn iota beta.
      apply IH; [done|lia|done|exact Hp].
    + destruct (epb_fields ifid ts orig d Hb) as (_ & _ & _ & _ & Hl). destruct (Hb) as [_ Hd].
      pose proof (zlen_nonneg (data_bytes (epb_data bs))). pose proof (zlen_nonneg d).
      assert (Hz : zlen (data_bytes (epb_data (EPB ifid ts orig d :: bs))) = zlen d + zlen (data_bytes (epb_data bs)))
        by apply zlen_app.
      rewrite import_loop_frame by (unfold u32_max; lia).
      destruct (import_epb ifid ts orig d st) as (r1 & -> & Hpos & Hst); [done..|lia|]. cbn iota beta.
      destruct (IH fuel (mkPImported r1 (pi_index st ++ imported_rows (pos (pi_raw st)) [(ts, d)])))
        as (st' & -> & Hs & Hi); [done|lia|cbn; lia|cbn; lia|].
      exists st'. split; [done|]. rewrite Hs, Hi. cbn [pi_raw pi_index]. rewrite Hst, Hpos.
      rewrite <- !(assoc_L (++)). done.
Qed.

Lemma import_written (w : W) :
  Forall block_small (written w) -> zlen (data_bytes (epb_data (written w))) <= u64_max ->
  exists st, pcapng_import now sid rfc3339 (wr_bytes w) = (st, Ok tt) /\
    stream (inner (pi_raw st)) = data_bytes (epb_data (written w)) /\
    pi_index st = imported_rows 0 (epb_data (written w)).
Proof using Type.
  intros HF Hz. unfold pcapng_import. rewrite bytes_layout.
  pose proof shb_len. pose proof (zlen_nonneg (shb_rest (W:=W))).
  assert (Hsh : zlen (le_bytes 4 0x1A2B3C4D ++ shb_rest (W:=W)) = 4 + zlen (shb_rest (W:=W))) by apply zlen_app.
  rewrite import_loop_frame by (rewrite ?Hsh; unfold u32_max; lia).
  assert (import_block now sid rfc3339 0x0A0D0D0A (le_bytes 4 0x1A2B3C4D ++ shb_rest) (mkPImported (raw_create []) [])
    = (mkPImported (raw_create []) [], Ok tt)) as ->.
  { unfold import_block. change (0x0A0D0D0A =? BLOCK_SHB) with true. cbn iota.
    rewrite (proj2 (Z.ltb_ge _ _)) by (rewrite Hsh; lia).
    rewrite (read4_eq [] SHB_MAGIC shb_rest) by done. done. }
  cbn iota beta.
  assert (Hlen : forall bs, (length bs <= length (concat (map block_bytes bs)))%nat).
  { induction bs as [|b bs IHb]; [done|]. cbn [map concat]. rewrite length_app.
    assert (1 <= length (block_bytes b))%nat
      by (destruct b; cbn [block_bytes]; unfold frame; rewrite !length_app, !length_le_bytes; lia).
    simpl. lia. }
  pose proof (Hlen (written w)).
  destruct (import_blocks (written w) (length (frame 0x0A0D0D0A (le_bytes 4 0x1A2B3C4D ++ shb_rest)
    ++ concat (map block_bytes (written w)))) (mkPImported (raw_create []) [])) as (st & E & Hs & Hi);
    [done| |done|change (0 + zlen (data_bytes (epb_data (written w))) <= u64_max); lia|].
  - rewrite length_app. unfold frame. rewrite !length_app, !length_le_bytes. lia.
  - exists st. done.
Qed.
End ImportFacts_.

(** ** Round trips *)
Definition v_ts (v : view) : Z := let '(_, ts, _, _) := v in ts.
Definition v_data (v : view) : list Z := let '(_, _, _, d) := v in d.

Lemma epb_data_packets bs : epb_data bs = map (fun v => (v_ts v, v_data v)) (packets_of bs).
Proof.
  unfold packets_of. generalize bs at 2 as all. intros all. unfold epb_data.
  induction bs as [|[] bs IH]; cbn; [done|done|by f_equal].
Qed.
Lemma data_bytes_views vs : data_bytes (map (fun v => (v_ts v, v_data v)) vs) = concat (map v_data vs).
Proof. unfold data_bytes. by rewrite map_map. Qed.

Lemma imported_rows_names now sid rfc ps : forall pre,
  Forall2 (names (pre ++ data_bytes ps)) (imported_rows now sid rfc (zlen pre) ps) (map (fun p => (In, snd p)) ps).
Proof.
  induction ps as [|[ts d] ps IH]; intros pre; [constructor|]. cbn [imported_rows map].
  change (data_bytes ((ts, d) :: ps)) with (d ++ data_bytes ps). rewrite (assoc_L (++)).
  constructor; [|rewrite <- zlen_app; apply IH].
  pose proof (zlen_nonneg pre). apply names_prefix with (pre ++ d); [by apply prefix_app_r|].
  split; [done|]. cbn [off len from_envelope snd]. split; [lia|]. rewrite zlen_app. split; [|lia].
  unfold read_at. rewrite zlen_app, (proj2 (Z.leb_le _ _)) by lia. f_equal.
  rewrite drop_app_length' by (unfold zlen; lia). apply take_ge. unfold zlen. lia.
Qed.

Lemma imported_rows_fields now sid rfc ps : forall p,
  Forall2 (fun e q => kind e = KDatagram /\ ts_origin e = format_rfc3339_ns rfc (imported_ns (fst q)))
    (imported_rows now sid rfc p ps) ps.
Proof. induction ps as [|[ts d] ps IH]; intros p; constructor; [done|apply IH]. Qed.

Lemma imported_ns_min ts : 0 <= ts < 2 ^ 63 -> imported_ns ts = Z.min i64_max (1000 * ts).
Proof.
  intros H. unfold imported_ns, u64_as_i64, sat_mul, clampz.
  rewrite (proj2 (Z.leb_le _ _)) by (unfold i64_max; lia). unfold i64_min, i64_max. lia.
Qed.

Section RoundTrip.
  Context {W : Type} `{!PcapNgWriter W} `{!PcapNgFormat W}.

(** A pcapng export holds exactly the session's packets: when every index
    line is blank or a row and every packet row can be read and dated, the export
    succeeds and a reader of the file sees one packet per packet row, in order,
    with its bytes, its timestamp in nanoseconds, its original length, and an
    interface block that carries its link type and label. *)
Theorem pcapng_export_spec parse meta raw_bin ls frames vs :
  read_packet_metadata frames = Ok meta -> lines_ok ls ->
  Forall2 (row_packet parse meta raw_bin) (List.filter (exported meta) (index_rows ls)) vs ->
  vs <> [] -> zlen vs <= u32_max ->
  exists w : W, pcapng_export parse raw_bin ls frames = Ok w /\ packets_of (written w) = vs /\
    Forall (block_fits (written w)) (written w).
Proof.
  intros Hm Hl HF Hne Hz. destruct (pcapng_export_ok parse meta raw_bin ls frames vs) as (w & ifs & E & Hs & Hp & _);
    [done..|]. exists w. split; [done|]. split; [done|]. apply Hs.
Qed.

Lemma export_import_aux parse meta raw_bin ls frames vs now sid rfc :
  read_packet_metadata frames = Ok meta -> lines_ok ls ->
  Forall2 (row_packet parse meta raw_bin) (List.filter (exported meta) (index_rows ls)) vs ->
  vs <> [] -> zlen vs <= u32_max -> Forall view_small vs -> zlen (concat (map v_data vs)) <= u64_max ->
  exists (w : W) st, pcapng_export parse raw_bin ls frames = Ok w /\
    pcapng_import now sid rfc (wr_bytes w) = (st, Ok tt) /\
    stream (inner (pi_raw st)) = concat (map v_data vs) /\
    pi_index st = imported_rows now sid rfc 0 (map (fun v => (v_ts v, v_data v)) vs).
Proof.
  intros Hm Hl HF Hne Hz Hv Hd.
  destruct (pcapng_export_ok parse meta raw_bin ls frames vs) as (w & ifs & E & Hs & Hp & Hb); [done..|].
  specialize (Hb Hv). destruct (import_written now sid rfc w Hb) as (st & Ei & Hst & Hi).
  { by rewrite epb_data_packets, Hp, data_bytes_views. }
  rewrite epb_data_packets, Hp in Hst, Hi. rewrite data_bytes_views in Hst. by exists w, st.
Qed.

(** Exporting a capture to pcapng and importing the file gives the packets
    back: the imported [raw.bin] is the packets one after the other, and the
    imported index has one incoming datagram row per packet, in order, whose
    offset and length read back that packet. *)
Theorem pcapng_export_import parse meta raw_bin ls frames vs now sid rfc :
  read_packet_metadata frames = Ok meta -> lines_ok ls ->
  Forall2 (row_packet parse meta raw_bin) (List.filter (exported meta) (index_rows ls)) vs ->
  vs <> [] -> zlen vs <= u32_max -> Forall view_small vs -> zlen (concat (map v_data vs)) <= u64_max ->
  exists (w : W) st, pcapng_export parse raw_bin ls frames = Ok w /\
    pcapng_import now sid rfc (wr_bytes w) = (st, Ok tt) /\
    stream (inner (pi_raw st)) = concat (map v_data vs) /\
    Forall2 (names (stream (inner (pi_raw st)))) (pi_index st) (map (fun v => (In, v_data v)) vs) /\
    Forall (fun e => kind e = KDatagram) (pi_index st).
Proof.
  intros Hm Hl HF Hne Hz Hv Hd.
  destruct (export_import_aux parse meta raw_bin ls frames vs now sid rfc) as (w & st & E & Ei & Hst & Hi); [done..|].
  exists w, st. split; [done|]. split; [done|]. split; [done|]. rewrite Hst, Hi.
  pose proof (imported_rows_names now sid rfc (map (fun v => (v_ts v, v_data v)) vs) []) as Hn.
  rewrite app_nil_l, data_bytes_views, map_map in Hn. split; [exact Hn|].
  eapply Forall2_Forall_l; [apply imported_rows_fields|]. apply Forall_true. by intros q e [? _].
Qed.

(** Finding: the timestamps do not survive that round trip: the exporter writes
    nanoseconds and says so in each interface block, the importer ignores the
    interface's resolution and reads microseconds, so every row comes back dated
    a thousand times its nanoseconds since 1970, capped at the largest [i64];
    every capture made after April 1970 is therefore imported with the same
    instant, in the year 2262. *)
Theorem pcapng_import_time_scaled parse meta raw_bin ls frames vs now sid rfc :
  read_packet_metadata frames = Ok meta -> lines_ok ls ->
  Forall2 (row_packet parse meta raw_bin) (List.filter (exported meta) (index_rows ls)) vs ->
  vs <> [] -> zlen vs <= u32_max -> Forall view_small vs -> zlen (concat (map v_data vs)) <= u64_max ->
  Forall (fun v => i64_max <= 1000 * v_ts v /\ v_ts v <= i64_max) vs ->
  exists (w : W) st, pcapng_export parse raw_bin ls frames = Ok w /\
    pcapng_import now sid rfc (wr_bytes w) = (st, Ok tt) /\
    length (pi_index st) = length vs /\
    Forall (fun e => ts_origin e = format_rfc3339_ns rfc i64_max) (pi_index st).
Proof.
  intros Hm Hl HF Hne Hz Hv Hd Ht.
  destruct (export_import_aux parse meta raw_bin ls frames vs now sid rfc) as (w & st & E & Ei & _ & Hi); [done..|].
  exists w, st. split; [done|]. split; [done|]. rewrite Hi.
  pose proof (imported_rows_fields now sid rfc (map (fun v => (v_ts v, v_data v)) vs) 0) as Hr.
  split; [by rewrite (Forall2_length _ _ _ Hr), length_map|].
  eapply Forall2_Forall_l; [exact Hr|]. apply Forall_map. eapply Forall_impl; [exact Ht|].
  intros v [H1 H2] e [_ ->]. cbn [fst]. unfold i64_max in *. rewrite imported_ns_min by lia.
  f_equal. unfold i64_max. lia.
Qed.
End RoundTrip.

(** ** Any file at all *)
Section AnyFile.
  Variable now sid : Z.
  Variable rfc3339 : Z -> option (list Z).

Record pimport_inv (st : PImported) : Prop := {
  pim_pos : pos (pi_raw st) = zlen (stream (inner (pi_raw st)));
  pim_rows : Forall (fun e => exists d, names (stream (inner (pi_raw st))) e (In, d)) (pi_index st)
}.

Lemma read4_bound body i : bytes_ok body -> 0 <= read4 body i <= u32_max.
Proof using Type.
  intros H. unfold read4. pose proof (le_val_bound (take 4 (drop i body))) as B.
  specialize (B (bytes_ok_take _ _ (bytes_ok_drop _ _ H))). split; [lia|].
  assert (zlen (take 4 (drop i body)) <= 4) by (unfold zlen; rewrite length_take; lia).
  pose proof (Z.pow_le_mono_r 256 (zlen (take 4 (drop i body))) 4 ltac:(lia) ltac:(lia)).
  unfold u32_max. lia.
Qed.

Lemma import_block_inv ty body st :
  pimport_inv st -> bytes_ok body -> pos (pi_raw st) + zlen body <= u64_max ->
  exists st' r, import_block now sid rfc3339 ty body st = (st', r) /\ r <> Panic /\
    pimport_inv st' /\ pos (pi_raw st') <= pos (pi_raw st) + zlen body.
Proof using Type.
  intros Hi Hb Hp. pose proof (zlen_nonneg body).
  assert (Hsame : forall r : result unit, r <> Panic -> exists st' r', (st, r) = (st', r') /\ r' <> Panic /\
    pimport_inv st' /\ pos (pi_raw st') <= pos (pi_raw st) + zlen body).
  { intros r Hr. exists st, r. split; [done|]. split; [done|]. split; [done|lia]. }
  unfold import_block. case_if; [by repeat (case_if; [by apply Hsame|]); apply Hsame|].
  case_if; [|by apply Hsame].
  repeat (case_if; [by apply Hsame|]). bprop. pose proof (read4_bound body 12 Hb) as Hc.
  set (pkt := take (Z.to_nat (read4 body 12)) (drop 20 body)).
  assert (Hlen : zlen pkt = read4 body 12) by (unfold pkt, zlen in *; rewrite length_take, length_drop; lia).
  destruct Hi as [Hpos Hrows]. pose proof (zlen_nonneg (stream (inner (pi_raw st)))) as Hnn.
  unfold raw_append. rewrite (proj2 (try_from_Some 0 u32_max (zlen pkt) (zlen pkt))) by (rewrite Hlen; done).
  rewrite checked_ok by lia. cbn [default from_option id]. eexists _, _. split; [reflexivity|]. split; [done|].
  cbn [pi_raw pi_index inner pos]. split; [|lia].
  split; cbn [pi_raw pi_index inner pos]; rewrite stream_append.
  - rewrite zlen_app. lia.
  - apply Forall_app. split.
    + eapply Forall_impl; [exact Hrows|]. intros e [d Hd]. exists d. eapply names_prefix; [|exact Hd].
      by apply prefix_app_r.
    + constructor; [|constructor]. exists pkt. split; [done|]. cbn [off len from_envelope snd].
      rewrite Hpos. split; [lia|]. rewrite zlen_app. split; [|lia]. unfold read_at.
      rewrite zlen_app, (proj2 (Z.leb_le _ _)) by lia. f_equal.
      rewrite drop_app_length' by (unfold zlen; lia). apply take_ge. unfold zlen. lia.
Qed.

Lemma read_n_Some n l a b : read_n n l = Some (a, b) -> l = a ++ b /\ length a = n.
Proof using Type.
  unfold read_n. destruct (Nat.leb_spec n (length l)); [|done]. intros [= <- <-].
  rewrite take_drop, length_take. split; [done|lia].
Qed.

Lemma import_loop_inv fuel : forall rest st,
  pimport_inv st -> bytes_ok rest -> (length rest < fuel)%nat -> pos (pi_raw st) + zlen rest <= u64_max ->
  exists st' r, import_loop now sid rfc3339 fuel rest st = (st', r) /\ r <> Panic /\ pimport_inv st'.
Proof using Type.
  induction fuel as [|fuel IH]; intros rest st Hi Hb Hf Hp; [lia|]. cbn [import_loop].
  destruct (read_n 8 rest) as [[h r1]|] eqn:E1; [|by exists st, (Ok tt)].
  apply read_n_Some in E1 as [-> L1]. apply bytes_ok_app in Hb as [Hb1 Hb].
  case_if; [by exists st, (Err E1001PipelineGeneric)|].
  destruct (read_n _ r1) as [[body r2]|] eqn:E2; [|by exists st, (Err E1001PipelineGeneric)].
  apply read_n_Some in E2 as [-> L2]. apply bytes_ok_app in Hb as [Hb2 Hb].
  destruct (read_n 4 r2) as [[t r3]|] eqn:E3; [|by exists st, (Err E1001PipelineGeneric)].
  apply read_n_Some in E3 as [-> L3]. apply bytes_ok_app in Hb as [Hb3 Hb].
  rewrite !zlen_app in Hp. rewrite !length_app in Hf.
  pose proof (zlen_nonneg h). pose proof (zlen_nonneg t). pose proof (zlen_nonneg r3).
  destruct (import_block_inv (read4 h 0) body st Hi Hb2) as (st1 & r & -> & Hr & Hi1 & Hp1); [lia|].
  destruct r as [[]|e|]; [|by exists st1, (Err e)|done].
  apply IH; [done|done|lia|lia].
Qed.
End AnyFile.

(** Importing any file whatsoever ends without a panic, and leaves a sound
    session: every index row, also of an import that fails midway, names an
    incoming packet inside [raw.bin]. *)
Theorem pcapng_import_total now sid rfc file :
  bytes_ok file -> zlen file <= u64_max ->
  exists st r, pcapng_import now sid rfc file = (st, r) /\ r <> Panic /\
    Forall (fun e => exists d, names (stream (inner (pi_raw st))) e (In, d)) (pi_index st).
Proof.
  intros Hb Hz.
  destruct (import_loop_inv now sid rfc (S (length file)) file (mkPImported (raw_create []) []))
    as (st & r & E & Hr & Hi); [by split; [|constructor]|done|lia|exact Hz|].
  exists st, r. split; [done|]. split; [done|]. apply Hi.
Qed.

(** ** A writer of the format, for concrete runs *)
Definition BlockList : Type := list Block.
#[export] Instance block_fits_dec bs b : Decision (block_fits bs b).
Proof. destruct b; simpl; apply _. Defined.

Definition opt (code : Z) (v : list Z) : list Z := le_bytes 2 code ++ le_bytes 2 (zlen v) ++ v ++ pad v.
Definition bl_idb_body (l s r : Z) (n : list Z) : list Z :=
  le_bytes 2 l ++ le_bytes 2 0 ++ le_bytes 4 s ++ opt 9 [r] ++ opt 2 n ++ opt 0 [].
Definition bl_shb_rest : list Z := le_bytes 2 1 ++ le_bytes 2 0 ++ replicate 8 255.
Definition bl_block (b : Block) : list Z :=
  match b with
  | IDB l s r n => frame 1 (bl_idb_body l s r n)
  | EPB id ts orig d => frame 6 (epb_body id ts orig d)
  end.

#[export] Instance BlockList_writer : PcapNgWriter BlockList := {
  wr_new := [];
  wr_write := fun w b => if decide (block_fits w b) then (w ++ [b], Ok tt) else (w, Err E1001PipelineGeneric);
  wr_bytes := fun w => frame 0x0A0D0D0A (le_bytes 4 0x1A2B3C4D ++ bl_shb_rest) ++ concat (map bl_block w)
}.

Lemma bl_idb_len l s r n : zlen n <= u16_max -> zlen (bl_idb_body l s r n) <= 2 ^ 20.
Proof.
  intros Hn. assert (Ho : forall c v, zlen (opt c v) <= 8 + zlen v).
  { intros c v. unfold opt, pad. pose proof (Z.mod_pos_bound (- zlen v) 4 ltac:(lia)).
    unfold zlen in *. rewrite !length_app, !length_le_bytes, length_replicate. lia. }
  pose proof (Ho 9 [r]). pose proof (Ho 2 n). pose proof (Ho 0 []). unfold bl_idb_body.
  unfold zlen, u16_max in *. rewrite !length_app, !length_le_bytes. cbn [length] in *. lia.
Qed.
#[export] Instance BlockList_format : PcapNgFormat BlockList.
Proof.
  refine {| written := fun w => w; shb_rest := bl_shb_rest; idb_body := bl_idb_body |}.
  - vm_compute. discriminate.
  - exact bl_idb_len.
  - done.
  - intros w b H. exists (w ++ [b]). cbn [wr_write BlockList_writer]. by rewrite decide_True.
  - done.
Defined.

Definition parse0 (_ : list Z) : option Z := Some 1700000000123456789.
Definition row0 (k : Kind) (o l : Z) : IndexEntry :=
  mkIndex (lit "2023-11-14T22:13:20Z") [] 0 0 0 0 QImported 0 CImported 7 In k o l None [] None
    (Some (lit "pcap:eth0")) None None.
Definition lines0 : list (option (option IndexEntry)) :=
  [Some (Some (row0 KDatagram 0 3)); None; Some (Some (row0 KBytes 0 1)); Some (Some (row0 KDatagram 3 2))].
Definition frames0 : option (list (option (option FrameEntry))) :=
  Some [Some (Some (mkFrame [] (lit "pcap-packet")
    (mkRecord (Some PCAP_PACKET_SCHEMA_ID) None None
       (VObject [(lit "linktype", VNumber (lit "101")); (lit "original_len", VNumber (lit "64"));
                 (lit "raw_len", VNumber (lit "2")); (lit "raw_off", VNumber (lit "3"))]) [] None)))].
Definition meta0 : MetaMap := {[ (3, 2) := mkMeta 3 2 None (Some 64) (Some 101) None ]}.
Definition views0 : list view :=
  [(Some (1, lit "eth0"), 1700000000123456789, 3, [1; 2; 3]);
   (Some (101, lit "eth0"), 1700000000123456789, 64, [4; 5])].

Lemma lines0_ok : lines_ok lines0.
Proof. repeat (apply Forall_cons; split; [discriminate|]). constructor. Qed.
Lemma views0_rows :
  Forall2 (row_packet parse0 meta0 [1; 2; 3; 4; 5]) (List.filter (exported meta0) (index_rows lines0)) views0.
Proof.
  repeat (apply List.Forall2_cons; [by eexists _, _; repeat split; vm_compute|]). constructor.
Qed.
Lemma views0_small : Forall view_small views0.
Proof. repeat (apply Forall_cons; split; [vm_compute; intuition discriminate|]). constructor. Qed.

Lemma pcapng_export_spec_witness :
  exists w : BlockList, pcapng_export parse0 [1; 2; 3; 4; 5] lines0 frames0 = Ok w /\
    packets_of (written w) = views0 /\ Forall (block_fits (written w)) (written w).
Proof.
  apply (pcapng_export_spec parse0 meta0 [1; 2; 3; 4; 5] lines0 frames0 views0).
  - reflexivity.
  - exact lines0_ok.
  - exact views0_rows.
  - discriminate.
  - vm_compute. discriminate.
Defined.

Lemma pcapng_export_import_witness :
  exists (w : BlockList) st, pcapng_export parse0 [1; 2; 3; 4; 5] lines0 frames0 = Ok w /\
    pcapng_import 0 7 (fun _ => None) (wr_bytes w) = (st, Ok tt) /\
    stream (inner (pi_raw st)) = [1; 2; 3; 4; 5].
Proof.
  destruct (pcapng_export_import (W:=BlockList) parse0 meta0 [1; 2; 3; 4; 5] lines0 frames0 views0 0 7 (fun _ => None))
    as (w & st & H1 & H2 & H3 & _).
  - reflexivity.
  - exact lines0_ok.
  - exact views0_rows.
  - discriminate.
  - vm_compute. discriminate.
  - exact views0_small.
  - vm_compute. discriminate.
  - exists w, st. split; [exact H1|]. split; [exact H2|exact H3].
Defined.

Lemma pcapng_import_time_scaled_witness :
  exists (w : BlockList) st, pcapng_export parse0 [1; 2; 3; 4; 5] lines0 frames0 = Ok w /\
    pcapng_import 0 7 (fun n => Some (show_int n)) (wr_bytes w) = (st, Ok tt) /\ length (pi_index st) = 2%nat /\
    Forall (fun e => ts_origin e = lit "9223372036854775807") (pi_index st).
Proof.
  apply (pcapng_import_time_scaled (W:=BlockList) parse0 meta0 [1; 2; 3; 4; 5] lines0 frames0 views0 0 7
    (fun n => Some (show_int n))).
  - reflexivity.
  - exact lines0_ok.
  - exact views0_rows.
  - discriminate.
  - vm_compute. discriminate.
  - exact views0_small.
  - vm_compute. discriminate.
  - repeat (apply Forall_cons; split; [vm_compute; intuition discriminate|]). constructor.
Defined.

Lemma pcapng_import_total_witness :
  exists st r, pcapng_import 0 7 (fun _ => None) [6; 0; 0; 0; 40; 0; 0; 0; 1] = (st, r) /\ r <> Panic.
Proof.
  destruct (pcapng_import_total 0 7 (fun _ => None) [6; 0; 0; 0; 40; 0; 0; 0; 1]) as (st & r & H1 & H2 & _).
  - apply (bool_decide_unpack _). reflexivity.
  - vm_compute. discriminate.
  - exists st, r. split; [exact H1|exact H2].
Defined.
