(* ===== verification/PcapStream.v ===== *)
(** * Direct pcapng streaming with rotation

    [PcapngStreamWriter] of crates/core/src/exporter/pcapng.rs: the file a live
    capture is written to, a new one when the current one is too large or too
    old.  Paths are kept as [Path] compares them, by components. *)
From stdpp Require Import base numbers strings gmap list.
From S2P Require Import Prelude Text Naming Spec Decoder Clock SessionDir Capture Pcapng.

Local Open Scope Z_scope.
Local Open Scope tm_scope.

(** ** Paths *)
Record Path := mkPath { absolute : bool; comps : list (list Z) }.
#[export] Instance Path_eq_dec : EqDecision Path.
Proof. solve_decision. Defined.
#[export] Instance Path_countable : Countable Path.
Proof.
  refine (inj_countable' (fun p => (absolute p, comps p)) (fun '(a, c) => mkPath a c) _). by intros [].
Defined.

Definition path_of (text : list Z) : Path :=
  mkPath (match text with 47 :: _ => true | _ => false end) (path_parts text).
Definition file_name (p : Path) : option (list Z) :=
  match last (comps p) with
  | Some w => if str_eqb w (lit "..") || str_eqb w (lit ".") then None else Some w
  | None => None
  end.
Definition with_file_name (p : Path) (name : list Z) : Path :=
  mkPath (absolute p) ((match file_name p with Some _ => removelast (comps p) | None => comps p end) ++ [name]).

(** [file_stem] and [extension]: a name that only starts with a dot has none. *)
Definition stem_ext (name : list Z) : list Z * option (list Z) :=
  match rposition (fun c => c =? 46) name with
  | None | Some O => (name, None)
  | Some i => (take i name, Some (drop (S i) name))
  end.
Definition or_default (o : option (list Z)) (d : list Z) : list Z :=
  match o with Some ((_ :: _) as s) => s | _ => d end.

(** [{:04}]. *)
Definition pad_4 (n : Z) : list Z := replicate (4 - length (show_nat n)) 48 ++ show_nat n.
Definition rotated_part_path (base : Path) (part_index : Z) : Path :=
  let stem := or_default (fst ∘ stem_ext <$> file_name base) (lit "capture") in
  let extension := or_default (file_name base ≫= snd ∘ stem_ext) (lit "pcapng") in
  with_file_name base (stem ++ [46] ++ pad_4 part_index ++ [46] ++ extension).

(** ** Parts *)
Section Stream.
  Context {W : Type} `{!PcapNgWriter W}.

Record Part := mkPart { p_writer : W; p_interfaces : Interfaces; first_ts : option Z; p_packets : Z }.
Definition part_new : Part := mkPart wr_new ∅ None 0.

(** [CountingWriter] counts every byte handed to the file's buffer. *)
Definition bytes_written (w : W) : Z := Z.min u64_max (zlen (wr_bytes w)).

Definition age_for (p : Part) (next_ts : Z) : Z :=
  match first_ts p with
  | None => 0
  | Some first => default 0 (try_from 0 u64_max (sat_sub i64_min i64_max next_ts first))
  end.
Definition should_rotate_for (p : Part) (next_ts : Z) (policy : Rotate.RotatePolicy) : bool :=
  if p_packets p =? 0 then false
  else Rotate.should_rotate (Rotate.mkRStats (bytes_written (p_writer p)) (age_for p next_ts)) policy.

Definition part_append (p : Part) (label : list Z) (pkt : PcapPacket) : Part * result unit :=
  let '(w1, ifs1, r) := ensure_interface (p_writer p) (p_interfaces p) (linktype pkt, label) in
  let p1 := mkPart w1 ifs1 (first_ts p) (p_packets p) in
  match r with
  | Err e => (p1, Err e)
  | Panic => (p1, Panic)
  | Ok id =>
      match timestamp_nanos_duration (p_ts_origin_ns pkt) with
      | Err e => (p1, Err e)
      | Panic => (p1, Panic)
      | Ok ts =>
          let '(w2, r2) := wr_write w1 (EPB id ts (original_len pkt) (data pkt)) in
          match r2 with
          | Ok _ =>
              (mkPart w2 ifs1 (match first_ts p with None => Some (p_ts_origin_ns pkt) | f => f end)
                 (sat_add 0 u64_max (p_packets p) 1), Ok tt)
          | e => (mkPart w2 ifs1 (first_ts p) (p_packets p), e)
          end
      end
  end.

(** ** The stream; [fs] are the files it is no longer writing *)
Record StreamWriter := mkStream {
  base_path : Path; rotate_policy : Rotate.RotatePolicy; next_part_index : Z;
  artifacts : list Path; current : Part; cur_path : Path; fs : gmap Path W }.
(** Whether flushing the old part and creating the new one succeed. *)
Record StreamIo := mkStreamIo { flush_ok : bool; create_ok : bool }.

Definition stream_create (path : Path) (policy : Rotate.RotatePolicy) : StreamWriter :=
  mkStream path policy 1 [path] part_new path ∅.

Definition rotate (io : StreamIo) (s : StreamWriter) : StreamWriter * result unit :=
  if negb (flush_ok io) then (s, Err E1001PipelineGeneric)
  else
    let path := rotated_part_path (base_path s) (next_part_index s) in
    let next := sat_add 0 u32_max (next_part_index s) 1 in
    if negb (create_ok io) then
      (mkStream (base_path s) (rotate_policy s) next (artifacts s) (current s) (cur_path s) (fs s),
       Err E1001PipelineGeneric)
    else
      (mkStream (base_path s) (rotate_policy s) next (artifacts s ++ [path]) part_new path
         (delete path (<[cur_path s := p_writer (current s)]> (fs s))), Ok tt).

Definition append_packet (io : StreamIo) (s : StreamWriter) (label : list Z) (pkt : PcapPacket)
  : StreamWriter * result unit :=
  let '(s1, r) := if should_rotate_for (current s) (p_ts_origin_ns pkt) (rotate_policy s)
                  then rotate io s else (s, Ok tt) in
  match r with
  | Ok _ =>
      let '(c, r1) := part_append (current s1) label pkt in
      (mkStream (base_path s1) (rotate_policy s1) (next_part_index s1) (artifacts s1) c (cur_path s1) (fs s1), r1)
  | e => (s1, e)
  end.

(** A run, with what each packet was answered. *)
Definition stream_op : Type := StreamIo * list Z * PcapPacket.
Fixpoint stream_run (s : StreamWriter) (os : list stream_op) : StreamWriter * list (result unit) :=
  match os with
  | [] => (s, [])
  | (io, label, pkt) :: os' =>
      let '(s1, r) := append_packet io s label pkt in
      let '(s2, rs) := stream_run s1 os' in (s2, r :: rs)
  end.
(** The file at a path. *)
Definition content (s : StreamWriter) (p : Path) : option W :=
  if decide (p = cur_path s) then Some (p_writer (current s)) else fs s !! p.
End Stream.
Arguments Part : clear implicits. Arguments StreamWriter : clear implicits.

(** ** Part names *)
Lemma pad_4_parse n : 0 <= n -> parse_digits 10 0 (pad_4 n) = Some n.
Proof.
  intros Hn. unfold pad_4. assert (Hz : forall k l, parse_digits 10 0 (replicate k 48 ++ l) = parse_digits 10 0 l).
  { induction k as [|k IH]; intros l; [done|]. apply IH. }
  rewrite Hz. by apply show_nat_parse.
Qed.

Lemma stem_ext_length name s e :
  stem_ext name = (s, e) -> (length name <= length s + match e with Some x => S (length x) | None => 0 end)%nat.
Proof.
  unfold stem_ext. destruct (rposition _ name) as [[|i]|] eqn:E; intros [= <- <-]; [lia| |lia].
  rewrite length_take, length_drop. lia.
Qed.

Lemma rotated_inj base i j :
  0 <= i -> 0 <= j -> rotated_part_path base i = rotated_part_path base j -> i = j.
Proof.
  intros Hi Hj [= H]. apply app_inj_2 in H as [_ [= H]]; [|done].
  apply app_inv_head in H. injection H as H. apply app_inv_tail in H.
  pose proof (pad_4_parse i Hi) as P. rewrite H, pad_4_parse in P by done. congruence.
Qed.

Lemma or_default_length o d : (length (default [] o) <= length (or_default o d))%nat.
Proof. destruct o as [[|c s]|]; simpl; lia. Qed.

Lemma rotated_not_base base i : rotated_part_path base i <> base.
Proof.
  intros H. apply (f_equal comps) in H. unfold rotated_part_path, with_file_name in H. cbn [comps] in H.
  destruct (file_name base) as [n|] eqn:E.
  - unfold file_name in E. destruct (last (comps base)) as [w|] eqn:El; [|done].
    assert (w = n) as -> by (by destruct (str_eqb w _ || str_eqb w _); simplify_eq).
    apply last_Some in El as [l' El]. rewrite El in H. rewrite removelast_last in H.
    apply app_inj_2 in H as [_ [= H]]; [|done]. apply (f_equal length) in H.
    destruct (stem_ext n) as [s e] eqn:Es. pose proof (stem_ext_length n s e Es) as L.
    pose proof (or_default_length (fst ∘ stem_ext <$> Some n) (lit "capture")) as L1.
    pose proof (or_default_length (Some n ≫= snd ∘ stem_ext) (lit "pcapng")) as L2.
    cbn [fmap option_fmap option_map mbind option_bind compose] in *. rewrite Es in *. cbn [fst snd] in *.
    rewrite !length_app in H. cbn [length] in H. rewrite length_app in H. cbn [length] in H.
    destruct s, e; cbn [or_default default from_option id length] in *; lia.
  - apply (f_equal length) in H. rewrite length_app in H. simpl in H. lia.
Qed.

(** ** What the parts hold *)
Definition pkt_view (label : list Z) (pkt : PcapPacket) : view :=
  (Some (linktype pkt, label), p_ts_origin_ns pkt, original_len pkt, data pkt).
Definition taken (r : result unit) (v : view) : list view := match r with Ok _ => [v] | _ => [] end.
Fixpoint accepted (os : list stream_op) (rs : list (result unit)) : list view :=
  match os, rs with
  | (_, label, pkt) :: os', r :: rs' => taken r (pkt_view label pkt) ++ accepted os' rs'
  | _, _ => []
  end.
(** What must succeed: the I/O does, and the packet is dated after 1970. *)
Definition op_ok (o : stream_op) (r : result unit) : Prop :=
  let '(io, _, pkt) := o in
  r <> Panic /\ (flush_ok io = true -> create_ok io = true -> 0 <= p_ts_origin_ns pkt -> r = Ok tt).

Lemma timestamp_ok n : n <= i64_max -> timestamp_nanos_duration n = if n <? 0 then Err E1001PipelineGeneric else Ok n.
Proof.
  intros Hn. unfold timestamp_nanos_duration. destruct (Z.ltb_spec n 0); [done|].
  assert (try_from 0 u64_max (n / 1000000000) = Some (n / 1000000000)) as ->.
  { apply try_from_Some. split; [done|]. pose proof (Z.div_pos n 1000000000).
    pose proof (Z.div_le_upper_bound n 1000000000 u64_max). unfold i64_max, u64_max in *. lia. }
  f_equal. pose proof (Z.div_mod n 1000000000). lia.
Qed.

Section StreamFacts.
  Context {W : Type} `{!PcapNgWriter W} `{!PcapNgFormat W}.

Definition file_size (bs : list Block) : Z :=
  zlen (frame 0x0A0D0D0A (le_bytes 4 0x1A2B3C4D ++ shb_rest (W:=W))) + zlen (concat (map (block_bytes (W:=W)) bs)).
Lemma bytes_written_size (w : W) : bytes_written w = Z.min u64_max (file_size (written w)).
Proof. unfold bytes_written, file_size. by rewrite bytes_layout, zlen_app. Qed.

(** A part is over its size limit by at most the packet that crossed it. *)
Definition part_bounded (policy : Rotate.RotatePolicy) (bs : list Block) : Prop :=
  match Rotate.size_limit policy with
  | None => True
  | Some limit => exists pre post, bs = pre ++ post /\ (length post <= 2)%nat /\
                    (packets_of pre = [] \/ file_size pre < limit)
  end.

Record part_ok (p : Part W) (k : Z) : Prop := {
  part_section : section_ok (written (p_writer p)) (p_interfaces p);
  part_ifs : Z.of_nat (size (p_interfaces p)) <= k;
  part_count : 0 <= p_packets p;
  part_empty : p_packets p = 0 -> packets_of (written (p_writer p)) = []
}.

Lemma part_new_ok k : 0 <= k -> part_ok part_new k.
Proof.
  intros Hk. split; cbn; rewrite ?written_new; [apply section_empty|by rewrite map_size_empty|lia|done].
Qed.

Lemma part_append_spec p k label pkt :
  part_ok p k -> k <= u32_max -> p_ts_origin_ns pkt <= i64_max ->
  exists p' r post, part_append p label pkt = (p', r) /\ part_ok p' (k + 1) /\
    r = (if p_ts_origin_ns pkt <? 0 then Err E1001PipelineGeneric else Ok tt) /\
    written (p_writer p') = written (p_writer p) ++ post /\ (length post <= 2)%nat /\
    packets_of (written (p_writer p')) = packets_of (written (p_writer p)) ++ taken r (pkt_view label pkt).
Proof.
  intros [Hs Hz Hc He] Hk Ht. unfold part_append.
  destruct (ensure_spec (p_writer p) (p_interfaces p) (linktype pkt, label))
    as (w1 & ifs1 & id & post & -> & Hs1 & Hk1 & Hw1 & Hpost & Hp1 & Hz1); [done|lia|].
  assert (Lp : (length post <= 1)%nat) by (destruct Hpost as [->| ->]; simpl; lia).
  rewrite timestamp_ok by done. destruct (Z.ltb_spec (p_ts_origin_ns pkt) 0).
  - eexists _, _, post. split; [reflexivity|]. cbn [p_writer p_interfaces p_packets taken]. rewrite app_nil_r.
    split; [|repeat split; try done; lia]. split; cbn; [done|lia|done|]. by rewrite Hp1.
  - destruct (write_packet_spec w1 ifs1 _ id (p_ts_origin_ns pkt) (original_len pkt) (data pkt) Hs1 Hk1)
      as (w2 & -> & Hs2 & Hw2 & Hp2).
    eexists _, _, (post ++ [EPB id (p_ts_origin_ns pkt) (original_len pkt) (data pkt)]). split; [reflexivity|].
    cbn [p_writer p_interfaces p_packets taken]. rewrite Hw2, Hw1, <- (assoc_L (++)), length_app. cbn [length].
    split; [|split; [done|split; [done|split; [lia|]]]].
    + assert (1 <= sat_add 0 u64_max (p_packets p) 1) by (unfold sat_add, clampz, u64_max; lia).
      split; cbn; [done|lia|lia|]. lia.
    + rewrite (assoc_L (++)), <- Hw1, <- Hw2, Hp2, Hp1. done.
Qed.

Lemma part_bounded_app policy (p : Part W) next_ts post :
  match Rotate.size_limit policy with Some l => l <= u64_max | None => True end ->
  (p_packets p = 0 -> packets_of (written (p_writer p)) = []) ->
  should_rotate_for p next_ts policy = false -> (length post <= 2)%nat ->
  part_bounded policy (written (p_writer p) ++ post).
Proof.
  intros Hl He Hr Hp. unfold part_bounded. destruct (Rotate.size_limit policy) as [limit|] eqn:El; [|done].
  exists (written (p_writer p)), post. split; [done|]. split; [done|].
  unfold should_rotate_for in Hr. destruct (Z.eqb_spec (p_packets p) 0); [left; by apply He|]. right.
  unfold Rotate.should_rotate in Hr. rewrite El in Hr. cbn [Rotate.size_bytes] in Hr.
  destruct (limit <=? bytes_written (p_writer p)) eqn:Eb; [done|]. apply Z.leb_gt in Eb.
  rewrite bytes_written_size in Eb. lia.
Qed.

(** The stream after [k] packets: the files it closed, in order, and [acc], what
    it accepted. *)
Record stream_inv (base : Path) (policy : Rotate.RotatePolicy) (s : StreamWriter W) (closed : list (Path * W))
    (acc : list view) (k : Z) : Prop := {
  si_base : base_path s = base /\ rotate_policy s = policy;
  si_paths : artifacts s = map fst closed ++ [cur_path s];
  si_nodup : NoDup (artifacts s);
  si_named : Forall (fun p => p = base \/ exists i, 1 <= i < next_part_index s /\ p = rotated_part_path base i) (artifacts s);
  si_next : 1 <= next_part_index s <= 1 + k;
  si_files : Forall (fun x => fs s !! fst x = Some (snd x)) closed;
  si_packets : concat (map (fun x => packets_of (written (snd x))) closed) ++
               packets_of (written (p_writer (current s))) = acc;
  si_part : part_ok (current s) k;
  si_bound : Forall (fun w => part_bounded policy (written w)) (map snd closed ++ [p_writer (current s)])
}.

Lemma stream_create_inv base policy : stream_inv base policy (stream_create base policy) [] [] 0.
Proof.
  split; cbn; try done.
  - apply NoDup_singleton.
  - constructor; [by left|constructor].
  - by rewrite written_new.
  - by apply part_new_ok.
  - constructor; [|constructor]. unfold part_bounded. rewrite written_new.
    destruct (Rotate.size_limit policy); [|done]. exists [], []. split; [done|]. split; [simpl; lia|]. by left.
Qed.

Lemma rotate_inv base policy s closed acc k io :
  stream_inv base policy s closed acc k -> k + 1 < u32_max ->
  exists s' r closed', rotate io s = (s', r) /\ r <> Panic /\
    stream_inv base policy s' closed' acc (k + 1) /\
    (r = Ok tt -> current s' = part_new) /\ (flush_ok io = true -> create_ok io = true -> r = Ok tt).
Proof.
  intros [[Hb Hpol] Hp Hn Hnm Hx Hf Ha Hpt Hbd] Hk. unfold rotate.
  assert (Hmono : forall p, (p = base \/ (exists i, 1 <= i < next_part_index s /\ p = rotated_part_path base i)) ->
    p = base \/ (exists i, 1 <= i < next_part_index s + 1 /\ p = rotated_part_path base i)).
  { intros p [->|(i & Hi & ->)]; [by left|right]. exists i. split; [lia|done]. }
  assert (Hsat : sat_add 0 u32_max (next_part_index s) 1 = next_part_index s + 1) by (unfold sat_add, clampz; lia).
  assert (Hpt' : part_ok (current s) (k + 1)) by (destruct Hpt; split; try done; lia).
  destruct (flush_ok io); cbn [negb].
  2: { eexists s, _, closed. split; [reflexivity|]. split; [done|]. split; [|done]. split; try done. lia. }
  rewrite Hsat, Hb. destruct (create_ok io); cbn [negb].
  2: { eexists _, _, closed. split; [reflexivity|]. split; [done|]. split; [|done].
       split; cbn; try done; [|lia]. eapply Forall_impl; [exact Hnm|]. exact Hmono. }
  set (path := rotated_part_path base (next_part_index s)).
  assert (Hfresh : path ∉ artifacts s).
  { intros Hin. eapply Forall_forall in Hnm; [|exact Hin]. destruct Hnm as [E|(i & Hi & E)].
    - by apply (rotated_not_base base (next_part_index s)).
    - apply rotated_inj in E; lia. }
  eexists _, _, (closed ++ [(cur_path s, p_writer (current s))]). split; [reflexivity|]. split; [done|].
  split; [|done]. split; cbn [base_path rotate_policy next_part_index artifacts current cur_path fs].
  - done.
  - by rewrite map_app, Hp, <- !(assoc_L (++)).
  - apply NoDup_app. split; [done|]. split; [|apply NoDup_singleton].
    intros q Hq ->%list_elem_of_singleton. done.
  - apply Forall_app. split; [eapply Forall_impl; [exact Hnm|exact Hmono]|]. constructor; [|constructor].
    right. exists (next_part_index s). split; [lia|done].
  - lia.
  - rewrite Hp in Hn, Hfresh. apply NoDup_app in Hn as (_ & Hd & _). apply Forall_app. split.
    + apply Forall_forall. intros [q w] Hin. eapply Forall_forall in Hf; [|exact Hin]. cbn [fst snd] in *.
      assert (Hq : q ∈ map fst closed) by (apply list_elem_of_fmap; by exists (q, w)).
      rewrite lookup_delete_ne by (intros ->; apply Hfresh, elem_of_app; by left).
      rewrite lookup_insert_ne; [done|]. intros <-. by eapply Hd; [exact Hq|apply list_elem_of_singleton].
    + constructor; [|constructor]. cbn [fst snd].
      rewrite lookup_delete_ne by (intros E; apply Hfresh; rewrite E; apply elem_of_app; right; by apply list_elem_of_singleton).
      by rewrite lookup_insert_eq.
  - rewrite map_app, concat_app. cbn. rewrite written_new, !app_nil_r. exact Ha.
  - apply part_new_ok. lia.
  - rewrite map_app. apply Forall_app. split; [exact Hbd|]. constructor; [|constructor].
    unfold part_bounded. cbn. rewrite written_new. destruct (Rotate.size_limit policy); [|done].
    exists [], []. split; [done|]. split; [simpl; lia|]. by left.
Qed.

Definition limit_ok (policy : Rotate.RotatePolicy) : Prop :=
  match Rotate.size_limit policy with Some l => l <= u64_max | None => True end.

(** Appending to the current part, when no rotation is due. *)
Lemma append_part_inv base policy s closed acc k label pkt next_ts :
  stream_inv base policy s closed acc k -> limit_ok policy -> k < u32_max ->
  should_rotate_for (current s) next_ts policy = false -> p_ts_origin_ns pkt <= i64_max ->
  exists c r, part_append (current s) label pkt = (c, r) /\
    r = (if p_ts_origin_ns pkt <? 0 then Err E1001PipelineGeneric else Ok tt) /\
    stream_inv base policy
      (mkStream (base_path s) (rotate_policy s) (next_part_index s) (artifacts s) c (cur_path s) (fs s))
      closed (acc ++ taken r (pkt_view label pkt)) (k + 1).
Proof.
  intros [Hb Hp Hn Hnm Hx Hf Ha Hpt Hbd] Hl Hk Hr Ht.
  destruct (part_append_spec (current s) k label pkt Hpt) as (c & r & post & -> & Hc & Er & Hw & Hlen & Hpk); [lia|done|].
  exists c, r. split; [done|]. split; [done|]. split; cbn; try done; [lia| |].
  - by rewrite Hpk, (assoc_L (++)), Ha.
  - apply Forall_app in Hbd as [Hbd _]. apply Forall_app. split; [done|]. constructor; [|constructor].
    rewrite Hw. eapply part_bounded_app; [done|apply Hpt|exact Hr|done].
Qed.

Lemma append_packet_inv base policy s closed acc k io label pkt :
  stream_inv base policy s closed acc k -> limit_ok policy -> k + 2 < u32_max -> p_ts_origin_ns pkt <= i64_max ->
  exists s' r closed', append_packet io s label pkt = (s', r) /\ op_ok (io, label, pkt) r /\
    stream_inv base policy s' closed' (acc ++ taken r (pkt_view label pkt)) (k + 2).
Proof.
  intros Hi Hl Hk Ht. unfold append_packet. destruct (si_base _ _ _ _ _ _ Hi) as [_ ->].
  assert (Hval : forall r : result unit,
    r = (if p_ts_origin_ns pkt <? 0 then Err E1001PipelineGeneric else Ok tt) -> op_ok (io, label, pkt) r).
  { intros r ->. unfold op_ok. destruct (Z.ltb_spec (p_ts_origin_ns pkt) 0); [|done]. split; [done|lia]. }
  assert (Hmono : forall s' closed' acc', stream_inv base policy s' closed' acc' (k + 1) ->
    stream_inv base policy s' closed' acc' (k + 2)).
  { intros s' closed' acc' []. split; try done; [lia|]. by destruct si_part0; split; try done; lia. }
  destruct (should_rotate_for (current s) (p_ts_origin_ns pkt) policy) eqn:Er.
  - destruct (rotate_inv base policy s closed acc k io Hi) as (s1 & r & closed' & -> & Hr & Hi1 & Hnew & Hok); [lia|].
    destruct r as [[]|e|]; [| |done].
    + destruct (append_part_inv base policy s1 closed' acc (k + 1) label pkt (p_ts_origin_ns pkt))
        as (c & r & -> & Ev & Hi2); [done|done|lia| |done|].
      { by rewrite (Hnew eq_refl). }
      eexists _, _, closed'. split; [reflexivity|]. split; [by apply Hval|].
      by replace (k + 2) with (k + 1 + 1) by lia.
    + eexists _, _, closed'. split; [reflexivity|]. split; [split; [done|]; intros Hf Hc _; by specialize (Hok Hf Hc)|].
      rewrite app_nil_r. by apply Hmono.
  - destruct (append_part_inv base policy s closed acc k label pkt (p_ts_origin_ns pkt))
      as (c & r & -> & Ev & Hi2); [done|done|lia|done|done|].
    eexists _, _, closed. split; [reflexivity|]. split; [by apply Hval|]. by apply Hmono.
Qed.

Lemma stream_run_inv base policy os : forall s closed acc k,
  stream_inv base policy s closed acc k -> limit_ok policy -> k + 2 * zlen os < u32_max ->
  Forall (fun o : stream_op => p_ts_origin_ns (snd o) <= i64_max) os ->
  exists s' rs closed', stream_run s os = (s', rs) /\ Forall2 op_ok os rs /\
    stream_inv base policy s' closed' (acc ++ accepted os rs) (k + 2 * zlen os).
Proof.
  induction os as [|[[io label] pkt] os IH]; intros s closed acc k Hi Hl Hk HF.
  - exists s, [], closed. rewrite app_nil_r. change (2 * zlen (@nil stream_op)) with 0. by rewrite Z.add_0_r.
  - apply Forall_cons in HF as [Ht HF]. rewrite zlen_cons in *. pose proof (zlen_nonneg os).
    destruct (append_packet_inv base policy s closed acc k io label pkt Hi Hl) as (s1 & r & c1 & E & Hv & H1); [lia|done|].
    destruct (IH s1 c1 _ (k + 2) H1 Hl) as (s2 & rs & c2 & E2 & Hvs & H2); [lia|done|].
    exists s2, (r :: rs), c2. cbn [stream_run accepted]. rewrite E, E2. split; [done|]. split; [by constructor|].
    rewrite <- (assoc_L (++)) in H2. by replace (k + 2 * (1 + zlen os)) with (k + 2 + 2 * zlen os) by lia.
Qed.

(** C16: a rotating capture file loses nothing: after any run of the stream
    writer, with flushes and file creations failing at will, the artifact paths
    are all different (no part overwrites another), and reading the artifacts in
    order gives exactly the packets that were answered Ok, each with its
    timestamp, length and bytes and an interface block with its link type and
    label; a packet dated after 1970 is refused only when the file system fails;
    and a part exceeds the size limit by at most the packet that crossed it. *)
Theorem stream_writer_exact base policy os :
  limit_ok policy -> 2 * zlen os < u32_max ->
  Forall (fun o : stream_op => p_ts_origin_ns (snd o) <= i64_max) os ->
  exists (s : StreamWriter W) rs parts,
    stream_run (stream_create base policy) os = (s, rs) /\ Forall2 op_ok os rs /\
    NoDup (artifacts s) /\ Forall2 (fun p w => content s p = Some w) (artifacts s) parts /\
    concat (map (fun w => packets_of (written w)) parts) = accepted os rs /\
    Forall (fun w => part_bounded policy (written w)) parts.
Proof.
  intros Hl Hz HF.
  destruct (stream_run_inv base policy os _ [] [] 0 (stream_create_inv base policy) Hl) as (s & rs & closed & E & Hv & Hi);
    [lia|done|].
  destruct Hi as [_ Hp Hn _ _ Hf Ha _ Hbd].
  exists s, rs, (map snd closed ++ [p_writer (current s)]). split; [done|]. split; [done|]. split; [done|].
  split; [|split; [|done]].
  - rewrite Hp in Hn. apply NoDup_app in Hn as (_ & Hd & _). rewrite Hp. apply Forall2_app.
    + rewrite Forall2_fmap. apply Forall_Forall2_diag. apply Forall_forall. intros [q w] Hin.
      unfold content. cbn [fst snd]. rewrite decide_False.
      * eapply Forall_forall in Hf; [|exact Hin]. done.
      * intros ->. eapply Hd; [apply list_elem_of_fmap; by exists (cur_path s, w)|by apply list_elem_of_singleton].
    + constructor; [|constructor]. unfold content. by rewrite decide_True.
  - rewrite map_app, concat_app, map_map. cbn. rewrite app_nil_r. exact Ha.
Qed.
End StreamFacts.

Definition small_policy : Rotate.RotatePolicy := Rotate.mkRPolicy (Some 1) None.
Definition stream_ops0 : list stream_op :=
  [(mkStreamIo true true, lit "eth0", pkt0); (mkStreamIo true false, lit "eth0", pkt1);
   (mkStreamIo true true, lit "eth0", pkt1)].
Lemma stream_writer_exact_witness :
  exists (s : StreamWriter BlockList) rs parts,
    stream_run (stream_create (path_of (lit "/tmp/cap.pcapng")) small_policy) stream_ops0 = (s, rs) /\
    NoDup (artifacts s) /\ Forall2 (fun p w => content s p = Some w) (artifacts s) parts /\
    concat (map (fun w => packets_of (written w)) parts) = accepted stream_ops0 rs.
Proof.
  destruct (stream_writer_exact (W:=BlockList) (path_of (lit "/tmp/cap.pcapng")) small_policy stream_ops0)
    as (s & rs & parts & H1 & _ & H2 & H3 & H4 & _).
  - vm_compute. discriminate.
  - vm_compute. reflexivity.
  - repeat (apply Forall_cons; split; [vm_compute; discriminate|]). constructor.
  - exists s, rs, parts. split; [exact H1|]. split; [exact H2|]. split; [exact H3|exact H4].
Defined.
