(* ===== verification/Wire.v ===== *)
(** * The wire protocol's envelopes

    crates/server/src/wire.rs and the data envelope of
    crates/server/src/runner.rs.  MessagePack itself (rmp_serde) and the text of
    a UUID are parameters. *)
From stdpp Require Import base numbers strings list.
From S2P Require Import Prelude Text Clock.

Local Open Scope Z_scope.
Local Open Scope tm_scope.

Definition MAX_FRAME_BYTES : Z := 1024 * 1024.

Inductive FrameType :=
| Hello | Auth | Sub | Unsub | Data | Ctl | Write | Metrics | Clientlog | Ping | Pong | ClockSync
| PanelPriority | Child.
#[export] Instance FrameType_eq_dec : EqDecision FrameType.
Proof. solve_decision. Defined.

Definition as_str (t : FrameType) : list Z :=
  lit match t with
      | Hello => "hello" | Auth => "auth" | Sub => "sub" | Unsub => "unsub" | Data => "data"
      | Ctl => "ctl" | Write => "write" | Metrics => "metrics" | Clientlog => "clientlog"
      | Ping => "ping" | Pong => "pong" | ClockSync => "clock_sync"
      | PanelPriority => "panel_priority" | Child => "child"
      end.

(** [rmpv::Value]; a float is its bits. *)
Inductive MValue :=
| MNil
| MBool (b : bool)
| MInt (z : Z)
| MF32 (bits : Z)
| MF64 (bits : Z)
| MStr (s : list Z)
| MBin (b : list Z)
| MArr (l : list MValue)
| MMap (m : list (MValue * MValue))
| MExt (ty : Z) (b : list Z).

Record Envelope := mkEnv {
  env_kind : FrameType; env_sid : option (list Z); env_ch : option Z; env_seq : Z; env_payload : MValue }.
Definition envelope_new (k : FrameType) (seq : Z) (p : MValue) : Envelope := mkEnv k None None seq p.
Definition with_sid (e : Envelope) (s : list Z) : Envelope :=
  mkEnv (env_kind e) (Some s) (env_ch e) (env_seq e) (env_payload e).
Definition with_ch (e : Envelope) (c : Z) : Envelope :=
  mkEnv (env_kind e) (env_sid e) (Some c) (env_seq e) (env_payload e).

Inductive WireError := Malformed | TooLarge (size limit : Z).
Definition wire_error_id (e : WireError) : ErrorId :=
  match e with Malformed => E2001WireMalformed | TooLarge _ _ => E2002WireLimit end.

Definition clock_quality_token (q : ClockQuality) : list Z :=
  lit match q with
      | QSynced => "synced" | QBestEffort => "best-effort" | QUnknown => "unknown" | QImported => "imported"
      end.
Definition clock_source_token (s : ClockSource) : list Z :=
  lit match s with
      | CSystem => "system" | CNtp => "ntp" | CPtp => "ptp" | CMonotonic => "monotonic" | CImported => "imported"
      end.

Section Wire.
  (** [rmp_serde::to_vec_named], [rmp_serde::from_slice], [Uuid::to_string]. *)
  Variable to_vec_named : Envelope -> option (list Z).
  Variable from_slice : list Z -> option Envelope.
  Variable uuid_str : Z -> list Z.

Definition encode (env : Envelope) : res WireError (list Z) :=
  match to_vec_named env with
  | None => Err Malformed
  | Some buf => if MAX_FRAME_BYTES <? zlen buf then Err (TooLarge (zlen buf) MAX_FRAME_BYTES) else Ok buf
  end.

Definition decode (bytes : list Z) : res WireError Envelope :=
  if MAX_FRAME_BYTES <? zlen bytes then Err (TooLarge (zlen bytes) MAX_FRAME_BYTES)
  else match from_slice bytes with None => Err Malformed | Some e => Ok e end.

Definition mkey (k : string) (v : MValue) : MValue * MValue := (MStr (lit k), v).
Definition data_envelope (sid ch seq : Z) (ts : DualTimestamp) (body source_label kind : list Z) : Envelope :=
  let payload := MMap [
    mkey "ts_origin" (MInt (ts_origin_ns ts)); mkey "ts_ingest" (MInt (ts_ingest_ns ts));
    mkey "mono_ns" (MInt (mono_ns ts)); mkey "boot_id" (MStr (uuid_str (boot_id ts)));
    mkey "node_id" (MStr (uuid_str (node_id ts))); mkey "clock_offset_ms" (MInt (clock_offset_ms ts));
    mkey "clock_quality" (MStr (clock_quality_token (clock_quality ts)));
    mkey "drift_ppm" (MF32 (drift_ppm ts));
    mkey "clock_source" (MStr (clock_source_token (clock_source ts)));
    mkey "sid" (MStr (uuid_str sid)); mkey "ch" (MInt ch); mkey "dir" (MStr (lit "in"));
    mkey "kind" (MStr kind); mkey "body" (MBin body); mkey "source" (MStr source_label)] in
  with_ch (with_sid (envelope_new Data seq payload) (uuid_str sid)) ch.

Definition encode_data_envelope_with_kind (sid ch seq : Z) (ts : DualTimestamp) (body source_label kind : list Z)
  : res WireError (list Z) :=
  encode (data_envelope sid ch seq ts body source_label kind).
Definition encode_data_envelope (sid ch seq : Z) (ts : DualTimestamp) (body source_label : list Z)
  : res WireError (list Z) :=
  encode_data_envelope_with_kind sid ch seq ts body source_label (lit "bytes").
End Wire.

(** The value under a string key of a map, as the clients read it. *)
Fixpoint map_get (k : list Z) (m : list (MValue * MValue)) : option MValue :=
  match m with
  | [] => None
  | (MStr k', v) :: m' => if bool_decide (k = k') then Some v else map_get k m'
  | _ :: m' => map_get k m'
  end.
Definition payload_get (e : Envelope) (k : string) : option MValue :=
  match env_payload e with MMap m => map_get (lit k) m | _ => None end.

(** What is published is what was received: over a MessagePack codec that
    decodes what it encodes, a data envelope is either refused as too large or
    malformed, or is at most one mebibyte and decodes to an envelope with the
    session, channel and sequence number it was built with and exactly the body
    and both timestamps it was given. *)
Theorem data_envelope_round_trip to_vec from uuid_str sid ch seq ts body label kind :
  (forall e b, to_vec e = Some b -> from b = Some e) ->
  match encode_data_envelope_with_kind to_vec uuid_str sid ch seq ts body label kind with
  | Ok b => zlen b <= MAX_FRAME_BYTES /\ exists e, decode from b = Ok e /\
      env_kind e = Data /\ env_sid e = Some (uuid_str sid) /\ env_ch e = Some ch /\ env_seq e = seq /\
      payload_get e "body" = Some (MBin body) /\ payload_get e "kind" = Some (MStr kind) /\
      payload_get e "ts_origin" = Some (MInt (ts_origin_ns ts)) /\
      payload_get e "ts_ingest" = Some (MInt (ts_ingest_ns ts)) /\
      payload_get e "source" = Some (MStr label)
  | Err (TooLarge n limit) => MAX_FRAME_BYTES < n /\ limit = MAX_FRAME_BYTES
  | Err Malformed => to_vec (data_envelope uuid_str sid ch seq ts body label kind) = None
  | Panic => False
  end.
Proof.
  intros Hrt. unfold encode_data_envelope_with_kind, encode.
  destruct (to_vec _) as [b|] eqn:E; [|done]. destruct (MAX_FRAME_BYTES <? zlen b) eqn:El; bprop; [done|].
  split; [done|]. exists (data_envelope uuid_str sid ch seq ts body label kind).
  split; [|by repeat split].
  unfold decode. rewrite (proj2 (Z.ltb_ge _ _)) by done. by rewrite (Hrt _ _ E).
Qed.

(** A codec that knows one envelope, for a concrete run. *)
Fixpoint mv_eqb (a b : MValue) : bool :=
  match a, b with
  | MNil, MNil => true
  | MBool x, MBool y => Bool.eqb x y
  | MInt x, MInt y | MF32 x, MF32 y | MF64 x, MF64 y => x =? y
  | MStr x, MStr y | MBin x, MBin y => bool_decide (x = y)
  | MArr l, MArr k =>
      (fix go l k := match l, k with
                     | [], [] => true
                     | x :: l', y :: k' => mv_eqb x y && go l' k'
                     | _, _ => false
                     end) l k
  | MMap l, MMap k =>
      (fix go l k := match l, k with
                     | [], [] => true
                     | (x, u) :: l', (y, v) :: k' => mv_eqb x y && mv_eqb u v && go l' k'
                     | _, _ => false
                     end) l k
  | MExt t x, MExt u y => (t =? u) && bool_decide (x = y)
  | _, _ => false
  end.
Lemma mv_eqb_eq : forall a b, mv_eqb a b = true -> a = b.
Proof.
  fix IH 1. intros a b. destruct a as [|x|x|x|x|x|x|l|l|t x], b as [|y|y|y|y|y|y|k|k|u y]; simpl; try done.
  - intros H. f_equal. by apply Bool.eqb_prop.
  - intros H%Z.eqb_eq. by f_equal.
  - intros H%Z.eqb_eq. by f_equal.
  - intros H%Z.eqb_eq. by f_equal.
  - intros H%bool_decide_eq_true. by f_equal.
  - intros H%bool_decide_eq_true. by f_equal.
  - intros H. f_equal. revert k H. induction l as [|v l IHl]; intros [|w k] H; try done.
    apply andb_true_iff in H as [H1 H2]. f_equal; [by apply IH|by apply IHl].
  - intros H. f_equal. revert k H. induction l as [|[v v'] l IHl]; intros [|[w w'] k] H; try done.
    apply andb_true_iff in H as [[H1 H2]%andb_true_iff H3]. f_equal; [|by apply IHl].
    f_equal; by apply IH.
  - intros [H1%Z.eqb_eq H2%bool_decide_eq_true]%andb_true_iff. by subst.
Qed.
Definition env_eqb (a b : Envelope) : bool :=
  bool_decide (env_kind a = env_kind b) && bool_decide (env_sid a = env_sid b) &&
  bool_decide (env_ch a = env_ch b) && (env_seq a =? env_seq b) && mv_eqb (env_payload a) (env_payload b).
Lemma env_eqb_eq a b : env_eqb a b = true -> a = b.
Proof.
  destruct a, b. unfold env_eqb. simpl. rewrite !andb_true_iff, !bool_decide_eq_true, Z.eqb_eq.
  intros [[[[-> ->] ->] ->] ->%mv_eqb_eq]. done.
Qed.
Definition ts_w : DualTimestamp := mkTs 10 20 3 1 2 0 QBestEffort 0 CSystem.
Definition env0 : Envelope := data_envelope show_nat 7 0 1 ts_w [222; 173] (lit "tcp:x") (lit "bytes").
Definition to_vec0 (e : Envelope) : option (list Z) := if env_eqb e env0 then Some [1; 2; 3] else None.
Definition from0 (b : list Z) : option Envelope := if bool_decide (b = [1; 2; 3]) then Some env0 else None.
Lemma codec0 e b : to_vec0 e = Some b -> from0 b = Some e.
Proof. unfold to_vec0. destruct (env_eqb e env0) eqn:E; [|done]. intros [= <-]. by apply env_eqb_eq in E as ->. Qed.
Lemma data_envelope_round_trip_witness :
  exists e, decode from0 [1; 2; 3] = Ok e /\ env_seq e = 1 /\ payload_get e "body" = Some (MBin [222; 173]).
Proof.
  pose proof (data_envelope_round_trip to_vec0 from0 show_nat 7 0 1 ts_w [222; 173] (lit "tcp:x") (lit "bytes") codec0) as H.
  assert (E : encode_data_envelope_with_kind to_vec0 show_nat 7 0 1 ts_w [222; 173] (lit "tcp:x") (lit "bytes")
    = Ok [1; 2; 3]) by (vm_compute; reflexivity).
  rewrite E in H. destruct H as (_ & e & H1 & _ & _ & _ & H2 & H3 & _). exists e. split; [exact H1|]. split; [exact H2|exact H3].
Defined.
