(* ===== verification/Runner.v ===== *)
(** * The source runner

    crates/server/src/runner.rs: source, framer, decoder, log sink and fan-out
    wired together for one source lifetime, with the [Source] trait and the mock
    source of crates/core/src/source.  The clock, the MessagePack codec and the
    broadcast channel are parameters; a decoder is its [decode] function, since
    none of the decoders keeps state between frames. *)
From stdpp Require Import base numbers strings gmap list.
From S2P Require Import Prelude Framer Text Sessions Decoder Clock SessionDir Wire.

Local Open Scope Z_scope.
Local Open Scope tm_scope.

(** ** source/mod.rs *)
Inductive Frame :=
| FBytes (d : list Z)
| FDatagram (src : option (list Z)) (d : list Z)
| FSsh (stream : Z) (d : list Z)
| FVisa (eom : bool) (d : list Z)
| FOther (kind d : list Z).
Record ChannelMeta := mkChannelMeta { cm_kind : list Z; cm_iface : list Z; cm_tags : list (list Z * list Z) }.

Class Source (S : Type) := {
  src_open : S -> S * result unit;
  src_recv : S -> S * result (option Frame);
  src_metadata : S -> ChannelMeta;
  src_close : S -> S * result unit
}.

(** ** source/mock.rs *)
Record MockSource := mkMock { queue : list Frame; mock_tag : list Z }.
Definition push_bytes (m : MockSource) (b : list Z) : MockSource := mkMock (queue m ++ [FBytes b]) (mock_tag m).
#[export] Instance MockSource_source : Source MockSource := {
  src_open := fun m => (m, Ok tt);
  src_recv := fun m =>
    match queue m with [] => (m, Ok None) | f :: q => (mkMock q (mock_tag m), Ok (Some f)) end;
  src_metadata := fun m => mkChannelMeta (lit "mock") (mock_tag m) [];
  src_close := fun m => (m, Ok tt)
}.

(** ** runner.rs *)
Record RunnerStats := mkRun { r_sid : Z; raw_frames : Z; framed : Z; decoded_records : Z }.

Definition frame_payload (f : Frame) : list Z :=
  match f with FBytes d | FDatagram _ d | FSsh _ d | FVisa _ d | FOther _ d => d end.

Section Runner.
  Context {S F L : Type} `{!Source S} `{!Framer F} `{!LogSink L}.
  Variable framer : F.
  Variable decode : list Z -> result (option Record_).
  (** The stamp of the n-th frame. *)
  Variable clock : Z -> DualTimestamp.
  Variable to_vec_named : Envelope -> option (list Z).
  Variable uuid_str : Z -> list Z.
  Variable Tx : Type.
  Variable send : Tx -> list Z -> Tx * option Z.

Record RunState := mkRunState {
  rs_src : S; rs_sink : L; rs_ingest : Ingest.Ingest Tx; rs_buf : list Z; rs_stats : RunnerStats }.
Definition set_sink (st : RunState) (l : L) : RunState :=
  mkRunState (rs_src st) l (rs_ingest st) (rs_buf st) (rs_stats st).
Definition count_framed (st : RunState) (buf : list Z) (n : Z) : RunState :=
  let s := rs_stats st in
  mkRunState (rs_src st) (rs_sink st) (rs_ingest st) buf (mkRun (r_sid s) (raw_frames s) n (decoded_records s)).
Definition count_decoded (st : RunState) (n : Z) : RunState :=
  let s := rs_stats st in
  mkRunState (rs_src st) (rs_sink st) (rs_ingest st) (rs_buf st) (mkRun (r_sid s) (raw_frames s) (framed s) n).

(** [if let Some(record) = decoder.decode(framed)? { append_record; += 1 }]. *)
Definition decode_frame (ts : DualTimestamp) (st : RunState) (fr : list Z) : RunState * result unit :=
  match decode fr with
  | Err e => (st, Err e)
  | Panic => (st, Panic)
  | Ok None => (st, Ok tt)
  | Ok (Some r) =>
      let '(l, rr) := ls_append_record (rs_sink st) ts r in
      let st1 := set_sink st l in
      match rr with
      | Ok _ =>
          match @checked ErrorId 0 u64_max (decoded_records (rs_stats st1) + 1) with
          | Ok n => (count_decoded st1 n, Ok tt)
          | _ => (st1, Panic)
          end
      | e => (st1, e)
      end
  end.

(** [while let Some(framed) = framer.poll_frame(&mut buf)?]. *)
Fixpoint frames_loop (fuel : nat) (ts : DualTimestamp) (st : RunState) : option (RunState * result unit) :=
  match fuel with
  | O => None
  | Datatypes.S fuel' =>
      match poll_frame framer (rs_buf st) with
      | (Ok None, b) => Some (count_framed st b (framed (rs_stats st)), Ok tt)
      | (Err e, b) => Some (count_framed st b (framed (rs_stats st)), Err e)
      | (Panic, b) => Some (count_framed st b (framed (rs_stats st)), Panic)
      | (Ok (Some fr), b) =>
          match @checked ErrorId 0 u64_max (framed (rs_stats st) + 1) with
          | Ok n =>
              let '(st1, r) := decode_frame ts (count_framed st b n) fr in
              match r with Ok _ => frames_loop fuel' ts st1 | e => Some (st1, e) end
          | _ => Some (count_framed st b (framed (rs_stats st)), Panic)
          end
      end
  end.

(** The body of the receive loop, for one frame of the source. *)
Definition handle_frame (label : list Z) (st : RunState) (fr : Frame) : option (RunState * result unit) :=
  let data := frame_payload fr in
  let s := rs_stats st in
  let ts := clock (raw_frames s) in
  let '(l, rr) := ls_append_raw (rs_sink st) ts In data in
  let st1 := set_sink st l in
  match rr with
  | Ok _ =>
      match @checked ErrorId 0 u64_max (raw_frames s + 1) with
      | Ok n =>
          let stats := mkRun (r_sid s) n (framed s) (decoded_records s) in
          let st2 := mkRunState (rs_src st1) (rs_sink st1) (rs_ingest st1) (rs_buf st1) stats in
          match encode_data_envelope to_vec_named uuid_str (r_sid s) 0 n ts data label with
          | Ok wire =>
              match Ingest.publish_wire Tx send (rs_ingest st2) (r_sid s) wire with
              | Ok (g, _) =>
                  let buf := rs_buf st2 ++ data in
                  frames_loop (Datatypes.S (length buf)) ts (mkRunState (rs_src st2) (rs_sink st2) g buf stats)
              | _ => Some (st2, Panic)
              end
          | Err e => Some (st2, Err (wire_error_id e))
          | Panic => Some (st2, Panic)
          end
      | _ => Some (st1, Panic)
      end
  | e => Some (st1, e)
  end.

Definition set_src (st : RunState) (s : S) : RunState :=
  mkRunState s (rs_sink st) (rs_ingest st) (rs_buf st) (rs_stats st).

Fixpoint recv_loop (fuel : nat) (label : list Z) (st : RunState) : option (RunState * result unit) :=
  match fuel with
  | O => None
  | Datatypes.S fuel' =>
      let '(s, r) := src_recv (rs_src st) in
      let st1 := set_src st s in
      match r with
      | Ok None => Some (st1, Ok tt)
      | Err e => Some (st1, Err e)
      | Panic => Some (st1, Panic)
      | Ok (Some fr) =>
          match handle_frame label st1 fr with
          | Some (st2, Ok _) => recv_loop fuel' label st2
          | stop => stop
          end
      end
  end.

(** [commit], [close] of the sink, [close] of the source. *)
Definition finish (st : RunState) : RunState * result RunnerStats :=
  let '(l1, r1) := ls_commit (rs_sink st) in
  match r1 with
  | Err e => (set_sink st l1, Err e)
  | Panic => (set_sink st l1, Panic)
  | Ok _ =>
      let '(l2, r2) := ls_close l1 in
      match r2 with
      | Err e => (set_sink st l2, Err e)
      | Panic => (set_sink st l2, Panic)
      | Ok _ =>
          let '(s, r3) := src_close (rs_src st) in
          (set_src (set_sink st l2) s,
           match r3 with Ok _ => Ok (rs_stats st) | Err e => Err e | Panic => Panic end)
      end
  end.

(** [sid] is the override, or the fresh identifier of the session. *)
Definition run_source_once_notify (fuel : nat) (sid : Z) (lab : option (list Z)) (tx : Tx)
    (src : S) (sink : L) (g : Ingest.Ingest Tx) : option (RunState * result RunnerStats) :=
  let '(s1, r) := src_open src in
  let st0 g' i := mkRunState s1 sink g' [] (mkRun i 0 0 0) in
  match r with
  | Err e => Some (st0 g sid, Err e)
  | Panic => Some (st0 g sid, Panic)
  | Ok _ =>
      let meta := src_metadata s1 in
      let state := Ingest.mkSession Tx sid (cm_kind meta) (cm_iface meta) lab tx in
      let '(g1, i) := Ingest.register_session Tx g state in
      let source_label := cm_kind meta ++ [58] ++ cm_iface meta in
      match recv_loop fuel source_label (st0 g1 i) with
      | None => None
      | Some (st, Ok _) => Some (finish st)
      | Some (st, Err e) => Some (st, Err e)
      | Some (st, Panic) => Some (st, Panic)
      end
  end.
End Runner.
Arguments RunState : clear implicits.

(** ** The calls a run makes *)
Inductive sink_call := CRaw (t : DualTimestamp) (d : Dir) (data : list Z) | CRec (t : DualTimestamp) (r : Record_) | CCommit | CClose.
Record Traced (L : Type) := mkTraced { traced : L; sink_calls : list sink_call }.
Arguments mkTraced {L}. Arguments traced {L}. Arguments sink_calls {L}.
Definition trace_call {L A} (c : sink_call) (t : Traced L) (out : L * A) : Traced L * A :=
  (mkTraced (fst out) (sink_calls t ++ [c]), snd out).
#[export] Instance Traced_sink {L} `{!LogSink L} : LogSink (Traced L) := {
  ls_append_raw := fun t ts d x => trace_call (CRaw ts d x) t (ls_append_raw (traced t) ts d x);
  ls_append_record := fun t ts r => trace_call (CRec ts r) t (ls_append_record (traced t) ts r);
  ls_commit := fun t => trace_call CCommit t (ls_commit (traced t));
  ls_close := fun t => trace_call CClose t (ls_close (traced t))
}.
Definition raws (cs : list sink_call) : list (list Z) :=
  omap (fun c => match c with CRaw _ _ x => Some x | _ => None end) cs.

(** A source that remembers what it handed out. *)
Record Heard (S : Type) := mkHeard { heard_src : S; heard : list (list Z) }.
Arguments mkHeard {S}. Arguments heard_src {S}. Arguments heard {S}.
#[export] Instance Heard_source {S} `{!Source S} : Source (Heard S) := {
  src_open := fun h => let '(s, r) := src_open (heard_src h) in (mkHeard s (heard h), r);
  src_recv := fun h =>
    let '(s, r) := src_recv (heard_src h) in
    (mkHeard s (heard h ++ match r with Ok (Some f) => [frame_payload f] | _ => [] end), r);
  src_metadata := fun h => src_metadata (heard_src h);
  src_close := fun h => let '(s, r) := src_close (heard_src h) in (mkHeard s (heard h), r)
}.

Lemma raws_snoc cs c : raws (cs ++ [c]) = raws cs ++ match c with CRaw _ _ x => [x] | _ => [] end.
Proof. unfold raws. rewrite omap_app. by destruct c. Qed.

Section Order.
  Context {S F L : Type} `{!Source S} `{!Framer F} `{!LogSink L}.
  Variable framer : F.
  Variable decode : list Z -> result (option Record_).
  Variable clock : Z -> DualTimestamp.
  Variable to_vec_named : Envelope -> option (list Z).
  Variable uuid_str : Z -> list Z.
  Variable Tx : Type.
  Variable send : Tx -> list Z -> Tx * option Z.
  Abbreviation State := (RunState (Heard S) (Traced L) Tx).

(** Two states with the same source and the same raw calls. *)
Definition same_raws (a b : State) : Prop :=
  rs_src Tx a = rs_src Tx b /\ raws (sink_calls (rs_sink Tx a)) = raws (sink_calls (rs_sink Tx b)).

Lemma decode_frame_raws ts (st : State) fr : same_raws (fst (decode_frame decode Tx ts st fr)) st.
Proof using Type.
  unfold decode_frame. destruct (decode fr) as [[r|]|e|]; [|done..].
  cbn [ls_append_record Traced_sink]. unfold trace_call.
  destruct (ls_append_record (traced (rs_sink Tx st)) ts r) as [l [u|e|]]; cbn [fst snd];
    [destruct (checked _ _ _)|..]; (split; [done|]); cbn; by rewrite raws_snoc, app_nil_r.
Qed.

Lemma frames_loop_raws fuel ts : forall (st st' : State) r,
  frames_loop framer decode Tx fuel ts st = Some (st', r) -> same_raws st' st.
Proof using Type.
  induction fuel as [|fuel IH]; intros st st' r; [done|]. cbn [frames_loop].
  destruct (poll_frame framer (rs_buf Tx st)) as [[[fr|]|e|] b]; try (by intros [= <- <-]).
  destruct (checked _ _ _) as [n|e|]; try (by intros [= <- <-]).
  pose proof (decode_frame_raws ts (count_framed Tx st b n) fr) as Hd.
  destruct (decode_frame decode Tx ts (count_framed Tx st b n) fr) as [st1 [u|e|]]; cbn [fst] in Hd.
  - intros H%IH. destruct H as [H1 H2], Hd as [H3 H4]. split; [by rewrite H1, H3|by rewrite H2, H4].
  - by intros [= <- <-].
  - by intros [= <- <-].
Qed.

Lemma handle_frame_raws label (st st' : State) fr r :
  handle_frame framer decode clock to_vec_named uuid_str Tx send label st fr = Some (st', r) ->
  rs_src Tx st' = rs_src Tx st /\
  raws (sink_calls (rs_sink Tx st')) = raws (sink_calls (rs_sink Tx st)) ++ [frame_payload fr].
Proof using Type.
  unfold handle_frame. cbn [ls_append_raw Traced_sink]. unfold trace_call.
  destruct (ls_append_raw (traced (rs_sink Tx st)) _ In (frame_payload fr)) as [l rr]. cbn [fst snd].
  assert (Hr : raws (sink_calls (rs_sink Tx st) ++ [CRaw (clock (raw_frames (rs_stats Tx st))) In (frame_payload fr)])
    = raws (sink_calls (rs_sink Tx st)) ++ [frame_payload fr]) by apply raws_snoc.
  destruct rr as [u|e|]; try (by intros [= <- <-]).
  destruct (checked _ _ _) as [n|e|]; try (by intros [= <- <-]).
  destruct (encode_data_envelope _ _ _ _ _ _ _ _) as [wire|e|]; try (by intros [= <- <-]).
  destruct (Ingest.publish_wire _ _ _ _ _) as [[g d]|e|]; try (by intros [= <- <-]).
  intros [H1 H2]%frames_loop_raws. split; [done|]. by rewrite H2.
Qed.

Lemma recv_loop_raws label fuel : forall (st st' : State) r,
  raws (sink_calls (rs_sink Tx st)) = heard (rs_src Tx st) ->
  recv_loop framer decode clock to_vec_named uuid_str Tx send fuel label st = Some (st', r) ->
  raws (sink_calls (rs_sink Tx st')) = heard (rs_src Tx st').
Proof using Type.
  induction fuel as [|fuel IH]; intros st st' r Hi; [done|]. cbn [recv_loop].
  cbn [src_recv Heard_source]. destruct (src_recv (heard_src (rs_src Tx st))) as [s rr].
  destruct rr as [[fr|]|e|]; try (intros [= <- <-]; cbn; by rewrite app_nil_r).
  set (st1 := set_src Tx st _). destruct (handle_frame _ _ _ _ _ _ _ label st1 fr) as [[st2 r2]|] eqn:E; [|done].
  apply handle_frame_raws in E as [H1 H2].
  assert (Hi2 : raws (sink_calls (rs_sink Tx st2)) = heard (rs_src Tx st2)) by (rewrite H1, H2; cbn; by rewrite Hi).
  destruct r2 as [u|e|]; [by apply IH|by intros [= <- <-]..].
Qed.

Lemma finish_raws (st : State) :
  raws (sink_calls (rs_sink Tx st)) = heard (rs_src Tx st) ->
  raws (sink_calls (rs_sink Tx (fst (finish Tx st)))) = heard (rs_src Tx (fst (finish Tx st))).
Proof using Type.
  intros Hi. unfold finish. cbn [ls_commit Traced_sink]. unfold trace_call.
  destruct (ls_commit (traced (rs_sink Tx st))) as [l1 [u|e|]]; cbn [fst snd];
    [|cbn; by rewrite raws_snoc, app_nil_r..].
  cbn [ls_close Traced_sink traced sink_calls]. unfold trace_call.
  destruct (ls_close l1) as [l2 [u2|e|]]; cbn [fst snd traced sink_calls];
    [|cbn; by rewrite !raws_snoc, !app_nil_r..].
  cbn [src_close Heard_source]. destruct (src_close (heard_src (rs_src Tx st))) as [s r3]. cbn.
  by rewrite !raws_snoc, !app_nil_r.
Qed.

(** Nothing received goes unlogged: in any run of any source with any framer,
    decoder and sink, however it ends, the payloads handed to the sink's
    [append_raw] are exactly the payloads the source delivered, in order; a frame
    the framer, the decoder or the wire encoder refuses has been logged before. *)
Theorem runner_logs_received fuel sid lab tx (src : S) (sink : L) g st r :
  run_source_once_notify framer decode clock to_vec_named uuid_str Tx send fuel sid lab tx
    (mkHeard src []) (mkTraced sink []) g = Some (st, r) ->
  raws (sink_calls (rs_sink Tx st)) = heard (rs_src Tx st).
Proof using Type.
  unfold run_source_once_notify. cbn [src_open Heard_source]. destruct (src_open _) as [s1 ro].
  destruct ro as [u|e|]; try (by intros [= <- <-]).
  destruct (Ingest.register_session Tx g _) as [g1 i].
  destruct (recv_loop _ _ _ _ _ _ _ fuel _ _) as [[st1 r1]|] eqn:E; [|done].
  apply recv_loop_raws in E; [|done].
  destruct r1 as [u1|e|]; try (by intros [= <- <-]). intros [= Hf].
  pose proof (finish_raws st1 E) as H. by rewrite Hf in H.
Qed.
End Order.

(** ** A run that reaches the end of its source *)
Section RunCalls.
  Context {L : Type} `{!LogSink L}.

Definition do_call (s : L) (c : sink_call) : L * result unit :=
  match c with
  | CRaw t d x => ls_append_raw s t d x
  | CRec t r => ls_append_record s t r
  | CCommit => ls_commit s
  | CClose => ls_close s
  end.
Fixpoint run_calls (s : L) (cs : list sink_call) : option L :=
  match cs with
  | [] => Some s
  | c :: cs' => match do_call s c with (l, Ok _) => run_calls l cs' | _ => None end
  end.
Lemma run_calls_app s cs ds : run_calls s (cs ++ ds) = (l ← run_calls s cs; run_calls l ds).
Proof.
  revert s. induction cs as [|c cs IH]; intros s; [done|]. cbn [run_calls app].
  destruct (do_call s c) as [l [u|e|]]; [apply IH|done..].
Qed.
End RunCalls.

Section Delivery.
  Context {F L : Type} `{!Framer F} `{!LogSink L}.
  Variable framer : F.
  Variable decode : list Z -> result (option Record_).
  Variable clock : Z -> DualTimestamp.
  Variable to_vec_named : Envelope -> option (list Z).
  Variable uuid_str : Z -> list Z.
  Variable Tx : Type.
  Variable send : Tx -> list Z -> Tx * option Z.
  Abbreviation State := (RunState MockSource L Tx).

(** What the chunks amount to: frames per chunk, records, calls and wires. *)
Definition decoded (x : list Z) : option Record_ := match decode x with Ok o => o | _ => None end.
Definition decodes (x : list Z) : Prop := exists o, decode x = Ok o.
Definition records (fs : list (list Z)) : list Record_ := omap decoded fs.
Fixpoint feed_frames (buf : list Z) (cs : list (list Z)) : option (list (list (list Z)) * list Z) :=
  match cs with
  | [] => Some ([], buf)
  | c :: cs' =>
      match drain framer (buf ++ c) with
      | Some (fs, Ok _, b) => '(fss, b') ← feed_frames b cs'; Some (fs :: fss, b')
      | _ => None
      end
  end.
Definition chunk_calls (n : Z) (c : list Z) (fs : list (list Z)) : list sink_call :=
  CRaw (clock n) In c :: map (CRec (clock n)) (records fs).
Fixpoint all_calls (n : Z) (cs : list (list Z)) (fss : list (list (list Z))) : list sink_call :=
  match cs, fss with
  | c :: cs', fs :: fss' => chunk_calls n c fs ++ all_calls (n + 1) cs' fss'
  | _, _ => []
  end.
Fixpoint wires (sid : Z) (label : list Z) (n : Z) (cs : list (list Z)) : option (list (list Z)) :=
  match cs with
  | [] => Some []
  | c :: cs' =>
      match encode_data_envelope to_vec_named uuid_str sid 0 (n + 1) (clock n) c label with
      | Ok w => ws ← wires sid label (n + 1) cs'; Some (w :: ws)
      | _ => None
      end
  end.

Lemma records_le fs : zlen (records fs) <= zlen fs.
Proof using Type.
  unfold zlen, records. induction fs as [|x fs IH]; cbn; [lia|]. destruct (decoded x); cbn; lia.
Qed.

Lemma frames_loop_ok ts fuel : forall (st : State) fs b l',
  drain_n fuel framer (rs_buf Tx st) = Some (fs, Ok tt, b) -> Forall decodes fs ->
  run_calls (rs_sink Tx st) (map (CRec ts) (records fs)) = Some l' ->
  0 <= framed (rs_stats Tx st) -> framed (rs_stats Tx st) + zlen fs <= u64_max ->
  0 <= decoded_records (rs_stats Tx st) <= framed (rs_stats Tx st) ->
  frames_loop framer decode Tx fuel ts st =
  Some (mkRunState Tx (rs_src Tx st) l' (rs_ingest Tx st) b
    (mkRun (r_sid (rs_stats Tx st)) (raw_frames (rs_stats Tx st)) (framed (rs_stats Tx st) + zlen fs)
       (decoded_records (rs_stats Tx st) + zlen (records fs))), Ok tt).
Proof using Type.
  induction fuel as [|fuel IH]; intros [s l g buf [i a f d]] fs b l' Hd HF Hr H0 Hu Hdec; [done|].
  cbn [drain_n frames_loop rs_buf] in *. cbn [rs_stats framed decoded_records rs_sink] in *.
  destruct (poll_frame framer buf) as [[[fr|]|e|] b1]; [| |done|done].
  - apply fmap_Some in Hd as ([[fs' r'] b'] & Hd & Heq). simplify_eq.
    apply Forall_cons in HF as [[o Ho] HF]. pose proof (zlen_nonneg fs'). rewrite zlen_cons in *.
    rewrite checked_ok by lia. unfold decode_frame. rewrite Ho.
    assert (Hrec : records (fr :: fs') = match o with Some r => r :: records fs' | None => records fs' end).
    { unfold records. cbn. unfold decoded at 1. rewrite Ho. by destruct o. }
    rewrite Hrec in *. destruct o as [r|].
    + cbn [map run_calls do_call] in Hr. cbn [count_framed rs_sink].
      destruct (ls_append_record l ts r) as [l1 [u|e|]]; [|done..].
      cbn [count_framed set_sink rs_stats decoded_records]. rewrite checked_ok by lia.
      rewrite (IH _ fs' b' l'); try done; cbn; try lia. do 2 f_equal. rewrite zlen_cons. f_equal; f_equal; lia.
    + rewrite (IH _ fs' b' l'); try done; cbn; try lia. do 2 f_equal. f_equal; f_equal; lia.
  - simplify_eq/=. unfold count_framed. cbn. change (zlen (@nil (list Z))) with 0. change (zlen (@nil Record_)) with 0.
    by rewrite !Z.add_0_r.
Qed.

Lemma recv_loop_ok label cs : forall fuel (st : State) fss rest l' ws g' ds,
  (length cs < fuel)%nat -> queue (rs_src Tx st) = map FBytes cs ->
  feed_frames (rs_buf Tx st) cs = Some (fss, rest) -> Forall decodes (concat fss) ->
  run_calls (rs_sink Tx st) (all_calls (raw_frames (rs_stats Tx st)) cs fss) = Some l' ->
  wires (r_sid (rs_stats Tx st)) label (raw_frames (rs_stats Tx st)) cs = Some ws ->
  Ingest.run Tx send (rs_ingest Tx st) (map (Ingest.Publish Tx (r_sid (rs_stats Tx st))) ws) = Ok (g', ds) ->
  0 <= raw_frames (rs_stats Tx st) -> raw_frames (rs_stats Tx st) + zlen cs <= u64_max ->
  0 <= framed (rs_stats Tx st) -> framed (rs_stats Tx st) + zlen (concat fss) <= u64_max ->
  0 <= decoded_records (rs_stats Tx st) <= framed (rs_stats Tx st) ->
  recv_loop framer decode clock to_vec_named uuid_str Tx send fuel label st =
  Some (mkRunState Tx (mkMock [] (mock_tag (rs_src Tx st))) l' g' rest
    (mkRun (r_sid (rs_stats Tx st)) (raw_frames (rs_stats Tx st) + zlen cs)
       (framed (rs_stats Tx st) + zlen (concat fss))
       (decoded_records (rs_stats Tx st) + zlen (records (concat fss)))), Ok tt).
Proof using Type.
  induction cs as [|c cs IH]; intros [|fuel] [[q tag] l g buf [i a f d]] fss rest l' ws g' ds Hf Hq Hfd HF Hc Hw Hg Ha Hau Hf0 Hfu Hd0;
    cbn [length rs_src rs_buf rs_sink rs_stats rs_ingest raw_frames r_sid framed decoded_records queue mock_tag] in *;
    try lia; subst q.
  - cbn [recv_loop src_recv MockSource_source rs_src queue map]. simplify_eq/=. unfold set_src. cbn.
    rewrite !Z.add_0_r. done.
  - cbn [recv_loop src_recv MockSource_source rs_src queue map mock_tag set_src].
    cbn [feed_frames] in Hfd. destruct (drain framer (buf ++ c)) as [[[fs [[]|e|]] b]|] eqn:Ed; try done.
    apply bind_Some in Hfd as ([fss' b'] & Hfd & [= <- <-]).
    cbn [all_calls] in Hc. rewrite run_calls_app in Hc. apply bind_Some in Hc as (l1 & Hc1 & Hc2).
    unfold chunk_calls in Hc1. cbn [run_calls do_call] in Hc1.
    destruct (ls_append_raw l (clock a) In c) as [l0 [u|e|]] eqn:El; try done.
    cbn [wires] in Hw. destruct (encode_data_envelope to_vec_named uuid_str i 0 (a + 1) (clock a) c label) as [w|e|] eqn:Ew; try done.
    apply bind_Some in Hw as (ws' & Hw & [= <-]).
    cbn [map Ingest.run Ingest.apply_op] in Hg. apply bind_Ok in Hg as ([g1 r1] & Hp & Hg).
    apply bind_Ok in Hg as ([g2 rs2] & Hg & [= <- <-]).
    cbn [concat] in *. apply Forall_app in HF as [HF1 HF2]. rewrite zlen_app, zlen_cons in *.
    pose proof (zlen_nonneg cs). pose proof (zlen_nonneg fs). pose proof (zlen_nonneg (concat fss')).
    unfold handle_frame. cbn [frame_payload rs_stats raw_frames rs_sink set_src]. rewrite El.
    rewrite checked_ok by lia. cbn [r_sid]. rewrite Ew. cbn [rs_ingest set_sink set_src rs_src rs_sink rs_buf rs_stats]. rewrite Hp.
    cbn [rs_buf rs_src rs_sink framed decoded_records].
    rewrite (frames_loop_ok (clock a) _ _ fs b l1); cbn [rs_buf rs_sink rs_stats framed decoded_records rs_src rs_ingest];
      try done; try lia.
    pose proof (records_le fs).
    pose proof (zlen_nonneg (records fs)).
    cbn [r_sid raw_frames]. rewrite (IH _ _ fss' b' l' ws' g2 rs2); cbn; try done; try lia.
    do 2 f_equal. unfold records. rewrite omap_app, zlen_app. f_equal. f_equal; lia.
Qed.
End Delivery.

(** ** The file sink behind a run *)
Definition op_of (c : sink_call) : sink_op :=
  match c with
  | CRaw t d x => OpRaw NoFault 0 t d x
  | CRec t r => OpRecord row_fine row_fine t r
  | CCommit => OpCommit sync_fine
  | CClose => OpClose sync_fine
  end.
Definition call_bytes (c : sink_call) : list Z := match c with CRaw _ _ x => x | _ => [] end.
Definition call_small (c : sink_call) : Prop := zlen (call_bytes c) <= u32_max.
Definition call_record (c : sink_call) : list Record_ := match c with CRec _ r => [r] | _ => [] end.

Section FileRun.
  Variable rfc3339 : Z -> option (list Z).

Lemma append_raw_fine s t d x :
  zlen x <= u32_max -> 0 <= pos (raw s) -> pos (raw s) + zlen x <= u64_max ->
  exists s', append_raw rfc3339 NoFault 0 s t d x = (s', Ok tt) /\
    pos (raw s') = pos (raw s) + zlen x /\ frames s' = frames s /\
    stream (inner (raw s')) = stream (inner (raw s)) ++ x.
Proof using Type.
  intros Hx H0 Hu. pose proof (zlen_nonneg x). unfold append_raw, raw_append.
  assert (try_from 0 u32_max (zlen x) = Some (zlen x)) as -> by (apply try_from_Some; lia).
  rewrite checked_ok by lia. eexists. split; [reflexivity|]. split; [done|]. split; [done|].
  unfold stream. cbn [inner raw set_index set_raw w_flush w_append disk buffered fst].
  rewrite take_0, drop_0, !app_nil_r. by rewrite (assoc_L (++)).
Qed.

Lemma file_run cs : forall s,
  Forall call_small cs -> 0 <= pos (raw s) -> pos (raw s) + zlen (concat (map call_bytes cs)) <= u64_max ->
  let s' := sink_run rfc3339 s (map op_of cs) in
  run_calls (LogSink0 := FileLogSink_LogSink rfc3339) s cs = Some s' /\
  stream (inner (raw s')) = stream (inner (raw s)) ++ concat (map call_bytes cs) /\
  map f_record (stream (frames s')) = map f_record (stream (frames s)) ++ concat (map call_record cs).
Proof using Type.
  induction cs as [|c cs IH]; intros s HF H0 Hu; [by rewrite !app_nil_r|].
  apply Forall_cons in HF as [Hc HF]. cbn [map concat] in *. rewrite zlen_app in Hu.
  pose proof (zlen_nonneg (call_bytes c)). pose proof (zlen_nonneg (concat (map call_bytes cs))).
  assert (Hstep : exists s1, do_call (LogSink0 := FileLogSink_LogSink rfc3339) s c = (s1, Ok tt) /\
    s1 = sink_step rfc3339 s (op_of c) /\ pos (raw s1) = pos (raw s) + zlen (call_bytes c) /\
    stream (inner (raw s1)) = stream (inner (raw s)) ++ call_bytes c /\
    map f_record (stream (frames s1)) = map f_record (stream (frames s)) ++ call_record c).
  { destruct c as [t d x|t r| |]; cbn [do_call op_of call_bytes call_record].
    - destruct (append_raw_fine s t d x) as (s1 & E & Hp & Hfr & Hst); [done|done|cbn in *; lia|].
      exists s1. split; [exact E|]. split; [cbn [sink_step]; by rewrite E|]. rewrite Hfr, app_nil_r. done.
    - destruct (append_record_fine rfc3339 s t r) as (s1 & E & Hr & _ & _ & Hfr). exists s1. split; [exact E|].
      split; [cbn [sink_step]; by rewrite E|]. rewrite Hr, Hfr, map_app, app_nil_r, Z.add_0_r. done.
    - eexists. split; [reflexivity|]. split; [done|]. split; [cbn; by rewrite Z.add_0_r|].
      unfold stream. cbn. by rewrite !app_nil_r.
    - cbn [ls_close FileLogSink_LogSink sink_step]. unfold close.
      destruct (closed s); eexists; (split; [reflexivity|]); unfold stream; cbn; rewrite ?Z.add_0_r, ?app_nil_r; done. }
  destruct Hstep as (s1 & E & Es & Hp1 & Hst1 & Hfr1). cbn [run_calls]. rewrite E.
  destruct (IH s1 HF) as (E1 & E2 & E3); [lia|rewrite Hp1; lia|].
  change (sink_run rfc3339 s (op_of c :: map op_of cs)) with (sink_run rfc3339 (sink_step rfc3339 s (op_of c)) (map op_of cs)).
  rewrite <- Es. split; [done|]. rewrite E2, E3, Hst1, Hfr1, <- !(assoc_L (++)). done.
Qed.
End FileRun.

Lemma feed_to_frames {F} `{!Framer F} (f : F) cs : forall buf fs rest,
  feed f buf cs = Some (fs, Ok tt, rest) ->
  exists fss, feed_frames f buf cs = Some (fss, rest) /\ concat fss = fs /\ length fss = length cs.
Proof.
  induction cs as [|c cs IH]; intros buf fs rest; cbn [feed feed_frames].
  - intros [= <- <-]. by exists [].
  - destruct (drain f (buf ++ c)) as [[[fs1 [[]|e|]] b]|]; try done.
    intros ([[fs2 r2] b2] & Hf & Heq)%fmap_Some. simplify_eq.
    destruct (IH _ _ _ Hf) as (fss & -> & <- & Hl). exists (fs1 :: fss). cbn. by rewrite Hl.
Qed.

Section AllCalls.
  Variable decode : list Z -> result (option Record_).
  Variable clock : Z -> DualTimestamp.

Lemma all_calls_parts cs : forall n fss, length fss = length cs ->
  concat (map call_bytes (all_calls decode clock n cs fss)) = concat cs /\
  concat (map call_record (all_calls decode clock n cs fss)) = records decode (concat fss) /\
  concat (map indexed (map op_of (all_calls decode clock n cs fss))) = map (fun c => (In, c)) cs.
Proof using Type.
  assert (Hr : forall t rs, concat (map call_bytes (map (CRec t) rs)) = [] /\
    concat (map call_record (map (CRec t) rs)) = rs /\ concat (map indexed (map op_of (map (CRec t) rs))) = []).
  { intros t rs. induction rs as [|r rs (H1 & H2 & H3)]; [done|]. cbn. by rewrite H1, H2, H3. }
  induction cs as [|c cs IH]; intros n [|fs fss] Hl; try done.
  destruct (IH (n + 1) fss) as (H1 & H2 & H3); [by injection Hl|].
  destruct (Hr (clock n) (records decode fs)) as (R1 & R2 & R3).
  cbn [all_calls]. unfold chunk_calls. cbn [app map concat call_bytes call_record op_of indexed].
  rewrite !map_app, !concat_app, R1, R2, R3, H1, H2, H3. unfold records. by rewrite omap_app.
Qed.

Lemma all_calls_small cs : forall n fss, Forall (fun c => zlen c <= u32_max) cs ->
  Forall call_small (all_calls decode clock n cs fss).
Proof using Type.
  induction cs as [|c cs IH]; intros n [|fs fss] HF; try (by constructor).
  apply Forall_cons in HF as [Hc HF]. cbn [all_calls]. apply Forall_app. split; [|by apply IH].
  constructor; [exact Hc|]. apply Forall_map, Forall_true. intros r. cbv. discriminate.
Qed.
End AllCalls.

Lemma calls_bytes_ops cs : ops_bytes (map op_of cs) = zlen (concat (map call_bytes cs)).
Proof.
  induction cs as [|c cs IH]; [done|]. cbn [map ops_bytes concat]. rewrite zlen_app, IH. by destruct c.
Qed.
Lemma run_calls_closed rfc3339 cs : forall s s',
  Forall (fun c => c <> CClose) cs -> run_calls (LogSink0 := FileLogSink_LogSink rfc3339) s cs = Some s' ->
  closed s = closed s'.
Proof.
  induction cs as [|c cs IH]; intros s s' HF; [by intros [= <-]|]. apply Forall_cons in HF as [Hc HF].
  cbn [run_calls]. assert (Ho : closed (fst (do_call (LogSink0 := FileLogSink_LogSink rfc3339) s c)) = closed s).
  { destruct c as [t d x|t r| |]; [| |done..]; cbn [do_call ls_append_raw ls_append_record FileLogSink_LogSink].
    - unfold append_raw. destruct (raw_append _ _ _ _) as [r1 [[o l]|e|]]; [|done..]. by destruct (w_flush _ (inner r1)) as [w2 []].
    - by destruct (append_record_fine rfc3339 s t r) as (s1 & -> & _ & _ & Hcl & _). }
  destruct (do_call s c) as [l [u|e|]]; [|done..]. intros R. rewrite <- Ho. by apply IH.
Qed.
Lemma all_calls_open decode clock cs : forall n fss, Forall (fun c => c <> CClose) (all_calls decode clock n cs fss).
Proof.
  induction cs as [|c cs IH]; intros n [|fs fss]; try (by constructor). cbn [all_calls]. apply Forall_app.
  split; [|apply IH]. constructor; [done|]. by apply Forall_map, Forall_true.
Qed.

Section FileSession.
  Context {F : Type} `{!Framer F}.
  Variable framer : F.
  Variable decode : list Z -> result (option Record_).
  Variable clock : Z -> DualTimestamp.
  Variable to_vec_named : Envelope -> option (list Z).
  Variable uuid_str : Z -> list Z.
  Variable Tx : Type.
  Variable send : Tx -> list Z -> Tx * option Z.
  Variable rfc3339 : Z -> option (list Z).

Definition mock_label (tag : list Z) : list Z := lit "mock" ++ [58] ++ tag.
Definition fresh_sink (sid : Z) : FileLogSink := sink_create sid None None (lit "d") [] [] [] [].

Lemma file_session sid cs fss :
  length fss = length cs -> Forall (fun c => zlen c <= u32_max) cs -> zlen (concat cs) <= u64_max ->
  exists s', run_calls (LogSink0 := FileLogSink_LogSink rfc3339) (fresh_sink sid)
      (all_calls decode clock 0 cs fss ++ [CCommit; CClose]) = Some s' /\
    disk (inner (raw s')) = concat cs /\
    Forall2 (names (disk (inner (raw s')))) (disk (index s')) (map (fun c => (In, c)) cs) /\
    map f_record (disk (frames s')) = records decode (concat fss) /\ closed s' = true.
Proof using Type.
  intros Hl HF Hz. set (calls := all_calls decode clock 0 cs fss).
  destruct (all_calls_parts decode clock cs 0 fss Hl) as (P1 & P2 & P3). fold calls in P1, P2, P3.
  pose proof (all_calls_small decode clock cs 0 fss HF) as Hs. fold calls in Hs.
  destruct (file_run rfc3339 calls (fresh_sink sid) Hs) as (R1 & R2 & R3);
    [done|by rewrite P1|]. set (s1 := sink_run rfc3339 (fresh_sink sid) (map op_of calls)) in *.
  assert (Hinv : sink_inv s1 (concat (map indexed (map op_of calls)))).
  { apply (sink_run_inv rfc3339 (map op_of calls) (fresh_sink sid) [] (create_inv sid None None (lit "d"))).
    - apply Forall_map. eapply Forall_impl; [exact Hs|]. intros [] Hc; exact Hc || exact I.
    - change (0 + ops_bytes (map op_of calls) <= u64_max). by rewrite calls_bytes_ops, P1. }
  assert (Hc1 : closed s1 = false).
  { rewrite <- (run_calls_closed rfc3339 calls (fresh_sink sid) s1); [done|apply all_calls_open|done]. }
  exists (set_closed (drop_sink sync_fine (drop_sink sync_fine s1))). rewrite run_calls_app, R1.
  cbn [mbind option_bind run_calls do_call ls_commit ls_close FileLogSink_LogSink]. rewrite commit_fine, close_fine.
  cbn [closed drop_sink set_frames set_lines set_index set_raw]. rewrite Hc1. split; [done|].
  destruct (settles_inv _ _ _ (drop_settles sync_fine s1) Hinv) as [_ Hrows]. rewrite P3 in Hrows.
  unfold stream in R2, R3, Hrows. cbn in *. rewrite ?app_nil_r in *. rewrite R2, R3 in *.
  split; [by rewrite P1|]. split; [exact Hrows|]. split; [by rewrite P2|done].
Qed.

(** C2: a run over a source that delivers the chunks [cs] and ends leaves the
    session it should: when the framer cuts the chunks into the frames [fs], the
    run ends without error and its session directory holds, on disk and closed,
    the bytes of all chunks in [raw.bin], one index row per chunk that reads it
    back, and the records decoded from the frames in order; its counters are the
    numbers of chunks, frames and records, and each chunk was published once. *)
Theorem runner_delivers fuel sid tag lab tx cs fs rest ws (g g' : Ingest.Ingest Tx) ds :
  (length cs < fuel)%nat -> Ingest.registry Tx g !! sid = None ->
  feed framer [] cs = Some (fs, Ok tt, rest) -> Forall (decodes decode) fs ->
  Forall (fun c => zlen c <= u32_max) cs -> zlen (concat cs) <= u64_max ->
  zlen cs <= u64_max -> zlen fs <= u64_max ->
  wires clock to_vec_named uuid_str sid (mock_label tag) 0 cs = Some ws ->
  Ingest.run Tx send
    (fst (Ingest.register_session Tx g (Ingest.mkSession Tx sid (lit "mock") tag lab tx)))
    (map (Ingest.Publish Tx sid) ws) = Ok (g', ds) ->
  exists st, run_source_once_notify (L := FileLogSink) (LogSink0 := FileLogSink_LogSink rfc3339)
      framer decode clock to_vec_named uuid_str Tx send fuel sid lab tx
      (mkMock (map FBytes cs) tag) (fresh_sink sid) g
    = Some (st, Ok (mkRun sid (zlen cs) (zlen fs) (zlen (records decode fs)))) /\
    let s := rs_sink Tx st in
    disk (inner (raw s)) = concat cs /\
    Forall2 (names (disk (inner (raw s)))) (disk (index s)) (map (fun c => (In, c)) cs) /\
    map f_record (disk (frames s)) = records decode fs /\ closed s = true /\
    rs_ingest Tx st = g' /\ rs_buf Tx st = rest.
Proof using Type.
  intros Hf Hn Hfd Hdec Hsm Hz Hzc Hzf Hw Hg.
  destruct (feed_to_frames framer cs [] fs rest Hfd) as (fss & Hff & <- & Hl).
  destruct (file_session sid cs fss Hl Hsm Hz) as (s' & Hrun & D1 & D2 & D3 & D4).
  rewrite run_calls_app in Hrun. apply bind_Some in Hrun as (l & Hrun & Hfin).
  cbn [run_calls do_call ls_commit ls_close FileLogSink_LogSink] in Hfin. rewrite commit_fine, close_fine in Hfin. injection Hfin as Hfin.
  unfold run_source_once_notify. cbn [src_open MockSource_source src_metadata cm_kind cm_iface mock_tag].
  unfold Ingest.register_session, Ingest.insert_if_absent in *. cbn [Ingest.sid] in *. rewrite Hn in *. cbn [fst] in Hg.
  cbn [Ingest.sid].
  rewrite (recv_loop_ok (LogSink0 := FileLogSink_LogSink rfc3339) framer decode clock to_vec_named uuid_str Tx send
    (mock_label tag) cs fuel _ fss rest l ws g' ds); try done;
    cbn [rs_src rs_buf rs_sink rs_stats rs_ingest raw_frames r_sid framed decoded_records]; try lia; try done.
  unfold finish. cbn [rs_sink ls_commit ls_close FileLogSink_LogSink rs_src src_close MockSource_source set_sink set_src].
  rewrite commit_fine, close_fine. cbn [closed drop_sink set_frames set_lines set_index set_raw] in *. rewrite Hfin. eexists. split; [reflexivity|]. cbn [rs_sink rs_ingest rs_buf]. done.
Qed.
End FileSession.

Definition lf0 : LineFramer.LineFramer := LineFramer.mk LineFramer.Lf 64.
Definition dec0 (x : list Z) : result (option Record_) := Ok (passthrough_decode x).
Definition clock0 (n : Z) : DualTimestamp := mkTs n n n 0 0 0 QBestEffort 0 CSystem.
Definition chunks0 : list (list Z) := [lit "ab" ++ [10] ++ lit "c"; lit "d" ++ [10]].
Definition send0 (_ : unit) (_ : list Z) : unit * option Z := (tt, Some 1).
Definition ingest0 : Ingest.Ingest unit := Ingest.new unit.

Lemma runner_logs_received_witness :
  exists st r,
    run_source_once_notify lf0 dec0 clock0 (fun _ => None) show_nat unit send0 3 7 None tt
      (mkHeard (mkMock (map FBytes chunks0) (lit "m")) []) (mkTraced (fresh_sink 7) [])
      (LogSink0 := Traced_sink (LogSink0 := FileLogSink_LogSink (fun _ => None))) ingest0 = Some (st, r) /\
    raws (sink_calls (rs_sink unit st)) = heard (rs_src unit st) /\ raws (sink_calls (rs_sink unit st)) = [hd [] chunks0].
Proof.
  eexists _, _. split; [vm_compute; reflexivity|]. split; [|reflexivity].
  eapply (runner_logs_received (LogSink0 := FileLogSink_LogSink (fun _ => None))
    lf0 dec0 clock0 (fun _ => None) show_nat unit send0 3 7 None tt
    (mkMock (map FBytes chunks0) (lit "m")) (fresh_sink 7) ingest0).
  vm_compute. reflexivity.
Defined.

Lemma runner_delivers_witness :
  exists st, run_source_once_notify (L := FileLogSink) (LogSink0 := FileLogSink_LogSink (fun _ => None))
      lf0 dec0 clock0 (fun _ => Some [1]) show_nat unit send0 3 7 None tt
      (mkMock (map FBytes chunks0) (lit "m")) (fresh_sink 7) ingest0
    = Some (st, Ok (mkRun 7 2 2 2)) /\ disk (inner (raw (rs_sink unit st))) = concat chunks0.
Proof.
  destruct (runner_delivers lf0 dec0 clock0 (fun _ => Some [1]) show_nat unit send0 (fun _ => None)
    3 7 (lit "m") None tt chunks0 [lit "ab"; lit "cd"] [] [[1]; [1]] ingest0
    (Ingest.mkIngest unit {[ 7 := Ingest.mkSession unit 7 (lit "mock") (lit "m") None tt ]}
       {[ 7 := Ingest.mkStats 2 2 0 ]}) [Some 1; Some 1]) as (st & H1 & H2 & _).
  - vm_compute. lia.
  - reflexivity.
  - vm_compute. reflexivity.
  - repeat (apply Forall_cons; split; [eexists; reflexivity|]). constructor.
  - repeat (apply Forall_cons; split; [vm_compute; discriminate|]). constructor.
  - vm_compute. discriminate.
  - vm_compute. discriminate.
  - vm_compute. discriminate.
  - vm_compute. reflexivity.
  - vm_compute. reflexivity.
  - exists st. split; [exact H1|exact H2].
Defined.
