(* ===== verification/PcapRunner.v ===== *)
(** * The packet-capture runner

    crates/server/src/pcap_runner.rs: packets of a capture source go to a
    session directory, to a pcapng stream or to both, are published according to
    the configured policy, and update the capture metrics.  The packet summary
    (the etherparse crate), the clock, MessagePack and the broadcast channel are
    parameters.  Every step on the log files may fail: creating them, each write,
    each flush; what a capture that fails or is stopped leaves is in [PcapStop].
    The text of [meta.toml] is in [Meta]. *)
From stdpp Require Import base numbers strings gmap list.
From S2P Require Import Prelude Framer Text Naming Sessions Spec Decoder Clock SessionDir Capture Pcapng PcapStream Wire Runner.

Local Open Scope Z_scope.
Local Open Scope tm_scope.

Definition PCAP_DECODER_LABEL : list Z := lit "pcap-packet".

Definition should_write_session (m : PcapSaveMode) : bool :=
  match m with SaveSession | SaveBoth => true | SavePcapng => false end.
Definition wants_pcapng (m : PcapSaveMode) : bool :=
  match m with SavePcapng | SaveBoth => true | SaveSession => false end.

(** The path of the direct pcapng artifact, when one is wanted. *)
Definition direct_pcapng_path (c : PcapConfig) (session_dir : option Path) : result (option Path) :=
  if negb (wants_pcapng (save_mode c)) then Ok None
  else match pcapng_path c, session_dir with
       | Some p, _ => Ok (Some (path_of p))
       | None, Some d => Ok (Some (mkPath (absolute d) (comps d ++ [lit "capture.pcapng"])))
       | None, None => Err E1001PipelineGeneric
       end.

Definition should_publish (m : PcapPublishMode) (seq : Z) : bool :=
  match m with
  | StatsOnly => false
  | Sampled => (seq =? 1) || (seq mod 100 =? 0)
  | Full => true
  end.

(** ** Metrics *)
Record PcapMetricsState := mkMetrics {
  started_mono_ns : option Z; m_packets_total : Z; m_bytes_total : Z; m_dropped_kernel : Z;
  m_dropped_app : Z; m_capture_depth : Z; m_writer_depth : Z; m_last_ts : option Z;
  pps : Z; bytes_per_sec : Z }.
Definition no_metrics : PcapMetricsState := mkMetrics None 0 0 0 0 0 0 None 0 0.

Definition rate_per_sec (count elapsed_ns : Z) : Z :=
  if elapsed_ns =? 0 then 0
  else default u64_max (try_from 0 u64_max (count * 1000000000 / elapsed_ns)).

Definition observe (m : PcapMetricsState) (b : PcapStats) (p : PcapPacket) (ts : DualTimestamp)
  : result PcapMetricsState :=
  let started := default (mono_ns ts) (started_mono_ns m) in
  let* p1 := checked 0 u64_max (m_packets_total m + 1) in
  let packets := Z.max (packets_total b) p1 in
  let* b1 := checked 0 u64_max (m_bytes_total m + captured_len p) in
  let bytes := Z.max (bytes_total b) b1 in
  let last := match last_packet_ts_origin_ns b with None => Some (p_ts_origin_ns p) | l => l end in
  let elapsed := sat_sub 0 u64_max (mono_ns ts) started in
  let '(r1, r2) := if 0 <? elapsed then (rate_per_sec packets elapsed, rate_per_sec bytes elapsed)
                   else (pps m, bytes_per_sec m) in
  Ok (mkMetrics (Some started) packets bytes (dropped_kernel_total b) (dropped_app_total b)
        (capture_queue_depth b) (writer_queue_depth b) last r1 r2).

(** ** The session writer *)
(** A row that was written in part is at the end of its file. *)
Record PcapSessionWriter := mkPsw {
  w_raw : RawWriter; w_index : Writer IndexEntry; w_frames : Writer FrameEntry;
  w_source : list Z; w_host : option (list Z); w_index_torn : bool; w_frames_torn : bool }.
(** Which steps of making the session directory succeed. *)
Record CreateIo := mkCreateIo { ci_dir : bool; ci_meta : bool; ci_raw : bool; ci_index : bool; ci_frames : bool }.
Definition psw_create (io : CreateIo) (src : list Z) (host : option (list Z)) : result PcapSessionWriter :=
  if ci_dir io && ci_meta io && ci_raw io && ci_index io && ci_frames io
  then Ok (mkPsw (raw_create []) (mkWriter [] []) (mkWriter [] []) src host false false)
  else Err E1001PipelineGeneric.
(** What the disk does while a packet is appended: how much of the buffers it
    takes early, and where a write fails. *)
Record PswIo := mkPswIo {
  io_raw_spill : nat; io_raw_short : option nat; io_index_spill : nat; io_index_fail : option RowFault;
  io_frames_spill : nat; io_frames_fail : option RowFault }.
(** What it does in a flush of the three files. *)
Record FlushIo := mkFlushIo { fl_raw : option nat; fl_index : option nat; fl_frames : option nat }.

(** [serde_json::Map::insert]: entries stay in the order of their keys. *)
Fixpoint key_ltb (a b : list Z) : bool :=
  match a, b with
  | _, [] => false
  | [], _ => true
  | x :: a', y :: b' => if x =? y then key_ltb a' b' else x <? y
  end.
Fixpoint obj_insert (k : list Z) (v : Value) (m : list (list Z * Value)) : list (list Z * Value) :=
  match m with
  | [] => [(k, v)]
  | (k', v') :: m' =>
      if bool_decide (k = k') then (k, v) :: m'
      else if key_ltb k k' then (k, v) :: (k', v') :: m'
      else (k', v') :: obj_insert k v m'
  end.
Definition extend (kvs m : list (list Z * Value)) : list (list Z * Value) :=
  fold_left (fun m kv => obj_insert (fst kv) (snd kv) m) kvs m.
Definition num (n : Z) : Value := VNumber (show_nat n).

Section PcapRunner.
  (** [summarize_pcap_packet] as JSON fields, or the text of its error. *)
  Variable summary : Z -> list Z -> list (list Z * Value) + list Z.
  Variable rfc3339 : Z -> option (list Z).

Definition packet_fields (c : PcapConfig) (p : PcapPacket) (raw_off raw_len : Z) : list (list Z * Value) :=
  [(lit "seq", num (p_seq p)); (lit "raw_off", num raw_off); (lit "raw_len", num raw_len);
   (lit "captured_len", num (captured_len p)); (lit "original_len", num (original_len p));
   (lit "linktype", num (linktype p)); (lit "interface_id", num (interface_id p));
   (lit "interface", VString (interface c))]
  ++ match filter_expr c with Some f => [(lit "filter", VString f)] | None => [] end.

Definition packet_record (c : PcapConfig) (p : PcapPacket) (raw_off raw_len : Z) : Record_ :=
  let base := extend (packet_fields c p raw_off raw_len) [] in
  let fs := match summary (linktype p) (data p) with
            | inl kvs => extend kvs base
            | inr e => obj_insert (lit "summary_error") (VString e) base
            end in
  mkRecord (Some PCAP_PACKET_SCHEMA_ID) None None (VObject fs) [lit "pcap"] None.

Definition pcap_row (src : list Z) (host : option (list Z)) (ts : DualTimestamp) (sid o l : Z) : IndexEntry :=
  let e := from_envelope rfc3339 ts sid In KDatagram o l in
  mkIndex (ts_origin e) (ts_ingest e) (e_mono_ns e) (e_boot_id e) (e_node_id e) (e_clock_offset_ms e)
    (e_clock_quality e) (e_drift_ppm e) (e_clock_source e) (e_sid e) (dir e) (kind e) (off e) (len e)
    (e_level e) (e_tags e) (e_correlation_id e) (Some src) host (Some PCAP_PACKET_SCHEMA_ID).

Definition psw_append (io : PswIo) (w : PcapSessionWriter) (c : PcapConfig) (sid : Z) (p : PcapPacket) (ts : DualTimestamp)
  : PcapSessionWriter * result unit :=
  let '(r1, res) := raw_append (io_raw_spill io) (io_raw_short io) (w_raw w) (data p) in
  let w1 := mkPsw r1 (w_index w) (w_frames w) (w_source w) (w_host w) (w_index_torn w) (w_frames_torn w) in
  match res with
  | Err e => (w1, Err e)
  | Panic => (w1, Panic)
  | Ok (o, l) =>
      let e := pcap_row (w_source w) (w_host w) ts sid o l in
      let '(i1, ti, ri) := row_append (io_index_spill io) (io_index_fail io) (w_index w) (w_index_torn w) e in
      let w2 := mkPsw r1 i1 (w_frames w) (w_source w) (w_host w) ti (w_frames_torn w) in
      match ri with
      | Err e => (w2, Err e)
      | Panic => (w2, Panic)
      | Ok _ =>
          let f := mkFrame (ts_ingest e) PCAP_DECODER_LABEL (packet_record c p o l) in
          let '(f1, tf, rf) := row_append (io_frames_spill io) (io_frames_fail io) (w_frames w) (w_frames_torn w) f in
          (mkPsw r1 i1 f1 (w_source w) (w_host w) ti tf, rf)
      end
  end.
Definition flush_raw (f : option nat) (r : RawWriter) : RawWriter * bool :=
  let '(x, ok) := w_flush f (inner r) in (mkRaw x (pos r), ok).
(** [commit]: a flush that fails leaves the later ones out. *)
Definition psw_commit (f : FlushIo) (w : PcapSessionWriter) : PcapSessionWriter * result unit :=
  let '(r1, ok) := flush_raw (fl_raw f) (w_raw w) in
  let w1 := mkPsw r1 (w_index w) (w_frames w) (w_source w) (w_host w) (w_index_torn w) (w_frames_torn w) in
  if negb ok then (w1, Err E1001PipelineGeneric) else
  let '(i1, ok) := w_flush (fl_index f) (w_index w) in
  let w2 := mkPsw r1 i1 (w_frames w) (w_source w) (w_host w) (w_index_torn w) (w_frames_torn w) in
  if negb ok then (w2, Err E1001PipelineGeneric) else
  let '(f1, ok) := w_flush (fl_frames f) (w_frames w) in
  (mkPsw r1 i1 f1 (w_source w) (w_host w) (w_index_torn w) (w_frames_torn w), if ok then Ok tt else Err E1001PipelineGeneric).
(** The writers go out of scope: each buffer is written as far as the disk takes it. *)
Definition psw_drop (f : FlushIo) (w : PcapSessionWriter) : PcapSessionWriter :=
  mkPsw (fst (flush_raw (fl_raw f) (w_raw w))) (fst (w_flush (fl_index f) (w_index w))) (fst (w_flush (fl_frames f) (w_frames w)))
    (w_source w) (w_host w) (w_index_torn w) (w_frames_torn w).

  Context {B : Type} `{!PcapBackend B}.
  Context {W : Type} `{!PcapNgWriter W}.
  (** The n-th reading of the clock: [stamp_origin] and [stamp_ingest]. *)
  Variable stamp_origin : Z -> DualTimestamp.
  Variable stamp_ingest : Z -> DualTimestamp -> DualTimestamp.
  Variable to_vec_named : Envelope -> option (list Z).
  Variable uuid_str : Z -> list Z.
  Variable Tx : Type.
  Variable send : Tx -> list Z -> Tx * option Z.
  (** The disk, at the n-th packet and at the ends of the run. *)
  Variable psw_at : Z -> PswIo.
  Variable stream_at : Z -> StreamIo.
  Variable create_io : CreateIo.
  Variable stream_creates : bool.
  Variable commit_io : FlushIo.
  Variable stream_flushes : bool.

Definition packet_timestamp (n : Z) (p : PcapPacket) : DualTimestamp :=
  let o := stamp_origin n in
  stamp_ingest n (mkTs (p_ts_origin_ns p) (ts_ingest_ns o) (mono_ns o) (boot_id o) (node_id o)
                    (clock_offset_ms o) QImported (drift_ppm o) CImported).

Definition pcap_metrics_payload (sid ch : Z) (ts : DualTimestamp) (label : list Z) (m : PcapMetricsState) : MValue :=
  let sid_key := MStr (uuid_str sid) in
  MMap [mkey "ts" (MStr (format_rfc3339_ns rfc3339 (ts_ingest_ns ts)));
        mkey "bytes_in" (MMap [(sid_key, MInt (m_bytes_total m))]);
        mkey "records" (MMap [(MStr (uuid_str sid ++ [47] ++ show_nat ch), MInt (m_packets_total m))]);
        mkey "pcap" (MMap [(sid_key, MMap [
          mkey "source" (MStr label); mkey "packets_total" (MInt (m_packets_total m));
          mkey "bytes_total" (MInt (m_bytes_total m)); mkey "dropped_kernel_total" (MInt (m_dropped_kernel m));
          mkey "dropped_app_total" (MInt (m_dropped_app m)); mkey "capture_queue_depth" (MInt (m_capture_depth m));
          mkey "writer_queue_depth" (MInt (m_writer_depth m));
          mkey "last_packet_ts_origin_ns" (match m_last_ts m with Some t => MInt t | None => MNil end);
          mkey "pps" (MInt (pps m)); mkey "bytes_per_sec" (MInt (bytes_per_sec m))])])].

Definition publish_metrics (g : Ingest.Ingest Tx) (sid ch seq : Z) (ts : DualTimestamp) (label : list Z)
    (m : PcapMetricsState) : Ingest.Ingest Tx * result unit :=
  match Ingest.get Tx (Ingest.registry Tx g) sid with
  | None => (g, Ok tt)
  | Some s =>
      let env := with_ch (with_sid (envelope_new Metrics seq (pcap_metrics_payload sid ch ts label m)) (uuid_str sid)) ch in
      match encode to_vec_named env with
      | Err e => (g, Err (wire_error_id e))
      | Panic => (g, Panic)
      | Ok bytes =>
          let '(tx', _) := Ingest.Fanout_publish Tx send (Ingest.fanout Tx s) bytes in
          (Ingest.mkIngest Tx
             (<[sid := Ingest.mkSession Tx (Ingest.sid Tx s) (Ingest.kind Tx s) (Ingest.iface Tx s) (Ingest.label Tx s) tx']>
                (Ingest.registry Tx g)) (Ingest.stats Tx g), Ok tt)
      end
  end.

Record PcapRun := mkPcapRun {
  pr_src : PcapSource B; pr_writer : option PcapSessionWriter; pr_stream : option (StreamWriter W);
  pr_ingest : Ingest.Ingest Tx; pr_stats : RunnerStats; pr_metrics : PcapMetricsState }.

(** The two writers, and whether a record was written. *)
Definition write_packet (c : PcapConfig) (st : PcapRun) (p : PcapPacket) (ts : DualTimestamp) : PcapRun * result bool :=
  let '(sw, r1) := match pr_stream st with
                   | Some s => let '(s', r) := append_packet (stream_at (raw_frames (pr_stats st))) s (iface_label c) p in (Some s', r)
                   | None => (None, Ok tt)
                   end in
  let st1 := mkPcapRun (pr_src st) (pr_writer st) sw (pr_ingest st) (pr_stats st) (pr_metrics st) in
  match r1 with
  | Err e => (st1, Err e)
  | Panic => (st1, Panic)
  | Ok _ =>
      match pr_writer st with
      | Some w =>
          let '(w', r2) := psw_append (psw_at (raw_frames (pr_stats st))) w c (r_sid (pr_stats st)) p ts in
          (mkPcapRun (pr_src st1) (Some w') (pr_stream st1) (pr_ingest st1) (pr_stats st1) (pr_metrics st1),
           match r2 with Ok _ => Ok true | Err e => Err e | Panic => Panic end)
      | None => (st1, Ok (match sw with Some _ => true | None => false end))
      end
  end.

(** The body of the receive loop. *)
Definition handle_packet (c : PcapConfig) (label : list Z) (st : PcapRun) (p : PcapPacket) : PcapRun * result unit :=
  let s := pr_stats st in
  let ts := packet_timestamp (raw_frames s) p in
  let '(st1, r) := write_packet c st p ts in
  match r with
  | Err e => (st1, Err e)
  | Panic => (st1, Panic)
  | Ok wrote =>
      match @checked ErrorId 0 u64_max (decoded_records s + Z.b2z wrote), @checked ErrorId 0 u64_max (raw_frames s + 1) with
      | Ok d, Ok n =>
          let stats := mkRun (r_sid s) n (framed s) d in
          let pub :=
            if should_publish (publish_mode c) n then
              match encode_data_envelope_with_kind to_vec_named uuid_str (r_sid s) 0 n ts (data p) label (lit "datagram") with
              | Ok wire => let* '(g, _) := Ingest.publish_wire Tx send (pr_ingest st1) (r_sid s) wire in Ok g
              | Err e => Err (wire_error_id e)
              | Panic => Panic
              end
            else Ingest.record_frame Tx (pr_ingest st1) (r_sid s) (captured_len p) in
          match pub with
          | Err e => (mkPcapRun (pr_src st1) (pr_writer st1) (pr_stream st1) (pr_ingest st1) stats (pr_metrics st1), Err e)
          | Panic => (mkPcapRun (pr_src st1) (pr_writer st1) (pr_stream st1) (pr_ingest st1) stats (pr_metrics st1), Panic)
          | Ok g =>
              let '(src, bs) := source_stats (pr_src st1) in
              let backend_stats := match bs with Ok b => b | _ => no_pcap_stats end in
              match observe (pr_metrics st1) backend_stats p ts with
              | Ok m =>
                  let '(g2, rm) := publish_metrics g (r_sid s) 0 n ts label m in
                  (mkPcapRun src (pr_writer st1) (pr_stream st1) g2 stats m, rm)
              | _ => (mkPcapRun src (pr_writer st1) (pr_stream st1) g stats (pr_metrics st1), Panic)
              end
          end
      | _, _ => (st1, Panic)
      end
  end.

Definition set_pr_src (st : PcapRun) (s : PcapSource B) : PcapRun :=
  mkPcapRun s (pr_writer st) (pr_stream st) (pr_ingest st) (pr_stats st) (pr_metrics st).

Fixpoint pcap_loop (fuel : nat) (c : PcapConfig) (label : list Z) (st : PcapRun) : option (PcapRun * result unit) :=
  match fuel with
  | O => None
  | S fuel' =>
      let '(s, r) := recv_packet (pr_src st) in
      let st1 := set_pr_src st s in
      match r with
      | Ok None => Some (st1, Ok tt)
      | Err e => Some (st1, Err e)
      | Panic => Some (st1, Panic)
      | Ok (Some p) =>
          match handle_packet c label st1 p with
          | (st2, Ok _) => pcap_loop fuel' c label st2
          | stop => Some stop
          end
      end
  end.

(** Up to the loop: the source is opened, then the writers are made, and the
    session is registered last. *)
Definition session_writer (c : PcapConfig) (session_dir : option Path) (label : list Z) (host : option (list Z))
  : result (option PcapSessionWriter) :=
  if should_write_session (save_mode c) then
    match session_dir with
    | Some _ => let* w := psw_create create_io label host in Ok (Some w)
    | None => Ok None
    end
  else Ok None.
Definition direct_pcapng_writer (c : PcapConfig) (session_dir : option Path) : result (option (StreamWriter W)) :=
  let* path := direct_pcapng_path c session_dir in
  match path with
  | Some p => if stream_creates then Ok (Some (stream_create p Rotate.default_policy)) else Err E1001PipelineGeneric
  | None => Ok None
  end.
Definition pcap_setup (sid : Z) (lab : option (list Z)) (host : option (list Z)) (session_dir : option Path) (tx : Tx)
    (src : PcapSource B) (g : Ingest.Ingest Tx) : PcapRun * result unit :=
  let c := config src in
  let '(s1, ro) := source_open src in
  match (do* ro in
         let* w := session_writer c session_dir (lit "pcap:" ++ interface c) host in
         let* sw := direct_pcapng_writer c session_dir in Ok (w, sw)) with
  | Err e => (mkPcapRun s1 None None g (mkRun sid 0 0 0) no_metrics, Err e)
  | Panic => (mkPcapRun s1 None None g (mkRun sid 0 0 0) no_metrics, Panic)
  | Ok (w, sw) =>
      let state := Ingest.mkSession Tx sid (lit "pcap") (iface_label c) (match lab with None => display_name c | l => l end) tx in
      let '(g1, i) := Ingest.register_session Tx g state in
      (mkPcapRun s1 w sw g1 (mkRun i 0 0 0) no_metrics, Ok tt)
  end.
(** After the loop: the writers are flushed and the source is closed. *)
Definition pcap_finish (st : PcapRun) : PcapRun * result RunnerStats :=
  let '(w, rw) := match pr_writer st with
                  | Some w => let '(w', x) := psw_commit commit_io w in (Some w', x)
                  | None => (None, Ok tt)
                  end in
  let st1 := mkPcapRun (pr_src st) w (pr_stream st) (pr_ingest st) (pr_stats st) (pr_metrics st) in
  match (do* rw in match pr_stream st with
                   | Some _ => if stream_flushes then Ok tt else Err E1001PipelineGeneric
                   | None => Ok tt
                   end) with
  | Err e => (st1, Err e)
  | Panic => (st1, Panic)
  | Ok _ =>
      let '(s, rc) := source_close (pr_src st1) in
      (set_pr_src st1 s, let* _ := rc in Ok (pr_stats st))
  end.
Definition run_pcap_once_notify (fuel : nat) (sid : Z) (lab : option (list Z)) (host : option (list Z))
    (session_dir : option Path) (tx : Tx) (src : PcapSource B) (g : Ingest.Ingest Tx)
  : option (PcapRun * result RunnerStats) :=
  match pcap_setup sid lab host session_dir tx src g with
  | (st, Err e) => Some (st, Err e)
  | (st, Panic) => Some (st, Panic)
  | (st, Ok _) =>
      match pcap_loop fuel (config src) (lit "pcap:" ++ interface (config src)) st with
      | None => None
      | Some (st, Err e) => Some (st, Err e)
      | Some (st, Panic) => Some (st, Panic)
      | Some (st, Ok _) => Some (pcap_finish st)
      end
  end.
End PcapRunner.

(** ** The metadata a record carries *)
Lemma obj_get_insert k k' v m :
  JsonLines.obj_get k (obj_insert k' v m) = if bool_decide (k = k') then Some v else JsonLines.obj_get k m.
Proof.
  induction m as [|[k1 v1] m IH]; cbn [obj_insert JsonLines.obj_get]; [done|].
  destruct (bool_decide_reflect (k' = k1)) as [<-|N1]; cbn [JsonLines.obj_get].
  - by destruct (bool_decide_reflect (k = k')).
  - destruct (key_ltb k' k1); cbn [JsonLines.obj_get]; [done|]. rewrite IH.
    destruct (bool_decide_reflect (k = k1)) as [->|N2]; [|done].
    destruct (bool_decide_reflect (k1 = k')) as [E|N3]; [|done]. by subst.
Qed.
Lemma obj_get_extend k kvs : forall m,
  Forall (fun kv => k <> fst kv) kvs -> JsonLines.obj_get k (extend kvs m) = JsonLines.obj_get k m.
Proof.
  induction kvs as [|kv kvs IH]; intros m HF; [done|]. apply Forall_cons in HF as [Hk HF].
  change (extend (kv :: kvs) m) with (extend kvs (obj_insert (fst kv) (snd kv) m)).
  rewrite IH by done. rewrite obj_get_insert. by rewrite bool_decide_eq_false_2.
Qed.

Definition reserved : list (list Z) :=
  [lit "raw_off"; lit "raw_len"; lit "captured_len"; lit "original_len"; lit "linktype"; lit "interface"].
(** The summary's JSON names are none of the record's own. *)
Definition summary_ok (summary : Z -> list Z -> list (list Z * Value) + list Z) : Prop :=
  forall l d kvs, summary l d = inl kvs -> Forall (fun kv => fst kv ∉ reserved) kvs.

Lemma record_field summary c p o l key :
  summary_ok summary -> lit key ∈ reserved ->
  field (fields (packet_record summary c p o l)) key =
  JsonLines.obj_get (lit key) (extend (packet_fields c p o l) []).
Proof.
  intros Hs Hk. unfold field, packet_record. cbn [fields].
  destruct (summary (linktype p) (data p)) as [kvs|e] eqn:E.
  - apply obj_get_extend. eapply Forall_impl; [exact (Hs _ _ _ E)|]. intros kv Hn Heq.
    cbn beta in Hn. by rewrite <- Heq in Hn.
  - rewrite obj_get_insert. rewrite bool_decide_eq_false_2; [done|]. intros Heq. rewrite Heq in Hk.
    revert Hk. by apply (bool_decide_unpack _).
Qed.

Definition pk_ok (p : PcapPacket) : Prop :=
  data p <> [] /\ captured_len p = zlen (data p) /\ zlen (data p) <= u32_max /\ 0 <= p_ts_origin_ns p <= i64_max /\
  0 <= linktype p <= u32_max /\ 0 <= original_len p <= u32_max.
Definition packet_meta (c : PcapConfig) (p : PcapPacket) (o : Z) : PacketMetadata :=
  mkMeta o (zlen (data p)) (Some (captured_len p)) (Some (original_len p)) (Some (linktype p)) (Some (interface c)).

Lemma base_fields c p o l :
  let g k := JsonLines.obj_get (lit k) (extend (packet_fields c p o l) []) in
  g "raw_off" = Some (num o) /\ g "raw_len" = Some (num l) /\ g "captured_len" = Some (num (captured_len p)) /\
  g "original_len" = Some (num (original_len p)) /\ g "linktype" = Some (num (linktype p)) /\
  g "interface" = Some (VString (interface c)).
Proof.
  unfold packet_fields. generalize (num (p_seq p)) as x1, (num o) as x2, (num l) as x3, (num (captured_len p)) as x4,
    (num (original_len p)) as x5, (num (linktype p)) as x6, (num (interface_id p)) as x7.
  destruct (filter_expr c); vm_compute; repeat split.
Qed.

Lemma record_meta summary c p o :
  summary_ok summary -> pk_ok p -> 0 <= o <= u64_max ->
  from_fields (fields (packet_record summary c p o (zlen (data p)))) = Some (packet_meta c p o).
Proof.
  intros Hs (Hne & Hcap & Hlen & _ & Hl & Ho) Hoff. pose proof (zlen_nonneg (data p)).
  set (fs := fields (packet_record summary c p o (zlen (data p)))).
  assert (Hf : forall key, bool_decide (lit key ∈ reserved) = true ->
    field fs key = JsonLines.obj_get (lit key) (extend (packet_fields c p o (zlen (data p))) [])).
  { intros key Hk. apply record_field; [done|by eapply bool_decide_eq_true_1]. }
  assert (Hn : forall key n, field fs key = Some (num n) -> 0 <= n <= u64_max -> u64_field fs key = Some n).
  { intros key n He Hb. unfold u64_field. rewrite He. by apply parse_show_nat. }
  assert (Hm : forall key n, field fs key = Some (num n) -> 0 <= n <= u32_max -> u32_field fs key = Some n).
  { intros key n He Hb. unfold u32_field. rewrite (Hn key n He) by (unfold u32_max, u64_max in *; lia).
    by apply try_from_Some. }
  destruct (base_fields c p o (zlen (data p))) as (F1 & F2 & F3 & F4 & F5 & F6).
  unfold from_fields, string_field.
  rewrite (Hn "raw_off" o), (Hm "raw_len" (zlen (data p))), (Hm "captured_len" (captured_len p)),
    (Hm "original_len" (original_len p)), (Hm "linktype" (linktype p)), (Hf "interface"), F6
    by first [lia|rewrite Hf by reflexivity; assumption|reflexivity].
  done.
Qed.

(** ** What a capture leaves in its session directory *)
Section CaptureSession.
  Variable summary : Z -> list Z -> list (list Z * Value) + list Z.
  Variable rfc3339 : Z -> option (list Z).
  Variable parse : list Z -> option Z.
  Variable stamp_origin : Z -> DualTimestamp.
  Variable stamp_ingest : Z -> DualTimestamp -> DualTimestamp.
  Variable c : PcapConfig.
  Variable sid : Z.
  Variable host : option (list Z).
  Hypothesis Hsummary : summary_ok summary.
  Hypothesis Hstamp : forall n t, ts_origin_ns (stamp_ingest n t) = ts_origin_ns t.
  Hypothesis Hrfc : forall n, 0 <= n <= i64_max -> parse (format_rfc3339_ns rfc3339 n) = Some n.
  Hypothesis Hiface : interface c <> [].

Definition source_label : list Z := lit "pcap:" ++ interface c.
Fixpoint cap_rows (n o : Z) (ps : list PcapPacket) : list (IndexEntry * FrameEntry) :=
  match ps with
  | [] => []
  | p :: ps' =>
      let e := pcap_row rfc3339 source_label host (packet_timestamp stamp_origin stamp_ingest n p) sid o (zlen (data p)) in
      (e, mkFrame (ts_ingest e) PCAP_DECODER_LABEL (packet_record summary c p o (zlen (data p))))
      :: cap_rows (n + 1) (o + zlen (data p)) ps'
  end.
Definition packet_bytes (ps : list PcapPacket) : list Z := concat (map data ps).

Lemma cap_meta ps : forall n o out,
  Forall pk_ok ps -> 0 <= o -> o + zlen (packet_bytes ps) <= u64_max ->
  exists m, read_metadata_lines out (map (fun r => Some (Some (snd r))) (cap_rows n o ps)) = Ok m /\
    (forall k, fst k < o \/ o + zlen (packet_bytes ps) <= fst k -> m !! k = out !! k) /\
    Forall2 (fun r p => m !! (off (fst r), len (fst r)) = Some (packet_meta c p (off (fst r)))) (cap_rows n o ps) ps.
Proof using Hsummary.
  induction ps as [|p ps IH]; intros n o out HF H0 Hu; [by exists out|].
  apply Forall_cons in HF as [Hp HF]. cbn [cap_rows map read_metadata_lines f_record snd].
  change (is_packet_schema (schema_id (packet_record summary c p o (zlen (data p))))) with true. cbn iota.
  assert (Hz : zlen (packet_bytes (p :: ps)) = zlen (data p) + zlen (packet_bytes ps)) by apply zlen_app.
  pose proof (zlen_nonneg (packet_bytes ps)).
  assert (Hd : 0 < zlen (data p)) by (destruct Hp as [Hne _]; destruct (data p); [done|]; zlia).
  rewrite record_meta by first [done|lia].
  destruct (IH (n + 1) (o + zlen (data p)) (<[(o, zlen (data p)) := packet_meta c p o]> out)) as (m & E & Hold & Hnew);
    [done|lia|lia|].
  exists m. split; [exact E|]. split.
  - intros k Hk. rewrite Hold by lia. rewrite lookup_insert_ne; [done|]. intros <-. cbn [fst] in Hk. lia.
  - constructor; [|exact Hnew]. cbn [fst off len pcap_row from_envelope]. rewrite Hold by (cbn; lia).
    by rewrite lookup_insert_eq.
Qed.

Lemma cap_views m ps : forall n pre post,
  Forall pk_ok ps ->
  Forall2 (fun r p => m !! (off (fst r), len (fst r)) = Some (packet_meta c p (off (fst r)))) (cap_rows n (zlen pre) ps) ps ->
  Forall2 (row_packet parse m (pre ++ packet_bytes ps ++ post)) (map fst (cap_rows n (zlen pre) ps))
    (map (pkt_view (interface c)) ps) /\
  Forall (fun e => exported m e = true) (map fst (cap_rows n (zlen pre) ps)).
Proof using Hrfc Hstamp Hiface.
  induction ps as [|p ps IH]; intros n pre post HF HM; [by split; constructor|].
  apply Forall_cons in HF as [Hp HF]. cbn [cap_rows map] in *. inversion HM as [|? ? ? ? Hm HM']; subst.
  rewrite <- zlen_app in HM'. destruct (IH (n + 1) (pre ++ data p) post HF HM') as [H1 H2].
  rewrite zlen_app in H1, H2. change (packet_bytes (p :: ps)) with (data p ++ packet_bytes ps).
  rewrite <- !(assoc_L (++)) in *. cbn [fst off len pcap_row from_envelope] in Hm.
  split; constructor; [|exact H1| |exact H2]; [|unfold exported; cbn [kind off len pcap_row from_envelope fst]; by rewrite Hm].
  destruct Hp as (Hne & Hcap & Hlen & Hts & Hl & Ho). exists (p_ts_origin_ns p), (data p).
  cbn [off len ts_origin pcap_row from_envelope fst]. rewrite Hm. split; [|split].
  - unfold read_at. rewrite !zlen_app. pose proof (zlen_nonneg (packet_bytes ps)). pose proof (zlen_nonneg post).
    rewrite (proj2 (Z.leb_le _ _)) by lia. rewrite drop_app_length' by (unfold zlen; lia).
    rewrite take_app_length' by (unfold zlen; lia). done.
  - unfold timestamp_duration, packet_timestamp. rewrite Hstamp. cbn [ts_origin_ns]. rewrite Hrfc by done.
    rewrite timestamp_ok by lia. by rewrite (proj2 (Z.ltb_ge _ _)) by lia.
  - unfold link_of, orig_of, packet_interface_label, pkt_view. cbn. by destruct (interface c).
Qed.

(** A disk that takes every write, in whatever pieces. *)
Definition psw_fine (io : PswIo) : Prop := io_raw_short io = None /\ io_index_fail io = None /\ io_frames_fail io = None.
Definition create_fine : CreateIo := mkCreateIo true true true true true.
Definition flush_fine : FlushIo := mkFlushIo None None None.

(** The session writer after the packets [ps]. *)
Definition psw_holds (w : PcapSessionWriter) (n : Z) (ps : list PcapPacket) : Prop :=
  w_source w = source_label /\ w_host w = host /\ stream (inner (w_raw w)) = packet_bytes ps /\
  pos (w_raw w) = zlen (packet_bytes ps) /\
  stream (w_index w) = map fst (cap_rows n 0 ps) /\ stream (w_frames w) = map snd (cap_rows n 0 ps) /\
  w_index_torn w = false /\ w_frames_torn w = false.

Lemma cap_rows_snoc ps p : forall n o,
  cap_rows n o (ps ++ [p]) = cap_rows n o ps ++ cap_rows (n + zlen ps) (o + zlen (packet_bytes ps)) [p].
Proof using Type.
  induction ps as [|q ps IH]; intros n o.
  - cbn [app cap_rows]. change (zlen (packet_bytes [])) with 0. change (zlen (@nil PcapPacket)) with 0. by rewrite !Z.add_0_r.
  - change (packet_bytes (q :: ps)) with (data q ++ packet_bytes ps). rewrite zlen_app, zlen_cons.
    replace (n + (1 + zlen ps)) with (n + 1 + zlen ps) by lia.
    replace (o + (zlen (data q) + zlen (packet_bytes ps))) with (o + zlen (data q) + zlen (packet_bytes ps)) by lia.
    change ((q :: ps) ++ [p]) with (q :: (ps ++ [p])). cbn [cap_rows]. by rewrite IH.
Qed.

Lemma psw_append_holds io w n ps p :
  psw_fine io -> psw_holds w n ps -> pk_ok p -> zlen (packet_bytes ps) + zlen (data p) <= u64_max ->
  exists w', psw_append summary rfc3339 io w c sid p (packet_timestamp stamp_origin stamp_ingest (n + zlen ps) p) = (w', Ok tt) /\
    psw_holds w' n (ps ++ [p]).
Proof using Type.
  intros (F1 & F2 & F3) (Hs & Hh & Hr & Hpos & Hi & Hf & Ht1 & Ht2) (Hne & Hcap & Hlen & _) Hu. pose proof (zlen_nonneg (data p)).
  pose proof (zlen_nonneg (packet_bytes ps)).
  unfold psw_append. rewrite F1, raw_append_ok by (rewrite ?Hpos; lia). rewrite Hpos, F2, F3. cbn [row_append]. eexists. split; [reflexivity|].
  unfold psw_holds. cbn [w_source w_host w_raw w_index w_frames w_index_torn w_frames_torn inner pos]. rewrite !stream_append, Hs, Hh, Hr, Hi, Hf.
  assert (Hb : packet_bytes (ps ++ [p]) = packet_bytes ps ++ data p)
    by (unfold packet_bytes; rewrite map_app, concat_app; cbn; by rewrite app_nil_r).
  rewrite Hb, zlen_app, cap_rows_snoc, !map_app. cbn [map fst snd cap_rows]. rewrite Z.add_0_l. done.
Qed.
End CaptureSession.

(** ** A capture that ends *)
Section CaptureRun.
  Variable summary : Z -> list Z -> list (list Z * Value) + list Z.
  Variable rfc3339 : Z -> option (list Z).
  Variable stamp_origin : Z -> DualTimestamp.
  Variable stamp_ingest : Z -> DualTimestamp -> DualTimestamp.
  Variable to_vec_named : Envelope -> option (list Z).
  Variable uuid_str : Z -> list Z.
  Variable Tx : Type.
  Variable send : Tx -> list Z -> Tx * option Z.
  Variable c : PcapConfig.
  Variable sid : Z.
  Variable host : option (list Z).
  Variable ps : list PcapPacket.
  Variable psw_at : Z -> PswIo.
  Variable stream_at : Z -> StreamIo.
  Context {W : Type} `{!PcapNgWriter W}.
  Hypothesis Hio : forall n, psw_fine (psw_at n).
  Hypothesis Hmetrics : forall e, env_kind e = Metrics -> exists b, encode to_vec_named e = Ok b.
  Hypothesis Hdata : forall n ts p label, p ∈ ps ->
    exists b, encode_data_envelope_with_kind to_vec_named uuid_str sid 0 n ts (data p) label (lit "datagram") = Ok b.
  Hypothesis Hps : Forall pk_ok ps.
  Hypothesis Hlen : zlen ps <= 2 ^ 30.
  Abbreviation Run := (PcapRun (B := FakePcapBackend.FakePcapBackend) (W := W) Tx).
  Abbreviation stampf := (packet_timestamp stamp_origin stamp_ingest).

Definition ing_ok (g : Ingest.Ingest Tx) (k : Z) : Prop :=
  is_Some (Ingest.registry Tx g !! sid) /\
  0 <= Ingest.frames_in (Ingest.stats_or Tx g sid) <= k /\
  0 <= Ingest.bytes_logged (Ingest.stats_or Tx g sid) <= k * 2 ^ 32.

Lemma record_ok g k b :
  ing_ok g k -> 0 <= b <= 2 ^ 32 -> 0 <= k <= 2 ^ 30 ->
  exists g', Ingest.record_frame Tx g sid b = Ok g' /\ ing_ok g' (k + 1).
Proof using Type.
  intros (Hr & Hf & Hb) Hbb Hk. unfold Ingest.record_frame. unfold Ingest.stats_or in Hf, Hb.
  set (e := default Ingest.no_stats (Ingest.stats Tx g !! sid)) in *.
  rewrite (checked_ok 0 u64_max (Ingest.frames_in e + 1)) by (unfold u64_max; lia). cbn [mbind res_bind].
  rewrite checked_ok by (unfold u64_max; lia). cbn [mbind res_bind]. eexists. split; [reflexivity|].
  split; [done|]. unfold Ingest.stats_or. cbn [Ingest.stats]. rewrite lookup_insert_eq. cbn. lia.
Qed.

Lemma publish_ok g k b :
  ing_ok g k -> zlen b <= MAX_FRAME_BYTES -> 0 <= k <= 2 ^ 30 ->
  exists g' d, Ingest.publish_wire Tx send g sid b = Ok (g', d) /\ ing_ok g' (k + 1).
Proof using Type.
  intros ([s Hr] & Hf & Hb) Hz Hk. pose proof (zlen_nonneg b). unfold Ingest.publish_wire, Ingest.get. rewrite Hr.
  destruct (Ingest.Fanout_publish _ _ _ _) as [tx d].
  assert (try_from 0 u64_max (zlen b) = Some (zlen b)) as ->
    by (apply try_from_Some; unfold MAX_FRAME_BYTES, u64_max in *; lia).
  cbn [default from_option id].
  destruct (record_ok (Ingest.mkIngest Tx (<[sid := Ingest.mkSession Tx (Ingest.sid Tx s) (Ingest.kind Tx s)
    (Ingest.iface Tx s) (Ingest.label Tx s) tx]> (Ingest.registry Tx g)) (Ingest.stats Tx g)) k (zlen b)) as (g' & E & H');
    [|unfold MAX_FRAME_BYTES in Hz; lia|done|].
  { split; [|done]. cbn. rewrite lookup_insert_eq. by eexists. }
  rewrite E. cbn [mbind res_bind]. by exists g', (Some d).
Qed.

Lemma metrics_ok g k ch seq ts label m :
  ing_ok g k -> exists g', publish_metrics rfc3339 to_vec_named uuid_str Tx send g sid ch seq ts label m = (g', Ok tt) /\ ing_ok g' k.
Proof using Hmetrics.
  intros ([s Hr] & Hf). unfold publish_metrics, Ingest.get. rewrite Hr.
  destruct (Hmetrics (with_ch (with_sid (envelope_new Metrics seq (pcap_metrics_payload rfc3339 uuid_str sid ch ts label m))
    (uuid_str sid)) ch)) as [b ->]; [done|].
  destruct (Ingest.Fanout_publish _ _ _ _) as [tx d]. eexists. split; [reflexivity|]. split; [|exact Hf].
  cbn. rewrite lookup_insert_eq. by eexists.
Qed.

(** The run after [k] packets; its source may be one packet ahead. *)
Record cap_inv (st : Run) (k : nat) : Prop := {
  ci_writer : exists w, pr_writer Tx st = Some w /\ psw_holds summary rfc3339 stamp_origin stamp_ingest c sid host w 0 (take k ps);
  ci_stream : pr_stream Tx st = None;
  ci_stats : pr_stats Tx st = mkRun sid (Z.of_nat k) 0 (Z.of_nat k);
  ci_ingest : ing_ok (pr_ingest Tx st) (Z.of_nat k);
  ci_packets : 0 <= m_packets_total (pr_metrics Tx st) <= Z.of_nat k;
  ci_bytes : 0 <= m_bytes_total (pr_metrics Tx st) <= captured_sum (take k ps)
}.

Lemma pk_packet_ok : Forall packet_ok ps.
Proof using Hps.
  eapply Forall_impl; [exact Hps|]. intros p (_ & Hc & Hl & _). unfold packet_ok. pose proof (zlen_nonneg (data p)). lia.
Qed.
Lemma captured_bytes qs : Forall pk_ok qs -> captured_sum qs = zlen (packet_bytes qs).
Proof using Type.
  induction 1 as [|p qs (_ & Hc & _) _ IH]; [done|]. unfold captured_sum in *. cbn [foldr]. rewrite IH, Hc.
  symmetry. apply zlen_app.
Qed.
Lemma captured_small qs : Forall pk_ok qs -> captured_sum qs <= zlen qs * 2 ^ 32.
Proof using Type.
  induction 1 as [|p qs (_ & Hc & Hl & _) _ IH]; [done|]. unfold captured_sum in *. cbn [foldr]. rewrite zlen_cons.
  unfold u32_max in Hl. lia.
Qed.

Lemma observe_ok m s k p ts :
  at_packet c ps (S k) s -> ps !! k = Some p -> 0 <= m_packets_total m <= Z.of_nat k ->
  0 <= m_bytes_total m <= captured_sum (take k ps) ->
  exists m', observe m (FakePcapBackend.stats (backend s)) p ts = Ok m' /\
    0 <= m_packets_total m' <= Z.of_nat (S k) /\ 0 <= m_bytes_total m' <= captured_sum (take (S k) ps).
Proof using Hps Hlen.
  intros (_ & _ & _ & _ & _ & Hn & Hb & _ & _) Hi Hm Hmb. pose proof (lookup_lt_Some _ _ _ Hi) as Hk.
  assert (Hp : pk_ok p) by (eapply Forall_lookup_1; [exact Hps|exact Hi]). destruct Hp as (_ & Hc & Hl & _).
  pose proof (zlen_nonneg (data p)).
  pose proof (captured_small _ (Forall_take _ (S k) _ Hps)) as Hs. rewrite (take_S_r ps k p Hi), captured_sum_app in *.
  cbn [captured_sum foldr] in *.
  assert (zlen (take k ps ++ [p]) <= 2 ^ 30) by (unfold zlen in *; rewrite length_app, length_take; simpl; lia).
  unfold observe. rewrite (checked_ok 0 u64_max (m_packets_total m + 1)) by (unfold zlen, u64_max in *; lia).
  cbn [mbind res_bind]. rewrite checked_ok by (unfold u64_max; lia). cbn [mbind res_bind].
  destruct (if 0 <? _ then _ else _) as [r1 r2]. eexists. split; [reflexivity|]. cbn [m_packets_total m_bytes_total].
  rewrite Hn, Hb. unfold captured_sum in *. lia.
Qed.

Lemma publish_step g k n p label :
  ing_ok g (Z.of_nat k) -> ps !! k = Some p -> 
  exists g', (if should_publish (publish_mode c) n then
      match encode_data_envelope_with_kind to_vec_named uuid_str sid 0 n (stampf (Z.of_nat k) p) (data p) label (lit "datagram") with
      | Ok wire => let* '(g, _) := Ingest.publish_wire Tx send g sid wire in Ok g
      | Err e => Err (wire_error_id e)
      | Panic => Panic
      end
    else Ingest.record_frame Tx g sid (captured_len p)) = Ok g' /\ ing_ok g' (Z.of_nat k + 1).
Proof using Hdata Hps Hlen.
  intros Hg Hi. pose proof (lookup_lt_Some _ _ _ Hi) as Hk. assert (0 <= Z.of_nat k <= 2 ^ 30) by (unfold zlen in Hlen; lia).
  destruct (should_publish (publish_mode c) n).
  - destruct (Hdata n (stampf (Z.of_nat k) p) p label) as [b E]; [by eapply list_elem_of_lookup_2|]. rewrite E.
    destruct (publish_ok g (Z.of_nat k) b) as (g' & d & -> & H'); [done| |done|by exists g'].
    unfold encode_data_envelope_with_kind, encode in E. destruct (to_vec_named _) as [b'|]; [|done].
    destruct (MAX_FRAME_BYTES <? zlen b') eqn:El; [done|]. injection E as <-. by apply Z.ltb_ge.
  - apply record_ok; [done| |done].
    assert (Hp : pk_ok p) by (eapply Forall_lookup_1; [exact Hps|exact Hi]). destruct Hp as (_ & Hc & Hl & _).
    pose proof (zlen_nonneg (data p)). unfold u32_max in Hl. lia.
Qed.

Lemma handle_packet_ok label (st : Run) k p :
  cap_inv st k -> at_packet c ps (S k) (pr_src Tx st) -> ps !! k = Some p ->
  exists st', handle_packet summary rfc3339 stamp_origin stamp_ingest to_vec_named uuid_str Tx send psw_at stream_at c label st p = (st', Ok tt) /\
    cap_inv st' (S k) /\ at_packet c ps (S k) (pr_src Tx st').
Proof using Hio Hdata Hmetrics Hps Hlen.
  intros [[w [Hw Hh]] Hst Hs Hg Hmp Hmb] Hat Hi. pose proof (lookup_lt_Some _ _ _ Hi) as Hk.
  destruct st as [src wr sw g stats m]. cbn [pr_writer pr_stream pr_stats pr_ingest pr_metrics pr_src] in *. subst wr sw stats.
  pose proof (captured_small _ (Forall_take _ (S k) _ Hps)) as Hcs.
  assert (Hp : pk_ok p) by (eapply Forall_lookup_1; [exact Hps|exact Hi]).
  assert (Hz : zlen (take k ps) = Z.of_nat k) by (unfold zlen; rewrite length_take; lia).
  rewrite (captured_bytes _ (Forall_take _ (S k) _ Hps)) in Hcs. pose proof (take_S_r ps k p Hi) as ET.
  rewrite ET in Hcs. unfold packet_bytes in Hcs. rewrite map_app, concat_app, zlen_app in Hcs.
  cbn [map concat] in Hcs. rewrite app_nil_r, zlen_app in Hcs. change (zlen [p]) with 1 in Hcs.
  destruct (psw_append_holds summary rfc3339 stamp_origin stamp_ingest c sid host (psw_at (Z.of_nat k)) w 0 (take k ps) p (Hio _) Hh Hp) as (w' & Ew & Hh').
  { unfold packet_bytes, u64_max, zlen in *. lia. }
  rewrite Hz, Z.add_0_l in Ew.
  destruct (publish_step g k (Z.of_nat k + 1) p label Hg Hi) as (g1 & Eg & Hg1).
  destruct (observe_ok m src k p (stampf (Z.of_nat k) p) Hat Hi Hmp Hmb) as (m' & Em & Hmp' & Hmb').
  destruct (metrics_ok g1 (Z.of_nat k + 1) 0 (Z.of_nat k + 1) (stampf (Z.of_nat k) p) label m' Hg1) as (g2 & E2 & Hg2).
  unfold handle_packet, write_packet. cbn [pr_stats pr_stream pr_writer r_sid raw_frames decoded_records framed]. rewrite Ew.
  cbn [pr_ingest pr_src pr_stream pr_metrics Z.b2z]. unfold zlen in Hlen.
  rewrite (checked_ok 0 u64_max (Z.of_nat k + 1)) by (unfold u64_max; lia). rewrite Eg.
  unfold source_stats. cbn [b_stats FakePcapBackend.backend]. rewrite Em, E2. eexists. split; [reflexivity|].
  split; [|cbn [pr_src]; by destruct src].
  split; cbn [pr_writer pr_stream pr_stats pr_ingest pr_metrics]; try done.
  - exists w'. by rewrite ET.
  - f_equal; lia.
  - by replace (Z.of_nat (S k)) with (Z.of_nat k + 1) by lia.
Qed.

Lemma pcap_loop_ok label n : forall fuel (st : Run) k,
  (n < fuel)%nat -> (k + n = length ps)%nat -> cap_inv st k -> at_packet c ps k (pr_src Tx st) ->
  exists st', pcap_loop summary rfc3339 stamp_origin stamp_ingest to_vec_named uuid_str Tx send psw_at stream_at fuel c label st = Some (st', Ok tt) /\
    cap_inv st' (length ps) /\ at_packet c ps (length ps) (pr_src Tx st').
Proof using Hio Hdata Hmetrics Hps Hlen.
  pose proof (captured_small ps Hps) as Hcs.
  assert (Hl : zlen ps <= u64_max /\ captured_sum ps <= u64_max) by (unfold u64_max; lia).
  induction n as [|n IH]; intros [|fuel] st k Hf Hn Hi Hat; try lia; cbn [pcap_loop].
  - assert (k = length ps) as -> by lia.
    destruct (recv_at_end c ps (pr_src Tx st) (length ps) Hat) as (s' & -> & Hat'); [by apply lookup_ge_None_2|].
    eexists. split; [reflexivity|]. split; [by destruct Hi; split|done].
  - destruct (lookup_lt_is_Some_2 ps k) as [p Hp]; [lia|].
    destruct (recv_at_packet c ps k (pr_src Tx st) p) as (s' & -> & Hat'); [done|apply pk_packet_ok|apply Hl|apply Hl|done|].
    destruct (handle_packet_ok label (set_pr_src Tx st s') k p) as (st' & -> & Hi' & Hat2); [by destruct Hi; split|done|done|].
    apply (IH fuel st' (S k)); [lia|lia|done|done].
Qed.

(** The capture is set up. *)
Lemma setup_ok stream_creates lab dir tx (g : Ingest.Ingest Tx) :
  validate c = Ok tt -> save_mode c = SaveSession -> Ingest.registry Tx g !! sid = None -> Ingest.stats Tx g !! sid = None ->
  exists (st : Run), pcap_setup (W := W) Tx create_fine stream_creates sid lab host (Some dir) tx (with_backend c (FakePcapBackend.new ps)) g = (st, Ok tt) /\
    cap_inv st 0 /\ at_packet c ps 0 (pr_src Tx st).
Proof using Type.
  intros Hv Hm Hreg Hst. unfold pcap_setup. cbn [config with_backend].
  unfold source_open. cbn [opened with_backend config backend]. rewrite Hv.
  cbn [b_open FakePcapBackend.backend FakePcapBackend.open]. unfold session_writer, direct_pcapng_writer, direct_pcapng_path. rewrite Hm.
  cbn [wants_pcapng negb should_write_session mbind res_bind create_fine psw_create ci_dir ci_meta ci_raw ci_index ci_frames andb].
  unfold Ingest.register_session, Ingest.insert_if_absent. cbn [Ingest.sid]. rewrite Hreg. cbn [Ingest.sid].
  eexists. split; [reflexivity|]. split.
  - split; cbn [pr_writer pr_stream pr_stats pr_ingest pr_metrics]; try done.
    + eexists. split; [reflexivity|]. done.
    + split; cbn; [rewrite lookup_insert_eq; by eexists|]. unfold Ingest.stats_or. cbn. rewrite Hst. done.
  - unfold at_packet. cbn. repeat split; zlia.
Qed.
Lemma run_capture_ok stream_creates stream_flushes fuel lab dir tx (g : Ingest.Ingest Tx) :
  (length ps < fuel)%nat -> validate c = Ok tt -> save_mode c = SaveSession ->
  Ingest.registry Tx g !! sid = None -> Ingest.stats Tx g !! sid = None ->
  exists (st : Run) w,
    run_pcap_once_notify summary rfc3339 stamp_origin stamp_ingest to_vec_named uuid_str Tx send psw_at stream_at create_fine
      stream_creates flush_fine stream_flushes fuel sid lab host (Some dir) tx (with_backend c (FakePcapBackend.new ps)) g
    = Some (st, Ok (mkRun sid (zlen ps) 0 (zlen ps))) /\
    pr_writer Tx st = Some w /\ disk (inner (w_raw w)) = packet_bytes ps /\
    disk (w_index w) = map fst (cap_rows summary rfc3339 stamp_origin stamp_ingest c sid host 0 0 ps) /\
    disk (w_frames w) = map snd (cap_rows summary rfc3339 stamp_origin stamp_ingest c sid host 0 0 ps).
Proof using Hio Hdata Hmetrics Hps Hlen.
  intros Hf Hv Hm Hreg Hst. unfold run_pcap_once_notify.
  destruct (setup_ok stream_creates lab dir tx g Hv Hm Hreg Hst) as (st0 & -> & Hi0 & Hat0). cbn [config with_backend].
  destruct (pcap_loop_ok (lit "pcap:" ++ interface c) (length ps) fuel st0 0) as (st' & E & Hi & Hat); [done|lia|done|done|].
  rewrite E. destruct Hi as [[w [Hw Hh]] Hsw Hs _ _ _]. rewrite firstn_all in Hh. unfold pcap_finish. rewrite Hw, Hsw, Hs.
  destruct Hh as (_ & _ & Hr & _ & Hx & Hy & _). unfold psw_commit, flush_raw, flush_fine. cbn [fl_raw fl_index fl_frames w_flush negb mbind res_bind].
  unfold source_close. cbn [pr_src]. destruct Hat as (Ho & _). rewrite Ho. cbn [b_close FakePcapBackend.backend].
  eexists _, _. split; [reflexivity|]. cbn [set_pr_src pr_writer]. split; [done|]. cbn. done.
Qed.
End CaptureRun.

(** A packet whose metadata is missing. *)
Definition bare_view (label : list Z) (p : PcapPacket) : view :=
  (Some (DEFAULT_ETHERNET_LINKTYPE, label), p_ts_origin_ns p, zlen (data p), data p).
Lemma bare_row (summary : Z -> list Z -> list (list Z * Value) + list Z) (rfc : Z -> option (list Z)) (parse : list Z -> option Z)
    (stamp_origin : Z -> DualTimestamp) (stamp_ingest : Z -> DualTimestamp -> DualTimestamp) (c : PcapConfig) (sid : Z) (host : option (list Z)) (n : Z) (p : PcapPacket) (pre post : list Z) (m : MetaMap) :
  (forall n t, ts_origin_ns (stamp_ingest n t) = ts_origin_ns t) ->
  (forall n, 0 <= n <= i64_max -> parse (format_rfc3339_ns rfc n) = Some n) ->
  pk_ok p -> interface c <> [] -> m !! (zlen pre, zlen (data p)) = None ->
  Forall2 (row_packet parse m ((pre ++ data p) ++ post))
    (map fst (cap_rows summary rfc stamp_origin stamp_ingest c sid host n (zlen pre) [p])) [bare_view (interface c) p] /\
  Forall (fun e => exported m e = true) (map fst (cap_rows summary rfc stamp_origin stamp_ingest c sid host n (zlen pre) [p])).
Proof.
  intros Hstamp Hrfc (_ & _ & _ & Hts & _) Hif Hm. split; repeat constructor; cbn [cap_rows map fst].
  - exists (p_ts_origin_ns p), (data p). cbn [off len ts_origin pcap_row from_envelope fst]. rewrite Hm. split; [|split].
    + unfold read_at. rewrite !zlen_app. pose proof (zlen_nonneg post). rewrite (proj2 (Z.leb_le _ _)) by lia.
      rewrite <- (assoc_L (++)), drop_app_length' by (unfold zlen; lia). by rewrite take_app_length' by (unfold zlen; lia).
    + unfold timestamp_duration, packet_timestamp. rewrite Hstamp. cbn [ts_origin_ns]. rewrite Hrfc by done.
      rewrite timestamp_ok by lia. by rewrite (proj2 (Z.ltb_ge _ _)) by lia.
    + unfold bare_view, link_of, orig_of, packet_interface_label. cbn. by destruct (interface c).
  - unfold exported. cbn [kind off len pcap_row from_envelope]. unfold is_pcap_datagram. cbn [e_schema_id pcap_row].
    change (is_packet_schema (Some PCAP_PACKET_SCHEMA_ID)) with true. by rewrite orb_true_r.
Qed.
(** A directory with the files of the packets [ps] exports to them, also when
    the metadata of one more packet is missing and some bytes follow. *)
Lemma session_exports {W : Type} `{!PcapNgWriter W} `{!PcapNgFormat W} summary rfc parse stamp_origin stamp_ingest c sid host ps last post :
  summary_ok summary -> (forall n t, ts_origin_ns (stamp_ingest n t) = ts_origin_ns t) ->
  (forall n, 0 <= n <= i64_max -> parse (format_rfc3339_ns rfc n) = Some n) ->
  Forall pk_ok (ps ++ last) -> ps ++ last <> [] -> zlen ps <= 2 ^ 30 -> interface c <> [] -> (length last <= 1)%nat ->
  let rows := cap_rows summary rfc stamp_origin stamp_ingest c sid host 0 0 in
  exists x : W,
    pcapng_export parse (packet_bytes (ps ++ last) ++ post) (map (fun r => Some (Some (fst r))) (rows (ps ++ last)))
      (Some (map (fun r => Some (Some (snd r))) (rows ps))) = Ok x /\
    packets_of (written x) = map (pkt_view (interface c)) ps ++ map (bare_view (interface c)) last.
Proof.
  intros Hsum Hstamp Hrfc Hall Hne Hlen Hif Hlast. cbv zeta. pose proof (proj1 (proj1 (Forall_app _ _ _) Hall)) as Hps.
  pose proof (captured_small ps Hps) as Hcs. rewrite (captured_bytes ps Hps) in Hcs.
  assert (Hz : 0 + zlen (packet_bytes ps) <= u64_max) by (unfold u64_max; lia).
  destruct (cap_meta summary rfc stamp_origin stamp_ingest c sid host Hsum ps 0 0 ∅ Hps ltac:(lia) Hz) as (m & Em & Hold & HM).
  assert (Hb : packet_bytes (ps ++ last) = packet_bytes ps ++ packet_bytes last)
    by (unfold packet_bytes; by rewrite map_app, concat_app).
  destruct (cap_views summary rfc parse stamp_origin stamp_ingest c sid host Hstamp Hrfc Hif m ps 0 [] (packet_bytes last ++ post) Hps HM) as [HV HX].
  rewrite app_nil_l, (assoc_L (++)), <- Hb in HV. change (zlen []) with 0 in HV, HX.
  set (rows := map fst (cap_rows summary rfc stamp_origin stamp_ingest c sid host 0 0 (ps ++ last))).
  assert (HL : Forall2 (row_packet parse m (packet_bytes (ps ++ last) ++ post)) rows
                 (map (pkt_view (interface c)) ps ++ map (bare_view (interface c)) last) /\
               Forall (fun e => exported m e = true) rows).
  { destruct last as [|p [|]]; cbn [length] in Hlast; [|subst rows|lia].
    - subst rows. rewrite !app_nil_r in *. done.
    - apply Forall_app in Hall as [_ Hp]. rewrite Forall_singleton in Hp.
      assert (H1p : packet_bytes [p] = data p) by (unfold packet_bytes; cbn; by rewrite app_nil_r). rewrite Hb, H1p in *.
      destruct (bare_row summary rfc parse stamp_origin stamp_ingest c sid host (0 + zlen ps) p (packet_bytes ps) post m) as [H1 H2]; try done.
      { rewrite Hold by (right; cbn [fst]; lia). apply lookup_empty. }
      rewrite cap_rows_snoc, map_app. split; [by apply Forall2_app|by apply Forall_app]. }
  destruct HL as [HV' HX'].
  assert (Hrows : index_rows (map (fun e => Some (Some e)) rows) = rows).
  { clear. unfold index_rows. induction rows as [|r rows IH]; [done|]. cbn. by f_equal. }
  assert (Hfil : List.filter (exported m) rows = rows).
  { clear -HX'. induction HX' as [|r rows H _ IH]; [done|]. cbn. by rewrite H, IH. }
  destruct (pcapng_export_ok parse m (packet_bytes (ps ++ last) ++ post) (map (fun e => Some (Some e)) rows)
    (Some (map (fun r => Some (Some (snd r))) (cap_rows summary rfc stamp_origin stamp_ingest c sid host 0 0 ps)))
    (map (pkt_view (interface c)) ps ++ map (bare_view (interface c)) last)) as (x & ifs & Ex & _ & Hp & _).
  - exact Em.
  - apply Forall_map, Forall_true. done.
  - by rewrite Hrows, Hfil.
  - by destruct ps, last.
  - unfold zlen, u32_max in *. rewrite length_app, !length_map. lia.
  - exists x. split; [|done]. unfold rows in Ex. rewrite map_map in Ex. exact Ex.
Qed.

(** C6: what is captured is what an analyser gets: capturing packets into a
    session directory with a valid configuration ends without error after
    counting every packet, and exporting that directory to pcapng gives exactly
    those packets in order, each with its bytes, its origin timestamp to the
    nanosecond, its original length and an interface with its link type and the
    capture interface's name.  The disk may take the writes in any pieces.  The clock may not change an origin timestamp,
    RFC 3339 must be parsed back to the instant it was printed from, the packet
    summary may not use the record's own field names, and the frames to publish
    must fit the wire. *)
Theorem capture_exports {W : Type} `{!PcapNgWriter W} `{!PcapNgFormat W}
    summary rfc parse stamp_origin stamp_ingest to_vec uuid_str (Tx : Type) send psw_at stream_at sc sf c sid host ps fuel lab dir tx
    (g : Ingest.Ingest Tx) :
  (forall n, psw_fine (psw_at n)) ->
  summary_ok summary -> (forall n t, ts_origin_ns (stamp_ingest n t) = ts_origin_ns t) ->
  (forall n, 0 <= n <= i64_max -> parse (format_rfc3339_ns rfc n) = Some n) ->
  (forall e, env_kind e = Metrics -> exists b, encode to_vec e = Ok b) ->
  (forall n ts p label, p ∈ ps ->
     exists b, encode_data_envelope_with_kind to_vec uuid_str sid 0 n ts (data p) label (lit "datagram") = Ok b) ->
  Forall pk_ok ps -> ps <> [] -> zlen ps <= 2 ^ 30 -> (length ps < fuel)%nat ->
  validate c = Ok tt -> save_mode c = SaveSession ->
  Ingest.registry Tx g !! sid = None -> Ingest.stats Tx g !! sid = None ->
  exists (st : PcapRun (W := W) Tx) w (x : W),
    run_pcap_once_notify summary rfc stamp_origin stamp_ingest to_vec uuid_str Tx send psw_at stream_at create_fine sc flush_fine sf
      fuel sid lab host (Some dir) tx (with_backend c (FakePcapBackend.new ps)) g
    = Some (st, Ok (mkRun sid (zlen ps) 0 (zlen ps))) /\
    pr_writer Tx st = Some w /\
    pcapng_export parse (disk (inner (w_raw w))) (map (fun e => Some (Some e)) (disk (w_index w)))
      (Some (map (fun f => Some (Some f)) (disk (w_frames w)))) = Ok x /\
    packets_of (written x) = map (pkt_view (interface c)) ps.
Proof.
  intros Hio Hsum Hstamp Hrfc Hmet Hdat Hps Hne Hlen Hfuel Hv Hm Hreg Hst.
  destruct (run_capture_ok summary rfc stamp_origin stamp_ingest to_vec uuid_str Tx send c sid host ps psw_at stream_at
    Hio Hmet Hdat Hps Hlen sc sf fuel lab dir tx g Hfuel Hv Hm Hreg Hst) as (st & w & E & Hw & D1 & D2 & D3).
  assert (Hif : interface c <> []) by (intros Hi; unfold validate in Hv; by rewrite Hi in Hv).
  destruct (session_exports summary rfc parse stamp_origin stamp_ingest c sid host ps [] [] Hsum Hstamp Hrfc) as (x & Ex & Hp);
    rewrite ?app_nil_r in *; [done..|cbn; lia|].
  exists st, w, x. rewrite D1, D2, D3, !map_map. done.
Qed.

Definition sum0 (l : Z) (d : list Z) : list (list Z * Value) + list Z := inl [(lit "protocol", VString (lit "udp"))].
Definition rfc0 (n : Z) : option (list Z) := Some (show_nat n).
Definition parse_num0 (s : list Z) : option Z := parse_unsigned 10 u64_max s.
Definition so0 (_ : Z) : DualTimestamp := ts0.
Definition si0 (n : Z) (t : DualTimestamp) : DualTimestamp := t.
Lemma capture_exports_witness :
  exists (st : PcapRun (W := BlockList) unit) w (x : BlockList),
    run_pcap_once_notify sum0 rfc0 so0 si0 (fun _ => Some [1]) show_nat unit send0 (fun _ => mkPswIo 2 None 0 None 1 None) (fun _ => mkStreamIo true true)
      create_fine true flush_fine true 3 7 None None
      (Some (path_of (lit "/d"))) tt (with_backend (pcap_new (lit "eth0")) (FakePcapBackend.new [pkt0; pkt1])) ingest0
    = Some (st, Ok (mkRun 7 2 0 2)) /\
    pr_writer unit st = Some w /\
    pcapng_export parse_num0 (disk (inner (w_raw w))) (map (fun e => Some (Some e)) (disk (w_index w)))
      (Some (map (fun f => Some (Some f)) (disk (w_frames w)))) = Ok x /\
    packets_of (written x) = map (pkt_view (lit "eth0")) [pkt0; pkt1].
Proof.
  apply (capture_exports sum0 rfc0 parse_num0 so0 si0 (fun _ => Some [1]) show_nat unit send0 (fun _ => mkPswIo 2 None 0 None 1 None)
    (fun _ => mkStreamIo true true) true true (pcap_new (lit "eth0")) 7 None [pkt0; pkt1] 3 None (path_of (lit "/d")) tt ingest0).
  - done.
  - intros l d kvs [= <-]. constructor; [|constructor]. apply (bool_decide_unpack _). reflexivity.
  - reflexivity.
  - intros n Hn. apply parse_show_nat. unfold i64_max, u64_max in *. lia.
  - intros e _. exists [1]. reflexivity.
  - intros n ts p label _. exists [1]. reflexivity.
  - repeat (apply Forall_cons; split; [vm_compute; intuition discriminate|]). constructor.
  - discriminate.
  - vm_compute. discriminate.
  - vm_compute. lia.
  - reflexivity.
  - reflexivity.
  - reflexivity.
  - reflexivity.
Defined.
