(* ===== verification/PcapStop.v ===== *)
(** * Captures that are stopped or fail

    crates/server/src/pcap_runner.rs when the disk fails or the task is aborted:
    what reaches the session directory when the writers go out of scope, and
    what an export makes of it.  A stop drops the task where it waits, between
    two packets or, with the packet written, for the statistics; so the state it
    leaves is that of a run cut after some number of packets. *)
From stdpp Require Import base numbers strings gmap list.
From S2P Require Import Prelude Text Sessions Spec Decoder Clock SessionDir Capture Pcapng PcapStream Wire Runner PcapRunner.

Local Open Scope Z_scope.
Local Open Scope tm_scope.

Section Cut.
  Context {B : Type} `{!PcapBackend B} {W : Type} `{!PcapNgWriter W}.
  Variable summary : Z -> list Z -> list (list Z * Value) + list Z.
  Variable rfc3339 : Z -> option (list Z).
  Variable stamp_origin : Z -> DualTimestamp.
  Variable stamp_ingest : Z -> DualTimestamp -> DualTimestamp.
  Variable to_vec_named : Envelope -> option (list Z).
  Variable uuid_str : Z -> list Z.
  Variable Tx : Type.
  Variable send : Tx -> list Z -> Tx * option Z.
  Variable psw_at : Z -> PswIo.
  Variable stream_at : Z -> StreamIo.
  Variable c : PcapConfig.
  Variable label : list Z.
  Abbreviation Run := (PcapRun (B := B) (W := W) Tx).
  Abbreviation handles := (handle_packet summary rfc3339 stamp_origin stamp_ingest to_vec_named uuid_str Tx send psw_at stream_at c label).

(** The run up to [n] packets, with the packets it received. *)
Fixpoint pcap_cut (n : nat) (st : Run) : list PcapPacket * (Run * result unit) :=
  match n with
  | O => ([], (st, Ok tt))
  | S n' =>
      let '(s, r) := recv_packet (pr_src Tx st) in
      let st1 := set_pr_src Tx st s in
      match r with
      | Ok None => ([], (st1, Ok tt))
      | Err e => ([], (st1, Err e))
      | Panic => ([], (st1, Panic))
      | Ok (Some p) =>
          match handles st1 p with
          | (st2, Ok _) => let '(ps, x) := pcap_cut n' st2 in (p :: ps, x)
          | stop => ([p], stop)
          end
      end
  end.
(** A run that ends by itself ends in such a state. *)
Lemma cut_loop n : forall (st st' : Run) r,
  pcap_loop summary rfc3339 stamp_origin stamp_ingest to_vec_named uuid_str Tx send psw_at stream_at n c label st = Some (st', r) ->
  snd (pcap_cut n st) = (st', r).
Proof using Type.
  induction n as [|n IH]; intros st st' r H; [done|]. cbn [pcap_loop pcap_cut] in *.
  destruct (recv_packet (pr_src Tx st)) as [s [[p|]|e|]]; [|by injection H as <- <-..].
  destruct (handle_packet _ _ _ _ _ _ _ _ _ _ _ _ _ _) as [st2 [[]|e|]] eqn:Eh; [|by injection H as <- <-..].
  specialize (IH _ _ _ H). by destruct (pcap_cut n st2).
Qed.

Lemma cut_length n : forall st : Run, (length (fst (pcap_cut n st)) <= n)%nat.
Proof using Type.
  induction n as [|n IH]; intros st; cbn [pcap_cut]; [done|].
  destruct (recv_packet (pr_src Tx st)) as [s [[p|]|e|]]; [|cbn; lia..].
  destruct (handle_packet _ _ _ _ _ _ _ _ _ _ _ _ _ _) as [st2 [[]|e|]]; [|cbn; lia..].
  specialize (IH st2). destruct (pcap_cut n st2). cbn in *. lia.
Qed.

(** ** What the session writer holds *)
Variable sid : Z.
Variable host : option (list Z).
Abbreviation rows := (cap_rows summary rfc3339 stamp_origin stamp_ingest c sid host 0 0).
Abbreviation holds := (psw_holds summary rfc3339 stamp_origin stamp_ingest c sid host).
(** All packets but the last at most, whose bytes or row may be there. *)
Record leaves (w : PcapSessionWriter) (ps qs last : list PcapPacket) : Prop := {
  lv_all : exists rest, ps = qs ++ rest /\ (length rest <= 1)%nat /\ (last = [] \/ last = rest);
  lv_raw : packet_bytes (qs ++ last) `prefix_of` stream (inner (w_raw w));
  lv_index : stream (w_index w) = map fst (rows (qs ++ last));
  lv_frames : stream (w_frames w) = map snd (rows qs) }.
Lemma holds_leaves w qs : holds w 0 qs -> leaves w qs qs [].
Proof using Type.
  intros (_ & _ & Hr & _ & Hi & Hf & _). split; rewrite ?app_nil_r; [|by rewrite Hr|done|done].
  exists []. rewrite app_nil_r. split; [done|]. split; [cbn; lia|by left].
Qed.
Lemma leaves_unwritten w qs p : holds w 0 qs -> leaves w (qs ++ [p]) qs [].
Proof using Type.
  intros H. destruct (holds_leaves _ _ H) as [_ Hr Hi Hf]. split; [|done..]. exists [p]. split; [done|]. split; [cbn; lia|by left].
Qed.
Lemma append_leaves io w qs p w' r :
  holds w 0 qs -> pk_ok p -> zlen (packet_bytes qs) + zlen (data p) <= u64_max ->
  psw_append summary rfc3339 io w c sid p (packet_timestamp stamp_origin stamp_ingest (zlen qs) p) = (w', r) ->
  (exists last, leaves w' (qs ++ [p]) qs last) /\ r <> Ok tt \/ holds w' 0 (qs ++ [p]).
Proof using Type.
  intros Hh Hp Hu H. pose proof Hh as (Hs & Hho & Hr & Hpos & Hi & Hf & Ht1 & Ht2). pose proof (zlen_nonneg (data p)). pose proof (zlen_nonneg (packet_bytes qs)).
  assert (Hb : packet_bytes (qs ++ [p]) = packet_bytes qs ++ data p)
    by (unfold packet_bytes; rewrite map_app, concat_app; cbn; by rewrite app_nil_r).
  assert (Hrest : exists rest, qs ++ [p] = qs ++ rest /\ (length rest <= 1)%nat /\ ([p] = [] \/ [p] = rest)).
  { exists [p]. split; [done|]. split; [cbn; lia|by right]. }
  assert (Hrest0 : exists rest, qs ++ [p] = qs ++ rest /\ (length rest <= 1)%nat /\ (@nil PcapPacket = [] \/ [] = rest)).
  { exists [p]. split; [done|]. split; [cbn; lia|by left]. }
  destruct (io_raw_short io) as [k|] eqn:Es.
  { unfold psw_append in H. rewrite Es in H. cbn [raw_append] in H. injection H as <- <-. left. split; [|done]. exists [].
    split; cbn [w_raw w_index w_frames inner]; rewrite ?app_nil_r; try done. rewrite stream_append, Hr. by apply prefix_app_r. }
  unfold psw_append in H. pose proof Hp as (_ & _ & Hlen & _). rewrite Es, raw_append_ok in H by (rewrite ?Hpos; lia). rewrite Hpos, Hs, Hho in H.
  assert (Hl0 : forall w2, stream (inner (w_raw w2)) = packet_bytes qs ++ data p -> stream (w_index w2) = map fst (rows qs) ->
            stream (w_frames w2) = map snd (rows qs) -> leaves w2 (qs ++ [p]) qs []).
  { intros w2 E1 E2 E3. split; rewrite ?app_nil_r; [done| |done..]. rewrite E1. by apply prefix_app_r. }
  assert (Hl1 : forall w2, stream (inner (w_raw w2)) = packet_bytes qs ++ data p -> stream (w_index w2) = map fst (rows (qs ++ [p])) ->
            stream (w_frames w2) = map snd (rows qs) -> leaves w2 (qs ++ [p]) qs [p]).
  { intros w2 E1 E2 E3. split; [done| |done..]. by rewrite E1, Hb. }
  assert (Hrow : map fst (rows (qs ++ [p])) = map fst (rows qs) ++
      [pcap_row rfc3339 (source_label c) host (packet_timestamp stamp_origin stamp_ingest (zlen qs) p) sid (zlen (packet_bytes qs)) (zlen (data p))])
    by (rewrite cap_rows_snoc, map_app; by rewrite !Z.add_0_l).
  destruct (io_index_fail io) as [[]|]; cbn [row_append] in H.
  4: destruct (io_frames_fail io) as [[]|]; cbn [row_append] in H.
  all: injection H as <- <-.
  (* the index row is lost or torn, or lacks its newline *)
  1-2: left; split; [exists []; apply Hl0; cbn [w_raw w_index w_frames inner]; by rewrite ?stream_append, ?Hr|done].
  1-3: left; split; [exists [p]; apply Hl1; cbn [w_raw w_index w_frames inner]; by rewrite ?stream_append, ?Hr, ?Hi|done].
  (* both rows are there *)
  all: right; unfold psw_holds; cbn [w_source w_host w_raw w_index w_frames w_index_torn w_frames_torn inner pos];
    rewrite !stream_append, Hr, Hi, Hf, Hb, Hrow, cap_rows_snoc, zlen_app, map_app, !Z.add_0_l; done.
Qed.
(** Only a packet that was written whole is counted. *)
Definition after (st : Run) (qs : list PcapPacket) (p : PcapPacket) (r : result unit) : Prop :=
  exists w, pr_writer Tx st = Some w /\
    ((exists last, leaves w (qs ++ [p]) qs last) /\ r <> Ok tt \/
     holds w 0 (qs ++ [p]) /\ (r = Ok tt -> raw_frames (pr_stats Tx st) = zlen qs + 1 /\ r_sid (pr_stats Tx st) = sid)).
Lemma after_written (st : Run) qs p r w :
  pr_writer Tx st = Some w -> holds w 0 (qs ++ [p]) ->
  (r = Ok tt -> raw_frames (pr_stats Tx st) = zlen qs + 1 /\ r_sid (pr_stats Tx st) = sid) -> after st qs p r.
Proof using Type. intros Hw Hh Hr. exists w. split; [done|by right]. Qed.
Lemma handle_leaves (st st2 : Run) p r w qs :
  pr_writer Tx st = Some w -> raw_frames (pr_stats Tx st) = zlen qs -> r_sid (pr_stats Tx st) = sid -> holds w 0 qs -> pk_ok p ->
  zlen (packet_bytes qs) + zlen (data p) <= u64_max -> handles st p = (st2, r) -> after st2 qs p r.
Proof using Type.
  intros Hw Hn Hsid Hh Hp Hu H. unfold handle_packet, write_packet in H. rewrite Hn, Hsid, Hw in H.
  destruct (match pr_stream Tx st with Some _ => _ | None => _ end) as [sw [[]|e|]].
  2-3: injection H as <- <-; exists w; split; [done|]; left; split; [|done]; exists []; by apply leaves_unwritten.
  destruct (psw_append _ _ _ _ _ _ _ _) as [w2 r2] eqn:Ea.
  destruct (append_leaves _ _ _ _ _ _ Hh Hp Hu Ea) as [[Hl Hr]|Hh2].
  { destruct r2 as [[]|e|]; [done|..]; injection H as <- <-; exists w2; (split; [done|]); left; done. }
  cbn [pr_src pr_writer pr_stream pr_ingest pr_stats pr_metrics] in H.
  destruct r2 as [[]|e|]; [|injection H as <- <-; by eapply after_written..].
  destruct (checked 0 u64_max (decoded_records _ + _)) as [d|e|]; [|injection H as <- <-; by eapply after_written..].
  destruct (checked 0 u64_max (zlen qs + 1)) as [n|e|] eqn:En; [|injection H as <- <-; by eapply after_written..].
  apply checked_inv in En as [-> _].
  destruct (if should_publish _ _ then _ else _) as [g|e|]; [|injection H as <- <-; by eapply after_written..].
  destruct (source_stats _) as [src bs]. destruct (observe _ _ _ _) as [m|e|]; [|injection H as <- <-; by eapply after_written..].
  destruct (publish_metrics _ _ _ _ _ _ _ _ _ _ _ _) as [g2 rm]. injection H as <- <-. by eapply after_written.
Qed.
(** However the disk fails, a run that was cut leaves all packets it received,
    or all but the last, and everything when it was going well. *)
Lemma cut_leaves n : forall (st : Run) w qs,
  pr_writer Tx st = Some w -> raw_frames (pr_stats Tx st) = zlen qs -> r_sid (pr_stats Tx st) = sid -> holds w 0 qs ->
  Forall pk_ok (qs ++ fst (pcap_cut n st)) -> zlen qs + Z.of_nat n <= 2 ^ 30 ->
  exists w' qs' last, pr_writer Tx (fst (snd (pcap_cut n st))) = Some w' /\ leaves w' (qs ++ fst (pcap_cut n st)) qs' last /\
    (snd (snd (pcap_cut n st)) = Ok tt ->
     qs' = qs ++ fst (pcap_cut n st) /\ last = [] /\ w_index_torn w' = false /\ w_frames_torn w' = false).
Proof using Type.
  induction n as [|n IH]; intros st w qs Hw Hn Hsid Hh Hps Hb; cbn [pcap_cut] in *.
  { rewrite app_nil_r. exists w, qs, []. split; [done|]. split; [by apply holds_leaves|]. by destruct Hh as (_ & _ & _ & _ & _ & _ & ? & ?). }
  destruct (recv_packet (pr_src Tx st)) as [s [[p|]|e|]].
  2-4: cbn [fst snd]; rewrite app_nil_r; exists w, qs, []; (split; [done|]); (split; [by apply holds_leaves|]);
    by destruct Hh as (_ & _ & _ & _ & _ & _ & ? & ?).
  destruct (handles (set_pr_src Tx st s) p) as [st2 r] eqn:Eh.
  assert (Hp : pk_ok p /\ Forall pk_ok qs).
  { destruct r; [destruct (pcap_cut n st2)|..]; cbn [fst] in Hps; apply Forall_app in Hps as [Hq Hp]; by apply Forall_cons in Hp as [Hp _]. }
  destruct Hp as [Hp Hq]. pose proof (captured_small qs Hq) as Hcs. rewrite (captured_bytes qs Hq) in Hcs.
  assert (Hu : zlen (packet_bytes qs) + zlen (data p) <= u64_max) by (destruct Hp as (_ & _ & ? & _); unfold u64_max, u32_max in *; lia).
  destruct (handle_leaves (set_pr_src Tx st s) st2 p r w qs Hw Hn Hsid Hh Hp Hu Eh) as (w2 & Hw2 & [[[last Hl] Hr]|[Hh2 Hr]]).
  { destruct r as [[]|e|]; [done|..]; by exists w2, qs, last. }
  destruct r as [[]|e|]; [|exists w2, (qs ++ [p]), []; split; [done|]; split; [by apply holds_leaves|done]..].
  destruct (Hr eq_refl) as [Hn2 Hs2]. specialize (IH st2 w2 (qs ++ [p])). destruct (pcap_cut n st2) as [ps x]. cbn [fst snd] in *.
  rewrite <- (assoc_L (++)) in IH. apply IH; try done; rewrite zlen_app; change (zlen [p]) with 1; [done|lia].
Qed.
End Cut.

(** ** What an export makes of it *)
Section TornRow.
  Context {W : Type} `{!PcapNgWriter W}.
  Variable parse : list Z -> option Z.
Lemma torn_frames fs : forall m, read_metadata_lines m (map (fun r => Some (Some r)) fs ++ [Some None]) = Err E1001PipelineGeneric.
Proof using Type. induction fs as [|f fs IH]; intros m; [done|]. cbn [map app read_metadata_lines]. apply IH. Qed.
Lemma torn_index m raw es : forall (st st' : W * Interfaces * Z),
  export_entries parse m raw st es = Ok st' -> export_entries parse m raw st (es ++ [Some None]) = Err E1001PipelineGeneric.
Proof using Type.
  induction es as [|[[e|]|] es IH]; intros st st' H; cbn [app export_entries] in *; [done| |done|by eapply IH].
  destruct (export_entry parse m raw st e) as [st1|x|]; [|done..]. by eapply IH.
Qed.
Lemma torn_export raw es fs (x : W) :
  pcapng_export parse raw es fs = Ok x -> pcapng_export parse raw (es ++ [Some None]) fs = Err E1001PipelineGeneric.
Proof using Type.
  unfold pcapng_export. destruct (read_packet_metadata fs) as [m|e|]; [|done..]. cbn [mbind res_bind].
  destruct (export_entries parse m raw _ es) as [st|e|] eqn:E; [|done..]. by rewrite (torn_index _ _ _ _ _ E).
Qed.
End TornRow.

(** The export of the directory a session writer leaves. *)
Definition export_left {W : Type} `{!PcapNgWriter W} (parse : list Z -> option Z) (w : PcapSessionWriter) : result W :=
  pcapng_export parse (disk (inner (w_raw w))) (lines_of (w_index w) (w_index_torn w)) (Some (lines_of (w_frames w) (w_frames_torn w))).
Lemma leaves_export {W : Type} `{!PcapNgWriter W} `{!PcapNgFormat W} summary rfc parse stamp_origin stamp_ingest c sid host w ps qs last :
  summary_ok summary -> (forall n t, ts_origin_ns (stamp_ingest n t) = ts_origin_ns t) ->
  (forall n, 0 <= n <= i64_max -> parse (format_rfc3339_ns rfc n) = Some n) -> interface c <> [] ->
  Forall pk_ok ps -> zlen ps <= 2 ^ 30 -> leaves summary rfc stamp_origin stamp_ingest c sid host w ps qs last ->
  if w_index_torn w || w_frames_torn w || bool_decide (qs ++ last = [])
  then export_left (W := W) parse (psw_drop flush_fine w) = Err E1001PipelineGeneric
  else exists x : W, export_left parse (psw_drop flush_fine w) = Ok x /\
    packets_of (written x) = map (pkt_view (interface c)) qs ++ map (bare_view (interface c)) last.
Proof.
  intros Hsum Hstamp Hrfc Hif Hps Hlen [(rest & -> & Hr1 & Hlast) [post Hraw] Hi Hf].
  assert (Hall : Forall pk_ok (qs ++ last)) by (destruct Hlast as [->| ->]; [rewrite app_nil_r; by apply Forall_app in Hps as [? _]|done]).
  assert (Hl1 : (length last <= 1)%nat) by (destruct Hlast as [->| ->]; [cbn; lia|done]).
  assert (Hq : zlen qs <= 2 ^ 30) by (rewrite zlen_app in Hlen; pose proof (zlen_nonneg rest); lia).
  unfold export_left, lines_of, psw_drop, flush_raw, flush_fine.
  cbn [w_raw w_index w_frames w_index_torn w_frames_torn fl_raw fl_index fl_frames w_flush inner fst disk].
  fold (stream (inner (w_raw w))) (stream (w_index w)) (stream (w_frames w)). rewrite Hraw, Hi, Hf, !map_map.
  destruct (w_frames_torn w) eqn:Etf.
  { rewrite orb_true_r. cbn [orb]. unfold pcapng_export. cbn [read_packet_metadata]. rewrite <- (map_map snd (fun r => Some (Some r))).
    by rewrite torn_frames. }
  rewrite orb_false_r, app_nil_r. destruct (bool_decide_reflect (qs ++ last = [])) as [E|N].
  { rewrite orb_true_r. apply app_eq_nil in E as [-> ->]. by destruct (w_index_torn w). }
  rewrite orb_false_r.
  destruct (session_exports summary rfc parse stamp_origin stamp_ingest c sid host qs last post Hsum Hstamp Hrfc Hall N Hq Hif Hl1) as (x & Ex & Hx).
  destruct (w_index_torn w); [by eapply torn_export|]. rewrite app_nil_r. by exists x.
Qed.

(** ** Starting *)
Section Setup.
  Context {B : Type} `{!PcapBackend B} {W : Type} `{!PcapNgWriter W}.
  Variable Tx : Type.
  Variable create_io : CreateIo.
  Variable stream_creates : bool.
  Variable c : PcapConfig.
  Variable b : B.
  Abbreviation setup := (pcap_setup (B := B) (W := W) Tx create_io stream_creates).
(** Nothing is registered unless everything was made. *)
Lemma setup_fails sid lab host dir tx (g : Ingest.Ingest Tx) st r :
  setup sid lab host dir tx (with_backend c b) g = (st, r) -> r <> Ok tt -> pr_ingest Tx st = g.
Proof using Type.
  unfold pcap_setup. destruct (source_open _) as [s1 ro].
  destruct (do* ro in _) as [[w sw]|e|]; [destruct (Ingest.register_session _ _ _)|..]; by intros [= <- <-].
Qed.
Lemma setup_starts summary rfc stamp_origin stamp_ingest sid lab host dir tx (g : Ingest.Ingest Tx) st r :
  should_write_session (save_mode c) = true -> Ingest.registry Tx g !! sid = None ->
  setup sid lab host (Some dir) tx (with_backend c b) g = (st, r) -> r = Ok tt ->
  interface c <> [] /\ is_Some (Ingest.registry Tx (pr_ingest Tx st) !! sid) /\ pr_stats Tx st = mkRun sid 0 0 0 /\
  exists w, pr_writer Tx st = Some w /\ psw_holds summary rfc stamp_origin stamp_ingest c sid host w 0 [].
Proof using Type.
  intros Hm Hg H ->. unfold pcap_setup in H. cbn [config with_backend] in H. unfold source_open in H. cbn [opened with_backend config backend] in H.
  destruct (validate c) as [[]|e|] eqn:Ev; [|done..].
  destruct (b_open c b) as [b2 [[]|e|]]; [|done..]. unfold session_writer, psw_create in H. rewrite Hm in H.
  destruct (ci_dir create_io && _ && _ && _ && _); [|done]. cbn [mbind res_bind] in H.
  destruct (direct_pcapng_writer _ _ _) as [sw|e|]; [|done..]. unfold Ingest.register_session, Ingest.insert_if_absent in H.
  cbn [Ingest.sid] in H. rewrite Hg in H. injection H as <-. split; [intros Hi; unfold validate in Ev; by rewrite Hi in Ev|].
  cbn [pr_ingest Ingest.registry pr_stats pr_writer Ingest.sid]. rewrite lookup_insert_eq. split; [by eexists|]. split; [done|]. by eexists.
Qed.
End Setup.


(** The second packet's frame row is lost. *)
Definition stop_at (n : Z) : PswIo := mkPswIo 2 None 0 None 1 (if n =? 1 then Some RowLost else None).
Definition torn_at (n : Z) : PswIo := mkPswIo 2 None 0 None 1 (if n =? 1 then Some RowTorn else None).
Definition eth0 : PcapConfig := pcap_new (lit "eth0").
Definition stop_setup (io : CreateIo) :=
  pcap_setup (W := BlockList) unit io true 7 None None (Some (path_of (lit "/d"))) tt
    (with_backend eth0 (FakePcapBackend.new [pkt0; pkt1])) ingest0.
Definition stop_cut (psw : Z -> PswIo) (n : nat) :=
  pcap_cut sum0 rfc0 so0 si0 (fun _ => Some [1]) show_nat unit send0 psw (fun _ => mkStreamIo true true) eth0 (source_label eth0) n
    (fst (stop_setup create_fine)).

(** What is left then: both packets, the second without its metadata; the run
    ended with the error of the write. *)
Definition packets_left (psw : Z -> PswIo) (n : nat) : option (result (list view)) :=
  (fun w => let* x := export_left (W := BlockList) parse_num0 (psw_drop flush_fine w) in Ok (packets_of (written x)))
    <$> pr_writer unit (fst (snd (stop_cut psw n))).
Example stop_leaves_both :
  snd (stop_setup create_fine) = Ok tt /\ snd (snd (stop_cut stop_at 2)) = Err E1001PipelineGeneric /\
  packets_left stop_at 2 = Some (Ok [pkt_view (lit "eth0") pkt0; bare_view (lit "eth0") pkt1]) /\
  packets_left stop_at 1 = Some (Ok [pkt_view (lit "eth0") pkt0]) /\ packets_left stop_at 0 = Some (Err E1001PipelineGeneric).
Proof. vm_compute. repeat split. Qed.
(** A part of a row at the end of [frames.jsonl] makes the whole session fail to
    export, also the packets written before it. *)
Example torn_row_blocks_export : packets_left torn_at 1 = Some (Ok [pkt_view (lit "eth0") pkt0]) /\
  packets_left torn_at 2 = Some (Err E1001PipelineGeneric).
Proof. vm_compute. repeat split. Qed.
(** A directory that cannot be made registers no session. *)
Example no_files_no_session :
  snd (stop_setup (mkCreateIo false true true true true)) = Err E1001PipelineGeneric /\
  pr_ingest unit (fst (stop_setup (mkCreateIo false true true true true))) = ingest0.
Proof. by vm_compute. Qed.
(** The rows may reach the disk before the bytes they name: a process that is
    killed, so that no buffer is written, leaves a session that does not export,
    although its index names a packet. *)
Definition early_row (_ : Z) : PswIo := mkPswIo 0 None 1 None 1 None.
Example killed_leaves_dangling_rows :
  (fun w => (length (disk (w_index w)), disk (inner (w_raw w)), export_left (W := BlockList) parse_num0 w))
    <$> pr_writer unit (fst (snd (stop_cut early_row 1))) = Some (1%nat, [], Err E1001PipelineGeneric).
Proof. by vm_compute. Qed.
