(* ===== verification/Detect.v ===== *)
(** * Classification rules and content detection

    crates/core/src/classify.rs and crates/core/src/detect/content.rs.  The
    regex crate, the text encodings and Unicode's lower-case table are
    parameters. *)
From stdpp Require Import base numbers strings sets sorting list.
From S2P Require Import Prelude Text Decoder.

Local Open Scope Z_scope.
Local Open Scope tm_scope.

(** ** classify.rs: rules *)
Inductive MatchKind := Contains | Regex.
#[export] Instance MatchKind_eq_dec : EqDecision MatchKind.
Proof. solve_decision. Defined.

Record ClassificationRule := mkRule {
  contains : list Z; regex : option (list Z); tag : list Z; case_sensitive : bool }.
Record ClassificationMatch := mkMatch { c_kind : MatchKind; c_pattern : list Z; c_tag : list Z; c_count : Z }.
Abbreviation LogClassifier := (list ClassificationRule).

Definition contains_with_case (needle tg : list Z) (cs : bool) : ClassificationRule := mkRule needle None tg cs.
Definition regex_with_case (pat tg : list Z) (cs : bool) : ClassificationRule := mkRule [] (Some pat) tg cs.

Definition match_kind (r : ClassificationRule) : MatchKind :=
  match regex r with Some (_ :: _) => Regex | _ => Contains end.
Definition pattern (r : ClassificationRule) : list Z :=
  match regex r with Some ((_ :: _) as p) => p | _ => contains r end.
Definition is_nil {A} (l : list A) : bool := match l with [] => true | _ => false end.
Definition is_active (r : ClassificationRule) : bool := negb (is_nil (pattern r)) && negb (is_nil (tag r)).

Definition count_substrings (haystack needle : list Z) : Z :=
  match needle with [] => 0 | _ => Z.of_nat (count_go needle O haystack) end.

Section Classify.
  (** [str::to_lowercase], and a compiled regular expression as the number of
      its matches in a text; building one may fail. *)
  Variable to_lowercase : list Z -> list Z.
  Variable build_regex : list Z -> bool -> option (list Z -> Z).

(** [compile_regex]: [case_insensitive(!case_sensitive)]. *)
Definition compile_regex (r : ClassificationRule) : option (list Z -> Z) :=
  build_regex (pattern r) (negb (case_sensitive r)).
Definition is_valid (r : ClassificationRule) : bool :=
  match match_kind r with Contains => true | Regex => bool_decide (is_Some (compile_regex r)) end.

Inductive RuleMatcher :=
| MContains (needle : list Z)
| MRegex (count : list Z -> Z)
| MInvalidRegex.
Record CompiledRule := mkCompiled { rule : ClassificationRule; matcher : RuleMatcher }.

Definition compile_rule (r : ClassificationRule) : CompiledRule :=
  mkCompiled r
    match match_kind r with
    | Contains => MContains (if case_sensitive r then contains r else to_lowercase (contains r))
    | Regex => match compile_regex r with Some re => MRegex re | None => MInvalidRegex end
    end.
Definition rule_matches (c : CompiledRule) (text : list Z) : option ClassificationMatch :=
  let count :=
    match matcher c with
    | MContains needle =>
        count_substrings (if case_sensitive (rule c) then text else to_lowercase text) needle
    | MRegex re => re text
    | MInvalidRegex => 0
    end in
  if 0 <? count then Some (mkMatch (match_kind (rule c)) (pattern (rule c)) (tag (rule c)) count) else None.

Definition compile (l : LogClassifier) : list CompiledRule := map compile_rule (List.filter is_active l).
Definition matches_for_text (rs : list CompiledRule) (text : list Z) : list ClassificationMatch :=
  omap (fun c => rule_matches c text) rs.

(** The loop over a [BTreeSet] of tags seen and an output. *)
Fixpoint push_new (seen out tags : list (list Z)) : list (list Z) :=
  match tags with
  | [] => out
  | t :: tags' =>
      if bool_decide (t ∈ seen) then push_new seen out tags' else push_new (t :: seen) (out ++ [t]) tags'
  end.
Definition tags_for_text (rs : list CompiledRule) (text : list Z) : list (list Z) :=
  push_new [] [] (map c_tag (matches_for_text rs text)).

(** [ClassifyingDecoder::decode] over a decoder. *)
Definition classifying_decode (inner : list Z -> result (option Record_)) (l : LogClassifier) (frame : list Z)
  : result (option Record_) :=
  let* o := inner frame in
  match o with
  | None => Ok None
  | Some r =>
      Ok (Some match text r with
               | None => r
               | Some t =>
                   mkRecord (schema_id r) (level r) (text r) (fields r)
                     (push_new (tags r) (tags r) (tags_for_text (compile l) t)) (correlation_id r)
               end)
  end.
End Classify.

(** ** detect/content.rs *)
Inductive DetectionMode := Configured | AutoDetect | Suggest | Off.
#[export] Instance DetectionMode_eq_dec : EqDecision DetectionMode.
Proof. solve_decision. Defined.
Definition mode_as_str (m : DetectionMode) : list Z :=
  lit match m with Configured => "configured" | AutoDetect => "auto" | Suggest => "suggest" | Off => "off" end.
Definition one_of (s : list Z) (ws : list string) : bool := existsb (fun w => str_eqb s (lit w)) ws.
Definition mode_parse (v : list Z) : option DetectionMode :=
  let s := to_ascii_lowercase (trim v) in
  if one_of s ["configured"; "default"; "defaults"]%string then Some Configured
  else if one_of s ["auto"; "automatic"]%string then Some AutoDetect
  else if one_of s ["suggest"; "suggestion"; "suggestions"]%string then Some Suggest
  else if one_of s ["off"; "none"; "disabled"]%string then Some Off
  else None.

Definition SUPPORTED_TEXT_ENCODINGS : list (list Z) :=
  [lit "utf-8"; lit "shift_jis"; lit "cp932"; lit "euc-jp"; lit "iso-2022-jp"].
Definition DEFAULT_MAX_SAMPLE_BYTES : Z := 64 * 1024.
Definition DEFAULT_MIN_ENCODING_CONFIDENCE : Z := 80.
Definition DEFAULT_MIN_ENCODING_DELTA : Z := 8.

Record EncodingCandidate := mkCand { e_label : list Z; confidence : Z; e_had_errors : bool; evidence : list (list Z) }.
Record LogTypeCandidate := mkLogType { lt_tag : list Z; lt_kind : MatchKind; lt_pattern : list Z; lt_count : Z; lt_confidence : Z }.
Record DetectionSettings := mkSettings {
  d_mode : DetectionMode; d_configured : list Z; d_classifier : LogClassifier; min_confidence : Z; min_delta : Z }.
Record DetectionReport := mkReport {
  rp_mode : DetectionMode; sample_bytes : Z; rp_configured : list Z; effective : list Z; sampled : list Z;
  enc_candidates : list EncodingCandidate; log_candidates : list LogTypeCandidate }.

Definition canonical_encoding_label (v : list Z) : list Z :=
  let n := to_ascii_lowercase (trim v) in
  if bool_decide (n ∈ SUPPORTED_TEXT_ENCODINGS) then n else lit "utf-8".
Definition label_rank (l : list Z) : Z :=
  match position (str_eqb l) SUPPORTED_TEXT_ENCODINGS with Some i => Z.of_nat i | None => usize_max end.
Definition encoding_family (l : list Z) : list Z :=
  if str_eqb l (lit "shift_jis") || str_eqb l (lit "cp932") then lit "shift-jis-family" else l.

Fixpoint looks_like_iso_2022_jp (s : list Z) : bool :=
  match s with
  | a :: ((b :: c :: _) as s') =>
      (a =? 27) && (((b =? 36) && ((c =? 66) || (c =? 64))) || ((b =? 40) && ((c =? 66) || (c =? 74))))
      || looks_like_iso_2022_jp s'
  | _ => false
  end.
Definition is_japanese (c : Z) : bool :=
  in_range 0x3040 0x30FF c || in_range 0x3400 0x4DBF c || in_range 0x4E00 0x9FFF c || in_range 0xFF66 0xFF9F c.
Definition has_japanese_text (t : list Z) : bool := existsb is_japanese t.

Definition count_chars (p : Z -> bool) (t : list Z) : Z := zlen (List.filter p t).
Definition is_bad_control (c : Z) : bool :=
  is_control c && negb ((c =? 13) || (c =? 10) || (c =? 9)).
(** [u8] arithmetic: [saturating_add], [saturating_sub]. *)
Definition u8_add (a b : Z) : Z := sat_add 0 u8_max a b.
Definition u8_sub (a b : Z) : Z := sat_sub 0 u8_max a b.

Definition text_confidence (sample t : list Z) (had_errors : bool) : Z * list (list Z) :=
  let total := Z.max (zlen t) 1 in
  let replacement_chars := count_chars (fun c => c =? replacement) t in
  let control_chars := count_chars is_bad_control t in
  let printable := sat_sub 0 usize_max total (replacement_chars + control_chars) in
  let ratio := (printable * 100 / total) mod 256 in
  let c1 := Z.min (u8_add (if had_errors then 28 else 68) (ratio / 4)) 100 in
  let e1 := [lit (if had_errors then "decode-errors" else "decode-clean")] in
  let '(c2, e2) := if 0 <? replacement_chars
                   then (u8_sub c1 (Z.min replacement_chars 5 * 8), e1 ++ [lit "replacement-chars"]) else (c1, e1) in
  let '(c3, e3) := if 0 <? control_chars
                   then (u8_sub c2 (Z.min control_chars 8 * 4), e2 ++ [lit "control-chars"]) else (c2, e2) in
  if existsb (fun b => b =? 0) sample then (Z.min c3 25, e3 ++ [lit "nul-bytes"]) else (c3, e3).

Definition log_type_confidence (count : Z) : Z := Z.min (u8_add 55 (Z.min count 3 * 15)) 100.

Section Content.
  (** [codec::decode]: the text of bytes under an encoding label, and whether
      some were malformed. *)
  Variable decode_label : list Z -> list Z -> list Z * bool.
  Variable to_lowercase : list Z -> list Z.
  Variable build_regex : list Z -> bool -> option (list Z -> Z).

Definition score_encoding (sample label : list Z) : EncodingCandidate :=
  match sample with
  | [] => mkCand label 0 false [lit "empty-sample"]
  | _ =>
      let '(t, had_errors) := decode_label sample label in
      let '(c0, e0) := text_confidence sample t had_errors in
      let '(c1, e1) := if str_eqb label (lit "utf-8") && starts_with [0xEF; 0xBB; 0xBF] sample
                       then (Z.max c0 100, e0 ++ [lit "utf8-bom"]) else (c0, e0) in
      let '(c2, e2) := if str_eqb label (lit "iso-2022-jp") && looks_like_iso_2022_jp sample
                       then (Z.max c1 95, e1 ++ [lit "iso-2022-jp-escape"]) else (c1, e1) in
      let '(c3, e3) := if str_eqb label (lit "utf-8") && bool_decide (is_Some (from_utf8 sample)) && negb had_errors
                       then (Z.min (u8_add c2 4) 100, e2 ++ [lit "valid-utf8"]) else (c2, e2) in
      let '(c4, e4) := if has_japanese_text t
                       then (Z.min (u8_add c3 4) 100, e3 ++ [lit "japanese-text"]) else (c3, e3) in
      mkCand label c4 had_errors e4
  end.

(** The comparison of [sort_by]: higher confidence first, then the list order. *)
Definition cand_le (a b : EncodingCandidate) : Prop :=
  confidence b < confidence a \/ (confidence a = confidence b /\ label_rank (e_label a) <= label_rank (e_label b)).
#[export] Instance cand_le_dec a b : Decision (cand_le a b).
Proof. unfold cand_le. apply _. Defined.
(** A stable sort: an element stays in front of the later ones it ties with. *)
Fixpoint insert_cand (x : EncodingCandidate) (l : list EncodingCandidate) : list EncodingCandidate :=
  match l with
  | [] => [x]
  | y :: l' => if decide (cand_le x y) then x :: l else y :: insert_cand x l'
  end.
Definition sort_cands (l : list EncodingCandidate) : list EncodingCandidate := foldr insert_cand [] l.

Definition detect_encodings (sample : list Z) : list EncodingCandidate :=
  sort_cands (map (score_encoding sample) SUPPORTED_TEXT_ENCODINGS).

Definition detect_log_types (sample encoding : list Z) (cl : LogClassifier) : list LogTypeCandidate :=
  if is_nil sample || is_nil cl then []
  else
    let '(t, had_errors) := decode_label sample encoding in
    if had_errors && is_nil t then []
    else map (fun m => mkLogType (c_tag m) (c_kind m) (c_pattern m) (c_count m) (log_type_confidence (c_count m)))
           (matches_for_text to_lowercase (compile to_lowercase build_regex cl) t).

Definition effective_encoding (configured : list Z) (cands : list EncodingCandidate) (s : DetectionSettings) : list Z :=
  if negb (bool_decide (d_mode s = AutoDetect)) then configured
  else match cands with
       | [] => configured
       | best :: rest =>
           let second :=
             match List.find (fun c => negb (str_eqb (encoding_family (e_label c)) (encoding_family (e_label best)))) rest with
             | Some c => confidence c
             | None => 0
             end in
           if (min_confidence s <=? confidence best) && (min_delta s <=? u8_sub (confidence best) second)
           then e_label best else configured
       end.

Definition sampled_encoding (configured : list Z) (cands : list EncodingCandidate) (s : DetectionSettings) : list Z :=
  if bool_decide (d_mode s = Configured) then configured
  else match cands with
       | c :: _ => if min_confidence s <=? confidence c then e_label c else configured
       | [] => configured
       end.

Definition detect_content (sample : list Z) (s : DetectionSettings) : DetectionReport :=
  let configured := canonical_encoding_label (d_configured s) in
  let sample := take (Z.to_nat (Z.min (zlen sample) DEFAULT_MAX_SAMPLE_BYTES)) sample in
  if bool_decide (d_mode s = Off) then mkReport (d_mode s) (zlen sample) configured configured configured [] []
  else
    let cands := detect_encodings sample in
    let eff := effective_encoding configured cands s in
    let smp := sampled_encoding configured cands s in
    let lts := match d_mode s with
               | AutoDetect | Suggest => detect_log_types sample smp (d_classifier s)
               | Configured | Off => []
               end in
    mkReport (d_mode s) (zlen sample) configured eff smp cands lts.
End Content.

(** ** The classifier adds the tags of the matching rules *)

(** Reference: the first occurrence of each element. *)
Definition firsts {A} `{EqDecision A} (l : list A) : list A := reverse (remove_dups (reverse l)).

Lemma elem_firsts {A} `{EqDecision A} (l : list A) x : x ∈ firsts l <-> x ∈ l.
Proof. unfold firsts. by rewrite elem_of_reverse, elem_of_remove_dups, elem_of_reverse. Qed.
Lemma NoDup_firsts {A} `{EqDecision A} (l : list A) : NoDup (firsts l).
Proof. unfold firsts. rewrite reverse_Permutation. apply NoDup_remove_dups. Qed.
Lemma firsts_snoc {A} `{EqDecision A} (l : list A) x :
  firsts (l ++ [x]) = if decide (x ∈ l) then firsts l else firsts l ++ [x].
Proof.
  unfold firsts. rewrite reverse_snoc. cbn [remove_dups]. destruct (decide_rel _ x (reverse l)) as [H | H];
    rewrite elem_of_reverse in H; [by rewrite decide_True | rewrite decide_False by done; apply reverse_cons].
Qed.

Lemma firsts_idem {A} `{EqDecision A} (l : list A) : firsts (firsts l) = firsts l.
Proof.
  unfold firsts. rewrite reverse_involutive. f_equal.
  generalize (NoDup_remove_dups (reverse l)). generalize (remove_dups (reverse l)).
  induction 1; [done|]. cbn [remove_dups]. destruct (decide_rel _ _ _); [done | by f_equal].
Qed.

Lemma push_new_snoc tags : forall seen out t,
  push_new seen out (tags ++ [t]) =
  if decide (t ∈ seen \/ t ∈ tags) then push_new seen out tags else push_new seen out tags ++ [t].
Proof.
  induction tags as [|u tags IH]; intros seen out t; cbn [app push_new].
  - repeat case_bool_decide; repeat case_decide; set_solver.
  - case_bool_decide; rewrite IH; repeat case_decide; set_solver.
Qed.
Lemma push_new_spec seen out tags :
  push_new seen out tags = out ++ filter (fun t => t ∉ seen) (firsts tags).
Proof.
  induction tags as [|t tags IH] using rev_ind; [by rewrite app_nil_r|].
  rewrite push_new_snoc, firsts_snoc, IH.
  destruct (decide (t ∈ tags)); [rewrite decide_True by auto; done|].
  destruct (decide (t ∈ seen)) as [H | H]; rewrite filter_app, filter_cons, filter_nil.
  - rewrite decide_True by auto. rewrite (decide_False (P := t ∉ seen)) by (intros H'; done).
    by rewrite app_nil_r.
  - rewrite decide_False by tauto. rewrite (decide_True (P := t ∉ seen)) by done. by rewrite app_assoc.
Qed.
Lemma filter_all {A} (P : A -> Prop) `{forall x, Decision (P x)} (l : list A) : Forall P l -> filter P l = l.
Proof. induction 1; [done|]. rewrite filter_cons_True by done. by f_equal. Qed.

(** [matches_for_text] finds something exactly when the text contains the needle. *)
Lemma contains_cons pat c s : contains_str pat (c :: s) = starts_with pat (c :: s) || contains_str pat s.
Proof.
  unfold contains_str. cbn [find_str]. destruct (starts_with pat (c :: s)); [done|]. cbn [orb].
  by destruct (find_str pat s).
Qed.
Lemma count_go_pos pat s : pat <> [] -> (0 <? Z.of_nat (count_go pat O s)) = contains_str pat s.
Proof.
  intros Hp. induction s as [|c s IH]; [by destruct pat|].
  rewrite contains_cons. cbn [count_go]. destruct (starts_with pat (c :: s)); [reflexivity | apply IH].
Qed.

Section Classify_spec.
  Variable to_lowercase : list Z -> list Z.
  Variable build_regex : list Z -> bool -> option (list Z -> Z).

(** What it means for a rule to match a text. *)
Definition fold_case (r : ClassificationRule) (s : list Z) : list Z := if case_sensitive r then s else to_lowercase s.
Definition rule_hits (r : ClassificationRule) (t : list Z) : Prop :=
  is_active r = true /\
  match match_kind r with
  | Contains => fold_case r (contains r) <> [] /\ contains_str (fold_case r (contains r)) (fold_case r t) = true
  | Regex => exists re, build_regex (pattern r) (negb (case_sensitive r)) = Some re /\ 0 < re t
  end.

Lemma rule_matches_spec r t m :
  rule_matches to_lowercase (compile_rule to_lowercase build_regex r) t = Some m ->
  c_tag m = tag r /\ c_kind m = match_kind r /\ c_pattern m = pattern r /\ 0 < c_count m.
Proof.
  unfold rule_matches. intros H. destruct (Z.ltb_spec 0
    match matcher (compile_rule to_lowercase build_regex r) with
    | MContains needle => count_substrings
        (if case_sensitive (rule (compile_rule to_lowercase build_regex r)) then t else to_lowercase t) needle
    | MRegex re => re t
    | MInvalidRegex => 0 end); [|done]. simplify_eq. done.
Qed.
Lemma rule_matches_hits r t : is_active r = true ->
  is_Some (rule_matches to_lowercase (compile_rule to_lowercase build_regex r) t) <-> rule_hits r t.
Proof.
  intros Ha. unfold rule_matches, compile_rule, rule_hits, fold_case, compile_regex. cbn [matcher rule].
  destruct (match_kind r).
  - unfold count_substrings. set (n := if case_sensitive r then contains r else to_lowercase (contains r)).
    set (h := if case_sensitive r then t else to_lowercase t). destruct n as [|c n'] eqn:En.
    + split; [intros [? ?]; done | intros (_ & H & _); done].
    + rewrite count_go_pos by done. destruct (contains_str _ _); split; [by intros| by eauto |by intros [? ?]|].
      by intros (_ & _ & ?).
  - destruct (build_regex _ _) as [re|] eqn:E.
    + destruct (Z.ltb_spec 0 (re t)); split; [by eauto | by eauto | by intros [? ?] |].
      intros (_ & re' & E' & ?). simplify_eq. lia.
    + split; [by intros [? ?] | by intros (_ & ? & ? & _)].
Qed.

Lemma matching_tags l t x :
  x ∈ map c_tag (matches_for_text to_lowercase (compile to_lowercase build_regex l) t) <->
  exists r, r ∈ l /\ tag r = x /\ rule_hits r t.
Proof.
  unfold matches_for_text, compile. rewrite list_elem_of_fmap. setoid_rewrite list_elem_of_omap.
  setoid_rewrite list_elem_of_fmap. split.
  - intros (m & -> & c & (r & -> & Hr) & Hm). apply list_elem_of_In, List.filter_In in Hr as [Hr Ha].
    exists r. split; [by apply list_elem_of_In|]. destruct (rule_matches_spec _ _ _ Hm) as [-> _].
    split; [done|]. apply rule_matches_hits; eauto.
  - intros (r & Hr & <- & Hh). pose proof Hh as [Ha _]. apply rule_matches_hits in Hh as [m Hm]; [|done].
    exists m. destruct (rule_matches_spec _ _ _ Hm) as [-> _]. split; [done|].
    exists (compile_rule to_lowercase build_regex r). split; [|done]. exists r. split; [done|].
    by apply list_elem_of_In, List.filter_In; rewrite <- list_elem_of_In.
Qed.

(** A classifying decoder returns the wrapped decoder's record with only
    its tags changed: the tags it had stay in front, behind them come the tags
    of exactly the active rules that match the text, each once, in the order
    of the first rule that gives it; without duplicates before there are none
    after. *)
Theorem classifying_decoder_tags inner l frame r t :
  inner frame = Ok (Some r) -> text r = Some t ->
  exists new,
    classifying_decode to_lowercase build_regex inner l frame =
      Ok (Some (mkRecord (schema_id r) (level r) (text r) (fields r) (tags r ++ new) (correlation_id r))) /\
    new = filter (fun x => x ∉ tags r)
            (firsts (map c_tag (matches_for_text to_lowercase (compile to_lowercase build_regex l) t))) /\
    (forall x, x ∈ tags r ++ new <-> x ∈ tags r \/ exists k, k ∈ l /\ tag k = x /\ rule_hits k t) /\
    (NoDup (tags r) -> NoDup (tags r ++ new)).
Proof.
  intros Hi Ht. eexists. unfold classifying_decode. rewrite Hi. cbn [mbind res_bind]. rewrite Ht.
  unfold tags_for_text. rewrite !push_new_spec. cbn [app].
  rewrite (filter_all (fun x => x ∉ [])) by (apply Forall_forall; set_solver).
  set (ms := map c_tag _). rewrite firsts_idem.
  split; [done|]. split; [done|]. split.
  - intros x. rewrite elem_of_app, list_elem_of_filter, elem_firsts. unfold ms. rewrite matching_tags.
    destruct (decide (x ∈ tags r)); tauto.
  - intros Hn. apply NoDup_app. split; [done|]. split; [|apply NoDup_filter, NoDup_firsts].
    intros x Hx. rewrite list_elem_of_filter. tauto.
Qed.
End Classify_spec.

(** A rule "ERR" and a rule with an unusable expression over a line. *)
Lemma classifying_decoder_tags_witness :
  exists new,
    classifying_decode to_ascii_lowercase (fun _ _ => None) (fun f => Ok (passthrough_decode f))
      [mkRule (lit "ERR") None (lit "error") false; mkRule [] (Some (lit "(")) (lit "bad") false;
       mkRule (lit "or") None (lit "error") true] (lit "an error") =
      Ok (Some (mkRecord None None (Some (lit "an error")) VNull new None)) /\ new = [lit "error"].
Proof.
  destruct (classifying_decoder_tags to_ascii_lowercase (fun _ _ => None) (fun f => Ok (passthrough_decode f))
      [mkRule (lit "ERR") None (lit "error") false; mkRule [] (Some (lit "(")) (lit "bad") false;
       mkRule (lit "or") None (lit "error") true] (lit "an error")
      (text_record (lit "an error") VNull []) (lit "an error"))
    as (new & Hd & Hn & _); [vm_compute; reflexivity | reflexivity |].
  exists new. split; [exact Hd|]. rewrite Hn. vm_compute. reflexivity.
Defined.

(** ** Content detection is conservative *)
Lemma u8_add_bound a b : 0 <= a -> 0 <= b -> 0 <= u8_add a b <= 255.
Proof. unfold u8_add, sat_add, clampz, u8_max. lia. Qed.
Lemma u8_sub_bound a b h : 0 <= a <= h -> 0 <= b -> 0 <= u8_sub a b <= h.
Proof. unfold u8_sub, sat_sub, clampz, u8_max. lia. Qed.

Lemma text_confidence_bound sample t e : 0 <= fst (text_confidence sample t e) <= 100.
Proof.
  unfold text_confidence.
  set (total := Z.max (zlen t) 1). set (rc := count_chars _ t). set (cc := count_chars is_bad_control t).
  assert (0 <= rc /\ 0 <= cc) by (unfold rc, cc, count_chars; zlia).
  set (ratio := (_ * 100 / total) mod 256).
  assert (Hr : 0 <= ratio) by (apply Z.mod_pos_bound; lia).
  assert (Hc1 : 0 <= Z.min (u8_add (if e then 28 else 68) (ratio / 4)) 100 <= 100).
  { assert (0 <= ratio / 4) by (apply Z.div_pos; lia).
    pose proof (u8_add_bound (if e then 28 else 68) (ratio / 4)). destruct e; lia. }
  revert Hc1. generalize (Z.min (u8_add (if e then 28 else 68) (ratio / 4)) 100). intros c1 Hc1.
  assert (Hc2 : 0 <= u8_sub c1 (Z.min rc 5 * 8) <= 100) by (apply u8_sub_bound; lia).
  assert (Hc3 : forall c, 0 <= c <= 100 -> 0 <= u8_sub c (Z.min cc 8 * 4) <= 100) by (intros; apply u8_sub_bound; lia).
  pose proof (Hc3 c1 Hc1). pose proof (Hc3 _ Hc2).
  destruct (0 <? rc); destruct (0 <? cc); destruct (existsb _ sample); cbn [fst]; lia.
Qed.

Lemma bump_bound c : 0 <= c <= 100 -> 0 <= Z.min (u8_add c 4) 100 <= 100.
Proof. intros. pose proof (u8_add_bound c 4). lia. Qed.

Lemma insert_cand_perm x l : insert_cand x l ≡ₚ x :: l.
Proof.
  induction l as [|y l IH]; [done|]. cbn [insert_cand]. case_decide; [done|]. rewrite IH. constructor.
Qed.
Lemma sort_cands_perm l : sort_cands l ≡ₚ l.
Proof. induction l as [|x l IH]; [done|]. cbn [sort_cands foldr]. rewrite insert_cand_perm. by constructor. Qed.
#[export] Instance cand_le_trans : Transitive cand_le.
Proof. intros a b c. unfold cand_le. lia. Qed.
Lemma cand_le_total a b : ~ cand_le a b -> cand_le b a.
Proof. unfold cand_le. lia. Qed.
Lemma insert_cand_sorted x l : StronglySorted cand_le l -> StronglySorted cand_le (insert_cand x l).
Proof.
  induction 1 as [|y l Hs IH Hy]; cbn [insert_cand]; [by repeat constructor|].
  case_decide as Hx; constructor; [by constructor | | done |].
  - constructor; [done|]. eapply Forall_impl; [exact Hy|]. intros z Hz. by transitivity y.
  - rewrite insert_cand_perm. constructor; [by apply cand_le_total | done].
Qed.
Lemma sort_cands_sorted l : StronglySorted cand_le (sort_cands l).
Proof. induction l; [constructor | by apply insert_cand_sorted]. Qed.

Section Content_spec.
  Variable decode_label : list Z -> list Z -> list Z * bool.
  Variable to_lowercase : list Z -> list Z.
  Variable build_regex : list Z -> bool -> option (list Z -> Z).
Local Notation detect := (detect_content decode_label to_lowercase build_regex).
Local Notation score := (score_encoding decode_label).

Lemma score_encoding_label sample l : e_label (score sample l) = l.
Proof. unfold score_encoding. destruct sample; [done|]. by repeat case_match. Qed.
Lemma score_encoding_bound sample l : 0 <= confidence (score sample l) <= 100.
Proof.
  unfold score_encoding. destruct sample as [|b s]; [cbn; lia|].
  destruct (decode_label (b :: s) l) as [t e]. pose proof (text_confidence_bound (b :: s) t e) as H0.
  destruct (text_confidence (b :: s) t e) as [c0 e0]. cbn [fst] in H0.
  assert (H1 : 0 <= Z.max c0 100 <= 100) by lia.
  assert (H2 : forall c, 0 <= c <= 100 -> 0 <= Z.max c 95 <= 100) by lia.
  repeat case_match; simplify_eq; cbn [confidence]; auto using bump_bound.
Qed.

(** A candidate that leads every candidate of another family by [d]. *)
Definition leads (cands : list EncodingCandidate) (b : EncodingCandidate) (d : Z) : Prop :=
  forall c, c ∈ cands -> encoding_family (e_label c) <> encoding_family (e_label b) -> confidence c + d <= confidence b.

Lemma sorted_find_max p best rest c0 : StronglySorted cand_le (best :: rest) ->
  List.find p rest = Some c0 -> forall c, c ∈ rest -> p c = true -> confidence c <= confidence c0.
Proof.
  intros Hs. apply StronglySorted_inv in Hs as [Hs _].
  induction Hs as [|y l Hs IH Hy]; [done|]. cbn [List.find]. destruct (p y) eqn:E.
  - intros ? c Hc _. simplify_eq. apply elem_of_cons in Hc as [-> | Hc]; [done|].
    rewrite Forall_forall in Hy. specialize (Hy c Hc). unfold cand_le in Hy. lia.
  - intros Hf c Hc Hp. apply elem_of_cons in Hc as [-> | Hc]; [congruence|]. by apply IH.
Qed.

Lemma effective_lead configured best rest st :
  StronglySorted cand_le (best :: rest) -> Forall (fun c => 0 <= confidence c <= 100) (best :: rest) ->
  0 <= min_delta st -> d_mode st = AutoDetect ->
  (min_confidence st <= confidence best /\ (forall c, c ∈ rest -> encoding_family (e_label c) <> encoding_family (e_label best) ->
     confidence c + min_delta st <= confidence best) /\ min_delta st <= confidence best ->
   effective_encoding configured (best :: rest) st = e_label best) /\
  (effective_encoding configured (best :: rest) st <> configured ->
   effective_encoding configured (best :: rest) st = e_label best /\
   min_confidence st <= confidence best /\ leads (best :: rest) best (min_delta st)).
Proof.
  intros Hs Hb Hd Hm. unfold effective_encoding. rewrite bool_decide_eq_true_2 by done. cbn [negb].
  rewrite Forall_forall in Hb. pose proof (Hb best ltac:(left)) as Hbest.
  destruct (List.find _ rest) as [c0|] eqn:Hf.
  - pose proof (List.find_some _ _ Hf) as [Hin Hp]. rewrite <- list_elem_of_In in Hin.
    pose proof (Hb c0 ltac:(by right)). rewrite negb_true_iff in Hp. apply bool_decide_eq_false_1 in Hp.
    split.
    + intros (Hc & Hl & _). specialize (Hl c0 Hin Hp). unfold u8_sub, sat_sub, clampz, u8_max.
      rewrite (proj2 (Z.leb_le _ _)) by lia. by rewrite (proj2 (Z.leb_le _ _)) by lia.
    + destruct (Z.leb_spec (min_confidence st) (confidence best)); [|done].
      destruct (Z.leb_spec (min_delta st) (u8_sub (confidence best) (confidence c0))) as [Hl|]; [|done].
      cbn [andb]. intros _. split; [done|]. split; [done|]. intros c Hc Hfam.
      apply elem_of_cons in Hc as [-> | Hc]; [done|].
      pose proof (sorted_find_max _ _ _ _ Hs Hf c Hc) as Hmax. cbv beta in Hmax.
      unfold str_eqb in Hmax. rewrite bool_decide_eq_false_2 in Hmax by done. specialize (Hmax eq_refl).
      apply StronglySorted_inv in Hs as [_ Hs]. rewrite Forall_forall in Hs. specialize (Hs _ Hc). unfold cand_le in Hs.
      pose proof (Hb c ltac:(by right)).
      unfold u8_sub, sat_sub, clampz, u8_max in Hl. lia.
  - split.
    + intros (Hc & _ & Hl). unfold u8_sub, sat_sub, clampz, u8_max.
      rewrite (proj2 (Z.leb_le _ _)) by lia. by rewrite (proj2 (Z.leb_le _ _)) by lia.
    + destruct (Z.leb_spec (min_confidence st) (confidence best)); [|done].
      destruct (_ <=? _); [|done]. intros _. split; [done|]. split; [done|]. intros c Hc Hfam.
      apply elem_of_cons in Hc as [-> | Hc]; [done|]. apply list_elem_of_In in Hc.
      pose proof (List.find_none _ _ Hf _ Hc) as Hn. cbv beta in Hn. unfold str_eqb in Hn.
      by rewrite bool_decide_eq_false_2 in Hn.
Qed.

Lemma detect_encodings_spec sample :
  let cands := detect_encodings decode_label sample in
  map e_label cands ≡ₚ SUPPORTED_TEXT_ENCODINGS /\ StronglySorted cand_le cands /\
  Forall (fun c => 0 <= confidence c <= 100) cands.
Proof.
  cbv zeta. unfold detect_encodings. split; [|split; [apply sort_cands_sorted|]].
  - change (fmap (M := list) e_label (sort_cands (map (score sample) SUPPORTED_TEXT_ENCODINGS)) ≡ₚ SUPPORTED_TEXT_ENCODINGS).
    rewrite sort_cands_perm. change (map e_label (map (score sample) SUPPORTED_TEXT_ENCODINGS) ≡ₚ SUPPORTED_TEXT_ENCODINGS).
    rewrite List.map_map, (List.map_ext _ (fun x => x)) by (intros; apply score_encoding_label).
    by rewrite List.map_id.
  - rewrite sort_cands_perm. apply Forall_forall. intros c Hc. apply list_elem_of_fmap in Hc as (l & -> & _).
    apply score_encoding_bound.
Qed.

(** The encodings are of several families. *)
Lemma other_family f : exists l, l ∈ SUPPORTED_TEXT_ENCODINGS /\ encoding_family l <> f.
Proof.
  destruct (decide (f = lit "utf-8")) as [-> | H].
  - exists (lit "euc-jp"). split; apply (bool_decide_unpack _); reflexivity.
  - exists (lit "utf-8"). split; [apply (bool_decide_unpack _); reflexivity | intros E; apply H; symmetry; exact E].
Qed.

Lemma auto_applies_leader configured cands st b :
  map e_label cands ≡ₚ SUPPORTED_TEXT_ENCODINGS -> StronglySorted cand_le cands ->
  Forall (fun c => 0 <= confidence c <= 100) cands ->
  0 < min_delta st -> d_mode st = AutoDetect -> b ∈ cands -> min_confidence st <= confidence b ->
  leads cands b (min_delta st) ->
  encoding_family (effective_encoding configured cands st) = encoding_family (e_label b).
Proof.
  intros Hperm Hs Hbd Hd Hm Hb Hc Hl.
  destruct cands as [|best rest]; [by apply not_elem_of_nil in Hb|].
  assert (Hle : confidence b <= confidence best).
  { apply elem_of_cons in Hb as [-> | Hb]; [done|]. apply StronglySorted_inv in Hs as [_ Hs].
    rewrite Forall_forall in Hs. specialize (Hs _ Hb). unfold cand_le in Hs. lia. }
  assert (Hfam : encoding_family (e_label best) = encoding_family (e_label b)).
  { destruct (decide (encoding_family (e_label best) = encoding_family (e_label b))) as [E | E]; [done|].
    specialize (Hl best ltac:(left) E). lia. }
  destruct (other_family (encoding_family (e_label b))) as (l & Hin & Hne).
  rewrite <- Hperm in Hin. apply list_elem_of_fmap in Hin as (c & -> & Hin).
  pose proof (Hl c Hin Hne). rewrite Forall_forall in Hbd. pose proof (Hbd c Hin).
  rewrite (proj1 (effective_lead configured best rest st Hs ltac:(by apply Forall_forall) ltac:(lia) Hm)); [done|].
  split; [lia|]. split; [|lia]. intros c' Hc' Hne'. rewrite Hfam in Hne'.
  specialize (Hl c' ltac:(by right) Hne'). lia.
Qed.

(** A detection pass looks at no more than 64 KiB and is conservative:
    outside automatic mode the configured encoding stays; the candidates are
    the supported encodings, sorted by confidence in 0 to 100; another encoding
    than the configured one is applied only if its confidence reaches the
    minimum and leads every candidate of another family by the minimal gap;
    and in automatic mode the family of such a leader is applied. *)
Theorem detection_conservative sample st : 0 <= min_delta st ->
  let rep := detect sample st in
  sample_bytes rep = Z.min (zlen sample) DEFAULT_MAX_SAMPLE_BYTES /\
  rp_configured rep = canonical_encoding_label (d_configured st) /\
  (d_mode st <> AutoDetect -> effective rep = rp_configured rep) /\
  (d_mode st <> Off ->
   map e_label (enc_candidates rep) ≡ₚ SUPPORTED_TEXT_ENCODINGS /\ StronglySorted cand_le (enc_candidates rep) /\
   Forall (fun c => 0 <= confidence c <= 100) (enc_candidates rep)) /\
  (effective rep <> rp_configured rep ->
   exists b, b ∈ enc_candidates rep /\ e_label b = effective rep /\ min_confidence st <= confidence b /\
     leads (enc_candidates rep) b (min_delta st)) /\
  (d_mode st = AutoDetect -> 0 < min_delta st -> forall b, b ∈ enc_candidates rep ->
   min_confidence st <= confidence b -> leads (enc_candidates rep) b (min_delta st) ->
   encoding_family (effective rep) = encoding_family (e_label b)).
Proof.
  intros Hd rep. unfold rep, detect_content.
  set (smp := take _ sample).
  assert (Hlen : zlen smp = Z.min (zlen sample) DEFAULT_MAX_SAMPLE_BYTES).
  { unfold smp, zlen. rewrite length_take. change DEFAULT_MAX_SAMPLE_BYTES with 65536. lia. }
  destruct (detect_encodings_spec smp) as (Hperm & Hs & Hbd).
  case_bool_decide as Hoff; cbn [sample_bytes rp_configured effective enc_candidates].
  { repeat split; try done; congruence. }
  split; [done|]. split; [done|]. split; [|split; [done|split]].
  - intros Hm. unfold effective_encoding. by rewrite bool_decide_eq_false_2.
  - destruct (decide (d_mode st = AutoDetect)) as [Hm|Hm].
    + destruct (detect_encodings decode_label smp) as [|best rest];
        [by apply Permutation_nil_l in Hperm|].
      intros He. destruct (proj2 (effective_lead _ best rest st Hs Hbd Hd Hm) He) as (E & Hc & Hl).
      exists best. split; [left|]. done.
    + unfold effective_encoding. by rewrite bool_decide_eq_false_2.
  - intros Hm Hp b Hb Hc Hl. by apply auto_applies_leader.
Qed.
End Content_spec.

(** Plain ASCII under an ASCII decoder that rejects escape sequences for the
    other encodings: automatic mode applies UTF-8 over the configured one. *)
Definition ascii_decoder (bytes label : list Z) : list Z * bool :=
  if str_eqb label (lit "utf-8") then (bytes, false) else ([replacement], true).
Lemma detection_conservative_witness :
  exists b, b ∈ enc_candidates (detect_content ascii_decoder (fun t => t) (fun _ _ => None) (lit "hello")
                  (mkSettings AutoDetect (lit "euc-jp") [] 80 8)) /\
    e_label b = lit "utf-8" /\ 80 <= confidence b.
Proof.
  destruct (detection_conservative ascii_decoder (fun t => t) (fun _ _ => None) (lit "hello")
    (mkSettings AutoDetect (lit "euc-jp") [] 80 8) ltac:(cbn; lia)) as (_ & _ & _ & _ & He & _).
  destruct He as (b & Hb & Hl & Hc & _); [vm_compute; done|].
  exists b. split; [exact Hb|]. split; [|exact Hc]. rewrite Hl. vm_compute. reflexivity.
Defined.

(** Finding: Finding: suggestion mode is documented to keep the configured values
    active, but a configured label outside the five detection labels, such as
    "sjis", a name of Shift_JIS the decoder understands, is replaced by UTF-8
    in the report, and the source is decoded with the report's encoding. *)
Theorem suggest_replaces_label decode_label to_lowercase build_regex sample :
  let st := mkSettings Suggest (lit "sjis") [] DEFAULT_MIN_ENCODING_CONFIDENCE DEFAULT_MIN_ENCODING_DELTA in
  effective (detect_content decode_label to_lowercase build_regex sample st) = lit "utf-8" /\
  d_configured st <> effective (detect_content decode_label to_lowercase build_regex sample st).
Proof. vm_compute. by split. Qed.
