(* ===== verification/Manager.v ===== *)
(** * The source manager

    crates/server/src/source_manager.rs: sources are started, stopped, resumed,
    restarted and removed while their runner tasks proceed on their own.  A
    lifecycle call holds the lock of the source table only for short sections
    and awaits between them; each section is a function here, calls in flight
    are part of the state and the interleavings are those of [step].  Opening
    transports, tokio's tasks and the operating system's clock are answers of
    the environment ([World]); a task is known by its number. *)
From stdpp Require Import base numbers strings gmap sorting list.
From S2P Require Import Prelude Text Sessions Naming Spec Decoder Runner Detect.

Local Open Scope Z_scope.
Local Open Scope tm_scope.

(** ** Detection looks at the first frames and puts them back *)
Module Prefetch.
Section Prefetch.
  Context {S : Type} `{!Source S}.

Record PrefetchedSource := mkPrefetched { inner : S; prefetched : list Frame; opened : bool }.
Definition unopened (s : S) : PrefetchedSource := mkPrefetched s [] false.

#[global] Instance PrefetchedSource_source : Source PrefetchedSource := {
  src_open := fun p =>
    if opened p then (p, Ok tt)
    else
      let '(s, r) := src_open (inner p) in
      match r with
      | Ok _ => (mkPrefetched s (prefetched p) true, Ok tt)
      | Err e => (mkPrefetched s (prefetched p) false, Err e)
      | Panic => (mkPrefetched s (prefetched p) false, Panic)
      end;
  src_recv := fun p =>
    match prefetched p with
    | f :: q => (mkPrefetched (inner p) q (opened p), Ok (Some f))
    | [] => let '(s, r) := src_recv (inner p) in (mkPrefetched s [] (opened p), r)
    end;
  src_metadata := fun p => src_metadata (inner p);
  src_close := fun p =>
    let '(s, r) := src_close (inner p) in (mkPrefetched s (prefetched p) false, r)
}.

(** Every kind of frame carries bytes. *)
Definition frame_bytes (f : Frame) : option (list Z) := Some (frame_payload f).

  (** Whether the n-th receive times out, and the source after a receive that
      was dropped in the middle. *)
  Variable timeout : nat -> bool.
  Variable cancelled : S -> S.

Fixpoint prefetch_loop (fuel n : nat) (s : S) (pre : list Frame) (sample : list Z)
  : option (S * result (list Frame * list Z)) :=
  if negb (zlen sample <? DEFAULT_MAX_SAMPLE_BYTES) then Some (s, Ok (pre, sample))
  else match fuel with
  | O => None
  | Datatypes.S fuel' =>
      if timeout n then Some (cancelled s, Ok (pre, sample))
      else
        let '(s1, r) := src_recv s in
        match r with
        | Ok None => Some (s1, Ok (pre, sample))
        | Err e => Some (s1, Err e)
        | Panic => Some (s1, Panic)
        | Ok (Some fr) =>
            let sample' :=
              match frame_bytes fr with
              | Some b =>
                  let remaining := sat_sub 0 usize_max DEFAULT_MAX_SAMPLE_BYTES (zlen sample) in
                  sample ++ take (Z.to_nat (Z.min (zlen b) remaining)) b
              | None => sample
              end in
            prefetch_loop fuel' (Datatypes.S n) s1 (pre ++ [fr]) sample'
        end
  end.

  Variable decode_label : list Z -> list Z -> list Z * bool.
  Variable to_lowercase : list Z -> list Z.
  Variable build_regex : list Z -> bool -> option (list Z -> Z).

Definition detection_settings (mode : DetectionMode) (configured : list Z) (cl : LogClassifier) : DetectionSettings :=
  mkSettings mode configured cl DEFAULT_MIN_ENCODING_CONFIDENCE DEFAULT_MIN_ENCODING_DELTA.
Definition samples (mode : DetectionMode) : bool := match mode with AutoDetect | Suggest => true | _ => false end.

Definition prefetch_for_detection (fuel : nat) (s : S) (mode : DetectionMode) (configured : list Z) (cl : LogClassifier)
  : option (result (PrefetchedSource * option DetectionReport)) :=
  if negb (samples mode) then Some (Ok (unopened s, None))
  else
    let '(s1, r) := src_open s in
    match r with
    | Err e => Some (Err e)
    | Panic => Some Panic
    | Ok _ =>
        match prefetch_loop fuel 0 s1 [] [] with
        | None => None
        | Some (s2, Ok (pre, sample)) =>
            let report := detect_content decode_label to_lowercase build_regex sample
                            (detection_settings mode configured cl) in
            Some (Ok (mkPrefetched s2 pre true, Some report))
        | Some (_, Err e) => Some (Err e)
        | Some (_, Panic) => Some Panic
        end
    end.
End Prefetch.
Arguments PrefetchedSource : clear implicits.

(** The frames read from an open source until it ends or fails. *)
Fixpoint recv_all {S} `{!Source S} (fuel : nat) (s : S) : option (list Frame * result unit) :=
  match fuel with
  | O => None
  | Datatypes.S fuel' =>
      let '(s1, r) := src_recv s in
      match r with
      | Ok None => Some ([], Ok tt)
      | Ok (Some f) => (fun p => (f :: fst p, snd p)) <$> recv_all fuel' s1
      | Err e => Some ([], Err e)
      | Panic => Some ([], Panic)
      end
  end.

Section Transparent.
  Context {S : Type} `{!Source S}.
  Variable timeout : nat -> bool.
  Variable cancelled : S -> S.
  Variable decode_label : list Z -> list Z -> list Z * bool.
  Variable to_lowercase : list Z -> list Z.
  Variable build_regex : list Z -> bool -> option (list Z -> Z).

Lemma recv_all_prefetched fuel : forall (s : S) pre o,
  recv_all (length pre + fuel) (mkPrefetched s pre o) =
  (fun p => (pre ++ fst p, snd p)) <$> recv_all fuel s.
Proof.
  intros s pre o. induction pre as [|f pre IH]; cbn [length Nat.add app].
  - revert s. induction fuel as [|fuel IH]; intros s; [done|]. cbn [recv_all src_recv PrefetchedSource_source prefetched inner opened].
    destruct (src_recv s) as [s1 [[f|]|e|]]; [|done|done|done]. rewrite IH.
    by destruct (recv_all fuel s1) as [[fs r]|].
  - cbn [recv_all src_recv PrefetchedSource_source prefetched inner opened]. rewrite IH.
    by destruct (recv_all fuel s) as [[fs r]|].
Qed.

Lemma take_sample (sample b : list Z) m : zlen sample < m -> m <= usize_max ->
  sample ++ take (Z.to_nat (Z.min (zlen b) (sat_sub 0 usize_max m (zlen sample)))) b =
  take (Z.to_nat m) (sample ++ b).
Proof.
  intros H Hm. rewrite take_app. unfold sat_sub, clampz, zlen in *.
  rewrite (take_ge sample) by lia. f_equal.
  destruct (decide (Z.of_nat (length b) <= m - Z.of_nat (length sample))).
  - by rewrite !take_ge by lia.
  - f_equal. lia.
Qed.
Lemma take_of_take {A} n (a b : list A) : (length (take n a) < n)%nat -> take n (take n a ++ b) = take n (a ++ b).
Proof. intros H. rewrite length_take in H. by rewrite (take_ge a) by lia. Qed.
Definition first_bytes (m : Z) (fs : list Frame) : list Z := take (Z.to_nat m) (concat (map frame_payload fs)).
Local Notation sample_of := (first_bytes DEFAULT_MAX_SAMPLE_BYTES).
Lemma first_bytes_snoc m pre f : zlen (first_bytes m pre) < m ->
  first_bytes m (pre ++ [f]) = take (Z.to_nat m) (first_bytes m pre ++ frame_payload f).
Proof.
  intros H. unfold first_bytes in *. rewrite map_app, concat_app. cbn [map concat]. rewrite app_nil_r.
  symmetry. apply take_of_take. unfold zlen in H. lia.
Qed.
Lemma first_bytes_full m pre fs : m <= zlen (first_bytes m pre) -> first_bytes m pre = first_bytes m (pre ++ fs).
Proof.
  intros H. unfold first_bytes in *. rewrite map_app, concat_app, take_app_le; [done|].
  unfold zlen in H. rewrite length_take in H. lia.
Qed.

  Hypothesis cancel_safe : forall s, cancelled s = s.
  Hypothesis eof_sticky : forall s s', src_recv s = (s', Ok None) -> src_recv s' = (s', Ok None).

Lemma recv_all_eof fuel (s : S) : recv_all (Datatypes.S fuel) s = Some ([], Ok tt) ->
  exists s', src_recv s = (s', Ok None).
Proof using Type.
  cbn [recv_all]. destruct (src_recv s) as [s' [[f|]|e|]]; [|eauto|done|done].
  by destruct (recv_all fuel s') as [[fs r]|].
Qed.

(** The loop stops after some of the frames and the rest can still be read. *)
Lemma prefetch_loop_splits fuel : forall n s fs pre,
  recv_all fuel s = Some (fs, Ok tt) ->
  exists pre' rest s',
    prefetch_loop timeout cancelled fuel n s pre (sample_of pre) =
      Some (s', Ok (pre ++ pre', sample_of (pre ++ pre'))) /\
    fs = pre' ++ rest /\ recv_all (fuel - length pre') s' = Some (rest, Ok tt) /\ (length pre' < fuel)%nat /\
    ((forall m, timeout m = false) -> sample_of (pre ++ pre') = sample_of (pre ++ fs)).
Proof using cancel_safe eof_sticky.
  induction fuel as [|fuel IH]; intros n s fs pre H; [done|]. cbn [prefetch_loop].
  assert (Hstop : forall s', recv_all (Datatypes.S fuel) s' = Some (fs, Ok tt) ->
    (zlen (sample_of pre) >= DEFAULT_MAX_SAMPLE_BYTES \/ timeout n = true \/ fs = []) ->
    exists pre' rest s'', Some (s', Ok (pre, sample_of pre)) = Some (s'', Ok (E := ErrorId) (pre ++ pre', sample_of (pre ++ pre'))) /\
      fs = pre' ++ rest /\ recv_all (Datatypes.S fuel - length pre') s'' = Some (rest, Ok tt) /\ (length pre' < Datatypes.S fuel)%nat /\
      ((forall m, timeout m = false) -> sample_of (pre ++ pre') = sample_of (pre ++ fs))).
  { intros s' Hs' Hwhy. exists [], fs, s'. rewrite app_nil_r. cbn [length app]. rewrite Nat.sub_0_r.
    split; [reflexivity|]. split; [reflexivity|]. split; [exact Hs'|]. split; [lia|]. intros Ht.
    destruct Hwhy as [Hfull | [Hto | ->]]; [| by rewrite Ht in Hto | by rewrite app_nil_r].
    by apply first_bytes_full, Z.ge_le. }
  destruct (Z.ltb_spec (zlen (sample_of pre)) DEFAULT_MAX_SAMPLE_BYTES) as [Hlt|Hge]; cbn [negb];
    [|apply Hstop; [exact H | left; lia]].
  destruct (timeout n) eqn:Hto; [rewrite cancel_safe; apply Hstop; auto|].
  pose proof H as H0. cbn [recv_all] in H. destruct (src_recv s) as [s1 [[f|]|e|]] eqn:Hr; [| |done|done].
  - destruct (recv_all fuel s1) as [[fs1 r1]|] eqn:H1; [|done]. cbn in H. simplify_eq.
    unfold frame_bytes.
    rewrite (take_sample _ _ _ Hlt ltac:(vm_compute; discriminate)), <- (first_bytes_snoc _ _ _ Hlt).
    destruct (IH (Datatypes.S n) s1 fs1 (pre ++ [f]) H1) as (pre' & rest & s' & Hl & -> & Hrest & Hlen & Hs).
    exists (f :: pre'), rest, s'. rewrite <- !app_assoc in *. cbn [app] in *. cbn [length Nat.sub].
    split; [exact Hl|]. split; [reflexivity|]. split; [exact Hrest|]. split; [lia | exact Hs].
  - simplify_eq. apply Hstop; [|by auto]. cbn [recv_all]. by rewrite (eof_sticky _ _ Hr).
Qed.

(** Content detection does not disturb a source: for a source whose dropped
    receives lose nothing and that stays at its end, opening and sampling
    succeed, opening the wrapped source again does nothing, and reading it
    gives all the frames the source would have given; the report is that of
    the first 64 KiB of some first frames, of all when no receive times out. *)
Theorem prefetch_transparent fuel s0 s fs mode configured cl :
  samples mode = true -> src_open s0 = (s, Ok tt) -> recv_all fuel s = Some (fs, Ok tt) ->
  exists p pre,
    prefetch_for_detection timeout cancelled decode_label to_lowercase build_regex fuel s0 mode configured cl =
      Some (Ok (p, Some (detect_content decode_label to_lowercase build_regex (sample_of pre)
                           (detection_settings mode configured cl)))) /\
    pre `prefix_of` fs /\ src_open p = (p, Ok tt) /\ recv_all fuel p = Some (fs, Ok tt) /\
    ((forall m, timeout m = false) -> sample_of pre = sample_of fs).
Proof using cancel_safe eof_sticky.
  intros Hm Ho Hf. destruct (prefetch_loop_splits fuel 0 s fs [] Hf) as (pre & rest & s' & Hl & -> & Hrest & Hlen & Hs).
  cbn [app] in *. unfold first_bytes at 1 in Hl. cbn [map concat] in Hl. rewrite take_nil in Hl.
  exists (mkPrefetched s' pre true), pre. unfold prefetch_for_detection. rewrite Hm. cbn [negb]. rewrite Ho, Hl.
  split; [done|]. split; [by exists rest|]. split; [done|]. split; [|done].
  replace fuel with (length pre + (fuel - length pre))%nat by lia.
  by rewrite recv_all_prefetched, Hrest.
Qed.
End Transparent.

Definition two_frames : MockSource := mkMock [FBytes (lit "ab"); FDatagram None (lit "c")] (lit "m").
Lemma prefetch_transparent_witness :
  exists p pre,
    prefetch_for_detection (fun _ => false) (fun s => s) (fun b _ => (b, false)) (fun t => t) (fun _ _ => None) 3
      two_frames Suggest (lit "utf-8") [] =
      Some (Ok (p, Some (detect_content (fun b _ => (b, false)) (fun t => t) (fun _ _ => None)
                           (first_bytes DEFAULT_MAX_SAMPLE_BYTES pre) (detection_settings Suggest (lit "utf-8") [])))) /\
    recv_all 3 p = Some ([FBytes (lit "ab"); FDatagram None (lit "c")], Ok tt).
Proof.
  assert (Hsticky : forall s s' : MockSource, src_recv s = (s', Ok None) -> src_recv s' = (s', Ok None)).
  { intros [[|f q] tag] s' Hr; cbn in Hr; inversion Hr; reflexivity. }
  destruct (prefetch_transparent (fun _ => false) (fun s : MockSource => s) (fun b _ => (b, false)) (fun t => t)
    (fun _ _ => None) (fun s => eq_refl) Hsticky 3 two_frames two_frames
    [FBytes (lit "ab"); FDatagram None (lit "c")] Suggest (lit "utf-8") []
    eq_refl eq_refl eq_refl) as (p & pre & H1 & _ & _ & H2 & _).
  exists p, pre. split; [exact H1 | exact H2].
Defined.
End Prefetch.

(** ** Settings and start options *)
Record SourceStartOptions := mkOptions {
  o_classifier : option LogClassifier; o_encoding : option (list Z); o_mode : option DetectionMode;
  o_pattern : option (list Z); o_label : option (list Z) }.
Definition no_options : SourceStartOptions := mkOptions None None None None None.

(** [Option::or]. *)
Definition opt_or {A} (a b : option A) : option A := match a with Some _ => a | None => b end.
Definition merge_start_options (base overrides : SourceStartOptions) : SourceStartOptions :=
  mkOptions (opt_or (o_classifier overrides) (o_classifier base)) (opt_or (o_encoding overrides) (o_encoding base))
    (opt_or (o_mode overrides) (o_mode base)) (opt_or (o_pattern overrides) (o_pattern base))
    (opt_or (o_label overrides) (o_label base)).

(** The four settings behind a [RwLock] and the session root. *)
Record Settings := mkMgrSettings {
  session_root : option (list Z); s_classifier : LogClassifier; s_encoding : list Z;
  s_mode : DetectionMode; s_pattern : list Z }.
Definition default_settings (root : option (list Z)) : Settings :=
  mkMgrSettings root [] (lit "utf-8") Configured SessionName.DEFAULT_SERVER_SESSION_NAME_PATTERN.
Definition set_classifier (s : Settings) (c : LogClassifier) : Settings :=
  mkMgrSettings (session_root s) c (s_encoding s) (s_mode s) (s_pattern s).
Definition set_encoding (s : Settings) (e : list Z) : Settings :=
  mkMgrSettings (session_root s) (s_classifier s) e (s_mode s) (s_pattern s).
Definition set_detection_mode (s : Settings) (m : DetectionMode) : Settings :=
  mkMgrSettings (session_root s) (s_classifier s) (s_encoding s) m (s_pattern s).
Definition set_session_name_pattern (s : Settings) (p : list Z) : Settings :=
  mkMgrSettings (session_root s) (s_classifier s) (s_encoding s) (s_mode s) p.

Definition detection_mode_for (s : Settings) (o : SourceStartOptions) : DetectionMode := default (s_mode s) (o_mode o).

(** The server's own tags differ from the command line's: no trimming, and a
    longer name for web hooks. *)
Definition server_kind_tag (s : ChannelSpec) : list Z :=
  lit match s with
      | File _ _ => "file" | Tcp _ => "tcp" | Udp _ => "udp" | Pcap _ => "pcap"
      | Serial _ _ _ _ _ _ => "serial" | Process _ => "process" | Pipe _ => "pipe"
      | Mock _ => "mock" | Replay _ => "replay" | Syslog _ => "syslog" | Mqtt _ _ => "mqtt"
      | HttpWebhook _ _ => "http-webhook" | Telnet _ => "telnet" | Ssh _ _ => "ssh" | Remote _ => "remote"
      | _ => "other"
      end.
Definition server_sanitize (s : list Z) : list Z := map (fun c => if tag_char c then c else 45) s.
Definition server_iface_tag (s : ChannelSpec) : list Z :=
  match s with
  | Serial port _ _ _ _ _ => server_sanitize port
  | Tcp addr | Telnet addr | Ssh addr _ => server_sanitize addr
  | Udp bind | Syslog bind | HttpWebhook bind _ => server_sanitize bind
  | Pcap c => server_sanitize (interface c)
  | File path _ | Pipe path => server_sanitize (default (lit "file") (path_file_name path))
  | Process argv => server_sanitize (default (lit "proc") (path_file_name (default (lit "proc") (head argv))))
  | Mqtt _ topic => server_sanitize topic
  | Mock tag => server_sanitize tag
  | Replay path => server_sanitize path
  | Remote url => server_sanitize url
  | _ => lit "iface"
  end.

Definition session_dir_name (spec : ChannelSpec) (pattern timestamp : list Z) (unix_ns : Z) : list Z :=
  SessionName.render_session_name pattern
    (SessionName.mkParts (lit "tracemux") (server_kind_tag spec) (server_iface_tag spec) timestamp unix_ns).
(** [Path::join] with a relative name. *)
Definition path_join (root name : list Z) : list Z :=
  match last root with
  | None => name
  | Some c => if c =? 47 then root ++ name else root ++ [47] ++ name
  end.
Definition session_dir_for (s : Settings) (spec : ChannelSpec) (reuse : option (list Z)) (o : SourceStartOptions)
    (timestamp : list Z) (unix_ns : Z) : option (list Z) :=
  opt_or reuse
    ((fun root => path_join root (session_dir_name spec (default (s_pattern s) (o_pattern o)) timestamp unix_ns))
       <$> session_root s).

(** ** Entries, tasks and calls in flight *)
Record Pipeline := mkPipeline {
  p_decoder : option (list Z); p_encoding : option (list Z); p_mode : option DetectionMode;
  p_detection : option DetectionReport }.
Definition no_pipeline : Pipeline := mkPipeline None None None None.

(** A handle is the number of its task, and so is a sink: that of the task
    started together with it. *)
Record SourceEntry := mkEntry {
  e_spec : option ChannelSpec; e_dir : option (list Z); e_options : SourceStartOptions; e_pipeline : Pipeline;
  e_handle : option nat; e_sink : option nat }.

Inductive TaskStatus := TRunning | TAborted | TDone.
#[export] Instance TaskStatus_eq_dec : EqDecision TaskStatus.
Proof. solve_decision. Defined.
Record Task := mkTask { t_sid : Z; t_dir : option (list Z); t_status : TaskStatus }.

Inductive MgrError :=
| UnknownSid | AlreadyActive | NotResumable | NotRestartable | Unsupported | ConnectFailed | PrefetchFailed
| LogSinkFailed | ExitedBeforeRegistration | NoWriteBack.

Inductive Call :=
| Starting (sid : Z) (spec : ChannelSpec) (dir : option (list Z)) (o : SourceStartOptions)
| Spawned (sid : Z) (task : nat) (e : SourceEntry)
| Waiting (sid : Z) (task : nat) (remove_entry : bool).
Definition call_sid (c : Call) : Z := match c with Starting i _ _ _ | Spawned i _ _ | Waiting i _ _ => i end.

Section Manager.
  (** The broadcast channel, and what content detection uses. *)
  Variable Tx : Type.
  Variable send : Tx -> list Z -> Tx * option Z.
  Variable decode_label : list Z -> list Z -> list Z * bool.
  Variable to_lowercase : list Z -> list Z.
  Variable build_regex : list Z -> bool -> option (list Z -> Z).

Record State := mkState {
  settings : Settings; sources : gmap Z SourceEntry; tasks : gmap nat Task; next_task : nat;
  ingest : Ingest.Ingest Tx; calls : gmap nat Call }.
Definition new (s : Settings) : State := mkState s ∅ ∅ 0 (Ingest.new Tx) ∅.

Definition set_sources (st : State) (m : gmap Z SourceEntry) : State :=
  mkState (settings st) m (tasks st) (next_task st) (ingest st) (calls st).
Definition set_tasks (st : State) (m : gmap nat Task) : State :=
  mkState (settings st) (sources st) m (next_task st) (ingest st) (calls st).
Definition set_ingest (st : State) (g : Ingest.Ingest Tx) : State :=
  mkState (settings st) (sources st) (tasks st) (next_task st) g (calls st).
Definition set_calls (st : State) (m : gmap nat Call) : State :=
  mkState (settings st) (sources st) (tasks st) (next_task st) (ingest st) m.
Definition set_settings (st : State) (s : Settings) : State :=
  mkState s (sources st) (tasks st) (next_task st) (ingest st) (calls st).

(** What the outside answers to a start: the clock, whether the transport (or
    the remote target) could be opened, the bytes sampled for detection (no
    answer when opening or receiving failed), whether the log files could be
    created, whether the runner got as far as registering, with which channel
    metadata and broadcast sender. *)
Record World := mkWorld {
  w_timestamp : list Z; w_unix_ns : Z; w_connect : bool; w_sample : option (list Z); w_logsink : bool;
  w_registers : bool; w_kind : list Z; w_iface : list Z; w_tx : Tx }.

(** ** Handles *)
Definition is_finished (st : State) (k : nat) : bool :=
  match tasks st !! k with Some t => bool_decide (t_status t = TDone) | None => true end.
Definition set_status (s : TaskStatus) (t : Task) : Task := mkTask (t_sid t) (t_dir t) s.
(** [JoinHandle::abort]: nothing happens to a task that is over. *)
Definition abort (ts : gmap nat Task) (k : nat) : gmap nat Task :=
  alter (fun t => if decide (t_status t = TRunning) then set_status TAborted t else t) k ts.
Definition abort_handle (ts : gmap nat Task) (h : option nat) : gmap nat Task :=
  match h with Some k => abort ts k | None => ts end.

Definition with_run (e : SourceEntry) (h s : option nat) : SourceEntry :=
  mkEntry (e_spec e) (e_dir e) (e_options e) (e_pipeline e) h s.
(** [if entry.handle.as_ref().is_some_and(is_finished) { handle = None; sink = None }] *)
Definition clear_finished (st : State) (e : SourceEntry) : SourceEntry :=
  match e_handle e with
  | Some k => if is_finished st k then with_run e None None else e
  | None => e
  end.

(** ** Starting *)

(** Spawning the runner and waiting for it to register the session. *)
Definition launch (st : State) (sid : Z) (dir : option (list Z)) (kind iface : list Z) (tx : Tx) (registers : bool)
    (e : SourceEntry) (has_sink : bool) : State * res MgrError Call :=
  let k := next_task st in
  if registers then
    let '(g, sid) := Ingest.register_session Tx (ingest st)
                       (Ingest.mkSession Tx sid kind iface (o_label (e_options e)) tx) in
    (mkState (settings st) (sources st) (<[k := mkTask sid dir TRunning]> (tasks st)) (S k) g (calls st),
     Ok (Spawned sid k (with_run e (Some k) (if has_sink then Some k else None))))
  else
    (mkState (settings st) (sources st) (<[k := mkTask sid dir TDone]> (tasks st)) (S k) (ingest st) (calls st),
     Err ExitedBeforeRegistration).

(** [log_sink_for] creates files only when there is a session directory. *)
Definition log_sink_ok (dir : option (list Z)) (w : World) : bool :=
  match dir with Some _ => w_logsink w | None => true end.

(** [start_default_pipeline] *)
Definition start_default_pipeline (st : State) (sid : Z) (spec : ChannelSpec) (dir : option (list Z)) (duplex : bool)
    (o : SourceStartOptions) (w : World) : State * res MgrError Call :=
  let configured := default (s_encoding (settings st)) (o_encoding o) in
  let cl := default (s_classifier (settings st)) (o_classifier o) in
  let mode := detection_mode_for (settings st) o in
  let detected :=
    if Prefetch.samples mode
    then (fun smp => Some (detect_content decode_label to_lowercase build_regex smp
                             (Prefetch.detection_settings mode configured cl))) <$> w_sample w
    else Some None in
  match detected with
  | None => (st, Err PrefetchFailed)
  | Some detection =>
      let encoding := match detection with None => configured | Some r => effective r end in
      if log_sink_ok dir w then
        launch st sid dir (w_kind w) (w_iface w) (w_tx w) (w_registers w)
          (mkEntry (Some spec) dir o
             (mkPipeline (Some (lit "utf8-text:" ++ encoding)) (Some encoding) (Some mode) detection) None None) duplex
      else (st, Err LogSinkFailed)
  end.

(** [start_serial_spec], [start_tcp_spec], [start_udp_spec] and
    [start_process_spec]: the transport is opened first and gives a sink. *)
Definition start_duplex_spec (st : State) (sid : Z) (spec : ChannelSpec) (dir : option (list Z)) (o : SourceStartOptions)
    (w : World) : State * res MgrError Call :=
  if w_connect w then start_default_pipeline st sid spec dir true o w else (st, Err ConnectFailed).
Definition start_source_only_spec (st : State) (sid : Z) (spec : ChannelSpec) (dir : option (list Z))
    (o : SourceStartOptions) (w : World) : State * res MgrError Call :=
  match spec with
  | File _ _ | Pipe _ | Mock _ | Replay _ | Syslog _ | Mqtt _ _ | HttpWebhook _ _ =>
      start_default_pipeline st sid spec dir false o w
  | _ => (st, Err Unsupported)
  end.
(** The capture runner creates its files itself. *)
Definition start_pcap_source_with_sid (st : State) (sid : Z) (spec : ChannelSpec) (dir : option (list Z))
    (o : SourceStartOptions) (w : World) : State * res MgrError Call :=
  launch st sid dir (w_kind w) (w_iface w) (w_tx w) (w_registers w)
    (mkEntry (Some spec) dir o (mkPipeline (Some (lit "pcap-packet")) None (Some Off) None) None None) false.
(** The mirror's session is registered before its task is spawned; [w_connect]
    says whether the URL could be parsed, [w_iface] is its display form. *)
Definition start_remote_spec (st : State) (sid : Z) (spec : ChannelSpec) (dir : option (list Z)) (o : SourceStartOptions)
    (w : World) : State * res MgrError Call :=
  if w_connect w then
    if log_sink_ok dir w then
      launch st sid dir (server_kind_tag spec) (w_iface w) (w_tx w) true
        (mkEntry (Some spec) dir o (mkPipeline (Some (lit "remote-mirror")) None (Some Off) None) None None) true
    else (st, Err LogSinkFailed)
  else (st, Err ConnectFailed).

(** [start_spec_with_sid] up to the registration. *)
Definition start_spec_with_sid (st : State) (sid : Z) (spec : ChannelSpec) (reuse : option (list Z))
    (o : SourceStartOptions) (w : World) : State * res MgrError Call :=
  let dir := session_dir_for (settings st) spec reuse o (w_timestamp w) (w_unix_ns w) in
  match spec with
  | Serial _ _ _ _ _ _ | Tcp _ | Udp _ | Process _ => start_duplex_spec st sid spec dir o w
  | Pcap _ => start_pcap_source_with_sid st sid spec dir o w
  | Remote _ => start_remote_spec st sid spec dir o w
  | _ => start_source_only_spec st sid spec dir o w
  end.

(** [start_source]: a source without specification, known until it ends. *)
Definition start_source (st : State) (sid : Z) (w : World) : State * res MgrError Call :=
  launch st sid None (w_kind w) (w_iface w) (w_tx w) (w_registers w)
    (mkEntry None None no_options no_pipeline None None) false.

(** The second locked section of a start: an entry that was there is dropped,
    and its handle with it, which detaches the task. *)
Definition insert_spawned (st : State) (sid : Z) (e : SourceEntry) : State :=
  set_sources st (<[sid := e]> (sources st)).

(** ** The locked sections of the lifecycle calls *)
Definition resume (st : State) (sid : Z) : State * res MgrError Call :=
  match sources st !! sid with
  | None => (st, Err UnknownSid)
  | Some e =>
      let e' := clear_finished st e in
      let st' := set_sources st (<[sid := e']> (sources st)) in
      match e_handle e' with
      | Some _ => (st', Err AlreadyActive)
      | None =>
          match e_spec e' with
          | None => (st', Err NotResumable)
          | Some spec => (st', Ok (Starting sid spec (e_dir e') (e_options e')))
          end
      end
  end.

Definition restart_with_options (st : State) (sid : Z) (overrides : SourceStartOptions) : State * res MgrError Call :=
  match sources st !! sid with
  | None => (st, Err UnknownSid)
  | Some e =>
      match e_spec e with
      | None => (st, Err NotRestartable)
      | Some spec =>
          (set_tasks (set_sources st (<[sid := with_run e None None]> (sources st)))
             (abort_handle (tasks st) (e_handle e)),
           Ok (Starting sid spec (e_dir e) (merge_start_options (e_options e) overrides)))
      end
  end.

(** The locked part of [write]: the sink the bytes go to. *)
Definition write (st : State) (sid : Z) : State * res MgrError nat :=
  match sources st !! sid with
  | None => (st, Err UnknownSid)
  | Some e =>
      let e' := clear_finished st e in
      (set_sources st (<[sid := e']> (sources st)), ok_or (e_sink e') NoWriteBack)
  end.

Definition wait (st : State) (sid : Z) : option (State * Call) :=
  e ← sources st !! sid;
  k ← e_handle e;
  Some (set_sources st (<[sid := with_run e None (e_sink e)]> (sources st)),
        Waiting sid k (match e_spec e with None => true | Some _ => false end)).
(** After the task has been joined. *)
Definition wait_done (st : State) (sid : Z) (remove_entry : bool) : State :=
  let m := alter (fun e => with_run e (e_handle e) None) sid (sources st) in
  set_sources st (if remove_entry then delete sid m else m).

Definition stop (st : State) (sid : Z) : State * bool :=
  match sources st !! sid with
  | None => (st, false)
  | Some e =>
      (set_tasks (set_sources st (<[sid := with_run e None None]> (sources st)))
         (abort_handle (tasks st) (e_handle e)),
       match e_handle e with Some _ => true | None => false end)
  end.

Definition remove (st : State) (sid : Z) : State * bool :=
  let entry := sources st !! sid in
  let '(reg, removed) := Ingest.remove Tx (Ingest.registry Tx (ingest st)) sid in
  (set_ingest
     (set_tasks (set_sources st (delete sid (sources st)))
        (abort_handle (tasks st) (entry ≫= e_handle)))
     (Ingest.mkIngest Tx reg (Ingest.stats Tx (ingest st))),
   bool_decide (is_Some (entry ≫= e_handle)) || bool_decide (is_Some removed) || bool_decide (is_Some entry)).

Definition active_ids (st : State) : list Z :=
  omap (fun p : Z * SourceEntry => (fun _ => fst p) <$> e_handle (snd p)) (map_to_list (sources st)).

Definition reap_entry (st : State) (e : SourceEntry) : option SourceEntry :=
  let e' := clear_finished st e in
  match e_spec e', e_handle e' with None, None => None | _, _ => Some e' end.
Definition reap_finished (st : State) : State := set_sources st (omap (reap_entry st) (sources st)).

Inductive SourceStatus := Running | Stopped | Unknown.
Record SourceSnapshot := mkSnapshot {
  sn_sid : Z; sn_kind : list Z; sn_name : list Z; sn_status : SourceStatus; sn_channels : list Z; sn_bytes_in : Z;
  sn_dir : option (list Z); sn_pipeline : Pipeline }.
Definition status_of (st : State) (sid : Z) : SourceStatus :=
  match sources st !! sid with
  | None => Unknown
  | Some e => match e_handle e with
              | Some k => if is_finished st k then Stopped else Running
              | None => Stopped
              end
  end.
Definition snapshot (st : State) (sid : Z) : option SourceSnapshot :=
  s ← Ingest.get Tx (Ingest.registry Tx (ingest st)) sid;
  Some (mkSnapshot sid (Ingest.kind Tx s) (default (Ingest.iface Tx s) (Ingest.label Tx s)) (status_of st sid) [0]
          (match Ingest.stats_of Tx (ingest st) sid with Some x => Ingest.bytes_logged x | None => 0 end)
          (sources st !! sid ≫= e_dir) (match sources st !! sid with Some e => e_pipeline e | None => no_pipeline end)).
Definition sid_le (a b : SourceSnapshot) : Prop := sn_sid a <= sn_sid b.
#[global] Instance sid_le_dec a b : Decision (sid_le a b).
Proof. unfold sid_le. apply _. Defined.
Definition list_sources (st : State) : list SourceSnapshot :=
  merge_sort sid_le (omap (snapshot st) (Ingest.ids Tx (Ingest.registry Tx (ingest st)))).

(** ** Interleavings *)
Definition quiet (st : State) (sid : Z) : Prop := forall c a, calls st !! c = Some a -> call_sid a <> sid.
(** A fresh random identifier. *)
Definition unused (st : State) (sid : Z) : Prop :=
  sources st !! sid = None /\ quiet st sid /\ (forall k t, tasks st !! k = Some t -> t_sid t <> sid).

(** A call that goes on is in flight under a number [c], one that failed is over. *)
Definition proceed (c : nat) (out : State * res MgrError Call) : State :=
  match snd out with
  | Ok a => set_calls (fst out) (<[c := a]> (calls (fst out)))
  | _ => set_calls (fst out) (delete c (calls (fst out)))
  end.

(** [excl]: resume, restart, wait and remove of one source wait for the calls
    on it that are in flight.  The code does not enforce this. *)
Inductive step (excl : bool) (st : State) : State -> Prop :=
| step_settings s : session_root s = session_root (settings st) -> step excl st (set_settings st s)
| step_start sid spec o c : unused st sid -> calls st !! c = None ->
    step excl st (proceed c (st, Ok (Starting sid spec None o)))
| step_start_source sid w c : unused st sid -> calls st !! c = None -> step excl st (proceed c (start_source st sid w))
| step_resume sid c : (excl = true -> quiet st sid) -> calls st !! c = None -> step excl st (proceed c (resume st sid))
| step_restart sid o c : (excl = true -> quiet st sid) -> calls st !! c = None ->
    step excl st (proceed c (restart_with_options st sid o))
| step_spawn sid spec dir o w c : calls st !! c = Some (Starting sid spec dir o) ->
    step excl st (proceed c (start_spec_with_sid st sid spec dir o w))
| step_insert sid k e c : calls st !! c = Some (Spawned sid k e) ->
    step excl st (set_calls (insert_spawned st sid e) (delete c (calls st)))
| step_wait sid c st' a : (excl = true -> quiet st sid) -> calls st !! c = None -> wait st sid = Some (st', a) ->
    step excl st (proceed c (st', Ok a))
| step_wait_done sid k rm c : calls st !! c = Some (Waiting sid k rm) -> is_finished st k = true ->
    step excl st (set_calls (wait_done st sid rm) (delete c (calls st)))
| step_stop sid : step excl st (fst (stop st sid))
| step_remove sid : (excl = true -> quiet st sid) -> step excl st (fst (remove st sid))
| step_reap : step excl st (reap_finished st)
| step_write sid : step excl st (fst (write st sid))
| step_task k t : tasks st !! k = Some t -> step excl st (set_tasks st (<[k := set_status TDone t]> (tasks st)))
| step_publish i b g r : Ingest.publish_wire Tx send (ingest st) i b = Ok (g, r) -> step excl st (set_ingest st g).

Inductive reachable (excl : bool) (s : Settings) : State -> Prop :=
| reach_new : reachable excl s (new s)
| reach_step st st' : reachable excl s st -> step excl st st' -> reachable excl s st'.

(** ** Exclusive calls keep every running task owned *)
Definition owned (st : State) (k : nat) (t : Task) : Prop :=
  (exists e, sources st !! t_sid t = Some e /\ e_handle e = Some k) \/
  (exists c e, calls st !! c = Some (Spawned (t_sid t) k e)) \/
  (exists c rm, calls st !! c = Some (Waiting (t_sid t) k rm)).
(** A task of [sid] that nobody has aborted. *)
Definition alive (st : State) (sid : Z) (k : nat) : Prop :=
  exists t, tasks st !! k = Some t /\ t_sid t = sid /\ t_status t <> TAborted.

Record inv (st : State) : Prop := {
  i_fresh : forall k t, tasks st !! k = Some t -> (k < next_task st)%nat;
  i_entry : forall sid e k, sources st !! sid = Some e -> e_handle e = Some k -> alive st sid k;
  i_spawned : forall c sid k e, calls st !! c = Some (Spawned sid k e) ->
    e_handle e = Some k /\ (e_sink e = None \/ e_sink e = Some k) /\ alive st sid k;
  i_waiting : forall c sid k rm, calls st !! c = Some (Waiting sid k rm) -> alive st sid k;
  i_calls : forall c c' a b, calls st !! c = Some a -> calls st !! c' = Some b -> call_sid a = call_sid b -> c = c';
  i_idle : forall c a e, calls st !! c = Some a -> sources st !! call_sid a = Some e -> e_handle e = None;
  i_owned : forall k t, tasks st !! k = Some t -> t_status t = TRunning -> owned st k t;
  i_sink : forall sid e k, sources st !! sid = Some e -> e_sink e = Some k ->
    e_handle e = Some k \/ exists c rm, calls st !! c = Some (Waiting sid k rm);
  i_registry : forall i x, Ingest.registry Tx (ingest st) !! i = Some x -> Ingest.sid Tx x = i
}.

Lemma inv_new s : inv (new s).
Proof. split; unfold new; cbn; intros *; rewrite ?lookup_empty; done. Qed.

(** A step that touches neither entries, tasks nor calls. *)
Lemma inv_same st st' : sources st' = sources st -> tasks st' = tasks st -> next_task st' = next_task st ->
  calls st' = calls st -> (forall i x, Ingest.registry Tx (ingest st') !! i = Some x -> Ingest.sid Tx x = i) ->
  inv st -> inv st'.
Proof.
  intros Hs Ht Hn Hc Hg [I1 I2 I3 I4 I5 I6 I7 I8 I9].
  split; unfold owned, alive in *; rewrite ?Hs, ?Ht, ?Hn, ?Hc; assumption.
Qed.

(** Replacing the entry of [sid] by one with the same or no run. *)
Definition weaker (st : State) (e e' : SourceEntry) : Prop :=
  (e_handle e' = e_handle e /\ (e_sink e' = e_sink e \/ e_sink e' = None)) \/
  (e_handle e' = None /\ e_sink e' = None /\
   forall k t, e_handle e = Some k -> tasks st !! k = Some t -> t_status t <> TRunning).
Lemma inv_weaken st sid e e' : sources st !! sid = Some e -> weaker st e e' -> inv st ->
  inv (set_sources st (<[sid := e']> (sources st))).
Proof.
  intros He Hw [I1 I2 I3 I4 I5 I6 I7 I8 I9]. split; cbn; try assumption.
  - intros i e0 k [[<- <-] | [Hne H]]%lookup_insert_Some Hk; [|by eapply I2].
    destruct Hw as [[Hh _] | [Hh _]]; [|congruence]. rewrite Hh in Hk. by eapply I2.
  - intros c a e0 Ha [[Hsid <-] | [Hne H]]%lookup_insert_Some; [|by eapply I6].
    destruct Hw as [[Hh _] | [Hh _]]; [|done]. rewrite Hh. eapply I6; [exact Ha|]. by rewrite <- Hsid.
  - intros k t Ht Hrun. destruct (I7 k t Ht Hrun) as [(e0 & H0 & Hk) | [H | H]]; [|by right; left | by right; right].
    left. cbn. destruct (decide (sid = t_sid t)) as [-> | Hne]; [|exists e0; by rewrite lookup_insert_ne].
    exists e'. rewrite lookup_insert_eq. split; [done|]. assert (e0 = e) as -> by congruence.
    destruct Hw as [[Hh _] | (_ & _ & Hno)]; [congruence|]. by destruct (Hno k t Hk Ht).
  - intros i e0 k [[<- <-] | [Hne H]]%lookup_insert_Some Hk; [|by eapply I8].
    destruct Hw as [[Hh [Hs | Hs]] | (Hh & Hs & _)]; [|congruence|congruence].
    rewrite Hh. rewrite Hs in Hk. by eapply I8.
Qed.

(** Taking the run of [sid] and aborting it. *)
Lemma alive_abort st sid k h : alive st sid k -> h <> Some k ->
  alive (set_tasks st (abort_handle (tasks st) h)) sid k.
Proof.
  intros (t & Ht & Hs & Hr) Hne. exists t. split; [|done]. destruct h as [k'|]; [|done].
  cbn. unfold abort. rewrite lookup_alter_ne; [done|]. congruence.
Qed.
Lemma abort_lookup ts h k t : abort_handle ts h !! k = Some t ->
  exists t0, ts !! k = Some t0 /\ t_sid t = t_sid t0 /\
    (t_status t = TRunning -> t = t0 /\ h <> Some k).
Proof.
  destruct h as [k'|]; cbn; [|by eauto 6]. unfold abort. intros H. apply lookup_alter_Some in H as [(-> & t0 & H & ->) | [Hne H]].
  - exists t0. split; [done|]. case_decide as Hr; cbn; [done|]. done.
  - exists t. repeat split; try done. congruence.
Qed.
Lemma inv_abort st sid e : sources st !! sid = Some e -> inv st ->
  inv (set_tasks (set_sources st (<[sid := with_run e None None]> (sources st))) (abort_handle (tasks st) (e_handle e))).
Proof.
  intros He [I1 I2 I3 I4 I5 I6 I7 I8 I9].
  (* another source, or a call on this one, never holds the aborted task *)
  assert (Hother : forall i k, alive st i k -> i <> sid -> e_handle e <> Some k).
  { intros i k (t & Ht & Hi & _) Hne Hk. destruct (I2 _ _ _ He Hk) as (t' & Ht' & Hs & _). congruence. }
  assert (Hcall : forall c a k, calls st !! c = Some a -> alive st (call_sid a) k -> e_handle e <> Some k).
  { intros c a k Ha Hal. destruct (decide (call_sid a = sid)) as [E | E]; [|by eapply Hother].
    rewrite <- E in He. by rewrite (I6 _ _ _ Ha He). }
  split; cbn.
  - intros k t (t0 & H & _)%abort_lookup. eauto.
  - intros i e0 k [[<- <-] | [Hne H]]%lookup_insert_Some Hk; [done|].
    pose proof (I2 _ _ _ H Hk) as Hal. exact (alive_abort st i k _ Hal (Hother i k Hal ltac:(congruence))).
  - intros c i k e0 H. destruct (I3 _ _ _ _ H) as (H1 & H2 & Hal). split; [done|]. split; [done|].
    exact (alive_abort st i k _ Hal (Hcall _ _ _ H Hal)).
  - intros c i k rm H. pose proof (I4 _ _ _ _ H) as Hal. exact (alive_abort st i k _ Hal (Hcall _ _ _ H Hal)).
  - assumption.
  - intros c a e0 Ha [[Hsid <-] | [Hne H]]%lookup_insert_Some; [done | by eapply I6].
  - intros k t (t0 & Ht & _ & Hr)%abort_lookup Hrun. destruct (Hr Hrun) as [-> Hk].
    destruct (I7 k t0 Ht Hrun) as [(e0 & H0 & Hk0) | [H | H]]; [|by right; left | by right; right].
    left. cbn. exists e0. rewrite lookup_insert_ne; [done|]. intros E. rewrite <- E in H0. congruence.
  - intros i e0 k [[<- <-] | [Hne H]]%lookup_insert_Some Hk; [done | by eapply I8].
  - assumption.
Qed.

(** Calls that hold no task come and go. *)
Definition holds_task (a : Call) : bool := match a with Starting _ _ _ _ => false | _ => true end.
Lemma inv_recall st m : inv st ->
  (forall c a, holds_task a = true -> m !! c = Some a <-> calls st !! c = Some a) ->
  (forall c c' a b, m !! c = Some a -> m !! c' = Some b -> call_sid a = call_sid b -> c = c') ->
  (forall c a e, m !! c = Some a -> sources st !! call_sid a = Some e -> e_handle e = None) ->
  inv (set_calls st m).
Proof.
  intros [I1 I2 I3 I4 I5 I6 I7 I8 I9] Hm Hu Hi. split; cbn; try assumption.
  - intros c i k e H. apply Hm in H; [by eapply I3 | done].
  - intros c i k rm H. apply Hm in H; [by eapply I4 | done].
  - intros k t Ht Hrun. destruct (I7 k t Ht Hrun) as [H | [(c & e & H) | (c & rm & H)]].
    + by left.
    + right; left. exists c, e. by apply Hm.
    + right; right. exists c, rm. by apply Hm.
  - intros i e k He Hk. destruct (I8 _ _ _ He Hk) as [H | (c & rm & H)]; [by left|].
    right. exists c, rm. by apply Hm.
Qed.

(** A call begins on a source without a run. *)
Lemma inv_begin st c sid spec dir o : calls st !! c = None -> quiet st sid ->
  (forall e, sources st !! sid = Some e -> e_handle e = None) -> inv st ->
  inv (set_calls st (<[c := Starting sid spec dir o]> (calls st))).
Proof.
  intros Hc Hq Hn I. apply inv_recall; [done | | |].
  - intros c' a Ha. split.
    + by intros [[_ <-] | [_ H]]%lookup_insert_Some.
    + intros H. rewrite lookup_insert_ne; [done | congruence].
  - intros c1 c2 a b [[<- <-] | [Hne Ha]]%lookup_insert_Some [[<- <-] | [Hne' Hb]]%lookup_insert_Some Hs;
      [done | by destruct (Hq _ _ Hb) | by destruct (Hq _ _ Ha) | by eapply i_calls].
  - intros c' a e [[<- <-] | [Hne Ha]]%lookup_insert_Some H; [by apply Hn | by eapply i_idle].
Qed.

(** A call that has not spawned its task yet is given up. *)
Lemma inv_give_up st c : (forall a, calls st !! c = Some a -> holds_task a = false) -> inv st ->
  inv (set_calls st (delete c (calls st))).
Proof.
  intros Hc I. apply inv_recall; [done | | |].
  - intros c' a Ha. split; [by intros [_ H]%lookup_delete_Some|].
    intros H. rewrite lookup_delete_ne; [done|]. intros ->. rewrite (Hc _ H) in Ha. done.
  - intros c1 c2 a b [_ Ha]%lookup_delete_Some [_ Hb]%lookup_delete_Some. by eapply i_calls.
  - intros c' a e [_ Ha]%lookup_delete_Some. by eapply i_idle.
Qed.

(** A task is spawned and held by the call that spawned it. *)
Lemma alive_new st sid k t : (forall k t, tasks st !! k = Some t -> (k < next_task st)%nat) -> alive st sid k ->
  alive (set_tasks st (<[next_task st := t]> (tasks st))) sid k.
Proof.
  intros Hf (t0 & H & Hs & Hr). exists t0. cbn. rewrite lookup_insert_ne; [done|]. pose proof (Hf _ _ H). lia.
Qed.
Lemma inv_spawn st c sid spec dir0 o dir e g :
  calls st !! c = Some (Starting sid spec dir0 o) ->
  (forall i x, Ingest.registry Tx g !! i = Some x -> Ingest.sid Tx x = i) ->
  e_handle e = Some (next_task st) -> (e_sink e = None \/ e_sink e = Some (next_task st)) -> inv st ->
  inv (mkState (settings st) (sources st) (<[next_task st := mkTask sid dir TRunning]> (tasks st)) (S (next_task st)) g
         (<[c := Spawned sid (next_task st) e]> (calls st))).
Proof.
  intros Hc Hg Hh Hk [I1 I2 I3 I4 I5 I6 I7 I8 I9].
  assert (Hal : forall i k, alive st i k -> alive (set_tasks st (<[next_task st := mkTask sid dir TRunning]> (tasks st))) i k)
    by (intros; by apply alive_new).
  split; cbn.
  - intros k t [[<- _] | [_ H]]%lookup_insert_Some; [lia|]. pose proof (I1 _ _ H). lia.
  - intros i e0 k H1 H2. exact (Hal _ _ (I2 _ _ _ H1 H2)).
  - intros c' i k e0 [[<- E] | [_ H]]%lookup_insert_Some.
    + simplify_eq. split; [done|]. split; [done|]. exists (mkTask i dir TRunning). cbn. by rewrite lookup_insert_eq.
    + destruct (I3 _ _ _ _ H) as (H1 & H2 & H3). split; [done|]. split; [done|]. exact (Hal _ _ H3).
  - intros c' i k rm [[_ ?] | [_ H]]%lookup_insert_Some; [done|]. exact (Hal _ _ (I4 _ _ _ _ H)).
  - intros c1 c2 a b [[<- <-] | [Hne Ha]]%lookup_insert_Some [[<- <-] | [Hne' Hb]]%lookup_insert_Some Hs;
      [done | eapply I5; [exact Hc | exact Hb | done] | eapply I5; [exact Ha | exact Hc | done] | by eapply I5].
  - intros c' a e0 [[<- <-] | [Hne Ha]]%lookup_insert_Some H; [by eapply (I6 _ _ _ Hc) | by eapply I6].
  - intros k t [[<- <-] | [Hne Ht]]%lookup_insert_Some Hrun.
    + right; left. exists c, e. cbn. by rewrite lookup_insert_eq.
    + destruct (I7 k t Ht Hrun) as [H | [(c' & e' & H) | (c' & rm & H)]]; [by left | |].
      * right; left. exists c', e'. cbn. rewrite lookup_insert_ne; [done | congruence].
      * right; right. exists c', rm. cbn. rewrite lookup_insert_ne; [done | congruence].
  - intros i e0 k He Hs. destruct (I8 _ _ _ He Hs) as [H | (c' & rm & H)]; [by left|].
    right. exists c', rm. rewrite lookup_insert_ne; [done | congruence].
  - assumption.
Qed.

(** A task that ended before it registered. *)
Lemma inv_exited st sid dir : inv st ->
  inv (mkState (settings st) (sources st) (<[next_task st := mkTask sid dir TDone]> (tasks st)) (S (next_task st))
         (ingest st) (calls st)).
Proof.
  intros [I1 I2 I3 I4 I5 I6 I7 I8 I9].
  assert (Hal : forall i k, alive st i k -> alive (set_tasks st (<[next_task st := mkTask sid dir TDone]> (tasks st))) i k)
    by (intros; by apply alive_new).
  split; cbn; try assumption.
  - intros k t [[<- _] | [_ H]]%lookup_insert_Some; [lia|]. pose proof (I1 _ _ H). lia.
  - intros i e0 k H1 H2. exact (Hal _ _ (I2 _ _ _ H1 H2)).
  - intros c' i k e0 H. destruct (I3 _ _ _ _ H) as (H1 & H2 & H3). split; [done|]. split; [done|]. exact (Hal _ _ H3).
  - intros c' i k rm H. exact (Hal _ _ (I4 _ _ _ _ H)).
  - intros k t [[<- <-] | [Hne Ht]]%lookup_insert_Some Hrun; [done | exact (I7 k t Ht Hrun)].
Qed.

(** The spawned run becomes the entry's. *)
Lemma inv_insert st sid k e c : calls st !! c = Some (Spawned sid k e) -> inv st ->
  inv (set_calls (insert_spawned st sid e) (delete c (calls st))).
Proof.
  intros Hc [I1 I2 I3 I4 I5 I6 I7 I8 I9]. destruct (I3 _ _ _ _ Hc) as (Hh & Hk & Hal).
  assert (Hone : forall c' a, calls st !! c' = Some a -> call_sid a = sid -> c' = c)
    by (intros c' a H E; by eapply I5).
  split; cbn; try assumption.
  - intros i e0 k0 [[<- <-] | [Hne H]]%lookup_insert_Some H0; [|by eapply I2]. rewrite Hh in H0. by simplify_eq.
  - intros c' i k0 e0 [_ H]%lookup_delete_Some. by eapply I3.
  - intros c' i k0 rm [_ H]%lookup_delete_Some. by eapply I4.
  - intros c1 c2 a b [_ Ha]%lookup_delete_Some [_ Hb]%lookup_delete_Some. by eapply I5.
  - intros c' a e0 [Hne Ha]%lookup_delete_Some [[E _] | [_ H]]%lookup_insert_Some; [|by eapply I6].
    by destruct Hne; rewrite (Hone _ _ Ha).
  - intros k0 t Ht Hrun. destruct (I7 k0 t Ht Hrun) as [(e0 & H & H0) | [(c' & e' & H) | (c' & rm & H)]].
    + left. exists e0. cbn. rewrite lookup_insert_ne; [done|]. intros E. rewrite <- E in H.
      pose proof (I6 _ _ _ Hc H). congruence.
    + destruct (decide (c' = c)) as [-> | Hne].
      * left. exists e. cbn. simplify_eq. by rewrite lookup_insert_eq.
      * right; left. exists c', e'. cbn. by rewrite lookup_delete_ne.
    + right; right. exists c', rm. cbn. rewrite lookup_delete_ne; [done|]. congruence.
  - intros i e0 k0 [[<- <-] | [Hne H]]%lookup_insert_Some H0.
    + left. destruct Hk; congruence.
    + destruct (I8 _ _ _ H H0) as [H1 | (c' & rm & H1)]; [by left|].
      right. exists c', rm. rewrite lookup_delete_ne; [done | congruence].
Qed.

(** An entry without a run can be dropped. *)
Lemma inv_delete st sid : (forall e, sources st !! sid = Some e -> e_handle e = None) -> inv st ->
  inv (set_sources st (delete sid (sources st))).
Proof.
  intros He [I1 I2 I3 I4 I5 I6 I7 I8 I9]. split; cbn; try assumption.
  - intros i e k [_ H]%lookup_delete_Some. by eapply I2.
  - intros c a e Ha [_ H]%lookup_delete_Some. by eapply I6.
  - intros k t Ht Hrun. destruct (I7 k t Ht Hrun) as [(e & H & Hk) | H]; [|by right].
    left. exists e. cbn. rewrite lookup_delete_ne; [done|]. intros E. rewrite <- E in H.
    rewrite (He _ H) in Hk. done.
  - intros i e k [_ H]%lookup_delete_Some. by eapply I8.
Qed.

(** [wait] moves the handle into the call. *)
Lemma inv_wait st sid c e k : calls st !! c = None -> quiet st sid -> sources st !! sid = Some e ->
  e_handle e = Some k -> inv st ->
  inv (set_calls (set_sources st (<[sid := with_run e None (e_sink e)]> (sources st)))
         (<[c := Waiting sid k (match e_spec e with None => true | Some _ => false end)]> (calls st))).
Proof.
  intros Hc Hq He Hk [I1 I2 I3 I4 I5 I6 I7 I8 I9]. split; cbn; try assumption.
  - intros i e0 k0 [[<- <-] | [Hne H]]%lookup_insert_Some H0; [done | by eapply I2].
  - intros c' i k0 e0 [[_ ?] | [_ H]]%lookup_insert_Some; [done | by eapply I3].
  - intros c' i k0 rm [[<- E] | [_ H]]%lookup_insert_Some; [|by eapply I4]. simplify_eq. by eapply I2.
  - intros c1 c2 a b [[<- <-] | [Hne Ha]]%lookup_insert_Some [[<- <-] | [Hne' Hb]]%lookup_insert_Some Hs;
      [done | by destruct (Hq _ _ Hb) | by destruct (Hq _ _ Ha) | by eapply I5].
  - intros c' a e0 Ha [[E <-] | [Hne' H]]%lookup_insert_Some; [done|].
    apply lookup_insert_Some in Ha as [[<- <-] | [Hne Ha]]; [done | by eapply I6].
  - intros k0 t Ht Hrun. destruct (I7 k0 t Ht Hrun) as [(e0 & H & H0) | [(c' & e' & H) | (c' & rm & H)]].
    + destruct (decide (sid = t_sid t)) as [E | Hne].
      * right; right. exists c. eexists. cbn. rewrite lookup_insert_eq. rewrite <- E in H |- *.
        assert (e0 = e) as -> by congruence. assert (k0 = k) as -> by congruence. done.
      * left. exists e0. cbn. by rewrite lookup_insert_ne.
    + right; left. exists c', e'. cbn. rewrite lookup_insert_ne; [done | congruence].
    + right; right. exists c', rm. cbn. rewrite lookup_insert_ne; [done | congruence].
  - intros i e0 k0 [[<- <-] | [Hne H]]%lookup_insert_Some H0.
    + cbn in H0. right. destruct (I8 _ _ _ He H0) as [H1 | (c' & rm & H1)].
      * assert (k0 = k) as -> by congruence. exists c. eexists. by rewrite lookup_insert_eq.
      * exists c', rm. rewrite lookup_insert_ne; [done | congruence].
    + destruct (I8 _ _ _ H H0) as [H1 | (c' & rm & H1)]; [by left|].
      right. exists c', rm. rewrite lookup_insert_ne; [done | congruence].
Qed.
Lemma inv_wait_done st sid k rm c : calls st !! c = Some (Waiting sid k rm) -> is_finished st k = true -> inv st ->
  inv (set_calls (set_sources st (alter (fun e => with_run e (e_handle e) None) sid (sources st))) (delete c (calls st))).
Proof.
  intros Hc Hf [I1 I2 I3 I4 I5 I6 I7 I8 I9].
  assert (Hent : forall i e0, alter (fun e => with_run e (e_handle e) None) sid (sources st) !! i = Some e0 ->
    exists e, sources st !! i = Some e /\ e_handle e0 = e_handle e /\ (e_sink e0 = None \/ (e0 = e /\ i <> sid))).
  { intros i e0 [(-> & e & H & ->) | [Hne H]]%lookup_alter_Some; [exists e; by auto | exists e0; by auto]. }
  split; cbn; try assumption.
  - intros i e0 k0 (e & He & -> & _)%Hent H0. by eapply I2.
  - intros c' i k0 e0 [_ H]%lookup_delete_Some. by eapply I3.
  - intros c' i k0 rm0 [_ H]%lookup_delete_Some. by eapply I4.
  - intros c1 c2 a b [_ Ha]%lookup_delete_Some [_ Hb]%lookup_delete_Some. by eapply I5.
  - intros c' a e0 [_ Ha]%lookup_delete_Some (e & He & -> & _)%Hent. by eapply I6.
  - intros k0 t Ht Hrun. destruct (I7 k0 t Ht Hrun) as [(e0 & H & H0) | [(c' & e' & H) | (c' & rm0 & H)]].
    + left. destruct (decide (sid = t_sid t)) as [-> | Hne].
      * exists (with_run e0 (e_handle e0) None). cbn. by rewrite lookup_alter_eq, H.
      * exists e0. cbn. by rewrite lookup_alter_ne.
    + right; left. exists c', e'. cbn. rewrite lookup_delete_ne; [done | congruence].
    + right; right. exists c', rm0. cbn. rewrite lookup_delete_ne; [done|]. intros ->. simplify_eq.
      unfold is_finished in Hf. rewrite Ht in Hf. apply bool_decide_eq_true_1 in Hf. congruence.
  - intros i e0 k0 (e & He & Hh & Hs)%Hent H0. destruct Hs as [Hs | [-> Hne]]; [congruence|].
    destruct (I8 _ _ _ He H0) as [H1 | (c' & rm0 & H1)]; [by left|].
    right. exists c', rm0. rewrite lookup_delete_ne; [done | congruence].
Qed.

(** A task ends. *)
Lemma inv_task st k t : tasks st !! k = Some t -> inv st ->
  inv (set_tasks st (<[k := set_status TDone t]> (tasks st))).
Proof.
  intros Ht [I1 I2 I3 I4 I5 I6 I7 I8 I9].
  assert (Hal : forall i k0, alive st i k0 -> alive (set_tasks st (<[k := set_status TDone t]> (tasks st))) i k0).
  { intros i k0 (t0 & H & Hs & Hr). unfold alive. cbn. destruct (decide (k = k0)) as [<- | Hne].
    - exists (set_status TDone t). rewrite lookup_insert_eq. cbn. repeat split; [congruence | done].
    - exists t0. by rewrite lookup_insert_ne. }
  split; cbn; try assumption.
  - intros k0 t0 [[<- _] | [_ H]]%lookup_insert_Some; by eauto.
  - intros i e0 k0 H1 H2. exact (Hal _ _ (I2 _ _ _ H1 H2)).
  - intros c' i k0 e0 H. destruct (I3 _ _ _ _ H) as (H1 & H2 & H3). split; [done|]. split; [done|]. exact (Hal _ _ H3).
  - intros c' i k0 rm H. exact (Hal _ _ (I4 _ _ _ _ H)).
  - intros k0 t0 [[<- <-] | [Hne H]]%lookup_insert_Some Hrun; [done | exact (I7 k0 t0 H Hrun)].
Qed.

Lemma clear_finished_weaker st e : weaker st e (clear_finished st e).
Proof.
  unfold weaker, clear_finished, is_finished. destruct (e_handle e) as [k|] eqn:Hk; [|rewrite Hk; by auto].
  destruct (tasks st !! k) as [t|] eqn:Ht.
  - case_bool_decide as Hd; [|rewrite Hk; by auto]. right. split; [done|]. split; [done|].
    intros k' t' ? ?. simplify_eq. congruence.
  - right. split; [done|]. split; [done|]. intros k' t' ? ?. simplify_eq.
Qed.
Lemma inv_reap st : inv st -> inv (reap_finished st).
Proof.
  intros [I1 I2 I3 I4 I5 I6 I7 I8 I9].
  assert (Hent : forall i e', (omap (reap_entry st) (sources st) : gmap Z SourceEntry) !! i = Some e' ->
    exists e, sources st !! i = Some e /\ weaker st e e').
  { intros i e' H. rewrite lookup_omap in H. destruct (sources st !! i) as [e|]; [|done]. cbn in H.
    exists e. split; [done|]. unfold reap_entry in H. repeat case_match; simplify_eq; apply clear_finished_weaker. }
  split; cbn; try assumption.
  - intros i e' k (e & He & Hw)%Hent Hk. destruct Hw as [[Hh _] | [Hh _]]; [|congruence]. rewrite Hh in Hk. by eapply I2.
  - intros c a e' Ha (e & He & Hw)%Hent. destruct Hw as [[-> _] | [-> _]]; [by eapply I6 | done].
  - intros k t Ht Hrun. destruct (I7 k t Ht Hrun) as [(e & He & Hk) | H]; [|by right].
    left. exists e. cbn. rewrite lookup_omap, He. cbn. split; [|done]. unfold reap_entry, clear_finished.
    rewrite Hk. unfold is_finished. rewrite Ht, bool_decide_eq_false_2 by congruence. rewrite Hk. by destruct (e_spec e).
  - intros i e' k (e & He & Hw)%Hent Hs. destruct Hw as [[Hh [Hs' | Hs']] | (_ & Hs' & _)]; [|congruence..].
    rewrite Hh. rewrite Hs' in Hs. by eapply I8.
Qed.

(** ** Starts *)
Lemma register_sid st s g i : inv st -> Ingest.register_session Tx (ingest st) s = (g, i) ->
  i = Ingest.sid Tx s /\ forall j x, Ingest.registry Tx g !! j = Some x -> Ingest.sid Tx x = j.
Proof.
  intros I H. unfold Ingest.register_session, Ingest.insert_if_absent in H.
  destruct (Ingest.registry Tx (ingest st) !! Ingest.sid Tx s) as [x|] eqn:E; simplify_eq; cbn.
  - split; [by eapply i_registry | apply (i_registry _ I)].
  - split; [done|]. intros j x [[<- <-] | [_ H]]%lookup_insert_Some; [done | by eapply i_registry].
Qed.
Lemma inv_launch st c sid spec dir0 o dir kind iface tx registers e has_sink :
  calls st !! c = Some (Starting sid spec dir0 o) -> inv st ->
  inv (proceed c (launch st sid dir kind iface tx registers e has_sink)).
Proof.
  intros Hc I. unfold launch. destruct registers.
  - destruct (Ingest.register_session _ _ _) as [g i] eqn:Hr. apply register_sid in Hr as [-> Hg]; [|done].
    unfold proceed. cbn. apply (inv_spawn st c sid spec dir0 o); try done. cbn. destruct has_sink; auto.
  - unfold proceed. cbn. apply (inv_give_up (mkState _ _ _ _ _ _)); cbn.
    + intros a Ha. by simplify_eq.
    + by apply inv_exited.
Qed.
Lemma inv_failed st c sid spec dir o e : calls st !! c = Some (Starting sid spec dir o) -> inv st ->
  inv (proceed c (st, Err e)).
Proof. intros Hc I. apply (inv_give_up st); [intros a Ha; by simplify_eq | done]. Qed.
Lemma inv_start_spec st c sid spec dir o w : calls st !! c = Some (Starting sid spec dir o) -> inv st ->
  inv (proceed c (start_spec_with_sid st sid spec dir o w)).
Proof.
  intros Hc I. unfold start_spec_with_sid, start_duplex_spec, start_source_only_spec, start_pcap_source_with_sid,
    start_remote_spec, start_default_pipeline.
  repeat case_match; first [by eapply inv_failed | by eapply inv_launch].
Qed.

Lemma proceed_launch_overwrite st c a sid dir kind iface tx registers e has_sink :
  proceed c (launch (set_calls st (<[c := a]> (calls st))) sid dir kind iface tx registers e has_sink) =
  proceed c (launch st sid dir kind iface tx registers e has_sink).
Proof.
  unfold launch. destruct registers; cbn.
  - destruct (Ingest.register_session _ _ _). unfold proceed, set_calls. cbn. by rewrite insert_insert_eq.
  - unfold proceed, set_calls. cbn. by rewrite delete_insert_eq.
Qed.

(** Giving up a call number that is not in use. *)
Lemma proceed_err c st e : calls st !! c = None -> proceed c (st, Err e) = st.
Proof. intros H. unfold proceed, set_calls. cbn. rewrite delete_id by done. by destruct st. Qed.

Lemma publish_registry st i b g r : inv st -> Ingest.publish_wire Tx send (ingest st) i b = Ok (g, r) ->
  forall j x, Ingest.registry Tx g !! j = Some x -> Ingest.sid Tx x = j.
Proof.
  intros I H j x Hx. unfold Ingest.publish_wire, Ingest.get, Ingest.record_frame in H.
  destruct (Ingest.registry Tx (ingest st) !! i) as [s|] eqn:Es; [|simplify_eq; by eapply i_registry].
  destruct (Ingest.Fanout_publish _ _ _ _) as [f' d]. cbn [mbind res_bind] in H. unfold checked in H.
  repeat match type of H with context [in_range ?lo ?hi ?z] => destruct (in_range lo hi z) end;
    cbn [mbind res_bind] in H; try discriminate H. simplify_eq. cbn in Hx.
  apply lookup_insert_Some in Hx as [[<- <-] | [_ Hx]]; [cbn|]; by eapply i_registry.
Qed.

Lemma inv_resume st sid c : quiet st sid -> calls st !! c = None -> inv st -> inv (proceed c (resume st sid)).
Proof.
  intros Hq Hc I. unfold resume. destruct (sources st !! sid) as [e|] eqn:He; [|by rewrite proceed_err].
  assert (I' : inv (set_sources st (<[sid := clear_finished st e]> (sources st))))
    by (eapply inv_weaken; [exact He | apply clear_finished_weaker | done]).
  destruct (e_handle (clear_finished st e)) as [k|] eqn:Hh; [by rewrite proceed_err|].
  destruct (e_spec (clear_finished st e)) as [spec|]; [|by rewrite proceed_err].
  apply (inv_begin (set_sources st _)); [done | done | | done].
  cbn. intros e0 H. rewrite lookup_insert_eq in H. congruence.
Qed.
Lemma inv_restart st sid o c : quiet st sid -> calls st !! c = None -> inv st ->
  inv (proceed c (restart_with_options st sid o)).
Proof.
  intros Hq Hc I. unfold restart_with_options. destruct (sources st !! sid) as [e|] eqn:He; [|by rewrite proceed_err].
  destruct (e_spec e) as [spec|]; [|by rewrite proceed_err].
  apply (inv_begin (set_tasks (set_sources st _) _)); [done | done | | by apply inv_abort].
  cbn. intros e0 H. rewrite lookup_insert_eq in H. by simplify_eq.
Qed.
Lemma inv_start_new st sid spec o c : unused st sid -> calls st !! c = None -> inv st ->
  inv (set_calls st (<[c := Starting sid spec None o]> (calls st))).
Proof. intros (Hs & Hq & _) Hc I. apply inv_begin; try done. intros e He. congruence. Qed.
Lemma inv_start_source st sid w c : unused st sid -> calls st !! c = None -> inv st ->
  inv (proceed c (start_source st sid w)).
Proof.
  intros Hu Hc I. unfold start_source.
  rewrite <- (proceed_launch_overwrite st c (Starting sid (Mock []) None no_options)).
  eapply inv_launch; [cbn; by rewrite lookup_insert_eq | by apply inv_start_new].
Qed.
Lemma inv_remove st sid : inv st -> inv (fst (remove st sid)).
Proof.
  intros I. unfold remove, Ingest.remove. cbn [fst].
  destruct (sources st !! sid) as [e|] eqn:He; cbn [mbind option_bind].
  - pose proof (inv_abort st sid e He I) as I1.
    apply (inv_delete _ sid) in I1; [|cbn; intros e0; rewrite lookup_insert_eq; intros; by simplify_eq].
    eapply inv_same; [..|exact I1]; cbn; try done; [by rewrite delete_insert_eq|].
    intros i x [_ H]%lookup_delete_Some. by eapply i_registry.
  - eapply inv_same; [..|exact I]; cbn; try done; [by apply delete_id|].
    intros i x [_ H]%lookup_delete_Some. by eapply i_registry.
Qed.

Lemma inv_step st st' : step true st st' -> inv st -> inv st'.
Proof.
  intros [s Hs | sid spec o c Hu Hc | sid w c Hu Hc | sid c Hq Hc | sid o c Hq Hc | sid spec dir o w c Hc
         | sid k e c Hc | sid c st1 a Hq Hc Hw | sid k rm c Hc Hf | sid | sid Hq | | sid | k t Ht | i b g r Hp] I.
  - eapply inv_same; [..|exact I]; try done. apply (i_registry _ I).
  - by apply inv_start_new.
  - by apply inv_start_source.
  - by apply inv_resume; auto.
  - by apply inv_restart; auto.
  - by apply inv_start_spec.
  - by apply (inv_insert st sid k e c).
  - unfold wait in Hw. destruct (sources st !! sid) as [e|] eqn:He; [|done]. cbn in Hw.
    destruct (e_handle e) as [k|] eqn:Hk; [|done]. cbn in Hw. simplify_eq.
    exact (inv_wait st sid c e k Hc (Hq eq_refl) He Hk I).
  - pose proof (inv_wait_done st sid k rm c Hc Hf I) as I1. unfold wait_done. destruct rm; [|exact I1].
    refine (inv_delete _ sid _ I1). cbn. intros e0 [(_ & e & He & ->) | [? _]]%lookup_alter_Some; [|done].
    cbn. by eapply (i_idle _ I _ _ _ Hc).
  - unfold stop. destruct (sources st !! sid) as [e|] eqn:He; [by apply inv_abort | done].
  - by apply inv_remove.
  - by apply inv_reap.
  - unfold write. destruct (sources st !! sid) as [e|] eqn:He; [|done].
    eapply inv_weaken; [exact He | apply clear_finished_weaker | done].
  - by apply inv_task.
  - eapply inv_same; [..|exact I]; try done. by apply (publish_registry st i b g r).
Qed.
Lemma inv_reachable s st : reachable true s st -> inv st.
Proof. induction 1; [apply inv_new | by eapply inv_step]. Qed.

Definition running (st : State) (sid : Z) (k : nat) : Prop :=
  exists t, tasks st !! k = Some t /\ t_sid t = sid /\ t_status t = TRunning.

Lemma quiet_running st sid k : inv st -> quiet st sid -> running st sid k ->
  exists e, sources st !! sid = Some e /\ e_handle e = Some k.
Proof.
  intros I Hq (t & Ht & <- & Hr). destruct (i_owned _ I _ _ Ht Hr) as [H | [(c & e & H) | (c & rm & H)]];
    [done | by destruct (Hq _ _ H)..].
Qed.
Lemma one_running st sid k k' : inv st -> running st sid k -> running st sid k' -> k = k'.
Proof.
  intros I (t & Ht & Hs & Hr) (t' & Ht' & Hs' & Hr').
  pose proof (i_owned _ I _ _ Ht Hr) as Ho. pose proof (i_owned _ I _ _ Ht' Hr') as Ho'.
  unfold owned in *. rewrite Hs in Ho. rewrite Hs' in Ho'.
  assert (Hid : forall c a e, calls st !! c = Some a -> call_sid a = sid -> sources st !! sid = Some e -> e_handle e = None)
    by (intros c a e Ha <- He; by eapply (i_idle _ I)).
  assert (Hcc : forall c c' a b, calls st !! c = Some a -> calls st !! c' = Some b -> call_sid a = sid -> call_sid b = sid -> a = b).
  { intros c c' a b Ha Hb E E'. assert (c = c') as -> by (eapply (i_calls _ I); [exact Ha | exact Hb | congruence]). congruence. }
  destruct Ho as [(e & He & Hk) | [(c & e & Hc) | (c & rm & Hc)]];
    destruct Ho' as [(e' & He' & Hk') | [(c' & e' & Hc') | (c' & rm' & Hc')]];
    try (pose proof (Hcc _ _ _ _ Hc Hc' eq_refl eq_refl) as E; by inversion E).
  all: first [ congruence | pose proof (Hid _ _ _ Hc' eq_refl He); congruence | pose proof (Hid _ _ _ Hc eq_refl He'); congruence ].
Qed.

Lemma abort_running ts h k t : abort_handle ts h !! k = Some t -> t_status t = TRunning ->
  ts !! k = Some t /\ h <> Some k.
Proof. intros (t0 & H & _ & Hr)%abort_lookup Hrun. by destruct (Hr Hrun) as [-> Hne]. Qed.
Lemma stop_stops st sid k : inv st -> quiet st sid -> ~ running (fst (stop st sid)) sid k.
Proof.
  intros I Hq (t & Ht & Hs & Hr). unfold stop in Ht. destruct (sources st !! sid) as [e|] eqn:He; cbn in Ht.
  - apply abort_running in Ht as [Ht Hne]; [|done].
    destruct (quiet_running st sid k I Hq) as (e0 & He0 & Hk); [by exists t | congruence].
  - destruct (quiet_running st sid k I Hq) as (e0 & He0 & Hk); [by exists t | congruence].
Qed.
Lemma remove_removes st sid k : inv st -> quiet st sid -> ~ running (fst (remove st sid)) sid k.
Proof.
  intros I Hq (t & Ht & Hs & Hr). unfold remove, Ingest.remove in Ht. cbn in Ht.
  apply abort_running in Ht as [Ht Hne]; [|done].
  destruct (quiet_running st sid k I Hq) as (e0 & He0 & Hk); [by exists t|]. by rewrite He0 in Hne.
Qed.
Lemma status_running st sid : inv st -> quiet st sid -> (status_of st sid = Running <-> exists k, running st sid k).
Proof.
  intros I Hq. unfold status_of. split.
  - destruct (sources st !! sid) as [e|] eqn:He; [|done]. destruct (e_handle e) as [k|] eqn:Hk; [|done].
    destruct (i_entry _ I _ _ _ He Hk) as (t & Ht & Hs & Ha). unfold is_finished. rewrite Ht.
    case_bool_decide as Hd; [done|]. intros _. exists k, t. split; [done|]. split; [done|].
    by destruct (t_status t).
  - intros [k Hr]. destruct (quiet_running st sid k I Hq Hr) as (e & -> & ->).
    destruct Hr as (t & Ht & _ & Hs). unfold is_finished. rewrite Ht. by rewrite bool_decide_eq_false_2 by congruence.
Qed.

(** ** The list of sources *)
#[global] Instance sid_le_trans : Transitive sid_le.
Proof. intros a b c. unfold sid_le. lia. Qed.
#[global] Instance sid_le_total : Total sid_le.
Proof. intros a b. unfold sid_le. lia. Qed.
Lemma omap_snapshot st l : (forall i, i ∈ l -> is_Some (Ingest.registry Tx (ingest st) !! i)) ->
  map sn_sid (omap (snapshot st) l) = l /\ Forall (fun n => sn_status n = status_of st (sn_sid n)) (omap (snapshot st) l).
Proof.
  induction l as [|i l IH]; intros Hl; [done|]. destruct IH as [IH1 IH2]; [intros; apply Hl; by right|].
  destruct (Hl i ltac:(left)) as [x Hx]. 
  assert (Hsn : exists n, snapshot st i = Some n /\ sn_sid n = i /\ sn_status n = status_of st i)
    by (unfold snapshot, Ingest.get; rewrite Hx; by eexists).
  destruct Hsn as (n & Hn & Hi & Hs). cbn [omap list_omap]. change (list_omap _ _ (snapshot st)) with (omap (M := list) (snapshot st)).
  rewrite Hn. cbn [map]. split; [by rewrite IH1, Hi | constructor; [by rewrite Hi | done]].
Qed.
Lemma list_sources_spec st :
  Sorted sid_le (list_sources st) /\
  map sn_sid (list_sources st) ≡ₚ Ingest.ids Tx (Ingest.registry Tx (ingest st)) /\
  Forall (fun n => sn_status n = status_of st (sn_sid n)) (list_sources st).
Proof.
  unfold list_sources. destruct (omap_snapshot st (Ingest.ids Tx (Ingest.registry Tx (ingest st)))) as [H1 H2].
  { intros i Hi. unfold Ingest.ids in Hi. apply list_elem_of_fmap in Hi as ([i' x] & -> & Hx).
    apply elem_of_map_to_list in Hx. by exists x. }
  split; [apply Sorted_merge_sort; apply _|]. split.
  - change (fmap (M := list) sn_sid (merge_sort sid_le (omap (snapshot st) (Ingest.ids Tx (Ingest.registry Tx (ingest st)))))
            ≡ₚ Ingest.ids Tx (Ingest.registry Tx (ingest st))).
    rewrite merge_sort_Permutation. by apply Permutation_refl'.
  - by rewrite merge_sort_Permutation.
Qed.


(** ** Runs as functions *)
Definition do_spawn (st : State) (c : nat) (w : World) : State :=
  match calls st !! c with
  | Some (Starting sid spec dir o) => proceed c (start_spec_with_sid st sid spec dir o w)
  | _ => st
  end.
Definition do_insert (st : State) (c : nat) : State :=
  match calls st !! c with
  | Some (Spawned sid k e) => set_calls (insert_spawned st sid e) (delete c (calls st))
  | _ => st
  end.
Definition do_end (st : State) (k : nat) : State :=
  match tasks st !! k with Some t => set_tasks st (<[k := set_status TDone t]> (tasks st)) | None => st end.
Lemma reach_spawn x s st c w : reachable x s st -> reachable x s (do_spawn st c w).
Proof.
  intros Hr. unfold do_spawn. destruct (calls st !! c) as [[sid spec dir o | |]|] eqn:E; try exact Hr.
  eapply reach_step; [exact Hr | by apply step_spawn].
Qed.
Lemma reach_insert x s st c : reachable x s st -> reachable x s (do_insert st c).
Proof.
  intros Hr. unfold do_insert. destruct (calls st !! c) as [[| sid k e |]|] eqn:E; try exact Hr.
  eapply reach_step; [exact Hr | by eapply step_insert].
Qed.
Lemma reach_end x s st k : reachable x s st -> reachable x s (do_end st k).
Proof.
  intros Hr. unfold do_end. destruct (tasks st !! k) as [t|] eqn:E; [|exact Hr].
  eapply reach_step; [exact Hr | by apply step_task].
Qed.
End Manager.

(** A mock source under a session root, started, ended and resumed twice. *)
Module Example.
Definition settings0 : Settings := default_settings (Some (lit "root")).
Definition w0 : World unit := mkWorld unit (lit "t") 7 true None true true (lit "mock") (lit "m") tt.
Definition dec0 (b _ : list Z) : list Z * bool := (b, false).
Definition spawn0 (st : State unit) (c : nat) : State unit :=
  do_spawn unit dec0 (fun t => t) (fun _ _ => None) st c w0.
Definition started : State unit :=
  do_insert unit (spawn0 (proceed unit 0 (new unit settings0, Ok (Starting 1 (Mock (lit "m")) None no_options))) 0) 0.
Definition ended : State unit := do_end unit started 0.
Definition resumed_twice : State unit :=
  let both := proceed unit 1 (resume unit (proceed unit 0 (resume unit ended 1)) 1) in
  do_insert unit (do_insert unit (spawn0 (spawn0 both 0) 1) 0) 1.

Lemma started_reachable send x : reachable unit send dec0 (fun t => t) (fun _ _ => None) x settings0 started.
Proof.
  apply reach_insert, reach_spawn. eapply reach_step; [apply reach_new|].
  apply step_start; [|done]. split; [done|]. unfold quiet, new. cbn. split; intros k t H; by rewrite lookup_empty in H.
Qed.
Lemma resumed_twice_calls c : calls unit resumed_twice !! c = None.
Proof.
  assert (E : map_to_list (calls unit resumed_twice) = []) by (vm_compute; reflexivity).
  apply map_to_list_empty_iff in E. rewrite E. apply lookup_empty.
Qed.
End Example.


(** Finding: nothing in the code makes the calls on one source exclude each
    other.  Two [resume] calls that overlap both pass the check for an active
    task, both start a runner on the same session directory, and the second
    insertion drops the handle of the first: that task keeps running, stopping
    the source reports success and leaves it, and no entry or call holds it. *)
Theorem resume_race_leaks_task send :
  exists st sid k1 k2 t1 t2,
    reachable unit send Example.dec0 (fun t => t) (fun _ _ => None) false Example.settings0 st /\
    k1 <> k2 /\ tasks unit st !! k1 = Some t1 /\ tasks unit st !! k2 = Some t2 /\
    t_sid t1 = sid /\ t_sid t2 = sid /\ t_status t1 = TRunning /\ t_status t2 = TRunning /\
    t_dir t1 = t_dir t2 /\ t_dir t1 <> None /\
    ~ owned unit st k1 t1 /\
    snd (stop unit st sid) = true /\ running unit (fst (stop unit st sid)) sid k1.
Proof.
  exists Example.resumed_twice, 1, 1%nat, 2%nat. eexists. eexists.
  split.
  { apply reach_insert, reach_insert, reach_spawn, reach_spawn.
    eapply reach_step; [eapply reach_step; [apply reach_end, Example.started_reachable|]|]; apply step_resume; done. }
  split; [done|]. split; [vm_compute; reflexivity|]. split; [vm_compute; reflexivity|].
  do 5 (split; [reflexivity|]). split; [discriminate|]. split; [|split; [vm_compute; reflexivity|]].
  - intros [(e & He & Hk) | [(c & e & Hc) | (c & rm & Hc)]]; [vm_compute in He; simplify_eq|..];
      rewrite Example.resumed_twice_calls in Hc; discriminate Hc.
  - eexists. split; [vm_compute; reflexivity|]. split; reflexivity.
Qed.

(** Options given on a restart replace those of the source field by field and
    become its defaults; restarting without options changes none. *)
Lemma merge_no_options base : merge_start_options base no_options = base.
Proof. by destruct base. Qed.
Lemma merge_start_options_assoc a b c :
  merge_start_options (merge_start_options a b) c = merge_start_options a (merge_start_options b c).
Proof. unfold merge_start_options, opt_or. cbn. f_equal; repeat case_match; congruence. Qed.
