(* ===== verification/Export.v ===== *)
(** * Downloading exports: tickets, file names and bundles

    crates/server/src/export_api.rs: single-use download tickets, the names of
    exported files and of the entries of a bundle, and the writer of the
    uncompressed ZIP a bundle is.  Random identifiers, the monotonic clock (in
    nanoseconds), UUID parsing and bearer verification are parameters; files
    are read and written without I/O errors. *)
From stdpp Require Import base numbers strings gmap list.
From S2P Require Import Prelude Text.

Local Open Scope Z_scope.
Local Open Scope tm_scope.

Inductive ExportError :=
| AuthRequired | TicketMissing | TicketExpired | TicketMismatch | InvalidSid | UnsupportedFormat
| NoEntries | TooManyEntries | TooManyDuplicates | NameTooLong | TooLarge | EntryChanged.
Abbreviation eres A := (res ExportError A).

Inductive ExportFormat := FText | FCsv | FJsonl | FPcapng.
#[export] Instance ExportFormat_eq_dec : EqDecision ExportFormat.
Proof. solve_decision. Defined.
Definition format_parse (v : list Z) : eres ExportFormat :=
  let s := to_ascii_lowercase (trim v) in
  if str_eqb s (lit "text") then Ok FText
  else if str_eqb s (lit "csv") then Ok FCsv
  else if str_eqb s (lit "jsonl") then Ok FJsonl
  else if str_eqb s (lit "pcapng") then Ok FPcapng
  else Err UnsupportedFormat.
Definition extension (f : ExportFormat) : list Z :=
  lit match f with FText => "txt" | FCsv => "csv" | FJsonl => "jsonl" | FPcapng => "pcapng" end.
Definition format_label (f : ExportFormat) : list Z :=
  lit match f with FText => "text" | FCsv => "csv" | FJsonl => "jsonl" | FPcapng => "pcapng" end.

(** ** Tickets *)
Definition DOWNLOAD_TICKET_TTL : Z := 60 * 1000000000.

Module Tickets.
Section Tickets.
  (** What a ticket is good for: a scope, or a whole bundle request. *)
  Context {P : Type} `{!EqDecision P}.

Record Ticket := mkTicket { scope : P; expires_at : Z }.
Abbreviation DownloadTickets := (gmap (list Z) Ticket).

Definition prune_expired (ts : DownloadTickets) (now : Z) : DownloadTickets :=
  filter (fun kt => now < expires_at (snd kt)) ts.
(** The clock is read twice; [ticket] is the fresh random name. *)
Definition issue (ts : DownloadTickets) (now1 now2 : Z) (ticket : list Z) (p : P) : DownloadTickets :=
  <[ticket := mkTicket p (now2 + DOWNLOAD_TICKET_TTL)]> (prune_expired ts now1).

Definition consume (ts : DownloadTickets) (now : Z) (ticket : list Z) (p : P) : DownloadTickets * eres unit :=
  let ts := prune_expired ts now in
  match ts !! ticket with
  | None => (ts, Err TicketMissing)
  | Some stored =>
      (delete ticket ts,
       if expires_at stored <=? now then Err TicketExpired
       else if bool_decide (scope stored <> p) then Err TicketMismatch else Ok tt)
  end.
Definition consume_bundle (ts : DownloadTickets) (now : Z) (ticket : list Z) : DownloadTickets * eres P :=
  let ts := prune_expired ts now in
  match ts !! ticket with
  | None => (ts, Err TicketMissing)
  | Some stored =>
      (delete ticket ts, if expires_at stored <=? now then Err TicketExpired else Ok (scope stored))
  end.

(** ** Histories *)
Inductive op :=
| Issue (now1 now2 : Z) (ticket : list Z) (p : P)
| Consume (now : Z) (ticket : list Z) (p : P).
Definition apply_op (ts : DownloadTickets) (o : op) : DownloadTickets :=
  match o with
  | Issue n1 n2 k p => issue ts n1 n2 k p
  | Consume n k p => fst (consume ts n k p)
  end.
Definition after (h : list op) : DownloadTickets := foldl apply_op ∅ h.
(** No later than [now]: the clock is monotonic. *)
Definition before (now : Z) (o : op) : Prop :=
  match o with Issue n1 n2 _ _ => n1 <= now /\ n2 <= now | Consume n _ _ => n <= now end.
Definition names (k : list Z) (o : op) : Prop := match o with Issue _ _ k' _ | Consume _ k' _ => k' = k end.
#[global] Instance names_dec k o : Decision (names k o).
Proof. destruct o; cbn; apply _. Defined.
Definition valid (h : list op) (now : Z) (k : list Z) (p : P) : Prop :=
  exists h1 n1 n2 h2, h = h1 ++ Issue n1 n2 k p :: h2 /\ Forall (fun o => ~ names k o) h2 /\
    now < n2 + DOWNLOAD_TICKET_TTL.

Lemma prune_lookup ts now k t : prune_expired ts now !! k = Some t <-> ts !! k = Some t /\ now < expires_at t.
Proof. unfold prune_expired. by rewrite map_lookup_filter_Some. Qed.

Lemma snoc_split {A} (h : list A) o h1 x h2 : h ++ [o] = h1 ++ x :: h2 ->
  (h2 = [] /\ h1 = h /\ o = x) \/ (exists h2', h2 = h2' ++ [o] /\ h = h1 ++ x :: h2').
Proof.
  intros E. destruct h2 as [|y h2' _] using rev_ind.
  - apply app_inj_tail in E as [-> ->]. by left.
  - right. rewrite app_comm_cons, app_assoc in E. apply app_inj_tail in E as [-> ->]. by eauto.
Qed.
Lemma valid_snoc_other h o now k p : ~ names k o -> valid (h ++ [o]) now k p <-> valid h now k p.
Proof.
  intros Hk. split.
  - intros (h1 & n1 & n2 & h2 & [(_ & _ & ->) | (h2' & -> & ->)]%snoc_split & Hf & Hn); [by destruct Hk|].
    apply Forall_app in Hf as [Hf _]. exists h1, n1, n2, h2'. done.
  - intros (h1 & n1 & n2 & h2 & -> & Hf & Hn). exists h1, n1, n2, (h2 ++ [o]).
    rewrite <- app_assoc. split; [done|]. split; [|done]. apply Forall_app. by rewrite Forall_singleton.
Qed.
Lemma valid_snoc_consume h m p' now k p : ~ valid (h ++ [Consume m k p']) now k p.
Proof.
  intros (h1 & n1 & n2 & h2 & [(_ & _ & ?) | (h2' & -> & ->)]%snoc_split & Hf & Hn); [done|].
  apply Forall_app in Hf as [_ Hf]. rewrite Forall_singleton in Hf. by destruct (Hf eq_refl).
Qed.
Lemma valid_snoc_issue h m1 m2 p' now k p :
  valid (h ++ [Issue m1 m2 k p']) now k p <-> p' = p /\ now < m2 + DOWNLOAD_TICKET_TTL.
Proof.
  split.
  - intros (h1 & n1 & n2 & h2 & [(_ & _ & ?) | (h2' & -> & ->)]%snoc_split & Hf & Hn); [by simplify_eq|].
    apply Forall_app in Hf as [_ Hf]. rewrite Forall_singleton in Hf. by destruct (Hf eq_refl).
  - intros [-> Hn]. exists h, m1, m2, []. by repeat split.
Qed.

(** What a live ticket in the table means. *)
Lemma after_lookup h now k p : Forall (before now) h ->
  (exists e, now < e /\ after h !! k = Some (mkTicket p e)) <-> valid h now k p.
Proof.
  induction h as [|o h IH] using rev_ind; intros Hb.
  { split; [intros (e & _ & H); unfold after in H; cbn in H; by rewrite lookup_empty in H | intros ([|] & n1 & n2 & h2 & E & _); done]. }
  apply Forall_app in Hb as [Hb Ho]. rewrite Forall_singleton in Ho. specialize (IH Hb).
  unfold after. rewrite foldl_app. cbn [foldl]. fold (after h).
  assert (Hpr : forall m, m <= now -> (exists e, now < e /\ prune_expired (after h) m !! k = Some (mkTicket p e)) <-> valid h now k p).
  { intros m Hm. rewrite <- IH. setoid_rewrite prune_lookup. cbn [expires_at].
    split; intros (e & He & H); exists e; [tauto | split; [done|]; split; [done | lia]]. }
  destruct o as [m1 m2 k' p' | m k' p']; cbn [apply_op before] in *.
  - unfold issue. destruct (decide (k' = k)) as [-> | Hk].
    + rewrite valid_snoc_issue. setoid_rewrite lookup_insert_eq. split.
      * intros (e & He & H). by simplify_eq.
      * intros [-> Hn]. eauto.
    + rewrite valid_snoc_other by exact Hk. setoid_rewrite (lookup_insert_ne _ _ _ _ Hk). apply Hpr, Ho.
  - unfold consume. destruct (decide (k' = k)) as [-> | Hk].
    + split; [|by intros ?%valid_snoc_consume]. intros (e & _ & H).
      destruct (prune_expired (after h) m !! k) eqn:E; cbn [fst] in H; [by rewrite lookup_delete_eq in H | congruence].
    + rewrite valid_snoc_other by exact Hk. rewrite <- (Hpr m Ho).
      destruct (prune_expired (after h) m !! k'); cbn [fst]; [|done]. by setoid_rewrite (lookup_delete_ne _ _ _ Hk).
Qed.
Lemma consume_ok h now k p : Forall (before now) h ->
  snd (consume (after h) now k p) = Ok tt <-> valid h now k p.
Proof.
  intros Hb. rewrite <- after_lookup by done. unfold consume.
  destruct (prune_expired (after h) now !! k) as [[p' e]|] eqn:E; cbn [snd expires_at scope].
  - apply prune_lookup in E as [E He]. cbn [expires_at] in He. rewrite (proj2 (Z.leb_gt _ _)) by lia.
    case_bool_decide as Hp; split; [done | intros (e' & _ & H); congruence | | done].
    intros _. exists e. split; [done|]. destruct (decide (p' = p)) as [->|]; [done | tauto].
  - split; [done|]. intros (e & He & H). assert (H' : prune_expired (after h) now !! k = Some (mkTicket p e)) by by apply prune_lookup.
    congruence.
Qed.
Lemma consume_bundle_ok h now k p : Forall (before now) h ->
  snd (consume_bundle (after h) now k) = Ok p <-> valid h now k p.
Proof.
  intros Hb. rewrite <- after_lookup by done. unfold consume_bundle.
  destruct (prune_expired (after h) now !! k) as [[p' e]|] eqn:E; cbn [snd expires_at scope].
  - apply prune_lookup in E as [E He]. cbn [expires_at] in He. rewrite (proj2 (Z.leb_gt _ _)) by lia.
    split; [intros ?; simplify_eq; eauto | intros (e' & _ & H); congruence].
  - split; [done|]. intros (e & He & H). assert (H' : prune_expired (after h) now !! k = Some (mkTicket p e)) by by apply prune_lookup.
    congruence.
Qed.
End Tickets.
Arguments Ticket : clear implicits.
Arguments op : clear implicits.
End Tickets.

(** ** Requests *)
Record ExportQuery := mkQuery {
  q_format : list Z; q_tz : option (list Z); q_encoding : option (list Z); q_ticket : option (list Z);
  q_filename : option (list Z) }.
Record ExportDefaults := mkDefaults { d_timezone : option (list Z); d_encoding : option (list Z) }.
Record DownloadTicketScope := mkScope {
  sc_sid : Z; sc_format : ExportFormat; sc_timezone : option (list Z); sc_encoding : option (list Z) }.
#[export] Instance DownloadTicketScope_eq_dec : EqDecision DownloadTicketScope.
Proof. solve_decision. Defined.

Definition clean_optional (v : option (list Z)) : option (list Z) :=
  v ≫= fun v => match trim v with [] => None | t => Some t end.
Definition or_else {A} (a b : option A) : option A := match a with Some _ => a | None => b end.

Section Requests.
  Variable parse_uuid : list Z -> option Z.

Definition ticket_scope (sid_text : list Z) (q : ExportQuery) (d : ExportDefaults) : eres DownloadTicketScope :=
  let* sid := ok_or (parse_uuid sid_text) InvalidSid in
  let* f := format_parse (q_format q) in
  Ok (mkScope sid f (or_else (clean_optional (q_tz q)) (d_timezone d))
        (or_else (clean_optional (q_encoding q)) (d_encoding d))).

Definition validate_bundle_request (entries : Z) (format : list Z) : eres unit :=
  if entries =? 0 then Err NoEntries
  else if 0xffff <? entries then Err TooManyEntries
  else do* format_parse format in Ok tt.

(** [authorized]: what [authorize_export] says of the request's headers. *)
Definition authorize_export_request (authorized : bool) (ts : gmap (list Z) (Tickets.Ticket DownloadTicketScope))
    (now : Z) (sid_text : list Z) (q : ExportQuery) (d : ExportDefaults)
  : gmap (list Z) (Tickets.Ticket DownloadTicketScope) * eres unit :=
  if authorized then (ts, Ok tt)
  else match q_ticket q with
       | None => (ts, Err AuthRequired)
       | Some ticket =>
           match ticket_scope sid_text q d with
           | Ok sc => Tickets.consume ts now ticket sc
           | Err e => (ts, Err e)
           | Panic => (ts, Panic)
           end
       end.

(** A download is let through exactly for an authorized request, or for a
    ticket that was issued less than a minute ago for the same session,
    format, time zone and encoding and that no request has named since; and
    once a request has presented a ticket, whatever it was told, that ticket
    never admits another request. *)
Theorem download_authorized authorized h now sid q d :
  Forall (Tickets.before now) h ->
  (snd (authorize_export_request authorized (Tickets.after h) now sid q d) = Ok tt <->
   authorized = true \/
   exists ticket sc, q_ticket q = Some ticket /\ ticket_scope sid q d = Ok sc /\ Tickets.valid h now ticket sc) /\
  (forall ticket sc later h' sc',
    Forall (Tickets.before later) (h ++ Tickets.Consume now ticket sc :: h') ->
    Forall (fun o => forall n1 n2 p, o <> Tickets.Issue n1 n2 ticket p) h' ->
    snd (Tickets.consume (Tickets.after (h ++ Tickets.Consume now ticket sc :: h')) later ticket sc') <> Ok tt).
Proof.
  intros Hb. split.
  - unfold authorize_export_request. destruct authorized; [split; [by left | done]|].
    destruct (q_ticket q) as [ticket|]; [|split; [done | by intros [? | (? & ? & ? & _)]]].
    destruct (ticket_scope sid q d) as [sc|e|].
    + rewrite Tickets.consume_ok by done. split; [eauto 6|]. intros [? | (t & s & Ht & Hs & Hv)]; [done|]. by simplify_eq.
    + split; [done | by intros [? | (? & ? & _ & ? & _)]].
    + split; [done | by intros [? | (? & ? & _ & ? & _)]].
  - intros ticket sc later h' sc' Hb' Hn Hok. apply Tickets.consume_ok in Hok; [|done].
    clear Hb'. induction h' as [|o h' IH] using rev_ind; [by apply Tickets.valid_snoc_consume in Hok|].
    rewrite Forall_app, Forall_singleton in Hn. destruct Hn as [Hn Ho].
    rewrite app_comm_cons, app_assoc in Hok.
    destruct (decide (Tickets.names ticket o)) as [Hk | Hk].
    + destruct o as [n1 n2 k p | n k p]; cbn in Hk; subst k; [by destruct (Ho n1 n2 p) | by apply Tickets.valid_snoc_consume in Hok].
    + apply IH; [done|]. by apply Tickets.valid_snoc_other in Hok.
Qed.
End Requests.

Definition uuid1 (s : list Z) : option Z := if str_eqb s (lit "1") then Some 1 else None.
Definition query1 : ExportQuery := mkQuery (lit " CSV ") None (Some []) (Some (lit "t")) None.
Lemma download_authorized_witness :
  snd (authorize_export_request uuid1 false
         (Tickets.after [Tickets.Issue 0 1 (lit "t") (mkScope 1 FCsv None None)]) 60000000000 (lit "1") query1
         (mkDefaults None None)) = Ok tt.
Proof.
  apply (download_authorized uuid1 false [Tickets.Issue 0 1 (lit "t") (mkScope 1 FCsv None None)] 60000000000 (lit "1")
    query1 (mkDefaults None None)).
  - constructor; [split; vm_compute; discriminate | constructor].
  - right. exists (lit "t"), (mkScope 1 FCsv None None). split; [reflexivity|]. split; [vm_compute; reflexivity|].
    exists [], 0, 1, []. split; [reflexivity|]. split; [constructor | vm_compute; reflexivity].
Defined.

(** ** File names *)
Definition invalid_char (ch : Z) : bool :=
  existsb (fun c => ch =? c) [60; 62; 58; 34; 47; 92; 124; 63; 42] || is_control ch.
Fixpoint sanitize_chars (previous_space : bool) (s : list Z) : list Z :=
  match s with
  | [] => []
  | ch :: s' =>
      if invalid_char ch then 45 :: sanitize_chars false s'
      else if is_whitespace ch then
        if previous_space then sanitize_chars true s' else 32 :: sanitize_chars true s'
      else ch :: sanitize_chars false s'
  end.
Definition is_dot (c : Z) : bool := c =? 46.
Definition sanitize_filename (v : list Z) : list Z :=
  match trim_end_matches is_dot (trim (sanitize_chars false v)) with
  | [] => lit "tracemux-export"
  | t => t
  end.

Definition ends_with (suf s : list Z) : bool := match strip_suffix suf s with Some _ => true | None => false end.
Definition with_extension (filename ext : list Z) : list Z :=
  if ends_with ([46] ++ ext) (to_ascii_lowercase filename) then filename else filename ++ [46] ++ ext.
(** [filter(|value| !value.trim().is_empty())] *)
Definition non_blank (o : option (list Z)) : option (list Z) :=
  o ≫= fun v => match trim v with [] => None | _ => Some v end.

Section Names.
  (** The text of a UUID and of a timestamp with its colons removed. *)
  Variable uuid_str : Z -> list Z.
  Variable timestamp_token : Z -> list Z.

Definition export_filename (sid : Z) (f : ExportFormat) (requested : option (list Z)) : list Z :=
  let ext := extension f in
  let fallback := lit "tracemux-" ++ uuid_str sid ++ [46] ++ ext in
  with_extension (sanitize_filename (default fallback (non_blank requested))) ext.
Definition render_bundle_entry_filename (pattern : option (list Z)) (sid : Z) (source_name : option (list Z))
    (f : ExportFormat) (timestamp_ms : Z) : list Z :=
  let ext := extension f in
  let source := default (lit "source") (non_blank source_name) in
  let template := default (lit "tracemux-{sid}.{ext}") (non_blank pattern) in
  let rendered :=
    replace (lit "{ext}") ext
      (replace (lit "{format}") (format_label f)
         (replace (lit "{timestamp}") (timestamp_token timestamp_ms)
            (replace (lit "{source}") source (replace (lit "{sid}") (uuid_str sid) template)))) in
  with_extension (sanitize_filename rendered) ext.
Definition bundle_base_name (f : ExportFormat) (timestamp_ms : Z) : list Z :=
  sanitize_filename (lit "tracemux-all-" ++ timestamp_token timestamp_ms ++ [45] ++ format_label f).
Definition bundle_filename (f : ExportFormat) (timestamp_ms : Z) : list Z := bundle_base_name f timestamp_ms ++ lit ".zip".
End Names.

(** [str::rfind] of a character, as a character position. *)
Definition rfind_char (c : Z) (s : list Z) : option nat :=
  (fun i => (length s - 1 - i)%nat) <$> position (fun x => x =? c) (rev s).
(** Stem and extension: split at the last dot that is not the first character. *)
Definition split_ext (s : list Z) : list Z * list Z :=
  match rfind_char 46 s with
  | Some (S i) => (take (S i) s, drop (S i) s)
  | _ => (s, [])
  end.
Fixpoint first_unused (stem ext : list Z) (used : gset (list Z)) (indices : list Z) : option (list Z) :=
  match indices with
  | [] => None
  | i :: is' =>
      let candidate := stem ++ [45] ++ show_nat i ++ ext in
      if bool_decide (candidate ∈ used) then first_unused stem ext used is' else Some candidate
  end.
Definition unique_zip_entry_name (name : list Z) (used : gset (list Z)) : eres (list Z * gset (list Z)) :=
  let normalized := replace [92] [47] name in
  if bool_decide (normalized ∈ used) then
    let '(stem, ext) := split_ext normalized in
    match first_unused stem ext used (seqZ 2 9998) with
    | Some c => Ok (c, {[c]} ∪ used)
    | None => Err TooManyDuplicates
    end
  else Ok (normalized, {[normalized]} ∪ used).
(** The names of a bundle's entries, one after the other. *)
Fixpoint unique_names (names : list (list Z)) (used : gset (list Z)) : eres (list (list Z)) :=
  match names with
  | [] => Ok []
  | n :: ns =>
      let* '(c, used') := unique_zip_entry_name n used in
      let* rest := unique_names ns used' in
      Ok (c :: rest)
  end.

(** ** Names are safe and distinct *)
Definition valid_chars (s : list Z) : Prop := Forall (fun c => invalid_char c = false) s.
(** Usable as one path component everywhere: in particular not "." or "..". *)
Definition safe_filename (s : list Z) : Prop := s <> [] /\ valid_chars s /\ last s <> Some 46.

Lemma sanitize_chars_valid s : forall prev, valid_chars (sanitize_chars prev s).
Proof.
  induction s as [|c s IH]; intros prev; cbn [sanitize_chars]; [constructor|].
  destruct (invalid_char c) eqn:E; [constructor; [done | apply IH]|].
  destruct (is_whitespace c); [destruct prev; [apply IH|]|]; (constructor; [done | apply IH]).
Qed.
Lemma sanitize_filename_safe v : safe_filename (sanitize_filename v).
Proof.
  unfold sanitize_filename. set (t := trim (sanitize_chars false v)).
  assert (Hv : valid_chars t) by apply trim_matches_Forall, sanitize_chars_valid.
  destruct (trim_end_prefix is_dot t) as (k & E & _).
  destruct (trim_end_matches is_dot t) as [|c r] eqn:Et.
  - split; [done|]. split; [|vm_compute; done]. apply (bool_decide_unpack _). vm_compute. reflexivity.
  - split; [done|]. split.
    + rewrite E in Hv. by apply Forall_app in Hv as [Hv _].
    + intros Hl. rewrite <- Et in Hl. by apply trim_end_last in Hl.
Qed.
Lemma last_app_cons {A} (l : list A) x r : last (l ++ x :: r) = last (x :: r).
Proof. induction l as [|a l IH]; [done|]. rewrite <- IH. cbn. by destruct l. Qed.
Lemma with_extension_safe n f : safe_filename n -> safe_filename (with_extension n (extension f)).
Proof.
  intros (Hn & Hv & Hl). unfold with_extension. destruct (ends_with _ _); [done|].
  assert (He : valid_chars ([46] ++ extension f) /\ last ([46] ++ extension f) <> Some 46).
  { destruct f; (split; [apply (bool_decide_unpack _); vm_compute; reflexivity | vm_compute; done]). }
  destruct He as [He Hle]. split; [by destruct n|]. split; [by apply Forall_app|].
  cbn [app] in *. by rewrite last_app_cons.
Qed.

Lemma replace_backslash_valid n : valid_chars n -> replace [92] [47] n = n.
Proof.
  intros Hv. apply replace_char_none. eapply Forall_impl; [exact Hv|]. intros c Hc ->. done.
Qed.
Lemma show_nat_inj i j : 0 <= i -> 0 <= j -> show_nat i = show_nat j -> i = j.
Proof. intros Hi Hj E. pose proof (show_nat_parse i Hi) as H1. rewrite E, show_nat_parse in H1 by done. congruence. Qed.

Definition candidate (stem ext : list Z) (i : Z) : list Z := stem ++ [45] ++ show_nat i ++ ext.
Lemma candidate_inj stem ext i j : 0 <= i -> 0 <= j -> candidate stem ext i = candidate stem ext j -> i = j.
Proof.
  unfold candidate. intros Hi Hj E. apply app_inv_head in E. cbn in E. apply (f_equal tail) in E. cbn in E.
  apply app_inv_tail in E. by apply show_nat_inj.
Qed.
Lemma first_unused_spec stem ext used is' :
  match first_unused stem ext used is' with
  | Some c => c ∉ used /\ exists i, i ∈ is' /\ c = candidate stem ext i
  | None => forall i, i ∈ is' -> candidate stem ext i ∈ used
  end.
Proof.
  induction is' as [|i is' IH]; cbn [first_unused]; [by intros i ?%not_elem_of_nil|].
  change (stem ++ [45] ++ show_nat i ++ ext) with (candidate stem ext i).
  case_bool_decide as Hi; [|split; [done|]; exists i; split; [left | done]].
  destruct (first_unused stem ext used is') as [c|].
  - destruct IH as (Hc & j & Hj & ->). split; [done|]. exists j. split; [by right | done].
  - intros j [-> | Hj]%elem_of_cons; [done | by apply IH].
Qed.

Lemma split_ext_app s : fst (split_ext s) ++ snd (split_ext s) = s.
Proof. unfold split_ext. destruct (rfind_char 46 s) as [[|i]|]; cbn [fst snd]; [apply app_nil_r | apply take_drop | apply app_nil_r]. Qed.

(** As long as fewer than 9999 names are taken another one is found. *)
Lemma unique_zip_entry_name_ok n used : valid_chars n -> n <> [] -> last n <> Some 46 -> Z.of_nat (size used) < 9999 ->
  exists c, unique_zip_entry_name n used = Ok (c, {[c]} ∪ used) /\ c ∉ used /\ safe_filename c.
Proof.
  intros Hv Hn Hl Hsz. unfold unique_zip_entry_name. rewrite replace_backslash_valid by done.
  case_bool_decide as Hin; [|exists n; repeat split; done].
  pose proof (split_ext_app n) as Hsp. destruct (split_ext n) as [stem ext]. cbn [fst snd] in Hsp.
  pose proof (first_unused_spec stem ext used (seqZ 2 9998)) as Hf.
  destruct (first_unused stem ext used (seqZ 2 9998)) as [c|].
  - destruct Hf as (Hc & i & Hi & ->). exists (candidate stem ext i). split; [done|]. split; [done|].
    apply elem_of_seqZ in Hi. assert (Hd : valid_chars (show_nat i)).
    { eapply Forall_impl; [apply show_nat_digits; lia|]. intros x Hx. unfold is_digit, in_range in Hx.
      unfold invalid_char, is_control, in_range, existsb. lia. }
    rewrite <- Hsp in Hv. apply Forall_app in Hv as [Hv1 Hv2].
    split; [unfold candidate; by destruct stem|]. split.
    { apply Forall_app. split; [done|]. constructor; [done|]. by apply Forall_app. }
    unfold candidate. destruct ext as [|x ext].
    + cbn [app]. rewrite app_nil_r. destruct (show_nat i) as [|y r] eqn:E; [by apply show_nat_nonempty in E|].
      rewrite last_app_cons. change (45 :: y :: r) with ([45] ++ y :: r). rewrite last_app_cons, <- E.
      intros H. pose proof (show_nat_digits i ltac:(lia)) as Hdig. rewrite Forall_forall in Hdig.
      apply last_Some_elem_of in H. by specialize (Hdig _ H).
    + cbn [app]. rewrite last_app_cons. change (45 :: show_nat i ++ x :: ext) with ([45] ++ show_nat i ++ x :: ext).
      rewrite app_assoc, last_app_cons. by rewrite <- Hsp, last_app_cons in Hl.
  - exfalso.
    assert (Hnd : NoDup (n :: map (candidate stem ext) (seqZ 2 9998))).
    { constructor.
      - intros (i & Hi & _)%list_elem_of_fmap. apply (f_equal length) in Hi. rewrite <- Hsp in Hi.
        unfold candidate in Hi. rewrite !length_app in Hi. cbn in Hi. lia.
      - apply NoDup_fmap_2_strong; [|apply NoDup_seqZ]. intros i j Hi%elem_of_seqZ Hj%elem_of_seqZ.
        apply candidate_inj; lia. }
    assert (Hsub : (list_to_set (n :: map (candidate stem ext) (seqZ 2 9998)) : gset (list Z)) ⊆ used).
    { intros x Hx. apply elem_of_list_to_set, elem_of_cons in Hx as [-> | Hx]; [done|].
      apply list_elem_of_fmap in Hx as (i & -> & Hi). by apply Hf. }
    apply subseteq_size in Hsub. rewrite size_list_to_set in Hsub by done.
    cbn [length] in Hsub. rewrite length_map, length_seqZ in Hsub. lia.
Qed.
Lemma unique_names_ok ns : forall used, Forall safe_filename ns -> Z.of_nat (size used) + zlen ns <= 9999 ->
  exists outs, unique_names ns used = Ok outs /\ length outs = length ns /\ NoDup outs /\ Forall safe_filename outs /\
    forall c, c ∈ outs -> c ∉ used.
Proof.
  induction ns as [|n ns IH]; intros used Hs Hsz; cbn [unique_names].
  { exists []. repeat split; [constructor | constructor | by intros c ?%not_elem_of_nil]. }
  apply Forall_cons in Hs as [(Hn & Hv & Hl) Hs]. rewrite zlen_cons in Hsz.
  destruct (unique_zip_entry_name_ok n used Hv Hn Hl) as (c & -> & Hc & Hsafe); [unfold zlen in *; lia|].
  cbn [mbind res_bind]. destruct (IH ({[c]} ∪ used) Hs) as (outs & -> & Hlen & Hnd & Hso & Hfr).
  { rewrite size_union, size_singleton by set_solver. lia. }
  cbn [mbind res_bind]. exists (c :: outs). split; [done|]. split; [cbn; by rewrite Hlen|].
  split; [constructor; [|done]; intros H; apply Hfr in H; set_solver|]. split; [by constructor|].
  intros x [-> | Hx]%elem_of_cons; [done|]. apply Hfr in Hx. set_solver.
Qed.

(** The entries of a bundle of at most 9999 sessions always get names, all
    different, whatever name pattern and source names the request gives; each
    is one path component: not empty, without separators, reserved or control
    characters, and not ending in a dot. *)
Theorem bundle_entry_names uuid_str token pattern f ms jobs :
  zlen jobs <= 9999 ->
  exists outs,
    unique_names (map (fun j : Z * option (list Z) =>
                         render_bundle_entry_filename uuid_str token pattern (fst j) (snd j) f ms) jobs) ∅ = Ok outs /\
    length outs = length jobs /\ NoDup outs /\ Forall safe_filename outs.
Proof.
  intros Hlen. destruct (unique_names_ok (map (fun j : Z * option (list Z) =>
      render_bundle_entry_filename uuid_str token pattern (fst j) (snd j) f ms) jobs) ∅) as (outs & H1 & H2 & H3 & H4 & _).
  - apply Forall_forall. intros n (j & -> & _)%list_elem_of_fmap.
    apply with_extension_safe, sanitize_filename_safe.
  - rewrite size_empty. unfold zlen in *. rewrite length_map. lia.
  - exists outs. rewrite length_map in H2. done.
Qed.
Lemma bundle_entry_names_witness :
  exists outs,
    unique_names (map (fun j : Z * option (list Z) =>
      render_bundle_entry_filename (fun _ => lit "u") (fun _ => lit "t") (Some (lit "{source}/../x")) (fst j) (snd j) FCsv 0)
      [(1, None); (2, None)]) ∅ = Ok outs /\
    outs = [lit "source-..-x.csv"; lit "source-..-x-2.csv"].
Proof.
  destruct (bundle_entry_names (fun _ => lit "u") (fun _ => lit "t") (Some (lit "{source}/../x")) FCsv 0
    [(1, None); (2, None)]) as (outs & H & _); [vm_compute; discriminate|].
  exists outs. split; [exact H|].
  assert (E : unique_names (map (fun j : Z * option (list Z) =>
    render_bundle_entry_filename (fun _ => lit "u") (fun _ => lit "t") (Some (lit "{source}/../x")) (fst j) (snd j) FCsv 0)
    [(1, None); (2, None)]) ∅ = Ok [lit "source-..-x.csv"; lit "source-..-x-2.csv"]) by (vm_compute; reflexivity).
  rewrite E in H. inversion H. reflexivity.
Defined.

(** ** The bundle: an uncompressed ZIP *)
Definition crc_step (crc : Z) : Z :=
  if Z.land crc 1 =? 0 then Z.shiftr crc 1 else Z.lxor 0xedb88320 (Z.shiftr crc 1).
Definition crc_byte (crc byte : Z) : Z := Nat.iter 8 crc_step (Z.lxor crc byte).
(** [crc32_file]: the chunks of the file do not matter to the result. *)
Definition crc32_file (data : list Z) : Z * Z := (Z.lxor (foldl crc_byte 0xffffffff data) 0xffffffff, zlen data).
(** The check value of CRC-32. *)
Lemma crc32_check : fst (crc32_file (lit "123456789")) = 0xCBF43926.
Proof. vm_compute. reflexivity. Qed.

Record CentralDirectoryEntry := mkCentral { ce_name : list Z; ce_crc32 : Z; ce_size : Z; ce_local_offset : Z }.
Record StoredZipWriter := mkZip { z_out : list Z; z_central : list CentralDirectoryEntry; z_offset : Z }.
Definition zip_create : StoredZipWriter := mkZip [] [] 0.

Definition local_header (crc size name_len : Z) : list Z :=
  le_bytes 4 0x04034b50 ++ le_bytes 2 20 ++ le_bytes 2 0x0800 ++ le_bytes 2 0 ++ le_bytes 2 0 ++ le_bytes 2 33 ++
  le_bytes 4 crc ++ le_bytes 4 size ++ le_bytes 4 size ++ le_bytes 2 name_len ++ le_bytes 2 0.
(** The file is read twice: for the checksum ([data]) and for copying ([copy]). *)
Definition append_file_from_path (z : StoredZipWriter) (name data copy : list Z) : eres StoredZipWriter :=
  let name_bytes := utf8 (replace [92] [47] name) in
  let* name_len := ok_or (try_from 0 u16_max (zlen name_bytes)) NameTooLong in
  let '(crc, size) := crc32_file data in
  if (u32_max <? size) || (u32_max <? z_offset z) then Err TooLarge
  else
    let out := z_out z ++ local_header crc size name_len ++ name_bytes ++ copy in
    if negb (zlen copy =? size) then Err EntryChanged
    else Ok (mkZip out (z_central z ++ [mkCentral name_bytes crc size (z_offset z)])
               (z_offset z + (30 + name_len) + zlen copy)).

Definition central_header (e : CentralDirectoryEntry) (name_len : Z) : list Z :=
  le_bytes 4 0x02014b50 ++ le_bytes 2 20 ++ le_bytes 2 20 ++ le_bytes 2 0x0800 ++ le_bytes 2 0 ++ le_bytes 2 0 ++
  le_bytes 2 33 ++ le_bytes 4 (ce_crc32 e) ++ le_bytes 4 (ce_size e) ++ le_bytes 4 (ce_size e) ++ le_bytes 2 name_len ++
  le_bytes 2 0 ++ le_bytes 2 0 ++ le_bytes 2 0 ++ le_bytes 2 0 ++ le_bytes 4 0 ++ le_bytes 4 (ce_local_offset e).
Fixpoint write_central (out : list Z) (central_size : Z) (es : list CentralDirectoryEntry) : eres (list Z * Z) :=
  match es with
  | [] => Ok (out, central_size)
  | e :: es' =>
      if (u32_max <? ce_size e) || (u32_max <? ce_local_offset e) then Err TooLarge
      else
        let* name_len := ok_or (try_from 0 u16_max (zlen (ce_name e))) NameTooLong in
        write_central (out ++ central_header e name_len ++ ce_name e) (central_size + (46 + name_len)) es'
  end.
Definition end_record (count central_size central_offset : Z) : list Z :=
  le_bytes 4 0x06054b50 ++ le_bytes 2 0 ++ le_bytes 2 0 ++ le_bytes 2 count ++ le_bytes 2 count ++
  le_bytes 4 central_size ++ le_bytes 4 central_offset ++ le_bytes 2 0.
Definition finish (z : StoredZipWriter) : eres (list Z) :=
  let* '(out, central_size) := write_central (z_out z) 0 (z_central z) in
  if (0xffff <? zlen (z_central z)) || (u32_max <? central_size) || (u32_max <? z_offset z) then Err TooLarge
  else Ok (out ++ end_record (zlen (z_central z)) central_size (z_offset z)).

(** [create_bundle_zip] once the sessions are exported and named: the entries
    are the names inside the folder and the exported bytes. *)
Fixpoint append_all (z : StoredZipWriter) (files : list (list Z * list Z)) : eres StoredZipWriter :=
  match files with
  | [] => Ok z
  | (name, data) :: files' =>
      let* z' := append_file_from_path z name data data in
      append_all z' files'
  end.
Definition bundle_zip (files : list (list Z * list Z)) : eres (list Z) :=
  let* z := append_all zip_create files in finish z.

(** ** A reader of uncompressed ZIP files, from the format's description *)
Definition u16_at (b : list Z) (i : nat) : Z := le_val (take 2 (drop i b)).
Definition u32_at (b : list Z) (i : nat) : Z := le_val (take 4 (drop i b)).
Record DirEntry := mkDirEntry { de_name : list Z; de_crc : Z; de_size : Z; de_offset : Z }.

(** The central directory: stored entries only. *)
Fixpoint read_central (n : nat) (b : list Z) : option (list DirEntry * list Z) :=
  match n with
  | O => Some ([], b)
  | S n' =>
      if negb (u32_at b 0 =? 0x02014b50) || negb (u16_at b 10 =? 0) || negb (u32_at b 20 =? u32_at b 24) then None
      else
        let name_len := Z.to_nat (u16_at b 28) in
        let skip := (name_len + Z.to_nat (u16_at b 30) + Z.to_nat (u16_at b 32))%nat in
        let e := mkDirEntry (take name_len (drop 46 b)) (u32_at b 16) (u32_at b 24) (u32_at b 42) in
        '(es, rest) ← read_central n' (drop skip (drop 46 b));
        Some (e :: es, rest)
  end.
(** The entry's own header must agree with the directory. *)
Definition read_local (b : list Z) (e : DirEntry) : option (list Z * Z * list Z) :=
  let h := drop (Z.to_nat (de_offset e)) b in
  let name_len := Z.to_nat (u16_at h 26) in
  let data := take (Z.to_nat (de_size e)) (drop (Z.to_nat (u16_at h 28)) (drop name_len (drop 30 h))) in
  if (u32_at h 0 =? 0x04034b50) && (u32_at h 14 =? de_crc e) && (u32_at h 18 =? de_size e)
     && bool_decide (take name_len (drop 30 h) = de_name e) && (zlen data =? de_size e)
  then Some (de_name e, de_crc e, data) else None.
Definition unzip (b : list Z) : option (list (list Z * Z * list Z)) :=
  let e := drop (length b - 22) b in
  if negb (u32_at e 0 =? 0x06054b50) || negb (u16_at e 20 =? 0)
     || negb (u32_at e 16 + u32_at e 12 + 22 =? zlen b) then None
  else
    '(es, rest) ← read_central (Z.to_nat (u16_at e 10)) (drop (Z.to_nat (u32_at e 16)) b);
    if bool_decide (rest = e) then mapM (read_local b) es else None.

(** ** CRC values are 32-bit *)
Lemma lxor_bound n a b : 0 <= n -> 0 <= a < 2 ^ n -> 0 <= b < 2 ^ n -> 0 <= Z.lxor a b < 2 ^ n.
Proof.
  intros Hn Ha Hb. assert (E : Z.lxor a b = Z.lxor a b mod 2 ^ n).
  { apply Z.bits_inj'. intros m Hm. rewrite Z.lxor_spec. destruct (Z.lt_ge_cases m n).
    - by rewrite Z.mod_pow2_bits_low, Z.lxor_spec by lia.
    - rewrite Z.mod_pow2_bits_high by lia. rewrite <- (Z.mod_small a (2 ^ n)), <- (Z.mod_small b (2 ^ n)) by done.
      by rewrite !Z.mod_pow2_bits_high by lia. }
  rewrite E. apply Z.mod_pos_bound. lia.
Qed.
Lemma crc_step_bound c : 0 <= c < 2 ^ 32 -> 0 <= crc_step c < 2 ^ 32.
Proof.
  intros Hc. assert (Hs : 0 <= Z.shiftr c 1 < 2 ^ 32).
  { rewrite Z.shiftr_div_pow2 by lia. change (2 ^ 1) with 2. split; [apply Z.div_pos; lia|].
    apply Z.div_lt_upper_bound; lia. }
  unfold crc_step. destruct (_ =? 0); [done|]. apply lxor_bound; lia.
Qed.
Lemma crc32_file_bound d : bytes_ok d -> 0 <= fst (crc32_file d) < 2 ^ 32.
Proof.
  intros Hd. unfold crc32_file. cbn [fst]. apply lxor_bound; [lia | | lia].
  assert (H : forall c, 0 <= c < 2 ^ 32 -> 0 <= foldl crc_byte c d < 2 ^ 32); [|apply H; lia].
  induction Hd as [|x d Hx Hd IH]; intros c Hc; [done|]. cbn [foldl]. apply IH. unfold crc_byte.
  assert (0 <= Z.lxor c x < 2 ^ 32) by (apply lxor_bound; lia).
  cbn [Nat.iter]. by do 8 apply crc_step_bound.
Qed.

(** ** What the writer leaves in the file *)
Definition entry_name (n : list Z) : list Z := utf8 (replace [92] [47] n).
Definition local_bytes (f : list Z * list Z) : list Z :=
  local_header (fst (crc32_file (snd f))) (zlen (snd f)) (zlen (entry_name (fst f))) ++ entry_name (fst f) ++ snd f.
Definition central_bytes (e : CentralDirectoryEntry) : list Z := central_header e (zlen (ce_name e)) ++ ce_name e.
Fixpoint centrals (off : Z) (files : list (list Z * list Z)) : list CentralDirectoryEntry :=
  match files with
  | [] => []
  | f :: files' =>
      mkCentral (entry_name (fst f)) (fst (crc32_file (snd f))) (zlen (snd f)) off
      :: centrals (off + zlen (local_bytes f)) files'
  end.
Lemma local_bytes_zlen f : zlen (local_bytes f) = 30 + zlen (entry_name (fst f)) + zlen (snd f).
Proof. unfold local_bytes. rewrite !zlen_app. change (zlen (local_header _ _ _)) with 30. lia. Qed.

(** Sizes and offsets the format can express. *)
Definition fits (e : CentralDirectoryEntry) : Prop :=
  zlen (ce_name e) <= u16_max /\ 0 <= ce_size e <= u32_max /\ 0 <= ce_local_offset e <= u32_max.

Lemma zip_append_all_spec files : forall z z', z_offset z = zlen (z_out z) -> append_all z files = Ok z' ->
  z_out z' = z_out z ++ concat (map local_bytes files) /\ z_offset z' = zlen (z_out z') /\
  z_central z' = z_central z ++ centrals (z_offset z) files /\ Forall fits (centrals (z_offset z) files).
Proof.
  induction files as [|[n d] files IH]; intros z z' Hz H; cbn [append_all map concat centrals] in *.
  { simplify_eq. rewrite !app_nil_r. done. }
  unfold append_file_from_path in H. fold (entry_name n) in H. cbn [crc32_file] in H.
  destruct (try_from 0 u16_max (zlen (entry_name n))) as [nl|] eqn:Et; [|done].
  apply try_from_Some in Et as [-> Hn]. cbn [ok_or mbind res_bind] in H.
  destruct (Z.ltb_spec u32_max (zlen d)) as [|Hd]; [done|]. destruct (Z.ltb_spec u32_max (z_offset z)) as [|Ho]; [done|].
  cbn [orb] in H. rewrite Z.eqb_refl in H. cbn [negb mbind res_bind] in H.
  apply IH in H as (H1 & H2 & H3 & H4); [|cbn [z_offset z_out]; rewrite Hz, !zlen_app; change (zlen (local_header _ _ _)) with 30; lia].
  cbn [z_out z_offset z_central fst snd] in *.
  replace (z_offset z + (30 + zlen (entry_name n)) + zlen d) with (z_offset z + zlen (local_bytes (n, d))) in *
    by (rewrite local_bytes_zlen; cbn [fst snd]; lia).
  split; [by rewrite H1, <- app_assoc|]. split; [done|]. split; [by rewrite H3, <- app_assoc|].
  constructor; [|done]. repeat split; cbn; try lia; zlia.
Qed.
Lemma write_central_spec es : forall out s out' s', write_central out s es = Ok (out', s') ->
  out' = out ++ concat (map central_bytes es) /\ s' = s + zlen (concat (map central_bytes es)).
Proof.
  induction es as [|e es IH]; intros out s out' s' H; cbn [write_central map concat] in *.
  { simplify_eq. rewrite app_nil_r. split; [done|]. zlia. }
  destruct (_ || _) in H; [done|]. destruct (try_from 0 u16_max (zlen (ce_name e))) as [nl|] eqn:Et; [|done].
  apply try_from_Some in Et as [-> Hn]. cbn [ok_or mbind res_bind] in H. apply IH in H as [-> ->].
  split; [by rewrite <- app_assoc|]. unfold central_bytes at 2. rewrite !zlen_app.
  change (zlen (central_header _ _)) with 46. lia.
Qed.

Lemma le4 v : 0 <= v <= u32_max -> le_val (le_bytes 4 v) = v.
Proof. intros. apply le_val_le_bytes. unfold u32_max in *. cbn. lia. Qed.
Lemma le2 v : 0 <= v <= u16_max -> le_val (le_bytes 2 v) = v.
Proof. intros. apply le_val_le_bytes. unfold u16_max in *. cbn. lia. Qed.

Definition dir_of (e : CentralDirectoryEntry) : DirEntry := mkDirEntry (ce_name e) (ce_crc32 e) (ce_size e) (ce_local_offset e).
Definition readable (e : CentralDirectoryEntry) : Prop := fits e /\ 0 <= ce_crc32 e <= u32_max.

Lemma central_header_fields e nl tl :
  let b := central_header e nl ++ tl in
  u32_at b 0 = 0x02014b50 /\ u16_at b 10 = 0 /\ u32_at b 16 = le_val (le_bytes 4 (ce_crc32 e)) /\
  u32_at b 20 = le_val (le_bytes 4 (ce_size e)) /\ u32_at b 24 = le_val (le_bytes 4 (ce_size e)) /\
  u16_at b 28 = le_val (le_bytes 2 nl) /\ u16_at b 30 = 0 /\ u16_at b 32 = 0 /\
  u32_at b 42 = le_val (le_bytes 4 (ce_local_offset e)) /\ drop 46 b = tl.
Proof. cbv zeta. repeat split. Qed.
Lemma read_central_written es rest : Forall readable es ->
  read_central (length es) (concat (map central_bytes es) ++ rest) = Some (map dir_of es, rest).
Proof.
  induction 1 as [|e es [(Hn & Hs & Ho) Hc] _ IH]; [done|]. cbn [length map concat read_central].
  change (central_bytes e) with (central_header e (zlen (ce_name e)) ++ ce_name e). rewrite <- !app_assoc.
  set (tl := ce_name e ++ concat (map central_bytes es) ++ rest).
  destruct (central_header_fields e (zlen (ce_name e)) tl) as (-> & -> & -> & -> & -> & -> & -> & -> & -> & ->).
  rewrite Z.eqb_refl. cbn [negb orb].
  rewrite !le4, le2 by (done || zlia). rewrite !Z.eqb_refl. cbn [negb orb].
  unfold zlen. rewrite Nat2Z.id. change (Z.to_nat 0) with 0%nat. rewrite !Nat.add_0_r. unfold tl.
  rewrite drop_app_length, take_app_length, IH. done.
Qed.

Lemma local_header_fields crc size nl tl :
  let h := local_header crc size nl ++ tl in
  u32_at h 0 = 0x04034b50 /\ u32_at h 14 = le_val (le_bytes 4 crc) /\ u32_at h 18 = le_val (le_bytes 4 size) /\
  u16_at h 26 = le_val (le_bytes 2 nl) /\ u16_at h 28 = 0 /\ drop 30 h = tl.
Proof. cbv zeta. repeat split. Qed.
Lemma read_local_written pre f post :
  readable (mkCentral (entry_name (fst f)) (fst (crc32_file (snd f))) (zlen (snd f)) (zlen pre)) ->
  read_local (pre ++ local_bytes f ++ post)
    (dir_of (mkCentral (entry_name (fst f)) (fst (crc32_file (snd f))) (zlen (snd f)) (zlen pre))) =
  Some (entry_name (fst f), fst (crc32_file (snd f)), snd f).
Proof.
  intros [(Hn & Hs & Ho) Hc]. destruct f as [n d]. cbn [ce_name ce_size ce_local_offset ce_crc32 fst snd] in *.
  unfold read_local, dir_of. cbn [ce_name ce_size ce_local_offset ce_crc32 de_name de_crc de_size de_offset].
  replace (drop (Z.to_nat (zlen pre)) (pre ++ local_bytes (n, d) ++ post)) with (local_bytes (n, d) ++ post)
    by (unfold zlen; by rewrite Nat2Z.id, drop_app_length).
  unfold local_bytes. cbn [fst snd]. rewrite <- !app_assoc.
  destruct (local_header_fields (fst (crc32_file d)) (zlen d) (zlen (entry_name n)) (entry_name n ++ d ++ post))
    as (-> & -> & -> & -> & -> & ->).
  rewrite !le4, le2 by (done || zlia). change (Z.to_nat 0) with 0%nat. rewrite drop_0. unfold zlen. rewrite !Nat2Z.id.
  rewrite take_app_length, drop_app_length, take_app_length, !Z.eqb_refl, bool_decide_eq_true_2 by done. done.
Qed.
Lemma read_locals_written files : forall pre post,
  Forall readable (centrals (zlen pre) files) ->
  mapM (read_local (pre ++ concat (map local_bytes files) ++ post)) (map dir_of (centrals (zlen pre) files)) =
  Some (map (fun f => (entry_name (fst f), fst (crc32_file (snd f)), snd f)) files).
Proof.
  induction files as [|f files IH]; intros pre post H; [done|]. cbn [centrals map concat] in *.
  apply Forall_cons in H as [Hf H]. rewrite <- app_assoc. cbn [mapM].
  rewrite (read_local_written pre f (concat (map local_bytes files) ++ post) Hf). cbn [mbind option_bind].
  specialize (IH (pre ++ local_bytes f) post). rewrite zlen_app in IH. rewrite <- app_assoc in IH.
  by rewrite IH.
Qed.

Lemma centrals_readable off files : Forall (fun f => bytes_ok (snd f)) files -> Forall fits (centrals off files) ->
  Forall readable (centrals off files).
Proof.
  intros Hb. revert off. induction Hb as [|f files Hf Hb IH]; intros off H; [constructor|].
  cbn [centrals] in *. apply Forall_cons in H as [H1 H2]. constructor; [|by apply IH].
  split; [done|]. cbn. pose proof (crc32_file_bound _ Hf). cbn in *. unfold u32_max. lia.
Qed.
Lemma centrals_length off files : length (centrals off files) = length files.
Proof. revert off. induction files as [|f files IH]; intros off; [done|]. cbn. by rewrite IH. Qed.

Lemma end_record_fields c s o :
  let e := end_record c s o in
  length e = 22%nat /\ u32_at e 0 = 0x06054b50 /\ u16_at e 20 = 0 /\ u16_at e 10 = le_val (le_bytes 2 c) /\
  u32_at e 12 = le_val (le_bytes 4 s) /\ u32_at e 16 = le_val (le_bytes 4 o).
Proof. cbv zeta. repeat split. Qed.

Lemma unzip_written files out es s :
  es = centrals 0 files -> Forall readable es -> out = concat (map local_bytes files) ->
  s = zlen (concat (map central_bytes es)) -> zlen es <= u16_max -> s <= u32_max -> zlen out <= u32_max ->
  unzip ((out ++ concat (map central_bytes es)) ++ end_record (zlen es) s (zlen out)) =
  Some (map (fun f => (entry_name (fst f), fst (crc32_file (snd f)), snd f)) files).
Proof.
  intros -> Hr -> -> Hc Hs Ho. unfold unzip.
  set (out := concat (map local_bytes files)) in *. set (es := centrals 0 files) in *.
  set (cb := concat (map central_bytes es)) in *. set (e := end_record (zlen es) (zlen cb) (zlen out)).
  destruct (end_record_fields (zlen es) (zlen cb) (zlen out)) as (Hl & H0 & H20 & H10 & H12 & H16). fold e in Hl, H0, H20, H10, H12, H16.
  replace (length ((out ++ cb) ++ e) - 22)%nat with (length (out ++ cb))
    by (rewrite (length_app (out ++ cb)), Hl; lia).
  rewrite drop_app_length, H0, H20, H10, H12, H16, !le4, le2 by zlia.
  rewrite Z.eqb_refl. cbn [negb orb].
  replace (zlen out + zlen cb + 22 =? zlen ((out ++ cb) ++ e)) with true
    by (symmetry; apply Z.eqb_eq; unfold zlen; rewrite !length_app, Hl; lia).
  cbn [negb orb]. rewrite <- app_assoc. unfold zlen at 2. rewrite Nat2Z.id, drop_app_length.
  unfold zlen at 1. rewrite Nat2Z.id, read_central_written by done. cbn [mbind option_bind].
  rewrite bool_decide_eq_true_2 by done. exact (read_locals_written files [] (cb ++ e) Hr).
Qed.

Lemma bundle_zip_inv files bytes : bundle_zip files = Ok bytes ->
  exists es s, es = centrals 0 files /\ Forall fits es /\ s = zlen (concat (map central_bytes es)) /\
    zlen es <= u16_max /\ s <= u32_max /\ zlen (concat (map local_bytes files)) <= u32_max /\
    bytes = (concat (map local_bytes files) ++ concat (map central_bytes es)) ++
            end_record (zlen es) s (zlen (concat (map local_bytes files))).
Proof.
  unfold bundle_zip, finish. intros H. destruct (append_all zip_create files) as [z|e|] eqn:Ea; [|done|done].
  cbn [mbind res_bind] in H. apply zip_append_all_spec in Ea as (H1 & H2 & H3 & H4); [|done]. cbn in H1, H3, H4.
  destruct (write_central (z_out z) 0 (z_central z)) as [[out s]|e|] eqn:Ew; [|done|done]. cbn [mbind res_bind] in H.
  apply write_central_spec in Ew as [-> ->].
  destruct (Z.ltb_spec 0xffff (zlen (z_central z))) as [|Ha]; [done|].
  destruct (Z.ltb_spec u32_max (0 + zlen (concat (map central_bytes (z_central z))))) as [|Hb]; [done|].
  destruct (Z.ltb_spec u32_max (z_offset z)) as [|Hc]; [done|]. cbn [orb] in H. simplify_eq.
  rewrite H2, H1, H3 in *. rewrite Z.add_0_l in *. eexists (centrals 0 files), _. by repeat split.
Qed.

(** ** Bundles that fit are written *)
Definition small (files : list (list Z * list Z)) : Prop :=
  zlen files <= u16_max /\ Forall (fun f => zlen (entry_name (fst f)) <= u16_max) files /\
  zlen (concat (map local_bytes files)) + zlen (concat (map central_bytes (centrals 0 files))) <= u32_max.
Lemma append_all_succeeds files : forall z,
  Forall (fun f => zlen (entry_name (fst f)) <= u16_max) files ->
  0 <= z_offset z -> z_offset z + zlen (concat (map local_bytes files)) <= u32_max ->
  exists z', append_all z files = Ok z'.
Proof.
  induction files as [|[n d] files IH]; intros z Hn H0 Hs; [by eexists|]. cbn [append_all map concat] in *.
  apply Forall_cons in Hn as [Hn Hns]. cbn [fst] in Hn. rewrite zlen_app, local_bytes_zlen in Hs. cbn [fst snd] in Hs.
  unfold append_file_from_path. fold (entry_name n).
  pose proof (zlen_nonneg (entry_name n)). pose proof (zlen_nonneg d). pose proof (zlen_nonneg (concat (map local_bytes files))).
  rewrite (proj2 (try_from_Some 0 u16_max (zlen (entry_name n)) _)) by done. cbn [ok_or mbind res_bind crc32_file].
  rewrite !(proj2 (Z.ltb_ge _ _)) by lia. cbn [orb]. rewrite Z.eqb_refl. cbn [negb mbind res_bind].
  apply IH; cbn [z_offset]; [done | lia | lia].
Qed.
Lemma write_central_succeeds es : forall out s, Forall fits es -> exists r, write_central out s es = Ok r.
Proof.
  induction es as [|e es IH]; intros out s H; [by eexists|]. apply Forall_cons in H as [(Hn & Hs & Ho) H].
  cbn [write_central]. rewrite !(proj2 (Z.ltb_ge _ _)) by lia. cbn [orb].
  pose proof (zlen_nonneg (ce_name e)).
  rewrite (proj2 (try_from_Some 0 u16_max (zlen (ce_name e)) _)) by done. cbn [ok_or mbind res_bind]. by apply IH.
Qed.
Lemma bundle_zip_succeeds files : small files -> exists bytes, bundle_zip files = Ok bytes.
Proof.
  intros (Hc & Hn & Hs). unfold bundle_zip.
  pose proof (zlen_nonneg (concat (map central_bytes (centrals 0 files)))).
  pose proof (zlen_nonneg (concat (map local_bytes files))).
  destruct (append_all_succeeds files zip_create Hn) as [z Hz]; [done | cbn [zip_create z_offset]; lia|].
  rewrite Hz. cbn [mbind res_bind]. apply zip_append_all_spec in Hz as (H1 & H2 & H3 & H4); [|done]. cbn in H1, H3, H4.
  unfold finish. rewrite H3. destruct (write_central_succeeds (centrals 0 files) (z_out z) 0 H4) as [[out s] Hw].
  rewrite Hw. cbn [mbind res_bind]. apply write_central_spec in Hw as [-> ->]. rewrite H2, H1, Z.add_0_l.
  unfold zlen at 1. rewrite centrals_length. fold (zlen files). change 0xffff with u16_max.
  rewrite !(proj2 (Z.ltb_ge _ _)) by lia. cbn [orb]. by eexists.
Qed.

(** C36: The bundle writer produces a ZIP file: whenever it succeeds, a reader
    that follows the format's description finds in the directory at the end
    exactly the files in order, under their names, with their bytes and CRC-32
    values, in agreement with each file's own header; and it succeeds for up
    to 65535 files whose names and total size fit the format. *)
Theorem bundle_zip_reads_back files :
  Forall (fun f => bytes_ok (snd f)) files ->
  (forall bytes, bundle_zip files = Ok bytes ->
    unzip bytes = Some (map (fun f => (entry_name (fst f), fst (crc32_file (snd f)), snd f)) files)) /\
  (small files -> exists bytes, bundle_zip files = Ok bytes).
Proof.
  intros Hb. split; [|apply bundle_zip_succeeds].
  intros bytes (es & s & -> & Hf & -> & Hc & Hs & Ho & ->)%bundle_zip_inv.
  apply unzip_written; try done. by apply centrals_readable.
Qed.
Lemma bundle_zip_reads_back_witness :
  exists bytes, bundle_zip [(lit "d/a.csv", lit "x,y"); (lit "d/b.csv", [])] = Ok bytes /\
    unzip bytes = Some [(lit "d/a.csv", fst (crc32_file (lit "x,y")), lit "x,y"); (lit "d/b.csv", 0, [])].
Proof.
  destruct (bundle_zip_reads_back [(lit "d/a.csv", lit "x,y"); (lit "d/b.csv", [])]) as [H1 H2].
  { apply (bool_decide_unpack _). vm_compute. reflexivity. }
  destruct H2 as [bytes Hb].
  { split; [vm_compute; discriminate|]. split; [apply (bool_decide_unpack _); vm_compute; reflexivity | vm_compute; discriminate]. }
  exists bytes. split; [exact Hb|]. rewrite (H1 bytes Hb). vm_compute. reflexivity.
Defined.
