(* ===== verification/Auth.v ===== *)
(** * Authentication: bearer tokens, loopback exemption, certificate pins, audit lines

    server/src/auth.rs (token verifier, [extract_bearer],
    [is_loopback_allowed]), the decision of the WebSocket upgrade
    ([check_auth], server/src/ws.rs) and of the HTTP handlers,
    server/src/fingerprint.rs (the trust-on-first-use pin store) and the
    append-only JSON-lines files of audit.rs and clientlog.rs.  The argon2 and
    sha2 crates and serde_json are parameters. *)
From stdpp Require Import base numbers strings gmap list.
From S2P Require Import Prelude Text Naming Decoder.

Local Open Scope Z_scope.
Local Open Scope tm_scope.

(** ** Peers *)
Inductive IpAddr := V4 (a b c d : Z) | V6 (bits : Z).

(** [Ipv4Addr::is_loopback] is 127.0.0.0/8, [Ipv6Addr::is_loopback] is ::1. *)
Definition is_loopback_allowed (peer : IpAddr) : bool :=
  match peer with V4 a _ _ _ => a =? 127 | V6 bits => bits =? 1 end.

Definition BEARER_PREFIX : list Z := lit "bearer.".

(** [find_map] over a list. *)
Fixpoint find_map {A B} (f : A -> option B) (l : list A) : option B :=
  match l with
  | [] => None
  | x :: l' => match f x with Some b => Some b | None => find_map f l' end
  end.
Definition extract_bearer (header_value : list Z) : option (list Z) :=
  find_map (strip_prefix BEARER_PREFIX) (map trim (split_on 44 header_value)).

Inductive AuthError := Rejected | InvalidHash | HashFailed.
Definition AuthError_id (e : AuthError) : ErrorId := E2101AuthRejected.

Inductive AuthOutcome := Bearer | LoopbackNoAuth | AuthRejected (reason : list Z).

Lemma find_map_Some {A B} (f : A -> option B) l b :
  find_map f l = Some b <->
  exists l1 x l2, l = l1 ++ x :: l2 /\ Forall (fun y => f y = None) l1 /\ f x = Some b.
Proof.
  split.
  - induction l as [|y l IH]; [done|]. cbn. destruct (f y) as [b'|] eqn:Hy.
    + intros [= ->]. by exists [], y, l.
    + intros H. destruct (IH H) as (l1 & x & l2 & -> & HF & Hx). exists (y :: l1), x, l2. auto.
  - intros (l1 & x & l2 & -> & HF & Hx). induction HF as [|y l1 Hy _ IH]; cbn; [by rewrite Hx|by rewrite Hy].
Qed.
Lemma find_map_None {A B} (f : A -> option B) l : find_map f l = None <-> Forall (fun x => f x = None) l.
Proof.
  induction l as [|y l IH]; cbn; [by split|]. rewrite Forall_cons. destruct (f y); [naive_solver|].
  rewrite IH. naive_solver.
Qed.

Section Verifier.
  (** The argon2 crate: [PasswordHash::new] accepts a PHC string,
      [verify_password], [hash_password] with a generated salt. *)
  Context (phc_ok : list Z -> bool) (verify_password : list Z -> list Z -> bool)
    (hash_password : Z -> list Z -> option (list Z)).

(** ** Bearer tokens *)
Record BearerVerifier := mkVerifier { hashes : list (list Z) }.

Definition verifier_new : BearerVerifier := mkVerifier [].
Definition add_phc (v : BearerVerifier) (phc : list Z) : res AuthError BearerVerifier :=
  if phc_ok phc then Ok (mkVerifier (hashes v ++ [phc])) else Err InvalidHash.

Fixpoint verify_loop (hs : list (list Z)) (token : list Z) : res AuthError unit :=
  match hs with
  | [] => Err Rejected
  | h :: hs' =>
      if phc_ok h then if verify_password (utf8 token) h then Ok tt else verify_loop hs' token
      else Err InvalidHash
  end.
Definition verify (v : BearerVerifier) (token : list Z) : res AuthError unit := verify_loop (hashes v) token.

Definition hash_token (salt : Z) (token : list Z) : res AuthError (list Z) :=
  ok_or (hash_password salt (utf8 token)) HashFailed.

(** The decision of the WebSocket upgrade: a presented token decides, and the
    exemption applies only when none is presented. *)
Definition check_auth (header_value : option (list Z)) (peer : IpAddr) (v : BearerVerifier) (no_auth : bool) : AuthOutcome :=
  match header_value ≫= extract_bearer with
  | Some tok => match verify v tok with Ok _ => Bearer | _ => AuthRejected (lit "bearer rejected") end
  | None =>
      if no_auth && is_loopback_allowed peer then LoopbackNoAuth
      else AuthRejected (lit "no bearer and not loopback-no-auth")
  end.

(** The decision of the HTTP handlers (annotations, exports): the exemption
    comes first, then the [Authorization] header. *)
Definition authorize_http (authorization : option (list Z)) (peer : IpAddr) (v : BearerVerifier) (no_auth : bool)
  : res (list Z) unit :=
  if no_auth && is_loopback_allowed peer then Ok tt
  else match authorization ≫= strip_prefix (lit "Bearer ") with
       | None => Err (lit "missing bearer token")
       | Some token => map_err (fun _ => lit "bearer token rejected") (verify v token)
       end.

Definition wf_verifier (v : BearerVerifier) : Prop := Forall (fun h => phc_ok h = true) (hashes v).
Definition accepts (v : BearerVerifier) (token : list Z) : Prop :=
  Exists (fun h => verify_password (utf8 token) h = true) (hashes v).

Lemma add_phc_wf v phc v' : wf_verifier v -> add_phc v phc = Ok v' -> wf_verifier v'.
Proof.
  unfold add_phc. intros Hw H. destruct (phc_ok phc) eqn:Hp; inversion H; subst.
  apply Forall_app. split; [done|]. by repeat constructor.
Qed.
Lemma verify_spec v token : wf_verifier v -> (verify v token = Ok tt /\ accepts v token)
  \/ (verify v token = Err Rejected /\ ~ accepts v token).
Proof.
  unfold wf_verifier, verify, accepts. intros H. induction H as [|h hs Hh _ IH]; cbn.
  - right. split; [done|]. by intros H%Exists_nil.
  - rewrite Hh, Exists_cons. destruct (verify_password (utf8 token) h); [naive_solver|].
    destruct IH as [[-> Ha]|[-> Hn]]; naive_solver.
Qed.

(** Tokens a client can send in the header: a comma ends an entry and white
    space at its end is trimmed. *)
Definition token_sendable (tok : list Z) : Prop :=
  Forall (fun c => c <> 44) tok /\ match last tok with Some c => is_whitespace c = false | None => True end.


(** The header our clients send names the subprotocol and then the token. *)
Lemma extract_sent tok : token_sendable tok ->
  extract_bearer (lit "tracemux.v1, " ++ BEARER_PREFIX ++ tok) = Some tok.
Proof.
  intros [Hc Hl]. unfold extract_bearer.
  change (lit "tracemux.v1, ") with (lit "tracemux.v1" ++ 44 :: [32]). rewrite <- (assoc_L (++)). cbn [app].
  rewrite split_on_app, (split_on_none 44 (32 :: _)).
  2:{ apply Forall_cons. split; [done|]. apply Forall_app. split; [|done].
      apply (bool_decide_unpack _). vm_compute. reflexivity. }
  rewrite (split_on_none 44 (lit "tracemux.v1")) by (apply (bool_decide_unpack _); vm_compute; reflexivity).
  cbn [app map]. change (find_map (strip_prefix BEARER_PREFIX) ?l) with
    (find_map (strip_prefix BEARER_PREFIX) (tail l)).
  cbn [tail find_map]. replace (trim (32 :: BEARER_PREFIX ++ tok)) with (BEARER_PREFIX ++ tok).
  - by rewrite strip_prefix_app_same.
  - unfold trim, trim_matches. change (trim_start_matches is_whitespace (32 :: BEARER_PREFIX ++ tok)) with
      (BEARER_PREFIX ++ tok). rewrite trim_end_id; [done|].
    intros c H. rewrite last_app in H. destruct (last tok); [by simplify_eq|]. vm_compute in H. by simplify_eq.
Qed.

Lemma check_auth_bearer header peer v no_auth tok : wf_verifier v ->
  header ≫= extract_bearer = Some tok ->
  (check_auth header peer v no_auth = Bearer <-> accepts v tok)
  /\ check_auth header peer v no_auth <> LoopbackNoAuth.
Proof.
  intros Hw Ht. unfold check_auth. rewrite Ht. destruct (verify_spec v tok Hw) as [[-> ?]|[-> ?]]; naive_solver.
Qed.
End Verifier.

Section Admission.
  Context (phc_ok : list Z -> bool) (verify_password : list Z -> list Z -> bool)
    (hash_password : Z -> list Z -> option (list Z)).
  (** A fresh argon2 hash parses and verifies the password it was made of. *)
  Hypothesis argon2_complete : forall salt pw phc, hash_password salt pw = Some phc ->
    phc_ok phc = true /\ verify_password pw phc = true.

(** The verifier of a server that was given PHC strings at start. *)
Fixpoint add_all (v : BearerVerifier) (phcs : list (list Z)) : res AuthError BearerVerifier :=
  match phcs with [] => Ok v | p :: ps => let* v' := add_phc phc_ok v p in add_all v' ps end.

Lemma add_all_spec phcs : forall v v', wf_verifier phc_ok v -> add_all v phcs = Ok v' ->
  wf_verifier phc_ok v' /\ hashes v' = hashes v ++ phcs.
Proof.
  induction phcs as [|p ps IH]; intros v v' Hw H; cbn in H; [simplify_eq; by rewrite app_nil_r|].
  apply bind_Ok in H as (v1 & H1 & H2). destruct (IH v1 v' (add_phc_wf _ _ _ _ Hw H1) H2) as [? ->].
  split; [done|]. unfold add_phc in H1. destruct (phc_ok p); simplify_eq. cbn. by rewrite <- (assoc_L (++)).
Qed.

(** Who is admitted: a token whose hash was provisioned is admitted from
    any address, in the header the clients send and on the HTTP side; a
    connection with a token that no stored hash verifies is refused even on
    loopback without authentication, and one without a token is admitted
    exactly under [--no-auth] from a loopback address. *)
Theorem admission_decision phcs v salt tok phc peer no_auth :
  add_all verifier_new phcs = Ok v -> hash_token hash_password salt tok = Ok phc -> phc ∈ phcs -> token_sendable tok ->
  check_auth phc_ok verify_password (Some (lit "tracemux.v1, " ++ BEARER_PREFIX ++ tok)) peer v no_auth = Bearer /\
  authorize_http phc_ok verify_password (Some (lit "Bearer " ++ tok)) peer v no_auth = Ok tt /\
  (forall h bad, extract_bearer h = Some bad -> Forall (fun p => verify_password (utf8 bad) p = false) phcs ->
     exists r, check_auth phc_ok verify_password (Some h) peer v no_auth = AuthRejected r) /\
  (forall h, h ≫= extract_bearer = None ->
     (check_auth phc_ok verify_password h peer v no_auth = LoopbackNoAuth <-> no_auth = true /\ is_loopback_allowed peer = true)
     /\ check_auth phc_ok verify_password h peer v no_auth <> Bearer).
Proof.
  intros Hv Hh Hin Hs. apply add_all_spec in Hv as [Hw Hhs]; [|constructor]. cbn in Hhs.
  assert (Ha : accepts verify_password v tok).
  { unfold hash_token in Hh. destruct (hash_password salt (utf8 tok)) eqn:E; [|done]. injection Hh as ->.
    apply Exists_exists. exists phc. rewrite Hhs. split; [done|]. by eapply argon2_complete. }
  split; [|split; [|split]].
  - pose proof (extract_sent tok Hs) as Hx. revert Hx. generalize (lit "tracemux.v1, " ++ BEARER_PREFIX ++ tok).
    intros h Hx. by apply (check_auth_bearer _ _ (Some h) peer v no_auth tok Hw).
  - unfold authorize_http. case_if; [done|]. cbn [mbind option_bind]. rewrite strip_prefix_app_same.
    by destruct (verify_spec _ verify_password v tok Hw) as [[-> ?]|[-> ?]].
  - intros h bad Hb HF. unfold check_auth. cbn [mbind option_bind]. rewrite Hb.
    destruct (verify_spec _ verify_password v bad Hw) as [[-> Hac]|[-> ?]]; [|by eexists].
    unfold accepts in Hac. rewrite Hhs in Hac. apply Exists_exists in Hac as (p & Hp & Hv).
    rewrite Forall_forall in HF. rewrite (HF p Hp) in Hv. done.
  - intros h Hn. unfold check_auth. rewrite Hn. destruct no_auth, (is_loopback_allowed peer); cbn; naive_solver.
Qed.
End Admission.

(** ** Concrete parameters for the witnesses: a text is its own hash, and any
    countable value is written as the decimal number of its code. *)
Definition toy_hash (salt : Z) (pw : list Z) : option (list Z) := Some (salt :: pw).
Definition toy_verify (pw phc : list Z) : bool := match phc with _ :: p => str_eqb p pw | [] => false end.
Definition toy_ok (phc : list Z) : bool := match phc with [] => false | _ => true end.
Definition code_text {A} `{Countable A} (a : A) : list Z := show_nat (Zpos (encode a)).
Definition text_code {A} `{Countable A} (s : list Z) : option A :=
  match parse_digits 10 0 s with Some (Zpos p) => decode p | _ => None end.
Lemma text_code_text {A} `{Countable A} (a : A) : text_code (code_text a) = Some a.
Proof. unfold text_code, code_text. rewrite show_nat_parse by lia. apply decode_encode. Qed.
Lemma code_text_digits {A} `{Countable A} (a : A) : Forall (fun c => is_digit c = true) (code_text a).
Proof. apply show_nat_digits. lia. Qed.

Lemma admission_decision_witness :
  check_auth toy_ok toy_verify (Some (lit "tracemux.v1, bearer.key")) (V4 10 0 0 1) (mkVerifier [7 :: lit "key"]) false = Bearer.
Proof.
  apply (admission_decision toy_ok toy_verify toy_hash) with (phcs := [7 :: lit "key"]) (salt := 7) (phc := 7 :: lit "key")
    (tok := lit "key").
  - intros salt pw phc H. inversion H; subst. split; [done|]. cbn. unfold str_eqb. by apply bool_decide_eq_true.
  - reflexivity.
  - reflexivity.
  - by apply list_elem_of_singleton.
  - split; [apply (bool_decide_unpack _); vm_compute; reflexivity | vm_compute; reflexivity].
Defined.

(** The exemption covers all of 127.0.0.0/8, not only 127.0.0.1 (Finding). *)
Lemma loopback_is_a_block : exists b c d, (b, c, d) <> (0, 0, 1) /\ is_loopback_allowed (V4 127 b c d) = true.
Proof. by exists 0, 0, 2. Qed.

(** ** Certificate pins *)
Inductive FingerprintError :=
| FpIo
| FpJson
| FpSchema (got : list Z)
| FpMismatch (host pinned got : list Z).
Definition FingerprintError_id (e : FingerprintError) : ErrorId := E2103TofuMismatch.
Inductive PinOutcome := Pinned | Matched.

Definition SCHEMA : list Z := lit "tracemux/tofu/v1".
Record PinFile := mkPinFile { schema : list Z; pins : gmap (list Z) (list Z) }.
Definition PinFile_empty : PinFile := mkPinFile SCHEMA ∅.

(** A store and the contents of its file ([None]: there is no file). *)
Record PinStore := mkPinStore { disk : option (list Z); inner : PinFile }.

(** What the file system does with one save: the directory cannot be made, or
    [fs::write], which truncates first, fails and leaves something behind. *)
Inductive save_io := Saved | MkdirFails | WriteFails (rest : option (list Z)).

(** What is done with a store over its life; [Reopen] is a restart that reads
    the file. *)
Inductive pin_op :=
| Verify (host cert : list Z) (io : save_io)
| Force (host fp : list Z) (io : save_io)
| Reopen.

Definition op_saved (o : pin_op) : bool :=
  match o with Verify _ _ Saved | Force _ _ Saved | Reopen => true | _ => false end.
Definition op_keeps (host : list Z) (o : pin_op) : Prop :=
  match o with Force h _ _ => h <> host | _ => True end.

Section Pins.
  (** sha2's SHA-256 and serde_json on [PinFile]. *)
  Context (sha256 : list Z -> list Z) (to_vec_pretty : PinFile -> option (list Z))
    (from_slice : list Z -> option PinFile).

Definition fingerprint_der (cert_der : list Z) : list Z :=
  lit "sha256:" ++ concat (map (show_hex2 false) (sha256 cert_der)).

Definition pins_open (file : option (list Z)) : res FingerprintError PinStore :=
  match file with
  | Some bytes =>
      let* pf := ok_or (from_slice bytes) FpJson in
      if str_eqb (schema pf) SCHEMA then Ok (mkPinStore file pf) else Err (FpSchema (schema pf))
  | None => Ok (mkPinStore None PinFile_empty)
  end.

Definition pins_get (s : PinStore) (host : list Z) : option (list Z) := pins (inner s) !! host.

Definition save (s : PinStore) (io : save_io) : PinStore * res FingerprintError unit :=
  match io with
  | MkdirFails => (s, Err FpIo)
  | _ =>
      match to_vec_pretty (inner s) with
      | None => (s, Err FpJson)
      | Some bytes =>
          match io with
          | WriteFails rest => (mkPinStore rest (inner s), Err FpIo)
          | _ => (mkPinStore (Some bytes) (inner s), Ok tt)
          end
      end
  end.

Definition insert_pin (s : PinStore) (host fp : list Z) : PinStore :=
  mkPinStore (disk s) (mkPinFile (schema (inner s)) (<[host := fp]> (pins (inner s)))).

Definition verify_or_pin (s : PinStore) (host cert_der : list Z) (io : save_io) : PinStore * res FingerprintError PinOutcome :=
  let fp := fingerprint_der cert_der in
  match pins (inner s) !! host with
  | Some pinned => (s, if str_eqb pinned fp then Ok Matched else Err (FpMismatch host pinned fp))
  | None =>
      let '(s', r) := save (insert_pin s host fp) io in
      (s', let* _ := r in Ok Pinned)
  end.

Definition force_pin (s : PinStore) (host fp : list Z) (io : save_io) : PinStore * res FingerprintError unit :=
  save (insert_pin s host fp) io.

Definition pin_step (s : PinStore) (o : pin_op) : res FingerprintError PinStore :=
  match o with
  | Verify host cert io => Ok (fst (verify_or_pin s host cert io))
  | Force host fp io => Ok (fst (force_pin s host fp io))
  | Reopen => pins_open (disk s)
  end.
Fixpoint pin_run (s : PinStore) (os : list pin_op) : res FingerprintError PinStore :=
  match os with [] => Ok s | o :: os' => let* s' := pin_step s o in pin_run s' os' end.

  (** The digest has bytes, a pin file is always serialisable, and what is
      written is read back. *)
  Hypothesis sha256_bytes : forall c, bytes_ok (sha256 c).
  Hypothesis to_vec_total : forall pf, is_Some (to_vec_pretty pf).
  Hypothesis json_round : forall pf b, to_vec_pretty pf = Some b -> from_slice b = Some pf.

Lemma show_hex2_inj a b : 0 <= a < 256 -> 0 <= b < 256 -> show_hex2 false a = show_hex2 false b -> a = b.
Proof.
  unfold show_hex2, hex_digit. intros Ha Hb [= H1 H2].
  rewrite (Z.div_mod a 16), (Z.div_mod b 16) by lia.
  pose proof (Z.mod_pos_bound a 16). pose proof (Z.mod_pos_bound b 16).
  assert (0 <= a / 16 < 16 /\ 0 <= b / 16 < 16) as [? ?].
  { split; split; try (apply Z.div_pos; lia); apply Z.div_lt_upper_bound; lia. }
  repeat match goal with H : context [if ?x <? 10 then _ else _] |- _ => destruct (Z.ltb_spec x 10) end; lia.
Qed.
Lemma hex_concat_inj l : forall k, bytes_ok l -> bytes_ok k ->
  concat (map (show_hex2 false) l) = concat (map (show_hex2 false) k) -> l = k.
Proof.
  induction l as [|a l IH]; intros [|b k] Hl Hk H; try done.
  apply Forall_cons in Hl as [Ha Hl]. apply Forall_cons in Hk as [Hb Hk].
  cbn [map concat] in H. apply app_inj_1 in H as [H1 H2]; [|done].
  by rewrite (show_hex2_inj _ _ Ha Hb H1), (IH k).
Qed.
Lemma fingerprint_inj c d : fingerprint_der c = fingerprint_der d <-> sha256 c = sha256 d.
Proof.
  unfold fingerprint_der. split; [|by intros ->].
  intros H%app_inv_head. by apply hex_concat_inj in H.
Qed.

(** The file holds what the store has in memory. *)
Definition synced (s : PinStore) : Prop :=
  schema (inner s) = SCHEMA /\ match disk s with Some b => from_slice b = Some (inner s) | None => inner s = PinFile_empty end.

Lemma save_saved s : schema (inner s) = SCHEMA ->
  exists s', save s Saved = (s', Ok tt) /\ inner s' = inner s /\ synced s'.
Proof.
  intros Hs. unfold save. destruct (to_vec_total (inner s)) as [b Hb]. rewrite Hb.
  eexists. split; [done|]. split; [done|]. split; [done|]. by apply json_round.
Qed.
Lemma open_synced s : synced s -> pins_open (disk s) = Ok s.
Proof.
  unfold synced, pins_open. destruct s as [[b|] pf]; cbn; intros [Hs Hd].
  - rewrite Hd. cbn. unfold str_eqb. by rewrite bool_decide_true.
  - by rewrite Hd.
Qed.
Lemma pin_step_keeps s o host fp : synced s -> op_saved o = true -> op_keeps host o ->
  pins (inner s) !! host = Some fp ->
  exists s', pin_step s o = Ok s' /\ synced s' /\ pins (inner s') !! host = Some fp.
Proof.
  intros Hy Ho Hk Hp. destruct o as [h c io|h f io|]; cbn in Ho, Hk.
  - destruct io; try done. cbn. unfold verify_or_pin. destruct (pins (inner s) !! h) as [q|] eqn:Hh; [by exists s|].
    destruct (save_saved (insert_pin s h (fingerprint_der c)) (proj1 Hy)) as (s' & -> & Hi & Hs').
    exists s'. split; [done|]. split; [done|]. rewrite Hi. cbn. rewrite lookup_insert_ne; [done|]. congruence.
  - destruct io; try done. cbn [pin_step]. unfold force_pin.
    destruct (save_saved (insert_pin s h f) (proj1 Hy)) as (s' & -> & Hi & Hs').
    exists s'. split; [done|]. split; [done|]. rewrite Hi. cbn. by rewrite lookup_insert_ne.
  - exists s. cbn. by rewrite open_synced.
Qed.
Lemma pin_run_keeps os host fp : forall s, synced s -> forallb op_saved os = true -> Forall (op_keeps host) os ->
  pins (inner s) !! host = Some fp ->
  exists s', pin_run s os = Ok s' /\ pins (inner s') !! host = Some fp.
Proof.
  induction os as [|o os IH]; intros s Hy Ho Hk Hp; [by exists s|].
  cbn in Ho. apply andb_prop in Ho as [Ho Hos]. apply Forall_cons in Hk as [Hk Hks].
  destruct (pin_step_keeps s o host fp) as (s1 & Hst & Hy1 & Hp1); [done..|].
  destruct (IH s1) as (s' & Hr & Hp'); [done..|]. exists s'. cbn [pin_run]. by rewrite Hst.
Qed.

(** C28: trust on first use: the first contact with a host pins its
    certificate, and after any later contacts with any hosts, pins forced for
    other hosts and restarts, as long as each save succeeds, a certificate is
    accepted exactly when it has the pinned SHA-256 digest, and otherwise the
    mismatch is reported with both fingerprints. *)
Theorem tofu_pin_holds s host cert os :
  schema (inner s) = SCHEMA -> pins (inner s) !! host = None ->
  forallb op_saved os = true -> Forall (op_keeps host) os ->
  exists s1 s2, verify_or_pin s host cert Saved = (s1, Ok Pinned) /\ pin_run s1 os = Ok s2 /\
    forall cert' io, verify_or_pin s2 host cert' io =
      (s2, if bool_decide (sha256 cert' = sha256 cert) then Ok Matched
           else Err (FpMismatch host (fingerprint_der cert) (fingerprint_der cert'))).
Proof.
  intros Hs Hp Ho Hk.
  destruct (save_saved (insert_pin s host (fingerprint_der cert)) Hs) as (s1 & Hsv & Hi & Hy).
  assert (Hp1 : pins (inner s1) !! host = Some (fingerprint_der cert)).
  { rewrite Hi. apply lookup_insert_eq. }
  destruct (pin_run_keeps os host _ s1 Hy Ho Hk Hp1) as (s2 & Hr & Hp2).
  exists s1, s2. split; [|split; [done|]].
  - unfold verify_or_pin. by rewrite Hp, Hsv.
  - intros cert' io. unfold verify_or_pin. rewrite Hp2. f_equal. unfold str_eqb.
    destruct (decide (sha256 cert' = sha256 cert)) as [E|E].
    + rewrite !bool_decide_true; [done|done|]. by apply fingerprint_inj.
    + rewrite !bool_decide_false; [done|done|]. intros ?. apply E. symmetry. by apply fingerprint_inj.
Qed.

(** A first contact whose save fails reports an error, but the pin stays in
    memory: the next contact reports a match, and after a restart the host is
    unknown again. *)
Lemma pin_failed_save s host cert io : pins (inner s) !! host = None -> io <> Saved ->
  exists s' e, verify_or_pin s host cert io = (s', Err e) /\
    forall io', snd (verify_or_pin s' host cert io') = Ok Matched.
Proof.
  intros Hp Hio. unfold verify_or_pin at 1. rewrite Hp.
  assert (exists s', (exists e, save (insert_pin s host (fingerprint_der cert)) io = (s', Err e)) /\
    pins (inner s') !! host = Some (fingerprint_der cert)) as (s' & (e & Hsv) & Hi).
  { unfold save. destruct io as [| |rest]; [done| |].
    - eexists. split; [by eexists|]. apply lookup_insert_eq.
    - destruct (to_vec_pretty _); eexists; (split; [by eexists|]; apply lookup_insert_eq). }
  rewrite Hsv. exists s', e. split; [done|]. intros io'. unfold verify_or_pin. rewrite Hi. unfold str_eqb.
  by rewrite bool_decide_true.
Qed.
End Pins.

(** ** JSON-lines files: audit.rs and clientlog.rs

    Both append one serialised entry and a line feed through a [BufWriter] and
    flush it; a failing append leaves part of the line in the buffer or in the
    file. *)
Inductive AuditKind := AuAuth | AuWriteBack | AuSession | AuConfig | AuOther.
Inductive AuditResult := AuOk | AuDenied | AuError.
Record AuditEvent := mkAudit {
  a_ts : list Z; a_actor : list Z; a_kind : AuditKind; a_target : list Z; a_result : AuditResult; a_detail : Value
}.
Inductive ClientLevel := Debug | Info | Warn | Error.
Record ClientLogEntry := mkClient {
  c_ts : list Z; c_origin : list Z; c_level : ClientLevel; c_message : list Z; c_detail : Value
}.

(** The file and the bytes still in the writer's buffer. *)
Record JsonlLog := mkJsonl { j_file : list Z; j_buf : list Z }.

(** One append: [None] when every call succeeds; [Some (w, k)] when an error
    cuts it after [w] bytes of the line reached the buffer and [k] of the
    buffered bytes the file. *)
Definition jsonl_cut := option (nat * nat).

Section Jsonl.
  Context {A : Type} (to_json : A -> option (list Z)).

Definition jsonl_create (existing : list Z) : JsonlLog := mkJsonl existing [].
Definition jsonl_append (l : JsonlLog) (entry : A) (cut : jsonl_cut) : JsonlLog * res unit unit :=
  match to_json entry with
  | None => (l, Err tt)
  | Some line =>
      let all := j_buf l ++ line ++ [10] in
      match cut with
      | None => (mkJsonl (j_file l ++ all) [], Ok tt)
      | Some (w, k) =>
          let reached := j_buf l ++ take w (line ++ [10]) in
          (mkJsonl (j_file l ++ take k reached) (drop k reached), Err tt)
      end
  end.
Fixpoint jsonl_append_all (l : JsonlLog) (es : list (A * jsonl_cut)) : JsonlLog :=
  match es with [] => l | (e, cut) :: es' => jsonl_append_all (fst (jsonl_append l e cut)) es' end.

  (** serde_json writes an entry without line feeds or carriage returns. *)
  Hypothesis json_line : forall e b, to_json e = Some b -> Forall (fun c => c <> 10 /\ c <> 13) b.
  Hypothesis json_total : forall e, is_Some (to_json e).

(** An append that fails only in the final flush, so that the whole line is
    in the buffer. *)
Definition flush_only (ec : A * jsonl_cut) : Prop :=
  match snd ec with
  | None => True
  | Some (w, _) => match to_json (fst ec) with Some line => (length line < w)%nat | None => False end
  end.

Lemma jsonl_append_all_spec es : forall l, Forall flush_only es ->
  let l' := jsonl_append_all l es in
  exists bs, Forall2 (fun ec b => to_json (fst ec) = Some b) es bs /\
    j_file l' ++ j_buf l' = j_file l ++ j_buf l ++ concat (map (fun b => b ++ [10]) bs).
Proof.
  induction es as [|[e cut] es IH]; intros l HF; cbn.
  - exists []. split; [constructor|]. by rewrite app_nil_r.
  - apply Forall_cons in HF as [He HF]. destruct (json_total e) as [b Hb].
    destruct (IH (fst (jsonl_append l e cut)) HF) as (bs & HF2 & Heq).
    exists (b :: bs). split; [by constructor|]. rewrite Heq. unfold jsonl_append. rewrite Hb.
    destruct cut as [[w k]|]; cbn.
    + unfold flush_only in He. cbn in He. rewrite Hb in He.
      rewrite (take_ge (b ++ [10]) w) by (rewrite length_app; cbn; lia).
      rewrite <- !(assoc_L (++)), (assoc_L (++) (take _ _)), take_drop. by rewrite <- !(assoc_L (++)).
    + by rewrite <- !(assoc_L (++)).
Qed.

(** The audit and client logs lose and reorder nothing: after any sequence of
    appends of which some may have failed in the flush, a successful one
    leaves a file whose lines are the earlier lines followed by every entry
    appended since, in order, one per line. *)
Theorem jsonl_complete old es e b :
  Forall (Forall (fun c => c <> 10 /\ c <> 13)) old ->
  Forall flush_only es -> to_json e = Some b ->
  exists bs, Forall2 (fun ec b => to_json (fst ec) = Some b) es bs /\
    let r := jsonl_append (jsonl_append_all (jsonl_create (concat (map (fun l => l ++ [10]) old))) es) e None in
    snd r = Ok tt /\ j_buf (fst r) = [] /\ buf_lines (j_file (fst r)) = old ++ bs ++ [b].
Proof.
  intros Hold HF He. destruct (jsonl_append_all_spec es (jsonl_create (concat (map (fun l => l ++ [10]) old))) HF)
    as (bs & HF2 & Heq).
  exists bs. split; [done|]. cbn zeta. unfold jsonl_append at 1 2 3. rewrite He. split; [done|]. split; [done|].
  cbn [fst j_file]. rewrite (assoc_L (++)), Heq. cbn [jsonl_create j_file j_buf app].
  rewrite <- (buf_lines_concat (old ++ bs ++ [b])).
  - rewrite !map_app, !concat_app. cbn [map concat]. by rewrite app_nil_r, <- !(assoc_L (++)).
  - rewrite !Forall_app. split; [done|]. split; [|by repeat constructor; eapply json_line].
    clear -HF2 json_line. induction HF2; constructor; eauto.
Qed.
End Jsonl.

(** ** Witnesses *)
Definition toy_sha (c : list Z) : list Z := map (fun b => b mod 256) c.
Definition toy_to_vec (pf : PinFile) : option (list Z) := Some (code_text (schema pf, pins pf)).
Definition toy_from_slice (b : list Z) : option PinFile :=
  match text_code b with Some (s, p) => Some (mkPinFile s p) | None => None end.

Lemma tofu_pin_holds_witness :
  exists s1 s2, verify_or_pin toy_sha toy_to_vec (mkPinStore None PinFile_empty) (lit "h") [1; 2] Saved = (s1, Ok Pinned) /\
    pin_run toy_sha toy_to_vec toy_from_slice s1 [Reopen; Verify (lit "k") [3] Saved; Reopen] = Ok s2 /\
    forall cert' io, verify_or_pin toy_sha toy_to_vec s2 (lit "h") cert' io =
      (s2, if bool_decide (toy_sha cert' = toy_sha [1; 2]) then Ok Matched
           else Err (FpMismatch (lit "h") (fingerprint_der toy_sha [1; 2]) (fingerprint_der toy_sha cert'))).
Proof.
  apply (tofu_pin_holds toy_sha toy_to_vec toy_from_slice).
  - intros c. apply Forall_map, Forall_forall. intros b _. apply Z.mod_pos_bound. lia.
  - intros pf. by eexists.
  - intros pf b H. unfold toy_to_vec in H. injection H as <-. unfold toy_from_slice. rewrite text_code_text. by destruct pf.
  - reflexivity.
  - apply lookup_empty.
  - reflexivity.
  - repeat constructor.
Defined.

Definition toy_json (e : list Z) : option (list Z) := Some (code_text e).
Lemma jsonl_complete_witness :
  exists bs, Forall2 (fun ec b => toy_json (fst ec) = Some b) [(lit "a", Some (99%nat, 1%nat)); (lit "b", None)] bs /\
    let r := jsonl_append toy_json (jsonl_append_all toy_json (jsonl_create (concat (map (fun l => l ++ [10]) [lit "old"])))
               [(lit "a", Some (99%nat, 1%nat)); (lit "b", None)]) (lit "c") None in
    snd r = Ok tt /\ j_buf (fst r) = [] /\ buf_lines (j_file (fst r)) = [lit "old"] ++ bs ++ [code_text (lit "c")].
Proof.
  apply (jsonl_complete toy_json).
  - intros e b H. injection H as <-. eapply Forall_impl; [apply code_text_digits|]. cbn. intros c Hc.
    unfold is_digit in Hc. apply in_range_spec in Hc. lia.
  - intros e. by eexists.
  - apply (bool_decide_unpack _); vm_compute; reflexivity.
  - constructor; [|constructor; [exact I|constructor]]. vm_compute. lia.
  - reflexivity.
Defined.
