(* ===== verification/Annotations.v ===== *)
(** * Annotations: server/src/annotation_api.rs

    The server-owned notes on sessions and log types: the store (a map in
    memory and a JSON-lines file that is rewritten on each change), the rules
    for what a note may hold, and the three HTTP handlers.  serde_json and the
    parsing of UUIDs are parameters; the file system is the outcome of each
    call that may fail. *)
From stdpp Require Import base numbers strings gmap sorting list.
From S2P Require Import Prelude Text Auth.

Local Open Scope Z_scope.
Local Open Scope tm_scope.

Definition MAX_ANNOTATION_TEXT_LEN : Z := 20000.
Definition MAX_LOG_TYPE_KEY_LEN : Z := 120.

Inductive AnnotationTargetKind := Session | LogType.
Record AnnotationTarget := mkTarget { t_kind : AnnotationTargetKind; t_sid : option Z; t_key : option (list Z) }.
Record Annotation := mkAnnotation {
  id : Z; target : AnnotationTarget; text : list Z; updated_at : Z; updated_by : option (list Z); deleted : bool
}.

(** Status code and error id; the message is not modelled. *)
Record AnnotationApiError := mkApiError { status : Z; error_id : list Z }.
Definition bad_request : AnnotationApiError := mkApiError 400 (lit "E-2001").
Definition not_found : AnnotationApiError := mkApiError 404 (lit "E-1001").
Definition internal : AnnotationApiError := mkApiError 500 (lit "E-1001").
Definition auth_error : AnnotationApiError := mkApiError 401 (lit "E-2101").

(** ** What a note may hold *)
Definition normalize_target (t : AnnotationTarget) : res AnnotationApiError AnnotationTarget :=
  match t_kind t with
  | Session =>
      match t_sid t with
      | None => Err bad_request
      | Some sid => Ok (mkTarget Session (Some sid) None)
      end
  | LogType =>
      let key := trim (default [] (t_key t)) in
      if bool_decide (key = []) then Err bad_request
      else if MAX_LOG_TYPE_KEY_LEN <? zlen key then Err bad_request
      else Ok (mkTarget LogType (t_sid t) (Some key))
  end.
Definition normalize_text (s : list Z) : res AnnotationApiError (list Z) :=
  if MAX_ANNOTATION_TEXT_LEN <? zlen s then Err bad_request else Ok s.
Definition normalize_actor (actor : list Z) : option (list Z) :=
  let actor := trim actor in
  if bool_decide (actor = []) then None else Some (take (Z.to_nat 120) actor).

Definition annotation_visible_for_sid (a : Annotation) (sid : option Z) : bool :=
  match sid with
  | None => true
  | Some s =>
      match t_kind (target a) with
      | Session => bool_decide (t_sid (target a) = Some s)
      | LogType => bool_decide (t_sid (target a) = None) || bool_decide (t_sid (target a) = Some s)
      end
  end.

(** ** The store: a [BTreeMap] and the file of its path ([None]: no file) *)
Record AnnotationStore := mkStore { a_disk : option (list Z); annotations : gmap Z Annotation }.

Definition key_le (p q : Z * Annotation) : Prop := fst p <= fst q.
#[export] Instance key_le_dec p q : Decision (key_le p q) := decide (fst p <= fst q).
#[export] Instance key_le_total : Total key_le.
Proof. intros p q. unfold key_le. lia. Qed.
#[export] Instance key_le_trans : Transitive key_le.
Proof. intros p q r. unfold key_le. lia. Qed.

(** [BTreeMap::values]: in the order of the keys. *)
Definition values (m : gmap Z Annotation) : list Annotation := map snd (merge_sort key_le (map_to_list m)).

(** What the calls of one [persist_locked] do. *)
Record persist_io := mkIo { mkdir_ok : bool; write_ok : bool; remove_ok : bool; rename_ok : bool }.
Definition io_ok : persist_io := mkIo true true true true.

Section Store.
  (** serde_json on an annotation, and [Uuid::parse_str]. *)
  Context (to_string : Annotation -> option (list Z)) (from_str : list Z -> option Annotation)
    (parse_uuid : list Z -> option Z).

(** The body that is written: one line per live annotation. *)
Fixpoint render (l : list Annotation) : option (list Z) :=
  match l with
  | [] => Some []
  | a :: l' =>
      if deleted a then render l'
      else line ← to_string a; body ← render l'; Some (line ++ [10] ++ body)
  end.

(** [tmp] has a fresh name, so only the file of the path is state; it is
    removed before the rename when it exists. *)
Definition persist_locked (file : option (list Z)) (m : gmap Z Annotation) (io : persist_io)
  : option (list Z) * res AnnotationApiError unit :=
  if negb (mkdir_ok io) then (file, Err internal) else
  match render (values m) with
  | None => (file, Err internal)
  | Some body =>
      if negb (write_ok io) then (file, Err internal) else
      let exists_ := match file with Some _ => true | None => false end in
      if exists_ && negb (remove_ok io) then (file, Err internal)
      else if rename_ok io then (Some (utf8 body), Ok tt)
      else (None, Err internal)
  end.

Fixpoint load_lines (lines : list (list Z)) (out : gmap Z Annotation) : res AnnotationApiError (gmap Z Annotation) :=
  match lines with
  | [] => Ok out
  | line :: lines' =>
      let line := trim line in
      if bool_decide (line = []) then load_lines lines' out
      else let* a := ok_or (from_str line) internal in
           load_lines lines' (if deleted a then delete (id a) out else <[id a := a]> out)
  end.
Definition load_annotations (file : option (list Z)) : res AnnotationApiError (gmap Z Annotation) :=
  match file with
  | None => Ok ∅
  | Some bytes => let* s := ok_or (from_utf8 bytes) internal in load_lines (buf_lines s) ∅
  end.

Definition open (file : option (list Z)) : res AnnotationApiError AnnotationStore :=
  let* m := load_annotations file in Ok (mkStore file m).

Definition list_annotations (s : AnnotationStore) (sid : option Z) : list Annotation :=
  filter (fun a => annotation_visible_for_sid a sid = true) (filter (fun a => deleted a = false) (values (annotations s))).

(** The change is made in memory first, then persisted. *)
Definition upsert (s : AnnotationStore) (i : Z) (t : AnnotationTarget) (txt : list Z) (by_ : option (list Z)) (now : Z)
    (io : persist_io) : AnnotationStore * res AnnotationApiError Annotation :=
  match (let* t' := normalize_target t in let* txt' := normalize_text txt in Ok (t', txt')) with
  | Ok (t', txt') =>
      let a := mkAnnotation i t' txt' now (by_ ≫= normalize_actor) false in
      let m := <[i := a]> (annotations s) in
      let '(file, r) := persist_locked (a_disk s) m io in
      (mkStore file m, let* _ := r in Ok a)
  | Err e => (s, Err e)
  | Panic => (s, Panic)
  end.
Definition remove (s : AnnotationStore) (i : Z) (io : persist_io) : AnnotationStore * res AnnotationApiError bool :=
  match annotations s !! i with
  | Some _ =>
      let m := delete i (annotations s) in
      let '(file, r) := persist_locked (a_disk s) m io in
      (mkStore file m, let* _ := r in Ok true)
  | None => (s, Ok false)
  end.

(** ** The HTTP handlers *)
Inductive Response :=
| RList (l : list Annotation)
| RAnnotation (a : Annotation)
| RNoContent
| RError (e : AnnotationApiError) (www_authenticate : bool).

Definition into_response (e : AnnotationApiError) : Response := RError e (status e =? 401).

Definition parse_annotation_id (v : list Z) : res AnnotationApiError Z := ok_or (parse_uuid (trim v)) bad_request.
Definition parse_optional_sid (v : option (list Z)) : res AnnotationApiError (option Z) :=
  match v with
  | Some s => if bool_decide (trim s = []) then Ok None else let* u := ok_or (parse_uuid (trim s)) bad_request in Ok (Some u)
  | None => Ok None
  end.

  (** The decision of [authorize_annotations] on one request. *)
  Context (phc_ok : list Z -> bool) (verify_password : list Z -> list Z -> bool).
Definition authorize_annotations (authorization : option (list Z)) (peer : IpAddr) (v : BearerVerifier) (no_auth : bool)
  : res AnnotationApiError unit :=
  map_err (fun _ => auth_error) (authorize_http phc_ok verify_password authorization peer v no_auth).

Record Request := mkRequest { authorization : option (list Z); peer : IpAddr; verifier : BearerVerifier; no_auth : bool }.
Definition authorized (q : Request) : res AnnotationApiError unit :=
  authorize_annotations (authorization q) (peer q) (verifier q) (no_auth q).

Definition list_handler (s : AnnotationStore) (q : Request) (sid : option (list Z)) : Response :=
  match authorized q with
  | Ok _ =>
      match parse_optional_sid sid with
      | Ok sid => RList (list_annotations s sid)
      | Err e => into_response e
      | Panic => into_response internal
      end
  | Err e => into_response e
  | Panic => into_response internal
  end.
Definition upsert_handler (s : AnnotationStore) (q : Request) (id_text : list Z) (t : AnnotationTarget) (txt : list Z)
    (by_ : option (list Z)) (now : Z) (io : persist_io) : AnnotationStore * Response :=
  match (do* authorized q in parse_annotation_id id_text) with
  | Ok i =>
      match upsert s i t txt by_ now io with
      | (s', Ok a) => (s', RAnnotation a)
      | (s', Err e) => (s', into_response e)
      | (s', Panic) => (s', into_response internal)
      end
  | Err e => (s, into_response e)
  | Panic => (s, into_response internal)
  end.
Definition delete_handler (s : AnnotationStore) (q : Request) (id_text : list Z) (io : persist_io) : AnnotationStore * Response :=
  match (do* authorized q in parse_annotation_id id_text) with
  | Ok i =>
      match remove s i io with
      | (s', Ok true) => (s', RNoContent)
      | (s', Ok false) => (s', into_response not_found)
      | (s', Err e) => (s', into_response e)
      | (s', Panic) => (s', into_response internal)
      end
  | Err e => (s, into_response e)
  | Panic => (s, into_response internal)
  end.
(** One event of the store's life: a request that changes it, or a restart of
    the server. *)
Inductive event :=
| Put (q : Request) (id_text : list Z) (t : AnnotationTarget) (txt : list Z) (by_ : option (list Z)) (now : Z) (io : persist_io)
| Del (q : Request) (id_text : list Z) (io : persist_io)
| Restart.

Definition handle (s : AnnotationStore) (e : event) : res AnnotationApiError (AnnotationStore * option Response) :=
  match e with
  | Put q i t txt by_ now io => let '(s', r) := upsert_handler s q i t txt by_ now io in Ok (s', Some r)
  | Del q i io => let '(s', r) := delete_handler s q i io in Ok (s', Some r)
  | Restart => let* s' := open (a_disk s) in Ok (s', None)
  end.
(** A run of events: the store at the end, unless a restart failed to read the
    file, and the responses that were given. *)
Fixpoint serve (s : AnnotationStore) (es : list event) : option AnnotationStore * list Response :=
  match es with
  | [] => (Some s, [])
  | e :: es' =>
      match handle s e with
      | Ok (s', r) => let '(s'', rs) := serve s' es' in (s'', match r with Some r => [r] | None => [] end ++ rs)
      | _ => (None, [])
      end
  end.

(** ** The specification: a map of notes, with nothing about files

    A note is acceptable when its text has at most 20000 characters and its
    target is a session id or a log type whose trimmed key has 1 to 120. *)
Definition note_ok (t : AnnotationTarget) (txt : list Z) : bool :=
  (zlen txt <=? 20000) &&
  match t_kind t, t_sid t, t_key t with
  | Session, Some _, _ => true
  | LogType, _, Some k => in_range 1 120 (zlen (trim k))
  | _, _, _ => false
  end.
Definition note (i : Z) (t : AnnotationTarget) (txt : list Z) (by_ : option (list Z)) (now : Z) : Annotation :=
  mkAnnotation i (mkTarget (t_kind t) (t_sid t) match t_kind t with Session => None | LogType => trim <$> t_key t end)
    txt now (by_ ≫= normalize_actor) false.

Definition admitted (q : Request) : bool := match authorized q with Ok _ => true | _ => false end.

Definition spec_step (m : gmap Z Annotation) (e : event) : gmap Z Annotation * list Response :=
  match e with
  | Restart => (m, [])
  | Put q id_text t txt by_ now _ =>
      if negb (admitted q) then (m, [RError auth_error true]) else
      match parse_uuid (trim id_text) with
      | Some i =>
          if note_ok t txt then (<[i := note i t txt by_ now]> m, [RAnnotation (note i t txt by_ now)])
          else (m, [RError bad_request false])
      | None => (m, [RError bad_request false])
      end
  | Del q id_text _ =>
      if negb (admitted q) then (m, [RError auth_error true]) else
      match parse_uuid (trim id_text) with
      | Some i => if bool_decide (is_Some (m !! i)) then (delete i m, [RNoContent]) else (m, [RError not_found false])
      | None => (m, [RError bad_request false])
      end
  end.
Fixpoint spec_run (m : gmap Z Annotation) (es : list event) : gmap Z Annotation * list Response :=
  match es with
  | [] => (m, [])
  | e :: es' => let '(m', rs) := spec_step m e in let '(m'', rs') := spec_run m' es' in (m'', rs ++ rs')
  end.

Definition store_failure (r : Response) : bool := match r with RError e _ => status e =? 500 | _ => false end.

  (** serde_json writes an object on one line and reads back what it wrote. *)
  Hypothesis json_object : forall a l, to_string a = Some l ->
    str_ok l /\ Forall (fun c => c <> 10 /\ c <> 13) l /\ exists body, l = [123] ++ body ++ [125].
  Hypothesis json_round : forall a l, to_string a = Some l -> from_str l = Some a.

Definition keyed (m : gmap Z Annotation) : Prop := map_Forall (fun k a => id a = k /\ deleted a = false) m.

Lemma values_perm m : values m ≡ₚ map snd (map_to_list m).
Proof. unfold values. by rewrite merge_sort_Permutation. Qed.
Lemma elem_of_values m a : a ∈ values m <-> exists k, m !! k = Some a.
Proof.
  rewrite values_perm, list_elem_of_fmap. split.
  - intros ([k b] & -> & H%elem_of_map_to_list). eauto.
  - intros [k H]. exists (k, a). split; [done|]. by apply elem_of_map_to_list.
Qed.
Lemma keyed_ids m : keyed m -> map (fun a => (id a, a)) (values m) ≡ₚ map_to_list m.
Proof.
  intros Hk. rewrite values_perm, map_map. apply Permutation_refl'. etransitivity; [|apply map_id].
  apply map_ext_in. intros [k a] Hin%list_elem_of_In. apply elem_of_map_to_list in Hin. cbn. by rewrite (proj1 (Hk _ _ Hin)).
Qed.

Lemma render_lines l : Forall (fun a => deleted a = false) l -> forall body, render l = Some body ->
  exists ls, Forall2 (fun a s => to_string a = Some s) l ls /\ body = concat (map (fun s => s ++ [10]) ls).
Proof.
  induction 1 as [|a l Ha _ IH]; intros body H; cbn in H; [simplify_eq; by exists []|].
  rewrite Ha in H. destruct (to_string a) as [s|] eqn:Hs; [|done]. destruct (render l) as [b|]; [|done].
  cbn in H. simplify_eq. destruct (IH b eq_refl) as (ls & HF & ->). exists (s :: ls).
  split; [by constructor|]. cbn [map concat]. by rewrite <- (assoc_L (++)).
Qed.
Lemma json_trim a l : to_string a = Some l -> trim l = l /\ l <> [].
Proof.
  intros (_ & _ & body & ->)%json_object. split; [|done]. apply trim_matches_id.
  - intros c k [= <- _]. reflexivity.
  - intros c. rewrite (assoc_L (++)), last_snoc. intros [= <-]. reflexivity.
Qed.
Lemma load_lines_fold l ls : Forall2 (fun a s => to_string a = Some s) l ls -> forall m,
  Forall (fun a => deleted a = false) l -> NoDup (map id l) -> Forall (fun a => m !! id a = None) l ->
  load_lines ls m = Ok (list_to_map (map (fun a => (id a, a)) l) ∪ m).
Proof.
  induction 1 as [|a s l ls Hs HF IH]; intros m Hd Hn Hm; cbn; [by rewrite map_empty_union|].
  destruct (json_trim a s Hs) as [Ht Hne]. rewrite Ht, bool_decide_false, (json_round a s Hs) by done. cbn.
  apply Forall_cons in Hd as [Hda Hd]. rewrite Hda. cbn in Hn. apply NoDup_cons in Hn as [Hna Hn].
  apply Forall_cons in Hm as [Hma Hm]. rewrite IH; [|done|done|].
  - f_equal. rewrite <- insert_union_l, insert_union_r; [done|].
    apply not_elem_of_list_to_map_1. by rewrite <- list_fmap_compose.
  - rewrite Forall_forall in *. intros b Hb. rewrite lookup_insert_ne; [by apply Hm|].
    intros E. apply Hna. rewrite E. by apply list_elem_of_fmap_2.
Qed.

Lemma persist_loads file m io file' : keyed m -> persist_locked file m io = (file', Ok tt) ->
  load_annotations file' = Ok m.
Proof.
  intros Hk H. unfold persist_locked in H. destruct (mkdir_ok io); [|done]. cbn [negb] in H.
  destruct (render (values m)) as [body|] eqn:Hr; [|done]. destruct (write_ok io); [|done]. cbn [negb] in H.
  destruct (_ && _); [done|]. destruct (rename_ok io); [|done]. simplify_eq.
  assert (Hd : Forall (fun a => deleted a = false) (values m)).
  { apply Forall_forall. intros a [k Ha]%elem_of_values. by apply (Hk k a). }
  apply render_lines in Hr as (ls & HF & ->); [|done]. cbn [load_annotations].
  assert (Hok : Forall (fun s => str_ok s /\ Forall (fun c => c <> 10 /\ c <> 13) s) ls).
  { clear -HF json_object. induction HF as [|a s l ls Hs _ IH]; constructor; [|done].
    destruct (json_object a s Hs) as (? & ? & _). done. }
  unfold from_utf8. rewrite lossy_utf8.
  2:{ clear -Hok. induction Hok as [|s ls [Hs _] _ IH]; cbn; [constructor|]. apply Forall_app. split; [|done].
      apply Forall_app. split; [done|]. by repeat constructor. }
  rewrite bool_decide_true by done. cbn [ok_or mbind res_bind]. rewrite buf_lines_concat.
  2:{ eapply Forall_impl; [exact Hok|]. by intros s [_ ?]. }
  pose proof (keyed_ids m Hk) as Hp.
  rewrite (load_lines_fold (values m) ls HF); [|done| |].
  - rewrite map_union_empty. f_equal.
    transitivity (list_to_map (M := gmap Z Annotation) (map_to_list m)); [|apply list_to_map_to_list].
    apply list_to_map_proper; [|done].
    rewrite Hp. apply NoDup_fst_map_to_list.
  - replace (map id (values m)) with (map fst (map (fun a => (id a, a)) (values m))) by apply map_map.
    rewrite Hp. apply NoDup_fst_map_to_list.
  - apply Forall_forall. intros a _. apply lookup_empty.
Qed.

Lemma normalize_spec t txt :
  (let* t' := normalize_target t in let* txt' := normalize_text txt in Ok (t', txt')) =
  if note_ok t txt
  then Ok (mkTarget (t_kind t) (t_sid t) match t_kind t with Session => None | LogType => trim <$> t_key t end, txt)
  else Err bad_request.
Proof.
  unfold normalize_target, normalize_text, note_ok, MAX_ANNOTATION_TEXT_LEN, MAX_LOG_TYPE_KEY_LEN.
  rewrite Z.leb_antisym. destruct t as [[] sid key]; cbn [t_kind t_sid t_key].
  - destruct sid; cbn; destruct (20000 <? zlen txt); done.
  - destruct key as [k|]; cbn [default from_option Datatypes.id].
    2:{ cbn. by destruct (20000 <? zlen txt). }
    unfold in_range. case_bool_decide as Hk.
    + rewrite Hk. cbn. by rewrite andb_false_r.
    + pose proof (zlen_nonneg (trim k)). assert (zlen (trim k) <> 0) by (by rewrite zlen_zero).
      replace (1 <=? zlen (trim k)) with true by lia. rewrite (Z.leb_antisym 120). cbn [negb andb].
      destruct (120 <? zlen (trim k)); cbn; destruct (20000 <? zlen txt); done.
Qed.

Definition synced_store (s : AnnotationStore) : Prop :=
  load_annotations (a_disk s) = Ok (annotations s) /\ keyed (annotations s).

Lemma persist_result file m io : snd (persist_locked file m io) = Ok tt \/ snd (persist_locked file m io) = Err internal.
Proof. unfold persist_locked. repeat (case_match; cbn; auto). Qed.

Lemma authorized_cases q : authorized q = Ok tt \/ authorized q = Err auth_error.
Proof.
  unfold authorized, authorize_annotations, authorize_http. case_if; [by left|].
  destruct (authorization q ≫= strip_prefix (lit "Bearer ")) as [tok|]; [|by right].
  unfold verify. induction (hashes (verifier q)) as [|h hs IH]; cbn; [by right|].
  destruct (phc_ok h); [|by right]. destruct (verify_password _ _); [by left|done].
Qed.
Lemma parse_id_cases v : parse_annotation_id v = match parse_uuid (trim v) with Some i => Ok i | None => Err bad_request end.
Proof. unfold parse_annotation_id. by destruct (parse_uuid (trim v)). Qed.

Lemma handle_refines s e s' r : synced_store s -> handle s e = Ok (s', r) ->
  match r with Some r => store_failure r = false | None => True end ->
  synced_store s' /\ spec_step (annotations s) e = (annotations s', match r with Some r => [r] | None => [] end).
Proof.
  intros [Hl Hk] H Hf. destruct e as [q it t txt by_ now io|q it io|]; cbn [handle] in H.
  - unfold upsert_handler in H. cbn [spec_step]. unfold admitted.
    destruct (authorized_cases q) as [Ha|Ha]; rewrite Ha in H |- *; cbn [mbind res_bind negb] in H |- *; [|by simplify_eq].
    rewrite parse_id_cases in H. destruct (parse_uuid (trim it)) as [i|]; [|by simplify_eq].
    unfold upsert in H. rewrite normalize_spec in H. destruct (note_ok t txt); [|by simplify_eq]. cbv zeta in H.
    fold (note i t txt by_ now) in H. set (m := <[i := _]> _) in *.
    assert (Hm : keyed m) by (by apply map_Forall_insert_2).
    destruct (persist_locked (a_disk s) m io) as [file r0] eqn:Hp.
    destruct (persist_result (a_disk s) m io) as [E|E]; rewrite Hp in E; cbn in E; subst r0; cbn in H; simplify_eq.
    split; [|done]. split; [by apply (persist_loads _ m _ _ Hm Hp)|done].
  - unfold delete_handler in H. cbn [spec_step]. unfold admitted.
    destruct (authorized_cases q) as [Ha|Ha]; rewrite Ha in H |- *; cbn [mbind res_bind negb] in H |- *; [|by simplify_eq].
    rewrite parse_id_cases in H. destruct (parse_uuid (trim it)) as [i|]; [|by simplify_eq].
    unfold remove in H. destruct (annotations s !! i) as [a|] eqn:Hi.
    + rewrite bool_decide_true by eauto. set (m := delete i _) in *.
      assert (Hm : keyed m) by (by apply map_Forall_delete).
      destruct (persist_locked (a_disk s) m io) as [file r0] eqn:Hp.
      destruct (persist_result (a_disk s) m io) as [E|E]; rewrite Hp in E; cbn in E; subst r0; cbn in H; simplify_eq.
      split; [|done]. split; [by apply (persist_loads _ m _ _ Hm Hp)|done].
    + rewrite bool_decide_false by (by intros [? ?]). by simplify_eq.
  - unfold open in H. rewrite Hl in H. cbn in H. simplify_eq. done.
Qed.

Lemma handle_total s e : synced_store s -> exists s' r, handle s e = Ok (s', r).
Proof.
  intros [Hl _]. destruct e as [q it t txt by_ now io|q it io|]; cbn [handle].
  - destruct (upsert_handler s q it t txt by_ now io). eauto.
  - destruct (delete_handler s q it io). eauto.
  - unfold open. rewrite Hl. cbn. eauto.
Qed.

(** C18: the annotation API implements a map of notes, across restarts: as long
    as no response reports a store failure, every restart succeeds, the
    responses and the notes are those of the specification, which knows no
    files, and the file holds exactly the notes at the end. *)
Theorem annotations_refine es : forall s, synced_store s ->
  forallb (fun r => negb (store_failure r)) (snd (serve s es)) = true ->
  exists s', serve s es = (Some s', snd (spec_run (annotations s) es)) /\
    annotations s' = fst (spec_run (annotations s) es) /\ load_annotations (a_disk s') = Ok (annotations s').
Proof.
  induction es as [|e es IH]; intros s Hs Hf; [exists s; by destruct Hs|].
  destruct (handle_total s e Hs) as (s1 & r & Hh). cbn [serve spec_run] in Hf |- *. rewrite Hh in Hf |- *.
  destruct (serve s1 es) as [o rs] eqn:Hsv. cbn [snd] in Hf. rewrite forallb_app in Hf. apply andb_prop in Hf as [Hr Hrs].
  destruct (handle_refines s e s1 r Hs Hh) as [Hs1 ->].
  { destruct r; [|done]. cbn in Hr. rewrite andb_true_r in Hr. by apply negb_true_iff. }
  destruct (IH s1 Hs1) as (s' & Hsv' & Hm & Hl); [by rewrite Hsv|].
  destruct (spec_run (annotations s1) es) as [m'' rs']. cbn in Hsv', Hm |- *. rewrite Hsv in Hsv'. simplify_eq.
  by exists s'.
Qed.

Lemma StronglySorted_filter {A} (R : relation A) (P : A -> Prop) `{!forall x, Decision (P x)} l :
  StronglySorted R l -> StronglySorted R (filter P l).
Proof.
  induction 1 as [|x l _ IH HF]; [constructor|]. rewrite filter_cons. case_decide; [|done].
  constructor; [done|]. rewrite Forall_forall in *. intros y [_ Hy]%list_elem_of_filter. by apply HF.
Qed.
Lemma values_sorted m : keyed m -> StronglySorted (fun a b => id a < id b) (values m).
Proof.
  intros Hk. unfold values. pose proof (StronglySorted_merge_sort key_le (map_to_list m)) as Hs.
  assert (Hn : NoDup (map fst (merge_sort key_le (map_to_list m)))).
  { rewrite merge_sort_Permutation. apply NoDup_fst_map_to_list. }
  assert (Hid : Forall (fun p => id (snd p) = fst p) (merge_sort key_le (map_to_list m))).
  { rewrite merge_sort_Permutation. apply Forall_forall. intros [k a] Ha%elem_of_map_to_list. by apply (Hk k a). }
  induction Hs as [|p l _ IH HF]; [constructor|]. cbn in Hn |- *. apply NoDup_cons in Hn as [Hni Hn].
  apply Forall_cons in Hid as [Hp Hid]. constructor; [by apply IH|]. apply Forall_forall.
  intros a (q & -> & Hq)%list_elem_of_fmap. rewrite Forall_forall in HF, Hid. rewrite Hp, (Hid q Hq).
  specialize (HF q Hq). unfold key_le in HF. cut (fst p <> fst q); [lia|]. intros E. apply Hni. rewrite E.
  by apply list_elem_of_fmap_2.
Qed.

(** What [list] returns: the live notes visible for the session, each once,
    in the order of their ids. *)
Lemma list_exact s sid : keyed (annotations s) ->
  StronglySorted Z.lt (map id (list_annotations s sid)) /\
  forall a, a ∈ list_annotations s sid <->
    annotations s !! id a = Some a /\
    (forall i, sid = Some i -> t_sid (target a) = Some i \/ t_kind (target a) = LogType /\ t_sid (target a) = None).
Proof.
  intros Hk. split.
  - apply (StronglySorted_fmap id (fun a b => id a < id b)); [done|]. by do 2 apply StronglySorted_filter; apply values_sorted.
  - intros a. unfold list_annotations. rewrite !list_elem_of_filter, elem_of_values. split.
    + intros (Hv & Hd & k & Ha). destruct (Hk k a Ha) as [-> _]. split; [done|]. intros i ->.
      unfold annotation_visible_for_sid in Hv. destruct (t_kind (target a)); [|apply orb_true_iff in Hv as [Hv|Hv]];
        apply bool_decide_eq_true in Hv; auto.
    + intros [Ha Hv]. destruct (Hk _ a Ha) as [_ Hd]. split; [|by eauto]. unfold annotation_visible_for_sid.
      destruct sid as [i|]; [|done]. destruct (Hv i eq_refl) as [E|[Ek E]].
      * rewrite E. destruct (t_kind (target a)); [|apply orb_true_iff; right]; by apply bool_decide_eq_true_2.
      * rewrite Ek, E. by rewrite bool_decide_eq_true_2.
Qed.

(** Finding: a change that fails to persist is reported as a failure and made all
    the same: the note is listed from then on and the next change that
    persists writes it to the file (Finding). *)
Theorem failed_upsert_kept s i t txt by_ now io s' e :
  synced_store s -> note_ok t txt = true -> upsert s i t txt by_ now io = (s', Err e) ->
  e = internal /\ note i t txt by_ now ∈ list_annotations s' None /\
  forall j t' txt' by' now' s'' a, j <> i -> upsert s' j t' txt' by' now' io_ok = (s'', Ok a) ->
    exists m, load_annotations (a_disk s'') = Ok m /\ m !! i = Some (note i t txt by_ now).
Proof.
  intros [_ Hk] Hok H. unfold upsert in H. rewrite normalize_spec, Hok in H. cbv zeta in H.
  fold (note i t txt by_ now) in H. set (m := <[i := _]> _) in *.
  assert (Hm : keyed m) by (by apply map_Forall_insert_2).
  destruct (persist_locked (a_disk s) m io) as [file r0] eqn:Hp.
  destruct (persist_result (a_disk s) m io) as [E|E]; rewrite Hp in E; cbn in E; subst r0; cbn in H; simplify_eq.
  split; [done|]. split.
  - apply (list_exact (mkStore file m) None Hm). split; [by apply lookup_insert_eq|done].
  - intros j t' txt' by' now' s'' a Hj H. unfold upsert in H. rewrite normalize_spec in H.
    destruct (note_ok t' txt'); [|done]. cbv zeta in H. cbn [annotations a_disk] in H.
    fold (note j t' txt' by' now') in H. set (m' := <[j := _]> m) in *.
    assert (Hm' : keyed m') by (by apply map_Forall_insert_2).
    destruct (persist_locked file m' io_ok) as [file' r0] eqn:Hp'.
    destruct (persist_result file m' io_ok) as [E|E]; rewrite Hp' in E; cbn in E; subst r0; cbn in H; simplify_eq.
    exists m'. split; [by apply (persist_loads _ m' _ _ Hm' Hp')|]. unfold m', m.
    rewrite lookup_insert_ne by done. apply lookup_insert_eq.
Qed.

(** The file is removed before the new one is moved to its place: when the
    rename fails, or the server stops between the two, no note is left on
    disk and a restart has none (Finding). *)
Lemma failed_rename_loses_all s i t txt by_ now s' r :
  a_disk s <> None -> note_ok t txt = true ->
  upsert s i t txt by_ now (mkIo true true true false) = (s', r) ->
  render (values (annotations s')) <> None ->
  load_annotations (a_disk s') = Ok ∅.
Proof.
  intros Hd Hok H Hr. unfold upsert in H. rewrite normalize_spec, Hok in H. cbv zeta in H.
  unfold persist_locked in H. cbn [mkdir_ok negb write_ok remove_ok rename_ok] in H.
  destruct (render _) as [body|] eqn:Hb in H; [|simplify_eq; by rewrite Hb in Hr].
  rewrite andb_false_r in H. by simplify_eq.
Qed.
End Store.

(** ** Witnesses *)
Definition toy_code (a : Annotation) :=
  (id a, (match t_kind (target a) with Session => true | LogType => false end, t_sid (target a), t_key (target a)), text a, updated_at a, updated_by a, deleted a).
Definition toy_string (a : Annotation) : option (list Z) := Some ([123] ++ code_text (toy_code a) ++ [125]).
Definition toy_parse (l : list Z) : option Annotation :=
  match text_code (A := Z * (bool * option Z * option (list Z)) * list Z * Z * option (list Z) * bool)
          (take (length l - 2) (drop 1 l)) with
  | Some (i, (k, s, y), x, u, b, d) => Some (mkAnnotation i (mkTarget (if k then Session else LogType) s y) x u b d)
  | None => None
  end.
Definition toy_uuid (s : list Z) : option Z := parse_unsigned 10 (2 ^ 128 - 1) s.
Definition toy_request : Request := mkRequest None (V6 1) (mkVerifier []) true.
Definition toy_events : list event :=
  [ Put toy_request (lit " 7 ") (mkTarget LogType None (Some (lit " b "))) [] None 5 io_ok;
    Restart;
    Put toy_request (lit "8") (mkTarget Session None None) (lit "x") None 6 io_ok;
    Put toy_request (lit "9") (mkTarget Session (Some 3) None) [] None 7 io_ok;
    Del toy_request (lit "7") io_ok; Restart ].

Lemma toy_object a l : toy_string a = Some l ->
  str_ok l /\ Forall (fun c => c <> 10 /\ c <> 13) l /\ exists body, l = [123] ++ body ++ [125].
Proof.
  intros [= <-]. pose proof (code_text_digits (toy_code a)) as Hd. unfold is_digit in Hd.
  split; [|split; [|by eexists]].
  - repeat (apply Forall_cons; split; [done|]). apply Forall_app. split; [|by repeat constructor].
    eapply Forall_impl; [exact Hd|]. cbn. intros c Hc%in_range_spec. apply ascii_scalar. lia.
  - repeat (apply Forall_cons; split; [done|]). apply Forall_app. split; [|by repeat constructor].
    eapply Forall_impl; [exact Hd|]. cbn. intros c Hc%in_range_spec. lia.
Qed.
Lemma toy_round a l : toy_string a = Some l -> toy_parse l = Some a.
Proof.
  intros H%(inj Some). subst l. unfold toy_parse. pose proof (text_code_text (toy_code a)) as E. revert E.
  generalize (code_text (toy_code a)). intros c E. rewrite !length_app. cbn [length].
  replace (1 + (length c + 1) - 2)%nat with (length c) by lia.
  change (drop 1 ([123] ++ c ++ [125])) with (c ++ [125]). rewrite take_app_length, E.
  unfold toy_code. by destruct a as [i [[] s y] x u b d].
Qed.

Lemma annotations_refine_witness :
  exists s', serve toy_string toy_parse toy_uuid toy_ok toy_verify (mkStore None ∅) toy_events =
      (Some s', snd (spec_run toy_uuid toy_ok toy_verify ∅ toy_events)) /\
    annotations s' = fst (spec_run toy_uuid toy_ok toy_verify ∅ toy_events) /\
    load_annotations toy_parse (a_disk s') = Ok (annotations s').
Proof.
  apply (annotations_refine toy_string toy_parse toy_uuid toy_ok toy_verify toy_object toy_round toy_events (mkStore None ∅)).
  - split; [reflexivity|apply map_Forall_empty].
  - vm_compute. reflexivity.
Defined.

Lemma failed_upsert_kept_witness :
  note 7 (mkTarget Session (Some 3) None) (lit "y") None 5 ∈
    list_annotations (mkStore None {[7 := note 7 (mkTarget Session (Some 3) None) (lit "y") None 5]}) None.
Proof.
  apply (failed_upsert_kept toy_string toy_parse toy_object toy_round (mkStore None ∅) 7
    (mkTarget Session (Some 3) None) (lit "y") None 5 (mkIo true false true true) _ internal).
  - split; [reflexivity|apply map_Forall_empty].
  - reflexivity.
  - vm_compute. reflexivity.
Defined.
