(* ===== verification/WsParse.v ===== *)
(** * Requests and replies of the WebSocket protocol

    The reading of MessagePack payloads and the replies of server/src/ws.rs:
    access to map fields, start options, classifier rules, channel
    specifications, and the [ctl] envelopes sent back.  The text of a UUID and
    the regex engine are parameters; a string is valid UTF-8. *)
From stdpp Require Import base numbers strings gmap list.
From S2P Require Import Prelude Text Spec Clock Decoder Detect Wire Sessions Runner Manager.

Local Open Scope Z_scope.
Local Open Scope tm_scope.

Abbreviation wres A := (res (list Z) A).

(** ** Fields of a payload *)
Definition value_get (v : MValue) (key : list Z) : option MValue :=
  match v with MMap m => Wire.map_get key m | _ => None end.
Definition v_as_str (v : MValue) : option (list Z) := match v with MStr s => Some s | _ => None end.
Definition v_as_u64 (v : MValue) : option Z := match v with MInt z => try_from 0 u64_max z | _ => None end.
Definition map_str (v : MValue) (key : list Z) : option (list Z) := value_get v key ≫= v_as_str.

Definition spec_msg (key : list Z) (what : string) : list Z := lit "spec." ++ key ++ lit what.
Definition start_msg (key : list Z) (what : string) : list Z := lit "start." ++ key ++ lit what.

Definition required_str (v : MValue) (key : list Z) : wres (list Z) :=
  ok_or (map_str v key) (spec_msg key " string is required").
Definition optional_bool (v : MValue) (key : list Z) (dflt : bool) : wres bool :=
  match value_get v key with
  | Some (MBool b) => Ok b
  | Some _ => Err (spec_msg key " bool is required")
  | None => Ok dflt
  end.
(** The first of the aliases that is present decides. *)
Definition first_present (v : MValue) (keys : list (list Z)) : option (list Z) :=
  List.find (fun k => bool_decide (is_Some (value_get v k))) keys.
Definition optional_bool_any (v : MValue) (keys : list (list Z)) (dflt : bool) : wres bool :=
  match first_present v keys with Some k => optional_bool v k dflt | None => Ok dflt end.
Definition non_empty (s : list Z) : option (list Z) := match s with [] => None | _ => Some s end.
Definition trimmed_str (v : option MValue) (err : list Z) : wres (option (list Z)) :=
  match v with
  | Some (MStr s) => Ok (non_empty (trim s))
  | Some _ => Err err
  | None => Ok None
  end.
Definition optional_str (v : MValue) (key : list Z) : wres (option (list Z)) :=
  trimmed_str (value_get v key) (spec_msg key " string is required").
Definition optional_str_any (v : MValue) (keys : list (list Z)) : wres (option (list Z)) :=
  match first_present v keys with Some k => optional_str v k | None => Ok None end.
Definition int_field (hi : Z) (v : MValue) (key : list Z) : wres Z :=
  let* n := ok_or (v_as_u64 v) (spec_msg key " integer is required") in
  ok_or (try_from 0 hi n) (spec_msg key " is out of range").
Definition optional_u32 (v : MValue) (key : list Z) (dflt : Z) : wres Z :=
  match value_get v key with Some x => int_field u32_max x key | None => Ok dflt end.
Definition optional_u32_any (v : MValue) (keys : list (list Z)) (dflt : Z) : wres Z :=
  match first_present v keys with Some k => optional_u32 v k dflt | None => Ok dflt end.
Definition optional_u32_option_any (v : MValue) (keys : list (list Z)) : wres (option Z) :=
  match first_present v keys with Some k => Some <$> optional_u32 v k 0 | None => Ok None end.
Definition required_u32 (v : MValue) (key : list Z) : wres Z :=
  let* x := ok_or (value_get v key) (spec_msg key " integer is required") in int_field u32_max x key.
Definition required_u8 (v : MValue) (key : list Z) : wres Z :=
  let* x := ok_or (value_get v key) (spec_msg key " integer is required") in int_field u8_max x key.

Fixpoint strings_of (items : list MValue) (err : list Z) : wres (list (list Z)) :=
  match items with
  | [] => Ok []
  | i :: items' => let* s := ok_or (v_as_str i) err in let* ss := strings_of items' err in Ok (s :: ss)
  end.
Definition required_string_array (v : MValue) (key : list Z) : wres (list (list Z)) :=
  match value_get v key with
  | Some (MArr items) => strings_of items (spec_msg key " items must be strings")
  | _ => Err (spec_msg key " string array is required")
  end.
Definition optional_payload_str (v : MValue) (key : list Z) : wres (option (list Z)) :=
  trimmed_str (value_get v key) (start_msg key " string is required").

(** ** Start options *)
Definition detection_mode_from_payload (v : MValue) : wres (option DetectionMode) :=
  let* raw := optional_payload_str v (lit "detection_mode") in
  match raw with
  | None => Ok None
  | Some r => Some <$> ok_or (mode_parse r) (lit "start.detection_mode must be configured, auto, suggest, or off")
  end.

Definition classifier_msg (key : list Z) (what : string) : list Z := lit "start.classifier[]." ++ key ++ lit what.
Definition classifier_rule_str (v : MValue) (key : list Z) : wres (list Z) :=
  ok_or (map_str v key) (classifier_msg key " string is required").
Definition classifier_rule_optional_str (v : MValue) (key : list Z) : wres (option (list Z)) :=
  trimmed_str (value_get v key) (classifier_msg key " string is required").
Definition blank (s : list Z) : bool := bool_decide (trim s = []).
Definition classifier_rule (contains regex : option (list Z)) (tag : list Z) (cs : bool) : wres (option ClassificationRule) :=
  if blank tag then Ok None
  else match contains, regex with
       | Some _, Some _ => Err (lit "start.classifier[] must specify only one of contains or regex")
       | Some c, None => Ok (if blank c then None else Some (contains_with_case c tag cs))
       | None, Some r => Ok (if blank r then None else Some (regex_with_case r tag cs))
       | None, None => Ok None
       end.

Section Classifier.
  Context (build_regex : list Z -> bool -> option (list Z -> Z)).

Fixpoint classifier_items (items : list MValue) : wres (list ClassificationRule) :=
  match items with
  | [] => Ok []
  | item :: items' =>
      let* tag := classifier_rule_str item (lit "tag") in
      let* cs := match value_get item (lit "case_sensitive") with
                 | Some (MBool b) => Ok b
                 | Some _ => Err (lit "start.classifier[].case_sensitive bool is required")
                 | None => Ok false
                 end in
      let* contains := classifier_rule_optional_str item (lit "contains") in
      let* regex := classifier_rule_optional_str item (lit "regex") in
      let* rule := classifier_rule contains regex tag cs in
      match rule with
      | None => classifier_items items'
      | Some r =>
          if is_valid build_regex r then let* rs := classifier_items items' in Ok (r :: rs)
          else Err (lit "start.classifier[].regex is not a valid regular expression")
      end
  end.
Definition classifier_from_payload (v : MValue) : wres (option LogClassifier) :=
  match value_get v (lit "classifier") with
  | None => Ok None
  | Some (MArr items) => Some <$> classifier_items items
  | Some _ => Err (lit "start.classifier array is required")
  end.

Definition start_options_from_payload (v : MValue) : wres SourceStartOptions :=
  let* encoding := optional_payload_str v (lit "encoding") in
  let* mode := detection_mode_from_payload v in
  let* pattern := optional_payload_str v (lit "session_name_pattern") in
  let* classifier := classifier_from_payload v in
  Ok (mkOptions classifier encoding mode pattern None).
End Classifier.

(** ** Channel specifications *)
Definition mode_or {A} (parse : list Z -> option A) (err : list Z) (raw : option (list Z)) (dflt : A) : wres A :=
  match raw with None => Ok dflt | Some r => ok_or (parse r) (err ++ r) end.

Definition pcap_from_value (v : MValue) : wres ChannelSpec :=
  let* save := optional_str_any v [lit "save_mode"; lit "save"] in
  let* sm := mode_or save_mode_from_str (lit "unsupported pcap save mode: ") save SaveSession in
  let* publish := optional_str_any v [lit "publish_mode"; lit "publish"] in
  let* pm := mode_or publish_mode_from_str (lit "unsupported pcap publish mode: ") publish StatsOnly in
  let* iface := required_str v (lit "interface") in
  let* display := optional_str_any v [lit "display_name"; lit "display"] in
  let* promiscuous := optional_bool_any v [lit "promiscuous"; lit "promisc"] false in
  let* snaplen := optional_u32 v (lit "snaplen") DEFAULT_SNAPLEN in
  let* buffer := optional_u32_option_any v [lit "buffer_bytes"; lit "buffer"] in
  let* timeout := optional_u32_any v [lit "timeout_ms"; lit "timeout"] DEFAULT_TIMEOUT_MS in
  let* immediate := optional_bool v (lit "immediate") false in
  let* filter := optional_str v (lit "filter") in
  let* path := optional_str_any v [lit "pcapng_path"; lit "pcapng"] in
  Ok (Pcap (mkPcap iface display promiscuous snaplen buffer timeout immediate filter sm path pm)).

Definition str1 (v : MValue) (key : string) (f : list Z -> ChannelSpec) : wres ChannelSpec :=
  f <$> required_str v (lit key).
Definition str2 (v : MValue) (k1 k2 : string) (f : list Z -> list Z -> ChannelSpec) : wres ChannelSpec :=
  let* a := required_str v (lit k1) in f a <$> required_str v (lit k2).

Definition channel_spec_from_value (v : MValue) : wres ChannelSpec :=
  let* kind := required_str v (lit "kind") in
  let kd k := str_eqb kind (lit k) in
  if kd "serial" then
    let* port := required_str v (lit "port") in
    let* baud := required_u32 v (lit "baud") in
    let* data_bits := required_u8 v (lit "data_bits") in
    let* parity := required_str v (lit "parity") in
    let* stop_bits := required_u8 v (lit "stop_bits") in
    let* flow := required_str v (lit "flow") in
    Ok (Serial port baud data_bits parity stop_bits flow)
  else if kd "tcp" then str1 v "addr" Tcp
  else if kd "udp" then str1 v "bind" Udp
  else if kd "pcap" then pcap_from_value v
  else if kd "file" then
    let* path := required_str v (lit "path") in File path <$> optional_bool v (lit "follow") false
  else if kd "pipe" then str1 v "path" Pipe
  else if kd "process" then Process <$> required_string_array v (lit "argv")
  else if kd "mock" then str1 v "tag" Mock
  else if kd "replay" then str1 v "path" Replay
  else if kd "syslog" then str1 v "bind" Syslog
  else if kd "mqtt" then str2 v "broker" "topic" Mqtt
  else if kd "http-webhook" then str2 v "bind" "path" HttpWebhook
  else if kd "telnet" then str1 v "addr" Telnet
  else if kd "ssh" then str2 v "addr" "user" Ssh
  else if kd "visa" then str1 v "resource" Visa
  else if kd "remote" then str1 v "url" Remote
  else if kd "journald" then Ok (Journald (map_str v (lit "unit")))
  else if kd "win-event-log" then str1 v "channel" WinEventLog
  else if kd "etw" then str1 v "provider" Etw
  else if kd "j-link-rtt" then JLinkRtt <$> required_u8 v (lit "channel")
  else if kd "can-bus" then str1 v "iface" CanBus
  else Err (lit "unsupported source kind: " ++ kind).

(** ** The map a client sends for a specification

    The field names of [ChannelSpec] (core/src/source/mod.rs, tag [kind],
    kebab-case kinds); fields without a value are left out. *)
Definition opt_field {A} (k : string) (f : A -> MValue) (o : option A) : list (MValue * MValue) :=
  match o with Some a => [mkey k (f a)] | None => [] end.
Definition spec_fields (s : ChannelSpec) : string * list (MValue * MValue) :=
  match s with
  | Serial port baud data_bits parity stop_bits flow =>
      ("serial"%string, [mkey "port" (MStr port); mkey "baud" (MInt baud); mkey "data_bits" (MInt data_bits);
                         mkey "parity" (MStr parity); mkey "stop_bits" (MInt stop_bits); mkey "flow" (MStr flow)])
  | Tcp a => ("tcp"%string, [mkey "addr" (MStr a)])
  | Udp b => ("udp"%string, [mkey "bind" (MStr b)])
  | Pcap c =>
      ("pcap"%string,
       [mkey "interface" (MStr (interface c))] ++ opt_field "display_name" MStr (display_name c) ++
       [mkey "promiscuous" (MBool (promiscuous c)); mkey "snaplen" (MInt (snaplen c))] ++
       opt_field "buffer_bytes" MInt (buffer_bytes c) ++
       [mkey "timeout_ms" (MInt (timeout_ms c)); mkey "immediate" (MBool (immediate c))] ++
       opt_field "filter" MStr (filter_expr c) ++ [mkey "save_mode" (MStr (save_mode_fmt (save_mode c)))] ++
       opt_field "pcapng_path" MStr (pcapng_path c) ++ [mkey "publish_mode" (MStr (publish_mode_fmt (publish_mode c)))])
  | File p f => ("file"%string, [mkey "path" (MStr p); mkey "follow" (MBool f)])
  | Pipe p => ("pipe"%string, [mkey "path" (MStr p)])
  | Process argv => ("process"%string, [mkey "argv" (MArr (map MStr argv))])
  | Mock t => ("mock"%string, [mkey "tag" (MStr t)])
  | Replay p => ("replay"%string, [mkey "path" (MStr p)])
  | Syslog b => ("syslog"%string, [mkey "bind" (MStr b)])
  | Mqtt b t => ("mqtt"%string, [mkey "broker" (MStr b); mkey "topic" (MStr t)])
  | HttpWebhook b p => ("http-webhook"%string, [mkey "bind" (MStr b); mkey "path" (MStr p)])
  | Telnet a => ("telnet"%string, [mkey "addr" (MStr a)])
  | Ssh a u => ("ssh"%string, [mkey "addr" (MStr a); mkey "user" (MStr u)])
  | Visa r => ("visa"%string, [mkey "resource" (MStr r)])
  | Remote u => ("remote"%string, [mkey "url" (MStr u)])
  | Journald u => ("journald"%string, opt_field "unit" MStr u)
  | WinEventLog c => ("win-event-log"%string, [mkey "channel" (MStr c)])
  | Etw p => ("etw"%string, [mkey "provider" (MStr p)])
  | JLinkRtt c => ("j-link-rtt"%string, [mkey "channel" (MInt c)])
  | CanBus i => ("can-bus"%string, [mkey "iface" (MStr i)])
  end.
Definition spec_value (s : ChannelSpec) : MValue :=
  MMap (mkey "kind" (MStr (lit (fst (spec_fields s)))) :: snd (spec_fields s)).

(** Integers at their width. *)
Definition spec_ranges (s : ChannelSpec) : Prop :=
  match s with
  | Serial _ baud data_bits _ stop_bits _ => 0 <= baud <= u32_max /\ 0 <= data_bits <= u8_max /\ 0 <= stop_bits <= u8_max
  | Pcap c => 0 <= snaplen c <= u32_max /\ 0 <= timeout_ms c <= u32_max /\
              match buffer_bytes c with Some b => 0 <= b <= u32_max | None => True end
  | JLinkRtt c => 0 <= c <= u8_max
  | _ => True
  end.
(** Optional strings are trimmed by the parser, and empty ones are dropped. *)
Definition opt_trimmed (o : option (list Z)) : Prop := match o with Some s => trim s = s /\ s <> [] | None => True end.
Definition spec_trimmed (s : ChannelSpec) : Prop :=
  match s with
  | Pcap c => opt_trimmed (display_name c) /\ opt_trimmed (filter_expr c) /\ opt_trimmed (pcapng_path c)
  | _ => True
  end.

(** Look-ups in a map whose keys are literals. *)
Lemma lit_inj a b : lit a = lit b <-> a = b.
Proof.
  split; [|by intros ->]. unfold lit. revert b. induction a as [|c a IH]; intros [|d b] H; try done.
  cbn in H. injection H as Hc H. apply IH in H as ->. apply N2Z.inj in Hc.
  by rewrite <- (Ascii.ascii_N_embedding c), Hc, Ascii.ascii_N_embedding.
Qed.
Lemma map_get_mkey k k' v m :
  Wire.map_get (lit k) (mkey k' v :: m) = if String.eqb k k' then Some v else Wire.map_get (lit k) m.
Proof.
  cbn. case_bool_decide as H; rewrite lit_inj in H.
  - by rewrite (proj2 (String.eqb_eq _ _) H).
  - by rewrite (proj2 (String.eqb_neq _ _) H).
Qed.
Lemma map_get_opt {A} k k' (f : A -> MValue) o m :
  Wire.map_get (lit k) (opt_field k' f o ++ m) =
  if String.eqb k k' then match o with Some a => Some (f a) | None => Wire.map_get (lit k) m end
  else Wire.map_get (lit k) m.
Proof. destruct o; cbn [opt_field app]; [apply map_get_mkey|]. by destruct (String.eqb k k'). Qed.
Lemma str_eqb_lit a b : str_eqb (lit a) (lit b) = String.eqb a b.
Proof.
  unfold str_eqb. case_bool_decide as H; rewrite lit_inj in H; symmetry; [by apply String.eqb_eq|by apply String.eqb_neq].
Qed.
#[export] Hint Rewrite map_get_mkey @map_get_opt str_eqb_lit : fields.
Ltac fields := cbn [app]; autorewrite with fields; cbn [String.eqb Ascii.eqb Bool.eqb Wire.map_get].

Lemma int_field_ok hi z key : 0 <= z <= hi -> hi <= u64_max -> int_field hi (MInt z) key = Ok z.
Proof.
  intros Hz Hh. unfold int_field, v_as_u64.
  rewrite (proj2 (try_from_Some 0 u64_max z z)) by lia. cbn. by rewrite (proj2 (try_from_Some 0 hi z z)).
Qed.
Lemma int_field_range hi v key z : int_field hi v key = Ok z -> 0 <= z <= hi.
Proof.
  unfold int_field. intros (n & _ & H)%bind_Ok. destruct (try_from 0 hi n) as [m|] eqn:E; cbn in H; simplify_eq.
  apply try_from_Some in E as [-> ?]. done.
Qed.
Lemma trimmed_ok s err : trim s = s -> s <> [] -> trimmed_str (Some (MStr s)) err = Ok (Some s).
Proof. intros Ht Hs. cbn. rewrite Ht. by destruct s. Qed.
Lemma strings_of_map l err : strings_of (map MStr l) err = Ok l.
Proof. induction l as [|s l IH]; [done|]. cbn. by rewrite IH. Qed.
Lemma save_mode_round m : save_mode_from_str (trim (save_mode_fmt m)) = Some m.
Proof. by destruct m; vm_compute. Qed.
Lemma publish_mode_round m : publish_mode_from_str (trim (publish_mode_fmt m)) = Some m.
Proof. by destruct m; vm_compute. Qed.


(** Reading one field under its first or second name. *)
Lemma first_present_1 v k ks x : value_get v k = Some x -> first_present v (k :: ks) = Some k.
Proof. intros H. unfold first_present. cbn. by rewrite H. Qed.
Lemma first_present_0 v k1 k2 : value_get v k1 = None -> value_get v k2 = None -> first_present v [k1; k2] = None.
Proof. intros H1 H2. unfold first_present. cbn. by rewrite H1, H2. Qed.
Lemma optional_str_field v k o : value_get v k = MStr <$> o -> opt_trimmed o -> optional_str v k = Ok o.
Proof.
  intros H Ht. unfold optional_str. rewrite H. destruct o as [s|]; [|done]. destruct Ht. by apply trimmed_ok.
Qed.
Lemma optional_str_any_field v k1 k2 o : value_get v k1 = MStr <$> o -> value_get v k2 = None -> opt_trimmed o ->
  optional_str_any v [k1; k2] = Ok o.
Proof.
  intros H1 H2 Ht. unfold optional_str_any. destruct o as [s|]; cbn in H1.
  - rewrite (first_present_1 _ _ _ _ H1). by apply optional_str_field.
  - by rewrite first_present_0.
Qed.
Lemma optional_bool_any_field v k ks b d : value_get v k = Some (MBool b) -> optional_bool_any v (k :: ks) d = Ok b.
Proof. intros H. unfold optional_bool_any, optional_bool. by rewrite (first_present_1 _ _ _ _ H), H. Qed.
Lemma optional_u32_field v k z d : value_get v k = Some (MInt z) -> 0 <= z <= u32_max -> optional_u32 v k d = Ok z.
Proof. intros H Hz. unfold optional_u32. rewrite H. by apply int_field_ok. Qed.
Lemma optional_u32_any_field v k ks z d : value_get v k = Some (MInt z) -> 0 <= z <= u32_max ->
  optional_u32_any v (k :: ks) d = Ok z.
Proof. intros H Hz. unfold optional_u32_any. rewrite (first_present_1 _ _ _ _ H). by apply optional_u32_field. Qed.
Lemma optional_u32_option_any_field v k1 k2 o : value_get v k1 = MInt <$> o -> value_get v k2 = None ->
  match o with Some z => 0 <= z <= u32_max | None => True end -> optional_u32_option_any v [k1; k2] = Ok o.
Proof.
  intros H1 H2 Ho. unfold optional_u32_option_any. destruct o as [z|]; cbn in H1.
  - rewrite (first_present_1 _ _ _ _ H1), (optional_u32_field _ _ z) by done. done.
  - by rewrite first_present_0.
Qed.
Lemma required_str_field v k s : value_get v k = Some (MStr s) -> required_str v k = Ok s.
Proof. intros H. unfold required_str, map_str. by rewrite H. Qed.
Lemma required_u8_field v k z : value_get v k = Some (MInt z) -> 0 <= z <= u8_max -> required_u8 v k = Ok z.
Proof. intros H Hz. unfold required_u8. rewrite H. by apply int_field_ok. Qed.

Ltac field_of := cbn [value_get spec_value spec_fields fst snd]; fields; cbn [interface display_name promiscuous snaplen
  buffer_bytes timeout_ms immediate filter_expr save_mode pcapng_path publish_mode];
  repeat match goal with |- context [match ?o with Some _ => _ | None => _ end] => destruct o end; reflexivity.

Lemma pcap_round c : spec_ranges (Pcap c) -> spec_trimmed (Pcap c) -> pcap_from_value (spec_value (Pcap c)) = Ok (Pcap c).
Proof.
  intros (Hsn & Htm & Hbb) (Hdn & Hfl & Hpp). unfold pcap_from_value.
  assert (Hm : forall m, opt_trimmed (Some (save_mode_fmt m))) by (intros []; by vm_compute).
  assert (Hp : forall m, opt_trimmed (Some (publish_mode_fmt m))) by (intros []; by vm_compute).
  rewrite (optional_str_any_field _ (lit "save_mode") (lit "save") (Some (save_mode_fmt (save_mode c))));
    [|field_of|field_of|apply Hm].
  rewrite (optional_str_any_field _ (lit "publish_mode") (lit "publish") (Some (publish_mode_fmt (publish_mode c))));
    [|field_of|field_of|apply Hp].
  rewrite (required_str_field _ (lit "interface") (interface c)) by field_of.
  rewrite (optional_str_any_field _ (lit "display_name") (lit "display") (display_name c)); [|field_of|field_of|done].
  rewrite (optional_bool_any_field _ (lit "promiscuous") _ (promiscuous c)) by field_of.
  rewrite (optional_u32_field _ (lit "snaplen") (snaplen c)); [|field_of|done].
  rewrite (optional_u32_option_any_field _ (lit "buffer_bytes") (lit "buffer") (buffer_bytes c)); [|field_of|field_of|done].
  rewrite (optional_u32_any_field _ (lit "timeout_ms") _ (timeout_ms c)); [|field_of|done].
  rewrite (optional_str_field _ (lit "filter") (filter_expr c)); [|field_of|done].
  rewrite (optional_str_any_field _ (lit "pcapng_path") (lit "pcapng") (pcapng_path c)); [|field_of|field_of|done].
  unfold optional_bool. replace (value_get (spec_value (Pcap c)) (lit "immediate")) with (Some (MBool (immediate c))) by
    (symmetry; field_of).
  destruct c as [iface dn pr sn bb tm im fl [] pp []]; reflexivity.
Qed.

Ltac kind_of := unfold channel_spec_from_value;
  match goal with |- context [spec_value ?s] =>
    rewrite (required_str_field (spec_value s) (lit "kind") (lit (fst (spec_fields s)))) by (cbn [value_get spec_value]; fields; reflexivity)
  end; cbn [mbind res_bind spec_fields fst]; autorewrite with fields;
  cbn [String.eqb Ascii.eqb Bool.eqb].
Ltac str_fields := unfold str1, str2; repeat (erewrite required_str_field by field_of); reflexivity.

Lemma spec_round s : spec_ranges s -> spec_trimmed s -> channel_spec_from_value (spec_value s) = Ok s.
Proof.
  intros Hr Ht. destruct s; kind_of; try str_fields.
  - destruct Hr as (Hb & Hd & Hs). unfold required_u32.
    rewrite (required_str_field _ (lit "port") port), (required_str_field _ (lit "parity") parity),
      (required_str_field _ (lit "flow") flow) by field_of. cbn [mbind res_bind].
    replace (value_get _ (lit "baud")) with (Some (MInt baud)) by (symmetry; field_of). cbn [ok_or mbind res_bind].
    rewrite int_field_ok by (done || lia). cbn [mbind res_bind].
    rewrite (required_u8_field _ (lit "data_bits") data_bits), (required_u8_field _ (lit "stop_bits") stop_bits);
      [|field_of|done|field_of|done]. reflexivity.
  - by apply pcap_round.
  - unfold required_string_array.
    replace (value_get _ (lit "argv")) with (Some (MArr (map MStr argv))) by (symmetry; field_of). by rewrite strings_of_map.
  - unfold map_str. destruct unit_filter; reflexivity.
  - rewrite (required_u8_field _ (lit "channel") channel); [reflexivity|field_of|done].
Qed.

Lemma required_u8_range v k z : required_u8 v k = Ok z -> 0 <= z <= u8_max.
Proof. unfold required_u8. intros (x & _ & H)%bind_Ok. by apply int_field_range in H. Qed.
Lemma required_u32_range v k z : required_u32 v k = Ok z -> 0 <= z <= u32_max.
Proof. unfold required_u32. intros (x & _ & H)%bind_Ok. by apply int_field_range in H. Qed.
Lemma optional_u32_range v k d z : 0 <= d <= u32_max -> optional_u32 v k d = Ok z -> 0 <= z <= u32_max.
Proof. unfold optional_u32. intros Hd. destruct (value_get v k); [apply int_field_range|]. by intros [= <-]. Qed.
Lemma fmap_Ok {E A B} (f : A -> B) (r : res E A) b : f <$> r = Ok b -> exists a, r = Ok a /\ b = f a.
Proof. destruct r; cbn; intros; simplify_eq. eauto. Qed.

Lemma pcap_ranges v s : pcap_from_value v = Ok s -> spec_ranges s.
Proof.
  unfold pcap_from_value. intros H. do 7 (apply bind_Ok in H as (? & ? & H)).
  apply bind_Ok in H as (sn & Hsn & H). apply bind_Ok in H as (bb & Hbb & H). apply bind_Ok in H as (tm & Htm & H).
  do 3 (apply bind_Ok in H as (? & ? & H)). simplify_eq. cbn.
  split; [by apply optional_u32_range in Hsn|]. split.
  - unfold optional_u32_any in Htm. destruct (first_present _ _); [by apply optional_u32_range in Htm|by simplify_eq].
  - unfold optional_u32_option_any in Hbb. destruct (first_present _ _); [|by simplify_eq].
    apply fmap_Ok in Hbb as (z & Hz & ->). by apply optional_u32_range in Hz.
Qed.
Lemma str1_ranges v k f s : (forall x, spec_ranges (f x)) -> str1 v k f = Ok s -> spec_ranges s.
Proof. intros Hf. unfold str1. intros (a & _ & ->)%fmap_Ok. apply Hf. Qed.
Lemma str2_ranges v k k' f s : (forall x y, spec_ranges (f x y)) -> str2 v k k' f = Ok s -> spec_ranges s.
Proof. intros Hf. unfold str2. intros (a & _ & H)%bind_Ok. apply fmap_Ok in H as (b & _ & ->). apply Hf. Qed.

Lemma spec_in_range v s : channel_spec_from_value v = Ok s -> spec_ranges s.
Proof.
  unfold channel_spec_from_value. intros (kind & _ & H)%bind_Ok. cbv zeta in H.
  destruct (str_eqb kind (lit "serial")).
  { apply bind_Ok in H as (? & _ & H). apply bind_Ok in H as (baud & Hb & H). apply bind_Ok in H as (d & Hd & H).
    apply bind_Ok in H as (? & _ & H). apply bind_Ok in H as (sb & Hs & H). apply bind_Ok in H as (? & _ & H). simplify_eq.
    apply required_u32_range in Hb. apply required_u8_range in Hd, Hs. done. }
  repeat match type of H with
         | (if ?b then _ else _) = _ => destruct b
         | str1 _ _ _ = Ok _ => by apply str1_ranges in H
         | str2 _ _ _ _ = Ok _ => by apply str2_ranges in H
         | pcap_from_value _ = Ok _ => by apply pcap_ranges in H
         end.
  all: try (apply fmap_Ok in H as (c & Hc & ->)); try (apply bind_Ok in H as (? & _ & H));
    try (apply fmap_Ok in H as (? & _ & ->)); simplify_eq; try done.
  by apply required_u8_range in Hc.
Qed.

(** A source started over the wire is the one the client described: every
    specification whose integers fit their width and whose optional texts are
    trimmed survives the encoding as a map, and whatever map is accepted,
    the integers of the result fit. *)
Theorem channel_spec_wire :
  (forall s, spec_ranges s -> spec_trimmed s -> channel_spec_from_value (spec_value s) = Ok s) /\
  (forall v s, channel_spec_from_value v = Ok s -> spec_ranges s).
Proof. split; [exact spec_round|exact spec_in_range]. Qed.
Lemma channel_spec_wire_witness :
  channel_spec_from_value (spec_value (Serial (lit "COM3") 115200 8 (lit "none") 1 (lit "none"))) =
    Ok (Serial (lit "COM3") 115200 8 (lit "none") 1 (lit "none")) /\ spec_ranges (JLinkRtt 255).
Proof.
  split.
  - apply (proj1 channel_spec_wire); [|exact I]. cbn. unfold u32_max, u8_max. lia.
  - apply (proj2 channel_spec_wire (spec_value (JLinkRtt 255))). vm_compute. reflexivity.
Defined.

(** A field present with the value nil is not an absent one: the map serde
    writes for a capture without display name is refused (Finding). *)
Lemma nil_field_refused m : value_get (MMap m) (lit "display_name") = Some MNil ->
  value_get (MMap m) (lit "kind") = Some (MStr (lit "pcap")) -> forall s, channel_spec_from_value (MMap m) <> Ok s.
Proof.
  intros Hd Hk s H. unfold channel_spec_from_value in H. rewrite (required_str_field _ _ _ Hk) in H.
  cbn [mbind res_bind] in H. rewrite !str_eqb_lit in H. cbn [String.eqb Ascii.eqb Bool.eqb] in H.
  unfold pcap_from_value in H. do 5 (apply bind_Ok in H as (? & ? & H)). apply bind_Ok in H as (dn & Hdn & _).
  unfold optional_str_any in Hdn. rewrite (first_present_1 _ _ _ _ Hd) in Hdn. unfold optional_str in Hdn.
  by rewrite Hd in Hdn.
Qed.

(** ** The parsers do not panic *)
Definition no_panic {A} (r : wres A) : Prop := r <> Panic.
Lemma np_bind {A B} (k : A -> wres B) r : no_panic r -> (forall a, no_panic (k a)) -> no_panic (let* x := r in k x).
Proof. intros Hr Hk. destruct r; [apply Hk|done|done]. Qed.
Lemma np_fmap {A B} (f : A -> B) (r : wres A) : no_panic r -> no_panic (f <$> r).
Proof. by destruct r. Qed.
Lemma np_ok_or {A} (o : option A) e : no_panic (ok_or o e).
Proof. by destruct o. Qed.
Lemma np_int hi v k : no_panic (int_field hi v k).
Proof. apply np_bind; intros; apply np_ok_or. Qed.
Lemma np_opt_u32 v k d : no_panic (optional_u32 v k d).
Proof. unfold optional_u32. destruct (value_get v k); [apply np_int|done]. Qed.
Lemma np_trimmed v e : no_panic (trimmed_str v e).
Proof. by destruct v as [[]|]. Qed.
Lemma np_opt_bool v k d : no_panic (optional_bool v k d).
Proof. unfold optional_bool. by repeat case_match. Qed.
Lemma np_strings items e : no_panic (strings_of items e).
Proof.
  induction items as [|i items IH]; [done|]. cbn [strings_of]. apply np_bind; [apply np_ok_or|]. intros a.
  by apply np_bind.
Qed.
Create HintDb np.
#[export] Hint Resolve np_int np_opt_u32 np_trimmed np_opt_bool np_strings np_ok_or np_fmap : np.
Ltac np := repeat first [apply np_bind; [|intros ?] | apply np_fmap | solve [eauto with np] | done
  | match goal with |- no_panic (match ?x with _ => _ end) => destruct x end].

Lemma parsers_total build_regex v :
  no_panic (channel_spec_from_value v) /\ no_panic (start_options_from_payload build_regex v).
Proof.
  split.
  - unfold channel_spec_from_value, str1, str2, pcap_from_value, required_str, required_u32, required_u8,
      required_string_array, optional_str_any, optional_bool_any, optional_u32_any, optional_u32_option_any, optional_str, mode_or.
    np.
  - unfold start_options_from_payload, detection_mode_from_payload, classifier_from_payload, optional_payload_str.
    np. generalize l. intros items. induction items as [|i items IH]; [done|]. cbn [classifier_items].
    unfold classifier_rule_str, classifier_rule_optional_str, classifier_rule. np.
Qed.
