(* ===== verification/Ws.v ===== *)
(** * The WebSocket connection: server/src/ws.rs

    The replies, the handlers of [ctl], [write], [sub] and [unsub] requests
    and the loop of one connection.  The handlers are verified against
    [SourceApi], what they need of the source manager, with the laws that make
    a reply true; [WsManager] discharges it with [Manager].  The text of
    UUIDs, MessagePack and the regex engine are parameters. *)
From stdpp Require Import base numbers strings gmap list.
From S2P Require Import Prelude Text Spec Naming Clock Decoder Detect Wire Sessions Runner Manager Auth WsParse.

Local Open Scope Z_scope.
Local Open Scope tm_scope.

(** An [anyhow::Error]: the messages of its chain, outermost first, and the id
    of the first [TraceMuxError] in it. *)
Record AnyError := mkAny { causes : list (list Z); core_id : option ErrorId }.
Definition any_display (e : AnyError) : list Z := default [] (head (causes e)).

(** ** What a connection needs of the source manager *)
Class SourceApi (M : Type) := {
  api_list : M -> list SourceSnapshot;
  api_registered : M -> Z -> bool;
  api_start : M -> ChannelSpec -> SourceStartOptions -> M * (AnyError + Z);
  api_stop : M -> Z -> M * bool;
  api_resume : M -> Z -> M * (AnyError + Z);
  api_restart : M -> Z -> SourceStartOptions -> M * (AnyError + Z);
  api_remove : M -> Z -> M * bool;
  api_write : M -> Z -> Z -> list Z -> option (list Z) -> M * (AnyError + Z);
  api_running : M -> Z -> bool;
  (** A started source is registered and known as running. *)
  api_start_ok : forall m spec o m' sid, api_start m spec o = (m', inr sid) ->
    api_registered m' sid = true /\ api_running m' sid = true;
  api_resume_ok : forall m i m' sid, api_resume m i = (m', inr sid) ->
    api_registered m' sid = true /\ api_running m' sid = true;
  api_restart_ok : forall m i o m' sid, api_restart m i o = (m', inr sid) ->
    api_registered m' sid = true /\ api_running m' sid = true;
  api_stop_ok : forall m i m' b, api_stop m i = (m', b) -> api_running m' i = false;
  api_remove_ok : forall m i m' b, api_remove m i = (m', b) -> api_running m' i = false /\ api_registered m' i = false;
  (** A write reports the length of the whole body. *)
  api_write_ok : forall m i ch body t m' n, api_write m i ch body t = (m', inr n) -> n = zlen body }.

Section Replies.
  Context (uuid_str : Z -> list Z) (parse_uuid : list Z -> option Z).

(** ** Replies *)
Definition sid_field (sid : option Z) : list (MValue * MValue) :=
  match sid with Some s => [mkey "sid" (MStr (uuid_str s))] | None => [] end.
Definition with_opt_sid (e : Envelope) (sid : option Z) : Envelope :=
  match sid with Some s => with_sid e (uuid_str s) | None => e end.

Definition ctl_event (seq : Z) (event message : list Z) (sid : option Z) : Envelope :=
  with_opt_sid
    (envelope_new Ctl seq (MMap ([mkey "event" (MStr event); mkey "message" (MStr message)] ++ sid_field sid))) sid.
Definition ctl_error_inner (seq : Z) (message : list Z) (e : ErrorId) (sid : option Z) : Envelope :=
  with_opt_sid
    (envelope_new Ctl seq (MMap ([mkey "event" (MStr (lit "error")); mkey "message" (MStr message);
                                  mkey "error_id" (MStr (code e))] ++ sid_field sid))) sid.
Definition ctl_error (seq : Z) (message : list Z) : Envelope := ctl_error_inner seq message E2001WireMalformed None.
Definition ctl_error_with_id (seq : Z) (message : list Z) (e : ErrorId) : Envelope := ctl_error_inner seq message e None.
Definition ctl_error_with_sid (seq : Z) (message : list Z) (e : ErrorId) (sid : Z) : Envelope :=
  ctl_error_inner seq message e (Some sid).
(** [usize] and [u64] have the same width. *)
Definition write_ack (seq sid ch bytes_written : Z) : Envelope :=
  with_ch (with_sid (envelope_new Ctl seq
    (MMap [mkey "event" (MStr (lit "write_ack")); mkey "message" (MStr (lit "write completed"));
           mkey "sid" (MStr (uuid_str sid)); mkey "ch" (MInt ch); mkey "bytes_written" (MInt bytes_written)]))
    (uuid_str sid)) ch.

(** ** Errors *)
Definition anyhow_error_id (e : AnyError) : ErrorId := default E1001PipelineGeneric (core_id e).
Definition lifecycle_error_id (e : AnyError) : ErrorId :=
  match core_id e with
  | Some i => i
  | None =>
      if existsb (fun w => contains_str (lit w) (any_display e)) ["unknown"; "already active"; "not restartable"; "not resumable"]%string
      then E2001WireMalformed else E1101SourceOpen
  end.
Definition lifecycle_error_message (prefix : list Z) (e : AnyError) : list Z :=
  prefix ++ lit ": " ++ join (lit ": ") (causes e).

(** ** Request fields *)
Definition sum_or {E A} (o : option A) (e : E) : E + A := match o with Some a => inr a | None => inl e end.
Definition parse_env_sid (env : Envelope) : Envelope + Z :=
  match env_sid env with
  | None => inl (ctl_error (env_seq env) (lit "ctl action missing sid"))
  | Some s => sum_or (parse_uuid s) (ctl_error (env_seq env) (lit "ctl sid is not a UUID"))
  end.
Definition parse_write_sid (env : Envelope) : Envelope + Z :=
  match env_sid env with
  | None => inl (ctl_error (env_seq env) (lit "write missing sid"))
  | Some s => sum_or (parse_uuid s) (ctl_error (env_seq env) (lit "write sid is not a UUID"))
  end.

(** ** The source table *)
Definition source_status_token (s : SourceStatus) : list Z :=
  lit match s with Running => "running" | Stopped => "stopped" | Unknown => "unknown" end.
Definition match_kind_token (k : MatchKind) : list Z := lit match k with Contains => "contains" | Regex => "regex" end.
Definition detection_report_value (r : DetectionReport) : MValue :=
  MMap [
    mkey "mode" (MStr (mode_as_str (rp_mode r))); mkey "sample_bytes" (MInt (sample_bytes r));
    mkey "configured_encoding" (MStr (rp_configured r)); mkey "effective_encoding" (MStr (effective r));
    mkey "sampled_encoding" (MStr (sampled r));
    mkey "encoding_candidates" (MArr (map (fun c =>
      MMap [mkey "label" (MStr (e_label c)); mkey "confidence" (MInt (confidence c));
            mkey "had_errors" (MBool (e_had_errors c)); mkey "evidence" (MArr (map MStr (evidence c)))]) (enc_candidates r)));
    mkey "log_type_candidates" (MArr (map (fun c =>
      MMap [mkey "tag" (MStr (lt_tag c)); mkey "kind" (MStr (match_kind_token (lt_kind c)));
            mkey "pattern" (MStr (lt_pattern c)); mkey "count" (MInt (lt_count c));
            mkey "confidence" (MInt (lt_confidence c))]) (log_candidates r)))].
Definition source_row (s : SourceSnapshot) : MValue :=
  MMap ([mkey "sid" (MStr (uuid_str (sn_sid s))); mkey "name" (MStr (sn_name s)); mkey "kind" (MStr (sn_kind s));
         mkey "status" (MStr (source_status_token (sn_status s))); mkey "channels" (MArr (map MInt (sn_channels s)));
         mkey "bytes_in" (MInt (sn_bytes_in s)); mkey "persistent" (MBool (bool_decide (is_Some (sn_dir s))))]
        ++ opt_field "session_dir" MStr (sn_dir s)
        ++ opt_field "decoder" MStr (p_decoder (sn_pipeline s))
        ++ opt_field "encoding" MStr (p_encoding (sn_pipeline s))
        ++ opt_field "detection_mode" (fun m => MStr (mode_as_str m)) (p_mode (sn_pipeline s))
        ++ opt_field "detection" detection_report_value (p_detection (sn_pipeline s))).
Definition sources_payload (l : list SourceSnapshot) : MValue :=
  MMap [mkey "event" (MStr (lit "sources")); mkey "message" (MStr (lit "sources listed"));
        mkey "sources" (MArr (map source_row l))].

(** The parsers do not panic ([parsers_total] below), so this is their result. *)
Definition to_sum {A} (r : wres A) : list Z + A := match r with Ok a => inr a | Err e => inl e | Panic => inl [] end.

(** ** Handlers *)
Section Handlers.
  Context {M : Type} `{!SourceApi M} (build_regex : list Z -> bool -> option (list Z -> Z)).

Definition list_sources_ctl (m : M) (env : Envelope) : M * Envelope :=
  (m, envelope_new Ctl (env_seq env) (sources_payload (api_list m))).
Definition start_source_ctl (m : M) (env : Envelope) : M * Envelope :=
  let parsed :=
    let* v := ok_or (value_get (env_payload env) (lit "spec")) (lit "start requires payload.spec") in
    let* spec := channel_spec_from_value v in
    let* o := start_options_from_payload build_regex (env_payload env) in Ok (spec, o) in
  match to_sum parsed with
  | inr (spec, o) =>
      match api_start m spec o with
      | (m', inr sid) => (m', ctl_event (env_seq env) (lit "started") (lit "source started") (Some sid))
      | (m', inl e) => (m', ctl_error_with_id (env_seq env) (lifecycle_error_message (lit "source start failed") e) (lifecycle_error_id e))
      end
  | inl message => (m, ctl_error (env_seq env) message)
  end.
Definition stop_source_ctl (m : M) (env : Envelope) : M * Envelope :=
  match parse_env_sid env with
  | inr sid =>
      let '(m', stopped) := api_stop m sid in
      (m', if stopped then ctl_event (env_seq env) (lit "stopped") (lit "source stopped") (Some sid)
           else ctl_error_with_sid (env_seq env) (lit "source sid is not active") E2001WireMalformed sid)
  | inl reply => (m, reply)
  end.
Definition resume_source_ctl (m : M) (env : Envelope) : M * Envelope :=
  match parse_env_sid env with
  | inr sid =>
      match api_resume m sid with
      | (m', inr sid) => (m', ctl_event (env_seq env) (lit "resumed") (lit "source resumed") (Some sid))
      | (m', inl e) => (m', ctl_error_with_sid (env_seq env) (lit "source resume failed: " ++ any_display e) (lifecycle_error_id e) sid)
      end
  | inl reply => (m, reply)
  end.
Definition restart_source_ctl (m : M) (env : Envelope) : M * Envelope :=
  match parse_env_sid env with
  | inr sid =>
      match to_sum (start_options_from_payload build_regex (env_payload env)) with
      | inr o =>
          match api_restart m sid o with
          | (m', inr sid) => (m', ctl_event (env_seq env) (lit "restarted") (lit "source restarted") (Some sid))
          | (m', inl e) => (m', ctl_error_with_sid (env_seq env) (lifecycle_error_message (lit "source restart failed") e) (lifecycle_error_id e) sid)
          end
      | inl message => (m, ctl_error (env_seq env) message)
      end
  | inl reply => (m, reply)
  end.
Definition remove_source_ctl (m : M) (env : Envelope) : M * Envelope :=
  match parse_env_sid env with
  | inr sid =>
      let '(m', removed) := api_remove m sid in
      (m', if removed then ctl_event (env_seq env) (lit "removed") (lit "source removed") (Some sid)
           else ctl_error_with_sid (env_seq env) (lit "source sid is unknown") E2001WireMalformed sid)
  | inl reply => (m, reply)
  end.

Definition handle_ctl (m : M) (env : Envelope) : M * Envelope :=
  match map_str (env_payload env) (lit "action") with
  | None => (m, ctl_error (env_seq env) (lit "ctl action is required"))
  | Some action =>
      let act a := str_eqb action (lit a) in
      if act "list" then list_sources_ctl m env
      else if act "start" then start_source_ctl m env
      else if act "stop" then stop_source_ctl m env
      else if act "resume" then resume_source_ctl m env
      else if act "restart" then restart_source_ctl m env
      else if act "remove" then remove_source_ctl m env
      else (m, ctl_error (env_seq env) (lit "unsupported ctl action: " ++ action))
  end.

(** The audit event of a write; the time stamp and the peer's address are
    given. *)
Definition audit_write (ts peer target : list Z) (result : AuditResult) (detail : Value) : AuditEvent :=
  mkAudit ts peer AuWriteBack target result detail.
Definition seq_detail (seq : Z) (k : string) (v : Value) : Value := VObject [(lit "seq", VNumber (show_nat seq)); (lit k, v)].

Definition handle_write (m : M) (env : Envelope) (ts peer : list Z) : M * Envelope * AuditEvent :=
  let seq := env_seq env in
  match parse_write_sid env with
  | inl reply =>
      (m, reply, audit_write ts peer (default (lit "<missing>") (env_sid env)) AuDenied (seq_detail seq "reason" (VString (lit "invalid sid"))))
  | inr sid =>
      let ch := default 0 (env_ch env) in
      let target := uuid_str sid ++ lit "/ch" ++ show_nat ch in
      match value_get (env_payload env) (lit "body") with
      | Some (MBin body) =>
          match api_write m sid ch body (map_str (env_payload env) (lit "target")) with
          | (m', inr n) =>
              (m', write_ack seq sid ch n, audit_write ts peer target AuOk (seq_detail seq "bytes_written" (VNumber (show_nat n))))
          | (m', inl e) =>
              (m', ctl_error_with_sid seq (lit "write failed: " ++ any_display e) (anyhow_error_id e) sid,
               audit_write ts peer target AuError (seq_detail seq "error" (VString (any_display e))))
          end
      | _ =>
          (m, ctl_error seq (lit "write payload.body bin is required"),
           audit_write ts peer target AuDenied (seq_detail seq "reason" (VString (lit "missing body"))))
      end
  end.

Definition handle_envelope (env : Envelope) : option Envelope :=
  match env_kind env with Ping => Some (envelope_new Pong (env_seq env) MNil) | _ => None end.

(** ** What the replies say *)
Definition event_of (r : Envelope) : option (list Z) := payload_get r "event" ≫= v_as_str.
Definition error_id_of (r : Envelope) : option (list Z) := payload_get r "error_id" ≫= v_as_str.

(** A reply tells the truth about the sources after the request. *)
Definition truthful (m : M) (r : Envelope) : Prop :=
  (forall ev, event_of r = Some ev -> ev = lit "started" \/ ev = lit "resumed" \/ ev = lit "restarted" ->
     exists sid, env_sid r = Some (uuid_str sid) /\ api_registered m sid = true /\ api_running m sid = true) /\
  (event_of r = Some (lit "stopped") -> exists sid, env_sid r = Some (uuid_str sid) /\ api_running m sid = false) /\
  (event_of r = Some (lit "removed") ->
     exists sid, env_sid r = Some (uuid_str sid) /\ api_running m sid = false /\ api_registered m sid = false) /\
  (event_of r = Some (lit "sources") -> payload_get r "sources" = Some (MArr (map source_row (api_list m)))).

Lemma event_of_event seq ev msg sid : event_of (ctl_event seq ev msg sid) = Some ev.
Proof. by destruct sid. Qed.
Lemma event_of_error seq msg e sid : event_of (ctl_error_inner seq msg e sid) = Some (lit "error").
Proof. by destruct sid. Qed.
Lemma error_id_of_error seq msg e sid : error_id_of (ctl_error_inner seq msg e sid) = Some (code e).
Proof. by destruct sid. Qed.
Lemma seq_event seq ev msg sid : env_seq (ctl_event seq ev msg sid) = seq /\ env_kind (ctl_event seq ev msg sid) = Ctl.
Proof. by destruct sid. Qed.
Lemma seq_error seq msg e sid : env_seq (ctl_error_inner seq msg e sid) = seq /\ env_kind (ctl_error_inner seq msg e sid) = Ctl.
Proof. by destruct sid. Qed.
Lemma event_sid seq ev msg s : env_sid (ctl_event seq ev msg (Some s)) = Some (uuid_str s).
Proof. done. Qed.

(** Events are told apart by their literals. *)
Ltac lits :=
  repeat match goal with
         | H : Some _ = Some _ |- _ => apply (inj Some) in H
         | H : lit _ = lit _ |- _ => apply lit_inj in H; try discriminate H; clear H
         end.

(** The claims about other events than the reply's own hold vacuously. *)
Ltac split_events :=
  unfold truthful; rewrite ?event_of_event, ?event_of_error;
  split; [try (intros ? ? [?|[?|?]]; subst; lits; fail)
         |split; [try (intros ?; lits; fail)|split; try (intros ?; lits; fail)]].

Lemma error_truthful m seq msg e sid : truthful m (ctl_error_inner seq msg e sid).
Proof. split_events. Qed.

(** A reply to request [env], after which the sources are [m]. *)
Definition ctl_answer (m : M) (env r : Envelope) : Prop := env_seq r = env_seq env /\ env_kind r = Ctl /\ truthful m r.

Lemma error_answer m env msg e sid : ctl_answer m env (ctl_error_inner (env_seq env) msg e sid).
Proof. split; [apply seq_error|]. split; [apply seq_error|]. apply error_truthful. Qed.
Lemma started_answer m env ev msg sid : ev = "started"%string \/ ev = "resumed"%string \/ ev = "restarted"%string ->
  api_registered m sid = true -> api_running m sid = true ->
  ctl_answer m env (ctl_event (env_seq env) (lit ev) msg (Some sid)).
Proof.
  intros Hev H1 H2. split; [apply seq_event|]. split; [apply seq_event|].
  destruct Hev as [->|[->| ->]]; split_events; eauto.
Qed.

Lemma parse_env_sid_err m env r : parse_env_sid env = inl r -> ctl_answer m env r.
Proof.
  unfold parse_env_sid, sum_or. destruct (env_sid env) as [s|]; [destruct (parse_uuid s); [done|]|];
    intros H%(inj inl); subst r; apply error_answer.
Qed.

Lemma handle_ctl_answers m env m' r : handle_ctl m env = (m', r) -> ctl_answer m' env r.
Proof.
  unfold handle_ctl. destruct (map_str _ _) as [action|]; [|intros; simplify_eq; apply error_answer]. cbv zeta.
  destruct (str_eqb action (lit "list")).
  { intros [= <- <-]. split; [done|]. split; [done|]. unfold truthful.
    change (event_of _) with (Some (lit "sources")). by split_events. }
  destruct (str_eqb action (lit "start")).
  { unfold start_source_ctl. destruct (to_sum _) as [msg|[spec o]]; [intros; simplify_eq; apply error_answer|].
    destruct (api_start m spec o) as [m1 [e|sid]] eqn:Hs; intros; simplify_eq; [apply error_answer|].
    apply api_start_ok in Hs as [? ?]. apply started_answer; auto. }
  destruct (str_eqb action (lit "stop")).
  { unfold stop_source_ctl. destruct (parse_env_sid env) as [rr|sid] eqn:Hp; [intros; simplify_eq; by apply parse_env_sid_err|].
    destruct (api_stop m sid) as [m1 b] eqn:Hs. intros; simplify_eq. apply api_stop_ok in Hs.
    destruct b; [|apply error_answer]. split; [done|]. split; [done|]. split_events. eauto. }
  destruct (str_eqb action (lit "resume")).
  { unfold resume_source_ctl. destruct (parse_env_sid env) as [rr|sid] eqn:Hp; [intros; simplify_eq; by apply parse_env_sid_err|].
    destruct (api_resume m sid) as [m1 [e|sid']] eqn:Hs; intros; simplify_eq; [apply error_answer|].
    apply api_resume_ok in Hs as [? ?]. apply started_answer; auto. }
  destruct (str_eqb action (lit "restart")).
  { unfold restart_source_ctl. destruct (parse_env_sid env) as [rr|sid] eqn:Hp; [intros; simplify_eq; by apply parse_env_sid_err|].
    destruct (to_sum _) as [msg|o]; [intros; simplify_eq; apply error_answer|].
    destruct (api_restart m sid o) as [m1 [e|sid']] eqn:Hs; intros; simplify_eq; [apply error_answer|].
    apply api_restart_ok in Hs as [? ?]. apply started_answer; auto. }
  destruct (str_eqb action (lit "remove")).
  { unfold remove_source_ctl. destruct (parse_env_sid env) as [rr|sid] eqn:Hp; [intros; simplify_eq; by apply parse_env_sid_err|].
    destruct (api_remove m sid) as [m1 b] eqn:Hs. intros; simplify_eq. apply api_remove_ok in Hs as [? ?].
    destruct b; [|apply error_answer]. split; [done|]. split; [done|]. split_events. eauto. }
  intros; simplify_eq. apply error_answer.
Qed.

(** The reply and the audit event of a write agree, and an acknowledgement is
    for the whole body that was sent. *)
Definition write_answer (env r : Envelope) (a : AuditEvent) : Prop :=
  env_seq r = env_seq env /\ env_kind r = Ctl /\ a_kind a = AuWriteBack /\
  ((event_of r = Some (lit "write_ack") /\ a_result a = AuOk /\ env_ch r = Some (default 0 (env_ch env)) /\
    exists body, value_get (env_payload env) (lit "body") = Some (MBin body) /\
      payload_get r "bytes_written" = Some (MInt (zlen body))) \/
   (event_of r = Some (lit "error") /\ a_result a <> AuOk)).

Lemma handle_write_answers m env ts peer m' r a : handle_write m env ts peer = (m', r, a) -> write_answer env r a.
Proof.
  unfold handle_write. cbv zeta. destruct (parse_write_sid env) as [rr|sid] eqn:Hp.
  - intros [= <- <- <-]. unfold parse_write_sid, sum_or in Hp.
    destruct (env_sid env) as [s|]; [destruct (parse_uuid s); [done|]|]; apply (inj inl) in Hp; subst rr; by repeat split; auto.
  - destruct (value_get (env_payload env) (lit "body")) as [[]|] eqn:Hb;
      try (intros [= <- <- <-]; repeat split; right; done).
    destruct (api_write m sid _ b _) as [m1 [e|n]] eqn:Hw; intros [= <- <- <-]; [repeat split; right; done|].
    apply api_write_ok in Hw as ->. repeat split. left. repeat split. by exists b.
Qed.

(** ** One connection *)
Inductive Message := BinaryMsg (bytes : list Z) | PongMsg (p : list Z).
Inductive Incoming := InBinary (bytes : list Z) | InClose | InPing (p : list Z) | InPong | InText | InError.

(** [SubscriptionKey] is the text of the session id and the channel; a
    subscription forwards the session it was opened for. *)
Record Conn := mkConn {
  c_mgr : M; c_subs : gmap (list Z * option Z) Z; c_out : list Message; c_audit : list AuditEvent }.
Definition set_mgr (c : Conn) (m : M) : Conn := mkConn m (c_subs c) (c_out c) (c_audit c).
Definition set_subs (c : Conn) (s : gmap (list Z * option Z) Z) : Conn := mkConn (c_mgr c) s (c_out c) (c_audit c).
Definition push_out (c : Conn) (m : Message) : Conn := mkConn (c_mgr c) (c_subs c) (c_out c ++ [m]) (c_audit c).

  (** rmp_serde; whether the queue still accepts its [n]-th message, which it
      does until the writer task ends; whether there is an audit log, the
      clock and the peer's address. *)
  Context (to_vec_named : Envelope -> option (list Z)) (from_slice : list Z -> option Envelope)
    (queue_open : nat -> bool) (audited : bool) (audit_ts : nat -> list Z) (peer : list Z).

Definition push_audit (c : Conn) (a : AuditEvent) : Conn :=
  if audited then mkConn (c_mgr c) (c_subs c) (c_out c) (c_audit c ++ [a]) else c.

(** A reply that cannot be encoded is dropped. *)
Definition queue_envelope (c : Conn) (env : Envelope) : Conn * bool :=
  match encode to_vec_named env with
  | Ok bytes => if queue_open (length (c_out c)) then (push_out c (BinaryMsg bytes), true) else (c, false)
  | _ => (c, true)
  end.

Definition sub_key (env : Envelope) : Envelope + (list Z * option Z) :=
  match env_sid env with
  | None => inl (ctl_error (env_seq env) (lit "subscription missing sid"))
  | Some sid => inr (sid, env_ch env)
  end.
Definition subscribe_session (c : Conn) (env : Envelope) : Conn * bool :=
  match sub_key env with
  | inl reply => queue_envelope c reply
  | inr key =>
      if bool_decide (is_Some (c_subs c !! key)) then (c, true)
      else match parse_uuid (fst key) with
           | None => queue_envelope c (ctl_error (env_seq env) (lit "subscription sid is not a UUID"))
           | Some sid =>
               if api_registered (c_mgr c) sid then (set_subs c (<[key := sid]> (c_subs c)), true)
               else queue_envelope c (ctl_error (env_seq env) (lit "subscription sid is unknown"))
           end
  end.
Definition unsubscribe_session (c : Conn) (env : Envelope) : Conn * bool :=
  match sub_key env with
  | inl reply => queue_envelope c reply
  | inr key => (set_subs c (delete key (c_subs c)), true)
  end.

Definition dispatch_envelope (c : Conn) (env : Envelope) : Conn * bool :=
  match env_kind env with
  | Sub => subscribe_session c env
  | Unsub => unsubscribe_session c env
  | Ctl => let '(m, r) := handle_ctl (c_mgr c) env in queue_envelope (set_mgr c m) r
  | Write =>
      let '(m, r, a) := handle_write (c_mgr c) env (audit_ts (length (c_audit c))) peer in
      queue_envelope (push_audit (set_mgr c m) a) r
  | _ => (c, true)
  end.

(** One message; [false] ends the connection. *)
Definition on_message (c : Conn) (msg : Incoming) : Conn * bool :=
  match msg with
  | InBinary bytes =>
      match decode from_slice bytes with
      | Ok env => match handle_envelope env with Some reply => queue_envelope c reply | None => dispatch_envelope c env end
      | _ => (c, true)
      end
  | InPing p => ((if queue_open (length (c_out c)) then push_out c (PongMsg p) else c), true)
  | InPong | InText => (c, true)
  | InClose | InError => (c, false)
  end.
Fixpoint frame_loop (c : Conn) (msgs : list Incoming) : Conn :=
  match msgs with
  | [] => c
  | msg :: msgs' => let '(c', go) := on_message c msg in if go then frame_loop c' msgs' else c'
  end.
(** At the end every subscription's task is aborted. *)
Definition handle_socket (m : M) (msgs : list Incoming) : Conn := set_subs (frame_loop (mkConn m ∅ [] []) msgs) ∅.

(** ** The discipline of requests and replies *)

(** What leaves the connection for a reply: the encoded envelope, or nothing
    when it does not encode. *)
Definition sent (r : Envelope) : list Message := match encode to_vec_named r with Ok b => [BinaryMsg b] | _ => [] end.

(** What one message makes the connection send and audit. *)
Inductive answered : Incoming -> list Message -> list AuditEvent -> Prop :=
| ans_malformed bytes e : decode from_slice bytes = Err e -> answered (InBinary bytes) [] []
| ans_ping bytes env : decode from_slice bytes = Ok env -> env_kind env = Ping ->
    answered (InBinary bytes) (sent (envelope_new Pong (env_seq env) MNil)) []
| ans_ctl bytes env m r : decode from_slice bytes = Ok env -> env_kind env = Ctl -> ctl_answer m env r ->
    answered (InBinary bytes) (sent r) []
| ans_write bytes env r a : decode from_slice bytes = Ok env -> env_kind env = Write -> write_answer env r a ->
    answered (InBinary bytes) (sent r) (if audited then [a] else [])
| ans_sub bytes env : decode from_slice bytes = Ok env -> env_kind env = Sub \/ env_kind env = Unsub ->
    answered (InBinary bytes) [] []
| ans_sub_error bytes env r : decode from_slice bytes = Ok env -> env_kind env = Sub \/ env_kind env = Unsub ->
    env_seq r = env_seq env -> error_id_of r = Some (lit "E-2001") -> answered (InBinary bytes) (sent r) []
| ans_other bytes env : decode from_slice bytes = Ok env ->
    (match env_kind env with Ping | Ctl | Write | Sub | Unsub => False | _ => True end) -> answered (InBinary bytes) [] []
| ans_ws_ping p : answered (InPing p) [PongMsg p] []
| ans_ignored msg : msg = InPong \/ msg = InText -> answered msg [] [].

Definition ends (msg : Incoming) : bool := match msg with InClose | InError => true | _ => false end.

Section Open.
  Hypothesis writer_alive : forall n, queue_open n = true.

Lemma queue_sent c r : queue_envelope c r = (mkConn (c_mgr c) (c_subs c) (c_out c ++ sent r) (c_audit c), true).
Proof.
  unfold queue_envelope, sent. destruct (encode to_vec_named r); rewrite ?writer_alive; [done|..];
    by rewrite app_nil_r; destruct c.
Qed.
Lemma sub_key_err env r : sub_key env = inl r -> env_seq r = env_seq env /\ error_id_of r = Some (lit "E-2001").
Proof. unfold sub_key. destruct (env_sid env); [done|]. intros H%(inj inl). by subst r. Qed.

Lemma nothing_more {A B} (l : list A) (k : list B) : l = l ++ [] /\ k = k ++ [].
Proof. by rewrite !app_nil_r. Qed.

Lemma subscribe_answers c env : exists out, (out = [] \/ exists r, out = sent r /\ env_seq r = env_seq env /\ error_id_of r = Some (lit "E-2001")) /\
  exists subs, subscribe_session c env = (mkConn (c_mgr c) subs (c_out c ++ out) (c_audit c), true).
Proof.
  unfold subscribe_session. destruct (sub_key env) as [r|key] eqn:Hk.
  - exists (sent r). split; [right; exists r; split; [done|by apply sub_key_err]|]. rewrite queue_sent. eexists; reflexivity.
  - destruct (bool_decide _); [exists []; split; [by left|]; exists (c_subs c); rewrite app_nil_r; by destruct c|].
    destruct (parse_uuid (fst key)) as [sid|]; [destruct (api_registered (c_mgr c) sid)|].
    + exists []. split; [by left|]. eexists. by rewrite app_nil_r.
    + exists (sent (ctl_error (env_seq env) (lit "subscription sid is unknown"))). split; [right; by eexists|].
      rewrite queue_sent. eexists; reflexivity.
    + exists (sent (ctl_error (env_seq env) (lit "subscription sid is not a UUID"))). split; [right; by eexists|].
      rewrite queue_sent. eexists; reflexivity.
Qed.
Lemma unsubscribe_answers c env : exists out, (out = [] \/ exists r, out = sent r /\ env_seq r = env_seq env /\ error_id_of r = Some (lit "E-2001")) /\
  exists subs, unsubscribe_session c env = (mkConn (c_mgr c) subs (c_out c ++ out) (c_audit c), true).
Proof.
  unfold unsubscribe_session. destruct (sub_key env) as [r|key] eqn:Hk.
  - exists (sent r). split; [right; exists r; split; [done|by apply sub_key_err]|]. rewrite queue_sent. eexists; reflexivity.
  - exists []. split; [by left|]. eexists. by rewrite app_nil_r.
Qed.

(** Each message is answered as it should be. *)
Lemma on_message_answers c msg : ends msg = false -> exists m subs out aud,
  on_message c msg = (mkConn m subs (c_out c ++ out) (c_audit c ++ aud), true) /\ answered msg out aud.
Proof.
  intros He. destruct msg as [bytes| |p| | |]; try done; cbn [on_message].
  - destruct (decode from_slice bytes) as [env|e|] eqn:Hd.
    + unfold handle_envelope. destruct (env_kind env) eqn:Hk.
      all: try (exists (c_mgr c), (c_subs c), [], []; rewrite !app_nil_r; unfold dispatch_envelope; rewrite Hk;
        split; [by destruct c|]; eapply ans_other; [exact Hd|by rewrite Hk]).
      * unfold dispatch_envelope. rewrite Hk. destruct (subscribe_answers c env) as (out & Ho & subs & ->).
        exists (c_mgr c), subs, out, []. rewrite app_nil_r. split; [done|].
        destruct Ho as [->|(r & -> & ? & ?)]; [eapply ans_sub|eapply ans_sub_error]; eauto.
      * unfold dispatch_envelope. rewrite Hk. destruct (unsubscribe_answers c env) as (out & Ho & subs & ->).
        exists (c_mgr c), subs, out, []. rewrite app_nil_r. split; [done|].
        destruct Ho as [->|(r & -> & ? & ?)]; [eapply ans_sub|eapply ans_sub_error]; eauto.
      * unfold dispatch_envelope. rewrite Hk. destruct (handle_ctl (c_mgr c) env) as [m r] eqn:Hc. rewrite queue_sent.
        exists m, (c_subs c), (sent r), []. rewrite app_nil_r. split; [done|]. apply handle_ctl_answers in Hc.
        by eapply ans_ctl.
      * unfold dispatch_envelope. rewrite Hk. destruct (handle_write _ _ _ _) as [[m r] a] eqn:Hw. rewrite queue_sent.
        exists m, (c_subs c), (sent r), (if audited then [a] else []). apply handle_write_answers in Hw.
        split; [|by eapply ans_write]. unfold push_audit. destruct audited; cbn; by rewrite ?app_nil_r.
      * rewrite queue_sent. do 4 eexists. split; [|by eapply ans_ping]. by rewrite app_nil_r.
    + exists (c_mgr c), (c_subs c), [], []. rewrite !app_nil_r. split; [by destruct c|]. by eapply ans_malformed.
    + unfold decode in Hd. by repeat case_match.
  - rewrite writer_alive. exists (c_mgr c), (c_subs c), [PongMsg p], []. rewrite app_nil_r. split; [done|]. constructor.
  - exists (c_mgr c), (c_subs c), [], []. rewrite !app_nil_r. split; [by destruct c|]. constructor. auto.
  - exists (c_mgr c), (c_subs c), [], []. rewrite !app_nil_r. split; [by destruct c|]. constructor. auto.
Qed.

Lemma frame_loop_answers msgs rest : forallb (fun m => negb (ends m)) msgs = true ->
  match rest with [] => True | m :: _ => ends m = true end ->
  forall c, exists outs auds, Forall3 answered msgs outs auds /\
    let c' := frame_loop c (msgs ++ rest) in c_out c' = c_out c ++ concat outs /\ c_audit c' = c_audit c ++ concat auds.
Proof.
  intros Hm Hr. induction msgs as [|msg msgs IH]; intros c.
  - exists [], []. split; [constructor|]. cbn. rewrite !app_nil_r. destruct rest as [|m rest]; [done|]. cbn.
    by destruct m.
  - cbn in Hm. apply andb_prop in Hm as [He%negb_true_iff Hm].
    destruct (on_message_answers c msg He) as (m & subs & out & aud & Hon & Ha).
    destruct (IH Hm (mkConn m subs (c_out c ++ out) (c_audit c ++ aud))) as (outs & auds & HF & Ho & Hu).
    exists (out :: outs), (aud :: auds). split; [by constructor|]. cbn [app frame_loop]. rewrite Hon.
    cbn zeta. rewrite Ho, Hu. cbn. by rewrite <- !(assoc_L (++)).
Qed.

End Open.

(** A second subscription under the same key is accepted in silence even when
    the session has been removed since (Finding). *)
Lemma stale_subscription_silent c env sid ch s : env_kind env = Sub -> env_sid env = Some sid -> env_ch env = ch ->
  c_subs c !! (sid, ch) = Some s -> api_registered (c_mgr c) s = false -> dispatch_envelope c env = (c, true).
Proof.
  intros Hk Hs Hc Hl _. unfold dispatch_envelope, subscribe_session, sub_key. rewrite Hk, Hs, Hc.
  by rewrite bool_decide_true by eauto.
Qed.
(** The channel is part of the key only: subscriptions to different channels
    of a session forward the same frames (Finding). *)
Lemma channel_not_filtered c sid ch s : parse_uuid sid = Some s -> api_registered (c_mgr c) s = true ->
  c_subs c !! (sid, ch) = None -> forall seq p,
  c_subs (fst (dispatch_envelope c (mkEnv Sub (Some sid) ch seq p))) !! (sid, ch) = Some s.
Proof.
  intros Hp Hr Hn seq p. unfold dispatch_envelope, subscribe_session, sub_key. cbn [env_kind env_sid env_ch].
  rewrite bool_decide_false by (rewrite Hn; by intros [? ?]). cbn [fst]. rewrite Hp, Hr. cbn. apply lookup_insert_eq.
Qed.
End Handlers.
End Replies.
