(* ===== verification/WsManager.v ===== *)
(** * The source manager behind a connection

    The calls of [SourceApi] as server/src/source_manager.rs makes them, each
    from its first locked section to its end, over the state of [Manager]; an
    instance of the interface the WebSocket handlers are verified against, and
    the connection theorem for it.  What the outside answers to the [n]-th
    call (transport, log files, sink, fresh identifiers) is given. *)
From stdpp Require Import base numbers strings gmap list.
From S2P Require Import Prelude Text Spec Naming Clock Decoder Detect Wire Sessions Runner Manager Auth WsParse Ws.

Local Open Scope Z_scope.
Local Open Scope tm_scope.

(** [TraceMuxError::new(id, message)] as an [anyhow::Error]. *)
Definition core_error (id : ErrorId) (message : list Z) : AnyError := mkAny [code id ++ lit ": " ++ message] (Some id).

Section Server.
  Context (Tx : Type) (decode_label : list Z -> list Z -> list Z * bool) (to_lowercase : list Z -> list Z)
    (build_regex : list Z -> bool -> option (list Z -> Z)).
  (** Per call: the answers of the world, the error of a transport that fails,
      the sink's error, and a fresh identifier. *)
  Context (world : nat -> World Tx) (transport_error : nat -> AnyError) (sink_error : nat -> option AnyError)
    (fresh_sid : nat -> Z).

(** The registry is keyed by the identifiers of its sessions, which
    [register_session] and [remove] keep. *)
Definition registry_keyed (st : State Tx) : Prop :=
  forall i x, Ingest.registry Tx (ingest Tx st) !! i = Some x -> Ingest.sid Tx x = i.
Record Server := mkServer { sv : State Tx; sv_calls : nat; sv_keyed : registry_keyed sv }.

Definition mgr_error (e : MgrError) (n : nat) : AnyError :=
  match e with
  | UnknownSid => mkAny [lit "source sid is unknown"] None
  | AlreadyActive => mkAny [lit "source sid is already active"] None
  | NotResumable => mkAny [lit "source sid is not resumable"] None
  | NotRestartable => mkAny [lit "source sid is not restartable"] None
  | _ => transport_error n
  end.

(** [start_spec_with_sid]: up to the registration, then the entry is inserted. *)
Definition finish_start (st : State Tx) (a : Call) (n : nat) : State Tx * (AnyError + Z) :=
  match a with
  | Starting sid spec dir o =>
      match start_spec_with_sid Tx decode_label to_lowercase build_regex st sid spec dir o (world n) with
      | (st', Ok (Spawned sid' _ e)) => (insert_spawned Tx st' sid' e, inr sid')
      | (st', Err e) => (st', inl (mgr_error e n))
      | (st', _) => (st', inl (transport_error n))
      end
  | _ => (st, inl (transport_error n))
  end.
Definition begin_call (out : State Tx * res MgrError Call) (n : nat) : State Tx * (AnyError + Z) :=
  match out with
  | (st', Ok a) => finish_start st' a n
  | (st', Err e) => (st', inl (mgr_error e n))
  | (st', Panic) => (st', inl (transport_error n))
  end.

Definition started (st : State Tx) (sid : Z) : Prop :=
  is_Some (Ingest.registry Tx (ingest Tx st) !! sid) /\ status_of Tx st sid = Running.

Lemma launch_ok st sid dir kind iface tx registers e has_sink st' r :
  registry_keyed st -> launch Tx st sid dir kind iface tx registers e has_sink = (st', r) ->
  registry_keyed st' /\
  match r with
  | Ok (Spawned i _ e') => started (insert_spawned Tx st' i e') i /\ registry_keyed (insert_spawned Tx st' i e')
  | Ok _ | Panic => False
  | Err _ => True
  end.
Proof.
  intros Hk H. unfold launch in H. destruct registers; [|by simplify_eq].
  destruct (Ingest.register_session _ _ _) as [g i] eqn:Hr. simplify_eq.
  unfold Ingest.register_session, Ingest.insert_if_absent in Hr. cbn in Hr.
  assert (Hg : (forall j x, Ingest.registry Tx g !! j = Some x -> Ingest.sid Tx x = j) /\ is_Some (Ingest.registry Tx g !! i)).
  { destruct (Ingest.registry Tx (ingest Tx st) !! sid) as [x|] eqn:E; simplify_eq; cbn.
    - split; [done|]. rewrite (Hk _ _ E). eauto.
    - split; [|rewrite lookup_insert_eq; eauto]. intros j x [[<- <-]|[_ H]]%lookup_insert_Some; [done|by apply Hk]. }
  destruct Hg as [Hg Hi]. split; [exact Hg|]. split; [|exact Hg]. split; [exact Hi|].
  unfold status_of, is_finished, insert_spawned. cbn. rewrite lookup_insert_eq. cbn. by rewrite lookup_insert_eq.
Qed.

Lemma start_spec_ok st sid spec dir o w st' r :
  registry_keyed st -> start_spec_with_sid Tx decode_label to_lowercase build_regex st sid spec dir o w = (st', r) ->
  registry_keyed st' /\
  match r with
  | Ok (Spawned i _ e') => started (insert_spawned Tx st' i e') i /\ registry_keyed (insert_spawned Tx st' i e')
  | Ok _ | Panic => False
  | Err _ => True
  end.
Proof.
  intros Hk. unfold start_spec_with_sid, start_duplex_spec, start_source_only_spec, start_pcap_source_with_sid,
    start_remote_spec, start_default_pipeline.
  repeat case_match; first [by apply launch_ok | by intros [= <- <-]].
Qed.

Lemma finish_start_ok st a n st' r : registry_keyed st -> finish_start st a n = (st', r) ->
  registry_keyed st' /\ forall sid, r = inr sid -> started st' sid.
Proof.
  intros Hk. unfold finish_start. destruct a as [sid spec dir o| |]; [|by intros [= <- <-]..].
  destruct (start_spec_with_sid _ _ _ _ _ _ _ _ _ _) as [st1 r1] eqn:Hs. apply start_spec_ok in Hs as [Hk1 Hr]; [|done].
  destruct r1 as [[]|e|]; try done; intros [= <- <-]; [|done]. destruct Hr as [Hr1 Hr2].
  split; [done|]. by intros ? [= <-].
Qed.

(** A call whose first section leaves the registry alone. *)
Lemma begin_call_ok st out n st' r : registry_keyed st -> ingest Tx (fst out) = ingest Tx st ->
  begin_call out n = (st', r) -> registry_keyed st' /\ forall sid, r = inr sid -> started st' sid.
Proof.
  intros Hk Hi. destruct out as [st1 r1]. cbn in Hi.
  assert (Hk1 : registry_keyed st1) by (unfold registry_keyed in *; by rewrite Hi).
  unfold begin_call. destruct r1; [by apply finish_start_ok|by intros [= <- <-]..].
Qed.
Lemma resume_ingest st sid : ingest Tx (fst (resume Tx st sid)) = ingest Tx st.
Proof. unfold resume. by repeat case_match. Qed.
Lemma restart_ingest st sid o : ingest Tx (fst (restart_with_options Tx st sid o)) = ingest Tx st.
Proof. unfold restart_with_options. by repeat case_match. Qed.
Lemma stop_ingest st sid : ingest Tx (fst (stop Tx st sid)) = ingest Tx st.
Proof. unfold stop. by repeat case_match. Qed.
Lemma write_ingest st sid : ingest Tx (fst (write Tx st sid)) = ingest Tx st.
Proof. unfold write. by repeat case_match. Qed.
Lemma keyed_ingest st st' : ingest Tx st' = ingest Tx st -> registry_keyed st -> registry_keyed st'.
Proof. intros E H. unfold registry_keyed in *. by rewrite E. Qed.
Lemma keyed_remove st sid : registry_keyed st -> registry_keyed (fst (remove Tx st sid)).
Proof. intros H i x. cbn. rewrite lookup_delete_Some. intros [_ Hx]. by apply H. Qed.

(** One call, given its first locked section. *)
Definition call (m : Server) (out : State Tx * res MgrError Call) (H : ingest Tx (fst out) = ingest Tx (sv m))
  : Server * (AnyError + Z) :=
  (mkServer (fst (begin_call out (sv_calls m))) (S (sv_calls m))
     (proj1 (begin_call_ok (sv m) out (sv_calls m) _ _ (sv_keyed m) H (surjective_pairing _))),
   snd (begin_call out (sv_calls m))).

Definition srv_start (m : Server) (spec : ChannelSpec) (o : SourceStartOptions) : Server * (AnyError + Z) :=
  call m (sv m, Ok (Starting (fresh_sid (sv_calls m)) spec None o)) eq_refl.
Definition srv_resume (m : Server) (sid : Z) : Server * (AnyError + Z) :=
  call m (resume Tx (sv m) sid) (resume_ingest (sv m) sid).
Definition srv_restart (m : Server) (sid : Z) (o : SourceStartOptions) : Server * (AnyError + Z) :=
  call m (restart_with_options Tx (sv m) sid o) (restart_ingest (sv m) sid o).
Definition srv_stop (m : Server) (sid : Z) : Server * bool :=
  (mkServer (fst (stop Tx (sv m) sid)) (sv_calls m) (keyed_ingest _ _ (stop_ingest (sv m) sid) (sv_keyed m)),
   snd (stop Tx (sv m) sid)).
Definition srv_remove (m : Server) (sid : Z) : Server * bool :=
  (mkServer (fst (remove Tx (sv m) sid)) (sv_calls m) (keyed_remove _ sid (sv_keyed m)), snd (remove Tx (sv m) sid)).
(** [SourceManager::write]: the sink is looked up under the lock, then written
    and flushed. *)
Definition srv_write (m : Server) (sid ch : Z) (body : list Z) (target : option (list Z)) : Server * (AnyError + Z) :=
  (mkServer (fst (write Tx (sv m) sid)) (S (sv_calls m)) (keyed_ingest _ _ (write_ingest (sv m) sid) (sv_keyed m)),
   match snd (write Tx (sv m) sid) with
   | Ok _ => match sink_error (sv_calls m) with None => inr (zlen body) | Some e => inl e end
   | Err UnknownSid => inl (core_error E2001WireMalformed (lit "write sid is unknown"))
   | _ => inl (core_error E2001WireMalformed (lit "source does not support write-back or is not running"))
   end).

Lemma call_ok m out H m' sid : call m out H = (m', inr sid) -> started (sv m') sid.
Proof.
  unfold call. intros [= <- Hr]. cbn [sv].
  by apply (begin_call_ok (sv m) out (sv_calls m) _ _ (sv_keyed m) H (surjective_pairing _)).
Qed.

Definition srv_registered (m : Server) (sid : Z) : bool :=
  bool_decide (is_Some (Ingest.get Tx (Ingest.registry Tx (ingest Tx (sv m))) sid)).
Definition srv_running (m : Server) (sid : Z) : bool :=
  match status_of Tx (sv m) sid with Running => true | _ => false end.
Lemma started_true m sid : started (sv m) sid -> srv_registered m sid = true /\ srv_running m sid = true.
Proof. intros [H1 H2]. unfold srv_running. rewrite H2. split; [|done]. by apply bool_decide_eq_true. Qed.

Lemma srv_start_ok m spec o m' sid : srv_start m spec o = (m', inr sid) ->
  srv_registered m' sid = true /\ srv_running m' sid = true.
Proof. intros H. apply started_true. by eapply call_ok. Qed.
Lemma srv_resume_ok m i m' sid : srv_resume m i = (m', inr sid) ->
  srv_registered m' sid = true /\ srv_running m' sid = true.
Proof. intros H. apply started_true. by eapply call_ok. Qed.
Lemma srv_restart_ok m i o m' sid : srv_restart m i o = (m', inr sid) ->
  srv_registered m' sid = true /\ srv_running m' sid = true.
Proof. intros H. apply started_true. by eapply call_ok. Qed.
Lemma srv_stop_ok m i m' b : srv_stop m i = (m', b) -> srv_running m' i = false.
Proof.
  intros [= <- _]. unfold srv_running, status_of. cbn [sv]. unfold stop.
  destruct (sources Tx (sv m) !! i) as [e|] eqn:E; cbn; [by rewrite lookup_insert_eq|by rewrite E].
Qed.
Lemma srv_remove_ok m i m' b : srv_remove m i = (m', b) -> srv_running m' i = false /\ srv_registered m' i = false.
Proof.
  intros [= <- _]. unfold srv_running, srv_registered, status_of. cbn [sv]. unfold remove. cbn.
  rewrite lookup_delete_eq. split; [done|]. apply bool_decide_eq_false. unfold Ingest.get. rewrite lookup_delete_eq.
  by intros [? ?].
Qed.
Lemma srv_write_ok m i ch body t m' n : srv_write m i ch body t = (m', inr n) -> n = zlen body.
Proof. intros [= _ H]. by repeat case_match; simplify_eq. Qed.

#[export] Instance ManagerApi : SourceApi Server := {|
  api_list m := list_sources Tx (sv m);
  api_registered := srv_registered; api_running := srv_running;
  api_start := srv_start; api_stop := srv_stop; api_resume := srv_resume; api_restart := srv_restart;
  api_remove := srv_remove; api_write := srv_write;
  api_start_ok := srv_start_ok; api_resume_ok := srv_resume_ok; api_restart_ok := srv_restart_ok;
  api_stop_ok := srv_stop_ok; api_remove_ok := srv_remove_ok; api_write_ok := srv_write_ok |}.
End Server.

(** ** A concrete connection *)
Module Demo.
Definition api : SourceApi (Server unit) :=
  ManagerApi unit Example.dec0 (fun t => t) (fun _ _ => None) (fun _ => Example.w0) (fun _ => mkAny [] None) (fun _ => None)
    (fun n => Z.of_nat n + 1).
Lemma keyed0 : registry_keyed unit (new unit Example.settings0).
Proof. intros i x H. cbn in H. by rewrite lookup_empty in H. Qed.
Definition server0 : Server unit := mkServer unit (new unit Example.settings0) 0 keyed0.
Definition act (a : string) : MValue := MMap [mkey "action" (MStr (lit a)); mkey "spec" (spec_value (Mock (lit "m")))].
(** A codec that knows the requests below. *)
Definition from_slice (b : list Z) : option Envelope :=
  match b with
  | [1] => Some (mkEnv Ping None None 11 MNil)
  | [2] => Some (mkEnv Ctl None None 12 (act "start"))
  | [3] => Some (mkEnv Sub (Some (lit "1")) None 13 MNil)
  | [4] => Some (mkEnv Ctl (Some (lit "1")) None 14 (act "stop"))
  | [5] => Some (mkEnv Write (Some (lit "1")) None 15 (MMap [mkey "body" (MBin [7; 8])]))
  | _ => None
  end.
Definition to_vec (e : Envelope) : option (list Z) := Some [env_seq e].
Definition msgs : list Incoming :=
  [InBinary [1]; InBinary [2]; InBinary [3]; InText; InBinary [9]; InBinary [5]; InBinary [4]; InPing [0]].
Definition run : Conn (M := Server unit) :=
  @handle_socket show_nat (parse_unsigned 10 (2 ^ 128 - 1)) (Server unit) api (fun _ _ => None) to_vec from_slice (fun _ => true)
    true (fun _ => []) (lit "peer") server0 (msgs ++ [InClose; InBinary [1]]).
End Demo.

Example demo_out : c_out Demo.run = [BinaryMsg [11]; BinaryMsg [12]; BinaryMsg [15]; BinaryMsg [14]; PongMsg [0]].
Proof. vm_compute. reflexivity. Qed.

