(* ===== verification/Secrets.v ===== *)
(** * Secrets: core/src/secret.rs

    References to secrets, redaction, the resolver interface and its two
    implementations.  The operating system's keyring (the [keyring] crate) is an
    interface with the laws its documentation states; the resolver over it is
    shown to behave as the in-memory one, call by call. *)
From stdpp Require Import base numbers strings gmap list.
From S2P Require Import Prelude Text Detect.

Local Open Scope Z_scope.
Local Open Scope tm_scope.

Module Secret.
Definition KEYRING_SERVICE : list Z := lit "tracemux".
Definition is_safe_name_char (c : Z) : bool := is_ascii_alphanumeric c || (c =? 46) || (c =? 95) || (c =? 45).
Record SecretRef := mkRef { name : list Z }.
Definition parse (s : list Z) : option SecretRef :=
  n ← strip_prefix (lit "secret://") s;
  if is_nil n || negb (forallb is_safe_name_char n) then None else Some (mkRef n).
(** [Display] and [Debug] of a [Redact] hide what it wraps. *)
Record Redact := mkRedact { revealed : list Z }.
Definition redact_fmt (r : Redact) : list Z := lit "<redacted>".

Class SecretResolver (R : Type) := {
  secret_get : R -> list Z -> result Redact;
  secret_set : R -> list Z -> list Z -> R * result unit;
  secret_delete : R -> list Z -> R * result unit }.
Definition MemorySecretResolver := gmap (list Z) (list Z).
#[global] Instance MemorySecretResolver_resolver : SecretResolver MemorySecretResolver := {|
  secret_get m n := mkRedact <$> ok_or (m !! n) E1001PipelineGeneric;
  secret_set m n v := (<[n := v]> m, Ok tt);
  secret_delete m n := (delete n m, Ok tt) |}.
Definition resolve {R} `{!SecretResolver R} (backend : R) (r : SecretRef) : result Redact := secret_get backend (name r).

(** ** The operating system's keyring *)
(** [keyring::Error]: there is no such entry, or the platform reports something. *)
Inductive KeyringError := NoEntry | Platform (code : Z).
(** [keyring::Entry::new(service, user)] and the calls on the entry. *)
Class Keyring (K : Type) := {
  entry_new : K -> list Z -> list Z -> res KeyringError unit;
  get_password : K -> list Z -> list Z -> res KeyringError (list Z);
  set_password : K -> list Z -> list Z -> list Z -> K * res KeyringError unit;
  delete_password : K -> list Z -> list Z -> K * res KeyringError unit }.
(** A keyring holds one password per service and user: a call that succeeds
    reads or changes that entry only, and one that fails changes nothing. *)
Class KeyringLaws (K : Type) `{!Keyring K} (held : K -> gmap (list Z * list Z) (list Z)) : Prop := {
  get_held k s u v : get_password k s u = Ok v -> held k !! (s, u) = Some v;
  get_missing k s u : get_password k s u = Err NoEntry -> held k !! (s, u) = None;
  set_held k s u v k' r : set_password k s u v = (k', r) -> held k' = match r with Ok _ => <[(s, u) := v]> (held k) | _ => held k end;
  delete_held k s u k' r : delete_password k s u = (k', r) -> held k' = match r with Ok _ => delete (s, u) (held k) | _ => held k end;
  delete_missing k s u k' : delete_password k s u = (k', Err NoEntry) -> held k !! (s, u) = None }.

Section KeyringResolver.
  Context {K : Type} `{!Keyring K}.
Definition map_kr (e : KeyringError) : ErrorId := E1001PipelineGeneric.
Definition keyring_get (k : K) (n : list Z) : result Redact :=
  let* _ := map_err map_kr (entry_new k KEYRING_SERVICE n) in
  let* v := map_err map_kr (get_password k KEYRING_SERVICE n) in
  Ok (mkRedact v).
Definition keyring_set (k : K) (n v : list Z) : K * result unit :=
  match map_err map_kr (entry_new k KEYRING_SERVICE n) with
  | Ok _ => let '(k', r) := set_password k KEYRING_SERVICE n v in (k', map_err map_kr r)
  | e => (k, e)
  end.
Definition keyring_delete (k : K) (n : list Z) : K * result unit :=
  match map_err map_kr (entry_new k KEYRING_SERVICE n) with
  | Ok _ =>
      let '(k', r) := delete_password k KEYRING_SERVICE n in
      (k', match r with Ok _ | Err NoEntry => Ok tt | Err e => Err (map_kr e) | Panic => Panic end)
  | e => (k, e)
  end.
#[global] Instance KeyringResolver : SecretResolver K := {|
  secret_get := keyring_get; secret_set := keyring_set; secret_delete := keyring_delete |}.

(** ** A resolver over a keyring is a map of names *)
Inductive secret_op := Get (n : list Z) | Set_ (n v : list Z) | Delete (n : list Z).
Definition secret_step {R : Type} `{!SecretResolver R} (r : R) (o : secret_op) : R * result (option (list Z)) :=
  match o with
  | Get n => (r, (fun x => Some (revealed x)) <$> secret_get r n)
  | Set_ n v => let '(r', x) := secret_set r n v in (r', (fun _ => None) <$> x)
  | Delete n => let '(r', x) := secret_delete r n in (r', (fun _ => None) <$> x)
  end.
Context (held : K -> gmap (list Z * list Z) (list Z)) `{!KeyringLaws K held}.
(** The keyring holds the secrets of [m] under the service's name. *)
Definition stores (k : K) (m : gmap (list Z) (list Z)) : Prop := forall n, held k !! (KEYRING_SERVICE, n) = m !! n.
(** What other programs keep. *)
Definition foreign (k k' : K) : Prop := forall s u, s <> KEYRING_SERVICE -> held k' !! (s, u) = held k !! (s, u).

Lemma keyring_stores_insert (k k' : K) (m : gmap (list Z) (list Z)) n v :
  held k' = <[(KEYRING_SERVICE, n) := v]> (held k) -> stores k m -> stores k' (<[n := v]> m) /\ foreign k k'.
Proof using Type.
  intros E Hs. split.
  - intros u. rewrite E. destruct (decide (u = n)) as [->|N]; [by rewrite !lookup_insert_eq|]. rewrite !lookup_insert_ne by congruence. apply Hs.
  - intros s u Hn. rewrite E, lookup_insert_ne by congruence. done.
Qed.
Lemma keyring_stores_delete (k k' : K) (m : gmap (list Z) (list Z)) n :
  held k' = delete (KEYRING_SERVICE, n) (held k) -> stores k m -> stores k' (delete n m) /\ foreign k k'.
Proof using Type.
  intros E Hs. split.
  - intros u. rewrite E. destruct (decide (u = n)) as [->|N]; [by rewrite !lookup_delete_eq|]. rewrite !lookup_delete_ne by congruence. apply Hs.
  - intros s u Hn. rewrite E, lookup_delete_ne by congruence. done.
Qed.
(** Call by call the keyring resolver does what the in-memory one does, or
    reports a generic error and changes nothing; it never touches what other
    programs keep, and deleting what is not there succeeds. *)
Theorem keyring_refines_memory (k : K) (m : gmap (list Z) (list Z)) o k' x :
  stores k m -> secret_step k o = (k', Ok x) ->
  exists m', secret_step m o = (m', Ok x) /\ stores k' m' /\ foreign k k'.
Proof using KeyringLaws0.
  intros Hs. destruct o as [n|n v|n]; cbn [secret_step secret_get secret_set secret_delete KeyringResolver MemorySecretResolver_resolver].
  - unfold keyring_get. destruct (entry_new k KEYRING_SERVICE n) as [[]|e|]; [|done..]. cbn [map_err mbind res_bind].
    destruct (get_password k KEYRING_SERVICE n) as [v|e|] eqn:E; [|done..]. intros [= <- <-]. apply get_held in E.
    exists m. pose proof (Hs n) as Hn. rewrite E in Hn. split; [|done]. unfold MemorySecretResolver. by rewrite <- Hn.
  - unfold keyring_set. destruct (entry_new k KEYRING_SERVICE n) as [[]|e|]; [|done..]. cbn [map_err].
    destruct (set_password k KEYRING_SERVICE n v) as [k2 [[]|e|]] eqn:E; [|done..]. intros [= <- <-]. apply set_held in E.
    exists (<[n := v]> m). split; [done|]. by apply keyring_stores_insert.
  - unfold keyring_delete. destruct (entry_new k KEYRING_SERVICE n) as [[]|e|]; [|done..]. cbn [map_err].
    destruct (delete_password k KEYRING_SERVICE n) as [k2 [[]|[]|]] eqn:E; [| |done..]; intros [= <- <-]; exists (delete n m); (split; [done|]).
    + apply delete_held in E. by apply keyring_stores_delete.
    + pose proof (delete_missing _ _ _ _ E) as Hm. apply delete_held in E. rewrite (Hs n) in Hm.
      split; [intros u; rewrite E, delete_id by done; apply Hs|intros s u _; by rewrite E].
Qed.
Theorem keyring_failure_changes_nothing (k k' : K) o e : secret_step k o = (k', Err e) -> e = E1001PipelineGeneric /\ held k' = held k.
Proof using KeyringLaws0.
  destruct o as [n|n v|n]; cbn [secret_step secret_get secret_set secret_delete KeyringResolver].
  - unfold keyring_get. destruct (entry_new k KEYRING_SERVICE n) as [[]|?|]; [|by intros [= <- <-]|done]. cbn [map_err mbind res_bind].
    destruct (get_password k KEYRING_SERVICE n) as [v|?|]; [done|by intros [= <- <-]|done].
  - unfold keyring_set. destruct (entry_new k KEYRING_SERVICE n) as [[]|?|]; [|by intros [= <- <-]|done]. cbn [map_err].
    destruct (set_password k KEYRING_SERVICE n v) as [k2 [[]|?|]] eqn:E; [done| |done]. apply set_held in E. by intros [= <- <-].
  - unfold keyring_delete. destruct (entry_new k KEYRING_SERVICE n) as [[]|?|]; [|by intros [= <- <-]|done]. cbn [map_err].
    destruct (delete_password k KEYRING_SERVICE n) as [k2 [[]|[|c]|]] eqn:E; [done|done| |done]. apply delete_held in E. by intros [= <- <-].
Qed.
End KeyringResolver.
(** A keyring that is a map obeys the laws. *)
Record MapKeyring := mkMapKeyring { entries : gmap (list Z * list Z) (list Z) }.
#[global] Instance MapKeyring_keyring : Keyring MapKeyring := {|
  entry_new _ _ _ := Ok tt;
  get_password k s u := ok_or (entries k !! (s, u)) NoEntry;
  set_password k s u v := (mkMapKeyring (<[(s, u) := v]> (entries k)), Ok tt);
  delete_password k s u := match entries k !! (s, u) with
                           | Some _ => (mkMapKeyring (delete (s, u) (entries k)), Ok tt)
                           | None => (k, Err NoEntry)
                           end |}.
#[global] Instance MapKeyring_laws : KeyringLaws MapKeyring entries.
Proof.
  split; intros k s u; cbn [get_password set_password delete_password MapKeyring_keyring].
  - intros v. by destruct (entries k !! (s, u)); intros [= <-].
  - by destruct (entries k !! (s, u)).
  - by intros v k' r [= <- <-].
  - intros k' r. by destruct (entries k !! (s, u)); intros [= <- <-].
  - intros k'. by destruct (entries k !! (s, u)).
Qed.
Example keyring_round_trip :
  let k := mkMapKeyring ∅ in
  let '(k1, r1) := secret_set k (lit "t") (lit "shh") in
  let '(k2, r2) := secret_delete k1 (lit "t") in
  let '(k3, r3) := secret_delete k2 (lit "t") in
  r1 = Ok tt /\ revealed <$> secret_get k1 (lit "t") = Ok (lit "shh") /\ r2 = Ok tt /\ r3 = Ok tt /\
  secret_get k3 (lit "t") = Err E1001PipelineGeneric.
Proof. vm_compute. repeat split. Qed.
(** A reference names one entry: only letters, digits and [._-] follow the scheme. *)
Theorem parse_exact s r : parse s = Some r <-> s = lit "secret://" ++ name r /\ name r <> [] /\ forallb is_safe_name_char (name r) = true.
Proof.
  unfold parse. split.
  - intros (n & Hn & Hp)%bind_Some. destruct n as [|c n]; [done|]. cbn [is_nil orb] in Hp.
    destruct (forallb is_safe_name_char (c :: n)) eqn:E; [|done]. injection Hp as <-. cbn [name].
    split; [|done]. by apply strip_prefix_Some.
  - intros (-> & Hne & Hs). destruct r as [n]. cbn [name] in *.
    assert (strip_prefix (lit "secret://") (lit "secret://" ++ n) = Some n) as -> by apply strip_prefix_app_same.
    cbn [mbind option_bind]. rewrite Hs. by destruct n.
Qed.
End Secret.
