(* ===== verification/Mirror.v ===== *)
(** * The remote mirror: server/src/remote_mirror.rs

    A central server subscribes to a session of an edge server, logs and
    republishes what arrives and proxies writes back.  The target of a mirror
    and its token, the proxying sink, and the loop of a mirror's task: the
    [select!] takes a write request or a socket message, so a run is any
    sequence of such events.  The socket, MessagePack, UUIDs, the clock and
    the keyring are parameters. *)
From stdpp Require Import base numbers strings gmap list.
From S2P Require Import Prelude Text Spec Naming Clock Decoder Detect SessionDir Wire Sessions Runner Manager Auth WsParse Ws WsManager Secrets.

Local Open Scope Z_scope.
Local Open Scope tm_scope.

(** ** URLs *)
Definition percent_decode (s : list Z) : list Z := from_utf8_lossy (pct_decode_bytes (utf8 s)).
(** [split(c).next()]: what comes before the first [c]. *)
Definition before_char (c : Z) (s : list Z) : list Z := default [] (head (split_on c s)).
Fixpoint find_pair (pairs : list (list Z)) (name : list Z) : option (list Z) :=
  match pairs with
  | [] => None
  | piece :: pairs' =>
      let '(key, value) := match split_once [61] piece with Some kv => kv | None => (piece, []) end in
      if str_eqb (percent_decode key) name then Some (percent_decode value) else find_pair pairs' name
  end.
Definition query_param (url name : list Z) : option (list Z) :=
  '(_, rest) ← split_once [63] url;
  find_pair (split_on 38 (before_char 35 rest)) name.
Definition sanitized_ws_url (url : list Z) : list Z := before_char 63 (before_char 35 url).

Record RemoteTarget := mkRemote { r_url : list Z; remote_sid : Z; remote_ch : Z; token : option (list Z) }.
Inductive RemoteError := NoSid | BadSid | BadCh | TokenEnv | TokenSecretRef | TokenSecret.

Section Target.
  Context (parse_uuid : list Z -> option Z) (uuid_str : Z -> list Z) (env_var : list Z -> option (list Z)).
  Context {R : Type} `{!Secret.SecretResolver R} (keyring : R).

Definition remote_token (url : list Z) : res RemoteError (option (list Z)) :=
  match query_param url (lit "token_env") with
  | Some var => Some <$> ok_or (env_var var) TokenEnv
  | None =>
      match query_param url (lit "token_secret") with
      | Some r =>
          let* sr := ok_or (Secret.parse r) TokenSecretRef in
          let* secret := map_err (fun _ => TokenSecret) (Secret.resolve keyring sr) in
          Ok (Some (Secret.revealed secret))
      | None => Ok None
      end
  end.
Definition target_parse (url : list Z) : res RemoteError RemoteTarget :=
  let* sid := ok_or (query_param url (lit "sid")) NoSid in
  let* remote_sid := ok_or (parse_uuid sid) BadSid in
  let* ch := ok_or (parse_unsigned 10 u32_max (default (lit "0") (query_param url (lit "ch")))) BadCh in
  let* tok := remote_token url in
  Ok (mkRemote url remote_sid ch tok).
Definition display_target (t : RemoteTarget) : list Z := sanitized_ws_url (r_url t) ++ [47] ++ uuid_str (remote_sid t).
End Target.

(** The value of the [Sec-WebSocket-Protocol] header. *)
Definition protocol_header (t : RemoteTarget) : list Z :=
  match token t with
  | Some ((_ :: _) as tok) => lit "tracemux.v1" ++ lit ", bearer." ++ tok
  | _ => lit "tracemux.v1"
  end.

(** ** The proxying sink *)
Record RemoteWriteRequest := mkWrite { w_body : list Z; w_target : option (list Z) }.
(** How a request ends: the task is gone, the edge's answer, the task ended
    before one came, or none came in time. *)
Inductive write_end := TaskGone | Acked | Refused (message : list Z) | AckDropped | TimedOut.
Record RemoteWriteSink := mkRSink { pending_target : option (list Z) }.
Definition rsink_write (s : RemoteWriteSink) (data : list Z) (e : write_end) : RemoteWriteSink * RemoteWriteRequest * result unit :=
  (mkRSink None, mkWrite data (pending_target s), match e with Acked => Ok tt | _ => Err E1001PipelineGeneric end).
Definition rsink_ctl (s : RemoteWriteSink) (kind : list Z) (data : option (list Z)) : RemoteWriteSink :=
  if str_eqb kind (lit "udp-next-target")
  then mkRSink (match from_utf8_lossy <$> data with Some ((_ :: _) as t) => Some t | _ => None end)
  else s.

(** ** Reading a data envelope *)
Definition map_binary (v : MValue) (k : string) : option (list Z) :=
  match value_get v (lit k) with Some (MBin b) => Some b | _ => None end.
Definition payload_str (v : MValue) (k : string) : option (list Z) := map_str v (lit k).
Definition map_i64 (v : MValue) (k : string) : option Z :=
  match value_get v (lit k) with Some (MInt z) => try_from i64_min i64_max z | _ => None end.
Definition map_u64 (v : MValue) (k : string) : option Z := value_get v (lit k) ≫= v_as_u64.
Definition parse_clock_quality (s : list Z) : option ClockQuality :=
  if str_eqb s (lit "synced") then Some QSynced else if str_eqb s (lit "best-effort") then Some QBestEffort
  else if str_eqb s (lit "unknown") then Some QUnknown else if str_eqb s (lit "imported") then Some QImported else None.
Definition parse_clock_source (s : list Z) : option ClockSource :=
  if str_eqb s (lit "system") then Some CSystem else if str_eqb s (lit "ntp") then Some CNtp
  else if str_eqb s (lit "ptp") then Some CPtp else if str_eqb s (lit "monotonic") then Some CMonotonic
  else if str_eqb s (lit "imported") then Some CImported else None.

Section Mirror.
  Context (parse_uuid : list Z -> option Z) (uuid_str : Z -> list Z) (f64_as_f32 : Z -> Z).

Definition map_f32 (v : MValue) (k : string) : option Z :=
  match value_get v (lit k) with Some (MF32 x) => Some x | Some (MF64 x) => Some (f64_as_f32 x) | _ => None end.
Definition map_uuid (v : MValue) (k : string) : option Z := map_str v (lit k) ≫= parse_uuid.
Definition timestamp_from_payload (p : MValue) (fallback : DualTimestamp) : DualTimestamp :=
  mkTs (default (ts_origin_ns fallback) (map_i64 p "ts_origin")) (default (ts_ingest_ns fallback) (map_i64 p "ts_ingest"))
    (default (mono_ns fallback) (map_u64 p "mono_ns")) (default (boot_id fallback) (map_uuid p "boot_id"))
    (default (node_id fallback) (map_uuid p "node_id"))
    (default (clock_offset_ms fallback) (map_i64 p "clock_offset_ms" ≫= try_from i32_min i32_max))
    (default (clock_quality fallback) (map_str p (lit "clock_quality") ≫= parse_clock_quality))
    (default (drift_ppm fallback) (map_f32 p "drift_ppm"))
    (default (clock_source fallback) (map_str p (lit "clock_source") ≫= parse_clock_source)).

Definition is_target_data (env : Envelope) (sid ch : Z) : bool :=
  bool_decide (env_kind env = Data) && bool_decide (env_sid env = Some (uuid_str sid)) && bool_decide (env_ch env = Some ch).
Definition remote_write_envelope (seq : Z) (t : RemoteTarget) (body : list Z) (write_target : option (list Z)) : Envelope :=
  with_ch (with_sid (envelope_new Write seq (MMap ([mkey "body" (MBin body)] ++ opt_field "target" MStr write_target)))
    (uuid_str (remote_sid t))) (remote_ch t).

(** ** The task *)
Inductive MirrorError :=
| EncodeFailed (e : WireError) | SendFailed | RecvFailed | DecodeFailed (e : WireError) | CtlError (message : list Z)
| SinkFailed (e : ErrorId).

(** A request is its number; its answer goes to [m_acks]. *)
Record MirrorState (L Tx : Type) := mkMirror {
  m_sink : L; m_ingest : Ingest.Ingest Tx; m_stats : RunnerStats; next_write_seq : Z; pending : gmap Z nat;
  m_acks : list (nat * write_end); m_sent : list (list Z) }.
Arguments mkMirror {L Tx}. Arguments m_sink {L Tx}. Arguments m_ingest {L Tx}. Arguments m_stats {L Tx}.
Arguments next_write_seq {L Tx}. Arguments pending {L Tx}. Arguments m_acks {L Tx}. Arguments m_sent {L Tx}.

(** What the [select!] takes: a write request (and whether the socket takes
    the frame), the end of the requests, or what the socket gives. *)
Inductive MirrorEvent :=
| EvWrite (req : nat) (w : RemoteWriteRequest) (socket_ok : bool)
| EvWritersGone
| EvMessage (bytes : list Z)
| EvClose
| EvOther
| EvError
| EvEnd.
Inductive MirrorOutcome := Go | Stop | Failed (e : MirrorError) | Panicked.

  Context {L Tx : Type} `{!LogSink L}.
  Context (to_vec_named : Envelope -> option (list Z)) (from_slice : list Z -> option Envelope)
    (send : Tx -> list Z -> Tx * option Z).
  (** The clock at the [n]-th data frame. *)
  Context (stamp_origin : Z -> DualTimestamp) (stamp_ingest : Z -> DualTimestamp -> DualTimestamp).
  Context (t : RemoteTarget) (local_sid : Z).

Definition set_writes (st : MirrorState L Tx) (seq : Z) (p : gmap Z nat) (acks : list (nat * write_end)) (sent : list (list Z))
  : MirrorState L Tx :=
  mkMirror (m_sink st) (m_ingest st) (m_stats st) seq p (m_acks st ++ acks) (m_sent st ++ sent).
Definition with_pending (st : MirrorState L Tx) (p : gmap Z nat) (acks : list (nat * write_end)) : MirrorState L Tx :=
  set_writes st (next_write_seq st) p acks [].

(** Every pending request gets the same end. *)
Definition end_pending (st : MirrorState L Tx) (e : write_end) : MirrorState L Tx :=
  with_pending st ∅ (map (fun p => (snd p, e)) (map_to_list (pending st))).
Definition fail_pending (st : MirrorState L Tx) (message : list Z) : MirrorState L Tx := end_pending st (Refused message).

Definition resolve_write_ack (st : MirrorState L Tx) (env : Envelope) : MirrorState L Tx :=
  match pending st !! env_seq env with
  | None => st
  | Some r =>
      match payload_str (env_payload env) "event" with
      | Some ev =>
          if str_eqb ev (lit "write_ack") then with_pending st (delete (env_seq env) (pending st)) [(r, Acked)]
          else if str_eqb ev (lit "error") then
            with_pending st (delete (env_seq env) (pending st))
              [(r, Refused (default (lit "remote write failed") (payload_str (env_payload env) "message")))]
          else st
      | None => st
      end
  end.
Definition ctl_failure (env : Envelope) : option MirrorError :=
  match payload_str (env_payload env) "event" with
  | Some ev =>
      if str_eqb ev (lit "error")
      then Some (CtlError (default (lit "remote mirror failed") (payload_str (env_payload env) "message"))) else None
  | None => None
  end.

Definition source_label : list Z :=
  lit "remote:" ++ sanitized_ws_url (r_url t) ++ lit ":" ++ show_nat (remote_ch t).

Definition with_sink (st : MirrorState L Tx) (l : L) (s : RunnerStats) : MirrorState L Tx :=
  mkMirror l (m_ingest st) s (next_write_seq st) (pending st) (m_acks st) (m_sent st).
Definition with_ingest (st : MirrorState L Tx) (g : Ingest.Ingest Tx) : MirrorState L Tx :=
  mkMirror (m_sink st) g (m_stats st) (next_write_seq st) (pending st) (m_acks st) (m_sent st).

(** A data frame of the mirrored session: counted, stamped, logged, republished. *)
Definition on_data (st : MirrorState L Tx) (payload : MValue) (body : list Z) : MirrorState L Tx * MirrorOutcome :=
  match @checked ErrorId 0 u64_max (raw_frames (m_stats st) + 1) with
  | Ok n =>
      let s := mkRun (r_sid (m_stats st)) n (framed (m_stats st)) (decoded_records (m_stats st)) in
      let ts := stamp_ingest n (timestamp_from_payload payload (stamp_origin n)) in
      let '(l, r) := ls_append_raw (m_sink st) ts In body in
      let st1 := with_sink st l s in
      match r with
      | Ok _ =>
          match encode_data_envelope to_vec_named uuid_str local_sid 0 n ts body source_label with
          | Ok wire =>
              match Ingest.publish_wire Tx send (m_ingest st1) local_sid wire with
              | Ok (g, _) => (with_ingest st1 g, Go)
              | _ => (st1, Panicked)
              end
          | Err e => (st1, Failed (EncodeFailed e))
          | Panic => (st1, Panicked)
          end
      | Err e => (st1, Failed (SinkFailed e))
      | Panic => (st1, Panicked)
      end
  | _ => (st, Panicked)
  end.

Definition on_envelope (st : MirrorState L Tx) (env : Envelope) : MirrorState L Tx * MirrorOutcome :=
  if bool_decide (env_kind env = Ctl) then
    (resolve_write_ack st env, match ctl_failure env with Some e => Failed e | None => Go end)
  else if is_target_data env (remote_sid t) (remote_ch t) then
    match map_binary (env_payload env) "body" with
    | Some body => on_data st (env_payload env) body
    | None => (st, Go)
    end
  else (st, Go).

Definition on_write (st : MirrorState L Tx) (req : nat) (w : RemoteWriteRequest) (socket_ok : bool)
  : MirrorState L Tx * MirrorOutcome :=
  let seq := next_write_seq st in
  let next := sat_add 0 u64_max seq 1 in
  match encode to_vec_named (remote_write_envelope seq t (w_body w) (w_target w)) with
  | Ok bytes =>
      if socket_ok then
        (set_writes st next (<[seq := req]> (pending st))
           match pending st !! seq with Some old => [(old, AckDropped)] | None => [] end [bytes], Go)
      else (set_writes st next (pending st) [(req, AckDropped)] [], Failed SendFailed)
  | Err e => (set_writes st next (pending st) [(req, AckDropped)] [], Failed (EncodeFailed e))
  | Panic => (st, Panicked)
  end.

Definition mirror_step (st : MirrorState L Tx) (ev : MirrorEvent) : MirrorState L Tx * MirrorOutcome :=
  match ev with
  | EvWrite req w ok => on_write st req w ok
  | EvWritersGone | EvOther => (st, Go)
  | EvMessage bytes =>
      match decode from_slice bytes with
      | Ok env => on_envelope st env
      | Err e => (st, Failed (DecodeFailed e))
      | Panic => (st, Panicked)
      end
  | EvClose | EvEnd => (fail_pending st (lit "remote websocket closed"), Stop)
  | EvError => (st, Failed RecvFailed)
  end.

(** After the loop: a regular end commits and closes the log; an error drops
    the requests that are pending, and the log with it. *)
Definition mirror_finish (st : MirrorState L Tx) (o : MirrorOutcome) : MirrorState L Tx * res MirrorError RunnerStats :=
  match o with
  | Stop =>
      let '(l1, r1) := ls_commit (m_sink st) in
      match r1 with
      | Ok _ =>
          let '(l2, r2) := ls_close l1 in
          (with_sink st l2 (m_stats st), let* _ := map_err SinkFailed r2 in Ok (m_stats st))
      | Err e => (with_sink st l1 (m_stats st), Err (SinkFailed e))
      | Panic => (with_sink st l1 (m_stats st), Panic)
      end
  | Failed e => (end_pending st AckDropped, Err e)
  | Go | Panicked => (end_pending st AckDropped, Panic)
  end.

(** A run over the events so far; no result while the task goes on. *)
Fixpoint mirror_loop (st : MirrorState L Tx) (evs : list MirrorEvent)
  : MirrorState L Tx * option (res MirrorError RunnerStats) :=
  match evs with
  | [] => (st, None)
  | ev :: evs' =>
      match mirror_step st ev with
      | (st', Go) => mirror_loop st' evs'
      | (st', o) => let '(st2, r) := mirror_finish st' o in (st2, Some r)
      end
  end.
Definition sub_envelope : Envelope :=
  with_ch (with_sid (envelope_new Sub 1 (MMap [])) (uuid_str (remote_sid t))) (remote_ch t).
(** [run], once the socket is connected. *)
Definition mirror_run (sink : L) (g : Ingest.Ingest Tx) (evs : list MirrorEvent)
  : MirrorState L Tx * option (res MirrorError RunnerStats) :=
  let st := mkMirror sink g (mkRun local_sid 0 0 0) 2 ∅ [] [] in
  match encode to_vec_named sub_envelope with
  | Ok bytes => mirror_loop (set_writes st 2 ∅ [] [bytes]) evs
  | Err e => (st, Some (Err (EncodeFailed e)))
  | Panic => (st, Some Panic)
  end.

(** ** What a run took *)
Definition goes_on (o : MirrorOutcome) : bool := match o with Go => true | _ => false end.
(** The events a run took: all of them, or up to the one that ended it. *)
Fixpoint taken (st : MirrorState L Tx) (evs : list MirrorEvent) : list MirrorEvent :=
  match evs with
  | [] => []
  | ev :: evs' => let '(st', o) := mirror_step st ev in ev :: (if goes_on o then taken st' evs' else [])
  end.

Definition request_of (ev : MirrorEvent) : list nat := match ev with EvWrite r _ _ => [r] | _ => [] end.
Definition open_requests (st : MirrorState L Tx) : list nat := map snd (map_to_list (pending st)).
Definition answered_requests (st : MirrorState L Tx) : list nat := map fst (m_acks st).

Lemma requests_set st seq p acks sent :
  answered_requests (set_writes st seq p acks sent) = answered_requests st ++ map fst acks.
Proof. unfold answered_requests. cbn. by rewrite map_app. Qed.

Lemma open_insert (p : gmap Z nat) k r :
  map snd (map_to_list (<[k := r]> p)) ++ match p !! k with Some old => [old] | None => [] end ≡ₚ
  r :: map snd (map_to_list p).
Proof.
  destruct (p !! k) as [old|] eqn:E.
  - assert (Hq : delete k p !! k = None) by apply lookup_delete_eq. rewrite <- (insert_delete_id p k old E).
    revert Hq. generalize (delete k p). intros q Hq. rewrite insert_insert_eq, !map_to_list_insert by done. cbn.
    apply perm_skip. symmetry. apply Permutation_cons_append.
  - rewrite map_to_list_insert by done. by rewrite app_nil_r.
Qed.
Lemma open_delete (p : gmap Z nat) k r : p !! k = Some r ->
  map snd (map_to_list p) ≡ₚ r :: map snd (map_to_list (delete k p)).
Proof. intros E. rewrite <- (insert_delete_id p k r E) at 1. by rewrite map_to_list_insert by apply lookup_delete_eq. Qed.

Lemma encode_no_panic env : encode to_vec_named env <> Panic.
Proof. unfold encode. by repeat case_match. Qed.

Lemma step_requests st ev st' o : mirror_step st ev = (st', o) ->
  answered_requests st' ++ open_requests st' ≡ₚ answered_requests st ++ open_requests st ++ request_of ev.
Proof.
  intros H. destruct ev as [req w ok| |bytes| | | |]; cbn [mirror_step request_of] in *; rewrite ?app_nil_r.
  - unfold on_write in H. cbv zeta in H. destruct (encode _ _) as [b|e|] eqn:He; [destruct ok|..|by apply encode_no_panic in He]; simplify_eq.
    + rewrite requests_set, <- (assoc_L (++)). apply Permutation_app_head. unfold open_requests. cbn [set_writes pending].
      pose proof (open_insert (pending st) (next_write_seq st) req) as Hi.
      rewrite <- (Permutation_cons_append (map snd (map_to_list (pending st)))). rewrite <- Hi, Permutation_app_comm.
      apply Permutation_app_head. by destruct (pending st !! next_write_seq st).
    + rewrite requests_set, <- (assoc_L (++)). cbn. apply Permutation_app_head. apply Permutation_cons_append.
    + rewrite requests_set, <- (assoc_L (++)). cbn. apply Permutation_app_head. apply Permutation_cons_append.
  - by simplify_eq.
  - destruct (decode from_slice bytes) as [env|e|]; [|by simplify_eq..]. unfold on_envelope in H.
    destruct (bool_decide (env_kind env = Ctl)).
    + injection H as <- <-. unfold resolve_write_ack. destruct (pending st !! env_seq env) as [r|] eqn:E; [|done].
      assert (Hr : forall e, answered_requests (with_pending st (delete (env_seq env) (pending st)) [(r, e)]) ++
        open_requests (with_pending st (delete (env_seq env) (pending st)) [(r, e)]) ≡ₚ answered_requests st ++ open_requests st).
      { intros e. unfold with_pending. rewrite requests_set, <- (assoc_L (++)). apply Permutation_app_head.
        unfold open_requests. cbn [set_writes pending]. by rewrite (open_delete _ _ _ E). }
      destruct (payload_str _ _) as [ev|]; [|done]. destruct (str_eqb ev (lit "write_ack")); [apply Hr|].
      destruct (str_eqb ev (lit "error")); [apply Hr|done].
    + destruct (is_target_data _ _ _); [|by simplify_eq]. destruct (map_binary _ _) as [body|]; [|by simplify_eq].
      unfold on_data in H. destruct (checked _ _ _); [|by simplify_eq..]. destruct (ls_append_raw _ _ _ _) as [l r].
      destruct r; [|by simplify_eq..]. destruct (encode_data_envelope _ _ _ _ _ _ _ _); [|by simplify_eq..].
      destruct (Ingest.publish_wire _ _ _ _ _) as [[g d]|e|]; by simplify_eq.
  - injection H as <- <-. unfold fail_pending, end_pending, with_pending. rewrite requests_set, <- (assoc_L (++)).
    apply Permutation_app_head. unfold open_requests. cbn [set_writes pending]. rewrite map_to_list_empty, app_nil_r, map_map.
    done.
  - by simplify_eq.
  - by simplify_eq.
  - injection H as <- <-. unfold fail_pending, end_pending, with_pending. rewrite requests_set, <- (assoc_L (++)).
    apply Permutation_app_head. unfold open_requests. cbn [set_writes pending]. rewrite map_to_list_empty, app_nil_r, map_map.
    done.
Qed.

Lemma finish_requests st o st' r : mirror_finish st o = (st', r) -> o <> Go -> (o = Stop -> pending st = ∅) ->
  answered_requests st' ≡ₚ answered_requests st ++ open_requests st.
Proof.
  intros H Ho Hs.
  assert (He : answered_requests (end_pending st AckDropped) ≡ₚ answered_requests st ++ open_requests st).
  { unfold end_pending, with_pending. rewrite requests_set, map_map. done. }
  destruct o; cbn [mirror_finish] in H; [done| |by simplify_eq..].
  unfold open_requests. rewrite (Hs eq_refl), map_to_list_empty, app_nil_r.
  destruct (ls_commit _) as [l1 [u|e|]]; [destruct (ls_close l1) as [l2 r2]|..]; by simplify_eq.
Qed.
Lemma step_stop st ev st' : mirror_step st ev = (st', Stop) -> pending st' = ∅.
Proof.
  destruct ev as [req w ok| |bytes| | | |]; cbn [mirror_step]; try (by intros [= <-]).
  - unfold on_write. cbv zeta. destruct (encode _ _) as [b|e|]; [destruct ok|..]; by intros.
  - destruct (decode from_slice bytes) as [env|e|]; [|by intros..]. unfold on_envelope.
    destruct (bool_decide _); [by destruct (ctl_failure env); intros|].
    destruct (is_target_data _ _ _); [|by intros]. destruct (map_binary _ _) as [body|]; [|by intros].
    unfold on_data. destruct (checked _ _ _); [|by intros..]. destruct (ls_append_raw _ _ _ _) as [l r].
    destruct r; [|by intros..]. destruct (encode_data_envelope _ _ _ _ _ _ _ _); [|by intros..].
    destruct (Ingest.publish_wire _ _ _ _ _) as [[g d]|e|]; by intros.
Qed.

Lemma loop_requests evs : forall st st' r, mirror_loop st evs = (st', Some r) ->
  answered_requests st' ≡ₚ answered_requests st ++ open_requests st ++ concat (map request_of (taken st evs)).
Proof.
  induction evs as [|ev evs IH]; intros st st' r H; [done|]. cbn [mirror_loop taken] in H |- *.
  destruct (mirror_step st ev) as [st1 o] eqn:Hs. pose proof (step_requests _ _ _ _ Hs) as Hr.
  assert (Hend : o <> Go -> (let '(st2, r0) := mirror_finish st1 o in (st2, Some r0)) = (st', Some r) ->
    answered_requests st' ≡ₚ answered_requests st ++ open_requests st ++ request_of ev).
  { intros Ho Hf. destruct (mirror_finish st1 o) as [st2 r0] eqn:E. simplify_eq. rewrite <- Hr.
    eapply finish_requests; [exact E|done|]. intros ->. by eapply step_stop. }
  destruct o; cbn [goes_on map concat]; rewrite ?app_nil_r; [|by apply Hend..].
  apply IH in H. rewrite H, (assoc_L (++)), Hr. by rewrite <- !(assoc_L (++)).
Qed.

(** The events after which a task does not go on. *)
Definition final (ev : MirrorEvent) : bool := match ev with EvClose | EvEnd | EvError => true | _ => false end.
Lemma loop_ends evs : existsb final evs = true -> forall st, exists st' r, mirror_loop st evs = (st', Some r).
Proof.
  induction evs as [|ev evs IH]; [done|]. cbn [existsb mirror_loop]. intros H st.
  destruct (mirror_step st ev) as [st1 o] eqn:Hs. destruct o.
  1: { apply orb_true_iff in H as [H|H]; [|by apply IH]. by destruct ev. }
  all: destruct (mirror_finish st1 _) as [st2 r]; eauto.
Qed.
Lemma finish_none_pending st o st' r : mirror_finish st o = (st', r) -> (o = Stop -> pending st = ∅) -> pending st' = ∅.
Proof.
  intros H Hs. destruct o; cbn [mirror_finish] in H; [by simplify_eq| |by simplify_eq..].
  destruct (ls_commit _) as [l1 [u|e|]]; [destruct (ls_close l1) as [l2 r2]|..]; simplify_eq; by apply Hs.
Qed.
Lemma loop_none_pending evs : forall st st' r, mirror_loop st evs = (st', Some r) -> pending st' = ∅.
Proof.
  induction evs as [|ev evs IH]; intros st st' r H; [done|]. cbn [mirror_loop] in H.
  destruct (mirror_step st ev) as [st1 o] eqn:Hs. destruct o; [by eapply IH|..];
    (destruct (mirror_finish st1 _) as [st2 r0] eqn:E; simplify_eq; eapply finish_none_pending; [exact E|]);
    intros; simplify_eq; by eapply step_stop.
Qed.
Lemma taken_prefix evs : forall st, taken st evs `prefix_of` evs.
Proof.
  induction evs as [|ev evs IH]; intros st; [done|]. cbn [taken]. destruct (mirror_step st ev) as [st1 o].
  apply prefix_cons. destruct (goes_on o); [apply IH|apply prefix_nil].
Qed.


(** ** What is logged *)
Definition data_of (ev : MirrorEvent) : list (MValue * list Z) :=
  match ev with
  | EvMessage bytes =>
      match decode from_slice bytes with
      | Ok env =>
          if bool_decide (env_kind env = Ctl) then [] else
          if is_target_data env (remote_sid t) (remote_ch t)
          then match map_binary (env_payload env) "body" with Some b => [(env_payload env, b)] | None => [] end
          else []
      | _ => []
      end
  | _ => []
  end.
(** The [append_raw] calls for data frames, the first of them numbered [n]. *)
Fixpoint stamped (n : Z) (ds : list (MValue * list Z)) : list sink_call :=
  match ds with
  | [] => []
  | (p, b) :: ds' => CRaw (stamp_ingest n (timestamp_from_payload p (stamp_origin n))) In b :: stamped (n + 1) ds'
  end.
Lemma stamped_app n a b : stamped n (a ++ b) = stamped n a ++ stamped (n + zlen a) b.
Proof.
  revert n. induction a as [|[p x] a IH]; intros n; [cbn; by rewrite zlen_nil, Z.add_0_r|].
  cbn. rewrite IH, zlen_cons. do 2 f_equal. f_equal. lia.
Qed.
End Mirror.
Arguments mkMirror {L Tx}. Arguments m_sink {L Tx}. Arguments m_ingest {L Tx}. Arguments m_stats {L Tx}.
Arguments next_write_seq {L Tx}. Arguments pending {L Tx}. Arguments m_acks {L Tx}. Arguments m_sent {L Tx}.

(** ** The mirror's log *)
Section MirrorLog.
  Context (parse_uuid : list Z -> option Z) (uuid_str : Z -> list Z) (f64_as_f32 : Z -> Z).
  Context {L Tx : Type} `{!LogSink L} (to_vec_named : Envelope -> option (list Z)) (from_slice : list Z -> option Envelope)
    (send : Tx -> list Z -> Tx * option Z) (stamp_origin : Z -> DualTimestamp)
    (stamp_ingest : Z -> DualTimestamp -> DualTimestamp) (t : RemoteTarget) (local_sid : Z).
  Abbreviation St := (MirrorState (Traced L) Tx).
  Abbreviation step := (mirror_step parse_uuid uuid_str f64_as_f32 (L := Traced L) to_vec_named from_slice send stamp_origin stamp_ingest t local_sid).
  Abbreviation loop := (mirror_loop parse_uuid uuid_str f64_as_f32 (L := Traced L) to_vec_named from_slice send stamp_origin stamp_ingest t local_sid).
  Abbreviation frames := (data_of uuid_str from_slice t).
  Abbreviation calls := (stamped parse_uuid f64_as_f32 stamp_origin stamp_ingest).

Definition is_raw (c : sink_call) : bool := match c with CRaw _ _ _ => true | _ => false end.
Definition raw_calls (cs : list sink_call) : list sink_call := List.filter is_raw cs.
Lemma raw_calls_app a b : raw_calls (a ++ b) = raw_calls a ++ raw_calls b.
Proof. apply List.filter_app. Qed.
Lemma raw_calls_stamped n ds : raw_calls (calls n ds) = calls n ds.
Proof. revert n. induction ds as [|[p b] ds IH]; intros n; [done|]. cbn. f_equal. apply IH. Qed.

Lemma data_of_len ev : 0 <= zlen (frames ev) <= 1.
Proof.
  assert (H0 : 0 <= zlen (@nil (MValue * list Z)) <= 1) by (unfold zlen; cbn; lia).
  unfold data_of. destruct ev as [r w o| |bytes| | | |]; [done|done| |done..]. destruct (decode from_slice bytes); [|done..].
  destruct (bool_decide _); [done|]. destruct (is_target_data _ _ _ _); [|done]. destruct (map_binary _ _); [|done].
  unfold zlen. cbn. lia.
Qed.

Lemma on_data_logs (st : St) p b st' o :
  0 <= raw_frames (m_stats st) < u64_max ->
  on_data parse_uuid uuid_str f64_as_f32 (L := Traced L) to_vec_named send stamp_origin stamp_ingest t local_sid st p b = (st', o) ->
  sink_calls (m_sink st') = sink_calls (m_sink st) ++ calls (raw_frames (m_stats st) + 1) [(p, b)] /\
  raw_frames (m_stats st') = raw_frames (m_stats st) + 1.
Proof.
  intros Hn. unfold on_data. rewrite checked_ok by lia. cbn [ls_append_raw Traced_sink trace_call].
  destruct (snd _) as [u|e|]; [|by intros [= <- <-]..].
  destruct (encode_data_envelope _ _ _ _ _ _ _ _) as [w|e|]; [|by intros [= <- <-]..].
  destruct (Ingest.publish_wire _ _ _ _ _) as [[g d]|e|]; by intros [= <- <-].
Qed.

Lemma step_logs (st : St) ev st' o : 0 <= raw_frames (m_stats st) < u64_max -> step st ev = (st', o) ->
  sink_calls (m_sink st') = sink_calls (m_sink st) ++ calls (raw_frames (m_stats st) + 1) (frames ev) /\
  raw_frames (m_stats st') = raw_frames (m_stats st) + zlen (frames ev).
Proof.
  intros Hn. assert (Hsame : forall st1 : St, m_sink st1 = m_sink st -> m_stats st1 = m_stats st ->
    sink_calls (m_sink st1) = sink_calls (m_sink st) ++ calls (raw_frames (m_stats st) + 1) [] /\
    raw_frames (m_stats st1) = raw_frames (m_stats st) + zlen (@nil (MValue * list Z))).
  { intros st1 -> ->. cbn [stamped]. rewrite app_nil_r, zlen_nil. split; [done|lia]. }
  destruct ev as [req w ok| |bytes| | | |]; cbn [mirror_step data_of].
  - unfold on_write. cbv zeta. destruct (encode _ _) as [b|e|]; [destruct ok|..]; intros [= <- <-]; by apply Hsame.
  - intros [= <- <-]. by apply Hsame.
  - destruct (decode from_slice bytes) as [env|e|]; [|intros [= <- <-]; by apply Hsame..]. unfold on_envelope.
    destruct (bool_decide (env_kind env = Ctl)).
    + intros [= <- <-]. apply Hsame; unfold resolve_write_ack; by repeat case_match.
    + destruct (is_target_data _ _ _ _); [|intros [= <- <-]; by apply Hsame].
      destruct (map_binary _ _) as [b|]; [|intros [= <- <-]; by apply Hsame]. by apply on_data_logs.
  - intros [= <- <-]. by apply Hsame.
  - intros [= <- <-]. by apply Hsame.
  - intros [= <- <-]. by apply Hsame.
  - intros [= <- <-]. by apply Hsame.
Qed.

Lemma finish_logs (st : St) o st' r : mirror_finish st o = (st', r) ->
  raw_calls (sink_calls (m_sink st')) = raw_calls (sink_calls (m_sink st)).
Proof.
  destruct o; cbn [mirror_finish]; [by intros [= <- <-]| |by intros [= <- <-]..].
  cbn [ls_commit ls_close Traced_sink trace_call]. unfold trace_call.
  destruct (ls_commit (traced (m_sink st))) as [l1 [u|e|]]; cbn [fst snd].
  - destruct (ls_close _) as [l2 r2]. cbn [fst snd]. intros [= <- <-]. cbn. rewrite !raw_calls_app. cbn. by rewrite !app_nil_r.
  - intros [= <- <-]. cbn. rewrite raw_calls_app. cbn. by rewrite app_nil_r.
  - intros [= <- <-]. cbn. rewrite raw_calls_app. cbn. by rewrite app_nil_r.
Qed.

Lemma loop_logs evs : forall (st st' : St) r, 0 <= raw_frames (m_stats st) -> raw_frames (m_stats st) + zlen evs <= u64_max ->
  loop st evs = (st', r) -> exists evs', evs' `prefix_of` evs /\ (r = None -> evs' = evs) /\
    raw_calls (sink_calls (m_sink st')) =
    raw_calls (sink_calls (m_sink st)) ++ calls (raw_frames (m_stats st) + 1) (concat (map frames evs')).
Proof.
  induction evs as [|ev evs IH]; intros st st' r H0 Hn H.
  - cbn in H. simplify_eq. exists []. split; [done|]. split; [done|]. cbn. by rewrite app_nil_r.
  - rewrite zlen_cons in Hn. pose proof (zlen_nonneg evs). cbn [mirror_loop] in H.
    destruct (step st ev) as [st1 o] eqn:Hs. destruct (step_logs st ev st1 o) as [Hc Hr]; [lia|done|].
    pose proof (data_of_len ev).
    assert (Hend : (let '(st2, r0) := mirror_finish st1 o in (st2, Some r0)) = (st', r) -> exists evs',
      evs' `prefix_of` ev :: evs /\ (r = None -> evs' = ev :: evs) /\ raw_calls (sink_calls (m_sink st')) =
      raw_calls (sink_calls (m_sink st)) ++ calls (raw_frames (m_stats st) + 1) (concat (map frames evs'))).
    { intros Hf. destruct (mirror_finish st1 o) as [st2 r0] eqn:E. simplify_eq. exists [ev].
      split; [apply prefix_cons, prefix_nil|]. split; [done|]. cbn [map concat]. rewrite app_nil_r.
      by rewrite (finish_logs _ _ _ _ E), Hc, raw_calls_app, raw_calls_stamped. }
    destruct o; [|by apply Hend..].
    destruct (IH st1 st' r) as (evs' & Hp & Hnone & Hraw); [lia|lia|done|].
    exists (ev :: evs'). split; [by apply prefix_cons|]. split; [intros Hr'; by rewrite (Hnone Hr')|].
    rewrite Hraw, Hc, Hr, raw_calls_app, raw_calls_stamped. cbn [map concat]. rewrite stamped_app, <- (assoc_L (++)).
    do 3 f_equal. lia.
Qed.

(** ** What an edge sends is what is logged *)
Definition uuid_ok (u : Z) : Prop := 0 <= u < 2 ^ 128.
Definition ts_ok (ts : DualTimestamp) : Prop :=
  i64_min <= ts_origin_ns ts <= i64_max /\ i64_min <= ts_ingest_ns ts <= i64_max /\ 0 <= mono_ns ts <= u64_max /\
  i32_min <= clock_offset_ms ts <= i32_max /\ uuid_ok (boot_id ts) /\ uuid_ok (node_id ts).

(** A data envelope as the edge's runner sends it. *)
Definition edge_frame (ev : MirrorEvent) (ts : DualTimestamp) (body : list Z) : Prop :=
  exists bytes seq label kind, ev = EvMessage bytes /\ ts_ok ts /\
    decode from_slice bytes = Ok (data_envelope uuid_str (remote_sid t) (remote_ch t) seq ts body label kind).
(** What one event carries of the mirrored session. *)
Definition carries (ev : MirrorEvent) (fs : list (DualTimestamp * list Z)) : Prop :=
  match fs with
  | [] => frames ev = []
  | [(ts, body)] => edge_frame ev ts body
  | _ => False
  end.
Fixpoint edge_calls (n : Z) (fs : list (DualTimestamp * list Z)) : list sink_call :=
  match fs with
  | [] => []
  | (ts, body) :: fs' => CRaw (stamp_ingest n ts) In body :: edge_calls (n + 1) fs'
  end.

  Hypothesis uuid_round : forall u, uuid_ok u -> parse_uuid (uuid_str u) = Some u.

Ltac payload_field := unfold value_get; cbn [env_payload data_envelope with_ch with_sid envelope_new]; fields.

Lemma edge_timestamp sid ch seq ts body label kind fallback : ts_ok ts ->
  timestamp_from_payload parse_uuid f64_as_f32 (env_payload (data_envelope uuid_str sid ch seq ts body label kind)) fallback = ts.
Proof.
  intros (H1 & H2 & H3 & H4 & H5 & H6). unfold timestamp_from_payload, map_i64, map_u64, map_uuid, map_f32, map_str.
  payload_field. cbn [mbind option_bind v_as_str v_as_u64].
  rewrite (proj2 (try_from_Some i64_min i64_max _ _)) by done.
  rewrite (proj2 (try_from_Some i64_min i64_max (ts_ingest_ns ts) _)) by done.
  rewrite (proj2 (try_from_Some 0 u64_max _ _)) by done.
  rewrite (proj2 (try_from_Some i64_min i64_max (clock_offset_ms ts) _)) by (split; [done|]; unfold i64_min, i64_max, i32_min, i32_max in *; lia).
  cbn [mbind option_bind]. rewrite (proj2 (try_from_Some i32_min i32_max _ _)) by done.
  rewrite !uuid_round by done. destruct ts as [o i m b n c q d s]. cbn. destruct q, s; reflexivity.
Qed.
Lemma edge_frames ev ts body : edge_frame ev ts body ->
  exists p, frames ev = [(p, body)] /\ forall fb, timestamp_from_payload parse_uuid f64_as_f32 p fb = ts.
Proof.
  intros (bytes & seq & label & kind & -> & Hts & Hd).
  exists (env_payload (data_envelope uuid_str (remote_sid t) (remote_ch t) seq ts body label kind)). split; [|intros fb; by apply edge_timestamp].
  unfold data_of. rewrite Hd. rewrite bool_decide_false by done. unfold is_target_data. rewrite !bool_decide_true by done.
  cbn [andb]. unfold map_binary. payload_field. reflexivity.
Qed.
Lemma edge_calls_stamped evs fss : Forall2 carries evs fss -> forall n,
  calls n (concat (map frames evs)) = edge_calls n (concat fss).
Proof.
  induction 1 as [|ev fs evs fss Hc _ IH]; intros n; [done|]. cbn [map concat]. destruct fs as [|[ts body] [|]]; [| |done].
  - cbn in Hc. rewrite Hc. apply IH.
  - destruct (edge_frames ev ts body Hc) as (p & -> & Hp). cbn. by rewrite Hp, IH.
Qed.

End MirrorLog.

(** ** Writes through the mirror, with the edge's connection *)
Section Proxy.
  Context (parse_uuid : list Z -> option Z) (uuid_str : Z -> list Z) (f64_as_f32 : Z -> Z).
  Context {L Tx M : Type} `{!LogSink L} `{!SourceApi M} (to_vec_named : Envelope -> option (list Z))
    (from_slice : list Z -> option Envelope) (send : Tx -> list Z -> Tx * option Z) (stamp_origin : Z -> DualTimestamp)
    (stamp_ingest : Z -> DualTimestamp -> DualTimestamp) (t : RemoteTarget) (local_sid : Z).
  Abbreviation step := (mirror_step parse_uuid uuid_str f64_as_f32 (L := L) (Tx := Tx) to_vec_named from_slice send stamp_origin stamp_ingest t local_sid).
  (** MessagePack reads back what it wrote, and so do UUIDs. *)
  Hypothesis codec : forall e b, to_vec_named e = Some b -> from_slice b = Some e.
  Hypothesis uuid_round : forall u, uuid_ok u -> parse_uuid (uuid_str u) = Some u.

Lemma decode_encode e b : encode to_vec_named e = Ok b -> decode from_slice b = Ok e.
Proof.
  unfold encode, decode. destruct (to_vec_named e) as [b'|] eqn:E; [|done].
  destruct (MAX_FRAME_BYTES <? zlen b') eqn:El; [done|]. intros [= ->]. by rewrite El, (codec _ _ E).
Qed.

(** What the edge does with the frame of a proxied write. *)
Lemma edge_handles_write (m : M) seq body target ts peer : uuid_ok (remote_sid t) ->
  handle_write uuid_str parse_uuid m (remote_write_envelope uuid_str seq t body target) ts peer =
  let tgt := uuid_str (remote_sid t) ++ lit "/ch" ++ show_nat (remote_ch t) in
  match api_write m (remote_sid t) (remote_ch t) body target with
  | (m', inr n) => (m', write_ack uuid_str seq (remote_sid t) (remote_ch t) n,
      audit_write ts peer tgt AuOk (seq_detail seq "bytes_written" (VNumber (show_nat n))))
  | (m', inl e) => (m', ctl_error_with_sid uuid_str seq (lit "write failed: " ++ any_display e) (anyhow_error_id e) (remote_sid t),
      audit_write ts peer tgt AuError (seq_detail seq "error" (VString (any_display e))))
  end.
Proof.
  intros Hu. unfold handle_write, parse_write_sid. cbn [env_sid remote_write_envelope with_ch with_sid envelope_new].
  rewrite (uuid_round _ Hu). cbn [sum_or env_ch default from_option env_payload env_seq].
  unfold map_str, value_get. fields.
  replace (Wire.map_get (lit "target") (opt_field "target" MStr target) ≫= v_as_str) with target.
  2:{ destruct target; [|done]. cbn [opt_field]. rewrite map_get_mkey. reflexivity. }
  reflexivity.
Qed.

Lemma error_message seq msg e s :
  payload_str (env_payload (ctl_error_with_sid uuid_str seq msg e s)) "event" = Some (lit "error") /\
  payload_str (env_payload (ctl_error_with_sid uuid_str seq msg e s)) "message" = Some msg.
Proof. done. Qed.

(** Finding: a write through the mirror is the edge's write: the edge writes exactly
    that body to the mirrored session, channel and target; its acknowledgement
    answers that request with success; its error answers it with the edge's
    message and, with it, ends the mirror (Finding: one refused write stops
    mirroring, and the log is neither committed nor closed). *)
Theorem mirror_write_proxied (m : M) (st : MirrorState L Tx) req w bytes ts peer :
  uuid_ok (remote_sid t) ->
  encode to_vec_named (remote_write_envelope uuid_str (next_write_seq st) t (w_body w) (w_target w)) = Ok bytes ->
  let seq := next_write_seq st in
  let st1 := fst (step st (EvWrite req w true)) in
  snd (step st (EvWrite req w true)) = Go /\
  exists env, decode from_slice bytes = Ok env /\
  let '(m', r, a) := handle_write uuid_str parse_uuid m env ts peer in
  m' = fst (api_write m (remote_sid t) (remote_ch t) (w_body w) (w_target w)) /\
  forall reply, encode to_vec_named r = Ok reply ->
    step st1 (EvMessage reply) =
    match snd (api_write m (remote_sid t) (remote_ch t) (w_body w) (w_target w)) with
    | inr _ => (with_pending st1 (delete seq (pending st1)) [(req, Acked)], Go)
    | inl e =>
        let msg := lit "write failed: " ++ any_display e in
        (with_pending st1 (delete seq (pending st1)) [(req, Refused msg)], Failed (CtlError msg))
    end.
Proof.
  intros Hu He. cbv zeta. cbn [mirror_step]. unfold on_write. cbv zeta. rewrite He. cbn [fst snd]. split; [done|].
  eexists. split; [by apply decode_encode|]. rewrite edge_handles_write by done. cbv zeta.
  destruct (api_write _ _ _ _ _) as [m' [e|n]]; (split; [done|]); intros reply Hr; rewrite (decode_encode _ _ Hr);
    unfold on_envelope; rewrite bool_decide_true by done; unfold resolve_write_ack, ctl_failure.
  - change (env_seq (ctl_error_with_sid _ (next_write_seq st) _ _ _)) with (next_write_seq st).
    cbn [pending set_writes]. rewrite lookup_insert_eq.
    destruct (error_message (next_write_seq st) (lit "write failed: " ++ any_display e) (anyhow_error_id e) (remote_sid t)) as [-> ->].
    cbv beta iota. rewrite !str_eqb_lit. reflexivity.
  - change (env_seq (write_ack _ (next_write_seq st) _ _ _)) with (next_write_seq st).
    cbn [pending set_writes]. rewrite lookup_insert_eq.
    change (payload_str (env_payload (write_ack uuid_str (next_write_seq st) (remote_sid t) (remote_ch t) n)) "event") with (Some (lit "write_ack")).
    cbv beta iota. rewrite !str_eqb_lit. reflexivity.
Qed.
End Proxy.

(** ** Targets *)
Section Urls.
  Context (parse_uuid : list Z -> option Z) (uuid_str : Z -> list Z) (env_var : list Z -> option (list Z)).
  Context {R : Type} {SR : Secret.SecretResolver R} (keyring : R).
  (** A UUID is written with letters, digits and dashes, and read back. *)
  Hypothesis uuid_round : forall u, uuid_ok u -> parse_uuid (uuid_str u) = Some u.
  Hypothesis uuid_plain : forall u, Forall (fun c => unreserved c = true) (uuid_str u).

Lemma unreserved_ascii c : unreserved c = true -> 0 <= c < 128 /\ c <> 63 /\ c <> 35 /\ c <> 38 /\ c <> 61.
Proof.
  unfold unreserved, is_ascii_alphanumeric, is_digit, is_upper, is_lower, in_range. intros Hc.
  bprop; lia.
Qed.
Lemma pct_encode_plain s : Forall (fun c => unreserved c = true) s -> pct_encode s = s.
Proof.
  intros H. unfold pct_encode. rewrite utf8_ascii.
  - induction H as [|c s Hc _ IH]; [done|]. cbn. unfold pct_encode_byte at 1. rewrite Hc. cbn. by rewrite IH.
  - eapply Forall_impl; [exact H|]. intros c Hc. by apply unreserved_ascii.
Qed.
Lemma percent_decode_plain s : Forall (fun c => unreserved c = true) s -> percent_decode s = s.
Proof.
  intros H. rewrite <- (pct_encode_plain s H) at 1. apply pct_decode_encode.
  eapply Forall_impl; [exact H|]. intros c Hc. apply ascii_scalar. by apply unreserved_ascii.
Qed.

(** The URL of a mirror's target; the token, if any, is named by a variable of
    the environment. *)
Definition pieces (sid ch : Z) (var : option (list Z)) : list (list Z) :=
  (lit "sid" ++ 61 :: uuid_str sid) :: (lit "ch" ++ 61 :: show_nat ch) ::
  match var with Some v => [lit "token_env" ++ 61 :: v] | None => [] end.
Definition query_of (sid ch : Z) (var : option (list Z)) : list Z := join [38] (pieces sid ch var).
Definition url_of (base : list Z) (sid ch : Z) (var : option (list Z)) : list Z := base ++ [63] ++ query_of sid ch var.

Lemma find_pair_hit key value pairs : Forall (fun c => unreserved c = true) key -> Forall (fun c => unreserved c = true) value ->
  find_pair ((key ++ 61 :: value) :: pairs) key = Some value.
Proof.
  intros Hk Hv. cbn [find_pair]. rewrite (split_once_char 61 key value).
  - rewrite !percent_decode_plain by done. unfold str_eqb. by rewrite bool_decide_true.
  - eapply Forall_impl; [exact Hk|]. intros c Hc. apply unreserved_ascii in Hc. tauto.
Qed.
Lemma find_pair_miss name key value pairs : Forall (fun c => unreserved c = true) key -> key <> name ->
  find_pair ((key ++ 61 :: value) :: pairs) name = find_pair pairs name.
Proof.
  intros Hk Hn. cbn [find_pair]. rewrite (split_once_char 61 key value).
  - rewrite !percent_decode_plain by done. unfold str_eqb. by rewrite bool_decide_false.
  - eapply Forall_impl; [exact Hk|]. intros c Hc. apply unreserved_ascii in Hc. tauto.
Qed.
Definition plain (s : list Z) : Prop := Forall (fun c => unreserved c = true) s.
Lemma show_unreserved n : 0 <= n -> plain (show_nat n).
Proof.
  intros Hn. eapply Forall_impl; [by apply show_nat_digits|]. cbn. intros c Hc. unfold unreserved, is_ascii_alphanumeric.
  by rewrite Hc.
Qed.

Lemma lit_unreserved k : forallb unreserved (lit k) = true -> plain (lit k).
Proof.
  intros Hk. apply Forall_forall. intros c Hc. rewrite forallb_forall in Hk. apply Hk. by apply list_elem_of_In.
Qed.
(** They contain neither [&] nor [#]. *)
Lemma pieces_clean sid ch var : 0 <= ch -> match var with Some v => plain v | None => True end ->
  Forall (Forall (fun c => c <> 38 /\ c <> 35)) (pieces sid ch var).
Proof.
  intros Hch Hv. assert (Hp : forall k v, plain (lit k) -> plain v -> Forall (fun c => c <> 38 /\ c <> 35) (lit k ++ 61 :: v)).
  { intros k v Hk Hv'. apply Forall_app. split; [|apply Forall_cons; split; [done|]];
      (eapply Forall_impl; [eassumption|]); intros c Hc; apply unreserved_ascii in Hc; tauto. }
  unfold pieces. apply Forall_cons. split; [apply Hp; [apply lit_unreserved; reflexivity|apply uuid_plain]|].
  apply Forall_cons. split; [apply Hp; [apply lit_unreserved; reflexivity|by apply show_unreserved]|].
  destruct var as [v|]; [|constructor]. apply Forall_singleton, Hp; [apply lit_unreserved; reflexivity|done].
Qed.
Lemma join_clean sep P ws : P sep -> Forall (Forall P) ws -> Forall P (join [sep] ws).
Proof.
  intros Hs HF. induction HF as [|w ws Hw HF IH]; [constructor|]. destruct ws as [|w' ws]; [done|].
  change (join [sep] (w :: w' :: ws)) with (w ++ sep :: join [sep] (w' :: ws)).
  apply Forall_app. split; [done|]. by constructor.
Qed.
Lemma query_param_of base sid ch var name : 0 <= ch -> match var with Some v => plain v | None => True end ->
  Forall (fun c => c <> 63) base -> query_param (url_of base sid ch var) name = find_pair (pieces sid ch var) name.
Proof.
  intros Hch Hv Hb. unfold query_param, url_of. cbn [app]. rewrite split_once_char by done. cbn [mbind option_bind].
  pose proof (pieces_clean sid ch var Hch Hv) as Hp. unfold query_of.
  unfold before_char. rewrite (split_on_none 35).
  - cbn [head]. change (default [] (Some ?x)) with x. rewrite split_on_join; [done|done|]. eapply Forall_impl; [exact Hp|].
    intros w Hw. eapply Forall_impl; [exact Hw|]. by intros c [? _].
  - apply join_clean; [done|]. eapply Forall_impl; [exact Hp|].
    intros w Hw. eapply Forall_impl; [exact Hw|]. by intros c [_ ?].
Qed.

Lemma pieces_lookup sid ch var : 0 <= ch -> match var with Some v => plain v | None => True end ->
  find_pair (pieces sid ch var) (lit "sid") = Some (uuid_str sid) /\
  find_pair (pieces sid ch var) (lit "ch") = Some (show_nat ch) /\
  find_pair (pieces sid ch var) (lit "token_env") = var /\
  find_pair (pieces sid ch var) (lit "token_secret") = None.
Proof.
  intros Hch Hv. unfold pieces.
  assert (Hs : plain (lit "sid")) by by apply lit_unreserved. assert (Hc : plain (lit "ch")) by by apply lit_unreserved.
  assert (Ht : plain (lit "token_env")) by by apply lit_unreserved.
  split; [|split; [|split]].
  - by apply find_pair_hit.
  - rewrite (find_pair_miss (lit "ch") (lit "sid")) by done. apply find_pair_hit; [done|by apply show_unreserved].
  - rewrite (find_pair_miss (lit "token_env") (lit "sid")), (find_pair_miss (lit "token_env") (lit "ch")) by done.
    destruct var as [v|]; [|done]. by apply find_pair_hit.
  - rewrite (find_pair_miss (lit "token_secret") (lit "sid")), (find_pair_miss (lit "token_secret") (lit "ch")) by done.
    destruct var as [v|]; [|done]. by rewrite (find_pair_miss (lit "token_secret") (lit "token_env")).
Qed.

(** A mirror's URL names its target: the session, channel and token
    variable written into the query are read back, and what is shown of the
    target has nothing of the query in it. *)
Theorem remote_url_round_trip base sid ch var :
  uuid_ok sid -> 0 <= ch <= u32_max -> match var with Some v => plain v | None => True end ->
  Forall (fun c => c <> 63 /\ c <> 35) base ->
  let url := url_of base sid ch var in
  target_parse parse_uuid env_var keyring url =
    match var with
    | None => Ok (mkRemote url sid ch None)
    | Some v => match env_var v with Some tok => Ok (mkRemote url sid ch (Some tok)) | None => Err TokenEnv end
    end /\
  forall tok, display_target uuid_str (mkRemote url sid ch tok) = base ++ [47] ++ uuid_str sid.
Proof.
  intros Hu Hch Hv Hb. cbv zeta. split.
  - assert (Hb' : Forall (fun c => c <> 63) base) by (eapply Forall_impl; [exact Hb|]; by intros c [? _]).
    destruct (pieces_lookup sid ch var (proj1 Hch) Hv) as (H1 & H2 & H3 & H4).
    unfold target_parse, remote_token. rewrite !query_param_of, H1, H2, H3, H4 by (done || lia).
    cbn [ok_or mbind res_bind]. rewrite (uuid_round _ Hu). cbn [ok_or mbind res_bind].
    change (default (lit "0") (Some (show_nat ch))) with (show_nat ch). rewrite parse_show_nat by lia.
    destruct var as [v|]; [|done]. cbn. by destruct (env_var v).
  - intros tok. unfold display_target, sanitized_ws_url. cbn [r_url remote_sid]. f_equal.
    unfold url_of, before_char. rewrite (split_on_none 35).
    + cbn [head]. change (default [] (Some ?x)) with x. cbn [app]. rewrite split_on_app, (split_on_none 63 base); [done|].
      eapply Forall_impl; [exact Hb|]. by intros c [? _].
    + apply Forall_app. split; [eapply Forall_impl; [exact Hb|]; by intros c [_ ?]|]. constructor; [done|].
      unfold query_of. apply join_clean; [done|].
      eapply Forall_impl; [apply pieces_clean; [lia|done]|]. intros w Hw. eapply Forall_impl; [exact Hw|]. by intros c [_ ?].
Qed.
End Urls.

(** ** Witnesses *)
Module MirrorDemo.
#[global] Instance null_sink : LogSink unit := {|
  ls_append_raw s _ _ _ := (s, Ok tt); ls_append_record s _ _ := (s, Ok tt); ls_commit s := (s, Ok tt); ls_close s := (s, Ok tt) |}.
Definition uuid_str (u : Z) : list Z := show_nat (Z.abs u).
Definition parse_uuid : list Z -> option Z := parse_unsigned 10 (2 ^ 128 - 1).
Lemma uuid_round u : uuid_ok u -> parse_uuid (uuid_str u) = Some u.
Proof.
  unfold uuid_ok, parse_uuid, uuid_str. intros H. rewrite Z.abs_eq by lia. apply parse_show_nat. lia.
Qed.
Definition target : RemoteTarget := mkRemote (lit "ws://edge/ws?sid=7") 7 0 None.
Definition frame : Envelope := data_envelope uuid_str 7 0 1 ts_w [222; 173] (lit "tcp:x") (lit "bytes").
Definition write_frame : Envelope := remote_write_envelope uuid_str 2 target [65] None.
Definition reply : Envelope :=
  ctl_error_with_sid uuid_str 2 (lit "write failed: " ++ any_display (core_error E2001WireMalformed (lit "write sid is unknown")))
    E2001WireMalformed 7.
(** A codec that knows these three envelopes and the subscription. *)
Definition known : list Envelope := [frame; write_frame; reply; sub_envelope uuid_str target].
Fixpoint index (e : Envelope) (l : list Envelope) : option Z :=
  match l with [] => None | x :: l' => if env_eqb e x then Some (zlen l') else index e l' end.
Definition to_vec (e : Envelope) : option (list Z) := (fun i => [i]) <$> index e known.
Definition from_slice (b : list Z) : option Envelope :=
  match b with
  | [3] => Some frame
  | [2] => Some write_frame
  | [1] => Some reply
  | [0] => Some (sub_envelope uuid_str target)
  | _ => None
  end.
Lemma codec e b : to_vec e = Some b -> from_slice b = Some e.
Proof.
  unfold to_vec, known. cbn [index].
  destruct (env_eqb e frame) eqn:E1; [apply env_eqb_eq in E1 as ->; by intros [= <-]|].
  destruct (env_eqb e write_frame) eqn:E2; [apply env_eqb_eq in E2 as ->; by intros [= <-]|].
  destruct (env_eqb e reply) eqn:E3; [apply env_eqb_eq in E3 as ->; by intros [= <-]|].
  destruct (env_eqb e (sub_envelope uuid_str target)) eqn:E4; [apply env_eqb_eq in E4 as ->; by intros [= <-]|done].
Qed.
Definition restamp (n : Z) (ts : DualTimestamp) : DualTimestamp := sys_stamp_ingest (mkSystem 1 2 0) n n ts.
Definition send (x : unit) (b : list Z) : unit * option Z := (x, Some 1).
Definition run evs := mirror_run parse_uuid uuid_str (fun x => x) (Tx := unit) to_vec from_slice send (fun _ => ts_w) restamp target 9
  (mkTraced tt []) (Ingest.new unit) evs.
Definition events : list MirrorEvent := [EvOther; EvMessage [3]; EvWritersGone].
Definition state0 : MirrorState unit unit := mkMirror tt (Ingest.new unit) (mkRun 9 0 0 0) 2 ∅ [] [].
End MirrorDemo.



Lemma mirror_write_proxied_witness :
  let '(m', r, a) := @handle_write MirrorDemo.uuid_str MirrorDemo.parse_uuid (Server unit) Demo.api Demo.server0
    MirrorDemo.write_frame [] [] in a_result a = AuError.
Proof.
  destruct (@mirror_write_proxied MirrorDemo.parse_uuid MirrorDemo.uuid_str (fun x => x) unit unit (Server unit)
    MirrorDemo.null_sink Demo.api MirrorDemo.to_vec MirrorDemo.from_slice MirrorDemo.send (fun _ => ts_w) MirrorDemo.restamp
    MirrorDemo.target 9 MirrorDemo.codec MirrorDemo.uuid_round Demo.server0 MirrorDemo.state0 5%nat (mkWrite [65] None) [2] [] [])
    as (_ & env & Hd & _).
  - unfold uuid_ok. cbn. lia.
  - vm_compute. reflexivity.
  - injection Hd as <-. vm_compute. reflexivity.
Defined.

Lemma remote_url_round_trip_witness :
  target_parse MirrorDemo.parse_uuid (fun v => if str_eqb v (lit "TOK") then Some (lit "s3") else None)
    (∅ : Secret.MemorySecretResolver) (url_of MirrorDemo.uuid_str (lit "ws://edge:9000/ws") 7 3 (Some (lit "TOK"))) =
  Ok (mkRemote (url_of MirrorDemo.uuid_str (lit "ws://edge:9000/ws") 7 3 (Some (lit "TOK"))) 7 3 (Some (lit "s3"))).
Proof.
  apply (remote_url_round_trip MirrorDemo.parse_uuid MirrorDemo.uuid_str
    (fun v => if str_eqb v (lit "TOK") then Some (lit "s3") else None) (∅ : Secret.MemorySecretResolver)
    MirrorDemo.uuid_round) with (var := Some (lit "TOK")).
  - intros u. apply show_unreserved. apply Z.abs_nonneg.
  - unfold uuid_ok. lia.
  - unfold u32_max. lia.
  - apply lit_unreserved. reflexivity.
  - apply (bool_decide_unpack _). vm_compute. reflexivity.
Defined.
