(* ===== verification/Interchange.v ===== *)
(** * Text and JSON-lines export, text and Tera Term import, replay

    crates/core/src/exporter/{encoding,timestamp,text,jsonl}.rs,
    crates/core/src/importer/{text,teraterm}.rs, crates/core/src/source/replay.rs
    and crates/replay/src/lib.rs, on the session directory of [SessionDir].  The
    text encodings, the [time] crate's parsing and rendering, the TOML of
    [meta.toml] and the text of a JSON value are parameters; index rows are
    values, a line of [index.jsonl] being blank, a row, or unreadable. *)
From stdpp Require Import base numbers strings list.
From S2P Require Import Prelude Text Decoder Clock SessionDir Csv Wire Runner.

Local Open Scope Z_scope.
Local Open Scope tm_scope.

(** What a reader finds in a session directory; [None] is a missing file. *)
Record LogDir := mkLogDir {
  d_index : option (list (option (option IndexEntry)));
  d_raw : option (list Z);
  d_meta : option (list Z) }.

(** ** exporter/encoding.rs *)
Definition DEFAULT_EXPORT_ENCODING : list Z := lit "utf-8".
Record SessionMeta := mkMeta { m_decoder : option (list Z); m_encoding : option (list Z) }.

Definition non_empty (value : list Z) : option (list Z) :=
  match trim value with [] => None | v => Some v end.
Definition or_else {A} (a b : option A) : option A := match a with Some _ => a | None => b end.
Definition decoder_text_encoding (decoder : option (list Z)) : option (list Z) :=
  d ← decoder; t ← strip_prefix (lit "utf8-text:") (trim d); non_empty t.

Section Encoding.
  (** [toml::from_str] on the text of [meta.toml]. *)
  Variable toml_meta : list Z -> option SessionMeta.
Definition meta_text_encoding (d : LogDir) : option (list Z) :=
  t ← d_meta d; m ← toml_meta t;
  or_else (e ← m_encoding m; non_empty e) (decoder_text_encoding (m_decoder m)).
Definition resolve_text_encoding (d : LogDir) (requested : option (list Z)) : list Z :=
  to_ascii_lowercase
    (default DEFAULT_EXPORT_ENCODING (or_else (r ← requested; non_empty r) (meta_text_encoding d))).
End Encoding.

(** ** serde's object for an index row: a [BTreeMap], sorted by key *)
Fixpoint str_ltb (a b : list Z) : bool :=
  match a, b with
  | _, [] => false
  | [], _ :: _ => true
  | x :: a', y :: b' => (x <? y) || ((x =? y) && str_ltb a' b')
  end.
Fixpoint obj_insert (k : list Z) (v : Value) (m : list (list Z * Value)) : list (list Z * Value) :=
  match m with
  | [] => [(k, v)]
  | (k', v') :: m' =>
      if str_eqb k k' then (k, v) :: m'
      else if str_ltb k k' then (k, v) :: m
      else (k', v') :: obj_insert k v m'
  end.
Definition obj_of (kvs : list (list Z * Value)) : list (list Z * Value) :=
  fold_left (fun m kv => obj_insert (fst kv) (snd kv) m) kvs [].

Section Exporters.
  (** [codec::decode] by label, the UTC offsets and instants of [time], serde's
      number of an [f32], the text of a UUID and of a JSON value. *)
  Variable codec_decode : list Z -> list Z -> list Z.
  Variable toml_meta : list Z -> option SessionMeta.
  Variables (UtcOffset Instant : Type).
  Variable from_hms : Z -> Z -> option UtcOffset.
  Variable rfc3339_parse : list Z -> option Instant.
  Variable to_offset : UtcOffset -> Instant -> Instant.
  Variable rfc3339_format : Instant -> option (list Z).
  Variable f32_value : Z -> Value.
  Variable uuid_str : Z -> list Z.
  Variable json_text : Value -> list Z.

(** exporter/timestamp.rs *)
Definition format_rfc3339_in_timezone (ts : list Z) (offset : option UtcOffset) : result (list Z) :=
  match offset with
  | None => Ok ts
  | Some o =>
      let* parsed := ok_or (rfc3339_parse ts) E1001PipelineGeneric in
      ok_or (rfc3339_format (to_offset o parsed)) E1001PipelineGeneric
  end.

(** The loop of both exporters: what reached the file, and how it ended. *)
Fixpoint export_loop (row : IndexEntry -> result (list Z)) (ls : list (option (option IndexEntry)))
  : list Z * result unit :=
  match ls with
  | [] => ([], Ok tt)
  | None :: ls' => export_loop row ls'
  | Some None :: _ => ([], Err E1001PipelineGeneric)
  | Some (Some e) :: ls' =>
      match row e with
      | Ok r => let '(rest, res) := export_loop row ls' in (r ++ rest, res)
      | Err x => ([], Err x)
      | Panic => ([], Panic)
      end
  end.

(** [run] up to the loop; the first component is the new content of the
    destination, [None] when it was not created. *)
Definition export_run (row : list Z -> list Z -> option UtcOffset -> IndexEntry -> result (list Z))
    (creates : bool) (d : LogDir) (offset : option UtcOffset) (encoding : option (list Z))
  : option (list Z) * result unit :=
  match d_index d, d_raw d with
  | Some ls, Some raw_bin =>
      let enc := resolve_text_encoding toml_meta d encoding in
      if creates then
        let '(out, res) := export_loop (row raw_bin enc offset) ls in (Some out, res)
      else (None, Err E1001PipelineGeneric)
  | _, _ => (None, Err E1001PipelineGeneric)
  end.
(** [timezone.map(parse_timezone_offset).transpose()]. *)
Definition parse_zone (timezone : option (list Z)) : result (option UtcOffset) :=
  match timezone with
  | None => Ok None
  | Some l => let* o := parse_timezone_offset UtcOffset from_hms l in Ok (Some o)
  end.
Definition with_timezone (run : option UtcOffset -> option (list Z) * result unit) (timezone : option (list Z))
  : option (list Z) * result unit :=
  match parse_zone timezone with
  | Ok offset => run offset
  | Err e => (None, Err e)
  | Panic => (None, Panic)
  end.

(** exporter/text.rs *)
Definition text_row (raw_bin enc : list Z) (offset : option UtcOffset) (e : IndexEntry) : result (list Z) :=
  let* bytes := read_at raw_bin (off e) (len e) in
  let t := codec_decode bytes enc in
  let* o := format_rfc3339_in_timezone (ts_origin e) offset in
  Ok (o ++ [9] ++ t ++ [10]).
Definition text_export (creates : bool) (d : LogDir) (timezone encoding : option (list Z))
  : option (list Z) * result unit :=
  with_timezone (fun o => export_run text_row creates d o encoding) timezone.

(** exporter/jsonl.rs *)
Definition opt_field (k : string) (v : option (list Z)) : list (list Z * Value) :=
  match v with Some s => [(lit k, VString s)] | None => [] end.
Definition entry_fields (e : IndexEntry) : list (list Z * Value) :=
  [(lit "ts_origin", VString (ts_origin e)); (lit "ts_ingest", VString (ts_ingest e));
   (lit "mono_ns", VNumber (show_nat (e_mono_ns e)));
   (lit "boot_id", VString (uuid_str (e_boot_id e))); (lit "node_id", VString (uuid_str (e_node_id e)));
   (lit "clock_offset_ms", VNumber (show_int (e_clock_offset_ms e)));
   (lit "clock_quality", VString (clock_quality_token (e_clock_quality e)));
   (lit "drift_ppm", f32_value (e_drift_ppm e));
   (lit "clock_source", VString (clock_source_token (e_clock_source e)));
   (lit "sid", VString (uuid_str (e_sid e)));
   (lit "dir", VString (kind_str e "dir")); (lit "kind", VString (kind_str e "kind"));
   (lit "off", VNumber (show_nat (off e))); (lit "len", VNumber (show_nat (len e)))] ++
  opt_field "level" (e_level e) ++
  match e_tags e with [] => [] | ts => [(lit "tags", VArray (map VString ts))] end ++
  opt_field "correlation_id" (e_correlation_id e) ++ opt_field "source" (e_source e) ++
  opt_field "host" (e_host e) ++ opt_field "schema_id" (e_schema_id e).

Definition jsonl_object (e : IndexEntry) (o i t : list Z) : list (list Z * Value) :=
  obj_insert (lit "text") (VString t)
    (obj_insert (lit "ts_ingest") (VString i)
      (obj_insert (lit "ts_origin") (VString o) (obj_of (entry_fields e)))).
Definition jsonl_row (raw_bin enc : list Z) (offset : option UtcOffset) (e : IndexEntry) : result (list Z) :=
  let* bytes := read_at raw_bin (off e) (len e) in
  let t := codec_decode bytes enc in
  let* o := format_rfc3339_in_timezone (ts_origin e) offset in
  let* i := format_rfc3339_in_timezone (ts_ingest e) offset in
  Ok (json_text (VObject (jsonl_object e o i t)) ++ [10]).
Definition jsonl_export (creates : bool) (d : LogDir) (timezone encoding : option (list Z))
  : option (list Z) * result unit :=
  with_timezone (fun o => export_run jsonl_row creates d o encoding) timezone.
End Exporters.

(** ** importer/text.rs and importer/teraterm.rs *)
(** [as i64] of an [i128]. *)
Definition as_i64 (z : Z) : Z := u64_as_i64 (z mod 2 ^ 64).

Section Importers.
  (** The wall clock at the n-th line, the session id, RFC 3339 rendering, and
      [PrimitiveDateTime::parse] with and without milliseconds, as the
      nanoseconds since the epoch. *)
  Variable now : nat -> Z.
  Variable sid : Z.
  Variable rfc3339 : Z -> option (list Z).
  Variable parse_datetime : bool -> list Z -> option Z.

(** The loop of both importers over the lines of the file: a line that is not
    UTF-8 ends it, and what was appended before stays. *)
Fixpoint import_loop (line : nat -> list Z -> list Z * DualTimestamp * list LineEntry)
    (n : nat) (ls : list (list Z)) (st : Imported) : Imported * result unit :=
  match ls with
  | [] => (st, Ok tt)
  | b :: ls' =>
      match from_utf8 b with
      | None => (st, Err E1001PipelineGeneric)
      | Some s =>
          let '(body, ts, lns) := line n s in
          let '(r1, res) := raw_append 0 None (i_raw st) (utf8 body) in
          match res with
          | Ok (o, l) =>
              import_loop line (S n) ls'
                (mkImported r1 (i_index st ++ [from_envelope rfc3339 ts sid In KBytes o l]) (i_lines st ++ lns))
          | Err e => (mkImported r1 (i_index st) (i_lines st), Err e)
          | Panic => (mkImported r1 (i_index st) (i_lines st), Panic)
          end
      end
  end.

Definition text_line (n : nat) (s : list Z) : list Z * DualTimestamp * list LineEntry :=
  (s, imported_ts (now n), []).
(** [src] is the content of the file, when it can be opened. *)
Definition text_import (src : option (list Z)) (st : Imported) : Imported * result unit :=
  match src with
  | None => (st, Err E1001PipelineGeneric)
  | Some file => import_loop text_line 0 (buf_lines file) st
  end.

Definition parse_ts (inside : list Z) : option Z :=
  match parse_datetime true inside with
  | Some ns => Some (as_i64 ns)
  | None => as_i64 <$> parse_datetime false inside
  end.
Definition parse_prefix (line : list Z) : option (option Z * list Z) :=
  stripped ← strip_prefix [91] line;
  close ← find_str [93] stripped;
  let inside := take close stripped in
  let rest := trim_start_matches (Z.eqb 32) (drop (S close) stripped) in
  Some (parse_ts inside, rest).
Definition teraterm_line (n : nat) (s : list Z) : list Z * DualTimestamp * list LineEntry :=
  let '(ts_ns, body) := default (None, s) (parse_prefix s) in
  let ts := match ts_ns with Some ns => set_origin (imported_ts (now n)) ns | None => imported_ts (now n) end in
  (body, ts, [mkLine (format_rfc3339_ns rfc3339 (ts_origin_ns ts)) None body None []]).
Definition teraterm_import (src : option (list Z)) (st : Imported) : Imported * result unit :=
  match src with
  | None => (st, Err E1001PipelineGeneric)
  | Some file => import_loop teraterm_line 0 (buf_lines file) st
  end.
End Importers.

(** ** source/replay.rs *)
Inductive ControlEvt := Connected | Disconnected (reason : option (list Z)) | Eof | CtlError (id : ErrorId) (detail : list Z).
Record ReplaySource := mkReplay {
  rp_path : list Z; rp_iter : option (list IndexEntry); rp_raw : option (list Z); eof_sent : bool }.
Definition replay_new (path : list Z) : ReplaySource := mkReplay path None None false.

Fixpoint parse_index (ls : list (option (option IndexEntry))) : result (list IndexEntry) :=
  match ls with
  | [] => Ok []
  | None :: ls' => parse_index ls'
  | Some None :: _ => Err E1101SourceOpen
  | Some (Some e) :: ls' => let* es := parse_index ls' in Ok (e :: es)
  end.

Section Replay.
  (** The directories the paths name. *)
  Variable fs : list Z -> LogDir.

Definition replay_open (r : ReplaySource) : ReplaySource * result unit :=
  match d_index (fs (rp_path r)) with
  | None => (r, Err E1101SourceOpen)
  | Some ls =>
      match parse_index ls with
      | Ok entries =>
          let r1 := mkReplay (rp_path r) (Some entries) (rp_raw r) (eof_sent r) in
          match d_raw (fs (rp_path r)) with
          | None => (r1, Err E1101SourceOpen)
          | Some raw_bin => (mkReplay (rp_path r) (Some entries) (Some raw_bin) (eof_sent r), Ok tt)
          end
      | Err e => (r, Err e)
      | Panic => (r, Panic)
      end
  end.
Definition replay_recv (r : ReplaySource) : ReplaySource * result (option Frame) :=
  match rp_iter r, rp_raw r with
  | None, _ | _, None => (r, Err E1102SourceClosed)
  | Some [], Some _ => (mkReplay (rp_path r) (Some []) (rp_raw r) true, Ok None)
  | Some (e :: es), Some raw_bin =>
      let r1 := mkReplay (rp_path r) (Some es) (rp_raw r) (eof_sent r) in
      match read_at raw_bin (off e) (len e) with
      | Ok data =>
          (r1, Ok (Some match kind e with KDatagram => FDatagram (e_source e) data | _ => FBytes data end))
      | Err _ => (r1, Err E1102SourceClosed)
      | Panic => (r1, Panic)
      end
  end.
Definition replay_recv_ctl (r : ReplaySource) : ReplaySource * result (option ControlEvt) :=
  if eof_sent r then (mkReplay (rp_path r) (rp_iter r) (rp_raw r) false, Ok (Some Eof)) else (r, Ok None).
Definition replay_close (r : ReplaySource) : ReplaySource * result unit :=
  (mkReplay (rp_path r) None None (eof_sent r), Ok tt).

#[export] Instance ReplaySource_source : Source ReplaySource := {
  src_open := replay_open;
  src_recv := replay_recv;
  src_metadata := fun r => mkChannelMeta (lit "replay") (rp_path r) [];
  src_close := replay_close
}.
End Replay.

(** ** crates/replay/src/lib.rs *)
Record ReplayStats := mkReplayStats { rs_records : Z; rs_sleeps : list Z }.
Section ReplayRun.
  (** [rate > 0.0], and a gap in nanoseconds divided by the rate, as [u64]. *)
  Variable rate_positive : bool.
  Variable scale : Z -> Z.
(** [prev] is the last row's monotonic time; [rs_sleeps] are the pauses made. *)
Fixpoint replay_loop (prev : option Z) (st : ReplayStats) (ls : list (option (option IndexEntry)))
  : option ReplayStats :=
  match ls with
  | [] => Some st
  | None :: ls' => replay_loop prev st ls'
  | Some None :: _ => None
  | Some (Some e) :: ls' =>
      if rate_positive then
        let sleep :=
          match prev with
          | Some p => let scaled := scale (Z.max 0 (e_mono_ns e - p)) in if 0 <? scaled then [scaled] else []
          | None => []
          end in
        replay_loop (Some (e_mono_ns e)) (mkReplayStats (rs_records st + 1) (rs_sleeps st ++ sleep)) ls'
      else replay_loop prev (mkReplayStats (rs_records st + 1) (rs_sleeps st)) ls'
  end.
Definition replay_run (d : LogDir) : option ReplayStats :=
  ls ← d_index d; replay_loop None (mkReplayStats 0 []) ls.
End ReplayRun.

(** ** Lines of a text file *)
Lemma length_concat_split sep s : (length (concat (split_on sep s)) <= length s)%nat.
Proof.
  induction s as [|c s IH]; [done|]. cbn [split_on]. destruct (c =? sep); [simpl; lia|].
  destruct (split_on sep s) as [|w ws]; simpl in *; lia.
Qed.
Lemma length_strip_cr l : (length (strip_cr l) <= length l)%nat.
Proof.
  unfold strip_cr. destruct (last l) as [z|]; [|done].
  repeat (destruct z as [|z|z]; try done). rewrite length_take. lia.
Qed.
Lemma buf_lines_zlen s : zlen (concat (buf_lines s)) <= zlen s.
Proof.
  unfold zlen. apply inj_le. etrans; [|apply (length_concat_split 10)]. unfold buf_lines.
  destruct (split_on 10 s) as [|w ws] using rev_ind; [done|clear IHws].
  rewrite length_app, last_snoc. cbn [length]. replace (length ws + 1 - 1)%nat with (length ws) by lia.
  rewrite take_app_length, !concat_app, !length_app. apply Nat.add_le_mono.
  - induction ws as [|v ws IH]; [done|]. simpl. rewrite !length_app. pose proof (length_strip_cr v). lia.
  - destruct w; simpl; lia.
Qed.

(** A byte below 128 occurs in the UTF-8 of a text only as that character. *)
Lemma utf8_char_avoids b c : 0 <= b < 128 -> scalar_ok c = true -> c <> b -> Forall (fun x => x <> b) (utf8_char c).
Proof.
  intros Hb Hc Hn. apply scalar_ok_spec in Hc. unfold utf8_char.
  pose proof (div_mod_64 c). pose proof (Z.mod_pos_bound (c / 64) 64).
  pose proof (Z.mod_pos_bound (c / 4096) 64).
  assert (0 <= c / 64 /\ 0 <= c / 4096 /\ 0 <= c / 262144) as (? & ? & ?).
  { repeat split; apply Z.div_pos; lia. }
  repeat case_match; repeat constructor; lia.
Qed.
Lemma utf8_avoids b s : 0 <= b < 128 -> str_ok s -> Forall (fun c => c <> b) s -> Forall (fun x => x <> b) (utf8 s).
Proof.
  intros Hb Hs. induction Hs as [|c s Hc _ IH]; intros Hn; [constructor|].
  inversion Hn; subst. rewrite utf8_cons. apply Forall_app. split; [by apply utf8_char_avoids|by apply IH].
Qed.
Lemma from_utf8_utf8 s : str_ok s -> from_utf8 (utf8 s) = Some s.
Proof. intros H. unfold from_utf8. by rewrite lossy_utf8, bool_decide_true by done. Qed.
Lemma from_utf8_bytes b s : from_utf8 b = Some s -> utf8 s = b.
Proof. unfold from_utf8. case_bool_decide; naive_solver. Qed.

(** ** What an import leaves *)
(** The lines before the first that is not UTF-8. *)
Fixpoint readable (ls : list (list Z)) : list (list Z) :=
  match ls with
  | [] => []
  | b :: ls' => match from_utf8 b with Some s => s :: readable ls' | None => [] end
  end.
Definition all_readable (ls : list (list Z)) : bool :=
  forallb (fun b => match from_utf8 b with Some _ => true | None => false end) ls.

Section ImportFacts.
  Variable sid : Z.
  Variable rfc3339 : Z -> option (list Z).
  Variable line : nat -> list Z -> list Z * DualTimestamp * list LineEntry.
Definition bodies (n : nat) (ls : list (list Z)) : list (list Z) :=
  imap (fun i s => (line (n + i) s).1.1) ls.
Definition stamps (n : nat) (ls : list (list Z)) : list (list Z) :=
  imap (fun i s => format_rfc3339_ns rfc3339 (ts_origin_ns (line (n + i) s).1.2)) ls.
Definition line_rows (n : nat) (ls : list (list Z)) : list LineEntry :=
  concat (imap (fun i s => (line (n + i) s).2) ls).

Lemma bodies_cons n s ls : bodies n (s :: ls) = (line n s).1.1 :: bodies (S n) ls.
Proof using Type. unfold bodies. cbn. rewrite Nat.add_0_r. f_equal. apply imap_ext. intros. cbn. by rewrite Nat.add_succ_r. Qed.
Lemma stamps_cons n s ls : stamps n (s :: ls) =
  format_rfc3339_ns rfc3339 (ts_origin_ns (line n s).1.2) :: stamps (S n) ls.
Proof using Type. unfold stamps. cbn. rewrite Nat.add_0_r. f_equal. apply imap_ext. intros. cbn. by rewrite Nat.add_succ_r. Qed.
Lemma line_rows_cons n s ls : line_rows n (s :: ls) = (line n s).2 ++ line_rows (S n) ls.
Proof using Type.
  unfold line_rows. cbn. rewrite Nat.add_0_r. do 2 f_equal. apply imap_ext. intros. cbn. by rewrite Nat.add_succ_r.
Qed.

(** The new rows name the bodies among the raw bytes. *)
Record imported_as (st0 st : Imported) (bs os : list (list Z)) (lns : list LineEntry) : Prop := {
  ia_raw : stream (inner (i_raw st)) = stream (inner (i_raw st0)) ++ concat (map utf8 bs);
  ia_lines : i_lines st = i_lines st0 ++ lns;
  ia_rows : exists rows, i_index st = i_index st0 ++ rows /\ map ts_origin rows = os /\
    Forall2 (names (stream (inner (i_raw st)))) rows (map (fun b => (In, utf8 b)) bs)
}.

Lemma import_loop_spec ls : forall n st,
  pos (i_raw st) = zlen (stream (inner (i_raw st))) ->
  (forall i s, zlen (utf8 (line i s).1.1) <= zlen (utf8 s)) ->
  Forall (fun b => zlen b <= u32_max) ls -> pos (i_raw st) + zlen (concat ls) <= u64_max ->
  let '(st', r) := import_loop sid rfc3339 line n ls st in
  imported_as st st' (bodies n (readable ls)) (stamps n (readable ls)) (line_rows n (readable ls)) /\
  r = if all_readable ls then Ok tt else Err E1001PipelineGeneric.
Proof using Type.
  induction ls as [|b ls IH]; intros n st Hp Hline HF Hu.
  - cbn. split; [|done]. split; cbn; rewrite ?app_nil_r; [done..|]. exists []. by rewrite app_nil_r.
  - cbn [import_loop readable all_readable forallb]. destruct (from_utf8 b) as [s|] eqn:Eb; cycle 1.
    { split; [|done]. split; cbn; rewrite ?app_nil_r; [done..|]. exists []. by rewrite app_nil_r. }
    apply from_utf8_bytes in Eb. subst b. rewrite bodies_cons, stamps_cons, line_rows_cons.
    inversion HF as [|? ? Hs HF']; subst. cbn [concat] in Hu. rewrite zlen_app in Hu.
    pose proof (Hline n s) as Hb. destruct (line n s) as [[body ts] lns]. cbn [fst snd] in *.
    pose proof (zlen_nonneg (utf8 body)). pose proof (zlen_nonneg (concat ls)).
    pose proof (zlen_nonneg (stream (inner (i_raw st)))).
    rewrite raw_append_ok by lia. cbv zeta.
    set (st1 := mkImported _ _ _).
    specialize (IH (S n) st1). destruct (import_loop sid rfc3339 line (S n) ls st1) as [st' r].
    destruct IH as [[Hr Hl (rows & Hi & Hts & HF2)] ->]; [|done|done| |].
    { cbn [i_raw st1 inner pos]. rewrite stream_append, zlen_app. lia. }
    { cbn [i_raw st1 pos]. lia. }
    split; [|done]. cbn [st1 i_raw i_lines i_index inner] in Hr, Hl, Hi. rewrite stream_append in Hr. split.
    + rewrite Hr. cbn [map concat]. by rewrite (assoc_L (++)).
    + by rewrite Hl, (assoc_L (++)).
    + eexists (_ :: rows). split; [rewrite Hi, <- (assoc_L (++)); reflexivity|].
      split; [cbn [map]; by rewrite Hts|]. cbn [map]. constructor; [|done].
      eapply names_prefix; [|rewrite Hp; exact (row_names rfc3339 (sink_create sid None None [] [] [] [] []) ts In
        (stream (inner (i_raw st))) (utf8 body))].
      rewrite Hr. by apply prefix_app_r.
Qed.
End ImportFacts.

(** ** The text importer *)
Lemma bodies_text now n ls : bodies (text_line now) n ls = ls.
Proof. revert n. induction ls as [|s ls IH]; intros n; [done|]. rewrite bodies_cons, IH. done. Qed.
Lemma line_rows_text now n ls : line_rows (text_line now) n ls = [].
Proof. revert n. induction ls as [|s ls IH]; intros n; [done|]. rewrite line_rows_cons, IH. done. Qed.

Lemma import_fresh sid rfc line file :
  (forall i s, zlen (utf8 (line i s).1.1) <= zlen (utf8 s)) ->
  Forall (fun b => zlen b <= u32_max) (buf_lines file) -> zlen file <= u64_max ->
  let ls := buf_lines file in
  let '(st, r) := import_loop sid rfc line 0 ls imported0 in
  imported_as imported0 st (bodies line 0 (readable ls)) (stamps rfc line 0 (readable ls))
    (line_rows line 0 (readable ls)) /\
  r = if all_readable ls then Ok tt else Err E1001PipelineGeneric.
Proof.
  intros Hl HF Hu. pose proof (buf_lines_zlen file). apply import_loop_spec; [done|done|done|].
  cbn [imported0 i_raw raw_create pos]. zlia.
Qed.

(** C35: importing a text file, whatever its bytes, appends exactly its lines up to
    the first that is not UTF-8: [raw.bin] is their concatenation, there is one
    index row per such line, in order, that reads the line back, and the import
    succeeds exactly when every line is UTF-8; what was imported before a bad
    line stays in the directory. *)
Theorem text_import_exact now sid rfc file :
  Forall (fun b => zlen b <= u32_max) (buf_lines file) -> zlen file <= u64_max ->
  let '(st, r) := text_import now sid rfc (Some file) imported0 in
  let ls := readable (buf_lines file) in
  stream (inner (i_raw st)) = concat (map utf8 ls) /\
  Forall2 (names (stream (inner (i_raw st)))) (i_index st) (map (fun s => (In, utf8 s)) ls) /\
  r = (if all_readable (buf_lines file) then Ok tt else Err E1001PipelineGeneric).
Proof.
  intros HF Hu. unfold text_import.
  pose proof (import_fresh sid rfc (text_line now) file ltac:(done) HF Hu) as H. cbv zeta in H.
  destruct (import_loop _ _ _ _ _ _) as [st r]. destruct H as [[Hr _ (rows & Hi & _ & H2)] ->].
  rewrite bodies_text in Hr, H2. split; [exact Hr|]. split; [|done]. by rewrite Hi.
Qed.
Lemma text_import_exact_witness :
  let file := lit "alpha" ++ [13; 10; 255; 10] ++ lit "beta" in
  let '(st, r) := text_import (fun _ => 0) 7 (fun _ => None) (Some file) imported0 in
  let ls := readable (buf_lines file) in
  stream (inner (i_raw st)) = concat (map utf8 ls) /\
  Forall2 (names (stream (inner (i_raw st)))) (i_index st) (map (fun s => (In, utf8 s)) ls) /\
  r = (if all_readable (buf_lines file) then Ok tt else Err E1001PipelineGeneric).
Proof.
  apply (text_import_exact (fun _ => 0) 7 (fun _ => None) (lit "alpha" ++ [13; 10; 255; 10] ++ lit "beta")).
  - apply (bool_decide_unpack _). vm_compute. reflexivity.
  - vm_compute. discriminate.
Defined.

(** ** The Tera Term importer *)
Lemma utf8_drop_le n s : zlen (utf8 (drop n s)) <= zlen (utf8 s).
Proof. rewrite <- (take_drop n s) at 2. rewrite utf8_app, zlen_app. pose proof (zlen_nonneg (utf8 (take n s))). lia. Qed.
Lemma parse_prefix_shorter parse s ns body :
  parse_prefix parse s = Some (ns, body) -> zlen (utf8 body) <= zlen (utf8 s).
Proof.
  unfold parse_prefix. destruct s as [|c s]; [done|]. cbn [strip_prefix].
  destruct (91 =? c); [|done]. cbn [mbind option_bind]. destruct (find_str [93] s) as [i|]; [|done].
  cbn [mbind option_bind]. intros [= _ <-].
  destruct (trim_start_suffix (Z.eqb 32) (drop (S i) s)) as (k & Hk & _).
  assert (Ht : zlen (utf8 (trim_start_matches (Z.eqb 32) (drop (S i) s))) <= zlen (utf8 (drop (S i) s))).
  { rewrite Hk at 2. rewrite utf8_app, zlen_app. pose proof (zlen_nonneg (utf8 k)). lia. }
  pose proof (utf8_drop_le (S i) s). rewrite utf8_cons, zlen_app. pose proof (zlen_nonneg (utf8_char c)). lia.
Qed.
Lemma teraterm_line_shorter now rfc parse i s :
  zlen (utf8 (teraterm_line now rfc parse i s).1.1) <= zlen (utf8 s).
Proof.
  unfold teraterm_line. destruct (parse_prefix parse s) as [[ns body]|] eqn:E.
  - change (default (None, s) (Some ?x)) with x. cbn [fst]. by apply parse_prefix_shorter in E.
  - done.
Qed.

(** The rows and lines of a Tera Term import: the stripped body of every line, an
    index row naming it, and a line entry with the same text and time. *)
Theorem teraterm_import_exact now sid rfc parse file :
  Forall (fun b => zlen b <= u32_max) (buf_lines file) -> zlen file <= u64_max ->
  let '(st, r) := teraterm_import now sid rfc parse (Some file) imported0 in
  let bs := bodies (teraterm_line now rfc parse) 0 (readable (buf_lines file)) in
  Forall2 (names (stream (inner (i_raw st)))) (i_index st) (map (fun b => (In, utf8 b)) bs) /\
  map l_text (i_lines st) = bs /\ map l_ts (i_lines st) = map ts_origin (i_index st) /\
  r = (if all_readable (buf_lines file) then Ok tt else Err E1001PipelineGeneric).
Proof.
  intros HF Hu. unfold teraterm_import.
  pose proof (import_fresh sid rfc (teraterm_line now rfc parse) file (teraterm_line_shorter now rfc parse) HF Hu) as H.
  cbv zeta in H. destruct (import_loop _ _ _ _ _ _) as [st r].
  destruct H as [[_ Hl (rows & Hi & Hts & H2)] ->]. cbn [imported0 i_lines i_index app] in Hl, Hi.
  split; [by rewrite Hi|]. rewrite Hl, Hi, Hts. clear. split; [|split; [|done]]; generalize 0%nat;
    induction (readable (buf_lines file)) as [|s ls IH]; intros n; try done;
    rewrite line_rows_cons, ?bodies_cons, ?stamps_cons, map_app, IH; unfold teraterm_line;
    by destruct (default (None, s) (parse_prefix parse s)) as [ns body].
Qed.
Lemma teraterm_import_exact_witness :
  let file := lit "[2024-01-01 00:00:00] one" ++ [10] ++ lit "plain" ++ [10] in
  let '(st, r) := teraterm_import (fun _ => 0) 7 (fun _ => None) (fun _ _ => Some 5) (Some file) imported0 in
  let bs := bodies (teraterm_line (fun _ => 0) (fun _ => None) (fun _ _ => Some 5)) 0 (readable (buf_lines file)) in
  Forall2 (names (stream (inner (i_raw st)))) (i_index st) (map (fun b => (In, utf8 b)) bs) /\
  map l_text (i_lines st) = bs /\ map l_ts (i_lines st) = map ts_origin (i_index st) /\
  r = (if all_readable (buf_lines file) then Ok tt else Err E1001PipelineGeneric).
Proof.
  apply (teraterm_import_exact (fun _ => 0) 7 (fun _ => None) (fun _ _ => Some 5)
    (lit "[2024-01-01 00:00:00] one" ++ [10] ++ lit "plain" ++ [10])).
  - apply (bool_decide_unpack _). vm_compute. reflexivity.
  - vm_compute. discriminate.
Defined.

(** Finding: a bracketed prefix that is no timestamp is dropped from the line all
    the same, here a severity: [[tag] body] is imported as [body]. *)
Theorem teraterm_drops_tag now rfc parse n tag body :
  Forall (fun c => c <> 93) tag -> parse true tag = None -> parse false tag = None ->
  (forall c k, body = c :: k -> c <> 32) ->
  (teraterm_line now rfc parse n ([91] ++ tag ++ [93; 32] ++ body)).1 = (body, imported_ts (now n)).
Proof.
  intros Ht H1 H2 Hb. unfold teraterm_line, parse_prefix. cbn [app strip_prefix Z.eqb Pos.eqb mbind option_bind].
  rewrite (find_char_prefix 93 tag (32 :: body)) by done. cbn [mbind option_bind].
  rewrite take_app_length. change (tag ++ 93 :: 32 :: body) with (tag ++ [93] ++ 32 :: body).
  rewrite (assoc_L (++)), drop_app_length' by (rewrite length_app; cbn; lia).
  unfold parse_ts. rewrite H1, H2. cbn [trim_start_matches Z.eqb Pos.eqb].
  rewrite trim_start_id; [done|]. intros c k ->. apply Z.eqb_neq. specialize (Hb c k eq_refl). lia.
Qed.
Lemma teraterm_drops_tag_witness :
  (teraterm_line (fun _ => 0) (fun _ => None) (fun _ _ => None) 0 ([91] ++ lit "ERROR" ++ [93; 32] ++ lit "disk full")).1 =
  (lit "disk full", imported_ts 0).
Proof.
  apply (teraterm_drops_tag (fun _ => 0) (fun _ => None) (fun _ _ => None) 0 (lit "ERROR") (lit "disk full")).
  - apply (bool_decide_unpack _). reflexivity.
  - reflexivity.
  - reflexivity.
  - intros c k H. vm_compute in H. injection H as <- _. discriminate.
Defined.

(** ** Replaying a log *)
(** The frames of a source up to its end. *)
Fixpoint recv_all {S} `{!Source S} (fuel : nat) (s : S) : option (list Frame * S) :=
  match fuel with
  | O => None
  | Datatypes.S fuel' =>
      match src_recv s with
      | (s', Ok (Some f)) => '(fs, s'') ← recv_all fuel' s'; Some (f :: fs, s'')
      | (s', Ok None) => Some ([], s')
      | _ => None
      end
  end.

Lemma recv_all_frame {S} `{!Source S} fuel (s s' : S) f :
  src_recv s = (s', Ok (Some f)) ->
  recv_all (Datatypes.S fuel) s = '(fs, s'') ← recv_all fuel s'; Some (f :: fs, s'').
Proof. intros H. cbn [recv_all]. by rewrite H. Qed.

(** A directory whose files are complete. *)
Definition log_dir (raw_bin : list Z) (rows : list IndexEntry) : LogDir :=
  mkLogDir (Some (map (fun e => Some (Some e)) rows)) (Some raw_bin) None.
Lemma parse_index_rows rows : parse_index (map (fun e => Some (Some e)) rows) = Ok rows.
Proof. induction rows as [|e rows IH]; [done|]. cbn [map parse_index]. by rewrite IH. Qed.

Lemma replay_rows fs raw_bin rows ps r :
  rp_iter r = Some rows -> rp_raw r = Some raw_bin -> Forall2 (names raw_bin) rows ps ->
  exists frames r', @recv_all _ (ReplaySource_source fs) (S (length rows)) r = Some (frames, r') /\
    map frame_payload frames = map snd ps /\ replay_recv_ctl r' = (mkReplay (rp_path r') (rp_iter r') (rp_raw r') false, Ok (Some Eof)).
Proof.
  intros Hi Hr HF. revert r Hi Hr. induction HF as [|e [d p] rows ps (_ & _ & He & _) _ IH]; intros [path it rw eof] Hi Hr;
    cbn [rp_iter rp_raw] in *; subst.
  - exists [], (mkReplay path (Some []) (Some raw_bin) true). done.
  - destruct (IH (mkReplay path (Some rows) (Some raw_bin) eof)) as (frames & r' & Hrec & Hp & Hc); [done..|].
    exists ((match kind e with KDatagram => FDatagram (e_source e) p | _ => FBytes p end) :: frames), r'.
    split; [|split; [|done]].
    + cbn [length]. erewrite recv_all_frame; [rewrite Hrec; reflexivity|].
      cbn [src_recv ReplaySource_source]. unfold replay_recv. cbn [rp_iter rp_raw].
      cbn [snd] in He. by rewrite He.
    + cbn [map snd]. rewrite Hp. by destruct (kind e).
Qed.
Lemma replay_open_log fs path raw_bin rows :
  fs path = log_dir raw_bin rows ->
  replay_open fs (replay_new path) = (mkReplay path (Some rows) (Some raw_bin) false, Ok tt).
Proof. intros H. unfold replay_open. cbn [replay_new rp_path]. rewrite H. cbn. by rewrite parse_index_rows. Qed.

Lemma replay_delivers fs path raw_bin rows ps :
  fs path = log_dir raw_bin rows -> Forall2 (names raw_bin) rows ps ->
  exists r frames r' r'',
    replay_open fs (replay_new path) = (r, Ok tt) /\
    @recv_all _ (ReplaySource_source fs) (S (length rows)) r = Some (frames, r') /\
    map frame_payload frames = map snd ps /\ replay_recv_ctl r' = (r'', Ok (Some Eof)).
Proof.
  intros H HF.
  destruct (replay_rows fs raw_bin rows ps (mkReplay path (Some rows) (Some raw_bin) false)) as (fr & r' & H1 & H2 & H3);
    [done..|].
  eexists _, fr, r', _. split; [by apply replay_open_log|]. split; [exact H1|]. split; [exact H2|exact H3].
Qed.

Lemma index_committed rfc s os : stream (index (sink_run rfc s (os ++ [OpCommit sync_fine]))) = disk (index (sink_run rfc s (os ++ [OpCommit sync_fine]))).
Proof. unfold sink_run. rewrite fold_left_app. cbn [fold_left sink_step commit index w_flush fst]. unfold stream. cbn. by rewrite app_nil_r. Qed.

(** A log replays to what was logged: after any run of a fresh sink that ends
    with a commit, flushes and index writes having failed at will, opening the
    directory as a replay source succeeds and it delivers the payloads whose row
    was written, byte for byte and in order, then ends and reports [Eof]; one
    receive per row and one more are enough. *)
Theorem replay_delivers_log rfc sid src host decoder os fs path :
  Forall op_fine os -> ops_bytes os <= u64_max ->
  let s := sink_run rfc (sink_create sid src host decoder [] [] [] []) (os ++ [OpCommit sync_fine]) in
  fs path = log_dir (disk (inner (raw s))) (disk (index s)) ->
  exists r frames r' r'',
    replay_open fs (replay_new path) = (r, Ok tt) /\
    @recv_all _ (ReplaySource_source fs) (S (length (disk (index s)))) r = Some (frames, r') /\
    map frame_payload frames = map snd (concat (map indexed os)) /\
    replay_recv_ctl r' = (r'', Ok (Some Eof)).
Proof.
  intros HF Hu s Hfs. apply (replay_delivers fs path _ _ _ Hfs).
  assert (Hb : ops_bytes (os ++ [OpCommit sync_fine]) = ops_bytes os).
  { clear. induction os as [|o os IH]; [done|]. cbn [app ops_bytes]. by rewrite IH. }
  destruct (sink_run_inv rfc (os ++ [OpCommit sync_fine]) _ [] (create_inv sid src host decoder)) as [_ H].
  { apply Forall_app. split; [done|]. by apply Forall_singleton. }
  { rewrite Hb. cbn [raw sink_create raw_create pos]. zlia. }
  fold s in H. assert (disk (index s) = stream (index s)) as -> by (symmetry; apply index_committed).
  rewrite map_app, concat_app in H. cbn in H.
  by rewrite !app_nil_r in H.
Qed.
Definition replay_sink0 : FileLogSink :=
  sink_run (fun _ => None) (sink_create 7 None None [] [] [] [] []) (sink_ops0 ++ [OpCommit sync_fine]).
Definition replay_fs0 (_ : list Z) : LogDir := log_dir (disk (inner (raw replay_sink0))) (disk (index replay_sink0)).
Lemma replay_delivers_log_witness :
  exists r frames r' r'',
    replay_open replay_fs0 (replay_new (lit "log")) = (r, Ok tt) /\
    @recv_all _ (ReplaySource_source replay_fs0) (S (length (disk (index replay_sink0)))) r = Some (frames, r') /\
    map frame_payload frames = map snd (concat (map indexed sink_ops0)) /\
    replay_recv_ctl r' = (r'', Ok (Some Eof)).
Proof.
  apply (replay_delivers_log (fun _ => None) 7 None None [] sink_ops0 replay_fs0 (lit "log")).
  - repeat (apply Forall_cons; split; [vm_compute; first [exact I|discriminate]|]). constructor.
  - vm_compute. discriminate.
  - reflexivity.
Defined.

(** The replay of [crates/replay] counts the rows, and a lockstep run never sleeps. *)
Lemma replay_run_counts rate scale raw_bin rows :
  exists sl, replay_run rate scale (log_dir raw_bin rows) = Some (mkReplayStats (zlen rows) sl) /\
    (rate = false -> sl = []).
Proof.
  unfold replay_run, log_dir. cbn [d_index mbind option_bind].
  assert (H : forall prev n sl0, exists sl,
    replay_loop rate scale prev (mkReplayStats n sl0) (map (fun e => Some (Some e)) rows) =
      Some (mkReplayStats (n + zlen rows) sl) /\ (rate = false -> sl = sl0)).
  { induction rows as [|e rows IH]; intros prev n sl0; cbn [map replay_loop rs_records rs_sleeps].
    - exists sl0. by rewrite Z.add_0_r.
    - rewrite zlen_cons, Z.add_assoc. destruct rate.
      + match goal with |- context [replay_loop true scale ?p (mkReplayStats _ ?s)] =>
          destruct (IH p (n + 1) s) as (sl & -> & _) end. by exists sl.
      + destruct (IH prev (n + 1) sl0) as (sl & -> & Hs). exists sl. split; [done|]. by intros _; apply Hs. }
  destruct (H None 0 []) as (sl & Hs & Hr). exists sl. by rewrite Hs.
Qed.

(** ** The exporters *)
Lemma export_loop_ok row rows outs :
  Forall2 (fun e o => row e = Ok o) rows outs ->
  export_loop row (map (fun e => Some (Some e)) rows) = (concat outs, Ok tt).
Proof. induction 1 as [|e o rows outs He _ IH]; [done|]. cbn [map export_loop]. by rewrite He, IH. Qed.

(** A line of text that reads back whole. *)
Definition plain_line (s : list Z) : Prop := str_ok s /\ Forall (fun c => c <> 10 /\ c <> 13) s.
Lemma plain_line_bytes s : plain_line s -> Forall (fun c => c <> 10 /\ c <> 13) (utf8 s).
Proof.
  intros [Hs Hn]. apply Forall_and. split; apply utf8_avoids; try done; try lia;
    (eapply Forall_impl; [exact Hn|]; naive_solver).
Qed.
Lemma utf8_lines ls : utf8 (concat (map (fun l => l ++ [10]) ls)) = concat (map (fun l => l ++ [10]) (map utf8 ls)).
Proof. induction ls as [|l ls IH]; [done|]. cbn [map concat]. by rewrite !utf8_app, IH. Qed.
Lemma readable_utf8 ls : Forall str_ok ls -> readable (map utf8 ls) = ls /\ all_readable (map utf8 ls) = true.
Proof.
  induction 1 as [|l ls Hl _ [IH1 IH2]]; [done|]. cbn [map readable all_readable forallb].
  rewrite from_utf8_utf8 by done. by rewrite IH1.
Qed.
(** Text lines written and imported are the lines. *)
Lemma text_import_lines now sid rfc ls :
  Forall plain_line ls -> Forall (fun l => zlen (utf8 l) <= u32_max) ls ->
  zlen (utf8 (concat (map (fun l => l ++ [10]) ls))) <= u64_max ->
  exists st, text_import now sid rfc (Some (utf8 (concat (map (fun l => l ++ [10]) ls)))) imported0 = (st, Ok tt) /\
    Forall2 (names (stream (inner (i_raw st)))) (i_index st) (map (fun s => (In, utf8 s)) ls).
Proof.
  intros Hp Hs Hu. set (file := utf8 _) in *.
  assert (Hl : buf_lines file = map utf8 ls).
  { unfold file. rewrite utf8_lines. apply buf_lines_concat, Forall_map. eapply Forall_impl; [exact Hp|].
    intros s. apply plain_line_bytes. }
  destruct (readable_utf8 ls) as [H1 H2]. { eapply Forall_impl; [exact Hp|]. by intros s []. }
  pose proof (import_fresh sid rfc (text_line now) file ltac:(done)) as H. cbv zeta in H.
  rewrite Hl in H. unfold text_import. rewrite Hl. destruct (import_loop _ _ _ _ _ _) as [st r].
  destruct H as [[_ _ (rows & Hi & _ & HF)] ->]; [by apply Forall_map|done|].
  rewrite H1, bodies_text in HF. exists st. rewrite H2, Hi. done.
Qed.

Section TextExport.
  Variable codec_decode : list Z -> list Z -> list Z.
  Variable toml_meta : list Z -> option SessionMeta.
  Variables (UtcOffset Instant : Type).
  Variable from_hms : Z -> Z -> option UtcOffset.
  Variable rfc3339_parse : list Z -> option Instant.
  Variable to_offset : UtcOffset -> Instant -> Instant.
  Variable rfc3339_format : Instant -> option (list Z).

(** The line a row is exported as, without its line end. *)
Definition text_exported (raw_bin enc : list Z) (offset : option UtcOffset) (e : IndexEntry) (l : list Z) : Prop :=
  exists bytes o, read_at raw_bin (off e) (len e) = Ok bytes /\
    format_rfc3339_in_timezone UtcOffset Instant rfc3339_parse to_offset rfc3339_format (ts_origin e) offset = Ok o /\
    l = o ++ [9] ++ codec_decode bytes enc.

(** Exporting a log as text and importing the file again gives one row per
    record, in order, that reads back the record's timestamp, a tab and its
    decoded text; it holds for every record whose line holds no line break. *)
Theorem text_export_import now sid rfc raw_bin rows ls tz offset encoding :
  parse_zone UtcOffset from_hms tz = Ok offset ->
  Forall2 (text_exported raw_bin (resolve_text_encoding toml_meta (log_dir raw_bin rows) encoding) offset) rows ls ->
  Forall plain_line ls -> Forall (fun l => zlen (utf8 l) <= u32_max) ls ->
  zlen (utf8 (concat (map (fun l => l ++ [10]) ls))) <= u64_max ->
  exists file st,
    text_export codec_decode toml_meta UtcOffset Instant from_hms rfc3339_parse to_offset rfc3339_format true
      (log_dir raw_bin rows) tz encoding = (Some file, Ok tt) /\
    text_import now sid rfc (Some (utf8 file)) imported0 = (st, Ok tt) /\
    Forall2 (fun e l => read_at (stream (inner (i_raw st))) (off e) (len e) = Ok (utf8 l)) (i_index st) ls.
Proof using Type.
  intros Hz HF Hp Hs Hu. exists (concat (map (fun l => l ++ [10]) ls)).
  destruct (text_import_lines now sid rfc ls Hp Hs Hu) as (st & Hi & HF2). exists st. split; [|split; [done|]].
  - unfold text_export, with_timezone. rewrite Hz. unfold export_run. cbn [log_dir d_index d_raw].
    erewrite export_loop_ok; [reflexivity|]. apply Forall2_fmap_r. eapply Forall2_impl; [exact HF|].
    intros e l (bytes & o & H1 & H2 & ->). unfold text_row. rewrite H1. cbn [mbind res_bind].
    rewrite H2. cbn [mbind res_bind]. f_equal. by rewrite <- (assoc_L (++) o).
  - apply (Forall2_fmap_r (fun s => (In, utf8 s))) in HF2. eapply Forall2_impl; [exact HF2|].
    by intros e l (_ & _ & H & _).
Qed.

(** Finding: a record whose text holds a line feed is exported as several lines. *)
Theorem text_export_splits_record raw_bin e a b :
  codec_decode raw_bin DEFAULT_EXPORT_ENCODING = a ++ [10] ++ b -> off e = 0 -> len e = zlen raw_bin ->
  Forall (fun c => c <> 10) (ts_origin e ++ a) -> Forall (fun c => c <> 10) b ->
  exists file,
    text_export codec_decode toml_meta UtcOffset Instant from_hms rfc3339_parse to_offset rfc3339_format true
      (log_dir raw_bin [e]) None None = (Some file, Ok tt) /\
    length (split_on 10 file) = 3%nat.
Proof using Type.
  intros Hd Ho Hl Ha Hb. unfold text_export, with_timezone, export_run. cbn [log_dir d_index d_raw map parse_zone].
  change (resolve_text_encoding toml_meta _ None) with DEFAULT_EXPORT_ENCODING.
  assert (Hr : read_at raw_bin (off e) (len e) = Ok raw_bin).
  { unfold read_at. rewrite Ho, Hl, Z.leb_refl. change (Z.to_nat 0) with 0%nat. rewrite drop_0.
    f_equal. apply take_ge. zlia. }
  cbn [export_loop]. unfold text_row. rewrite Hr. cbn [mbind res_bind format_rfc3339_in_timezone]. rewrite Hd.
  eexists. split; [reflexivity|]. apply Forall_app in Ha as [Ht Ha]. rewrite app_nil_r.
  assert (ts_origin e ++ [9] ++ (a ++ [10] ++ b) ++ [10] = (ts_origin e ++ [9] ++ a) ++ 10 :: b ++ 10 :: []) as ->
    by (rewrite <- !(assoc_L (++)); done).
  rewrite !split_on_app, !length_app, (split_on_none 10 (ts_origin e ++ [9] ++ a)), (split_on_none 10 b); [done|done|].
  repeat (apply Forall_app; split); [done|by repeat constructor|done].
Qed.
End TextExport.

Lemma text_export_import_witness :
  exists file st,
    text_export (fun b _ => from_utf8_lossy b) (fun _ => None) unit unit (fun _ _ => Some tt) (fun _ => Some tt)
      (fun _ _ => tt) (fun _ => Some []) true (log_dir [97; 44; 98] [index0]) None None = (Some file, Ok tt) /\
    text_import (fun _ => 0) 7 (fun _ => None) (Some (utf8 file)) imported0 = (st, Ok tt) /\
    Forall2 (fun e l => read_at (stream (inner (i_raw st))) (off e) (len e) = Ok (utf8 l)) (i_index st)
      [ts_origin index0 ++ [9; 97; 44; 98]].
Proof.
  apply (text_export_import (fun b _ => from_utf8_lossy b) (fun _ => None) unit unit (fun _ _ => Some tt)
    (fun _ => Some tt) (fun _ _ => tt) (fun _ => Some []) (fun _ => 0) 7 (fun _ => None) [97; 44; 98] [index0]
    [ts_origin index0 ++ [9; 97; 44; 98]] None None None).
  - reflexivity.
  - constructor; [|constructor]. exists [97; 44; 98], (ts_origin index0). split; [reflexivity|]. split; reflexivity.
  - apply Forall_singleton. split; apply (bool_decide_unpack _); vm_compute; reflexivity.
  - apply Forall_singleton. vm_compute. discriminate.
  - vm_compute. discriminate.
Defined.
Lemma text_export_splits_record_witness :
  exists file,
    text_export (fun b _ => from_utf8_lossy b) (fun _ => None) unit unit (fun _ _ => Some tt) (fun _ => Some tt)
      (fun _ _ => tt) (fun _ => Some []) true (log_dir [97; 10; 98] [index0]) None None = (Some file, Ok tt) /\
    length (split_on 10 file) = 3%nat.
Proof.
  apply (text_export_splits_record (fun b _ => from_utf8_lossy b) (fun _ => None) unit unit (fun _ _ => Some tt)
    (fun _ => Some tt) (fun _ _ => tt) (fun _ => Some []) [97; 10; 98] index0 [97] [98]).
  - reflexivity.
  - reflexivity.
  - reflexivity.
  - apply (bool_decide_unpack _). vm_compute. reflexivity.
  - apply (bool_decide_unpack _). vm_compute. reflexivity.
Defined.

(** ** The object of a JSON-lines record *)
Lemma obj_insert_get k k' v m :
  JsonLines.obj_get k (obj_insert k' v m) = if bool_decide (k = k') then Some v else JsonLines.obj_get k m.
Proof.
  induction m as [|[k1 v1] m IH]; [done|]. cbn [obj_insert]. unfold str_eqb. destruct (bool_decide_reflect (k' = k1)) as [E1|E1].
  - subst. cbn [JsonLines.obj_get]. by destruct (bool_decide (k = k1)).
  - destruct (str_ltb k' k1); [done|]. cbn [JsonLines.obj_get]. rewrite IH. destruct (bool_decide_reflect (k = k1)), (bool_decide_reflect (k = k')); congruence.
Qed.
Lemma obj_of_get kvs k v : NoDup (map fst kvs) -> (k, v) ∈ kvs -> JsonLines.obj_get k (obj_of kvs) = Some v.
Proof.
  unfold obj_of. intros Hn Hk. generalize (@nil (list Z * Value)) as m. revert Hn Hk.
  assert (Hkeep : forall l m, k ∉ map fst l ->
    JsonLines.obj_get k (fold_left (fun m kv => obj_insert (fst kv) (snd kv) m) l m) = JsonLines.obj_get k m).
  { induction l as [|[k1 v1] l IH]; intros m Hl; [done|]. cbn in *. apply not_elem_of_cons in Hl as [Hne Hl].
    rewrite IH, obj_insert_get by done. by rewrite bool_decide_false. }
  induction kvs as [|[k1 v1] kvs IH]; intros Hn Hk m; [by apply not_elem_of_nil in Hk|].
  cbn [map fst] in Hn. apply NoDup_cons in Hn as [Hn1 Hn]. cbn [fold_left fst snd].
  apply elem_of_cons in Hk as [[= -> ->]|Hk]; [|by apply IH].
  rewrite Hkeep, obj_insert_get by done. by rewrite bool_decide_true.
Qed.
Lemma entry_fields_keys f32 uu e : NoDup (map fst (entry_fields f32 uu e)).
Proof.
  destruct e as [? ? ? ? ? ? ? ? ? ? ? ? ? ? lv tg ci so ho sc]. unfold entry_fields. cbn [e_level e_tags e_correlation_id e_source e_host e_schema_id].
  destruct lv, tg, ci, so, ho, sc; apply (bool_decide_unpack _); vm_compute; reflexivity.
Qed.

(** A JSON-lines record carries the row's fields as they are, the two timestamps in
    the requested zone, and the decoded text. *)
Theorem jsonl_object_fields f32 uu e o i t :
  let obj := jsonl_object f32 uu e o i t in
  JsonLines.obj_get (lit "ts_origin") obj = Some (VString o) /\
  JsonLines.obj_get (lit "ts_ingest") obj = Some (VString i) /\
  JsonLines.obj_get (lit "text") obj = Some (VString t) /\
  forall k v, (k, v) ∈ entry_fields f32 uu e -> k <> lit "ts_origin" -> k <> lit "ts_ingest" -> k <> lit "text" ->
    JsonLines.obj_get k obj = Some v.
Proof.
  intros obj. subst obj. unfold jsonl_object. rewrite !obj_insert_get.
  split; [reflexivity|]. split; [reflexivity|]. split; [reflexivity|].
  intros k v Hk H1 H2 H3. rewrite !obj_insert_get, !bool_decide_false by done.
  by apply obj_of_get; [apply entry_fields_keys|].
Qed.
