(* ===== verification/RunnerStop.v ===== *)
(** * Runs that are stopped or whose disk fails

    crates/server/src/runner.rs over crates/core/src/logsink/file.rs when any
    step on the disk may fail, and when the task is aborted.  An abort takes
    effect where the task waits, which is in the source's [recv]: writing to the
    sink never waits.  So the state it leaves is that of a run cut after some
    number of frames.  The runner is verified against what a sink promises
    ([SinkKeeps]); the file sink keeps the promise. *)
From stdpp Require Import base numbers strings gmap list.
From S2P Require Import Prelude Framer Text Sessions Decoder Clock SessionDir Wire Runner Interchange.

Local Open Scope Z_scope.
Local Open Scope tm_scope.

(** ** What a sink promises *)
(** [good l hs]: the payloads [hs] are all in the sink, and no call failed;
    [left l hs]: a call failed after the payloads [hs] were handed over. *)
Class SinkKeeps (L : Type) `{!LogSink L} (good left : L -> list (list Z) -> Prop) : Prop := {
  keep_raw l hs t x l' r : good l hs -> ls_append_raw l t In x = (l', r) ->
    good l' (hs ++ [x]) \/ left l' (hs ++ [x]) /\ r <> Ok tt;
  keep_record l hs t x l' r : good l hs -> ls_append_record l t x = (l', r) -> good l' hs \/ left l' hs /\ r <> Ok tt;
  keep_commit l hs l' r : good l hs -> ls_commit l = (l', r) -> good l' hs \/ left l' hs /\ r <> Ok tt;
  keep_close l hs l' r : good l hs -> ls_close l = (l', r) -> good l' hs \/ left l' hs /\ r <> Ok tt
}.

(** ** A run that is cut *)
Section Cut.
  Context {S F L : Type} `{!Source S} `{!Framer F} `{!FramerLaws F} `{!LogSink L}.
  Variable framer : F.
  Variable decode : list Z -> result (option Record_).
  Variable clock : Z -> DualTimestamp.
  Variable to_vec_named : Envelope -> option (list Z).
  Variable uuid_str : Z -> list Z.
  Variable Tx : Type.
  Variable send : Tx -> list Z -> Tx * option Z.
  Abbreviation handles := (handle_frame framer decode clock to_vec_named uuid_str Tx send).

(** At most [n] frames; [None] is a run that is stopped in the source. *)
Fixpoint recv_cut (n : nat) (label : list Z) (st : RunState S L Tx) : RunState S L Tx * option (result unit) :=
  match n with
  | O => (st, None)
  | Datatypes.S n' =>
      let '(s, r) := src_recv (rs_src Tx st) in
      let st1 := set_src Tx st s in
      match r with
      | Ok None => (st1, Some (Ok tt))
      | Err e => (st1, Some (Err e))
      | Panic => (st1, Some Panic)
      | Ok (Some fr) =>
          match handles label st1 fr with
          | Some (st2, Ok _) => recv_cut n' label st2
          | Some (st2, e) => (st2, Some e)
          | None => (st1, None)
          end
      end
  end.
Definition run_cut (n : nat) (sid : Z) (lab : option (list Z)) (tx : Tx) (src : S) (sink : L) (g : Ingest.Ingest Tx)
  : RunState S L Tx * option (result RunnerStats) :=
  let '(s1, r) := src_open src in
  let st0 g' i := mkRunState Tx s1 sink g' [] (mkRun i 0 0 0) in
  match r with
  | Err e => (st0 g sid, Some (Err e))
  | Panic => (st0 g sid, Some Panic)
  | Ok _ =>
      let meta := src_metadata s1 in
      let '(g1, i) := Ingest.register_session Tx g (Ingest.mkSession Tx sid (cm_kind meta) (cm_iface meta) lab tx) in
      match recv_cut n (cm_kind meta ++ [58] ++ cm_iface meta) (st0 g1 i) with
      | (st, None) => (st, None)
      | (st, Some (Ok _)) => let '(st', r') := finish Tx st in (st', Some r')
      | (st, Some (Err e)) => (st, Some (Err e))
      | (st, Some Panic) => (st, Some Panic)
      end
  end.

(** Handling a frame always ends. *)
Lemma frames_loop_ends fuel ts : forall st : RunState S L Tx, (length (rs_buf Tx st) < fuel)%nat -> is_Some (frames_loop framer decode Tx fuel ts st).
Proof using FramerLaws0.
  induction fuel as [|fuel IH]; intros st Hf; [lia|]. cbn [frames_loop].
  destruct (poll_frame framer (rs_buf Tx st)) as [[[fr|]|e|] b] eqn:Ep; [|by eexists..]. apply poll_shrinks in Ep.
  destruct (checked _ _ _) as [n|e|]; [|by eexists..].
  destruct (decode_frame decode Tx ts (count_framed Tx st b n) fr) as [st1 r] eqn:Ed.
  assert (Hb : rs_buf Tx st1 = b).
  { revert Ed. unfold decode_frame. destruct (decode fr) as [[x|]|e|]; [|by intros [= <- <-]..].
    destruct (ls_append_record _ _ _) as [l [u|e|]]; [destruct (checked _ _ _)|..]; by intros [= <- <-]. }
  destruct r; [|by eexists..]. apply IH. rewrite Hb. lia.
Qed.
Lemma handle_frame_ends label (st : RunState S L Tx) fr : is_Some (handles label st fr).
Proof using FramerLaws0.
  unfold handle_frame. destruct (ls_append_raw _ _ _ _) as [l [u|e|]]; [|by eexists..].
  destruct (checked _ _ _) as [n|e|]; [|by eexists..]. destruct (encode_data_envelope _ _ _ _ _ _ _ _) as [w|e|]; [|by eexists..].
  destruct (Ingest.publish_wire _ _ _ _ _) as [[g d]|e|]; [|by eexists..]. apply frames_loop_ends. cbn [rs_buf]. lia.
Qed.
(** A run that ends by itself is a run that is not cut. *)
Lemma run_cut_run n sid lab tx src sink g st r :
  run_source_once_notify framer decode clock to_vec_named uuid_str Tx send n sid lab tx src sink g = Some (st, r) ->
  run_cut n sid lab tx src sink g = (st, Some r).
Proof using Type.
  assert (Hl : forall n label (st st' : RunState S L Tx) r,
    recv_loop framer decode clock to_vec_named uuid_str Tx send n label st = Some (st', r) -> recv_cut n label st = (st', Some r)).
  { clear. intros n label. induction n as [|n IH]; intros st st' r; [done|]. cbn [recv_loop recv_cut].
    destruct (src_recv _) as [s [[fr|]|e|]]; [|by intros [= <- <-]..].
    destruct (handles _ _ _) as [[st2 [[]|e|]]|]; [apply IH|by intros [= <- <-]..|done]. }
  unfold run_source_once_notify, run_cut. destruct (src_open src) as [s1 [[]|e|]]; [|by intros [= <- <-]..].
  destruct (Ingest.register_session _ _ _) as [g1 i].
  destruct (recv_loop _ _ _ _ _ _ _ n _ _) as [[st1 r1]|] eqn:E; [|done]. apply Hl in E. rewrite E.
  destruct r1 as [[]|e|]; [|by intros [= <- <-]..]. intros [= H]. by rewrite H.
Qed.
End Cut.

(** ** The runner keeps what it received *)
Section Keeps.
  Context {S F L : Type} `{!Source S} `{!Framer F} `{!FramerLaws F} `{!LogSink L}.
  Context (good left : L -> list (list Z) -> Prop) `{!SinkKeeps L good left}.
  Variable framer : F.
  Variable decode : list Z -> result (option Record_).
  Variable clock : Z -> DualTimestamp.
  Variable to_vec_named : Envelope -> option (list Z).
  Variable uuid_str : Z -> list Z.
  Variable Tx : Type.
  Variable send : Tx -> list Z -> Tx * option Z.
  Abbreviation State := (RunState (Heard S) L Tx).

(** The sink after [hs], and whether the step succeeded. *)
Definition keeps (st : State) (hs : list (list Z)) (failed : Prop) : Prop :=
  good (rs_sink Tx st) hs \/ left (rs_sink Tx st) hs /\ failed.
Lemma keeps_impl st hs (P Q : Prop) : (P -> Q) -> keeps st hs P -> keeps st hs Q.
Proof using Type. intros H [Hg|[Hl HP]]; [by left|by right; auto]. Qed.
Lemma decode_frame_keeps ts (st st' : State) fr hs r :
  good (rs_sink Tx st) hs -> decode_frame decode Tx ts st fr = (st', r) ->
  rs_src Tx st' = rs_src Tx st /\ keeps st' hs (r <> Ok tt).
Proof using SinkKeeps0.
  intros Hg. unfold decode_frame. destruct (decode fr) as [[x|]|e|]; [|by intros [= <- <-]; split; [|left]..].
  destruct (ls_append_record (rs_sink Tx st) ts x) as [l rr] eqn:E. pose proof (keep_record _ _ _ _ _ _ Hg E) as Hk.
  destruct rr as [[]|e|]; [destruct Hk as [Hk|[_ []]]; [|done]; destruct (checked _ _ _)|..]; intros [= <- <-]; (split; [done|]);
    solve [by left|by destruct Hk as [Hk|[Hk _]]; [left|right]].
Qed.
Lemma frames_loop_keeps fuel ts : forall (st st' : State) hs r,
  good (rs_sink Tx st) hs -> frames_loop framer decode Tx fuel ts st = Some (st', r) ->
  rs_src Tx st' = rs_src Tx st /\ keeps st' hs (r <> Ok tt).
Proof using SinkKeeps0.
  induction fuel as [|fuel IH]; intros st st' hs r Hg; [done|]. cbn [frames_loop].
  destruct (poll_frame framer (rs_buf Tx st)) as [[[fr|]|e|] b]; [|by intros [= <- <-]; split; [|left]..].
  destruct (checked _ _ _) as [n|e|]; [|by intros [= <- <-]; split; [|left]..].
  destruct (decode_frame decode Tx ts (count_framed Tx st b n) fr) as [st1 r1] eqn:Ed.
  apply (decode_frame_keeps _ _ _ _ hs) in Ed as [Hs Hk]; [|done].
  destruct r1 as [[]|e|]; [|by intros [= <- <-]..]. destruct Hk as [Hk|[_ []]]; [|done].
  intros H. destruct (IH _ _ _ _ Hk H) as [Hs2 Hk2]. split; [by rewrite Hs2|done].
Qed.
Lemma handle_frame_keeps label (st st' : State) fr hs r :
  good (rs_sink Tx st) hs -> handle_frame framer decode clock to_vec_named uuid_str Tx send label st fr = Some (st', r) ->
  rs_src Tx st' = rs_src Tx st /\ keeps st' (hs ++ [frame_payload fr]) (r <> Ok tt).
Proof using SinkKeeps0.
  intros Hg. unfold handle_frame. destruct (ls_append_raw (rs_sink Tx st) _ In (frame_payload fr)) as [l rr] eqn:E.
  pose proof (keep_raw _ _ _ _ _ _ Hg E) as Hk.
  destruct rr as [[]|e|]; [|by intros [= <- <-]; (split; [done|]); destruct Hk as [Hk|[Hk _]]; [left|right]..].
  destruct Hk as [Hk|[_ []]]; [|done].
  destruct (checked _ _ _) as [n|e|]; [|by intros [= <- <-]; split; [|left]..].
  destruct (encode_data_envelope _ _ _ _ _ _ _ _) as [w|e|]; [|by intros [= <- <-]; split; [|left]..].
  destruct (Ingest.publish_wire _ _ _ _ _) as [[g d]|e|]; [|by intros [= <- <-]; split; [|left]..].
  by intros [Hs Hf]%(frames_loop_keeps _ _ _ _ (hs ++ [frame_payload fr])).
Qed.
Lemma recv_cut_keeps label n : forall (st : State),
  good (rs_sink Tx st) (heard (rs_src Tx st)) ->
  let '(st', r) := recv_cut framer decode clock to_vec_named uuid_str Tx send n label st in
  keeps st' (heard (rs_src Tx st')) (r <> None /\ r <> Some (Ok tt)).
Proof using SinkKeeps0 FramerLaws0.
  induction n as [|n IH]; intros st Hg; cbn [recv_cut]; [by left|]. cbn [src_recv Heard_source].
  destruct (src_recv (heard_src (rs_src Tx st))) as [s rr]. set (st1 := set_src Tx st _).
  destruct rr as [[fr|]|e|]; [|left; cbn; by rewrite app_nil_r..].
  destruct (handle_frame_ends framer decode clock to_vec_named uuid_str Tx send label st1 fr) as [[st2 r2] E]. rewrite E.
  apply (handle_frame_keeps _ _ _ _ (heard (rs_src Tx st))) in E as [Hs Hk]; [|done].
  assert (Hh : heard (rs_src Tx st) ++ [frame_payload fr] = heard (rs_src Tx st2)) by by rewrite Hs.
  rewrite Hh in Hk. destruct r2 as [[]|e|]; [destruct Hk as [Hk|[_ []]]; [by apply IH|done]|..];
    (eapply keeps_impl; [|exact Hk]; done).
Qed.
Lemma finish_keeps (st st' : State) hs r :
  good (rs_sink Tx st) hs -> finish Tx st = (st', r) ->
  heard (rs_src Tx st') = heard (rs_src Tx st) /\ keeps st' hs (forall s, r <> Ok s).
Proof using SinkKeeps0.
  intros Hg. unfold finish. destruct (ls_commit (rs_sink Tx st)) as [l1 r1] eqn:E1.
  pose proof (keep_commit _ _ _ _ Hg E1) as Hk.
  destruct r1 as [[]|e|]; [|by intros [= <- <-]; (split; [done|]); destruct Hk as [Hk|[Hk _]]; [left|right]..].
  destruct Hk as [Hk|[_ []]]; [|done].
  destruct (ls_close l1) as [l2 r2] eqn:E2. pose proof (keep_close _ _ _ _ Hk E2) as Hk2.
  destruct r2 as [[]|e|]; [|by intros [= <- <-]; (split; [done|]); destruct Hk2 as [Hk2|[Hk2 _]]; [left|right]..].
  destruct Hk2 as [Hk2|[_ []]]; [|done]. cbn [src_close Heard_source]. destruct (src_close (heard_src _)) as [s r3].
  intros [= <- <-]. by split; [|left].
Qed.
(** However a run is cut or ends, its sink kept what the source gave. *)
Lemma run_cut_keeps n sid lab tx (src : S) (sink : L) g :
  good sink [] ->
  let '(st, r) := run_cut framer decode clock to_vec_named uuid_str Tx send n sid lab tx (mkHeard src []) sink g in
  keeps st (heard (rs_src Tx st)) (exists x, r = Some x /\ forall s, x <> Ok s).
Proof using SinkKeeps0 FramerLaws0.
  intros Hg. unfold run_cut. cbn [src_open Heard_source heard_src]. destruct (src_open src) as [s1 [[]|e|]]; [|by left..].
  destruct (Ingest.register_session _ _ _) as [g1 i].
  pose proof (recv_cut_keeps (cm_kind (src_metadata (mkHeard s1 [])) ++ [58] ++ cm_iface (src_metadata (mkHeard s1 []))) n
    (mkRunState Tx (mkHeard s1 []) sink g1 [] (mkRun i 0 0 0)) Hg) as Hk.
  destruct (recv_cut _ _ _ _ _ _ _ n _ _) as [st1 r1].
  destruct r1 as [[[]|e|]|].
  - destruct Hk as [Hk|[_ [_ []]]]; [|done]. destruct (finish Tx st1) as [st2 r2] eqn:E.
    destruct (finish_keeps _ _ _ _ Hk E) as [Hh Hk2]. rewrite Hh. eapply keeps_impl; [|exact Hk2]. intros H. by exists r2.
  - eapply keeps_impl; [|exact Hk]. intros _. by eexists.
  - eapply keeps_impl; [|exact Hk]. intros _. by eexists.
  - destruct Hk as [Hk|[_ [[] _]]]; [by left|done].
Qed.
End Keeps.

(** ** The file sink on a disk that fails *)
(** What the disk does in one call on the sink. *)
Record SinkIo := mkSinkIo { si_raw : fault; si_spill : nat; si_line : RowIo; si_frame : RowIo; si_sync : SyncIo }.
Record DiskSink := mkDisk { d_sink : FileLogSink; d_calls : nat }.
Section Disk.
  Variable rfc3339 : Z -> option (list Z).
  Variable io : nat -> SinkIo.
Definition disk_call (d : DiskSink) (call : SinkIo -> FileLogSink -> FileLogSink * result unit) : DiskSink * result unit :=
  let '(s, r) := call (io (d_calls d)) (d_sink d) in (mkDisk s (S (d_calls d)), r).
#[export] Instance DiskSink_LogSink : LogSink DiskSink := {
  ls_append_raw := fun d t dr x => disk_call d (fun i s => append_raw rfc3339 (si_raw i) (si_spill i) s t dr x);
  ls_append_record := fun d t r => disk_call d (fun i s => append_record rfc3339 (si_line i) (si_frame i) s t r);
  ls_commit := fun d => disk_call d (fun i s => commit (si_sync i) s);
  ls_close := fun d => disk_call d (fun i s => close (si_sync i) s)
}.

(** Chunks a session can hold. *)
Definition fits (hs : list (list Z)) : Prop := Forall (fun x => zlen x <= u32_max) hs /\ zlen (concat hs) <= u64_max.
Definition ins (hs : list (list Z)) : list (Dir * list Z) := map (fun x => (In, x)) hs.
Definition disk_good (d : DiskSink) (hs : list (list Z)) : Prop :=
  fits hs -> sink_inv (d_sink d) (ins hs) /\ index_torn (d_sink d) = false /\ pos (raw (d_sink d)) = zlen (concat hs).
(** The rows of all chunks but the last at most. *)
Definition rows_left (s : FileLogSink) (hs : list (list Z)) : Prop :=
  exists qs rest, hs = qs ++ rest /\ (length rest <= 1)%nat /\ Forall2 (names (disk (inner (raw s)))) (stream (index s)) (ins qs).
Definition disk_left (d : DiskSink) (hs : list (list Z)) : Prop := fits hs -> rows_left (d_sink d) hs.

Lemma fits_snoc hs x : fits (hs ++ [x]) -> fits hs /\ zlen x <= u32_max /\ zlen (concat hs) + zlen x <= u64_max.
Proof using Type.
  intros [HF Hz]. apply Forall_app in HF as [HF Hx]. rewrite Forall_singleton in Hx. rewrite concat_app, zlen_app in Hz. cbn in Hz.
  rewrite app_nil_r in Hz. pose proof (zlen_nonneg x). split; [split; [done|lia]|]. split; [done|lia].
Qed.
Lemma good_rows_left s hs : sink_inv s (ins hs) -> rows_left s hs.
Proof using Type. intros [_ H]. exists hs, []. rewrite app_nil_r. split; [done|]. split; [cbn; lia|done]. Qed.
Lemma append_raw_leaves f spill s hs t x s' r :
  sink_inv s (ins hs) -> index_torn s = false -> zlen x <= u32_max -> pos (raw s) + zlen x <= u64_max ->
  append_raw rfc3339 f spill s t In x = (s', r) ->
  (sink_inv s' (ins (hs ++ [x])) /\ index_torn s' = false /\ pos (raw s') = pos (raw s) + zlen x) \/ rows_left s' (hs ++ [x]) /\ r <> Ok tt.
Proof using Type.
  intros [Hp Hr] Ht Hx Hu H. pose proof (zlen_nonneg (stream (inner (raw s)))).
  set (w1 := w_append spill (inner (raw s)) x) in *.
  assert (Hs1 : stream w1 = stream (inner (raw s)) ++ x) by apply stream_append.
  assert (Hold : forall s2, stream (index s2) = stream (index s) -> disk (inner (raw s)) `prefix_of` disk (inner (raw s2)) -> rows_left s2 (hs ++ [x])).
  { intros s2 E1 E2. exists hs, [x]. split; [done|]. split; [cbn; lia|]. rewrite E1. by eapply rows_mono. }
  assert (Hnew : forall s2, stream (index s2) = stream (index s) ++ [row rfc3339 s t In (pos (raw s)) (zlen x)] ->
    disk (inner (raw s2)) = stream w1 -> buffered (inner (raw s2)) = [] -> pos (raw s2) = pos (raw s) + zlen x -> sink_inv s2 (ins (hs ++ [x]))).
  { intros s2 E1 E2 E3 E4. unfold ins. rewrite map_app. split.
    - unfold stream. rewrite E2, E3, E4, app_nil_r, Hs1, zlen_app. lia.
    - rewrite E1, E2, Hs1. apply Forall2_app; [|constructor; [rewrite Hp; apply row_names|done]].
      eapply rows_mono; [|done]. unfold stream. rewrite <- (assoc_L (++)). by apply prefix_app_r. }
  set (e := row rfc3339 s t In (pos (raw s)) (zlen x)) in *.
  unfold append_raw in H. destruct (match f with RawShort k => Some k | _ => None end) as [k|] eqn:Es.
  { cbn [raw_append] in H. injection H as <- <-. right. split; [|done]. apply Hold; [done|apply disk_append]. }
  rewrite raw_append_ok in H by (done || lia). fold w1 in H. cbn [inner pos] in H.
  destruct f as [|k|k|rf|k]; cbn [w_flush negb] in H; [|done|..].
  2: { injection H as <- <-. right. split; [|done]. apply Hold; [done|]. transitivity (disk w1); [apply disk_append|]. cbn. by apply prefix_app_r. }
  2: destruct rf; cbn [row_append] in H.
  all: injection H as <- <-.
  all: try (right; split; [|done]; apply Hold; [done|]; transitivity (disk w1); [apply disk_append|by apply prefix_app_r]).
  all: left; split; [apply Hnew; try done|done].
  - exact (eq_trans (stream_flush None (w_append 0 (index s) [e])) (stream_append 0 (index s) [e])).
  - exact (stream_append 0 (index s) [e]).
  - exact (eq_trans (stream_flush (Some k) (w_append 0 (index s) [e])) (stream_append 0 (index s) [e])).
Qed.
Lemma settles_good s s' hs n m : settles s s' -> disk_good (mkDisk s n) hs -> disk_good (mkDisk s' m) hs.
Proof using Type.
  intros Hs Hg Hf. destruct (Hg Hf) as (Hi & Ht & Hp). split; [by eapply settles_inv|].
  destruct Hs as (_ & _ & Hpos & _ & Htorn). cbn [d_sink] in *. by rewrite Htorn, Hpos.
Qed.
(** The file sink keeps what it promises. *)
#[export] Instance DiskSink_keeps : SinkKeeps DiskSink disk_good disk_left.
Proof using Type.
  split; intros [s n] hs; cbn [ls_append_raw ls_append_record ls_commit ls_close DiskSink_LogSink]; unfold disk_call; cbn [d_sink d_calls].
  - intros t x l' r Hg H. destruct (append_raw rfc3339 _ _ s t In x) as [s' r'] eqn:E. injection H as <- <-.
    assert (r' = Ok tt \/ r' <> Ok tt) as [->|Hr] by (destruct r' as [[]|e|]; [by left|by right..]).
    + left. intros Hf. destruct (fits_snoc _ _ Hf) as (Hf1 & Hx & Hz). destruct (Hg Hf1) as (Hi & Ht & Hp). cbn [d_sink] in *.
      destruct (append_raw_leaves _ _ _ _ _ _ _ _ Hi Ht Hx ltac:(lia) E) as [(? & ? & Hp')|[_ []]]; [|done].
      split; [done|]. split; [done|]. rewrite Hp', Hp, concat_app, zlen_app. cbn. by rewrite app_nil_r.
    + right. split; [|done]. intros Hf. destruct (fits_snoc _ _ Hf) as (Hf1 & Hx & Hz). destruct (Hg Hf1) as (Hi & Ht & Hp). cbn [d_sink] in *.
      destruct (append_raw_leaves _ _ _ _ _ _ _ _ Hi Ht Hx ltac:(lia) E) as [[Hi' _]|[Hl _]]; [by apply good_rows_left|done].
  - intros t x l' r Hg H. pose proof (record_settles rfc3339 (si_line (io n)) (si_frame (io n)) s t x) as Hs.
    destruct (append_record rfc3339 _ _ s t x). injection H as <- <-. left. by eapply settles_good.
  - intros l' r Hg H. pose proof (commit_settles (si_sync (io n)) s) as Hs. destruct (commit _ s). injection H as <- <-.
    left. by eapply settles_good.
  - intros l' r Hg H. pose proof (close_settles (si_sync (io n)) s) as Hs. destruct (close _ s). injection H as <- <-.
    left. by eapply settles_good.
Qed.
End Disk.

(** ** What a replay makes of it *)
(** The directory once the sink has gone out of scope. *)
Definition dir_left (s : FileLogSink) : LogDir :=
  let d := drop_sink sync_fine s in
  mkLogDir (Some (lines_of (index d) (index_torn d))) (Some (disk (inner (raw d)))) None.
(** Replaying the directory [path] gives the chunks [qs], or is refused. *)
Definition replays (fs : list Z -> LogDir) (path : list Z) (qs : list (list Z)) : Prop :=
  exists r frames r' r'', replay_open fs (replay_new path) = (r, Ok tt) /\
    @recv_all _ (ReplaySource_source fs) (S (length qs)) r = Some (frames, r') /\
    map frame_payload frames = qs /\ replay_recv_ctl r' = (r'', Ok (Some Eof)).
Lemma torn_index_refused rows : parse_index (map (fun e => Some (Some e)) rows ++ [Some None]) = Err E1101SourceOpen.
Proof. induction rows as [|e rows IH]; [done|]. cbn [map app parse_index]. by rewrite IH. Qed.
Lemma dir_left_replays fs path s qs :
  fs path = dir_left s -> Forall2 (names (disk (inner (raw s)))) (stream (index s)) (ins qs) ->
  if index_torn s then snd (replay_open fs (replay_new path)) = Err E1101SourceOpen else replays fs path qs.
Proof.
  intros Hfs Hrows. unfold dir_left, lines_of in Hfs. cbn [drop_sink set_frames set_lines set_index set_raw index index_torn raw inner sync_fine
    sy_raw sy_index sy_lines sy_frames w_flush fst disk] in Hfs.
  fold (stream (index s)) (stream (inner (raw s))) in Hfs. destruct (index_torn s).
  - unfold replay_open. cbn [replay_new rp_path]. rewrite Hfs. cbn [d_index]. by rewrite torn_index_refused.
  - rewrite app_nil_r in Hfs. destruct (replay_delivers fs path (stream (inner (raw s))) (stream (index s)) (ins qs)) as (r & fr & r' & r'' & H1 & H2 & H3 & H4).
    + exact Hfs.
    + eapply rows_mono; [|exact Hrows]. by apply prefix_app_r.
    + exists r, fr, r', r''. split; [done|]. apply Forall2_length in Hrows as Hlen. unfold ins in Hlen, H3. rewrite length_map in Hlen.
      rewrite Hlen in H2. split; [done|]. split; [|done]. rewrite H3, map_map. by rewrite map_id.
Qed.


(** The row of the second chunk is lost, or written in part. *)
Definition io_at (f : fault) (n : nat) : SinkIo :=
  mkSinkIo (if (n =? 2)%nat then f else NoFault) 0 row_fine row_fine sync_fine.
Definition stopped (f : fault) (n : nat) :=
  run_cut (LogSink0 := DiskSink_LogSink (fun _ => None) (io_at f)) lf0 dec0 clock0 (fun _ => Some [1]) show_nat unit send0 n 7 None tt
    (mkHeard (mkMock (map FBytes chunks0) (lit "m")) []) (mkDisk (sink_create 7 None None [] [] [] [] []) 0) ingest0.
Definition fs_left (f : fault) (n : nat) (_ : list Z) : LogDir := dir_left (d_sink (rs_sink unit (fst (stopped f n)))).
(** Stopped after one chunk, failing at the second, and failing with a part of
    the row written, which loses the whole session to a replay. *)
Definition replayed (f : fault) (n : nat) : result (list (list Z)) :=
  let '(r, o) := replay_open (fs_left f n) (replay_new (lit "log")) in
  do* o in match @recv_all _ (ReplaySource_source (fs_left f n)) 9 r with Some (frames, _) => Ok (map frame_payload frames) | None => Panic end.
Example stopped_replays :
  snd (stopped NoFault 1) = None /\ replayed NoFault 1 = Ok (take 1 chunks0) /\ replayed NoFault 3 = Ok chunks0 /\
  replayed (RawShort 1) 2 = Ok (take 1 chunks0) /\ replayed (IndexFlush 0) 2 = Ok chunks0.
Proof. vm_compute. repeat split. Qed.
Example torn_row_blocks_replay : replayed (IndexRow RowTorn) 2 = Err E1101SourceOpen.
Proof. vm_compute. reflexivity. Qed.
