(* ===== verification/Downloads.v ===== *)
(** * Serving exports: the HTTP handlers and their temporary files

    crates/server/src/export_api.rs beyond tickets, names and ZIP (in [Export]):
    the check of a session directory, the temporary files, the two exports, the
    four handlers, the responses and the stream that sends a file and removes it.
    The exporters are a parameter (they are [Csv], [Interchange] and [Pcapng]),
    as are canonical paths, the manager's directories, UUID text and the calendar.
    A handler is one step of the server; the streams of earlier responses are
    polled and dropped between the steps, in any order. *)
From stdpp Require Import base numbers strings gmap list.
From S2P Require Import Prelude Text Decoder Clock SessionDir Csv Wire Runner Interchange Export.

Local Open Scope Z_scope.
Local Open Scope tm_scope.

(** ** Errors and responses *)
Inductive DownloadError :=
| Api (e : ExportError)
| NoSessionDir | DirMissing | DirNotAccessible | RootNotAccessible | OutsideRoot | IndexMissing
| ExporterFailed (id : ErrorId)
| TaskFailed
| IoFailed.
Abbreviation dres A := (res DownloadError A).

Definition err_status (e : DownloadError) : Z :=
  match e with
  | Api (AuthRequired | TicketMissing | TicketExpired | TicketMismatch) => 401
  | Api _ => 400
  | NoSessionDir | DirMissing | DirNotAccessible | IndexMissing => 404
  | RootNotAccessible | TaskFailed | IoFailed => 500
  | OutsideRoot => 403
  | ExporterFailed _ => 400
  end.
Definition err_id (e : DownloadError) : list Z :=
  match e with
  | Api (AuthRequired | TicketMissing | TicketExpired | TicketMismatch) => lit "E-2101"
  | Api InvalidSid => lit "E-2001"
  | ExporterFailed id => code id
  | _ => lit "E-1001"
  end.

(** ** Temporary files and the stream that sends one *)
Abbreviation Fs := (gmap (list Z) (list Z)).

(** [TempExportFile]: removed when it goes out of scope, unless handed over. *)
Record TempExportFile := mkTemp { te_path : list Z; te_cleanup : bool }.
Definition temp_new (path : list Z) : TempExportFile := mkTemp path true.
Definition into_path (t : TempExportFile) : TempExportFile * list Z := (mkTemp (te_path t) false, te_path t).
Definition temp_drop (t : TempExportFile) (fs : Fs) : Fs := if te_cleanup t then delete (te_path t) fs else fs.

(** [CleanupFileStream]; [cs_file] is what is still to be read. *)
Record CleanupFileStream := mkStream { cs_file : option (list Z); cs_path : option (list Z) }.
Definition stream_new (file path : list Z) : CleanupFileStream := mkStream (Some file) (Some path).
Definition cleanup (s : CleanupFileStream) (fs : Fs) : CleanupFileStream * Fs :=
  (mkStream None None, match cs_path s with Some p => delete p fs | None => fs end).

(** What reading the file answers to one poll: not yet, up to [n] bytes, or an error. *)
Inductive read := RPending | RBytes (n : nat) | RFail.
Inductive poll := PPending | PDone | PChunk (b : list Z) | PError.
Definition CHUNK : nat := Z.to_nat 65536.
Definition poll_next (r : read) (s : CleanupFileStream) (fs : Fs) : CleanupFileStream * Fs * poll :=
  match cs_file s with
  | None => (s, fs, PDone)
  | Some file =>
      match r with
      | RPending => (s, fs, PPending)
      | RFail => (cleanup s fs, PError)
      | RBytes n =>
          match file with
          | [] => (cleanup s fs, PDone)
          | _ =>
              let k := Nat.max 1 (Nat.min n CHUNK) in
              (mkStream (Some (drop k file)) (cs_path s), fs, PChunk (take k file))
          end
      end
  end.

Inductive Body := BError (id : list Z) | BTicket (ticket : list Z) (expires_in_ms : Z) | BStream (s : CleanupFileStream).
Record Response := mkResponse { r_status : Z; r_headers : list (list Z * list Z); r_body : Body }.
Definition error_response (e : DownloadError) : Response :=
  mkResponse (err_status e)
    (if err_status e =? 401 then [(lit "www-authenticate", lit "Bearer")] else []) (BError (err_id e)).

Record ExportArtifact := mkArtifact {
  a_filename : list Z; a_content_type : list Z; a_len : Z; a_file : list Z; a_cleanup_path : list Z }.

Definition content_type (f : ExportFormat) : list Z :=
  lit match f with
      | FText => "text/plain; charset=utf-8"
      | FCsv => "text/csv; charset=utf-8"
      | FJsonl => "application/x-ndjson; charset=utf-8"
      | FPcapng => "application/vnd.tcpdump.pcapng"
      end.

(** ** Bundle requests *)
Record ExportBundleEntry := mkEntry { be_sid : list Z; be_source_name : option (list Z); be_encoding : option (list Z) }.
Record BundleRequest := mkBundle {
  b_entries : list ExportBundleEntry; b_format : list Z; b_tz : option (list Z);
  b_pattern : option (list Z); b_timestamp : option Z }.
Record BundleExportJob := mkJob {
  j_sid : Z; j_source_name : option (list Z); j_encoding : option (list Z); j_dir : list Z }.

(** The calls that may fail while a request is served. *)
Inductive step := SCreateZip | SAppend (i : nat) | SFinish | SStat | SOpen.

Section Downloads.
  (** The manager's directory of a session and its root; the file system's view of
      them; the exporters: what reached the destination, and the outcome. *)
  Variable parse_uuid : list Z -> option Z.
  Variable uuid_str : Z -> list Z.
  Variable rfc3339_secs : Z -> option (list Z).
  Variable session_dir_for_sid : Z -> option (list Z).
  Variable session_root : option (list Z).
  Variable exists_ : list Z -> bool.
  Variable canonicalize : list Z -> option (list (list Z)).
  Variable has_index : list Z -> bool.
  Variable export_to : ExportFormat -> list Z -> option (list Z) -> option (list Z) -> option (list Z) * result unit.
  Variable header_ok : list Z -> bool.
  Variable temp_dir : list Z.
  Variable defaults : ExportDefaults.

Definition timestamp_token (ms : Z) : list Z :=
  match rfc3339_secs (Z.min (ms / 1000) i64_max) with
  | Some t => replace [58] [] t
  | None => show_nat ms
  end.

(** [Path::starts_with] compares components. *)
Fixpoint path_starts_with (root path : list (list Z)) : bool :=
  match root, path with
  | [], _ => true
  | r :: root', p :: path' => str_eqb r p && path_starts_with root' path'
  | _ :: _, [] => false
  end.
Definition ensure_session_dir (path : list Z) : dres unit :=
  if negb (exists_ path) then Err DirMissing
  else
    let* cp := ok_or (canonicalize path) DirNotAccessible in
    do* (match session_root with
         | None => Ok tt
         | Some root =>
             let* cr := ok_or (canonicalize root) RootNotAccessible in
             if path_starts_with cr cp then Ok tt else Err OutsideRoot
         end) in
    if has_index path then Ok tt else Err IndexMissing.

Definition temp_export_path (sid fresh : Z) (f : ExportFormat) : list Z :=
  temp_dir ++ lit "/tracemux-export-" ++ uuid_str sid ++ [45] ++ uuid_str fresh ++ [46] ++ extension f.
Definition temp_bundle_path (fresh : Z) (f : ExportFormat) : list Z :=
  temp_dir ++ lit "/tracemux-bundle-" ++ uuid_str fresh ++ [46] ++ extension f ++ lit ".zip".

(** One export into [dst]. *)
Definition export_one (f : ExportFormat) (dir dst : list Z) (tz enc : option (list Z)) (fs : Fs) : Fs * dres unit :=
  let '(out, r) := export_to f dir tz enc in
  (match out with Some b => <[dst := b]> fs | None => fs end,
   match r with Ok _ => Ok tt | Err id => Err (ExporterFailed id) | Panic => Panic end).

(** The end of both exports: [metadata], [open], and the file handed over. *)
Definition artifact (fails : step -> bool) (tmp : TempExportFile) (filename ctype : list Z) (fs : Fs)
  : Fs * dres ExportArtifact :=
  match fs !! te_path tmp with
  | Some data =>
      if fails SStat || fails SOpen then (temp_drop tmp fs, Err IoFailed)
      else let '(tmp', path) := into_path tmp in
           (temp_drop tmp' fs, Ok (mkArtifact filename ctype (zlen data) data path))
  | None => (temp_drop tmp fs, Err IoFailed)
  end.
(** A failed or panicking task. *)
Definition task_error {A} (r : dres A) : DownloadError :=
  match r with Err e => e | _ => TaskFailed end.

Definition export_session (fails : step -> bool) (fresh : Z) (sid_text : list Z) (q : ExportQuery) (fs : Fs)
  : Fs * dres ExportArtifact :=
  match
    (let* sid := ok_or (parse_uuid sid_text) (Api InvalidSid) in
     let* f := map_err Api (format_parse (q_format q)) in
     let* dir := ok_or (session_dir_for_sid sid) NoSessionDir in
     do* ensure_session_dir dir in
     Ok (sid, f, dir)) : dres (Z * ExportFormat * list Z)
  with
  | Ok (sid, f, dir) =>
      let tmp := temp_new (temp_export_path sid fresh f) in
      let tz := or_else (clean_optional (q_tz q)) (d_timezone defaults) in
      let enc := or_else (clean_optional (q_encoding q)) (d_encoding defaults) in
      let '(fs1, r) := export_one f dir (te_path tmp) tz enc fs in
      match r with
      | Ok _ => artifact fails tmp (export_filename uuid_str sid f (q_filename q)) (content_type f) fs1
      | _ => (temp_drop tmp fs1, Err (task_error r))
      end
  | r => (fs, Err (task_error r))
  end.

(** The jobs of a bundle, in order, before anything is written. *)
Fixpoint bundle_jobs (entries : list ExportBundleEntry) : dres (list BundleExportJob) :=
  match entries with
  | [] => Ok []
  | e :: entries' =>
      let* sid := ok_or (parse_uuid (be_sid e)) (Api InvalidSid) in
      let* dir := ok_or (session_dir_for_sid sid) NoSessionDir in
      do* ensure_session_dir dir in
      let* jobs := bundle_jobs entries' in
      Ok (mkJob sid (be_source_name e) (or_else (clean_optional (be_encoding e)) (d_encoding defaults)) dir :: jobs)
  end.

(** The loop of [create_bundle_zip]; [fresh] names the exports' temporary files. *)
Fixpoint bundle_loop (fails : step -> bool) (f : ExportFormat) (tz pattern : option (list Z)) (ms : Z)
    (fresh : nat -> Z) (i : nat) (jobs : list BundleExportJob) (used : gset (list Z)) (z : StoredZipWriter) (fs : Fs)
  : Fs * dres StoredZipWriter :=
  match jobs with
  | [] => (fs, Ok z)
  | j :: jobs' =>
      let tmp := temp_new (temp_export_path (j_sid j) (fresh i) f) in
      let '(fs1, r) := export_one f (j_dir j) (te_path tmp) tz (j_encoding j) fs in
      let fs2 := temp_drop tmp fs1 in
      let filename := render_bundle_entry_filename uuid_str timestamp_token pattern (j_sid j) (j_source_name j) f ms in
      match
        (do* r in
         let* '(entry, used') := map_err Api (unique_zip_entry_name filename used) in
         if fails (SAppend i) then Err IoFailed
         else
           let* data := ok_or (fs1 !! te_path tmp) IoFailed in
           let* z' := map_err Api (append_file_from_path z
                        (bundle_base_name timestamp_token f ms ++ [47] ++ entry) data data) in
           Ok (used', z')) : dres (gset (list Z) * StoredZipWriter)
      with
      | Ok (used', z') => bundle_loop fails f tz pattern ms fresh (S i) jobs' used' z' fs2
      | Err e => (fs2, Err e)
      | Panic => (fs2, Panic)
      end
  end.
Definition create_bundle_zip (fails : step -> bool) (zip_path : list Z) (jobs : list BundleExportJob)
    (f : ExportFormat) (tz pattern : option (list Z)) (ms : Z) (fresh : nat -> Z) (fs : Fs) : Fs * dres unit :=
  if fails SCreateZip then (fs, Err IoFailed)
  else
    let '(fs1, r) := bundle_loop fails f tz pattern ms fresh 0 jobs ∅ zip_create (<[zip_path := []]> fs) in
    match (let* z := r in if fails SFinish then Err IoFailed else map_err Api (finish z)) : dres (list Z) with
    | Ok out => (<[zip_path := out]> fs1, Ok tt)
    | Err e => (fs1, Err e)
    | Panic => (fs1, Panic)
    end.

(** [now_ms] is the wall clock; the temporary files are named by fresh identifiers. *)
Definition export_bundle (fails : step -> bool) (now_ms zip_fresh : Z) (fresh : nat -> Z) (req : BundleRequest) (fs : Fs)
  : Fs * dres ExportArtifact :=
  match
    (do* map_err Api (validate_bundle_request (zlen (b_entries req)) (b_format req)) in
     let* f := map_err Api (format_parse (b_format req)) in
     let* jobs := bundle_jobs (b_entries req) in
     Ok (f, jobs)) : dres (ExportFormat * list BundleExportJob)
  with
  | Ok (f, jobs) =>
      let tz := or_else (clean_optional (b_tz req)) (d_timezone defaults) in
      let ms := default now_ms (b_timestamp req) in
      let tmp := temp_new (temp_bundle_path zip_fresh f) in
      let '(fs1, r) := create_bundle_zip fails (te_path tmp) jobs f tz (b_pattern req) ms fresh fs in
      match r with
      | Ok _ => artifact fails tmp (bundle_filename timestamp_token f ms) (lit "application/zip") fs1
      | _ => (temp_drop tmp fs1, Err (task_error r))
      end
  | r => (fs, Err (task_error r))
  end.

Definition artifact_response (a : ExportArtifact) : Response :=
  let disposition := lit "attachment; filename=" ++ [34] ++ a_filename a ++ [34] in
  mkResponse 200
    ([(lit "content-type", a_content_type a)] ++
     (if header_ok (show_nat (a_len a)) then [(lit "content-length", show_nat (a_len a))] else []) ++
     [(lit "cache-control", lit "no-store")] ++
     (if header_ok disposition then [(lit "content-disposition", disposition)] else []))
    (BStream (stream_new (a_file a) (a_cleanup_path a))).
Definition respond (r : dres ExportArtifact) : Response :=
  match r with Ok a => artifact_response a | _ => error_response (task_error r) end.

(** ** The server: its tickets, its temporary files and the responses being sent *)
Record Server := mkServer {
  s_tickets : gmap (list Z) (Tickets.Ticket DownloadTicketScope);
  s_bundles : gmap (list Z) (Tickets.Ticket BundleRequest);
  s_fs : Fs;
  s_streams : list CleanupFileStream }.
Definition open_stream (r : Response) : list CleanupFileStream :=
  match r_body r with BStream s => [s] | _ => [] end.

(** [authorized] is the verdict on the request's headers and peer. *)
Definition export_handler (authorized : bool) (now : Z) (fails : step -> bool) (fresh : Z) (sid : list Z) (q : ExportQuery)
    (s : Server) : Server * Response :=
  let '(ts, r) := authorize_export_request parse_uuid authorized (s_tickets s) now sid q defaults in
  match r with
  | Ok _ =>
      let '(fs, a) := export_session fails fresh sid q (s_fs s) in
      let resp := respond a in (mkServer ts (s_bundles s) fs (s_streams s ++ open_stream resp), resp)
  | _ => (mkServer ts (s_bundles s) (s_fs s) (s_streams s), error_response (task_error (map_err Api r)))
  end.
Definition export_ticket_handler (authorized : bool) (now1 now2 : Z) (name sid : list Z) (q : ExportQuery) (s : Server)
  : Server * Response :=
  if negb authorized then (s, error_response (Api AuthRequired))
  else match ticket_scope parse_uuid sid q defaults with
       | Ok sc => (mkServer (Tickets.issue (s_tickets s) now1 now2 name sc) (s_bundles s) (s_fs s) (s_streams s),
                   mkResponse 200 [] (BTicket name (DOWNLOAD_TICKET_TTL / 1000000)))
       | r => (s, error_response (task_error (map_err Api r)))
       end.
Definition export_bundle_ticket_handler (authorized : bool) (now1 now2 : Z) (name : list Z) (req : BundleRequest) (s : Server)
  : Server * Response :=
  if negb authorized then (s, error_response (Api AuthRequired))
  else match validate_bundle_request (zlen (b_entries req)) (b_format req) with
       | Ok _ => (mkServer (s_tickets s) (Tickets.issue (s_bundles s) now1 now2 name req) (s_fs s) (s_streams s),
                  mkResponse 200 [] (BTicket name (DOWNLOAD_TICKET_TTL / 1000000)))
       | r => (s, error_response (task_error (map_err Api r)))
       end.
Definition export_bundle_handler (now now_ms : Z) (fails : step -> bool) (zip_fresh : Z) (fresh : nat -> Z) (ticket : list Z)
    (s : Server) : Server * Response :=
  let '(bs, r) := Tickets.consume_bundle (s_bundles s) now ticket in
  match r with
  | Ok req =>
      let '(fs, a) := export_bundle fails now_ms zip_fresh fresh req (s_fs s) in
      let resp := respond a in (mkServer (s_tickets s) bs fs (s_streams s ++ open_stream resp), resp)
  | _ => (mkServer (s_tickets s) bs (s_fs s) (s_streams s), error_response (task_error (map_err Api r)))
  end.

(** A response's stream is polled, or dropped: at its end, or when the client is gone. *)
Definition poll_stream (i : nat) (r : read) (s : Server) : Server * option poll :=
  match s_streams s !! i with
  | None => (s, None)
  | Some st =>
      let '(st', fs, p) := poll_next r st (s_fs s) in
      (mkServer (s_tickets s) (s_bundles s) fs (<[i := st']> (s_streams s)), Some p)
  end.
Definition drop_stream (i : nat) (s : Server) : Server :=
  match s_streams s !! i with
  | None => s
  | Some st =>
      let '(st', fs) := cleanup st (s_fs s) in
      mkServer (s_tickets s) (s_bundles s) fs (<[i := st']> (s_streams s))
  end.

Inductive event :=
| EExport (authorized : bool) (now : Z) (fails : step -> bool) (fresh : Z) (sid : list Z) (q : ExportQuery)
| ETicket (authorized : bool) (now1 now2 : Z) (name sid : list Z) (q : ExportQuery)
| EBundleTicket (authorized : bool) (now1 now2 : Z) (name : list Z) (req : BundleRequest)
| EBundle (now now_ms : Z) (fails : step -> bool) (zip_fresh : Z) (fresh : nat -> Z) (ticket : list Z)
| EPoll (i : nat) (r : read)
| EDrop (i : nat).
Definition serve (s : Server) (e : event) : Server :=
  match e with
  | EExport a n fl fr sid q => fst (export_handler a n fl fr sid q s)
  | ETicket a n1 n2 k sid q => fst (export_ticket_handler a n1 n2 k sid q s)
  | EBundleTicket a n1 n2 k req => fst (export_bundle_ticket_handler a n1 n2 k req s)
  | EBundle n m fl zf fr k => fst (export_bundle_handler n m fl zf fr k s)
  | EPoll i r => fst (poll_stream i r s)
  | EDrop i => drop_stream i s
  end.
End Downloads.

(** ** What is in the temporary directory *)
(** The files of the responses being sent. *)
Definition owned (s : Server) : list (list Z) := omap cs_path (s_streams s).
(** The directory is what it was, and those files. *)
Record temp_inv (fs0 : Fs) (s : Server) : Prop := {
  ti_nodup : NoDup (owned s);
  ti_owned : forall p, p ∈ owned s -> fs0 !! p = None /\ is_Some (s_fs s !! p);
  ti_rest : forall p, p ∉ owned s -> s_fs s !! p = fs0 !! p
}.

Lemma omap_insert_same {A B} (g : A -> option B) (l : list A) (i : nat) x y : l !! i = Some x -> g y = g x -> omap g (<[i := y]> l) = omap g l.
Proof.
  intros Hi Hg. rewrite insert_take_drop by (by eapply lookup_lt_Some).
  rewrite <- (take_drop_middle l i x Hi) at 3. rewrite !omap_app. cbn. by rewrite Hg.
Qed.
Lemma close_inv fs0 s ts bs i st :
  temp_inv fs0 s -> s_streams s !! i = Some st ->
  temp_inv fs0 (mkServer ts bs (snd (cleanup st (s_fs s))) (<[i := fst (cleanup st (s_fs s))]> (s_streams s))).
Proof.
  intros [Hn Ho Hr] Hi. unfold owned in *. cbn [cleanup fst snd].
  pose proof (take_drop_middle _ _ _ Hi) as Hsplit.
  assert (Hins : <[i := mkStream None None]> (s_streams s) = take i (s_streams s) ++ mkStream None None :: drop (S i) (s_streams s)).
  { apply insert_take_drop. by eapply lookup_lt_Some. }
  assert (Hom : omap cs_path (<[i := mkStream None None]> (s_streams s)) =
    omap cs_path (take i (s_streams s)) ++ omap cs_path (drop (S i) (s_streams s))) by (rewrite Hins, omap_app; done).
  destruct (cs_path st) as [p|] eqn:Ep; cycle 1.
  { split; unfold owned; cbn [s_streams s_fs]; rewrite (omap_insert_same _ _ _ st) by done; done. }
  assert (Hs : omap cs_path (s_streams s) = omap cs_path (take i (s_streams s)) ++ p :: omap cs_path (drop (S i) (s_streams s))).
  { rewrite <- Hsplit at 1. rewrite omap_app. cbn. by rewrite Ep. }
  rewrite Hs in Hn, Ho, Hr. apply NoDup_app in Hn as (Hn1 & Hn2 & Hn3). apply NoDup_cons in Hn3 as [Hn3 Hn4].
  split; unfold owned; cbn [s_streams s_fs]; rewrite Hom.
  - apply NoDup_app. split; [done|]. split; [|done]. intros x Hx Hx'. apply (Hn2 x Hx). by right.
  - intros x Hx. destruct (Ho x) as [H1 H2]. { rewrite elem_of_app in *. rewrite elem_of_cons. tauto. }
    split; [done|]. rewrite lookup_delete_ne; [done|]. intros ->. apply elem_of_app in Hx as [Hx|Hx]; [|done].
    apply (Hn2 x Hx). by left.
  - intros x Hx. destruct (decide (x = p)) as [->|Hxp].
    + rewrite lookup_delete_eq. symmetry. apply Ho. apply elem_of_app. right. by left.
    + rewrite lookup_delete_ne by done. apply Hr. rewrite elem_of_app, elem_of_cons in *. tauto.
Qed.
Lemma poll_inv fs0 s i r : temp_inv fs0 s -> temp_inv fs0 (fst (poll_stream i r s)).
Proof.
  intros Hinv. unfold poll_stream. destruct (s_streams s !! i) as [st|] eqn:Ei; [|done]. unfold poll_next.
  assert (Hsame : forall st', cs_path st' = cs_path st ->
    temp_inv fs0 (mkServer (s_tickets s) (s_bundles s) (s_fs s) (<[i := st']> (s_streams s)))).
  { intros st' Hc. destruct Hinv as [Hn Ho Hr]. unfold owned in *.
    split; unfold owned; cbn [s_streams s_fs]; rewrite (omap_insert_same _ _ _ st) by done; done. }
  destruct (cs_file st) as [file|] eqn:Ef; [|by apply Hsame].
  destruct r as [|n|]; [by apply Hsame| |by apply (close_inv fs0 s)].
  destruct file as [|b file]; [by apply (close_inv fs0 s)|]. by apply Hsame.
Qed.
Lemma drop_inv fs0 s i : temp_inv fs0 s -> temp_inv fs0 (drop_stream i s).
Proof.
  intros Hinv. unfold drop_stream. destruct (s_streams s !! i) as [st|] eqn:Ei; [|done].
  by apply (close_inv fs0 s).
Qed.

(** *** Dropping the responses that are left *)
Definition closed_below (k : nat) (s : Server) : Prop :=
  forall j st, s_streams s !! j = Some st -> (j < k)%nat -> cs_path st = None.
Lemma drop_closes k s : closed_below k s -> closed_below (S k) (drop_stream k s).
Proof.
  intros H j st Hj Hlt. unfold drop_stream in Hj. destruct (s_streams s !! k) as [x|] eqn:Ek.
  - cbn [cleanup s_streams] in Hj. destruct (decide (j = k)) as [->|Hne].
    + rewrite list_lookup_insert_eq in Hj by (by eapply lookup_lt_Some). by simplify_eq.
    + rewrite list_lookup_insert_ne in Hj by done. apply (H j); [done|lia].
  - destruct (decide (j = k)) as [->|Hne]; [congruence|]. apply (H j); [done|lia].
Qed.
Lemma drop_length i s : length (s_streams (drop_stream i s)) = length (s_streams s).
Proof. unfold drop_stream. destruct (s_streams s !! i); [|done]. apply length_insert. Qed.
Definition drop_all (s : Server) : Server := foldl (fun s i => drop_stream i s) s (seq 0 (length (s_streams s))).
Lemma drop_all_inv fs0 s : temp_inv fs0 s -> temp_inv fs0 (drop_all s) /\ owned (drop_all s) = [].
Proof.
  intros Hi. unfold drop_all.
  assert (H : forall k, let s' := foldl (fun s i => drop_stream i s) s (seq 0 k) in
    temp_inv fs0 s' /\ closed_below k s' /\ length (s_streams s') = length (s_streams s)).
  { induction k as [|k (H1 & H2 & H3)]; [split; [done|]; split; [intros j st _ ?; lia|done]|].
    rewrite seq_S, foldl_snoc. split; [by apply drop_inv|]. split; [by apply drop_closes|]. by rewrite drop_length. }
  destruct (H (length (s_streams s))) as (H1 & H2 & H3). split; [done|].
  unfold owned. apply elem_of_nil_inv. intros p (st & Hst & Hp)%list_elem_of_omap.
  apply list_elem_of_lookup in Hst as [j Hj]. pose proof (lookup_lt_Some _ _ _ Hj). rewrite H3 in *.
  rewrite (H2 j st Hj) in Hp by lia. done.
Qed.

(** *** Reading a response *)
Fixpoint polls (i : nat) (rs : list read) (s : Server) : Server * list poll :=
  match rs with
  | [] => (s, [])
  | r :: rs' =>
      let '(s1, p) := poll_stream i r s in
      let '(s2, ps) := polls i rs' s1 in (s2, match p with Some p => p :: ps | None => ps end)
  end.
Definition chunks (ps : list poll) : list Z := concat (omap (fun p => match p with PChunk b => Some b | _ => None end) ps).
Definition reads (rs : list read) : nat := length (List.filter (fun r => match r with RBytes _ => true | _ => false end) rs).

Lemma polls_closed i rs : forall s, s_streams s !! i = Some (mkStream None None) ->
  let '(s', ps) := polls i rs s in s_fs s' = s_fs s /\ chunks ps = [] /\ Forall (fun p => p = PDone) ps.
Proof.
  induction rs as [|r rs IH]; intros s Hs; [done|]. cbn [polls]. unfold poll_stream. rewrite Hs. cbn [poll_next cs_file].
  specialize (IH (mkServer (s_tickets s) (s_bundles s) (s_fs s) (<[i := mkStream None None]> (s_streams s)))).
  destruct (polls i rs _) as [s' ps]. destruct IH as (H1 & H2 & H3).
  { cbn. apply list_lookup_insert_eq. by eapply lookup_lt_Some. }
  split; [done|]. split; [done|]. by constructor.
Qed.
(** With enough reads a stream sends its whole file, in order, and its path is gone. *)
Lemma polls_send i path rs : forall file s,
  s_streams s !! i = Some (mkStream (Some file) (Some path)) ->
  Forall (fun r => r <> RFail) rs -> (length file < reads rs)%nat ->
  let '(s', ps) := polls i rs s in
  chunks ps = file /\ s_fs s' = delete path (s_fs s) /\ Forall (fun p => p <> PError) ps.
Proof.
  induction rs as [|r rs IH]; intros file s Hs HF Hn; [cbn in Hn; lia|]. inversion HF as [|? ? Hr HF']; subst.
  pose proof (lookup_lt_Some _ _ _ Hs) as Hlt. cbn [polls]. unfold poll_stream. rewrite Hs.
  unfold poll_next. cbn [cs_file cs_path]. destruct r as [|n|]; [| |done].
  - set (s1 := mkServer _ _ _ _). specialize (IH file s1). destruct (polls i rs s1) as [s' ps].
    destruct IH as (H1 & H2 & H3); [by apply list_lookup_insert_eq|done|exact Hn|].
    split; [done|]. split; [done|]. by constructor.
  - destruct file as [|b file].
    + cbn [cleanup cs_path]. set (s1 := mkServer _ _ _ _). pose proof (polls_closed i rs s1) as Hc. destruct (polls i rs s1) as [s' ps].
      destruct Hc as (H1 & H2 & H3); [by apply list_lookup_insert_eq|].
      split; [done|]. split; [by rewrite H1|]. constructor; [done|]. eapply Forall_impl; [exact H3|]. by intros p ->.
    + set (k := Nat.max 1 (Nat.min n CHUNK)). set (s1 := mkServer _ _ _ _).
      specialize (IH (drop k (b :: file)) s1). destruct (polls i rs s1) as [s' ps].
      destruct IH as (H1 & H2 & H3); [by apply list_lookup_insert_eq|done| |].
      { rewrite length_drop. cbn [reads List.filter length] in *. unfold reads in Hn. cbn in Hn. unfold reads. lia. }
      split; [|split; [done|by constructor]]. unfold chunks in *. cbn [omap list_omap concat]. rewrite H1. apply take_drop.
Qed.

Section Facts.
  Context (parse_uuid : list Z -> option Z) (uuid_str : Z -> list Z) (rfc3339_secs : Z -> option (list Z))
    (session_dir_for_sid : Z -> option (list Z)) (session_root : option (list Z)) (exists_ : list Z -> bool)
    (canonicalize : list Z -> option (list (list Z))) (has_index : list Z -> bool)
    (export_to : ExportFormat -> list Z -> option (list Z) -> option (list Z) -> option (list Z) * result unit)
    (header_ok : list Z -> bool) (temp_dir : list Z) (defaults : ExportDefaults).
  Abbreviation export_path := (temp_export_path uuid_str temp_dir).
  Abbreviation bundle_path := (temp_bundle_path uuid_str temp_dir).
  Abbreviation session_export := (export_session parse_uuid uuid_str session_dir_for_sid session_root exists_
    canonicalize has_index export_to temp_dir defaults).
  Abbreviation bundle_export := (export_bundle parse_uuid uuid_str rfc3339_secs session_dir_for_sid session_root exists_
    canonicalize has_index export_to temp_dir defaults).
  Abbreviation serve1 := (serve parse_uuid uuid_str rfc3339_secs session_dir_for_sid session_root exists_ canonicalize
    has_index export_to header_ok temp_dir defaults).

(** *** Temporary files *)
Lemma export_one_drop (f : ExportFormat) (dir dst : list Z) (tz enc : option (list Z)) (fs : Fs) :
  fs !! dst = None -> delete dst (fst (export_one export_to f dir dst tz enc fs)) = fs.
Proof using Type.
  intros H. unfold export_one. destruct (export_to f dir tz enc) as [[b|] r]; cbn [fst].
  - by apply delete_insert_id.
  - by apply delete_id.
Qed.

(** What an export does to the temporary directory: nothing, or one more file. *)
Definition leaves (fs fs' : Fs) (r : dres ExportArtifact) : Prop :=
  match r with
  | Ok a => fs !! a_cleanup_path a = None /\ fs' = <[a_cleanup_path a := a_file a]> fs /\ a_len a = zlen (a_file a)
  | _ => fs' = fs
  end.
Lemma artifact_leaves (fails : step -> bool) (path name ct : list Z) (fs fs1 : Fs) :
  fs !! path = None -> delete path fs1 = fs ->
  let '(fs', r) := artifact fails (temp_new path) name ct fs1 in leaves fs fs' r.
Proof using Type.
  intros Hn Hd. unfold artifact, temp_new. cbn [te_path].
  destruct (fs1 !! path) as [data|] eqn:E; [|exact Hd].
  destruct (fails SStat || fails SOpen); [exact Hd|]. cbn. split; [done|]. split; [|done].
  rewrite <- Hd. by rewrite insert_delete_id.
Qed.

Lemma export_session_leaves (fails : step -> bool) (fresh : Z) (sid : list Z) (q : ExportQuery) (fs : Fs) :
  (forall sd f, fs !! export_path sd fresh f = None) ->
  let '(fs', r) := session_export fails fresh sid q fs in leaves fs fs' r.
Proof using Type.
  intros Hf. unfold export_session. match goal with |- context [match ?x with _ => _ end] => destruct x as [[[sd f] dir]|e|] end; [|done..].
  cbn [te_path temp_new].
  set (tz := or_else _ _). set (enc := or_else _ _).
  pose proof (export_one_drop f dir (export_path sd fresh f) tz enc fs (Hf sd f)) as Hd.
  destruct (export_one export_to f dir (export_path sd fresh f) tz enc fs) as [fs1 r]. cbn [fst] in Hd.
  destruct r as [u|e|]; [|exact Hd..]. by apply artifact_leaves.
Qed.

Lemma bundle_loop_fs (fails : step -> bool) (f : ExportFormat) (tz pat : option (list Z)) (ms : Z) (fresh : nat -> Z)
    (jobs : list BundleExportJob) : forall (i : nat) (used : gset (list Z)) (z : StoredZipWriter) (fs : Fs),
  (forall i sd, fs !! export_path sd (fresh i) f = None) ->
  fst (bundle_loop uuid_str rfc3339_secs export_to temp_dir fails f tz pat ms fresh i jobs used z fs) = fs.
Proof using Type.
  induction jobs as [|j jobs IH]; intros i used z fs Hf; [done|]. cbn [bundle_loop te_path temp_new].
  pose proof (export_one_drop f (j_dir j) (export_path (j_sid j) (fresh i) f) tz (j_encoding j) fs (Hf i (j_sid j))) as Hd.
  destruct (export_one export_to f (j_dir j) _ tz (j_encoding j) fs) as [fs1 r]. cbn [fst] in Hd.
  unfold temp_drop, temp_new. cbn [te_cleanup te_path]. rewrite Hd.
  match goal with |- context [match ?x with Ok _ => _ | Err _ => _ | Panic => _ end] => destruct x as [[u' z']|e|] end;
    [by apply IH|done..].
Qed.

Lemma export_bundle_paths (sd fr : Z) (f : ExportFormat) (zf : Z) (f' : ExportFormat) : export_path sd fr f <> bundle_path zf f'.
Proof using Type.
  unfold temp_export_path, temp_bundle_path. intros H. apply app_inv_head in H. apply (f_equal (fun l => l !! 11%nat)) in H.
  vm_compute in H. discriminate.
Qed.
Lemma create_bundle_zip_fs (fails : step -> bool) (zf : Z) (jobs : list BundleExportJob) (f : ExportFormat)
    (tz pat : option (list Z)) (ms : Z) (fresh : nat -> Z) (fs : Fs) :
  fs !! bundle_path zf f = None -> (forall i sd, fs !! export_path sd (fresh i) f = None) ->
  delete (bundle_path zf f) (fst (create_bundle_zip uuid_str rfc3339_secs export_to temp_dir fails (bundle_path zf f)
    jobs f tz pat ms fresh fs)) = fs.
Proof using Type.
  intros Hz Hf. unfold create_bundle_zip. destruct (fails SCreateZip); [by apply delete_id|].
  pose proof (bundle_loop_fs fails f tz pat ms fresh jobs 0 ∅ zip_create (<[bundle_path zf f := []]> fs)) as Hl.
  destruct (bundle_loop _ _ _ _ _ _ _ _ _ _ _ _ _ _ _) as [fs1 r]. cbn [fst] in Hl. rewrite Hl.
  - destruct (mbind _ r) as [out|e|]; cbn [fst]; rewrite ?insert_insert_eq; by apply delete_insert_id.
  - intros i sd. rewrite lookup_insert_ne; [apply Hf|]. apply not_eq_sym, export_bundle_paths.
Qed.
Lemma export_bundle_leaves (fails : step -> bool) (ms zf : Z) (fresh : nat -> Z) (req : BundleRequest) (fs : Fs) :
  (forall f, fs !! bundle_path zf f = None) -> (forall i sd f, fs !! export_path sd (fresh i) f = None) ->
  let '(fs', r) := bundle_export fails ms zf fresh req fs in leaves fs fs' r.
Proof using Type.
  intros Hz Hf. unfold export_bundle. match goal with |- context [match ?x with _ => _ end] => destruct x as [[f jobs]|e|] end; [|done..].
  cbn [te_path temp_new]. set (tz := or_else _ _). set (t := default ms _).
  pose proof (create_bundle_zip_fs fails zf jobs f tz (b_pattern req) t fresh fs (Hz f) (fun i sd => Hf i sd f)) as Hd.
  destruct (create_bundle_zip _ _ _ _ _ _ _ _ _ _ _ _ _) as [fs1 r]. cbn [fst] in Hd.
  destruct r as [u|e|]; [|exact Hd..]. by apply artifact_leaves.
Qed.

(** *** The invariant of a serving process *)
(** The temporary files a request will create are not there yet. *)
Definition fresh_for (s : Server) (e : event) : Prop :=
  match e with
  | EExport _ _ _ fr _ _ => forall sd f, s_fs s !! export_path sd fr f = None
  | EBundle _ _ _ zf fr _ =>
      (forall f, s_fs s !! bundle_path zf f = None) /\ (forall i sd f, s_fs s !! export_path sd (fr i) f = None)
  | _ => True
  end.
Fixpoint fresh_run (s : Server) (es : list event) : Prop :=
  match es with [] => True | e :: es' => fresh_for s e /\ fresh_run (serve1 s e) es' end.

Lemma respond_inv fs0 s ts bs fs' r :
  temp_inv fs0 s -> leaves (s_fs s) fs' r ->
  temp_inv fs0 (mkServer ts bs fs' (s_streams s ++ open_stream (respond header_ok r))).
Proof using Type.
  intros [Hn Ho Hr] Hl. unfold owned in *. destruct r as [a|e|]; cbn [leaves respond open_stream r_body error_response] in *.
  2,3: subst fs'; split; unfold owned; cbn [s_streams s_fs]; rewrite app_nil_r; assumption.
  destruct Hl as (Hf & -> & _).
  assert (Hnew : a_cleanup_path a ∉ omap cs_path (s_streams s)).
  { intros H. apply Ho in H as [_ [x Hx]]. congruence. }
  split; unfold owned; cbn [s_streams s_fs]; rewrite omap_app; cbn.
  - apply NoDup_app. split; [done|]. split; [|apply NoDup_singleton].
    intros x Hx Hx'. apply list_elem_of_singleton in Hx'. by subst.
  - intros p [Hp|Hp%list_elem_of_singleton]%elem_of_app.
    + destruct (Ho p Hp) as [H1 H2]. split; [done|]. rewrite lookup_insert_ne; [done|]. intros E. by subst p.
    + subst p. split; [by rewrite <- Hr|]. rewrite lookup_insert_eq. eauto.
  - intros p Hp. rewrite not_elem_of_app, not_elem_of_cons in Hp. destruct Hp as (Hp & Hne & _).
    rewrite lookup_insert_ne by done. by apply Hr.
Qed.

Lemma serve_inv fs0 s e : temp_inv fs0 s -> fresh_for s e -> temp_inv fs0 (serve1 s e).
Proof using Type.
  intros Hinv Hf. destruct e as [a n fl fr sid q|a n1 n2 k sid q|a n1 n2 k req|n m fl zf fr k|i r|i]; cbn [serve fresh_for] in *.
  - unfold export_handler. destruct (authorize_export_request _ _ _ _ _ _ _) as [ts [u|e|]]; [|by destruct Hinv..].
    pose proof (export_session_leaves fl fr sid q (s_fs s) Hf) as Hl.
    destruct (session_export fl fr sid q (s_fs s)) as [fs' r]. by apply respond_inv.
  - unfold export_ticket_handler. destruct a; [|done]. cbn [negb]. by destruct (ticket_scope _ _ _ _), Hinv.
  - unfold export_bundle_ticket_handler. destruct a; [|done]. cbn [negb]. by destruct (validate_bundle_request _ _), Hinv.
  - unfold export_bundle_handler. destruct (Tickets.consume_bundle _ _ _) as [bs [req|e|]]; [|by destruct Hinv..].
    destruct Hf as [Hz Hf]. pose proof (export_bundle_leaves fl m zf fr req (s_fs s) Hz Hf) as Hl.
    destruct (bundle_export fl m zf fr req (s_fs s)) as [fs' r]. by apply respond_inv.
  - by apply poll_inv.
  - by apply drop_inv.
Qed.
Lemma serve_run_inv es : forall fs0 s, temp_inv fs0 s -> fresh_run s es -> temp_inv fs0 (foldl serve1 s es).
Proof using Type.
  induction es as [|e es IH]; intros fs0 s Hi Hf; [done|]. destruct Hf as [He Hf]. apply IH; [by apply serve_inv|done].
Qed.


(** C30: an authorized request for a session whose export succeeds is answered with
    the exported bytes: status 200, their length announced, and a client that
    keeps reading receives exactly those bytes and then the end, after which the
    temporary file is gone; one read per byte and one more are always enough. *)
Theorem download_sends_export sid_text q sid f dir data now fails fresh s :
  parse_uuid sid_text = Some sid -> format_parse (q_format q) = Ok f -> session_dir_for_sid sid = Some dir ->
  ensure_session_dir session_root exists_ canonicalize has_index dir = Ok tt ->
  export_to f dir (or_else (clean_optional (q_tz q)) (d_timezone defaults))
    (or_else (clean_optional (q_encoding q)) (d_encoding defaults)) = (Some data, Ok tt) ->
  fails SStat = false -> fails SOpen = false -> header_ok (show_nat (zlen data)) = true ->
  s_fs s !! export_path sid fresh f = None ->
  let '(s1, resp) := export_handler parse_uuid uuid_str session_dir_for_sid session_root exists_ canonicalize has_index
    export_to header_ok temp_dir defaults true now fails fresh sid_text q s in
  r_status resp = 200 /\ (lit "content-length", show_nat (zlen data)) ∈ r_headers resp /\
  forall rs, Forall (fun r => r <> RFail) rs -> (length data < reads rs)%nat ->
    let '(s2, ps) := polls (length (s_streams s)) rs s1 in
    chunks ps = data /\ Forall (fun p => p <> PError) ps /\ s_fs s2 = s_fs s.
Proof using Type.
  intros Hu Hf Hd He Hx H1 H2 Hh Hn. unfold export_handler. cbn [authorize_export_request].
  unfold export_session. rewrite Hu. cbn [ok_or mbind res_bind]. rewrite Hf. cbn [map_err mbind res_bind].
  rewrite Hd. cbn [ok_or mbind res_bind]. rewrite He. cbn [mbind res_bind].
  unfold export_one. cbn [te_path temp_new]. rewrite Hx. unfold artifact. cbn [te_path temp_new].
  rewrite lookup_insert_eq, H1, H2. cbn [orb into_path te_path te_cleanup temp_drop].
  set (a := mkArtifact _ _ _ _ _). split; [done|]. split.
  { cbn [respond artifact_response r_headers]. change (a_len a) with (zlen data). rewrite Hh. cbn [app]. right. by left. }
  intros rs HF Hr. set (s1 := mkServer _ _ _ _).
  pose proof (polls_send (length (s_streams s)) (export_path sid fresh f) rs data s1) as Hp.
  destruct (polls (length (s_streams s)) rs s1) as [s2 ps]. destruct Hp as (G1 & G2 & G3); [|done|done|].
  { cbn [s1 s_streams open_stream respond artifact_response r_body]. by rewrite lookup_app_r, Nat.sub_diag by lia. }
  split; [done|]. split; [done|]. rewrite G2. cbn [s1 s_fs]. by apply delete_insert_id.
Qed.

(** Only sessions below the session root are exported. *)
Theorem export_confined fails fresh sid q fs fs' a root :
  session_root = Some root -> session_export fails fresh sid q fs = (fs', Ok a) ->
  exists sd dir cp cr, parse_uuid sid = Some sd /\ session_dir_for_sid sd = Some dir /\ canonicalize dir = Some cp /\
    canonicalize root = Some cr /\ path_starts_with cr cp = true.
Proof using Type.
  intros Hroot. unfold export_session. destruct (parse_uuid sid) as [sd|]; [|done]. cbn [ok_or mbind res_bind].
  destruct (map_err Api (format_parse (q_format q))) as [f|e|]; [|done..]. cbn [mbind res_bind].
  destruct (session_dir_for_sid sd) as [dir|] eqn:Ed; [|done]. cbn [ok_or mbind res_bind].
  unfold ensure_session_dir. destruct (exists_ dir); [|done]. cbn [negb]. rewrite Hroot.
  destruct (canonicalize dir) as [cp|] eqn:Ec; [|done]. cbn [ok_or mbind res_bind].
  destruct (canonicalize root) as [cr|] eqn:Er; [|done]. cbn [ok_or mbind res_bind].
  destruct (path_starts_with cr cp) eqn:Ep; [|done]. intros _. exists sd, dir, cp, cr. done.
Qed.
End Facts.

(** ** A server over one exported session *)
Module DownloadsDemo.
Definition uuid (s : list Z) : option Z := if str_eqb s (lit "1") then Some 1 else None.
Definition dir_of_sid (sid : Z) : option (list Z) := if sid =? 1 then Some (lit "logs/a") else None.
Definition canon (p : list Z) : option (list (list Z)) := Some (split_on 47 p).
Definition exporter (f : ExportFormat) (_ : list Z) (tz en : option (list Z)) : option (list Z) * result unit :=
  match f with
  | FText => text_export (fun b _ => from_utf8_lossy b) (fun _ => None) unit unit (fun _ _ => Some tt) (fun _ => Some tt)
               (fun _ _ => tt) (fun _ => Some []) true (log_dir [97; 44; 98] [index0]) tz en
  | _ => (Some [1], Panic)
  end.
Definition query (f : string) : ExportQuery := mkQuery (lit f) None None None None.
Definition no_defaults : ExportDefaults := mkDefaults None None.
Definition idle : Server := mkServer ∅ ∅ ∅ [].
Definition run : list event :=
  [EExport true 0 (fun _ => false) 7 (lit "1") (query "text"); EPoll 0 (RBytes 4);
   EExport true 0 (fun _ => false) 8 (lit "1") (query "csv"); EPoll 0 RPending].
End DownloadsDemo.
Import DownloadsDemo.


Lemma download_sends_export_witness :
  let '(s1, resp) := export_handler uuid show_nat dir_of_sid (Some (lit "logs")) (fun _ => true) canon (fun _ => true)
    exporter (fun _ => true) (lit "/tmp") no_defaults true 0 (fun _ => false) 7 (lit "1") (query "text") idle in
  r_status resp = 200 /\ (lit "content-length", show_nat 25) ∈ r_headers resp /\
  forall rs, Forall (fun r => r <> RFail) rs -> (25 < reads rs)%nat ->
    let '(s2, ps) := polls 0 rs s1 in
    chunks ps = ts_origin index0 ++ [9; 97; 44; 98; 10] /\ Forall (fun p => p <> PError) ps /\ s_fs s2 = ∅.
Proof.
  apply (download_sends_export uuid show_nat dir_of_sid (Some (lit "logs")) (fun _ => true) canon (fun _ => true)
    exporter (fun _ => true) (lit "/tmp") no_defaults (lit "1") (query "text") 1 FText (lit "logs/a")
    (ts_origin index0 ++ [9; 97; 44; 98; 10]) 0 (fun _ => false) 7 idle);
    first [vm_compute; reflexivity | apply lookup_empty].
Defined.

(** The name of a download is announced whatever name was asked for: it is sanitised
    before, so no character a header refuses is left in it. *)
Theorem disposition_announced header_ok uuid_str sid f requested ct n data path :
  (forall s, Forall (fun c => is_control c = false) s -> header_ok s = true) ->
  let name := export_filename uuid_str sid f requested in
  (lit "content-disposition", lit "attachment; filename=" ++ [34] ++ name ++ [34]) ∈
    r_headers (artifact_response header_ok (mkArtifact name ct n data path)) /\ safe_filename name.
Proof.
  intros Hh name. assert (Hs : safe_filename name) by apply with_extension_safe, sanitize_filename_safe.
  split; [|done]. cbn [artifact_response r_headers a_filename].
  rewrite (Hh (lit "attachment; filename=" ++ _)); [rewrite !elem_of_app; right; right; right; by left|].
  destruct Hs as (_ & Hv & _). rewrite !Forall_app. split; [apply (bool_decide_unpack _); reflexivity|].
  split; [by apply Forall_singleton|]. split; [|by apply Forall_singleton].
  eapply Forall_impl; [exact Hv|]. intros c Hc. unfold invalid_char in Hc. by apply orb_false_iff in Hc as [_ ?].
Qed.
Lemma disposition_announced_witness :
  let name := export_filename show_nat 7 FCsv (Some [34; 0x65E5; 10]) in
  (lit "content-disposition", lit "attachment; filename=" ++ [34] ++ name ++ [34]) ∈
    r_headers (artifact_response (forallb (fun c => negb (is_control c))) (mkArtifact name (content_type FCsv) 0 [] [])) /\
  safe_filename name.
Proof.
  apply disposition_announced. intros s Hs. apply forallb_forall. intros c Hc%list_elem_of_In.
  rewrite Forall_forall in Hs. by rewrite (Hs c Hc).
Defined.
