(* ===== verification/Confine.v ===== *)
(** * Session directories stay below the session root

    The source manager (crates/server/src/source_manager.rs) and the downloads
    (crates/server/src/export_api.rs) together: which directories sessions get,
    under every interleaving of calls and tasks and whatever name patterns the
    clients ask for, and what the guard of the downloads makes of them. *)
From stdpp Require Import base numbers strings gmap list.
From S2P Require Import Prelude Text Naming Spec Detect Sessions Manager Export Downloads.

Local Open Scope Z_scope.
Local Open Scope tm_scope.

(** [session_dir_for_sid] of the manager. *)
Definition session_dir_for_sid {Tx : Type} (st : State Tx) (sid : Z) : option (list Z) := sources Tx st !! sid ≫= e_dir.

Section Confined.
  Variable Tx : Type.
  Variable send : Tx -> list Z -> Tx * option Z.
  Variable decode_label : list Z -> list Z -> list Z * bool.
  Variable to_lowercase : list Z -> list Z.
  Variable build_regex : list Z -> bool -> option (list Z -> Z).
  Variable root : list Z.
  Abbreviation St := (State Tx).

(** A directory right below the root, with a safe name. *)
Definition below (d : list Z) : Prop := exists n, d = path_join root n /\ SessionName.safe_name n.
Definition dir_below (d : option (list Z)) : Prop := forall x, d = Some x -> below x.
Definition call_below (a : Call) : Prop :=
  match a with Starting _ _ d _ => dir_below d | Spawned _ _ e => dir_below (e_dir e) | Waiting _ _ _ => True end.
Record confined (st : St) : Prop := {
  c_root : Manager.session_root (settings Tx st) = Some root;
  c_sources : map_Forall (fun _ e => dir_below (e_dir e)) (sources Tx st);
  c_tasks : map_Forall (fun _ t => dir_below (t_dir t)) (tasks Tx st);
  c_calls : map_Forall (fun _ a => call_below a) (calls Tx st) }.

Lemma none_below : dir_below None.
Proof using Type. by intros x. Qed.
Lemma session_dir_below s spec reuse o ts ns :
  Manager.session_root s = Some root -> dir_below reuse -> dir_below (session_dir_for s spec reuse o ts ns).
Proof using Type.
  intros Hr Hd. unfold session_dir_for. destruct reuse as [d|]; cbn [opt_or]; [done|]. rewrite Hr. intros x [= <-].
  eexists. split; [reflexivity|]. apply SessionName.sanitize_safe.
Qed.
(** The outcome of a locked section or of a start. *)
Definition out_below (out : St * res MgrError Call) : Prop := confined (fst out) /\ forall a, snd out = Ok a -> call_below a.
Lemma proceed_confined c out : out_below out -> confined (proceed Tx c out).
Proof using Type.
  intros [[H1 H2 H3 H4] Ha]. unfold proceed. destruct out as [st [a|e|]]; cbn [fst snd] in *; split; try done; cbn [calls set_calls].
  - apply map_Forall_insert_2; [by apply Ha|done].
  - by apply map_Forall_delete.
  - by apply map_Forall_delete.
Qed.
Lemma launch_below st sid dir k i tx reg e sink : confined st -> dir_below dir -> dir_below (e_dir e) ->
  out_below (launch Tx st sid dir k i tx reg e sink).
Proof using Type.
  intros [H1 H2 H3 H4] Hd He. unfold launch. destruct reg.
  - destruct (Ingest.register_session Tx _ _) as [g j]. split; [|by intros a [= <-]]. split; try done. cbn. by apply map_Forall_insert_2.
  - split; [|done]. split; try done. cbn. by apply map_Forall_insert_2.
Qed.
Lemma default_pipeline_below st sid spec dir duplex o w : confined st -> dir_below dir ->
  out_below (start_default_pipeline Tx decode_label to_lowercase build_regex st sid spec dir duplex o w).
Proof using Type.
  intros Hc Hd. unfold start_default_pipeline. case_match; [|by split]. destruct (log_sink_ok Tx dir w); [|by split].
  by apply launch_below.
Qed.
Lemma start_below st sid spec reuse o w : confined st -> dir_below reuse ->
  out_below (start_spec_with_sid Tx decode_label to_lowercase build_regex st sid spec reuse o w).
Proof using Type.
  intros Hc Hr. pose proof (session_dir_below (settings Tx st) spec reuse o (w_timestamp Tx w) (w_unix_ns Tx w) (c_root _ Hc) Hr) as Hd.
  unfold start_spec_with_sid, start_duplex_spec, start_source_only_spec, start_remote_spec, start_pcap_source_with_sid.
  destruct spec; repeat case_match; first [by split|by apply default_pipeline_below|by apply launch_below].
Qed.
Lemma sources_below st m : confined st -> map_Forall (fun _ e => dir_below (e_dir e)) m -> confined (set_sources Tx st m).
Proof using Type. intros [H1 H2 H3 H4] Hm. by split. Qed.
Lemma entry_below st sid e e' : confined st -> sources Tx st !! sid = Some e -> e_dir e' = e_dir e ->
  confined (set_sources Tx st (<[sid := e']> (sources Tx st))).
Proof using Type.
  intros Hc He Hd. apply sources_below; [done|]. apply map_Forall_insert_2; [|apply Hc].
  rewrite Hd. by apply (c_sources _ Hc sid).
Qed.
Lemma abort_below st h : confined st -> confined (set_tasks Tx st (abort_handle (tasks Tx st) h)).
Proof using Type.
  intros [H1 H2 H3 H4]. split; try done. cbn [tasks set_tasks]. destruct h as [k|]; [|done]. cbn. intros i t Ht.
  unfold abort in Ht. apply lookup_alter_Some in Ht as [(-> & t0 & H & ->) | [_ H]]; [|by eapply H3].
  case_decide; by eapply (H3 _ _ H).
Qed.
Lemma clear_dir st e : e_dir (clear_finished Tx st e) = e_dir e.
Proof using Type. unfold clear_finished. destruct (e_handle e); [|done]. by destruct (is_finished Tx st _). Qed.
Lemma resume_below st sid : confined st -> out_below (resume Tx st sid).
Proof using Type.
  intros Hc. unfold resume. destruct (sources Tx st !! sid) as [e|] eqn:E; [|by split].
  pose proof (entry_below st sid e (clear_finished Tx st e) Hc E (clear_dir st e)) as Hc'.
  destruct (e_handle (clear_finished Tx st e)); [by split|]. destruct (e_spec (clear_finished Tx st e)); [|by split].
  split; [done|]. intros a [= <-]. cbn [call_below]. rewrite clear_dir. by apply (c_sources _ Hc sid).
Qed.
Lemma restart_below st sid o : confined st -> out_below (restart_with_options Tx st sid o).
Proof using Type.
  intros Hc. unfold restart_with_options. destruct (sources Tx st !! sid) as [e|] eqn:E; [|by split].
  destruct (e_spec e); [|by split]. split.
  - apply (abort_below (set_sources Tx st (<[sid := with_run e None None]> (sources Tx st)))). by eapply entry_below.
  - intros a [= <-]. by apply (c_sources _ Hc sid).
Qed.
Lemma stop_below st sid : confined st -> confined (fst (stop Tx st sid)).
Proof using Type.
  intros Hc. unfold stop. destruct (sources Tx st !! sid) as [e|] eqn:E; [|done].
  apply (abort_below (set_sources Tx st (<[sid := with_run e None None]> (sources Tx st)))). by eapply entry_below.
Qed.
Lemma remove_below st sid : confined st -> confined (fst (remove Tx st sid)).
Proof using Type.
  intros Hc. unfold remove. destruct (Ingest.remove Tx _ sid) as [reg r]. cbn [fst].
  assert (Hc' : confined (set_tasks Tx (set_sources Tx st (delete sid (sources Tx st))) (abort_handle (tasks Tx st) (sources Tx st !! sid ≫= e_handle)))).
  { apply (abort_below (set_sources Tx st (delete sid (sources Tx st)))). apply sources_below; [done|]. apply map_Forall_delete, Hc. }
  destruct Hc'. by split.
Qed.
Lemma write_below st sid : confined st -> confined (fst (write Tx st sid)).
Proof using Type.
  intros Hc. unfold write. destruct (sources Tx st !! sid) as [e|] eqn:E; [|done]. eapply entry_below; [done..|apply clear_dir].
Qed.
Lemma wait_done_below st sid rm : confined st -> confined (wait_done Tx st sid rm).
Proof using Type.
  intros Hc. unfold wait_done. apply sources_below; [done|].
  assert (H : map_Forall (fun _ e => dir_below (e_dir e)) (alter (fun e => with_run e (e_handle e) None) sid (sources Tx st))).
  { intros i e He. apply lookup_alter_Some in He as [(-> & e0 & H & ->) | [_ H]]; by apply (c_sources _ Hc _ _ H). }
  destruct rm; [by apply map_Forall_delete|done].
Qed.
Lemma reap_below st : confined st -> confined (reap_finished Tx st).
Proof using Type.
  intros Hc. apply sources_below; [done|]. intros i e He. apply lookup_omap_Some in He as (e0 & Hr & H0).
  unfold reap_entry in Hr. repeat case_match; simplify_eq; rewrite clear_dir; by apply (c_sources _ Hc _ _ H0).
Qed.
Lemma step_below excl st st' : Manager.step Tx send decode_label to_lowercase build_regex excl st st' -> confined st -> confined st'.
Proof using Type.
  intros Hs Hc. pose proof Hc as [H1 H2 H3 H4]. inversion Hs; subst; clear Hs.
  - split; try done. cbn. congruence.
  - apply proceed_confined. split; [done|]. intros a [= <-]. apply none_below.
  - apply proceed_confined. by apply launch_below.
  - by apply proceed_confined, resume_below.
  - by apply proceed_confined, restart_below.
  - apply proceed_confined, start_below; [done|]. by apply (H4 _ _ H).
  - assert (Hi : confined (insert_spawned Tx st sid e)).
    { apply sources_below; [done|]. apply map_Forall_insert_2; [by apply (H4 _ _ H)|done]. }
    destruct Hi. split; try done. cbn [calls set_calls]. by apply map_Forall_delete.
  - apply proceed_confined. match goal with H : wait Tx st sid = _ |- _ => rename H into Hw end. unfold wait in Hw.
    apply bind_Some in Hw as (e & He & Hw). apply bind_Some in Hw as (k & Hk & [= <- <-]).
    split; [by eapply entry_below|]. by intros ? [= <-].
  - destruct (wait_done_below st sid rm Hc). split; try done. cbn [calls set_calls]. by apply map_Forall_delete.
  - by apply stop_below.
  - by apply remove_below.
  - by apply reap_below.
  - by apply write_below.
  - split; try done. cbn [tasks set_tasks]. apply map_Forall_insert_2; [|done]. by apply (H3 _ _ H).
  - by split.
Qed.
Lemma reachable_confined excl s st :
  Manager.session_root s = Some root -> reachable Tx send decode_label to_lowercase build_regex excl s st -> confined st.
Proof using Type.
  intros Hr. induction 1 as [|st st' _ IH Hs]; [|by eapply step_below]. split; try done; cbn; apply map_Forall_empty.
Qed.
End Confined.

(** ** The guard of the downloads *)
Lemma starts_with_app cr rest : path_starts_with cr (cr ++ rest) = true.
Proof. induction cr as [|c cr IH]; [done|]. cbn. rewrite IH. unfold str_eqb. by rewrite bool_decide_eq_true_2. Qed.
(** [Path::components] of a path below [root]: what [canonicalize] must do with a
    directory that is no symbolic link. *)
Definition resolves_below (root : list Z) (canonicalize : list Z -> option (list (list Z))) (exists_ : list Z -> bool) : Prop :=
  exists cr, canonicalize root = Some cr /\
    forall n, SessionName.safe_name n -> exists_ (path_join root n) = true -> canonicalize (path_join root n) = Some (cr ++ [n]).

(** C9: sessions stay below the session root, and can be downloaded from there.
    Under every interleaving of calls and tasks, also one in which calls on one
    source overlap, and whatever name patterns were configured or asked for with
    a start, each session directory of a source, of a running task or of a start
    in flight lies directly below the session root and has a safe name (no
    separator, not dot or dot-dot); so the guard of the downloads lets through
    exactly those that exist and have an index, and never takes a session of the
    manager for one outside the root. *)
Theorem sessions_confined (Tx : Type) send decode_label to_lowercase build_regex excl s root (st : State Tx) canonicalize exists_ has_index :
  Manager.session_root s = Some root -> reachable Tx send decode_label to_lowercase build_regex excl s st ->
  resolves_below root canonicalize exists_ ->
  (forall k t d, tasks Tx st !! k = Some t -> t_dir t = Some d -> below root d) /\
  (forall c sid spec d o, calls Tx st !! c = Some (Starting sid spec (Some d) o) -> below root d) /\
  forall sid d, session_dir_for_sid st sid = Some d ->
    below root d /\
    ensure_session_dir (Some root) exists_ canonicalize has_index d =
      (if exists_ d then if has_index d then Ok tt else Err IndexMissing else Err DirMissing).
Proof.
  intros Hr Hreach (cr & Hcr & Hcan).
  pose proof (reachable_confined Tx send decode_label to_lowercase build_regex root excl s st Hr Hreach) as Hc.
  split; [intros k t d Ht Hd; by apply (c_tasks _ _ _ Hc k t Ht)|].
  split; [intros c sid spec d o Ha; by apply (c_calls _ _ _ Hc c _ Ha)|].
  intros sid d (e & He & Hd)%bind_Some. pose proof (c_sources _ _ _ Hc sid e He d Hd) as Hb. split; [done|].
  destruct Hb as (n & -> & Hn). unfold ensure_session_dir. destruct (exists_ (path_join root n)) eqn:Ex; [|done]. cbn [negb].
  rewrite (Hcan n Hn Ex), Hcr. cbn [ok_or mbind res_bind]. by rewrite starts_with_app.
Qed.

(** A file system in which ["root"] is a plain directory. *)
Definition canon0 (p : list Z) : option (list (list Z)) :=
  Some (match strip_prefix (lit "root/") p with Some n => [lit "root"; n] | None => [p] end).
Lemma sessions_confined_witness :
  exists d, session_dir_for_sid Example.started 1 = Some d /\ below (lit "root") d /\
    ensure_session_dir (Some (lit "root")) (fun _ => true) canon0 (fun _ => true) d = Ok tt.
Proof.
  destruct (sessions_confined unit (fun _ _ => (tt, None)) Example.dec0 (fun t => t) (fun _ _ => None) true Example.settings0 (lit "root")
    Example.started canon0 (fun _ => true) (fun _ => true)) as (_ & _ & H).
  - reflexivity.
  - apply Example.started_reachable.
  - exists [lit "root"]. split; [reflexivity|]. intros n _ _. unfold canon0.
    change (path_join (lit "root") n) with (lit "root/" ++ n). by rewrite strip_prefix_app_same.
  - eexists. split; [vm_compute; reflexivity|]. apply (H 1). vm_compute. reflexivity.
Defined.
(** A start in whose pattern a client tries to leave the root. *)
Definition escaping : SourceStartOptions := mkOptions None None None (Some (lit "../../etc/{kind}")) None.
Example pattern_cannot_escape :
  session_dir_for (default_settings (Some (lit "root"))) (Mock (lit "m")) None escaping (lit "t") 7 = Some (lit "root/etc-mock").
Proof. vm_compute. reflexivity. Qed.
