(* ===== verification/Transports.v ===== *)
(** * Transports: the byte, datagram, file and process sources and their sinks

    crates/core/src/source/{tcp,serial,pipe,udp,syslog,file,process,mqtt,
    http_webhook}.rs and crates/core/src/sink/*.rs, as instances of the source
    interface of [Runner] and of the sink interface below, and the tail of
    [SourceManager::write] (crates/server/src/source_manager.rs) that drives a
    sink.  What the operating system answers to opens, reads and writes is part
    of the state: a connection is what its peer will send, a process is the
    interleaving of its two pipes, a followed file is what each poll sees. *)
From stdpp Require Import base numbers strings list.
From S2P Require Import Prelude Text Decoder Clock SessionDir Csv Wire Runner Interchange.

Local Open Scope Z_scope.
Local Open Scope tm_scope.

(** ** What the operating system answers *)
(** A read gives bytes, nothing (the end), or an error. *)
Inductive chunk := Data (b : list Z) | Fail (broken_pipe : bool).
Inductive got := GBytes (b : list Z) | GEnd | GFail (broken_pipe : bool).
Definition read_some (max : nat) (c : list chunk) : got * list chunk :=
  match c with
  | [] => (GEnd, [])
  | Data [] :: c' => (GEnd, c')
  | Data b :: c' =>
      if (length b <=? max)%nat then (GBytes b, c') else (GBytes (take max b), Data (drop max b) :: c')
  | Fail k :: c' => (GFail k, c')
  end.
(** The answers to the coming attempts to open; none left is a failure. *)
Definition next_open {A} (w : list (option A)) : option A * list (option A) :=
  match w with [] => (None, []) | a :: w' => (a, w') end.
Definition pop_ctl (q : list ControlEvt) : list ControlEvt * option ControlEvt :=
  match q with [] => ([], None) | e :: q' => (q', Some e) end.

(** ** source/tcp.rs *)
Definition TCP_CHUNK : nat := Z.to_nat 8192.
Record TcpSource := mkTcp {
  tcp_addr : list Z; tcp_reader : option (list chunk); tcp_ctl : list ControlEvt; tcp_net : list (option (list chunk)) }.
Definition tcp_new (addr : list Z) (net : list (option (list chunk))) : TcpSource := mkTcp addr None [] net.
Definition tcp_open (s : TcpSource) : TcpSource * result unit :=
  match tcp_reader s with
  | Some _ => (s, Ok tt)
  | None =>
      let '(a, net) := next_open (tcp_net s) in
      match a with
      | None => (mkTcp (tcp_addr s) None (tcp_ctl s) net, Err E1101SourceOpen)
      | Some c => (mkTcp (tcp_addr s) (Some c) (tcp_ctl s ++ [Connected]) net, Ok tt)
      end
  end.
Definition tcp_recv (s : TcpSource) : TcpSource * result (option Frame) :=
  match tcp_reader s with
  | None => (s, Err E1102SourceClosed)
  | Some c =>
      match read_some TCP_CHUNK c with
      | (GFail _, c') => (mkTcp (tcp_addr s) (Some c') (tcp_ctl s) (tcp_net s), Err E1102SourceClosed)
      | (GEnd, _) => (mkTcp (tcp_addr s) None (tcp_ctl s ++ [Eof]) (tcp_net s), Ok None)
      | (GBytes b, c') => (mkTcp (tcp_addr s) (Some c') (tcp_ctl s) (tcp_net s), Ok (Some (FBytes b)))
      end
  end.
Definition tcp_recv_ctl (s : TcpSource) : TcpSource * option ControlEvt :=
  let '(q, e) := pop_ctl (tcp_ctl s) in (mkTcp (tcp_addr s) (tcp_reader s) q (tcp_net s), e).
Definition tcp_close (s : TcpSource) : TcpSource * result unit :=
  (mkTcp (tcp_addr s) None (tcp_ctl s) (tcp_net s), Ok tt).
#[export] Instance TcpSource_source : Source TcpSource := {
  src_open := tcp_open; src_recv := tcp_recv;
  src_metadata := fun s => mkChannelMeta (lit "tcp") (tcp_addr s) []; src_close := tcp_close }.

(** ** source/serial.rs, built with its feature *)
Definition SERIAL_CHUNK : nat := Z.to_nat 4096.
Inductive DataBits := Five | Six | Seven | Eight.
Inductive Parity := ParityNone | Even | Odd.
Inductive StopBits := One | Two.
Inductive FlowControl := FlowNone | Hardware | Software.
Definition data_bits (n : Z) : option DataBits :=
  if n =? 5 then Some Five else if n =? 6 then Some Six else if n =? 7 then Some Seven
  else if n =? 8 then Some Eight else None.
Definition parity (s : list Z) : option Parity :=
  if str_eqb s (lit "none") then Some ParityNone else if str_eqb s (lit "even") then Some Even
  else if str_eqb s (lit "odd") then Some Odd else None.
Definition stop_bits (n : Z) : option StopBits := if n =? 1 then Some One else if n =? 2 then Some Two else None.
Definition flow (s : list Z) : option FlowControl :=
  if str_eqb s (lit "none") then Some FlowNone else if str_eqb s (lit "hardware") then Some Hardware
  else if str_eqb s (lit "software") then Some Software else None.

(** A port answers an open with a stream or not, given the settings. *)
Abbreviation settings := (Z * DataBits * Parity * StopBits * FlowControl)%type.
Record SerialSource := mkSerial {
  sr_port : list Z; sr_baud : Z; sr_data_bits : Z; sr_parity : list Z; sr_stop_bits : Z; sr_flow : list Z;
  sr_ctl : list ControlEvt; sr_inner : option (list chunk); sr_ports : list (option (settings -> option (list chunk))) }.
Definition sr_with (s : SerialSource) (q : list ControlEvt) (i : option (list chunk))
    (ps : list (option (settings -> option (list chunk)))) : SerialSource :=
  mkSerial (sr_port s) (sr_baud s) (sr_data_bits s) (sr_parity s) (sr_stop_bits s) (sr_flow s) q i ps.
Definition serial_settings (s : SerialSource) : result settings :=
  let* db := ok_or (data_bits (sr_data_bits s)) E1101SourceOpen in
  let* p := ok_or (parity (sr_parity s)) E1101SourceOpen in
  let* sb := ok_or (stop_bits (sr_stop_bits s)) E1101SourceOpen in
  let* fc := ok_or (flow (sr_flow s)) E1101SourceOpen in
  Ok (sr_baud s, db, p, sb, fc).
Definition serial_open (s : SerialSource) : SerialSource * result unit :=
  match sr_inner s with
  | Some _ => (s, Ok tt)
  | None =>
      match serial_settings s with
      | Ok st =>
          let '(a, ps) := next_open (sr_ports s) in
          match a ≫= (fun port => port st) with
          | Some c => (sr_with s (sr_ctl s ++ [Connected]) (Some c) ps, Ok tt)
          | None => (sr_with s (sr_ctl s) None ps, Err E1101SourceOpen)
          end
      | Err e => (s, Err e)
      | Panic => (s, Panic)
      end
  end.
Definition serial_recv (s : SerialSource) : SerialSource * result (option Frame) :=
  match sr_inner s with
  | None => (s, Ok None)
  | Some c =>
      match read_some SERIAL_CHUNK c with
      | (GEnd, c') => (sr_with s (sr_ctl s ++ [Eof]) (Some c') (sr_ports s), Ok None)
      | (GBytes b, c') => (sr_with s (sr_ctl s) (Some c') (sr_ports s), Ok (Some (FBytes b)))
      | (GFail true, c') => (sr_with s (sr_ctl s ++ [Disconnected (Some [])]) (Some c') (sr_ports s), Ok None)
      | (GFail false, c') =>
          (sr_with s (sr_ctl s ++ [CtlError E1001PipelineGeneric []]) (Some c') (sr_ports s), Err E1001PipelineGeneric)
      end
  end.
Definition serial_recv_ctl (s : SerialSource) : SerialSource * option ControlEvt :=
  let '(q, e) := pop_ctl (sr_ctl s) in (sr_with s q (sr_inner s) (sr_ports s), e).
Definition serial_close (s : SerialSource) : SerialSource * result unit :=
  (sr_with s (sr_ctl s ++ [Eof]) None (sr_ports s), Ok tt).
Definition serial_tags (s : SerialSource) : list (list Z * list Z) :=
  [(lit "baud", show_nat (sr_baud s)); (lit "data_bits", show_nat (sr_data_bits s)); (lit "flow", sr_flow s);
   (lit "parity", sr_parity s); (lit "stop_bits", show_nat (sr_stop_bits s))].
#[export] Instance SerialSource_source : Source SerialSource := {
  src_open := serial_open; src_recv := serial_recv;
  src_metadata := fun s => mkChannelMeta (lit "serial") (sr_port s) (serial_tags s); src_close := serial_close }.

(** ** source/pipe.rs *)
Definition PIPE_CHUNK : nat := Z.to_nat 16384.
Record PipeSource := mkPipe {
  pipe_path : list Z; pipe_file : option (list chunk); pipe_eof : bool; pipe_opens : list (option (list chunk)) }.
Definition pipe_open (s : PipeSource) : PipeSource * result unit :=
  let '(a, w) := next_open (pipe_opens s) in
  match a with
  | None => (mkPipe (pipe_path s) (pipe_file s) (pipe_eof s) w, Err E1101SourceOpen)
  | Some c => (mkPipe (pipe_path s) (Some c) (pipe_eof s) w, Ok tt)
  end.
Definition pipe_recv (s : PipeSource) : PipeSource * result (option Frame) :=
  match pipe_file s with
  | None => (s, Err E1102SourceClosed)
  | Some c =>
      let set c' e := mkPipe (pipe_path s) (Some c') e (pipe_opens s) in
      match read_some PIPE_CHUNK c with
      | (GFail _, c') => (set c' (pipe_eof s), Err E1102SourceClosed)
      | (GEnd, c') => (set c' true, Ok None)
      | (GBytes b, c') => (set c' (pipe_eof s), Ok (Some (FBytes b)))
      end
  end.
Definition pipe_recv_ctl (s : PipeSource) : PipeSource * option ControlEvt :=
  if pipe_eof s then (mkPipe (pipe_path s) (pipe_file s) false (pipe_opens s), Some Eof) else (s, None).
Definition pipe_close (s : PipeSource) : PipeSource * result unit :=
  (mkPipe (pipe_path s) None (pipe_eof s) (pipe_opens s), Ok tt).
#[export] Instance PipeSource_source : Source PipeSource := {
  src_open := pipe_open; src_recv := pipe_recv;
  src_metadata := fun s => mkChannelMeta (lit "pipe") (pipe_path s) []; src_close := pipe_close }.

(** ** sink/mod.rs, and sink/{tcp,serial,process,mock}.rs *)
Class Sink (S : Type) := {
  sk_write : S -> list Z -> S * result unit;
  sk_ctl : S -> list Z -> option (list Z) -> S * result unit;
  sk_flush : S -> S * result unit;
  sk_close : S -> S * result unit }.

(** A writer is what was written, and the answers to the coming writes and
    flushes: [Some n] is a failure after [n] bytes. *)
Record Wr := mkWr { wr_out : list Z; wr_io : list (option nat) }.
Definition wr_next (w : Wr) : option nat * list (option nat) :=
  match wr_io w with [] => (None, []) | a :: io => (a, io) end.
Definition wr_write (w : Wr) (data : list Z) : Wr * result unit :=
  match wr_next w with
  | (None, io) => (mkWr (wr_out w ++ data) io, Ok tt)
  | (Some n, io) => (mkWr (wr_out w ++ take n data) io, Err E1102SourceClosed)
  end.
Definition wr_flush (w : Wr) : Wr * result unit :=
  match wr_next w with (None, io) => (mkWr (wr_out w) io, Ok tt) | (Some _, io) => (mkWr (wr_out w) io, Err E1102SourceClosed) end.

(** The TCP, serial and process sinks: a writer until closed. *)
Definition stream_write (s : option Wr) (data : list Z) : option Wr * result unit :=
  match s with None => (None, Err E1102SourceClosed) | Some w => let '(w', r) := wr_write w data in (Some w', r) end.
Definition stream_flush (s : option Wr) : option Wr * result unit :=
  match s with None => (None, Ok tt) | Some w => let '(w', r) := wr_flush w in (Some w', r) end.
Definition stream_close (s : option Wr) : option Wr * result unit := (None, Ok tt).
Definition ctl_default {S} (s : S) (kind : list Z) (data : option (list Z)) : S * result unit := (s, Ok tt).
Record TcpSink := mkTcpSink { ts_addr : list Z; ts_writer : option Wr }.
#[export] Instance TcpSink_sink : Sink TcpSink := {
  sk_write := fun s d => let '(w, r) := stream_write (ts_writer s) d in (mkTcpSink (ts_addr s) w, r);
  sk_ctl := ctl_default;
  sk_flush := fun s => let '(w, r) := stream_flush (ts_writer s) in (mkTcpSink (ts_addr s) w, r);
  sk_close := fun s => let '(w, r) := stream_close (ts_writer s) in (mkTcpSink (ts_addr s) w, r) }.
Record SerialSink := mkSerialSink { ss_port : list Z; ss_writer : option Wr }.
#[export] Instance SerialSink_sink : Sink SerialSink := {
  sk_write := fun s d => let '(w, r) := stream_write (ss_writer s) d in (mkSerialSink (ss_port s) w, r);
  sk_ctl := ctl_default;
  sk_flush := fun s => let '(w, r) := stream_flush (ss_writer s) in (mkSerialSink (ss_port s) w, r);
  sk_close := fun s => let '(w, r) := stream_close (ss_writer s) in (mkSerialSink (ss_port s) w, r) }.
Record ProcessSink := mkProcessSink { ps_iface : list Z; ps_stdin : option Wr }.
#[export] Instance ProcessSink_sink : Sink ProcessSink := {
  sk_write := fun s d => let '(w, r) := stream_write (ps_stdin s) d in (mkProcessSink (ps_iface s) w, r);
  sk_ctl := ctl_default;
  sk_flush := fun s => let '(w, r) := stream_flush (ps_stdin s) in (mkProcessSink (ps_iface s) w, r);
  sk_close := fun s => let '(w, r) := stream_close (ps_stdin s) in (mkProcessSink (ps_iface s) w, r) }.
Record MockSink := mkMockSink { mk_writes : list (list Z); mk_closed : bool }.
#[export] Instance MockSink_sink : Sink MockSink := {
  sk_write := fun s d => (if mk_closed s then s else mkMockSink (mk_writes s ++ [d]) (mk_closed s), Ok tt);
  sk_ctl := ctl_default;
  sk_flush := fun s => (s, Ok tt);
  sk_close := fun s => (mkMockSink (mk_writes s) true, Ok tt) }.

(** ** source_manager.rs: [write], once the source's sink is locked *)
Definition write_back {S} `{!Sink S} (s : S) (body : list Z) (target : option (list Z)) : S * result Z :=
  let '(s1, r1) :=
    match target with Some t => sk_ctl s (lit "udp-next-target") (Some (utf8 t)) | None => (s, Ok tt) end in
  match r1 with
  | Ok _ =>
      let '(s2, r2) := sk_write s1 body in
      match r2 with
      | Ok _ => let '(s3, r3) := sk_flush s2 in (s3, let* _ := r3 in Ok (zlen body))
      | Err e => (s2, Err e)
      | Panic => (s2, Panic)
      end
  | Err e => (s1, Err e)
  | Panic => (s1, Panic)
  end.

(** ** source/udp.rs and sink/udp.rs: a source and a sink on one socket *)
Section Udp.
  (** Socket addresses, their text and their parser. *)
  Variable Addr : Type.
  Variable addr_str : Addr -> list Z.
  Variable parse_addr : list Z -> option Addr.

(** A datagram with its sender, or a failing socket. *)
Abbreviation arrival := (option (Addr * list Z)).
(** [u_last_peer] is shared by both halves; [u_sends] answers the coming sends. *)
Record Udp := mkUdp {
  u_bind : list Z; u_socket : bool; u_last_peer : option Addr; u_next_target : option Addr;
  u_sent : list (Addr * list Z); u_sends : list bool; u_in : list arrival; u_binds : list bool }.
Definition udp_open (s : Udp) : Udp * result unit :=
  if u_socket s then (s, Ok tt)
  else match u_binds s with
       | true :: bs => (mkUdp (u_bind s) true (u_last_peer s) (u_next_target s) (u_sent s) (u_sends s) (u_in s) bs, Ok tt)
       | false :: bs =>
           (mkUdp (u_bind s) false (u_last_peer s) (u_next_target s) (u_sent s) (u_sends s) (u_in s) bs, Err E1101SourceOpen)
       | [] => (s, Err E1101SourceOpen)
       end.
Definition udp_recv (s : Udp) : Udp * result (option Frame) :=
  if u_socket s then
    match u_in s with
    | Some (peer, data) :: ins =>
        (mkUdp (u_bind s) true (Some peer) (u_next_target s) (u_sent s) (u_sends s) ins (u_binds s),
         Ok (Some (FDatagram (Some (addr_str peer)) data)))
    | None :: ins =>
        (mkUdp (u_bind s) true (u_last_peer s) (u_next_target s) (u_sent s) (u_sends s) ins (u_binds s), Err E1102SourceClosed)
    | [] => (s, Err E1102SourceClosed)
    end
  else (s, Err E1102SourceClosed).
Definition udp_close (s : Udp) : Udp * result unit :=
  (mkUdp (u_bind s) false (u_last_peer s) (u_next_target s) (u_sent s) (u_sends s) (u_in s) (u_binds s), Ok tt).
#[export] Instance UdpSource_source : Source Udp := {
  src_open := udp_open; src_recv := udp_recv;
  src_metadata := fun s => mkChannelMeta (lit "udp") (u_bind s) []; src_close := udp_close }.

Definition set_target (s : Udp) (t : option Addr) : Udp :=
  mkUdp (u_bind s) (u_socket s) (u_last_peer s) t (u_sent s) (u_sends s) (u_in s) (u_binds s).
Definition resolve_target (s : Udp) : Udp * result Addr :=
  match u_next_target s with
  | Some t => (set_target s None, Ok t)
  | None => (s, ok_or (u_last_peer s) E2001WireMalformed)
  end.
Definition udp_write (s : Udp) (data : list Z) : Udp * result unit :=
  let '(s1, r) := resolve_target s in
  match r with
  | Ok t =>
      match u_sends s1 with
      | false :: io =>
          (mkUdp (u_bind s1) (u_socket s1) (u_last_peer s1) (u_next_target s1) (u_sent s1) io (u_in s1) (u_binds s1),
           Err E1102SourceClosed)
      | io =>
          (mkUdp (u_bind s1) (u_socket s1) (u_last_peer s1) (u_next_target s1) (u_sent s1 ++ [(t, data)]) (tail io) (u_in s1)
             (u_binds s1), Ok tt)
      end
  | Err e => (s1, Err e)
  | Panic => (s1, Panic)
  end.
Definition udp_ctl (s : Udp) (kind : list Z) (data : option (list Z)) : Udp * result unit :=
  if negb (str_eqb kind (lit "udp-next-target")) then (s, Ok tt)
  else match data with
       | None => (set_target s None, Ok tt)
       | Some d =>
           match from_utf8 d with
           | None => (s, Err E2001WireMalformed)
           | Some text =>
               match parse_addr text with
               | None => (s, Err E2001WireMalformed)
               | Some t => (set_target s (Some t), Ok tt)
               end
           end
       end.
#[export] Instance UdpSink_sink : Sink Udp := {
  sk_write := udp_write; sk_ctl := udp_ctl; sk_flush := fun s => (s, Ok tt); sk_close := fun s => (set_target s None, Ok tt) }.
End Udp.

(** ** source/syslog.rs: binds anew at every open *)
Record SyslogSource := mkSyslog {
  sy_bind : list Z; sy_socket : bool; sy_in : list (option (list Z * list Z)); sy_binds : list bool }.
Definition syslog_open (s : SyslogSource) : SyslogSource * result unit :=
  match sy_binds s with
  | true :: bs => (mkSyslog (sy_bind s) true (sy_in s) bs, Ok tt)
  | false :: bs => (mkSyslog (sy_bind s) (sy_socket s) (sy_in s) bs, Err E1101SourceOpen)
  | [] => (s, Err E1101SourceOpen)
  end.
Definition syslog_recv (s : SyslogSource) : SyslogSource * result (option Frame) :=
  if sy_socket s then
    match sy_in s with
    | Some (peer, data) :: ins => (mkSyslog (sy_bind s) true ins (sy_binds s), Ok (Some (FDatagram (Some peer) data)))
    | None :: ins => (mkSyslog (sy_bind s) true ins (sy_binds s), Err E1102SourceClosed)
    | [] => (s, Err E1102SourceClosed)
    end
  else (s, Err E1102SourceClosed).
#[export] Instance SyslogSource_source : Source SyslogSource := {
  src_open := syslog_open; src_recv := syslog_recv;
  src_metadata := fun s => mkChannelMeta (lit "syslog") (sy_bind s) [];
  src_close := fun s => (mkSyslog (sy_bind s) false (sy_in s) (sy_binds s), Ok tt) }.

(** ** source/file.rs *)
Definition FILE_CHUNK : nat := Z.to_nat 8192.
(** What one turn of the loop sees: the bytes behind the open handle ([None] when
    reading fails), and the length of whatever the path names after the pause. *)
Record view := mkView { v_handle : option (list Z); v_path_len : option Z }.
Record FileSource := mkFile { fs_path : list Z; fs_follow : bool; fs_pos : option Z; fs_eof : bool }.
Definition file_new (path : list Z) (follow : bool) : FileSource := mkFile path follow None false.
Definition file_open (exists_ : bool) (s : FileSource) : FileSource * result unit :=
  if exists_ then (mkFile (fs_path s) (fs_follow s) (Some 0) false, Ok tt) else (s, Err E1101SourceOpen).
(** [None]: the call has not returned after these turns. *)
Fixpoint file_recv (vs : list view) (s : FileSource) : option (FileSource * list view * result (option Frame)) :=
  match fs_pos s with
  | None => Some (s, vs, Err E1102SourceClosed)
  | Some pos =>
      match vs with
      | [] => None
      | v :: vs' =>
          match v_handle v with
          | None => Some (s, vs', Err E1102SourceClosed)
          | Some content =>
              match take FILE_CHUNK (drop (Z.to_nat pos) content) with
              | (_ :: _) as b =>
                  Some (mkFile (fs_path s) (fs_follow s) (Some (pos + zlen b)) false, vs', Ok (Some (FBytes b)))
              | [] =>
                  if negb (fs_follow s) then Some (s, vs', Ok None)
                  else
                    let pos' := match v_path_len v with Some l => if l <? pos then 0 else pos | None => pos end in
                    file_recv vs' (mkFile (fs_path s) (fs_follow s) (Some pos') true)
              end
          end
      end
  end.
Definition file_close (s : FileSource) : FileSource := mkFile (fs_path s) (fs_follow s) None (fs_eof s).

(** ** source/process.rs *)
Definition PROC_CHUNK : nat := Z.to_nat 8192.
(** The task that drains one pipe: what it sends, up to the pipe's end or an error. *)
Fixpoint drain_pipe (fuel : nat) (wrap : list Z -> Frame) (c : list chunk) : list (result Frame) :=
  match fuel with
  | O => []
  | S fuel' =>
      match read_some PROC_CHUNK c with
      | (GBytes b, c') => Ok (wrap b) :: drain_pipe fuel' wrap c'
      | (GEnd, _) => []
      | (GFail _, _) => [Err E1102SourceClosed]
      end
  end.
(** The channel holds the two tasks' messages in the order they were sent. *)
Inductive interleaves {A} : list A -> list A -> list A -> Prop :=
| I_nil : interleaves [] [] []
| I_left x xs ys zs : interleaves xs ys zs -> interleaves (x :: xs) ys (x :: zs)
| I_right y xs ys zs : interleaves xs ys zs -> interleaves xs (y :: ys) (y :: zs).

(** [pr_spawns]: the channel each coming spawn will feed; [None] when it fails. *)
Record ProcessSource := mkProcess {
  pr_argv : list (list Z); pr_child : bool; pr_rx : option (list (result Frame)); pr_ctl : list ControlEvt; pr_eof : bool;
  pr_spawns : list (option (list (result Frame))) }.
Definition process_new (argv : list (list Z)) (w : list (option (list (result Frame)))) : ProcessSource :=
  mkProcess argv false None [] false w.
Definition process_spawn (s : ProcessSource) : ProcessSource * result unit :=
  match pr_argv s with
  | [] => (s, Err E1101SourceOpen)
  | _ =>
      if pr_child s then (s, Ok tt)
      else
        let '(a, w) := next_open (pr_spawns s) in
        match a with
        | None => (mkProcess (pr_argv s) false (pr_rx s) (pr_ctl s) (pr_eof s) w, Err E1101SourceOpen)
        | Some ch => (mkProcess (pr_argv s) true (Some ch) (pr_ctl s ++ [Connected]) (pr_eof s) w, Ok tt)
        end
  end.
Definition process_recv (s : ProcessSource) : ProcessSource * result (option Frame) :=
  if pr_eof s then (s, Ok None)
  else match pr_rx s with
       | None | Some [] =>
           (mkProcess (pr_argv s) (pr_child s) (pr_rx s) (pr_ctl s ++ [Eof]) true (pr_spawns s), Ok None)
       | Some (m :: ch) =>
           (mkProcess (pr_argv s) (pr_child s) (Some ch) (pr_ctl s) (pr_eof s) (pr_spawns s), let* f := m in Ok (Some f))
       end.
Definition process_recv_ctl (s : ProcessSource) : ProcessSource * option ControlEvt :=
  let '(q, e) := pop_ctl (pr_ctl s) in (mkProcess (pr_argv s) (pr_child s) (pr_rx s) q (pr_eof s) (pr_spawns s), e).
Definition process_close (s : ProcessSource) : ProcessSource * result unit :=
  (mkProcess (pr_argv s) false None (pr_ctl s) (pr_eof s) (pr_spawns s), Ok tt).
#[export] Instance ProcessSource_source : Source ProcessSource := {
  src_open := process_spawn; src_recv := process_recv;
  src_metadata := fun s => mkChannelMeta (lit "process") (join [32] (pr_argv s)) []; src_close := process_close }.

(** ** source/mqtt.rs and source/http_webhook.rs: not available in this version *)
Record MqttSource := mkMqtt { mq_broker : list Z; mq_topic : list Z }.
#[export] Instance MqttSource_source : Source MqttSource := {
  src_open := fun s => (s, Err E1101SourceOpen); src_recv := fun s => (s, Err E1102SourceClosed);
  src_metadata := fun s => mkChannelMeta (lit "mqtt") (mq_broker s ++ [58] ++ mq_topic s) [];
  src_close := fun s => (s, Ok tt) }.
Record HttpWebhookSource := mkWebhook { hw_bind : list Z; hw_path : list Z }.
#[export] Instance HttpWebhookSource_source : Source HttpWebhookSource := {
  src_open := fun s => (s, Err E1101SourceOpen); src_recv := fun s => (s, Err E1102SourceClosed);
  src_metadata := fun s => mkChannelMeta (lit "http-webhook") (hw_bind s ++ hw_path s) [];
  src_close := fun s => (s, Ok tt) }.

(** ** Byte streams arrive whole *)
Definition is_data (c : chunk) : Prop := match c with Data (_ :: _) => True | _ => False end.
Definition bytes_of (c : list chunk) : list Z := concat (map (fun x => match x with Data b => b | Fail _ => [] end) c).
(** Reading until the end; [None] when that is not reached. *)
Fixpoint read_all (max fuel : nat) (c : list chunk) : option (list (list Z)) :=
  match fuel with
  | O => None
  | S fuel' =>
      match read_some max c with
      | (GBytes b, c') => cons b <$> read_all max fuel' c'
      | (GEnd, _) => Some []
      | (GFail _, _) => None
      end
  end.

Lemma read_all_chunks max fuel : forall c, (0 < max)%nat -> Forall is_data c -> (length (bytes_of c) < fuel)%nat ->
  exists bs, read_all max fuel c = Some bs /\ concat bs = bytes_of c /\
    Forall (fun b => (0 < length b <= max)%nat) bs.
Proof.
  induction fuel as [|fuel IH]; intros c Hm Hc Hf; [lia|]. destruct c as [|x c]; [by exists []|].
  inversion Hc as [|? ? Hx Hc']; subst. destruct x as [[|y b]|k]; [done| |done]. cbn [read_all read_some].
  unfold bytes_of in *. cbn [map concat] in *. rewrite length_app in Hf. cbn [length] in Hf.
  destruct (Nat.leb_spec (length (y :: b)) max) as [Hle|Hgt].
  - destruct (IH c Hm Hc') as (bs & -> & <- & HF); [lia|]. exists ((y :: b) :: bs). split; [done|]. split; [done|].
    constructor; [|done]. cbn [length] in *. lia.
  - assert (Hd : length (drop max (y :: b)) = (length (y :: b) - max)%nat) by apply length_drop.
    destruct (IH (Data (drop max (y :: b)) :: c)) as (bs & -> & Hcat & HF); [done| | |].
    + constructor; [|done]. destruct (drop max (y :: b)); [cbn [length] in *; lia|done].
    + cbn [map concat]. rewrite length_app, Hd. cbn [length] in *. lia.
    + exists (take max (y :: b) :: bs). split; [done|]. split.
      * cbn [concat map] in *. rewrite Hcat, (assoc_L (++)), take_drop. done.
      * constructor; [|done]. rewrite length_take. lia.
Qed.

Lemma tcp_recv_all fuel addr net : forall c q bs, read_all TCP_CHUNK fuel c = Some bs ->
  recv_all fuel (mkTcp addr (Some c) q net) = Some (map FBytes bs, mkTcp addr None (q ++ [Eof]) net).
Proof.
  induction fuel as [|fuel IH]; intros c q bs Hr; [done|]. cbn [read_all recv_all src_recv TcpSource_source] in *.
  unfold tcp_recv. cbn [tcp_reader]. destruct (read_some TCP_CHUNK c) as [[b| |k] c']; [| |done].
  - destruct (read_all TCP_CHUNK fuel c') as [bs'|] eqn:E; [|done]. cbn in Hr. simplify_eq. by rewrite (IH _ _ _ E).
  - by simplify_eq.
Qed.
Lemma serial_recv_all fuel : forall s c bs, sr_inner s = Some c -> read_all SERIAL_CHUNK fuel c = Some bs ->
  exists c', recv_all fuel s = Some (map FBytes bs, sr_with s (sr_ctl s ++ [Eof]) (Some c') (sr_ports s)).
Proof.
  induction fuel as [|fuel IH]; intros s c bs Hs Hr; [done|]. cbn [read_all recv_all src_recv SerialSource_source] in *.
  unfold serial_recv. rewrite Hs. destruct (read_some SERIAL_CHUNK c) as [[b| |k] c']; [| |done].
  - destruct (read_all SERIAL_CHUNK fuel c') as [bs'|] eqn:E; [|done]. cbn in Hr. simplify_eq.
    destruct (IH (sr_with s (sr_ctl s) (Some c') (sr_ports s)) c' bs' eq_refl E) as (c2 & ->). by exists c2.
  - simplify_eq. by exists c'.
Qed.
Lemma pipe_recv_all fuel : forall p c e w bs, read_all PIPE_CHUNK fuel c = Some bs ->
  exists c', recv_all fuel (mkPipe p (Some c) e w) = Some (map FBytes bs, mkPipe p (Some c') true w).
Proof.
  induction fuel as [|fuel IH]; intros p c e w bs Hr; [done|]. cbn [read_all recv_all src_recv PipeSource_source] in *.
  unfold pipe_recv. cbn [pipe_file]. destruct (read_some PIPE_CHUNK c) as [[b| |k] c']; [| |done].
  - destruct (read_all PIPE_CHUNK fuel c') as [bs'|] eqn:E; [|done]. cbn in Hr. simplify_eq.
    destruct (IH p c' e w bs' E) as (c2 & Hc). cbn [pipe_path pipe_eof pipe_opens]. rewrite Hc. by exists c2.
  - simplify_eq. by exists c'.
Qed.

Definition payloads (fs : list Frame) : list Z := concat (map frame_payload fs).
Lemma payloads_bytes bs : payloads (map FBytes bs) = concat bs.
Proof. unfold payloads. by rewrite map_map, map_id. Qed.

(** C32: a byte stream arrives whole: whatever pieces the peer sends and however
    large, opening a TCP, serial or pipe source and receiving until it ends
    gives frames whose bytes together are exactly the bytes sent, in order, no
    frame is empty or longer than the read buffer, and the end is reported as
    an [Eof] event; one receive per byte and one more are enough. *)
Theorem stream_sources_deliver c :
  Forall is_data c ->
  let n := S (length (bytes_of c)) in
  (forall addr net, exists s s' fs,
     tcp_open (tcp_new addr (Some c :: net)) = (s, Ok tt) /\ recv_all n s = Some (fs, s') /\
     payloads fs = bytes_of c /\ Forall (fun f => (0 < length (frame_payload f) <= TCP_CHUNK)%nat) fs /\
     tcp_ctl s' = [Connected; Eof]) /\
  (forall s0 st port w, sr_inner s0 = None -> serial_settings s0 = Ok st -> sr_ports s0 = Some port :: w -> port st = Some c ->
     exists s s' fs, serial_open s0 = (s, Ok tt) /\ recv_all n s = Some (fs, s') /\
       payloads fs = bytes_of c /\ Forall (fun f => (0 < length (frame_payload f) <= SERIAL_CHUNK)%nat) fs /\
       sr_ctl s' = sr_ctl s0 ++ [Connected; Eof]) /\
  (forall s0 w, pipe_opens s0 = Some c :: w ->
     exists s s' fs, pipe_open s0 = (s, Ok tt) /\ recv_all n s = Some (fs, s') /\
       payloads fs = bytes_of c /\ Forall (fun f => (0 < length (frame_payload f) <= PIPE_CHUNK)%nat) fs /\
       snd (pipe_recv_ctl s') = Some Eof).
Proof.
  intros Hc n.
  assert (Hrd : forall max, (0 < max)%nat -> exists bs, read_all max n c = Some bs /\ payloads (map FBytes bs) = bytes_of c /\
    Forall (fun f => (0 < length (frame_payload f) <= max)%nat) (map FBytes bs)).
  { intros max Hm. destruct (read_all_chunks max n c Hm Hc) as (bs & H1 & H2 & H3); [unfold n; lia|].
    exists bs. rewrite payloads_bytes. split; [done|]. split; [done|]. by apply Forall_map. }
  split; [|split].
  - intros addr net. destruct (Hrd TCP_CHUNK) as (bs & H1 & H2 & H3); [apply (Z2Nat.inj_lt 0); lia|].
    eexists _, _, (map FBytes bs). split; [reflexivity|]. split; [by apply tcp_recv_all|]. done.
  - intros s0 st port w Hi Hs Hp Hst. destruct (Hrd SERIAL_CHUNK) as (bs & H1 & H2 & H3); [apply (Z2Nat.inj_lt 0); lia|].
    destruct (serial_recv_all n (sr_with s0 (sr_ctl s0 ++ [Connected]) (Some c) w) c bs eq_refl H1) as (c' & Hr).
    eexists _, _, (map FBytes bs). unfold serial_open. rewrite Hi, Hs, Hp. cbn [next_open mbind option_bind]. rewrite Hst.
    split; [reflexivity|]. split; [exact Hr|]. split; [done|]. split; [done|].
    cbn [sr_with sr_ctl]. by rewrite <- (assoc_L (++)).
  - intros s0 w Hp. destruct (Hrd PIPE_CHUNK) as (bs & H1 & H2 & H3); [apply (Z2Nat.inj_lt 0); lia|].
    destruct (pipe_recv_all n (pipe_path s0) c (pipe_eof s0) w bs H1) as (c' & Hr).
    eexists _, _, (map FBytes bs). unfold pipe_open. rewrite Hp. cbn [next_open].
    split; [reflexivity|]. split; [exact Hr|]. done.
Qed.
Lemma stream_sources_deliver_witness :
  exists s s' fs, tcp_open (tcp_new (lit "h:1") [Some [Data [1; 2]; Data [3]]]) = (s, Ok tt) /\ recv_all 4 s = Some (fs, s') /\
    payloads fs = [1; 2; 3] /\ Forall (fun f => (0 < length (frame_payload f) <= TCP_CHUNK)%nat) fs /\
    tcp_ctl s' = [Connected; Eof].
Proof.
  apply (proj1 (stream_sources_deliver [Data [1; 2]; Data [3]] ltac:(repeat constructor)) (lit "h:1") []).
Defined.

(** ** Where a UDP write goes *)
Section UdpFacts.
  Context {Addr : Type} (addr_str : Addr -> list Z) (parse_addr : list Z -> option Addr).
  Abbreviation write_udp := (@write_back _ (UdpSink_sink Addr parse_addr)).

Inductive udp_event := UArrives | UWrite (body : list Z) (target : option (list Z)).
Definition udp_step (s : Udp Addr) (e : udp_event) : Udp Addr :=
  match e with
  | UArrives => fst (udp_recv Addr addr_str s)
  | UWrite body target => fst (write_udp s body target)
  end.

(** What is expected: the named address, or else the last sender. *)
Definition goes_to (s : Udp Addr) (target : option (list Z)) : option Addr :=
  match target with Some t => parse_addr t | None => u_last_peer Addr s end.
Definition send_ok (s : Udp Addr) : bool := match u_sends Addr s with false :: _ => false | _ => true end.

Lemma write_udp_spec s body target :
  u_next_target Addr s = None -> (forall t, target = Some t -> str_ok t) ->
  let '(s', r) := write_udp s body target in
  u_next_target Addr s' = None /\ u_last_peer Addr s' = u_last_peer Addr s /\
  match goes_to s target with
  | None => u_sent Addr s' = u_sent Addr s /\ r = Err E2001WireMalformed
  | Some a =>
      if send_ok s then u_sent Addr s' = u_sent Addr s ++ [(a, body)] /\ r = Ok (zlen body)
      else u_sent Addr s' = u_sent Addr s /\ r = Err E1102SourceClosed
  end.
Proof using Type.
  intros Hn Ht. unfold write_back. cbn [sk_ctl sk_write sk_flush UdpSink_sink].
  destruct target as [t|]; cbn [goes_to].
  - unfold udp_ctl. change (negb _) with false. rewrite from_utf8_utf8 by (by apply Ht). cbv iota.
    destruct (parse_addr t) as [a|] eqn:Ea; [|done]. unfold udp_write, resolve_target, set_target, send_ok.
    cbn [u_next_target u_sends]. destruct (u_sends Addr s) as [|[] io]; done.
  - unfold udp_write, resolve_target, send_ok. rewrite Hn. destruct (u_last_peer Addr s) as [a|] eqn:Ea; [|done].
    cbn [ok_or]. destruct (u_sends Addr s) as [|[] io]; done.
Qed.

(** The sender of the latest datagram along a run. *)
Definition heard_from (s : Udp Addr) (p : option Addr) : option Addr :=
  if u_socket Addr s then match u_in Addr s with Some (a, _) :: _ => Some a | _ => p end else p.
Fixpoint last_heard (s : Udp Addr) (p : option Addr) (es : list udp_event) : option Addr :=
  match es with
  | [] => p
  | e :: es' => last_heard (udp_step s e) (match e with UArrives => heard_from s p | UWrite _ _ => p end) es'
  end.
Definition texts_ok (e : udp_event) : Prop := match e with UWrite _ (Some t) => str_ok t | _ => True end.

Lemma udp_run_inv es : forall s, u_next_target Addr s = None -> Forall texts_ok es ->
  let s' := foldl udp_step s es in
  u_next_target Addr s' = None /\ u_last_peer Addr s' = last_heard s (u_last_peer Addr s) es.
Proof using Type.
  induction es as [|e es IH]; intros s Hn HF; [done|]. inversion HF as [|? ? He HF']; subst. cbn [foldl last_heard].
  destruct e as [|body target]; cbn [udp_step] in *.
  - assert (Hs : u_next_target Addr (fst (udp_recv Addr addr_str s)) = None /\
      u_last_peer Addr (fst (udp_recv Addr addr_str s)) = heard_from s (u_last_peer Addr s)).
    { unfold udp_recv, heard_from. destruct (u_socket Addr s); [|done]. destruct (u_in Addr s) as [|[[a d]|] ins]; done. }
    destruct Hs as [H1 H2]. rewrite <- H2. by apply IH.
  - pose proof (write_udp_spec s body target Hn) as Hw. destruct (write_udp s body target) as [s1 r]. cbn [fst].
    destruct Hw as (H1 & H2 & _); [intros t ->; exact He|]. rewrite <- H2. by apply IH.
Qed.

(** A UDP write goes where it should: after any run of arrivals and writes, with
    sends failing at will, a write that names an address is sent there and
    nowhere else, one that names none goes to the sender of the latest datagram,
    and one with nowhere to go, or an unreadable address, is refused with E-2001
    and sends nothing; an address never carries over to a later write. *)
Theorem udp_write_routes s es body target :
  u_next_target Addr s = None -> u_last_peer Addr s = None -> Forall texts_ok es -> texts_ok (UWrite body target) ->
  let s1 := foldl udp_step s es in
  let '(s2, r) := write_udp s1 body target in
  match (match target with Some t => parse_addr t | None => last_heard s None es end) with
  | None => u_sent Addr s2 = u_sent Addr s1 /\ r = Err E2001WireMalformed
  | Some a =>
      if send_ok s1 then u_sent Addr s2 = u_sent Addr s1 ++ [(a, body)] /\ r = Ok (zlen body)
      else u_sent Addr s2 = u_sent Addr s1 /\ r = Err E1102SourceClosed
  end.
Proof using Type.
  intros Hn Hp HF Ht s1. destruct (udp_run_inv es s Hn HF) as [H1 H2]. fold s1 in H1, H2. rewrite Hp in H2.
  pose proof (write_udp_spec s1 body target H1) as Hw. destruct (write_udp s1 body target) as [s2 r].
  destruct Hw as (_ & _ & Hw); [intros t ->; exact Ht|]. unfold goes_to in Hw. by rewrite H2 in Hw.
Qed.
End UdpFacts.

Definition udp0 : Udp (list Z) := mkUdp (list Z) (lit "0:9") true None None [] [true] [Some (lit "a:1", [7]); Some (lit "b:2", [8])] [].
Lemma udp_write_routes_witness :
  let s1 := foldl (udp_step (fun a => a) Some) udp0 [UArrives; UWrite [1] (Some (lit "c:3")); UArrives] in
  let '(s2, r) := @write_back _ (UdpSink_sink (list Z) Some) s1 [5] None in
  u_sent (list Z) s2 = u_sent (list Z) s1 ++ [(lit "b:2", [5])] /\ r = Ok 1.
Proof.
  apply (udp_write_routes (fun a => a) Some udp0 [UArrives; UWrite [1] (Some (lit "c:3")); UArrives] [5] None).
  - reflexivity.
  - reflexivity.
  - constructor; [exact I|]. constructor; [|constructor; [exact I|constructor]].
    apply (bool_decide_unpack _). vm_compute. reflexivity.
  - exact I.
Defined.

(** ** Following a file *)
(** What a follower has received after some turns. *)
Fixpoint follow (fuel : nat) (vs : list view) (s : FileSource) : list Z * FileSource :=
  match fuel with
  | O => ([], s)
  | S fuel' =>
      match file_recv vs s with
      | Some (s', vs', Ok (Some f)) => let '(b, s'') := follow fuel' vs' s' in (frame_payload f ++ b, s'')
      | Some (s', _, _) => ([], s')
      | None => ([], s)
      end
  end.
(** The file only grows: each turn sees a longer prefix of [final] and its length. *)
Fixpoint growing (n : nat) (final : list Z) (vs : list view) : Prop :=
  match vs with
  | [] => True
  | v :: vs' => exists k, (n <= k <= length final)%nat /\ v_handle v = Some (take k final) /\
      (v_path_len v = None \/ exists l, v_path_len v = Some l /\ Z.of_nat k <= l) /\ growing k final vs'
  end.
Lemma growing_mono m n final vs : (m <= n)%nat -> growing n final vs -> growing m final vs.
Proof. destruct vs as [|v vs]; [done|]. intros Hle (k & Hk & H). exists k. split; [lia|done]. Qed.

Lemma file_recv_growing final : forall vs path pos eof,
  0 <= pos -> growing (Z.to_nat pos) final vs ->
  match file_recv vs (mkFile path true (Some pos) eof) with
  | None => True
  | Some (s', vs', r) => exists b e, s' = mkFile path true (Some (pos + zlen b)) e /\ r = Ok (Some (FBytes b)) /\
      growing (Z.to_nat (pos + zlen b)) final vs' /\ drop (Z.to_nat pos) final = b ++ drop (Z.to_nat (pos + zlen b)) final
  end.
Proof.
  induction vs as [|v vs IH]; intros path pos eof Hp Hg; [done|]. cbn [file_recv fs_pos].
  destruct Hg as (k & Hk & Hh & Hl & Hg). rewrite Hh.
  set (b := take FILE_CHUNK (drop (Z.to_nat pos) (take k final))).
  assert (Hb : b = take FILE_CHUNK (drop (Z.to_nat pos) (take k final))) by done. destruct b as [|y b'].
  - cbn [fs_follow negb fs_path].
    assert (match v_path_len v with Some l => if l <? pos then 0 else pos | None => pos end = pos) as ->.
    { destruct Hl as [->|(l & -> & Hl)]; [done|]. rewrite (proj2 (Z.ltb_ge l pos)) by lia. done. }
    apply IH; [done|]. eapply growing_mono; [|exact Hg]. lia.
  - set (c := y :: b') in *. exists c, false. split; [done|]. split; [done|].
    assert (Hlen : (length c <= k - Z.to_nat pos)%nat) by (rewrite Hb, length_take, length_drop, length_take; lia).
    assert (Hpos : Z.to_nat (pos + zlen c) = (Z.to_nat pos + length c)%nat) by (unfold zlen; lia).
    rewrite Hpos. split; [eapply growing_mono; [|exact Hg]; lia|].
    assert (Hpre : exists t, drop (Z.to_nat pos) final = c ++ t).
    { exists (drop FILE_CHUNK (drop (Z.to_nat pos) (take k final)) ++ drop k final).
      rewrite Hb, (assoc_L (++)), take_drop. rewrite <- (take_drop k final) at 1.
      apply drop_app_le. rewrite length_take. lia. }
    destruct Hpre as [t Ht]. rewrite <- drop_drop, Ht, drop_app_length. done.
Qed.

Lemma follow_growing final fuel : forall vs path pos eof,
  0 <= pos -> growing (Z.to_nat pos) final vs ->
  let '(b, s') := follow fuel vs (mkFile path true (Some pos) eof) in
  exists e, s' = mkFile path true (Some (pos + zlen b)) e /\
    drop (Z.to_nat pos) final = b ++ drop (Z.to_nat (pos + zlen b)) final.
Proof.
  induction fuel as [|fuel IH]; intros vs path pos eof Hp Hg; cbn [follow].
  - exists eof. by rewrite Z.add_0_r.
  - pose proof (file_recv_growing final vs path pos eof Hp Hg) as Hr.
    destruct (file_recv vs (mkFile path true (Some pos) eof)) as [[[s' vs'] r]|]; [|exists eof; by rewrite Z.add_0_r].
    destruct Hr as (b & e & -> & -> & Hg' & Hd). pose proof (zlen_nonneg b). cbn [frame_payload].
    specialize (IH vs' path (pos + zlen b) e ltac:(lia) Hg'). destruct (follow fuel vs' _) as [b2 s2].
    destruct IH as (e2 & -> & Hd2). exists e2. rewrite zlen_app, Z.add_assoc. split; [done|].
    by rewrite Hd, Hd2, (assoc_L (++)).
Qed.

(** A file that only grows is followed exactly: after any number of receives over
    any sequence of turns, each seeing the file longer than the last, what was
    delivered is the beginning of the file, nothing left out, repeated or out
    of order, and the source stands right behind it. *)
Theorem follow_exact final vs fuel path :
  growing 0 final vs ->
  let '(s0, _) := file_open true (file_new path true) in
  let '(b, s) := follow fuel vs s0 in
  b = take (length b) final /\ fs_pos s = Some (zlen b).
Proof.
  intros Hg. cbn [file_open file_new fs_path fs_follow].
  pose proof (follow_growing final fuel vs path 0 false ltac:(lia) Hg) as H.
  destruct (follow fuel vs _) as [b s]. destruct H as (e & -> & Hd). change (Z.to_nat 0) with 0%nat in Hd.
  rewrite drop_0 in Hd. split; [|done]. rewrite Hd. by rewrite take_app_length.
Qed.
Definition views0 : list view := [mkView (Some [1; 2]) (Some 2); mkView (Some [1; 2]) (Some 2); mkView (Some [1; 2; 3]) (Some 3)].
Lemma follow_exact_witness :
  let '(s0, _) := file_open true (file_new (lit "f") true) in
  let '(b, s) := follow 3 views0 s0 in b = take (length b) [1; 2; 3] /\ fs_pos s = Some (zlen b).
Proof.
  apply (follow_exact [1; 2; 3] views0 3 (lit "f")).
  exists 2%nat. split; [cbn; lia|]. split; [reflexivity|]. split; [right; exists 2; split; [reflexivity|lia]|].
  exists 2%nat. split; [cbn; lia|]. split; [reflexivity|]. split; [right; exists 2; split; [reflexivity|lia]|].
  exists 3%nat. split; [cbn; lia|]. split; [reflexivity|]. split; [right; exists 3; split; [reflexivity|lia]|exact I].
Defined.

(** Finding: when the file is rotated by renaming, the shorter file now under the
    path makes the follower seek its old handle to the start: it delivers the
    old file again, and never reads the new one. *)
Theorem rotation_repeats_old path old new_len rest :
  old <> [] -> zlen old <= 8192 -> new_len < zlen old ->
  exists s', file_recv (mkView (Some old) (Some new_len) :: mkView (Some old) (Some new_len) :: rest)
    (mkFile path true (Some (zlen old)) false) = Some (s', rest, Ok (Some (FBytes old))).
Proof.
  intros Hne Hs Hl. cbn [file_recv fs_pos v_handle].
  assert (drop (Z.to_nat (zlen old)) old = []) as -> by (apply drop_ge; zlia). rewrite take_nil.
  cbn [fs_follow negb v_path_len]. rewrite (proj2 (Z.ltb_lt new_len (zlen old))) by done. cbn [file_recv fs_pos v_handle].
  change (Z.to_nat 0) with 0%nat. rewrite drop_0.
  assert (take FILE_CHUNK old = old) as -> by (apply take_ge; unfold FILE_CHUNK, zlen in *; lia).
  destruct old; [done|]. eexists. reflexivity.
Qed.
Lemma rotation_repeats_old_witness :
  exists s', file_recv [mkView (Some [1; 2; 3]) (Some 1); mkView (Some [1; 2; 3]) (Some 1)]
    (mkFile (lit "log") true (Some 3) false) = Some (s', [], Ok (Some (FBytes [1; 2; 3]))).
Proof. apply (rotation_repeats_old (lit "log") [1; 2; 3] 1 []); [discriminate|vm_compute; discriminate|reflexivity]. Defined.

(** ** A child process *)
Lemma drain_pipe_reads fuel wrap : forall c bs, read_all PROC_CHUNK fuel c = Some bs ->
  drain_pipe fuel wrap c = map (fun b => Ok (wrap b)) bs.
Proof.
  induction fuel as [|fuel IH]; intros c bs Hr; [done|]. cbn [read_all drain_pipe] in *.
  destruct (read_some PROC_CHUNK c) as [[b| |k] c']; [| |done].
  - destruct (read_all PROC_CHUNK fuel c') as [bs'|] eqn:E; [|done]. cbn in Hr. simplify_eq. cbn [map]. by rewrite (IH _ _ E).
  - by simplify_eq.
Qed.
Lemma interleaves_map {A B} (g : A -> B) xs ys zs : interleaves (map g xs) (map g ys) zs ->
  exists zs', zs = map g zs' /\ interleaves xs ys zs'.
Proof.
  intros H. remember (map g xs) as gx. remember (map g ys) as gy. revert xs ys Heqgx Heqgy.
  induction H as [|x gx gy zs H IH|y gx gy zs H IH]; intros xs ys Hx Hy.
  - symmetry in Hx, Hy. apply map_eq_nil in Hx, Hy. subst. exists []. split; [done|constructor].
  - destruct xs as [|x' xs]; [done|]. cbn in Hx. simplify_eq. destruct (IH xs ys) as (zs' & -> & Hi); [done..|].
    exists (x' :: zs'). split; [done|by constructor].
  - destruct ys as [|y' ys]; [done|]. cbn in Hy. simplify_eq. destruct (IH xs ys) as (zs' & -> & Hi); [done..|].
    exists (y' :: zs'). split; [done|by constructor].
Qed.
Definition is_out (f : Frame) : bool := match f with FBytes _ => true | _ => false end.
Definition stderr_frame (b : list Z) : Frame := FOther (lit "stderr") b.
Lemma interleaves_split xs ys zs : interleaves (map FBytes xs) (map stderr_frame ys) zs ->
  map frame_payload (List.filter is_out zs) = xs /\
  map frame_payload (List.filter (fun f => negb (is_out f)) zs) = ys.
Proof.
  intros H. remember (map FBytes xs) as gx. remember (map stderr_frame ys) as gy. revert xs ys Heqgx Heqgy.
  induction H as [|x gx gy zs H IH|y gx gy zs H IH]; intros xs ys Hx Hy.
  - symmetry in Hx, Hy. apply map_eq_nil in Hx, Hy. by subst.
  - destruct xs as [|x' xs]; [done|]. cbn in Hx. injection Hx as -> Hx. destruct (IH xs ys Hx Hy) as [H1 H2].
    cbn. by rewrite H1.
  - destruct ys as [|y' ys]; [done|]. cbn in Hy. injection Hy as -> Hy. destruct (IH xs ys Hx Hy) as [H1 H2].
    cbn. by rewrite H2.
Qed.
Lemma process_recv_all argv w frames : forall q,
  recv_all (S (length frames)) (mkProcess argv true (Some (map Ok frames)) q false w) =
  Some (frames, mkProcess argv true (Some []) (q ++ [Eof]) true w).
Proof.
  induction frames as [|f frames IH]; intros q; [done|]. cbn [length]. erewrite recv_all_frame; [|reflexivity].
  cbn [pr_argv pr_child pr_ctl pr_eof pr_spawns]. by rewrite IH.
Qed.

(** A process source delivers both pipes whole: however the two tasks interleave, the
    standard output and the standard error of the child arrive each in order and
    complete, apart from each other, followed by [Eof]. *)
Theorem process_delivers cmd args out err ch :
  Forall is_data out -> Forall is_data err ->
  interleaves (drain_pipe (S (length (bytes_of out))) FBytes out)
    (drain_pipe (S (length (bytes_of err))) stderr_frame err) ch ->
  exists s frames s',
    process_spawn (process_new (cmd :: args) [Some ch]) = (s, Ok tt) /\
    recv_all (S (length ch)) s = Some (frames, s') /\
    concat (map frame_payload (List.filter is_out frames)) = bytes_of out /\
    concat (map frame_payload (List.filter (fun f => negb (is_out f)) frames)) = bytes_of err /\
    pr_ctl s' = [Connected; Eof].
Proof.
  intros Ho He Hi. assert (Hm : (0 < PROC_CHUNK)%nat) by (apply (Z2Nat.inj_lt 0); lia).
  destruct (read_all_chunks _ _ out Hm Ho (Nat.lt_succ_diag_r _)) as (bo & Ro & Co & _).
  destruct (read_all_chunks _ _ err Hm He (Nat.lt_succ_diag_r _)) as (be & Re & Ce & _).
  rewrite (drain_pipe_reads _ _ _ _ Ro), (drain_pipe_reads _ _ _ _ Re) in Hi.
  rewrite <- (map_map FBytes Ok bo), <- (map_map stderr_frame Ok be) in Hi.
  apply interleaves_map in Hi as (frames & -> & Hi). destruct (interleaves_split _ _ _ Hi) as [H1 H2].
  eexists _, frames, _. split; [reflexivity|]. split.
  { rewrite length_map. apply (process_recv_all (cmd :: args) [] frames [Connected]). }
  split; [by rewrite H1|]. split; [by rewrite H2|]. done.
Qed.
Lemma process_delivers_witness :
  exists s frames s',
    process_spawn (process_new [lit "sh"] [Some [Ok (stderr_frame [9]); Ok (FBytes [1; 2])]]) = (s, Ok tt) /\
    recv_all 3 s = Some (frames, s') /\
    concat (map frame_payload (List.filter is_out frames)) = [1; 2] /\
    concat (map frame_payload (List.filter (fun f => negb (is_out f)) frames)) = [9] /\
    pr_ctl s' = [Connected; Eof].
Proof.
  apply (process_delivers (lit "sh") [] [Data [1; 2]] [Data [9]] [Ok (stderr_frame [9]); Ok (FBytes [1; 2])]).
  - repeat constructor.
  - repeat constructor.
  - cbn. apply I_right, I_left, I_nil.
Defined.

(** Finding: a process source cannot be opened again after its end: the flag that
    says it ended is never cleared, so the new child's output is not delivered. *)
Theorem process_not_reopenable argv ch q w :
  argv <> [] ->
  let s0 := mkProcess argv true (Some []) q false (Some ch :: w) in
  let s1 := fst (process_recv s0) in
  let '(s2, r2) := process_spawn (fst (process_close s1)) in
  r2 = Ok tt /\ pr_rx s2 = Some ch /\ snd (process_recv s2) = Ok None.
Proof. intros Hne. destruct argv; [done|]. done. Qed.
Lemma process_not_reopenable_witness :
  let s0 := mkProcess [lit "sh"] true (Some []) [] false [Some [Ok (FBytes [1])]] in
  let s1 := fst (process_recv s0) in
  let '(s2, r2) := process_spawn (fst (process_close s1)) in
  r2 = Ok tt /\ pr_rx s2 = Some [Ok (FBytes [1])] /\ snd (process_recv s2) = Ok None.
Proof. apply (process_not_reopenable [lit "sh"] [Ok (FBytes [1])] [] []). discriminate. Defined.

(** Finding: opening a syslog source a second time binds its address again, which the
    operating system refuses while the first socket is open. *)
Theorem syslog_open_twice s bs :
  sy_binds s = true :: false :: bs ->
  let '(s1, r1) := syslog_open s in r1 = Ok tt /\ snd (syslog_open s1) = Err E1101SourceOpen.
Proof. intros H. unfold syslog_open. rewrite H. done. Qed.
Lemma syslog_open_twice_witness :
  let '(s1, r1) := syslog_open (mkSyslog (lit "0.0.0.0:514") false [] [true; false]) in
  r1 = Ok tt /\ snd (syslog_open s1) = Err E1101SourceOpen.
Proof. apply (syslog_open_twice (mkSyslog (lit "0.0.0.0:514") false [] [true; false]) []). reflexivity. Defined.
