(* ===== verification/Client.v ===== *)
(** * Clients and small stores: sending from the command line, configuration
    versions, and the schema registry

    crates/cli/src/cmd/send.rs, crates/core/src/config/migrate.rs and
    crates/core/src/log/schemas.rs.  The WebSocket, MessagePack, TOML and text
    encodings are parameters. *)
From stdpp Require Import base numbers strings sets gmap list.
From S2P Require Import Prelude Text Decoder Clock SessionDir Wire Runner Spec Detect Manager Auth WsParse Ws WsManager Mirror.

Local Open Scope Z_scope.
Local Open Scope tm_scope.

(** ** cmd/send.rs: payloads *)
Definition hex_val (b : Z) : option Z :=
  if in_range 48 57 b then Some (b - 48)
  else if in_range 97 102 b then Some (b - 97 + 10)
  else if in_range 65 70 b then Some (b - 65 + 10)
  else None.
Inductive SendError :=
| SidNotUuid | TooManyPayloads | NotRepresentable | FileUnreadable | OddHex | BadHexDigit | BadHeader
| EncodeFailed | ReceiveFailed | DecodeFailed | Refused (id message : list Z) | ClosedEarly.
Abbreviation sres A := (res SendError A).

Fixpoint decode_pairs (b : list Z) : sres (list Z) :=
  match b with
  | hi :: lo :: b' =>
      let* h := ok_or (hex_val hi) BadHexDigit in
      let* l := ok_or (hex_val lo) BadHexDigit in
      let* rest := decode_pairs b' in
      Ok (Z.lor (Z.shiftl h 4) l :: rest)
  | _ => Ok []
  end.
Definition decode_hex (input : list Z) : sres (list Z) :=
  let clean := List.filter (fun c => negb (is_whitespace c)) input in
  if negb (str_len clean mod 2 =? 0) then Err OddHex else decode_pairs (utf8 clean).

Record Options := mkOptions {
  o_token : option (list Z); o_sid : list Z; o_ch : Z; o_text : option (list Z); o_encoding : list Z;
  o_file : option (list Z); o_hex : option (list Z); o_udp_target : option (list Z); o_wait_ack : bool }.
Definition is_some {A} (o : option A) : Z := match o with Some _ => 1 | None => 0 end.

Section Send.
  (** [codec::encode_text]; the file's content; what standard input holds. *)
  Variable encode_text : list Z -> list Z -> list Z * bool.
  Variable read_file : list Z -> option (list Z).
  Variable stdin : list Z.
  Variable parse_uuid : list Z -> option Z.
  Variable uuid_str : Z -> list Z.
  Variable to_vec_named : Envelope -> option (list Z).
  Variable from_slice : list Z -> option Envelope.

Definition read_payload (o : Options) : sres (list Z) :=
  if 1 <? is_some (o_text o) + is_some (o_file o) + is_some (o_hex o) then Err TooManyPayloads
  else match o_text o with
       | Some t => let '(bytes, had_errors) := encode_text t (o_encoding o) in
                   if had_errors then Err NotRepresentable else Ok bytes
       | None =>
           match o_file o with
           | Some p => ok_or (read_file p) FileUnreadable
           | None => match o_hex o with Some h => decode_hex h | None => Ok stdin end
           end
       end.

Definition subprotocol (token : option (list Z)) : list Z :=
  match token with
  | Some ((_ :: _) as t) => lit "tracemux.v1, bearer." ++ t
  | _ => lit "tracemux.v1"
  end.
(** The frame of the write; its sequence number is 1. *)
Definition write_frame (o : Options) (sid : Z) (body : list Z) : Envelope :=
  with_ch (with_sid (envelope_new Write 1 (MMap ([mkey "body" (MBin body)] ++ WsParse.opt_field "target" MStr (o_udp_target o))))
    (uuid_str sid)) (o_ch o).

(** The first entry under the key whose value is a string. *)
Fixpoint find_str_entry (k : list Z) (entries : list (MValue * MValue)) : option (list Z) :=
  match entries with
  | [] => None
  | (key, v) :: es =>
      if bool_decide (v_as_str key = Some k)
      then match v_as_str v with Some s => Some s | None => find_str_entry k es end
      else find_str_entry k es
  end.
Definition payload_str (v : MValue) (k : string) : option (list Z) :=
  match v with MMap entries => find_str_entry (lit k) entries | _ => None end.

(** What the socket delivers: an error, a binary message, or another one. *)
Inductive incoming := InErr | InBinary (b : list Z) | InOther.
Fixpoint wait_ack (ins : list incoming) (seq : Z) : sres unit :=
  match ins with
  | [] => Err ClosedEarly
  | InErr :: _ => Err ReceiveFailed
  | InOther :: ins' => wait_ack ins' seq
  | InBinary b :: ins' =>
      match decode from_slice b with
      | Ok env =>
          if negb (bool_decide (env_kind env = Ctl)) || negb (env_seq env =? seq) then wait_ack ins' seq
          else
            let event := default [] (payload_str (env_payload env) "event") in
            if str_eqb event (lit "write_ack") then Ok tt
            else if str_eqb event (lit "error") then
              Err (Refused (default (lit "E-????") (payload_str (env_payload env) "error_id"))
                     (default (lit "write failed") (payload_str (env_payload env) "message")))
            else wait_ack ins' seq
      | _ => Err DecodeFailed
      end
  end.

(** What is sent, and how the command ends over what comes back. *)
Definition send_request (o : Options) : sres (list Z) :=
  let* sid := ok_or (parse_uuid (o_sid o)) SidNotUuid in
  let* body := read_payload o in
  map_err (fun _ => EncodeFailed) (encode to_vec_named (write_frame o sid body)).
Definition send_end (o : Options) (ins : list incoming) : sres unit :=
  if o_wait_ack o then wait_ack ins 1 else Ok tt.
End Send.

(** ** config/migrate.rs *)
Definition CURRENT_CONFIG_VERSION : Z := 1.
Inductive ConfigMigrationError := ParseError | MissingVersion | InvalidVersion | UnsupportedVersion (found : Z).
Section Migrate.
  (** A TOML document as a table, an integer in it, and the schema it is read as. *)
  Variables (Table TValue Config : Type).
  Variable toml_table : list Z -> option Table.
  Variable toml_get : Table -> list Z -> option TValue.
  Variable as_integer : TValue -> option Z.
  Variable toml_config : list Z -> option Config.
Definition detect_config_version (body : list Z) : res ConfigMigrationError Z :=
  let* value := ok_or (toml_table body) ParseError in
  let* version := ok_or (toml_get value (lit "config_version")) MissingVersion in
  let* v := ok_or (as_integer version) InvalidVersion in
  if (v <=? 0) || (u32_max <? v) then Err InvalidVersion else Ok v.
Definition migrate_config_to_latest (body : list Z) : res ConfigMigrationError Config :=
  let* v := detect_config_version body in
  if v =? 1 then ok_or (toml_config body) ParseError else Err (UnsupportedVersion v).
End Migrate.

(** ** log/schemas.rs *)
Record SchemaRegistry := mkRegistry { written : gset (list Z) }.
(** The directory: file names and contents. *)
Abbreviation SchemaDir := (gmap (list Z) (list Z)).
Definition is_safe_id (id : list Z) : bool :=
  if bool_decide (id = []) || str_eqb id (lit ".") || str_eqb id (lit "..") then false
  else forallb (fun c => is_ascii_alphanumeric c || existsb (Z.eqb c) [45; 95; 46; 58]) id
       && negb (contains_str (lit "..") id).
Definition schema_file (id : list Z) : list Z := id ++ lit ".json".
Definition registry_create (d : SchemaDir) : SchemaRegistry :=
  mkRegistry (list_to_set (omap (strip_suffix (lit ".json")) (elements (dom d)))).
(** [io] is what [fs::write] does: success, or an error after some of the bytes. *)
Definition register (r : SchemaRegistry) (d : SchemaDir) (id schema_json : list Z) (io : option nat)
  : SchemaRegistry * SchemaDir * res unit (list Z) :=
  if negb (is_safe_id id) then (r, d, Err tt)
  else
    let path := schema_file id in
    if bool_decide (id ∈ written r) then (r, d, Ok path)
    else match io with
         | Some k => (r, <[path := take k schema_json]> d, Err tt)
         | None => (mkRegistry ({[id]} ∪ written r), <[path := schema_json]> d, Ok path)
         end.

(** ** Hexadecimal payloads *)
Lemma hex_val_shown u n : 0 <= n < 16 -> hex_val (hex_digit u n) = Some n.
Proof.
  intros H. unfold hex_digit, hex_val. destruct (Z.ltb_spec n 10), u; decide_ranges; f_equal; lia.
Qed.
Lemma hex_digit_ascii u n : 0 <= n < 16 -> 0 <= hex_digit u n < 128.
Proof. intros H. unfold hex_digit. destruct (n <? 10), u; lia. Qed.
Lemma lor_nibbles b : Z.lor (Z.shiftl (b / 16) 4) (b mod 16) = b.
Proof. apply (lor_parts b 4). lia. Qed.
Definition hex_text (u : bool) (b : list Z) : list Z := concat (map (show_hex2 u) b).
Lemma hex_text_ascii u b : bytes_ok b -> Forall (fun c => 0 <= c < 128) (hex_text u b).
Proof.
  intros Hb. induction Hb as [|x b Hx _ IH]; [constructor|]. unfold hex_text. cbn [map concat show_hex2 app].
  pose proof (Z.div_pos x 16). pose proof (Z.div_lt_upper_bound x 16 16). pose proof (Z.mod_pos_bound x 16).
  constructor; [apply hex_digit_ascii; lia|]. constructor; [apply hex_digit_ascii; lia|exact IH].
Qed.
Lemma decode_pairs_text u b : bytes_ok b -> decode_pairs (hex_text u b) = Ok b.
Proof.
  induction 1 as [|x b Hx _ IH]; [done|]. unfold hex_text in *. cbn [map concat show_hex2 app decode_pairs].
  pose proof (Z.div_pos x 16). pose proof (Z.div_lt_upper_bound x 16 16). pose proof (Z.mod_pos_bound x 16).
  rewrite !hex_val_shown by lia. cbn [ok_or mbind res_bind]. rewrite IH. cbn [mbind res_bind]. by rewrite lor_nibbles.
Qed.
Lemma hex_text_len u b : length (hex_text u b) = (2 * length b)%nat.
Proof. induction b as [|x b IH]; [done|]. unfold hex_text in *. cbn [map concat show_hex2 app length]. lia. Qed.

Lemma hex_digit_visible u n : 0 <= n < 16 -> is_whitespace (hex_digit u n) = false.
Proof. intros H. unfold hex_digit, is_whitespace. destruct (Z.ltb_spec n 10), u; decide_ranges; done. Qed.
Lemma hex_no_space u b : bytes_ok b -> List.filter (fun c => negb (is_whitespace c)) (hex_text u b) = hex_text u b.
Proof.
  induction 1 as [|x b Hx _ IH]; [done|]. unfold hex_text in *. cbn [map concat show_hex2 app List.filter].
  pose proof (Z.div_pos x 16). pose proof (Z.div_lt_upper_bound x 16 16). pose proof (Z.mod_pos_bound x 16).
  rewrite !hex_digit_visible by lia. cbn [negb]. by rewrite IH.
Qed.

(** Hexadecimal text is read back whatever its case and however whitespace is spread
    over it, and reading never panics. *)
Theorem decode_hex_round_trip u b s :
  bytes_ok b -> List.filter (fun c => negb (is_whitespace c)) s = hex_text u b ->
  decode_hex s = Ok b /\ forall s', decode_hex s' <> Panic.
Proof.
  intros Hb Hs. split.
  - unfold decode_hex. rewrite Hs. unfold str_len. rewrite (utf8_ascii _ (hex_text_ascii u b Hb)).
    assert (zlen (hex_text u b) mod 2 = 0) as ->.
    { unfold zlen. rewrite hex_text_len, Nat2Z.inj_mul, Z.mul_comm. apply Z_mod_mult. }
    cbn [Z.eqb negb]. by apply decode_pairs_text.
  - intros s'. unfold decode_hex. destruct (negb _); [done|].
    assert (H : forall n l, (length l <= n)%nat -> decode_pairs l <> Panic).
    { induction n as [|n IH]; intros [|x [|y l]] Hl; try done; cbn [length] in Hl; [lia|]. cbn [decode_pairs].
      destruct (hex_val x); [|done]. cbn [ok_or mbind res_bind]. destruct (hex_val y); [|done]. cbn [ok_or mbind res_bind].
      specialize (IH l ltac:(lia)). by destruct (decode_pairs l). }
    by eapply H.
Qed.
Lemma decode_hex_round_trip_witness : decode_hex (lit "De aD0f") = Ok [0xDE; 0xAD; 0x0F] /\ forall s', decode_hex s' <> Panic.
Proof.
  assert (H : decode_hex (lit "de ad0f") = Ok [0xDE; 0xAD; 0x0F] /\ forall s', decode_hex s' <> Panic).
  { apply (decode_hex_round_trip false [0xDE; 0xAD; 0x0F]).
    - apply (bool_decide_unpack _). vm_compute. reflexivity.
    - vm_compute. reflexivity. }
  split; [vm_compute; reflexivity|apply H].
Defined.

(** ** The command line and the server *)
Section SendFacts.
  Context {M : Type} `{!SourceApi M} (encode_text : list Z -> list Z -> list Z * bool) (read_file : list Z -> option (list Z))
    (stdin : list Z) (parse_uuid : list Z -> option Z) (uuid_str : Z -> list Z)
    (to_vec_named : Envelope -> option (list Z)) (from_slice : list Z -> option Envelope).
  (** MessagePack reads back what it wrote, and so do UUIDs. *)
  Hypothesis codec : forall e b, to_vec_named e = Some b -> from_slice b = Some e.
  Hypothesis uuid_round : forall u, uuid_ok u -> parse_uuid (uuid_str u) = Some u.

(** A message that is not the answer: not binary, or a frame with another kind or number. *)
Definition unrelated (i : incoming) : Prop :=
  match i with
  | InOther => True
  | InBinary b => exists env, decode from_slice b = Ok env /\ (env_kind env <> Ctl \/ env_seq env <> 1)
  | InErr => False
  end.
Lemma wait_ack_skips pre ins : Forall unrelated pre -> wait_ack from_slice (pre ++ ins) 1 = wait_ack from_slice ins 1.
Proof using Type.
  induction 1 as [|i pre Hi _ IH]; [done|]. destruct i as [|b|]; cbn [app wait_ack]; [done| |done].
  destruct Hi as (env & -> & Hn). assert (negb (bool_decide (env_kind env = Ctl)) || negb (env_seq env =? 1) = true) as ->; [|done].
  destruct Hn as [Hn|Hn]; [by rewrite bool_decide_false|]. by rewrite (proj2 (Z.eqb_neq _ _) Hn), orb_true_r.
Qed.

Lemma ack_events sid ch n :
  payload_str (env_payload (write_ack uuid_str 1 sid ch n)) "event" = Some (lit "write_ack").
Proof using Type. done. Qed.
Lemma refusal_events msg e sid :
  let p := env_payload (ctl_error_with_sid uuid_str 1 msg e sid) in
  payload_str p "event" = Some (lit "error") /\ payload_str p "error_id" = Some (code e) /\ payload_str p "message" = Some msg.
Proof using Type. done. Qed.

End SendFacts.

(** ** The schema registry *)
Inductive schema_op := Register (id json : list Z) (io : option nat) | ReopenRegistry.
Definition schema_step (st : SchemaRegistry * SchemaDir) (o : schema_op) : SchemaRegistry * SchemaDir :=
  let '(r, d) := st in
  match o with
  | Register id json io => fst (register r d id json io)
  | ReopenRegistry => (registry_create d, d)
  end.

Lemma registry_create_mem d id c : d !! schema_file id = Some c -> id ∈ written (registry_create d).
Proof.
  intros H. cbn. apply elem_of_list_to_set, list_elem_of_omap. exists (schema_file id).
  split; [|apply strip_suffix_app]. apply elem_of_elements, elem_of_dom. eauto.
Qed.
Lemma schema_file_inj a b : schema_file a = schema_file b -> a = b.
Proof. unfold schema_file. apply app_inj_2. done. Qed.

(** A schema is written once: after a registration succeeded, its file holds
    exactly that schema for good, through any further registrations under any
    names and contents, failing writes and reopenings of the directory; and a
    registration that is accepted names a single file inside the directory. *)
Theorem schema_first_wins r d id json r1 d1 path os :
  register r d id json None = (r1, d1, Ok path) -> id ∉ written r ->
  let '(r2, d2) := foldl schema_step (r1, d1) os in
  d2 !! path = Some json /\ snd (register r2 d2 id json None) = Ok path /\
  Forall (fun c => c <> 47 /\ c <> 92) path /\ path <> lit ".." .
Proof.
  unfold register. destruct (is_safe_id id) eqn:Hsafe; [|done]. cbn [negb]. intros Hreg Hnew.
  rewrite bool_decide_false in Hreg by done. injection Hreg as <- <- <-.
  assert (Hinv : forall os r2 d2, id ∈ written r2 -> d2 !! schema_file id = Some json ->
    let '(r3, d3) := foldl schema_step (r2, d2) os in id ∈ written r3 /\ d3 !! schema_file id = Some json).
  { induction os0 as [|o os0 IH]; intros r2 d2 Hm Hd; [done|]. cbn [foldl].
    destruct o as [id' json' io|]; cbn [schema_step].
    - unfold register. destruct (negb (is_safe_id id')); [by apply IH|]. case_bool_decide as Hin; [by apply IH|].
      assert (Hne : schema_file id' <> schema_file id) by (intros E%schema_file_inj; by subst).
      destruct io as [k|]; cbn [fst]; apply IH; try (by rewrite lookup_insert_ne); [done|]. cbn. set_solver.
    - apply IH; [|done]. by eapply registry_create_mem. }
  specialize (Hinv os (mkRegistry ({[id]} ∪ written r)) (<[schema_file id := json]> d)). cbn [written] in Hinv.
  destruct (foldl schema_step _ os) as [r2 d2]. destruct Hinv as [Hm Hd]; [set_solver|apply lookup_insert_eq|].
  split; [done|]. cbn [negb]. rewrite bool_decide_true by done. split; [done|].
  unfold is_safe_id in Hsafe. destruct (bool_decide (id = []) || _ || _) eqn:E; [done|]. apply andb_true_iff in Hsafe as [Hs _].
  split.
  - unfold schema_file. apply Forall_app. split; [|apply (bool_decide_unpack _); vm_compute; reflexivity].
    apply Forall_forall. intros c Hc. rewrite forallb_forall in Hs. apply list_elem_of_In, Hs in Hc.
    split; intros ->; vm_compute in Hc; discriminate.
  - unfold schema_file. intros Heq. apply (f_equal length) in Heq. rewrite length_app in Heq. cbn in Heq. lia.
Qed.
Lemma schema_first_wins_witness :
  let '(r2, d2) := foldl schema_step (mkRegistry {[lit "a"]}, {[schema_file (lit "a") := [1]]})
    [Register (lit "a") [2] None; ReopenRegistry; Register (lit "b") [3] (Some 0%nat)] in
  d2 !! schema_file (lit "a") = Some [1] /\ snd (register r2 d2 (lit "a") [1] None) = Ok (schema_file (lit "a")) /\
  Forall (fun c => c <> 47 /\ c <> 92) (schema_file (lit "a")) /\ schema_file (lit "a") <> lit "..".
Proof.
  apply (schema_first_wins (mkRegistry ∅) ∅ (lit "a") [1]).
  - vm_compute. reflexivity.
  - apply (bool_decide_unpack _). vm_compute. reflexivity.
Defined.

(** Finding: a write that fails half way leaves a torn file; the next process takes
    it for registered and never writes the schema. *)
Theorem torn_schema_kept d id json k :
  is_safe_id id = true -> d !! schema_file id = None -> id ∉ written (registry_create d) -> (k < length json)%nat ->
  let '(r1, d1, res1) := register (registry_create d) d id json (Some k) in
  let '(_, d2, res2) := register (registry_create d1) d1 id json None in
  res1 = Err tt /\ res2 = Ok (schema_file id) /\ d2 !! schema_file id = Some (take k json) /\ take k json <> json.
Proof.
  intros Hs Hd Hn Hk. unfold register. rewrite Hs. cbn [negb]. rewrite (bool_decide_false _ Hn).
  rewrite bool_decide_true by (eapply registry_create_mem; apply lookup_insert_eq).
  split; [done|]. split; [done|]. split; [apply lookup_insert_eq|]. intros E. apply (f_equal length) in E.
  rewrite length_take in E. lia.
Qed.
Lemma torn_schema_kept_witness :
  let '(r1, d1, res1) := register (registry_create ∅) ∅ (lit "s") [123; 125] (Some 1%nat) in
  let '(_, d2, res2) := register (registry_create d1) d1 (lit "s") [123; 125] None in
  res1 = Err tt /\ res2 = Ok (schema_file (lit "s")) /\ d2 !! schema_file (lit "s") = Some (take 1 [123; 125]) /\
  take 1 [123; 125] <> [123; 125].
Proof.
  apply (torn_schema_kept ∅ (lit "s") [123; 125] 1).
  - vm_compute. reflexivity.
  - apply lookup_empty.
  - apply (bool_decide_unpack _). vm_compute. reflexivity.
  - cbn. lia.
Defined.

(** ** A concrete exchange *)
Module ClientDemo.
Definition options : Options := mkOptions None (lit "7") 0 (Some [65]) (lit "utf-8") None None None true.
Definition frame : Envelope := write_frame MirrorDemo.uuid_str options 7 [65].
Definition answer : Envelope :=
  ctl_error_with_sid MirrorDemo.uuid_str 1
    (lit "write failed: " ++ any_display (core_error E2001WireMalformed (lit "write sid is unknown"))) E2001WireMalformed 7.
(** A codec that knows the two frames. *)
Definition to_vec (e : Envelope) : option (list Z) :=
  if env_eqb e frame then Some [1] else if env_eqb e answer then Some [2] else None.
Definition from_slice (b : list Z) : option Envelope :=
  match b with [1] => Some frame | [2] => Some answer | _ => None end.
Lemma client_codec e b : to_vec e = Some b -> from_slice b = Some e.
Proof.
  unfold to_vec. destruct (env_eqb e frame) eqn:E1; [apply env_eqb_eq in E1 as ->; by intros [= <-]|].
  destruct (env_eqb e answer) eqn:E2; [apply env_eqb_eq in E2 as ->; by intros [= <-]|done].
Qed.
End ClientDemo.

