(* ===== verification/Native.v ===== *)
(** * Live packet capture: the libpcap backend, its readers, and discovery

    crates/core/src/source/pcap.rs from [NativePcapBackend] on, and
    crates/core/src/detect/pcap.rs.  The pcap crate is the class [PcapLib];
    the backend built on it is an instance of [Capture.PcapBackend], so that the
    source's theorems hold of it.  A blocking read loops while the library
    reports a timeout: the loop is defined by recursion on the accessibility of
    "timed out", and [PcapLive] states what it needs to return.  The readers
    that outlive an aborted source are a step relation of their own. *)
From stdpp Require Import base numbers strings relations sets sorting list.
From S2P Require Import Prelude Text Spec Decoder Capture Runner.

Local Open Scope Z_scope.
Local Open Scope tm_scope.

(** ** Error identifiers of a failed open *)
Definition classify_pcap_open_error (context message : list Z) : ErrorId :=
  if str_eqb context (lit "applying pcap BPF filter") then E1105PcapInvalidFilter
  else
    let m := to_ascii_lowercase message in
    if contains_str (lit "permission") m || contains_str (lit "access is denied") m
       || contains_str (lit "not permitted") m || contains_str (lit "privilege") m
    then E1104PcapPermissionDenied
    else if (str_eqb context (lit "creating pcap capture") || str_eqb context (lit "activating pcap capture"))
         && (contains_str (lit "no such device") m || contains_str (lit "device doesn't exist") m
             || contains_str (lit "device does not exist") m || contains_str (lit "not found") m
             || contains_str (lit "cannot find") m || contains_str (lit "can't find") m)
    then E1106PcapInterfaceUnavailable
    else E1101SourceOpen.

(** ** Timestamps and checked fields *)
Definition i128_max : Z := 2 ^ 127 - 1.
Definition i128_min : Z := - 2 ^ 127.
Definition timestamp_micros_to_unix_ns (seconds micros : Z) : Z :=
  let nanos := sat_add i128_min i128_max (sat_mul i128_min i128_max seconds 1000000000)
                 (sat_mul i128_min i128_max micros 1000) in
  clampz i64_min i64_max nanos.
Definition i32_field (value : Z) : result Z := ok_or (try_from i32_min i32_max value) E1101SourceOpen.

(** ** The pcap crate *)
Inductive PcapError := TimeoutExpired | NoMorePackets | OtherError (m : list Z).
#[export] Instance PcapError_eq_dec : EqDecision PcapError.
Proof. solve_decision. Defined.
Record PacketHeader := mkHeader { tv_sec : Z; tv_usec : Z; caplen : Z; hlen : Z }.
Record KernelStat := mkStat { received : Z; dropped : Z; if_dropped : Z }.
#[export] Instance PacketHeader_eq_dec : EqDecision PacketHeader.
Proof. solve_decision. Defined.

(** [Host] is what the library sees of the machine: it changes from one call
    to the next. *)
Class PcapLib (Host Inactive Active : Type) := {
  from_device : list Z -> Host -> Host * (PcapError + Inactive);
  promisc : bool -> Inactive -> Inactive;
  set_snaplen : Z -> Inactive -> Inactive;
  timeout : Z -> Inactive -> Inactive;
  buffer_size : Z -> Inactive -> Inactive;
  immediate_mode : bool -> Inactive -> Inactive;
  activate : Inactive -> Host -> Host * (PcapError + Active);
  set_filter : list Z -> Active -> Active * (PcapError + unit);
  get_datalink : Active -> Z;
  next_packet : Active -> Active * (PcapError + (PacketHeader * list Z));
  kernel_stats : Active -> Active * (PcapError + KernelStat);
  error_text : PcapError -> list Z
}.

Section Native.
  Context {Host Inactive Active : Type} `{!PcapLib Host Inactive Active}.
  (** [cfg(windows)]. *)
  Variable windows : bool.

Record NativePcapState := mkNative { capture : Active; n_linktype : Z }.
Record NativePcapBackend := mkBackend {
  state : option NativePcapState; n_seq : Z; n_stats : PcapStats; host : Host }.
Definition native_default (h : Host) : NativePcapBackend := mkBackend None 0 no_pcap_stats h.

Definition pcap_err (id : ErrorId) (context : string) (err : PcapError) : ErrorId :=
  if decide (id = E1101SourceOpen) then classify_pcap_open_error (lit context) (error_text err) else id.
(** [.map_err(|err| pcap_err(id, context, err))]. *)
Definition lib_result {A} (id : ErrorId) (context : string) (r : PcapError + A) : result A :=
  match r with inl e => Err (pcap_err id context e) | inr a => Ok a end.

Definition configure_immediate_mode (i : Inactive) (immediate : bool) : Inactive :=
  if windows then if immediate then immediate_mode true i else i else i.

(** The filter as it is applied: trimmed, and not at all when blank. *)
Definition applied_filter (c : PcapConfig) : option (list Z) :=
  match trim <$> filter_expr c with Some (x :: f) => Some (x :: f) | _ => None end.

(** [capture.filter(...)], then the link type. *)
Definition finish_open (c : PcapConfig) (a : Active) : result NativePcapState :=
  let* cap := match applied_filter c with
              | Some f => let '(a', r) := set_filter f a in
                          do* lib_result E1101SourceOpen "applying pcap BPF filter" r in Ok a'
              | None => Ok a
              end in
  let* link := ok_or (try_from 0 u32_max (get_datalink cap)) E1101SourceOpen in
  Ok (mkNative cap link).

Definition open_native_capture (c : PcapConfig) (h : Host) : Host * result NativePcapState :=
  match i32_field (snaplen c), i32_field (timeout_ms c) with
  | Ok snap, Ok tmo =>
      let '(h1, r) := from_device (interface c) h in
      match lib_result E1101SourceOpen "creating pcap capture" r with
      | Ok i0 =>
          let i1 := timeout tmo (set_snaplen snap (promisc (promiscuous c) i0)) in
          match (match buffer_bytes c with
                 | Some b => let* n := i32_field b in Ok (buffer_size n i1)
                 | None => Ok i1
                 end) with
          | Ok i2 =>
              let '(h2, ra) := activate (configure_immediate_mode i2 (immediate c)) h1 in
              (h2, let* a := lib_result E1101SourceOpen "activating pcap capture" ra in finish_open c a)
          | Err e => (h1, Err e)
          | Panic => (h1, Panic)
          end
      | Err e => (h1, Err e)
      | Panic => (h1, Panic)
      end
  | Ok _, Err e => (h, Err e)
  | Err e, _ => (h, Err e)
  | _, _ => (h, Panic)
  end.

(** ** Reading *)
Record NativePacket := mkNP {
  np_ts : Z; np_captured : Z; np_original : Z; np_linktype : Z; np_data : list Z }.
Definition packet_header_timestamp_ns (h : PacketHeader) : Z := timestamp_micros_to_unix_ns (tv_sec h) (tv_usec h).
Definition native_packet (link : Z) (h : PacketHeader) (d : list Z) : NativePacket :=
  mkNP (packet_header_timestamp_ns h) (caplen h) (hlen h) link d.

(** The capture after a read that timed out. *)
Definition timed_out (a' a : Active) : Prop := next_packet a = (a', inl TimeoutExpired).

(** One turn of the loop, [again] being the next one. *)
Definition recv_turn (link : Z) (a : Active) (again : forall a', timed_out a' a -> Active * result (option NativePacket))
    (r : Active * (PcapError + (PacketHeader * list Z))) : next_packet a = r -> Active * result (option NativePacket) :=
  match r with
  | (a', inl TimeoutExpired) => fun E => again a' E
  | (a', inl NoMorePackets) => fun _ => (a', Ok None)
  | (a', inl (OtherError m)) => fun _ => (a', Err (pcap_err E1102SourceClosed "reading pcap packet" (OtherError m)))
  | (a', inr (h, d)) => fun _ => (a', Ok (Some (native_packet link h d)))
  end.
Fixpoint recv_loop (link : Z) (a : Active) (H : Acc timed_out a) {struct H} : Active * result (option NativePacket) :=
  recv_turn link a (fun a' E => recv_loop link a' (Acc_inv H E)) (next_packet a) eq_refl.
End Native.
Arguments mkNative {Active}. Arguments capture {Active}. Arguments n_linktype {Active}.
Arguments NativePcapBackend : clear implicits.
Arguments mkBackend {Host Active}. Arguments state {Host Active}. Arguments n_seq {Host Active}.
Arguments n_stats {Host Active}. Arguments host {Host Active}.

(** What [recv_loop] needs: the interface does not time out for ever. *)
Class PcapLive (Host Inactive Active : Type) `{!PcapLib Host Inactive Active} : Prop :=
  live (a : Active) : Acc timed_out a.

Section Backend.
  Context {Host Inactive Active : Type} `{HL : !PcapLib Host Inactive Active, HV : !PcapLive Host Inactive Active}.
  Variable windows : bool.
  Abbreviation Backend := (NativePcapBackend Host Active).

Definition native_open (c : PcapConfig) (b : Backend) : Backend * result unit :=
  let '(h, r) := open_native_capture windows c (host b) in
  match r with
  | Ok st => (mkBackend (Some st) 0 no_pcap_stats h, Ok tt)
  | Err e => (mkBackend (state b) (n_seq b) (n_stats b) h, Err e)
  | Panic => (mkBackend (state b) (n_seq b) (n_stats b) h, Panic)
  end.

Definition recv_native_packet (st : NativePcapState) : NativePcapState * result (option NativePacket) :=
  let '(a, r) := recv_loop (n_linktype st) (capture st) (live (capture st)) in (mkNative a (n_linktype st), r).

Definition sat_u64 (a b : Z) : Z := sat_add 0 u64_max a b.
Definition to_packet (seq : Z) (p : NativePacket) : PcapPacket :=
  mkPacket seq (np_ts p) (np_captured p) (Z.max (np_original p) (np_captured p)) (np_linktype p) 0 (np_data p).
Definition count_packet (s : PcapStats) (p : PcapPacket) : PcapStats :=
  mkPcapStats (sat_u64 (packets_total s) 1) (sat_u64 (bytes_total s) (captured_len p)) (dropped_kernel_total s)
    (dropped_app_total s) (capture_queue_depth s) (writer_queue_depth s) (Some (p_ts_origin_ns p)).

Definition native_recv (b : Backend) : Backend * result (option PcapPacket) :=
  match state b with
  | None => (b, Err E1102SourceClosed)
  | Some st =>
      let '(st', r) := recv_native_packet st in
      match r with
      | Ok (Some np) =>
          let seq := sat_u64 (n_seq b) 1 in
          let p := to_packet seq np in
          (mkBackend (Some st') seq (count_packet (n_stats b) p) (host b), Ok (Some p))
      | Ok None => (mkBackend (Some st') (n_seq b) (n_stats b) (host b), Ok None)
      | Err e => (mkBackend (Some st') (n_seq b) (n_stats b) (host b), Err e)
      | Panic => (mkBackend (Some st') (n_seq b) (n_stats b) (host b), Panic)
      end
  end.

Definition merge_kernel (s : PcapStats) (k : KernelStat) : PcapStats :=
  mkPcapStats (Z.max (packets_total s) (received k)) (bytes_total s) (dropped k + if_dropped k)
    (dropped_app_total s) (capture_queue_depth s) (writer_queue_depth s) (last_packet_ts_origin_ns s).

Definition native_stats (b : Backend) : Backend * result PcapStats :=
  match state b with
  | None => (b, Ok (n_stats b))
  | Some st =>
      let '(a, r) := kernel_stats (capture st) in
      let st' := mkNative a (n_linktype st) in
      match lib_result E1001PipelineGeneric "reading pcap stats" r with
      | Ok k => let s := merge_kernel (n_stats b) k in (mkBackend (Some st') (n_seq b) s (host b), Ok s)
      | Err e => (mkBackend (Some st') (n_seq b) (n_stats b) (host b), Err e)
      | Panic => (mkBackend (Some st') (n_seq b) (n_stats b) (host b), Panic)
      end
  end.

Definition native_close (b : Backend) : Backend * result unit :=
  (mkBackend None (n_seq b) (n_stats b) (host b), Ok tt).

#[export] Instance native_backend : PcapBackend Backend := {
  b_open := native_open;
  b_recv_packet := native_recv;
  b_stats := native_stats;
  b_close := native_close
}.
End Backend.

(** ** The backend of a build without the capture feature *)
Inductive UnavailablePcapBackend := Unavailable.
#[export] Instance unavailable_backend : PcapBackend UnavailablePcapBackend := {
  b_open := fun _ b => (b, Err E1103PcapBackendUnavailable);
  b_recv_packet := fun b => (b, Err E1102SourceClosed);
  b_stats := fun b => (b, Ok no_pcap_stats);
  b_close := fun b => (b, Ok tt)
}.
Definition unavailable_source (c : PcapConfig) : PcapSource UnavailablePcapBackend := with_backend c Unavailable.

(** ** The metadata of a source: the tags a client is shown *)
Definition show_bool (b : bool) : list Z := lit (if b then "true" else "false").
Definition opt_tag (k : string) (v : option (list Z)) : list (list Z * list Z) :=
  match v with Some v => [(lit k, v)] | None => [] end.
(** A [BTreeMap] iterates in the order of its keys. *)
Definition pcap_tags (c : PcapConfig) : list (list Z * list Z) :=
  opt_tag "buffer_bytes" (show_nat <$> buffer_bytes c) ++ opt_tag "display_name" (display_name c) ++
  opt_tag "filter" (filter_expr c) ++
  [(lit "immediate", show_bool (immediate c)); (lit "interface", interface c)] ++
  opt_tag "pcapng_path" (pcapng_path c) ++
  [(lit "promiscuous", show_bool (promiscuous c)); (lit "publish_mode", publish_mode_fmt (publish_mode c));
   (lit "save_mode", save_mode_fmt (save_mode c)); (lit "snaplen", show_nat (snaplen c));
   (lit "timeout_ms", show_nat (timeout_ms c))].

#[export] Instance PcapSource_source {B} `{!PcapBackend B} : Source (PcapSource B) := {
  src_open := source_open;
  src_recv := fun s => let '(s', r) := source_recv s in
                       (s', match r with
                            | Ok o => Ok ((fun p => FDatagram (Some (fst p)) (snd p)) <$> o)
                            | Err e => Err e
                            | Panic => Panic
                            end);
  src_metadata := fun s => mkChannelMeta (lit "pcap") (iface_label (config s)) (pcap_tags (config s));
  src_close := source_close
}.

(** ** What a library delivers *)
Section Spec.
  Context {Host Inactive Active : Type} `{HL : !PcapLib Host Inactive Active}.

(** The next read that is not a timeout. *)
Inductive reads : Active -> PcapError + (PacketHeader * list Z) -> Active -> Prop :=
| reads_now a r a' : next_packet a = (a', r) -> r <> inl TimeoutExpired -> reads a r a'
| reads_later a a1 r a' : timed_out a1 a -> reads a1 r a' -> reads a r a'.

Definition outcome (link : Z) (r : PcapError + (PacketHeader * list Z)) : result (option NativePacket) :=
  match r with
  | inr (h, d) => Ok (Some (native_packet link h d))
  | inl NoMorePackets => Ok None
  | inl e => Err (pcap_err E1102SourceClosed "reading pcap packet" e)
  end.

Lemma recv_turn_eq link (a : Active) again r (E : next_packet a = r) :
  recv_turn link a again (next_packet a) eq_refl = recv_turn link a again r E.
Proof. by destruct E. Qed.
Lemma recv_loop_eq link (a : Active) (H : Acc timed_out a) r (E : next_packet a = r) :
  recv_loop link a H = recv_turn link a (fun a' E => recv_loop link a' (Acc_inv H E)) r E.
Proof. rewrite <- recv_turn_eq. by destruct H. Qed.

(** A run of packets, timeouts in between left out. *)
Inductive delivers : Active -> list (PacketHeader * list Z) -> Active -> Prop :=
| delivers_nil a : delivers a [] a
| delivers_cons a p a1 ps a2 : reads a (inr p) a1 -> delivers a1 ps a2 -> delivers a (p :: ps) a2.

Lemma recv_loop_reads link a r a' (H : Acc timed_out a) :
  reads a r a' -> recv_loop link a H = (a', outcome link r).
Proof.
  intros R. revert H. induction R as [a r a' E Hr|a a1 r a' Ht _ IH]; intros H.
  - rewrite (recv_loop_eq link a H _ E). by destruct r as [[| |m]|[h d]].
  - rewrite (recv_loop_eq link a H _ Ht). apply IH.
Qed.

(** The loop returns, and with what the library read. *)
Lemma recv_loop_returns link a (H : Acc timed_out a) :
  exists r, reads a r (fst (recv_loop link a H)) /\ snd (recv_loop link a H) = outcome link r.
Proof.
  assert (exists r a', reads a r a') as (r & a' & R).
  { induction H as [a _ IH]. destruct (next_packet a) as [a1 r] eqn:E.
    destruct (decide (r = inl TimeoutExpired)) as [->|N]; [|eauto using reads].
    destruct (IH a1 E) as (r & a' & R). eauto using reads. }
  exists r. by rewrite (recv_loop_reads link a r a' H R).
Qed.
End Spec.

Definition header_ok (p : PacketHeader * list Z) : Prop := 0 <= caplen (fst p) <= u32_max.
(** The [i]-th packet of a capture, from 1. *)
Definition numbered (link : Z) (i : Z) (p : PacketHeader * list Z) : PcapPacket :=
  to_packet i (native_packet link (fst p) (snd p)).
Fixpoint numbered_from (link k : Z) (ps : list (PacketHeader * list Z)) : list PcapPacket :=
  match ps with [] => [] | p :: ps' => numbered link (k + 1) p :: numbered_from link (k + 1) ps' end.

Section Exact.
  Context {Host Inactive Active : Type} `{HL : !PcapLib Host Inactive Active, HV : !PcapLive Host Inactive Active}.
  Variable windows : bool.
  #[local] Existing Instance native_backend.
  Abbreviation Source_ := (PcapSource (NativePcapBackend Host Active)).

(** The source after [k] packets of [n] bytes in all. *)
Definition after (c : PcapConfig) (a : Active) (link k n : Z) (last : option Z) (h : Host) : Source_ :=
  mkSource c (mkBackend (Some (mkNative a link)) k (mkPcapStats k n 0 0 0 0 last) h) true.

Lemma recv_after c a link k n l h p a1 :
  reads a (inr p) a1 -> header_ok p -> 0 <= k < u64_max -> 0 <= n <= u64_max - caplen (fst p) ->
  @recv_packet _ (native_backend windows) (after c a link k n l h) =
  (after c a1 link (k + 1) (n + caplen (fst p)) (Some (packet_header_timestamp_ns (fst p))) h,
   Ok (Some (numbered link (k + 1) p))).
Proof.
  intros R Hp Hk Hn. destruct p as [hd d]. unfold header_ok in Hp. cbn [fst] in *.
  unfold recv_packet, after. cbn [opened negb backend b_recv_packet native_backend config].
  unfold native_recv, recv_native_packet. cbn [state capture n_linktype].
  rewrite (recv_loop_reads _ _ _ _ _ R). cbn [outcome n_seq n_stats host].
  unfold count_packet, sat_u64, sat_add. cbn [packets_total bytes_total captured_len to_packet np_captured native_packet].
  rewrite (clampz_id 0 u64_max (k + 1)), (clampz_id 0 u64_max (n + caplen hd)) by lia. reflexivity.
Qed.

Lemma recv_n_after c link h a ps a' : delivers a ps a' -> forall k n l,
  Forall header_ok ps -> 0 <= k -> k + zlen ps <= u64_max -> 0 <= n ->
  n + captured_sum (numbered_from link k ps) <= u64_max ->
  @recv_n _ (native_backend windows) (length ps) (after c a link k n l h) =
  (after c a' link (k + zlen ps) (n + captured_sum (numbered_from link k ps))
     (match last ps with Some p => Some (packet_header_timestamp_ns (fst p)) | None => l end) h,
   map (fun p => Ok (Some p)) (numbered_from link k ps)).
Proof.
  induction 1 as [a|a p a1 ps a2 R _ IH]; intros k n l HF Hk Hlen Hn Hsum.
  - cbn. rewrite zlen_nil. by rewrite !Z.add_0_r.
  - apply Forall_cons in HF as [Hp HF]. rewrite zlen_cons in Hlen. pose proof (zlen_nonneg ps).
    cbn [numbered_from captured_sum foldr] in Hsum. fold (captured_sum (numbered_from link (k + 1) ps)) in Hsum.
    assert (0 <= captured_sum (numbered_from link (k + 1) ps)) as H0.
    { apply captured_sum_nonneg. clear -HF. generalize (k + 1). induction HF as [|q qs Hq _ IH]; intros j; cbn; constructor; [exact Hq|apply IH]. }
    change (captured_len (numbered link (k + 1) p)) with (caplen (fst p)) in Hsum.
    cbn [length recv_n]. rewrite (recv_after c a link k n l h p a1) by (try done; lia).
    rewrite IH by (try done; destruct Hp; lia).
    cbn [numbered_from map captured_sum foldr]. fold (captured_sum (numbered_from link (k + 1) ps)).
    change (captured_len (numbered link (k + 1) p)) with (caplen (fst p)). rewrite zlen_cons.
    f_equal. replace (k + (1 + zlen ps)) with (k + 1 + zlen ps) by lia.
    rewrite <- (Z.add_assoc n). f_equal. destruct ps as [|q ps]; [done|]. by cbn; destruct (last (q :: ps)) eqn:E; [|apply last_None in E].
Qed.

(** A live capture delivers what the library reads: after a successful open
    of a valid configuration, successive receives return the packets the library
    hands over, timeouts skipped, in order and without loss — numbered from 1,
    with their bytes, the header's captured length, an original length that is
    never the smaller of the two, the clamped nanosecond time and the link type
    of the capture — and the counters are exactly the packets and bytes
    delivered; the capture stands right behind the last of them. *)
Theorem native_capture_exact c h h' st ps a' :
  validate c = Ok tt -> open_native_capture windows c h = (h', Ok st) -> delivers (capture st) ps a' ->
  Forall header_ok ps -> zlen ps <= u64_max -> captured_sum (numbered_from (n_linktype st) 0 ps) <= u64_max ->
  exists s1 s2 : Source_,
    @source_open _ (native_backend windows) (with_backend c (native_default h)) = (s1, Ok tt) /\
    @recv_n _ (native_backend windows) (length ps) s1 =
      (s2, map (fun p => Ok (Some p)) (numbered_from (n_linktype st) 0 ps)) /\
    packets_total (n_stats (backend s2)) = zlen ps /\
    bytes_total (n_stats (backend s2)) = captured_sum (numbered_from (n_linktype st) 0 ps) /\
    capture <$> state (backend s2) = Some a'.
Proof.
  intros Hv Ho Hd HF Hlen Hsum. destruct st as [a link]. cbn [capture n_linktype] in *.
  exists (after c a link 0 0 None h').
  eexists. split; [|split; [exact (recv_n_after c link h' a ps a' Hd 0 0 None HF ltac:(lia) ltac:(lia) ltac:(lia) ltac:(lia))|done]].
  unfold source_open. cbn [opened with_backend config]. rewrite Hv. cbn [b_open native_backend backend native_default].
  unfold native_open, native_default. cbn [host backend with_backend]. by rewrite Ho.
Qed.

(** ** Receives and statistics in any order *)
Inductive native_op := NRecv | NStats.
Fixpoint native_run (os : list native_op) (b : NativePcapBackend Host Active)
  : NativePcapBackend Host Active * list PcapPacket :=
  match os with
  | [] => (b, [])
  | NStats :: os' => native_run os' (fst (native_stats b))
  | NRecv :: os' =>
      let '(b1, r) := native_recv b in
      let '(b2, ps) := native_run os' b1 in
      (b2, match r with Ok (Some p) => p :: ps | _ => ps end)
  end.

(** What the backend has counted, after packets [ps] and a maximum [k] of what
    the kernel reported. *)
Record counted (b : NativePcapBackend Host Active) (ps : list PcapPacket) (link : Z) : Prop := {
  counted_link : n_linktype <$> state b = Some link;
  counted_seq : n_seq b = Z.min u64_max (zlen ps);
  counted_bytes : bytes_total (n_stats b) = Z.min u64_max (captured_sum ps);
  counted_last : last_packet_ts_origin_ns (n_stats b) = p_ts_origin_ns <$> last ps;
  counted_packets : Z.min u64_max (zlen ps) <= packets_total (n_stats b);
  counted_numbers : forall i p, ps !! i = Some p ->
    p_seq p = Z.min u64_max (Z.of_nat i + 1) /\ linktype p = link /\ interface_id p = 0 /\
    captured_len p <= original_len p }.

Lemma sat_min a n : 0 <= a -> 0 <= n -> sat_u64 (Z.min u64_max a) n = Z.min u64_max (a + n).
Proof. unfold sat_u64, sat_add, clampz. zlia. Qed.

Lemma counted_stats b ps link : counted b ps link -> counted (fst (native_stats b)) ps link.
Proof.
  intros [H1 H2 H3 H4 H5 H6]. unfold native_stats. destruct (state b) as [st|] eqn:Es; [|by split; rewrite ?Es].
  destruct (kernel_stats (capture st)) as [a [e|k]]; cbn; split; cbn; try done. lia.
Qed.

Lemma counted_recv b ps link b' r : counted b ps link -> Forall packet_ok ps -> native_recv b = (b', r) ->
  (forall p, r = Ok (Some p) -> packet_ok p) ->
  counted b' (ps ++ match r with Ok (Some p) => [p] | _ => [] end) link.
Proof.
  intros [H1 H2 H3 H4 H5 H6] HF H Hok. unfold native_recv in H.
  destruct (state b) as [st|] eqn:Es; [|discriminate H1].
  unfold recv_native_packet in H.
  destruct (recv_loop_returns (n_linktype st) (capture st) (live (capture st))) as (q & _ & Hq).
  destruct (recv_loop _ _ _) as [a r0]. cbn in Hq. subst r0. cbn in H1. simplify_eq.
  destruct q as [[| |m]|[h d]]; cbn [outcome] in H; simplify_eq; rewrite ?app_nil_r; try by split.
  specialize (Hok _ eq_refl). pose proof (captured_sum_nonneg ps HF). pose proof (zlen_nonneg ps).
  destruct Hok as [Hc _]. split; cbn.
  - done.
  - rewrite H2, zlen_app. by apply sat_min.
  - rewrite H3, captured_sum_app. rewrite sat_min by done. by cbn; rewrite Z.add_0_r.
  - by rewrite last_snoc.
  - rewrite zlen_app. unfold sat_u64, sat_add, clampz. zlia.
  - intros i p Hi. apply lookup_snoc_Some in Hi as [[_ Hi]|[-> <-]]; [by apply H6|]. cbn.
    rewrite H2, sat_min by lia. repeat split; unfold zlen; lia.
Qed.

Lemma counted_run os : forall b qs link b' ps, counted b qs link -> Forall packet_ok (qs ++ ps) ->
  native_run os b = (b', ps) -> counted b' (qs ++ ps) link.
Proof.
  induction os as [|[] os IH]; intros b qs link b' ps Hc HF H; cbn [native_run] in H.
  - simplify_eq. by rewrite app_nil_r.
  - destruct (native_recv b) as [b1 r] eqn:Hr. destruct (native_run os b1) as [b2 ps2] eqn:Hn.
    pose proof (counted_recv b qs link b1 r Hc (proj1 (proj1 (Forall_app _ _ _) HF)) Hr) as Hs.
    destruct r as [[p|]|e|]; simplify_eq.
    + rewrite cons_middle, app_assoc in HF |- *. apply (IH b1); [|done|done]. apply Hs. intros p' [= <-].
      apply Forall_app in HF as [HF _]. apply Forall_app in HF as [_ HF]. by inversion HF.
    + apply (IH b1); [|done..]. rewrite app_nil_r in Hs. by apply Hs.
    + apply (IH b1); [|done..]. rewrite app_nil_r in Hs. by apply Hs.
    + apply (IH b1); [|done..]. rewrite app_nil_r in Hs. by apply Hs.
  - eapply IH; [by apply counted_stats|done..].
Qed.

Lemma counted_open c b b' : native_open windows c b = (b', Ok tt) ->
  exists link, counted b' [] link.
Proof.
  unfold native_open. destruct (open_native_capture _ _ _) as [h [st|e|]]; intros H; simplify_eq.
  exists (n_linktype st). by split.
Qed.

(** Whatever the order of receives and statistics calls after an open, the
    packets are numbered from 1 without a gap, all have the capture's link type,
    the byte counter and the last time are exactly those of the packets
    delivered, and the packet counter is never behind them; at the top of 64
    bits the counters stay there. *)
Theorem native_counters c os b0 b1 b2 ps :
  native_open windows c b0 = (b1, Ok tt) -> native_run os b1 = (b2, ps) -> Forall packet_ok ps ->
  exists link, counted b2 ps link.
Proof.
  intros [link Ho]%counted_open Hr HF. exists link. by apply (counted_run os b1 [] link).
Qed.

(** ** Which errors an open reports *)
Definition open_error_ids : list ErrorId :=
  [E1101SourceOpen; E1104PcapPermissionDenied; E1105PcapInvalidFilter; E1106PcapInterfaceUnavailable].

Lemma classify_ids context message :
  classify_pcap_open_error context message ∈ open_error_ids.
Proof. unfold classify_pcap_open_error. repeat case_if; apply (bool_decide_unpack _); reflexivity. Qed.
Lemma classify_filter context message :
  classify_pcap_open_error context message = E1105PcapInvalidFilter <->
  context = lit "applying pcap BPF filter".
Proof.
  unfold classify_pcap_open_error, str_eqb. case_bool_decide as E; [done|]. split; [|done]. by repeat case_if.
Qed.
Lemma i32_field_cases v : i32_field v = Ok v /\ i32_min <= v <= i32_max \/
  i32_field v = Err E1101SourceOpen /\ (v < i32_min \/ i32_max < v).
Proof.
  unfold i32_field, try_from. destruct (in_range i32_min i32_max v) eqn:E; [left|right]; (split; [done|]).
  - by apply in_range_spec.
  - by apply in_range_false in E.
Qed.
(** A failure of the library while opening. *)
Lemma lib_open_err {A} ctx (r : PcapError + A) e : lib_result E1101SourceOpen ctx r = Err e ->
  e ∈ open_error_ids /\ (e = E1105PcapInvalidFilter -> lit ctx = lit "applying pcap BPF filter").
Proof.
  destruct r as [m|a]; cbn; [|done]. unfold pcap_err. rewrite decide_True by done. intros [= <-].
  split; [apply classify_ids|]. by intros H%classify_filter.
Qed.
Lemma open_error_base : E1101SourceOpen ∈ open_error_ids.
Proof. apply (bool_decide_unpack _). reflexivity. Qed.

(** The outcome of an open: the capture, or an error of the list that is the
    filter's exactly when the filter was refused. *)
Definition open_outcome (c : PcapConfig) (r : result (@NativePcapState Active)) : Prop :=
  match r with
  | Ok st => 0 <= n_linktype st <= u32_max
  | Err e => e ∈ open_error_ids /\
      (e = E1105PcapInvalidFilter -> exists (a : Active) f err,
         applied_filter c = Some f /\ snd (set_filter f a) = inl err)
  | Panic => False
  end.

Lemma finish_open_outcome c (a : Active) : open_outcome c (finish_open c a).
Proof.
  unfold finish_open.
  assert (Hlink : forall a : Active, open_outcome c
    (let* link := ok_or (try_from 0 u32_max (get_datalink a)) E1101SourceOpen in Ok (mkNative a link))).
  { intros a0. unfold try_from. destruct (in_range _ _ _) eqn:E; cbn; [by apply in_range_spec in E|].
    split; [apply open_error_base|done]. }
  destruct (applied_filter c) as [f|] eqn:Ef; [|apply Hlink].
  destruct (set_filter f a) as [a' [err|[]]] eqn:Es; [|apply Hlink].
  destruct (lib_result E1101SourceOpen _ (inl err)) as [u|e|] eqn:El; [done| |done].
  apply lib_open_err in El as [H _]. split; [exact H|]. intros _. exists a, f, err. by rewrite Es.
Qed.

(** Opening a live capture always ends with a capture whose link type fits
    32 bits or with one of four errors — it never panics —; it reports an invalid
    filter only when the library refused the configuration's filter, and a
    snapshot length or a timeout beyond 31 bits is refused before the library is
    touched. *)
Theorem native_open_outcome c h h' r :
  open_native_capture windows c h = (h', r) ->
  open_outcome c r /\
  (i32_max < snaplen c \/ i32_max < timeout_ms c -> r = Err E1101SourceOpen /\ h' = h).
Proof.
  unfold open_native_capture. intros H.
  destruct (i32_field_cases (snaplen c)) as [[E1 L1]|[E1 L1]], (i32_field_cases (timeout_ms c)) as [[E2 L2]|[E2 L2]];
    rewrite E1, ?E2 in H; [|by simplify_eq; split; [split; [apply open_error_base|done]|]..].
  split; [|lia]. destruct (from_device (interface c) h) as [h1 rd].
  assert (Hlib : forall A ctx (x : PcapError + A) e, lib_result E1101SourceOpen ctx x = Err e ->
    lit ctx <> lit "applying pcap BPF filter" -> open_outcome c (Err e)).
  { intros A ctx x e [He Hf]%lib_open_err Hn. split; [done|]. intros ->. by destruct (Hn (Hf eq_refl)). }
  destruct (lib_result E1101SourceOpen "creating pcap capture" rd) as [i0|e|] eqn:Hd; simplify_eq.
  - set (ib := match buffer_bytes c with Some _ => _ | None => _ end) in H.
    assert (Hb : match ib with Err e => e = E1101SourceOpen | Panic => False | Ok _ => True end).
    { subst ib. destruct (buffer_bytes c) as [v|]; [|done]. by destruct (i32_field_cases v) as [[-> _]|[-> _]]. }
    destruct ib as [i2|e|]; simplify_eq; [|split; [apply open_error_base|done]|done].
    destruct (activate _ _) as [h2 ra]. simplify_eq.
    destruct (lib_result E1101SourceOpen "activating pcap capture" ra) as [a|e|] eqn:Ha; cbn.
    + apply finish_open_outcome.
    + eapply Hlib; [exact Ha|]. by vm_compute.
    + by destruct ra.
  - eapply Hlib; [exact Hd|]. by vm_compute.
  - by destruct rd.
Qed.
End Exact.

(** ** A library that plays a script of reads
    ([hs_filters] is the set of filters it accepts). *)
Definition script : Type := list (PcapError + (PacketHeader * list Z)).
Record HostScript := mkHostScript { hs_device : list Z; hs_filters : list (list Z); hs_reads : script; hs_stat : KernelStat }.
#[export] Instance script_lib : PcapLib HostScript HostScript HostScript := {
  from_device := fun d h => (h, if str_eqb d (hs_device h) then inr h else inl (OtherError (lit "No such device exists")));
  promisc := fun _ i => i;
  set_snaplen := fun _ i => i;
  timeout := fun _ i => i;
  buffer_size := fun _ i => i;
  immediate_mode := fun _ i => i;
  activate := fun i h => (h, inr i);
  set_filter := fun f a => (a, if decide (f ∈ hs_filters a) then inr tt else inl (OtherError (lit "syntax error")));
  get_datalink := fun _ => 1;
  next_packet := fun a =>
    match hs_reads a with
    | [] => (a, inl NoMorePackets)
    | r :: rs => (mkHostScript (hs_device a) (hs_filters a) rs (hs_stat a), r)
    end;
  kernel_stats := fun a => (a, inr (hs_stat a));
  error_text := fun e => match e with OtherError m => m | TimeoutExpired => lit "timeout expired" | NoMorePackets => lit "no more packets" end
}.
#[export] Instance script_live : PcapLive HostScript HostScript HostScript.
Proof.
  intros [d f rs k]. induction rs as [|r rs IH]; constructor; intros a' E.
  - discriminate E.
  - exact (match f_equal fst E in _ = y return Acc timed_out y with eq_refl => IH end).
Defined.

Definition live_packet (sec len : Z) (d : list Z) : PcapError + (PacketHeader * list Z) :=
  inr (mkHeader sec 234567 (zlen d) len, d).
(** Three packets in the kernel's buffer, with a pause before the first. *)
Definition live_host : HostScript := mkHostScript (lit "eth0") [lit "tcp port 502"]
  [inl TimeoutExpired; inl TimeoutExpired; live_packet 1 60 [1; 2; 3]; live_packet 2 2 [4; 5];
   inl TimeoutExpired; live_packet 3 0 [6]] (mkStat 3 0 0).
Definition live_config : PcapConfig :=
  mkPcap (lit "eth0") None false DEFAULT_SNAPLEN None DEFAULT_TIMEOUT_MS false (Some (lit "  tcp port 502 ")) SaveSession None StatsOnly.

Ltac script_reads := first
  [ apply reads_now; [reflexivity | discriminate]
  | eapply reads_later; [reflexivity | script_reads] ].

Lemma native_capture_exact_witness :
  exists s1 s2,
    @source_open _ (native_backend false) (with_backend live_config (native_default live_host)) = (s1, Ok tt) /\
    @recv_n _ (native_backend false) 3 s1 =
      (s2, [Ok (Some (mkPacket 1 1234567000 3 60 1 0 [1; 2; 3])); Ok (Some (mkPacket 2 2234567000 2 2 1 0 [4; 5]));
            Ok (Some (mkPacket 3 3234567000 1 1 1 0 [6]))]).
Proof.
  destruct (native_capture_exact false live_config live_host live_host (mkNative live_host 1)
    [(mkHeader 1 234567 3 60, [1; 2; 3]); (mkHeader 2 234567 2 2, [4; 5]); (mkHeader 3 234567 1 0, [6])]
    (mkHostScript (lit "eth0") [lit "tcp port 502"] [] (mkStat 3 0 0)))
    as (s1 & s2 & H1 & H2 & _).
  - reflexivity.
  - vm_compute. reflexivity.
  - repeat (eapply delivers_cons; [script_reads|]). apply delivers_nil.
  - repeat (apply Forall_cons; split; [vm_compute; split; discriminate|]). constructor.
  - vm_compute. discriminate.
  - vm_compute. discriminate.
  - exists s1, s2. split; [exact H1 | exact H2].
Defined.

Lemma native_open_outcome_witness :
  @open_outcome HostScript HostScript HostScript _ (mkPcap (lit "eth0") None false 65535 None 1000 false (Some (lit "tcp prt")) SaveSession None StatsOnly)
    (Err E1105PcapInvalidFilter) /\
  (snd (open_native_capture false (mkPcap (lit "eth0") None false 2147483648 None 1000 false None SaveSession None StatsOnly) live_host)
   = Err E1101SourceOpen).
Proof.
  split.
  - apply (native_open_outcome false _ live_host live_host). vm_compute. reflexivity.
  - destruct (native_open_outcome false
      (mkPcap (lit "eth0") None false 2147483648 None 1000 false None SaveSession None StatsOnly) live_host
      live_host (Err E1101SourceOpen)) as [_ H]; [vm_compute; reflexivity|].
    destruct H as [_ _]; [left; vm_compute; reflexivity|]. vm_compute. reflexivity.
Defined.

(** The packet counter counts a packet twice: a statistics call raises it to
    what the kernel has received, and each packet still in the buffer is added
    again when it is delivered.  Asked after every packet, as the runner does,
    three packets end as five. *)
Example native_stats_overcount :
  let '(b0, _) := native_open false live_config (native_default live_host) in
  let '(b, ps) := native_run [NRecv; NStats; NRecv; NStats; NRecv; NStats] b0 in
  zlen ps = 3 /\ received (hs_stat live_host) = 3 /\ packets_total (n_stats b) = 5.
Proof. vm_compute. done. Qed.

(** ** A blocking read and the task that waits for it

    [recv_packet] awaits a thread of the blocking pool.  Stopping a source aborts
    the task that awaits: the source and its backend are dropped, the thread goes
    on by itself.  The capture is closed when neither the backend nor a thread
    holds it. *)
Module Readers.
Section Readers.
  Context {Host Inactive Active : Type} `{HL : !PcapLib Host Inactive Active}.

Record Readers := mkReaders {
  handle : Active;              (* the shared capture *)
  owned : bool;                 (* the backend is alive *)
  reader : option bool;         (* a thread is reading; whether it is awaited *)
  delivered : list (PacketHeader * list Z);
  discarded : list (PacketHeader * list Z) }.
Definition opened_on (a : Active) : Readers := mkReaders a true None [] [].
Definition released (s : Readers) : bool := negb (owned s) && bool_decide (reader s = None).

(** A turn of the thread's loop. *)
Definition reader_turn (s : Readers) (awaited : bool) : Readers :=
  let '(a, r) := next_packet (handle s) in
  match r with
  | inl TimeoutExpired => mkReaders a (owned s) (Some awaited) (delivered s) (discarded s)
  | inr p => if awaited then mkReaders a (owned s) None (delivered s ++ [p]) (discarded s)
             else mkReaders a (owned s) None (delivered s) (discarded s ++ [p])
  | inl _ => mkReaders a (owned s) None (delivered s) (discarded s)
  end.
Inductive step : Readers -> Readers -> Prop :=
| step_recv s : owned s = true -> reader s = None ->
    step s (mkReaders (handle s) true (Some true) (delivered s) (discarded s))
| step_turn s w : reader s = Some w -> step s (reader_turn s w)
| step_abort s : owned s = true ->
    step s (mkReaders (handle s) false ((fun _ => false) <$> reader s) (delivered s) (discarded s)).

(** The packets the library handed over between two states of the capture. *)
Inductive handed : Active -> list (PacketHeader * list Z) -> Active -> Prop :=
| handed_nil a : handed a [] a
| handed_packet a a1 a2 ps p : handed a ps a1 -> next_packet a1 = (a2, inr p) -> handed a (ps ++ [p]) a2
| handed_none a a1 a2 ps e : handed a ps a1 -> next_packet a1 = (a2, inl e) -> handed a ps a2.

Definition inv (a : Active) (s : Readers) : Prop :=
  handed a (delivered s ++ discarded s) (handle s) /\
  (owned s = true -> discarded s = [] /\ reader s <> Some false) /\
  (owned s = false -> reader s <> Some true /\ (reader s = Some false -> discarded s = [])) /\
  (length (discarded s) <= 1)%nat.

Lemma readers_step a s s' : step s s' -> inv a s -> inv a s'.
Proof.
  intros [s0 Ho Hr|s0 w Hr|s0 Ho] (H1 & H2 & H3 & H4).
  - destruct (H2 Ho) as [Hd _]. repeat split; cbn; try done.
  - unfold reader_turn. destruct (next_packet (handle s0)) as [a1 r] eqn:E.
    destruct (owned s0) eqn:Ho; [destruct (H2 eq_refl) as [Hd Hw]|destruct (H3 eq_refl) as [Hw Hd]];
      rewrite Hr in *; destruct w; try done.
    + rewrite Hd, app_nil_r in *.
      destruct r as [[]|p]; repeat split; cbn; rewrite ?Hd, ?app_nil_r; eauto using handed; done.
    + rewrite (Hd eq_refl), app_nil_r in *.
      destruct r as [[]|p]; repeat split; cbn; rewrite ?(Hd eq_refl), ?app_nil_r; eauto using handed; try done; cbn; lia.
  - destruct (H2 Ho) as [Hd _]. repeat split; cbn; [done..| |done|by rewrite Hd; cbn; lia]. by destruct (reader s0).
Qed.

(** C39: Nothing is lost while a capture is in use: along any interleaving of
    receives, turns of the reading thread and the abort of the waiting task, the
    packets the library handed over are those delivered, in order, followed by at
    most one that was thrown away, and that only after the abort. *)
Theorem reader_loses_at_most_one a s :
  rtc step (opened_on a) s ->
  handed a (delivered s ++ discarded s) (handle s) /\ (length (discarded s) <= 1)%nat /\
  (owned s = true -> discarded s = []).
Proof.
  intros H. assert (inv a s) as (H1 & H2 & _ & H4).
  { revert H. apply (rtc_ind_r (fun s => inv a s)); [|eauto using readers_step].
    repeat split; cbn; try done; [constructor|lia]. }
  split; [done|]. split; [done|]. intros Ho. by apply H2.
Qed.

(** The thread of an aborted source ends once the library returns something
    else than a timeout. *)
Definition alone (s : Readers) : Prop := owned s = false /\ reader s = Some false.
Theorem abandoned_reader_ends s :
  alone s -> Acc timed_out (handle s) -> exists s', rtc step s s' /\ released s' = true.
Proof.
  intros Ha H. remember (handle s) as h eqn:E. revert s Ha E. induction H as [h _ IH]. intros s [Ho Hr] ->.
  pose proof (step_turn s false Hr) as Hs. revert Hs. unfold reader_turn.
  destruct (next_packet (handle s)) as [a1 r] eqn:En. intros Hs.
  destruct (decide (r = inl TimeoutExpired)) as [->|N].
  - destruct (IH a1 En (mkReaders a1 (owned s) (Some false) (delivered s) (discarded s))) as (s' & Hs' & Hr'); [done..|]. exists s'. split; [|done].
    by eapply rtc_l; [exact Hs|].
  - eexists. split; [eapply rtc_once; exact Hs|]. destruct r as [[]|p]; try done; unfold released; cbn; by rewrite Ho.
Qed.

(** On an interface without traffic it never does: the stopped source keeps its
    thread and the capture open, whatever happens next. *)
Theorem abandoned_reader_stays (quiet : Active -> Prop) s s' :
  (forall a, quiet a -> exists a', timed_out a' a /\ quiet a') ->
  alone s -> quiet (handle s) -> rtc step s s' -> alone s' /\ released s' = false.
Proof.
  intros Hq Ha Hh H. assert (alone s' /\ quiet (handle s')) as [Ha' _]; [|split; [done|]].
  - revert Ha Hh. induction H as [|x y z Hs _ IH]; [done|]. intros [Ho Hr] Hh.
    apply IH; destruct Hs as [x0 Ho' Hr'|x0 w Hr'|x0 Ho']; try congruence;
      destruct (Hq _ Hh) as (a' & Et & Hq'); unfold reader_turn; rewrite Et; [|done].
    split; [done|]. cbn. congruence.
  - destruct Ha' as [Ho Hr]. unfold released. by rewrite Ho, Hr.
Qed.
End Readers.

(** Two packets; the abort comes while the second is waited for. *)
Definition aborted_mid : @Readers HostScript :=
  mkReaders (mkHostScript (lit "eth0") [lit "tcp port 502"] [inl TimeoutExpired; live_packet 3 0 [6]] (mkStat 3 0 0))
    false None [(mkHeader 1 234567 3 60, [1; 2; 3])] [(mkHeader 2 234567 2 2, [4; 5])].
Lemma reader_loses_at_most_one_witness :
  rtc step (opened_on live_host) aborted_mid /\ released aborted_mid = true /\
  handed live_host (delivered aborted_mid ++ discarded aborted_mid) (handle aborted_mid).
Proof.
  assert (rtc step (opened_on live_host) aborted_mid) as H.
  { eapply rtc_l; [by apply step_recv|]. do 3 (eapply rtc_l; [by apply step_turn|]).
    eapply rtc_l; [by apply step_recv|]. eapply rtc_l; [by apply step_abort|].
    eapply rtc_l; [by apply step_turn|]. apply rtc_refl. }
  split; [exact H|]. split; [reflexivity|].
  exact (proj1 (reader_loses_at_most_one live_host aborted_mid H)).
Defined.

(** An interface on which nothing ever arrives. *)
#[local] Instance quiet_lib : PcapLib unit unit unit := {
  from_device := fun _ h => (h, inr tt); promisc := fun _ i => i; set_snaplen := fun _ i => i; timeout := fun _ i => i;
  buffer_size := fun _ i => i; immediate_mode := fun _ i => i; activate := fun _ h => (h, inr tt);
  set_filter := fun _ a => (a, inr tt); get_datalink := fun _ => 1;
  next_packet := fun a => (a, inl TimeoutExpired);
  kernel_stats := fun a => (a, inr (mkStat 0 0 0)); error_text := fun _ => []
}.
Lemma abandoned_reader_stays_witness :
  let stopped := mkReaders tt false (Some false) [] [] in
  rtc step (opened_on tt) stopped /\ (forall s', rtc step stopped s' -> released s' = false).
Proof.
  split.
  - eapply rtc_l; [by apply step_recv|]. eapply rtc_l; [by apply step_abort|]. apply rtc_refl.
  - intros s' H. refine (proj2 (abandoned_reader_stays (fun _ => True) _ s' _ _ I H)); [|by split].
    intros a _. by exists a.
Defined.
End Readers.

(** ** Discovery: crates/core/src/detect/pcap.rs *)
Module PcapDetect.
Record Device := mkDevice {
  d_name : list Z; d_desc : option (list Z); is_loopback : bool; is_up : bool; is_running : bool; is_wireless : bool }.
Record PcapInterfaceInfo := mkInfo {
  device : list Z; display : option (list Z); description : option (list Z);
  addresses : list (list Z); flags : list (list Z) }.

Definition flag (b : bool) (s : string) : list (list Z) := if b then [lit s] else [].
Definition native_device_info (d : Device) : PcapInterfaceInfo :=
  mkInfo (d_name d) (d_desc d) (d_desc d) []
    (flag (is_loopback d) "loopback" ++ flag (is_up d) "up" ++ flag (is_running d) "running" ++
     flag (is_wireless d) "wireless").

(** [str::cmp]: the order of the UTF-8 bytes is the order of the scalar values. *)
Fixpoint str_cmp (a b : list Z) : comparison :=
  match a, b with
  | [], [] => Eq
  | [], _ :: _ => Lt
  | _ :: _, [] => Gt
  | x :: a', y :: b' => match x ?= y with Eq => str_cmp a' b' | c => c end
  end.
Definition label (i : PcapInterfaceInfo) : list Z := default (device i) (display i).
Definition cmp (a b : PcapInterfaceInfo) : comparison :=
  match str_cmp (label a) (label b) with Eq => str_cmp (device a) (device b) | c => c end.
Definition le (a b : PcapInterfaceInfo) : Prop := cmp a b <> Gt.
#[global] Instance le_dec a b : Decision (le a b).
Proof. unfold le. apply _. Defined.

(** [sort_by] is stable. *)
Fixpoint insert (x : PcapInterfaceInfo) (l : list PcapInterfaceInfo) : list PcapInterfaceInfo :=
  match l with
  | [] => [x]
  | y :: l' => if decide (le x y) then x :: l else y :: insert x l'
  end.
Definition sort (l : list PcapInterfaceInfo) : list PcapInterfaceInfo := foldr insert [] l.
(** [dedup_by]: an element equal to the last one kept is dropped. *)
Fixpoint dedup_after (prev : list Z) (l : list PcapInterfaceInfo) : list PcapInterfaceInfo :=
  match l with
  | [] => []
  | x :: l' => if str_eqb (device x) prev then dedup_after prev l' else x :: dedup_after (device x) l'
  end.
Definition dedup (l : list PcapInterfaceInfo) : list PcapInterfaceInfo :=
  match l with [] => [] | x :: l' => x :: dedup_after (device x) l' end.
Definition sorted_unique (l : list PcapInterfaceInfo) : list PcapInterfaceInfo := dedup (sort l).
(** [list], given what [pcap::Device::list] answers. *)
Definition list_interfaces (pcap_capture : bool) (devices : option (list Device)) : list PcapInterfaceInfo :=
  sorted_unique (if pcap_capture then native_device_info <$> default [] devices else []).

Lemma str_cmp_eq a : forall b, str_cmp a b = Eq <-> a = b.
Proof.
  induction a as [|x a IH]; intros [|y b]; cbn; try done.
  destruct (Z.compare_spec x y) as [->|H|H]; [rewrite IH|..]; split; intros; simplify_eq; try done; lia.
Qed.
Lemma str_cmp_flip a : forall b, str_cmp b a = CompOpp (str_cmp a b).
Proof.
  induction a as [|x a IH]; intros [|y b]; cbn; try done.
  rewrite (Z.compare_antisym x y). by destruct (x ?= y); cbn.
Qed.
Lemma cmp_flip a b : cmp b a = CompOpp (cmp a b).
Proof. unfold cmp. rewrite (str_cmp_flip (label a)), (str_cmp_flip (device a)). by destruct (str_cmp (label a) (label b)). Qed.
Lemma le_total a b : ~ le a b -> le b a.
Proof. unfold le. rewrite (cmp_flip a b). by destruct (cmp a b); cbn; naive_solver. Qed.

Lemma insert_perm x l : insert x l ≡ₚ x :: l.
Proof. induction l as [|y l IH]; cbn; [done|]. case_decide; [done|]. rewrite IH. constructor. Qed.
Lemma sort_perm l : sort l ≡ₚ l.
Proof. induction l as [|x l IH]; cbn; [done|]. by rewrite insert_perm, IH. Qed.
Lemma insert_sorted x l : Sorted le l -> Sorted le (insert x l).
Proof.
  induction 1 as [|y l Hs IH Hh]; cbn; [repeat constructor|]. case_decide as D; [by repeat constructor|].
  constructor; [done|]. apply le_total in D. destruct l as [|z l]; cbn; [by constructor|].
  case_decide; constructor; [done|]. by inversion Hh.
Qed.
Lemma sort_sorted l : Sorted le (sort l).
Proof. induction l as [|x l IH]; cbn; [constructor|]. by apply insert_sorted. Qed.

(** The order is transitive. *)
Lemma str_cmp_trans a : forall b c, str_cmp a b = Lt -> str_cmp b c = Lt -> str_cmp a c = Lt.
Proof.
  induction a as [|x a IH]; intros [|y b] [|z c]; cbn; try done.
  destruct (Z.compare_spec x y), (Z.compare_spec y z), (Z.compare_spec x z); subst; try lia; eauto; done.
Qed.
#[global] Instance le_trans : Transitive le.
Proof.
  intros a b c. unfold le, cmp.
  destruct (str_cmp (label a) (label b)) eqn:E1; [apply str_cmp_eq in E1| |done];
    (destruct (str_cmp (label b) (label c)) eqn:E2; [apply str_cmp_eq in E2| |done]).
  - rewrite E1, E2. rewrite (proj2 (str_cmp_eq _ _) eq_refl). destruct (str_cmp (device a) (device b)) eqn:D1; [apply str_cmp_eq in D1| |done];
      (destruct (str_cmp (device b) (device c)) eqn:D2; [apply str_cmp_eq in D2| |done]); rewrite ?D1, ?D2;
      rewrite ?(proj2 (str_cmp_eq _ _) eq_refl); try done; [by rewrite <- D2, D1|]. by rewrite (str_cmp_trans _ _ _ D1 D2).
  - by rewrite E1, E2.
  - by rewrite <- E2, E1.
  - by rewrite (str_cmp_trans _ _ _ E1 E2).
Qed.

Lemma dedup_after_sublist prev l : sublist (dedup_after prev l) l.
Proof. revert prev. induction l as [|x l IH]; intros prev; cbn; [done|]. case_if; by constructor. Qed.
Lemma dedup_sublist l : sublist (dedup l) l.
Proof. destruct l; [done|]. cbn. constructor. apply dedup_after_sublist. Qed.
Lemma dedup_after_keeps prev l i : i ∈ l -> device i = prev \/ exists j, j ∈ dedup_after prev l /\ device j = device i.
Proof.
  revert prev. induction l as [|x l IH]; intros prev Hi; cbn; [by apply elem_of_nil in Hi|].
  unfold str_eqb. case_bool_decide as E; apply elem_of_cons in Hi as [->|Hi]; [by left|by apply IH| |].
  - right. exists x. split; [by left|done].
  - right. destruct (IH (device x) Hi) as [->|(j & Hj & <-)]; [exists x; split; [by left|done]|].
    exists j. split; [by right|done].
Qed.

Lemma sublist_sorted k l : sublist k l -> StronglySorted le l -> StronglySorted le k.
Proof.
  induction 1 as [|x k l Hkl IH|x k l _ IH]; intros Hs; [done|..]; apply StronglySorted_inv in Hs as [Hs HF]; [|by apply IH].
  constructor; [by apply IH|]. rewrite Forall_forall in HF |- *. intros y Hy. apply HF.
  exact (elem_of_submseteq _ _ _ Hy (sublist_submseteq _ _ Hkl)).
Qed.
Definition consistent (l : list PcapInterfaceInfo) : Prop :=
  forall i j, i ∈ l -> j ∈ l -> device i = device j -> label i = label j.

Lemma squeeze x y z : le x y -> le y z -> label x = label z -> device x = device z -> device y = device x.
Proof.
  intros H1 H2 Hl Hd. assert (cmp y z = cmp y x) as E by (unfold cmp; by rewrite Hl, Hd).
  unfold le in *. rewrite E, (cmp_flip x y) in H2. destruct (cmp x y) eqn:C; try done.
  unfold cmp in C. destruct (str_cmp (label x) (label y)); try done. by apply str_cmp_eq in C.
Qed.

Lemma dedup_after_nodup x l : StronglySorted le (x :: l) -> consistent (x :: l) ->
  NoDup (device <$> (x :: dedup_after (device x) l)).
Proof.
  revert x. induction l as [|y l IH]; intros x Hs Hc; cbn [dedup_after]; [apply NoDup_singleton|].
  apply StronglySorted_inv in Hs as [Hs Hx]. apply Forall_cons in Hx as [Hxy Hx].
  unfold str_eqb. case_bool_decide as E.
  - apply IH; [|intros i j Hi Hj; apply Hc; set_solver].
    apply StronglySorted_inv in Hs as [Hs _]. by constructor.
  - rewrite fmap_cons. apply NoDup_cons. split; [|apply IH; [done|intros i j Hi Hj; apply Hc; set_solver]].
    intros (z & Hz & Hin)%list_elem_of_fmap. apply elem_of_cons in Hin as [->|Hin]; [congruence|].
    pose proof (elem_of_submseteq _ _ _ Hin (sublist_submseteq _ _ (dedup_after_sublist _ l))) as Hzl.
    apply StronglySorted_inv in Hs as [_ Hy]. rewrite Forall_forall in Hy.
    apply E. eapply squeeze; [exact Hxy|by apply Hy| |done]. apply Hc; [set_solver..|done].
Qed.

(** The interfaces offered for capture: the list is in order of label and
    then device, every entry is one the system reported, every device reported
    is in it, and when a device is reported under one label only it is offered
    once. *)
Theorem sorted_unique_spec l :
  StronglySorted le (sorted_unique l) /\
  (forall i, i ∈ sorted_unique l -> i ∈ l) /\
  (forall i, i ∈ l -> exists j, j ∈ sorted_unique l /\ device j = device i) /\
  (consistent l -> NoDup (device <$> sorted_unique l)).
Proof.
  unfold sorted_unique. pose proof (Sorted_StronglySorted le _ (sort_sorted l)) as Hs.
  pose proof (sort_perm l) as Hp.
  assert (forall i, i ∈ sort l <-> i ∈ l) as Hin by (intros i; by rewrite Hp).
  split; [|split; [|split]].
  - exact (sublist_sorted _ _ (dedup_sublist _) Hs).
  - intros i Hi. apply Hin. exact (elem_of_submseteq _ _ _ Hi (sublist_submseteq _ _ (dedup_sublist _))).
  - intros i Hi%Hin. destruct (sort l) as [|x k]; [by apply elem_of_nil in Hi|]. cbn.
    apply elem_of_cons in Hi as [->|Hi]; [exists x; set_solver|].
    destruct (dedup_after_keeps (device x) k i Hi) as [->|(j & Hj & <-)]; [exists x; set_solver|exists j; set_solver].
  - intros Hc. destruct (sort l) as [|x k] eqn:E; [constructor|]. apply (dedup_after_nodup x k); [done|].
    intros i j Hi Hj. apply Hc; by apply Hin.
Qed.

(** A device reported under two labels, with another label between them, is
    offered twice: only neighbours are compared. *)
Example device_offered_twice :
  device <$> sorted_unique [mkInfo (lit "eth0") (Some (lit "Alpha")) None [] []; mkInfo (lit "eth1") (Some (lit "Beta")) None [] [];
                            mkInfo (lit "eth0") (Some (lit "Gamma")) None [] []] =
  [lit "eth0"; lit "eth1"; lit "eth0"].
Proof. vm_compute. reflexivity. Qed.
End PcapDetect.
