(* ===== verification/Startup.v ===== *)
(** * Server start-up: provisioned tokens, detected ports, configured sources

    crates/server/src/lib.rs ([ServerSecurity::bearer_verifier],
    [start_configured_sources] and its helpers), the bulk start of
    server/src/source_manager.rs, and crates/core/src/detect/serial.rs.  The
    sources are started through [Ws.SourceApi]; [StartKeeps] is what start-up
    needs of a manager beyond it, and the source manager is an instance. *)
From stdpp Require Import base numbers strings gmap sorting list.
From S2P Require Import Prelude Text Spec Naming Clock Decoder Detect Wire Sessions Runner Manager Auth WsParse Ws WsManager.

Local Open Scope Z_scope.
Local Open Scope tm_scope.

(** ** Bearer tokens given at start *)
Record ServerSecurity := mkSecurity {
  token_phc : list (list Z); token_phc_files : list (list Z); tls_dir : option (list Z) }.
Inductive SecurityError :=
| InvalidInline
| ReadFailed (path : list Z)
| InvalidLine (path : list Z) (line_no : nat).

Section Security.
  (** argon2's parser, and [std::fs::read_to_string]. *)
  Context (phc_ok : list Z -> bool) (read_to_string : list Z -> option (list Z)).

Fixpoint add_inline (v : BearerVerifier) (phcs : list (list Z)) : res SecurityError BearerVerifier :=
  match phcs with
  | [] => Ok v
  | p :: ps =>
      match trim p with
      | [] => add_inline v ps
      | phc => let* v' := map_err (fun _ => InvalidInline) (add_phc phc_ok v phc) in add_inline v' ps
      end
  end.
Fixpoint add_lines (path : list Z) (line_no : nat) (v : BearerVerifier) (ls : list (list Z))
  : res SecurityError BearerVerifier :=
  match ls with
  | [] => Ok v
  | l :: ls' =>
      let phc := trim l in
      if bool_decide (phc = []) || starts_with [35] phc then add_lines path (S line_no) v ls'
      else let* v' := map_err (fun _ => InvalidLine path (S line_no)) (add_phc phc_ok v phc) in
           add_lines path (S line_no) v' ls'
  end.
Fixpoint add_files (v : BearerVerifier) (paths : list (list Z)) : res SecurityError BearerVerifier :=
  match paths with
  | [] => Ok v
  | p :: ps =>
      let* text := ok_or (read_to_string p) (ReadFailed p) in
      let* v' := add_lines p 0 v (buf_lines text) in
      add_files v' ps
  end.
Definition bearer_verifier (s : ServerSecurity) : res SecurityError BearerVerifier :=
  let* v := add_inline verifier_new (token_phc s) in add_files v (token_phc_files s).

(** The hashes an operator provisioned, and whether every file can be read. *)
Definition inline_hashes (phcs : list (list Z)) : list (list Z) :=
  filter (fun p => p <> []) (map trim phcs).
Definition line_hashes (text : list Z) : list (list Z) :=
  filter (fun p => p <> [] /\ starts_with [35] p = false) (map trim (buf_lines text)).
Definition provisioned (s : ServerSecurity) : list (list Z) :=
  inline_hashes (token_phc s) ++ (token_phc_files s ≫= fun p => default [] (line_hashes <$> read_to_string p)).
Definition readable (s : ServerSecurity) : Prop := Forall (fun p => is_Some (read_to_string p)) (token_phc_files s).

(** Adding hashes one by one: all of them, or none is valid from some point. *)
Definition adds (v : BearerVerifier) (hs : list (list Z)) (r : res SecurityError BearerVerifier) : Prop :=
  match r with
  | Ok v' => Forall (fun p => phc_ok p = true) hs /\ hashes v' = hashes v ++ hs
  | Err _ => ~ Forall (fun p => phc_ok p = true) hs
  | Panic => False
  end.
Lemma adds_cons v p hs (r : BearerVerifier -> res SecurityError BearerVerifier) e :
  (forall v', adds v' hs (r v')) ->
  adds v (p :: hs) (let* v' := map_err (fun _ => e) (add_phc phc_ok v p) in r v').
Proof.
  intros H. unfold add_phc. destruct (phc_ok p) eqn:E; cbn.
  - specialize (H (mkVerifier (hashes v ++ [p]))). unfold adds in *.
    destruct (r _) as [v'|e'|]; [|rewrite Forall_cons; tauto|done]. destruct H as [HF ->]. split; [by constructor|].
    cbn. by rewrite <- (assoc_L (++)).
  - rewrite Forall_cons. intros [? _]. congruence.
Qed.
Lemma adds_nil v : adds v [] (Ok v).
Proof. split; [constructor|by rewrite app_nil_r]. Qed.

Lemma add_inline_adds phcs : forall v, adds v (inline_hashes phcs) (add_inline v phcs).
Proof.
  induction phcs as [|p ps IH]; intros v; [apply adds_nil|]. unfold inline_hashes. cbn [map add_inline].
  destruct (trim p) as [|c t] eqn:E.
  - rewrite filter_cons_False by (intros H; by apply H). apply IH.
  - rewrite filter_cons_True by done. apply adds_cons. apply IH.
Qed.
Lemma add_lines_adds path ls : forall n v,
  adds v (filter (fun p => p <> [] /\ starts_with [35] p = false) (map trim ls)) (add_lines path n v ls).
Proof.
  induction ls as [|l ls IH]; intros n v; [apply adds_nil|]. cbn [map add_lines].
  case_bool_decide as E; cbn [orb].
  - rewrite filter_cons_False by (intros [H _]; done). apply IH.
  - destruct (starts_with [35] (trim l)) eqn:Es.
    + rewrite filter_cons_False by (intros [_ H]; congruence). apply IH.
    + rewrite filter_cons_True by done. apply adds_cons. intros v'. apply IH.
Qed.
Lemma adds_app v hs hs' r (k : BearerVerifier -> res SecurityError BearerVerifier) :
  adds v hs r -> (forall v', adds v' hs' (k v')) -> adds v (hs ++ hs') (let* v' := r in k v').
Proof.
  intros H1 H2. destruct r as [v1|e|]; cbn in *; [|rewrite Forall_app; tauto|done]. destruct H1 as [HF E].
  specialize (H2 v1). unfold adds in *. destruct (k v1) as [v2|e|]; [|rewrite Forall_app; tauto|done].
  destruct H2 as [HF2 ->]. rewrite Forall_app, E. split; [done|]. by rewrite <- (assoc_L (++)).
Qed.

Lemma add_files_adds paths : forall v,
  Forall (fun p => is_Some (read_to_string p)) paths ->
  adds v (paths ≫= fun p => default [] (line_hashes <$> read_to_string p)) (add_files v paths).
Proof.
  induction paths as [|p ps IH]; intros v HF; [apply adds_nil|]. apply Forall_cons in HF as [[t Ht] HF].
  cbn [add_files mbind list_bind]. rewrite Ht. cbn [ok_or fmap option_fmap option_map default from_option].
  apply (adds_app v (line_hashes t) _ (add_lines p 0 v (buf_lines t))); [apply add_lines_adds|]. intros v'. by apply IH.
Qed.
Lemma add_files_readable paths : forall v v', add_files v paths = Ok v' ->
  Forall (fun p => is_Some (read_to_string p)) paths.
Proof.
  induction paths as [|p ps IH]; intros v v' H; [constructor|]. cbn [add_files] in H.
  apply bind_Ok in H as (t & Ht & H). apply bind_Ok in H as (v1 & _ & H).
  constructor; [|by eapply IH]. unfold ok_or in Ht. destruct (read_to_string p); [by eexists|done].
Qed.

(** What start-up provisions: it succeeds exactly when every token file can
    be read and every hash given — on the command line or on a line of a file
    that is neither blank nor a comment, white space around it ignored — is
    well-formed, and then a token is accepted exactly when one of those hashes
    verifies it. *)
Theorem bearer_verifier_exact (verify_password : list Z -> list Z -> bool) s :
  ((exists v, bearer_verifier s = Ok v) <-> readable s /\ Forall (fun p => phc_ok p = true) (provisioned s)) /\
  (forall v tok, bearer_verifier s = Ok v ->
     hashes v = provisioned s /\
     (verify phc_ok verify_password v tok = Ok tt <->
      Exists (fun h => verify_password (utf8 tok) h = true) (provisioned s)) /\
     (verify phc_ok verify_password v tok <> Ok tt -> verify phc_ok verify_password v tok = Err Rejected)).
Proof.
  assert (Ha : readable s -> adds verifier_new (provisioned s) (bearer_verifier s)).
  { intros HF. unfold bearer_verifier, provisioned. apply adds_app; [apply add_inline_adds|]. intros v.
    by apply add_files_adds. }
  assert (Hr : forall v, bearer_verifier s = Ok v -> readable s).
  { intros v (v1 & _ & H)%bind_Ok. by eapply add_files_readable. }
  assert (Hok : forall v, bearer_verifier s = Ok v ->
    Forall (fun p => phc_ok p = true) (provisioned s) /\ hashes v = provisioned s).
  { intros v H. specialize (Ha (Hr v H)). by rewrite H in Ha. }
  split; [split|].
  - intros [v Hv]. split; [by eapply Hr|by apply (Hok v)].
  - intros [HF Hp]. specialize (Ha HF). destruct (bearer_verifier s) as [v|e|]; [by eexists|by destruct Ha|done].
  - intros v tok Hv. destruct (Hok v Hv) as [HF Hh]. split; [done|]. rewrite <- Hh.
    assert (wf_verifier phc_ok v) as Hw by (unfold wf_verifier; by rewrite Hh).
    destruct (verify_spec phc_ok verify_password v tok Hw) as [[-> Hac]|[-> Hn]]; [done|].
    split; [|done]. split; [done|]. by intros H%Hn.
Qed.
End Security.

(** A file with a comment, a blank line and an indented hash. *)
Example bearer_verifier_reads :
  bearer_verifier (fun p => negb (starts_with [33] p)) (fun _ => Some (lit "# c" ++ [10; 10; 32] ++ lit "h2" ++ [13; 10]))
    (mkSecurity [lit " h1 "; lit "  "] [lit "f"] None) = Ok (mkVerifier [lit "h1"; lit "h2"]) /\
  bearer_verifier (fun p => negb (starts_with [33] p)) (fun _ => Some (lit "# c" ++ [10] ++ lit "!"))
    (mkSecurity [] [lit "f"] None) = Err (InvalidLine (lit "f") 2).
Proof. vm_compute. done. Qed.

(** ** Serial ports: crates/core/src/detect/serial.rs *)
Module SerialDetect.
Definition tty_prefixes : list (list Z) := [lit "ttyUSB"; lit "ttyACM"; lit "ttyS"; lit "cu."; lit "tty."].
Definition dev_candidate (name : list Z) : option (list Z) :=
  if existsb (fun p => starts_with p name) tty_prefixes then Some (lit "/dev/" ++ name) else None.
(** What the serial backend lists, if it is built in and answers, then the
    entries of [/dev] whose names are UTF-8. *)
Definition platform_candidates (unix : bool) (ports : option (list (list Z))) (dev : option (list (list Z)))
  : list (list Z) :=
  default [] ports ++ (if unix then omap dev_candidate (default [] dev) else []).
Fixpoint dedup (l : list (list Z)) : list (list Z) :=
  match l with
  | x :: ((y :: _) as l') => if str_eqb x y then dedup l' else x :: dedup l'
  | _ => l
  end.
Fixpoint str_leb (a b : list Z) : bool :=
  match a, b with
  | [], _ => true
  | _ :: _, [] => false
  | x :: a', y :: b' => if x =? y then str_leb a' b' else x <? y
  end.
Definition str_le (a b : list Z) : Prop := str_leb a b = true.
#[global] Instance str_le_dec a b : Decision (str_le a b).
Proof. unfold str_le. apply _. Defined.
Definition sorted_unique (l : list (list Z)) : list (list Z) := dedup (merge_sort str_le l).
Definition serial_list (unix : bool) (ports dev : option (list (list Z))) : list (list Z) :=
  sorted_unique (platform_candidates unix ports dev).

#[global] Instance str_le_total : Total str_le.
Proof.
  intros a. unfold str_le. induction a as [|x a IH]; intros [|y b]; cbn; try (left; done); try (right; done).
  rewrite (Z.eqb_sym y x). destruct (Z.eqb_spec x y) as [->|N]; [apply IH|]. rewrite !Z.ltb_lt. lia.
Qed.
#[global] Instance str_le_trans : Transitive str_le.
Proof.
  intros a. unfold str_le. induction a as [|x a IH]; intros [|y b] [|z c]; cbn; try done.
  destruct (Z.eqb_spec x y), (Z.eqb_spec y z), (Z.eqb_spec x z); subst; rewrite ?Z.ltb_lt; try lia; try done. apply IH.
Qed.
#[global] Instance str_le_antisymm : AntiSymm (=) str_le.
Proof.
  intros a. unfold str_le. induction a as [|x a IH]; intros [|y b]; cbn; try done.
  rewrite (Z.eqb_sym y x). destruct (Z.eqb_spec x y) as [->|N]; [intros; f_equal; by apply IH|].
  rewrite !Z.ltb_lt. lia.
Qed.

Lemma dedup_elem x l : x ∈ dedup l <-> x ∈ l.
Proof.
  induction l as [|a l IH]; [done|]. destruct l as [|b l]; [done|]. cbn [dedup]. cbn [dedup] in IH.
  unfold str_eqb. case_bool_decide as E; rewrite ?elem_of_cons, IH, ?elem_of_cons; [subst|]; naive_solver.
Qed.
Lemma dedup_strict l : StronglySorted str_le l -> StronglySorted (fun a b => str_le a b /\ a <> b) (dedup l).
Proof.
  induction 1 as [|a l Hs IH HF]; [constructor|]. destruct l as [|b l]; [repeat constructor|].
  cbn [dedup]. unfold str_eqb. case_bool_decide as E; [done|]. constructor; [done|].
  apply Forall_forall. intros y Hy%(dedup_elem y (b :: l)). rewrite Forall_forall in HF. split; [by apply HF|].
  intros ->. apply E. apply elem_of_cons in Hy as [->|Hy]; [done|].
  apply StronglySorted_inv in Hs as [_ HFb]. rewrite Forall_forall in HFb.
  apply (anti_symm str_le); [apply HF; by left|by apply HFb].
Qed.

(** The ports that are opened with [--open-all-serial]: exactly the candidates,
    each once, in strictly increasing order — so the order in which the
    system lists them does not matter. *)
Theorem serial_list_exact unix ports dev :
  let c := platform_candidates unix ports dev in
  (forall p, p ∈ serial_list unix ports dev <-> p ∈ c) /\
  StronglySorted (fun a b => str_le a b /\ a <> b) (serial_list unix ports dev).
Proof.
  intros c. unfold serial_list, sorted_unique. fold c. split.
  - intros p. by rewrite dedup_elem, (merge_sort_Permutation str_le c).
  - apply dedup_strict. apply (StronglySorted_merge_sort str_le).
Qed.
End SerialDetect.

(** ** Opening the configured sources *)
Record StartupChannel := mkChannel { ch_name : list Z; ch_label : option (list Z); ch_spec : ChannelSpec }.
Record SerialPortOptions := mkSerialOptions {
  so_baud : Z; so_data_bits : Z; so_parity : list Z; so_stop_bits : Z; so_flow : list Z }.
Definition default_serial_options : SerialPortOptions := mkSerialOptions 115200 8 (lit "none") 1 (lit "none").
Record SerialAutostart := mkAutostart { au_ports : option (list (list Z)); au_options : SerialPortOptions }.
Record StartupSources := mkStartup { st_channels : list StartupChannel; st_serial : option SerialAutostart }.
Record SerialStartOutcome := mkOutcome { oc_port : list Z; oc_sid : option Z; oc_error : option (list Z) }.

Definition serial_spec_for_port (port : list Z) (o : SerialPortOptions) : ChannelSpec :=
  Serial port (so_baud o) (so_data_bits o) (so_parity o) (so_stop_bits o) (so_flow o).
Definition source_manager_default_start_options (s : Settings) : SourceStartOptions :=
  mkOptions (Some (s_classifier s)) (Some (s_encoding s)) (Some (s_mode s)) (Some (s_pattern s)) None.
Definition with_label (o : SourceStartOptions) (l : option (list Z)) : SourceStartOptions :=
  mkOptions (o_classifier o) (o_encoding o) (o_mode o) (o_pattern o) l.

Section Start.
  Context {M : Type} `{!SourceApi M}.
  Variable settings_of : M -> Settings.

(** Starts in sequence; the outcome of each is kept, and one that fails does
    not stop the rest. *)
Fixpoint start_all (m : M) (jobs : list (ChannelSpec * SourceStartOptions)) : M * list (AnyError + Z) :=
  match jobs with
  | [] => (m, [])
  | (spec, o) :: jobs' =>
      let '(m1, r) := api_start m spec o in
      let '(m2, rs) := start_all m1 jobs' in (m2, r :: rs)
  end.

Fixpoint start_serial_ports (m : M) (ports : list (list Z)) (so : SerialPortOptions) (o : SourceStartOptions)
  : M * list SerialStartOutcome :=
  match ports with
  | [] => (m, [])
  | port :: ports' =>
      let '(m1, r) := api_start m (serial_spec_for_port port so) o in
      let out := match r with
                 | inr sid => mkOutcome port (Some sid) None
                 | inl e => mkOutcome port None (Some (any_display e))
                 end in
      let '(m2, outs) := start_serial_ports m1 ports' so o in (m2, out :: outs)
  end.

(** The counters the server logs: started and failed. *)
Record Tally := mkTally { tally_ok : Z; tally_failed : Z }.
Fixpoint channels_loop (m : M) (base : SourceStartOptions) (chs : list StartupChannel) (t : Tally) : M * Tally :=
  match chs with
  | [] => (m, t)
  | c :: chs' =>
      match api_start m (ch_spec c) (with_label base (ch_label c)) with
      | (m1, inr _) => channels_loop m1 base chs' (mkTally (tally_ok t + 1) (tally_failed t))
      | (m1, inl _) => channels_loop m1 base chs' (mkTally (tally_ok t) (tally_failed t + 1))
      end
  end.
Definition start_configured_channels (m : M) (chs : list StartupChannel) : M * Tally :=
  match chs with
  | [] => (m, mkTally 0 0)
  | _ => channels_loop m (source_manager_default_start_options (settings_of m)) chs (mkTally 0 0)
  end.

(** [detected] is what [detect::serial::list] answers. *)
Definition start_configured_sources (m : M) (detected : list (list Z)) (s : StartupSources)
  : M * (Tally * list SerialStartOutcome) :=
  let '(m1, t) := start_configured_channels m (st_channels s) in
  match st_serial s with
  | None => (m1, (t, []))
  | Some serial =>
      match default detected (au_ports serial) with
      | [] => (m1, (t, []))
      | ports => let '(m2, outs) := start_serial_ports m1 ports (au_options serial)
                                      (source_manager_default_start_options (settings_of m1)) in (m2, (t, outs))
      end
  end.

(** The starts a configuration asks for, in order. *)
Definition channel_jobs (base : SourceStartOptions) (chs : list StartupChannel) : list (ChannelSpec * SourceStartOptions) :=
  map (fun c => (ch_spec c, with_label base (ch_label c))) chs.
Definition serial_jobs (base : SourceStartOptions) (so : SerialPortOptions) (ports : list (list Z))
  : list (ChannelSpec * SourceStartOptions) := map (fun p => (serial_spec_for_port p so, base)) ports.
Definition succeeded (rs : list (AnyError + Z)) : list Z := omap (fun r => match r with inr s => Some s | inl _ => None end) rs.
Definition outcome_of (port : list Z) (r : AnyError + Z) : SerialStartOutcome :=
  match r with inr sid => mkOutcome port (Some sid) None | inl e => mkOutcome port None (Some (any_display e)) end.

Lemma channels_loop_all base chs : forall m t, channels_loop m base chs t =
  let '(m', rs) := start_all m (channel_jobs base chs) in
  (m', mkTally (tally_ok t + zlen (succeeded rs)) (tally_failed t + (zlen chs - zlen (succeeded rs)))).
Proof.
  induction chs as [|c chs IH]; intros m [a b]; cbn [channels_loop channel_jobs map start_all].
  - unfold succeeded. cbn. rewrite !zlen_nil. by rewrite !Z.add_0_r.
  - fold (channel_jobs base chs). destruct (api_start m _ _) as [m1 [e|sid]]; rewrite IH;
      destruct (start_all m1 _) as [m2 rs]; cbn [succeeded omap list_omap]; fold (succeeded rs);
      rewrite ?zlen_cons; cbn [tally_ok tally_failed]; do 2 f_equal; lia.
Qed.
Lemma serial_ports_all so base ports : forall m, start_serial_ports m ports so base =
  let '(m', rs) := start_all m (serial_jobs base so ports) in (m', zip_with outcome_of ports rs).
Proof.
  induction ports as [|p ports IH]; intros m; cbn [start_serial_ports serial_jobs map start_all]; [done|].
  fold (serial_jobs base so ports). destruct (api_start m _ _) as [m1 r]. rewrite IH.
  by destruct (start_all m1 _) as [m2 rs].
Qed.
Lemma start_all_app js : forall m ks, start_all m (js ++ ks) =
  let '(m1, rs) := start_all m js in let '(m2, qs) := start_all m1 ks in (m2, rs ++ qs).
Proof.
  induction js as [|[sp o] js IH]; intros m ks; cbn [app start_all]; [by destruct (start_all m ks)|].
  destruct (api_start m sp o) as [m1 r]. rewrite IH. destruct (start_all m1 js) as [m2 rs].
  by destruct (start_all m2 ks).
Qed.
Lemma start_all_length js : forall m, length (snd (start_all m js)) = length js.
Proof.
  induction js as [|[sp o] js IH]; intros m; cbn [start_all]; [done|]. destruct (api_start m sp o) as [m1 r].
  specialize (IH m1). destruct (start_all m1 js). cbn in *. by rewrite IH.
Qed.
End Start.

(** What start-up needs of a manager: a start disturbs no source that runs. *)
Class StartKeeps (M : Type) `{!SourceApi M} (good : M -> Prop) : Prop := {
  good_start m spec o m' r : good m -> api_start m spec o = (m', r) -> good m';
  start_keeps m spec o m' r i : good m -> api_start m spec o = (m', r) ->
    api_running m i = true -> api_registered m i = true -> api_running m' i = true /\ api_registered m' i = true }.

Section Kept.
  Context {M : Type} `{HA : !SourceApi M} (good : M -> Prop) `{!StartKeeps M good}.
Definition up (m : M) (i : Z) : Prop := api_running m i = true /\ api_registered m i = true.

Lemma start_all_keeps js : forall m m' rs, good m -> start_all m js = (m', rs) ->
  good m' /\ (forall i, up m i -> up m' i) /\ (forall i, i ∈ succeeded rs -> up m' i).
Proof.
  induction js as [|[sp o] js IH]; intros m m' rs Hg H; cbn [start_all] in H.
  - simplify_eq. split; [done|]. split; [done|]. intros i []%elem_of_nil.
  - destruct (api_start m sp o) as [m1 r] eqn:Hs. destruct (start_all m1 js) as [m2 rs'] eqn:Hr. simplify_eq.
    destruct (IH m1 m' rs' (good_start _ _ _ _ _ Hg Hs) Hr) as (Hg' & Hk & Hsu). split; [done|]. split.
    + intros i [H1 H2]. apply Hk. exact (start_keeps _ _ _ _ _ i Hg Hs H1 H2).
    + unfold succeeded. cbn. destruct r as [e|sid]; [exact Hsu|]. intros i [->|Hi]%elem_of_cons; [|by apply Hsu].
      apply Hk. destruct (api_start_ok m sp o m1 sid Hs). by split.
Qed.

Definition serial_ports (detected : list (list Z)) (s : StartupSources) : list (list Z) :=
  match st_serial s with Some a => default detected (au_ports a) | None => [] end.
Definition serial_params (s : StartupSources) : SerialPortOptions :=
  match st_serial s with Some a => au_options a | None => default_serial_options end.

Lemma channels_all settings_of m chs : exists rs,
  start_all m (channel_jobs (source_manager_default_start_options (settings_of m)) chs) =
    (fst (start_configured_channels settings_of m chs), rs) /\
  snd (start_configured_channels settings_of m chs) = mkTally (zlen (succeeded rs)) (zlen chs - zlen (succeeded rs)).
Proof.
  unfold start_configured_channels. destruct chs as [|c chs]; [by exists []|].
  rewrite channels_loop_all. destruct (start_all m _) as [m1 rs]. exists rs. split; [done|]. cbn. f_equal.
Qed.
Lemma sources_all settings_of m detected s :
  let m1 := fst (start_configured_channels settings_of m (st_channels s)) in
  start_configured_sources settings_of m detected s =
  let '(m2, rs) := start_all m1 (serial_jobs (source_manager_default_start_options (settings_of m1)) (serial_params s)
                                   (serial_ports detected s)) in
  (m2, (snd (start_configured_channels settings_of m (st_channels s)),
        zip_with outcome_of (serial_ports detected s) rs)).
Proof.
  unfold start_configured_sources, serial_ports, serial_params.
  destruct (start_configured_channels _ _ _) as [m1 t]. cbn [fst snd].
  destruct (st_serial s) as [a|]; [|done]. destruct (default detected (au_ports a)) as [|p ps]; [done|].
  rewrite serial_ports_all. by destruct (start_all m1 _).
Qed.

(** Starting up is best effort and complete: the configured channels and then
    the serial ports are tried in order, each exactly once whatever becomes of
    the others; the counters add up to the channels, every port has one outcome,
    in order, with either its session or its error; and when start-up is over
    every source that was started, and every one that ran before, is running
    and registered. *)
Theorem startup_best_effort settings_of m detected s m' t outs :
  good m -> start_configured_sources settings_of m detected s = (m', (t, outs)) ->
  let m1 := fst (start_configured_channels settings_of m (st_channels s)) in
  exists rs qs,
    start_all m (channel_jobs (source_manager_default_start_options (settings_of m)) (st_channels s) ++
                 serial_jobs (source_manager_default_start_options (settings_of m1)) (serial_params s) (serial_ports detected s)) = (m', rs ++ qs) /\
    length rs = length (st_channels s) /\
    tally_ok t = zlen (succeeded rs) /\ tally_ok t + tally_failed t = zlen (st_channels s) /\
    map oc_port outs = serial_ports detected s /\ outs = zip_with outcome_of (serial_ports detected s) qs /\
    (forall i, i ∈ succeeded (rs ++ qs) \/ up m i -> up m' i).
Proof.
  intros Hg H m0. subst m0. rewrite sources_all in H. destruct (channels_all settings_of m (st_channels s)) as (rs & Hc & Ht).
  set (m1 := fst (start_configured_channels settings_of m (st_channels s))) in *.
  set (base := source_manager_default_start_options (settings_of m1)) in *.
  destruct (start_all m1 _) as [m2 qs] eqn:Hs. simplify_eq. exists rs, qs.
  assert (Hall : start_all m (channel_jobs (source_manager_default_start_options (settings_of m)) (st_channels s) ++
    serial_jobs base (serial_params s) (serial_ports detected s)) = (m', rs ++ qs))
    by (rewrite start_all_app, Hc, Hs; done).
  destruct (start_all_keeps _ _ _ _ Hg Hall) as (_ & Hk & Hu). rewrite Ht.
  pose proof (start_all_length (channel_jobs (source_manager_default_start_options (settings_of m)) (st_channels s)) m) as Hl1.
  pose proof (start_all_length (serial_jobs base (serial_params s) (serial_ports detected s)) m1) as Hl2.
  rewrite Hc in Hl1. rewrite Hs in Hl2. unfold channel_jobs in Hl1. unfold serial_jobs in Hl2. rewrite length_map in *.
  cbn [snd tally_ok tally_failed] in *. split; [exact Hall|]. split; [done|]. split; [done|]. split; [lia|].
  split; [|split; [done|intros i [Hi|Hi]; auto]].
  clear -Hl2. revert qs Hl2. induction (serial_ports detected s) as [|p ps IH]; intros [|q qs] Hl; try done.
  cbn. f_equal; [by destruct q|]. apply IH. by injection Hl.
Qed.
End Kept.

(** ** The source manager keeps what runs *)
Section ManagerKeeps.
  Context (Tx : Type) (decode_label : list Z -> list Z -> list Z * bool) (to_lowercase : list Z -> list Z)
    (build_regex : list Z -> bool -> option (list Z -> Z)).
  Context (world : nat -> World Tx) (transport_error : nat -> AnyError) (sink_error : nat -> option AnyError)
    (fresh_sid : nat -> Z).
  Abbreviation api := (ManagerApi Tx decode_label to_lowercase build_regex world transport_error sink_error fresh_sid).

(** Task numbers are handed out in order. *)
Definition fresh_tasks (st : State Tx) : Prop := forall k t, tasks Tx st !! k = Some t -> (k < next_task Tx st)%nat.
Definition kept (st st' : State Tx) : Prop :=
  fresh_tasks st' /\
  (forall i, status_of Tx st i = Running -> status_of Tx st' i = Running) /\
  (forall i, is_Some (Ingest.registry Tx (ingest Tx st) !! i) -> is_Some (Ingest.registry Tx (ingest Tx st') !! i)).

Lemma kept_refl st : fresh_tasks st -> kept st st.
Proof. by repeat split. Qed.
(** A new task leaves the status of the others alone. *)
Lemma new_task_status (st : State Tx) g t i : fresh_tasks st ->
  status_of Tx st i = Running ->
  status_of Tx (mkState Tx (settings Tx st) (sources Tx st) (<[next_task Tx st := t]> (tasks Tx st)) (S (next_task Tx st)) g
                  (calls Tx st)) i = Running.
Proof.
  intros Hf. unfold status_of, is_finished. cbn. destruct (sources Tx st !! i) as [e|]; [|done].
  destruct (e_handle e) as [k|]; [|done]. destruct (tasks Tx st !! k) as [t0|] eqn:Ek; [|done].
  rewrite lookup_insert_ne; [by rewrite Ek|]. specialize (Hf _ _ Ek). lia.
Qed.
Lemma fresh_insert (st : State Tx) g t : fresh_tasks st ->
  fresh_tasks (mkState Tx (settings Tx st) (sources Tx st) (<[next_task Tx st := t]> (tasks Tx st)) (S (next_task Tx st)) g
                  (calls Tx st)).
Proof. intros Hf k t0. cbn. intros [[<- _]|[_ H]]%lookup_insert_Some; [lia|]. specialize (Hf _ _ H). lia. Qed.

Definition spawn_kept (st st' : State Tx) (r : res MgrError Call) : Prop :=
  kept st st' /\ match r with Ok (Spawned i _ e') => kept st (insert_spawned Tx st' i e') | _ => True end.

Lemma launch_kept st sid dir kind iface tx registers e has_sink st' r :
  fresh_tasks st -> launch Tx st sid dir kind iface tx registers e has_sink = (st', r) ->
  spawn_kept st st' r.
Proof.
  intros Hf H. unfold launch in H. destruct registers.
  - destruct (Ingest.register_session _ _ _) as [g i] eqn:Hr. simplify_eq.
    assert (Hreg : forall j, is_Some (Ingest.registry Tx (ingest Tx st) !! j) -> is_Some (Ingest.registry Tx g !! j)).
    { intros j. unfold Ingest.register_session, Ingest.insert_if_absent in Hr. cbn in Hr.
      destruct (Ingest.registry Tx (ingest Tx st) !! sid) eqn:E; simplify_eq; cbn; [done|].
      intros Hj. apply lookup_insert_is_Some'. by right. }
    assert (K : kept st (mkState Tx (settings Tx st) (sources Tx st) (<[next_task Tx st := mkTask i dir TRunning]> (tasks Tx st))
      (S (next_task Tx st)) g (calls Tx st))).
    { split; [by apply fresh_insert|]. split; [|done]. intros j. by apply new_task_status. }
    split; [done|]. destruct K as (K1 & K2 & K3). split; [done|]. split; [|done]. intros j Hj.
    unfold insert_spawned, status_of, is_finished. cbn. destruct (decide (j = i)) as [->|N].
    + rewrite lookup_insert_eq. cbn. by rewrite lookup_insert_eq.
    + rewrite lookup_insert_ne by done. exact (K2 j Hj).
  - simplify_eq. split; [|done]. split; [by apply fresh_insert|]. split; [|done]. intros j. by apply new_task_status.
Qed.

Lemma start_spec_kept st sid spec dir o w st' r : fresh_tasks st ->
  start_spec_with_sid Tx decode_label to_lowercase build_regex st sid spec dir o w = (st', r) ->
  spawn_kept st st' r.
Proof.
  intros Hf. unfold start_spec_with_sid, start_duplex_spec, start_source_only_spec, start_pcap_source_with_sid,
    start_remote_spec, start_default_pipeline.
  repeat case_match; first [by apply launch_kept | intros [= <- <-]; by split; [apply kept_refl|]].
Qed.

Lemma srv_start_kept (m : Server Tx) spec o m' r : fresh_tasks (sv Tx m) ->
  @api_start _ api m spec o = (m', r) -> kept (sv Tx m) (sv Tx m').
Proof.
  intros Hf. cbn. unfold srv_start, call. intros [= <- _]. cbn [sv].
  unfold begin_call, finish_start.
  destruct (start_spec_with_sid _ _ _ _ _ _ _ _ _ _) as [st1 r1] eqn:Hs.
  apply start_spec_kept in Hs as [K1 K2]; [|done]. by destruct r1 as [[]|e|].
Qed.

#[export] Instance manager_keeps : @StartKeeps (Server Tx) api (fun m => fresh_tasks (sv Tx m)).
Proof.
  split; [intros m spec o m' r Hg H; by destruct (srv_start_kept m spec o m' r Hg H)|].
  intros m spec o m' r i Hg H Hrun Hreg. destruct (srv_start_kept m spec o m' r Hg H) as (_ & K2 & K3).
  cbn in *. unfold srv_running, srv_registered in *. split.
  - destruct (status_of Tx (sv Tx m) i) eqn:E; try done. by rewrite (K2 i E).
  - apply bool_decide_eq_true in Hreg. apply bool_decide_eq_true. by apply K3.
Qed.
End ManagerKeeps.

Lemma pair3 {A B C} (x : A * (B * C)) : x = (fst x, (fst (snd x), snd (snd x))).
Proof. by destruct x as [? [? ?]]. Qed.

(** ** A concrete start-up: two channels and the detected serial ports *)
Module StartDemo.
Definition startup : StartupSources :=
  mkStartup [mkChannel (lit "a") (Some (lit "left")) (Mock (lit "m1")); mkChannel (lit "b") None (Mqtt (lit "host") (lit "t"))]
    (Some (mkAutostart None default_serial_options)).
Definition detected : list (list Z) := SerialDetect.serial_list true (Some [lit "/dev/ttyUSB1"]) (Some [lit "ttyUSB0"; lit "null"; lit "ttyUSB1"]).
Definition result := @start_configured_sources _ Demo.api (fun m => settings unit (sv unit m)) Demo.server0 detected startup.
End StartDemo.

Example startup_detects : StartDemo.detected = [lit "/dev/ttyUSB0"; lit "/dev/ttyUSB1"].
Proof. vm_compute. reflexivity. Qed.

Lemma startup_best_effort_witness : exists m' t outs,
  StartDemo.result = (m', (t, outs)) /\ tally_ok t + tally_failed t = 2 /\
  map oc_port outs = [lit "/dev/ttyUSB0"; lit "/dev/ttyUSB1"] /\
  (forall i, i ∈ [1; 2; 3; 4] -> @up _ Demo.api m' i).
Proof.
  exists (fst StartDemo.result), (fst (snd StartDemo.result)), (snd (snd StartDemo.result)).
  destruct (@startup_best_effort _ Demo.api (fun m => fresh_tasks unit (sv unit m)) (manager_keeps _ _ _ _ _ _ _ _)
    (fun m => settings unit (sv unit m)) Demo.server0 StartDemo.detected StartDemo.startup
    (fst StartDemo.result) (fst (snd StartDemo.result)) (snd (snd StartDemo.result)))
    as (rs & qs & Hall & Hlen & Hok & Ht & Hp & Ho & Hu).
  - intros k t H. cbn in H. by rewrite lookup_empty in H.
  - exact (pair3 StartDemo.result).
  - split; [exact (pair3 StartDemo.result)|]. split; [exact Ht|]. split; [rewrite Hp; vm_compute; reflexivity|].
    intros i Hi. apply Hu. left. apply (f_equal snd) in Hall. cbn [snd] in Hall. rewrite <- Hall.
    revert i Hi. apply Forall_forall. apply (bool_decide_unpack _). vm_compute. reflexivity.
Defined.
