(* ===== verification/Summary.v ===== *)
(** * Packet summaries

    crates/core/src/packet_summary.rs: the link types, what is taken from the
    slices of a packet, and where its payload is found; and the JSON object the
    capture runner merges into a packet's record.  The slicing of the packet is
    the etherparse crate: [slice] is an argument, its answer a [SlicedPacket] of
    the values its accessors return, and [well_sliced] states the layout those
    slices have in the packet. *)
From stdpp Require Import base numbers strings list.
From S2P Require Import Prelude Text Spec Decoder Capture PcapRunner.

Local Open Scope Z_scope.
Local Open Scope tm_scope.

Definition LINKTYPE_ETHERNET : Z := 1.
Definition LINKTYPE_RAW : Z := 101.
Definition LINKTYPE_LINUX_SLL : Z := 113.
Inductive PacketLinkType := Ethernet | RawIp | LinuxSllLink.
Definition from_pcap_linktype (l : Z) : option PacketLinkType :=
  if l =? LINKTYPE_ETHERNET then Some Ethernet
  else if l =? LINKTYPE_RAW then Some RawIp
  else if l =? LINKTYPE_LINUX_SLL then Some LinuxSllLink
  else None.
Definition link_type_fmt (t : PacketLinkType) : list Z :=
  lit match t with Ethernet => "ethernet" | RawIp => "raw-ip" | LinuxSllLink => "linux-sll" end.

Inductive PacketSummaryError := UnsupportedLinkType (l : Z) | Malformed (text : list Z).
Definition error_text (e : PacketSummaryError) : list Z :=
  match e with
  | UnsupportedLinkType l => lit "unsupported pcap link type " ++ show_nat l
  | Malformed t => lit "malformed or truncated packet: " ++ t
  end.

(** ** What etherparse hands over *)
Inductive LinuxSllProtocolType := SllEtherType (t : Z) | SllOther.
Inductive LinkSlice :=
| Ethernet2 (source destination : list Z) (ether_type header_len : Z)
| LinuxSll (protocol_type : LinuxSllProtocolType) (header_len : Z)
| EtherPayload (ether_type : Z)
| LinuxSllPayload (protocol_type : LinuxSllProtocolType).
Inductive LinkExtSlice := Vlan (identifier ether_type header_len : Z) | Macsec (header_len : Z).
Inductive NetSlice :=
| Ipv4 (source destination : list Z) (ip_number ttl : Z) (frag : bool) (total_len : Z) (payload : list Z)
| Ipv6 (source destination : list Z) (ip_number hop : Z) (frag : bool) (payload_length header_len : Z) (payload : list Z)
| Arp.
Inductive TransportSlice :=
| Tcp (source_port destination_port header_len : Z) (payload : list Z)
| Udp (source_port destination_port header_len : Z) (payload : list Z)
| Icmpv4 (type_u8 code_u8 header_len : Z) (payload : list Z)
| Icmpv6 (type_u8 code_u8 header_len : Z) (payload : list Z).
Record SlicedPacket := mkSliced {
  link : option LinkSlice; link_exts : list LinkExtSlice; net : option NetSlice; transport : option TransportSlice;
  ip_payload : option (list Z); ether_payload : option (list Z) }.

(** ** The summary *)
Record PacketSummary := mkSummary {
  s_link : PacketLinkType; packet_len : Z; protocol : list Z; src_mac : option (list Z); dst_mac : option (list Z);
  vlan_ids : list Z; ethertype : option Z; ip_version : option Z; src_ip : option (list Z); dst_ip : option (list Z);
  ip_protocol : option Z; hop_limit : option Z; fragmented : bool; src_port : option Z; dst_port : option Z;
  icmp_type : option Z; icmp_code : option Z; payload_offset : option Z; payload_len : option Z }.
Definition initial (t : PacketLinkType) (len : Z) : PacketSummary :=
  mkSummary t len (lit "unknown") None None [] None None None None None None false None None None None None None.

Definition set_macs (s : PacketSummary) (a b : list Z) : PacketSummary :=
  mkSummary (s_link s) (packet_len s) (protocol s) (Some a) (Some b) (vlan_ids s) (ethertype s) (ip_version s) (src_ip s)
    (dst_ip s) (ip_protocol s) (hop_limit s) (fragmented s) (src_port s) (dst_port s) (icmp_type s) (icmp_code s)
    (payload_offset s) (payload_len s).
Definition set_ethertype (s : PacketSummary) (t : Z) : PacketSummary :=
  mkSummary (s_link s) (packet_len s) (protocol s) (src_mac s) (dst_mac s) (vlan_ids s) (Some t) (ip_version s) (src_ip s)
    (dst_ip s) (ip_protocol s) (hop_limit s) (fragmented s) (src_port s) (dst_port s) (icmp_type s) (icmp_code s)
    (payload_offset s) (payload_len s).
Definition push_vlan (s : PacketSummary) (v : Z) : PacketSummary :=
  mkSummary (s_link s) (packet_len s) (protocol s) (src_mac s) (dst_mac s) (vlan_ids s ++ [v]) (ethertype s) (ip_version s)
    (src_ip s) (dst_ip s) (ip_protocol s) (hop_limit s) (fragmented s) (src_port s) (dst_port s) (icmp_type s) (icmp_code s)
    (payload_offset s) (payload_len s).
Definition set_protocol (s : PacketSummary) (p : list Z) : PacketSummary :=
  mkSummary (s_link s) (packet_len s) p (src_mac s) (dst_mac s) (vlan_ids s) (ethertype s) (ip_version s) (src_ip s)
    (dst_ip s) (ip_protocol s) (hop_limit s) (fragmented s) (src_port s) (dst_port s) (icmp_type s) (icmp_code s)
    (payload_offset s) (payload_len s).
Definition set_ip (s : PacketSummary) (v : Z) (a b : list Z) (n h : Z) (f : bool) : PacketSummary :=
  mkSummary (s_link s) (packet_len s) (protocol s) (src_mac s) (dst_mac s) (vlan_ids s) (ethertype s) (Some v) (Some a)
    (Some b) (Some n) (Some h) f (src_port s) (dst_port s) (icmp_type s) (icmp_code s) (payload_offset s) (payload_len s).
Definition set_ports (s : PacketSummary) (a b : Z) : PacketSummary :=
  mkSummary (s_link s) (packet_len s) (protocol s) (src_mac s) (dst_mac s) (vlan_ids s) (ethertype s) (ip_version s) (src_ip s)
    (dst_ip s) (ip_protocol s) (hop_limit s) (fragmented s) (Some a) (Some b) (icmp_type s) (icmp_code s) (payload_offset s)
    (payload_len s).
Definition set_icmp (s : PacketSummary) (a b : Z) : PacketSummary :=
  mkSummary (s_link s) (packet_len s) (protocol s) (src_mac s) (dst_mac s) (vlan_ids s) (ethertype s) (ip_version s) (src_ip s)
    (dst_ip s) (ip_protocol s) (hop_limit s) (fragmented s) (src_port s) (dst_port s) (Some a) (Some b) (payload_offset s)
    (payload_len s).
Definition set_payload (s : PacketSummary) (off n : Z) : PacketSummary :=
  mkSummary (s_link s) (packet_len s) (protocol s) (src_mac s) (dst_mac s) (vlan_ids s) (ethertype s) (ip_version s) (src_ip s)
    (dst_ip s) (ip_protocol s) (hop_limit s) (fragmented s) (src_port s) (dst_port s) (icmp_type s) (icmp_code s) (Some off)
    (Some n).

(** ** Addresses as text *)
Definition format_mac (m : list Z) : list Z := join [58] (map (show_hex2 false) m).
Definition show_ipv4 (a : list Z) : list Z := join [46] (map show_nat a).
(** [{:x}], and [{:04x}], of a 16-bit value. *)
Definition hex4 (n : Z) : list Z := show_hex2 false (n / 256) ++ show_hex2 false (n mod 256).
Fixpoint drop_zeros (l : list Z) : list Z :=
  match l with 48 :: ((_ :: _) as l') => drop_zeros l' | _ => l end.
Definition hex16 (n : Z) : list Z := drop_zeros (hex4 n).
Fixpoint segments (a : list Z) : list Z :=
  match a with hi :: lo :: a' => 256 * hi + lo :: segments a' | _ => [] end.
(** The first of the longest runs of zero segments: where it starts and its
    length, [cur] being the run that ends here. *)
Fixpoint zero_run (i : nat) (cur best : nat * nat) (l : list Z) : nat * nat :=
  match l with
  | [] => best
  | 0 :: l' => let cur' := if decide (snd cur = O) then (i, 1%nat) else (fst cur, S (snd cur)) in
               zero_run (S i) cur' (if decide (snd best < snd cur')%nat then cur' else best) l'
  | _ :: l' => zero_run (S i) (O, O) best l'
  end.
Definition show_segments (l : list Z) : list Z := join [58] (map hex16 l).
(** [Ipv6Addr]'s [Display]. *)
Definition show_ipv6 (a : list Z) : list Z :=
  let s := segments a in
  if decide (take 6 s = [0; 0; 0; 0; 0; 65535]) then lit "::ffff:" ++ show_ipv4 (drop 12 a)
  else let '(i, n) := zero_run 0 (O, O) (O, O) s in
       if decide (1 < n)%nat then show_segments (take i s) ++ lit "::" ++ show_segments (drop (i + n) s)
       else show_segments s.

Example ipv6_text :
  show_ipv6 [0x20; 1; 0x0d; 0xb8; 0; 0; 0; 0; 0; 0; 0; 0; 0; 0; 0; 1] = lit "2001:db8::1" /\
  show_ipv6 (replicate 16 0) = lit "::" /\ show_ipv6 (replicate 15 0 ++ [1]) = lit "::1" /\
  show_ipv6 [0; 1; 0; 0; 0; 2; 0; 3; 0; 4; 0; 0; 0; 0; 0; 5] = lit "1:0:2:3:4::5" /\
  show_ipv6 (replicate 10 0 ++ [255; 255; 192; 168; 1; 20]) = lit "::ffff:192.168.1.20".
Proof. vm_compute. done. Qed.

(** ** Taking the summary from the slices; a cursor that overflows [usize]
    would panic *)
Abbreviation sres A := (res PacketSummaryError A).
Definition add_usize (a b : Z) : sres Z := checked 0 usize_max (a + b).

Definition linux_sll_ethertype (t : LinuxSllProtocolType) : option Z :=
  match t with SllEtherType e => Some e | SllOther => None end.
Definition opt_ethertype (s : PacketSummary) (t : option Z) : PacketSummary :=
  match t with Some e => set_ethertype s e | None => s end.

Definition apply_link_summary (sp : SlicedPacket) (s : PacketSummary) : PacketSummary * Z :=
  match link sp with
  | Some (Ethernet2 src dst e n) => (set_ethertype (set_macs s (format_mac src) (format_mac dst)) e, n)
  | Some (LinuxSll p n) => (opt_ethertype s (linux_sll_ethertype p), n)
  | Some (EtherPayload e) => (set_ethertype s e, 0)
  | Some (LinuxSllPayload p) => (opt_ethertype s (linux_sll_ethertype p), 0)
  | None => (s, 0)
  end.

Fixpoint apply_vlan_summary (exts : list LinkExtSlice) (s : PacketSummary) (cursor : Z) : sres (PacketSummary * Z) :=
  match exts with
  | [] => Ok (s, cursor)
  | Vlan v e n :: exts' =>
      let* c := add_usize cursor n in apply_vlan_summary exts' (set_ethertype (push_vlan s v) e) c
  | Macsec n :: exts' => let* c := add_usize cursor n in apply_vlan_summary exts' s c
  end.

Definition apply_net_summary (sp : SlicedPacket) (s : PacketSummary) (cursor : Z) : sres (PacketSummary * Z) :=
  match net sp with
  | Some (Ipv4 src dst n ttl f total p) =>
      let s1 := set_ip (set_protocol s (lit "ipv4")) 4 (show_ipv4 src) (show_ipv4 dst) n ttl f in
      let* c := add_usize cursor (sat_sub 0 usize_max total (zlen p)) in Ok (s1, c)
  | Some (Ipv6 src dst n hop f plen hl p) =>
      let s1 := set_ip (set_protocol s (lit "ipv6")) 6 (show_ipv6 src) (show_ipv6 dst) n hop f in
      let* d := add_usize (sat_sub 0 usize_max plen (zlen p)) hl in
      let* c := add_usize cursor d in Ok (s1, c)
  | Some Arp => Ok (set_protocol s (lit "arp"), cursor)
  | None => Ok (match ethertype s with
                | Some e => set_protocol s (lit "ethertype:0x" ++ hex4 e)
                | None => s
                end, cursor)
  end.

Definition t_header_len (t : TransportSlice) : Z :=
  match t with Tcp _ _ n _ | Udp _ _ n _ | Icmpv4 _ _ n _ | Icmpv6 _ _ n _ => n end.
Definition t_payload (t : TransportSlice) : list Z :=
  match t with Tcp _ _ _ p | Udp _ _ _ p | Icmpv4 _ _ _ p | Icmpv6 _ _ _ p => p end.
Definition transport_fields (s : PacketSummary) (t : TransportSlice) : PacketSummary :=
  match t with
  | Tcp a b _ _ => set_ports (set_protocol s (lit "tcp")) a b
  | Udp a b _ _ => set_ports (set_protocol s (lit "udp")) a b
  | Icmpv4 a b _ _ => set_icmp (set_protocol s (lit "icmpv4")) a b
  | Icmpv6 a b _ _ => set_icmp (set_protocol s (lit "icmpv6")) a b
  end.
Definition apply_transport_summary (sp : SlicedPacket) (s : PacketSummary) (cursor : Z) : sres (PacketSummary * Z) :=
  match transport sp with
  | Some t => let* c := add_usize cursor (t_header_len t) in
              Ok (set_payload (transport_fields s t) c (zlen (t_payload t)), c)
  | None => Ok (s, cursor)
  end.

Definition apply_fallback_payload_summary (sp : SlicedPacket) (s : PacketSummary) (cursor : Z) : PacketSummary :=
  match ip_payload sp with
  | Some p => set_payload s cursor (zlen p)
  | None => match ether_payload sp with
            | Some p => set_payload s cursor (zlen p)
            | None => match payload_len s with
                      | None => if cursor <=? packet_len s then set_payload s cursor (packet_len s - cursor) else s
                      | Some _ => s
                      end
            end
  end.

Section Summarize.
  (** [SlicedPacket::from_ethernet], [from_ip] and [from_linux_sll]; an error is
      its text. *)
  Variable slice : PacketLinkType -> list Z -> list Z + SlicedPacket.

Definition summarize_packet (t : PacketLinkType) (packet : list Z) : sres PacketSummary :=
  match slice t packet with
  | inl e => Err (Malformed e)
  | inr sp =>
      let '(s0, c0) := apply_link_summary sp (initial t (zlen packet)) in
      let* '(s1, c1) := apply_vlan_summary (link_exts sp) s0 c0 in
      let* '(s2, c2) := apply_net_summary sp s1 c1 in
      let* '(s3, c3) := apply_transport_summary sp s2 c2 in
      Ok (match payload_len s3 with
          | None => apply_fallback_payload_summary sp s3 c3
          | Some _ => s3
          end)
  end.
Definition summarize_pcap_packet (linktype : Z) (packet : list Z) : sres PacketSummary :=
  let* t := ok_or (from_pcap_linktype linktype) (UnsupportedLinkType linktype) in summarize_packet t packet.

(** ** The layout of the slices *)
Definition link_len (l : option LinkSlice) : Z :=
  match l with Some (Ethernet2 _ _ _ n) | Some (LinuxSll _ n) => n | _ => 0 end.
Definition ext_len (e : LinkExtSlice) : Z := match e with Vlan _ _ n | Macsec n => n end.
Definition exts_len (l : list LinkExtSlice) : Z := foldr (fun e n => ext_len e + n) 0 l.

(** The payload a reader of the packet means: the transport's, the network's,
    the frame's, or what the link headers leave. *)
Definition app_payload (sp : SlicedPacket) (rest : list Z) : list Z :=
  match transport sp with
  | Some t => t_payload t
  | None => match ip_payload sp with
            | Some p => p
            | None => default rest (ether_payload sp)
            end
  end.
(** The transport header and payload lie in the network payload. *)
Definition transport_in (t : option TransportSlice) (p : list Z) : Prop :=
  match t with
  | None => True
  | Some t => exists hd tl, p = hd ++ t_payload t ++ tl /\ zlen hd = t_header_len t
  end.
(** The network header — the extension headers that follow it included — and
    its payload lie in [rest], with the lengths the header declares. *)
Definition net_in (sp : SlicedPacket) (rest : list Z) : Prop :=
  match net sp with
  | Some (Ipv4 _ _ _ _ _ total p) =>
      exists hd tl, rest = hd ++ p ++ tl /\ total = zlen hd + zlen p /\ ip_payload sp = Some p /\ transport_in (transport sp) p
  | Some (Ipv6 _ _ _ _ _ plen hl p) =>
      exists hd tl, rest = hd ++ p ++ tl /\ 0 <= hl <= zlen hd /\ plen = zlen hd - hl + zlen p /\ ip_payload sp = Some p /\
        transport_in (transport sp) p
  | _ => transport sp = None /\ ip_payload sp = None /\
         match ether_payload sp with Some p => exists tl, rest = p ++ tl | None => True end
  end.
Definition well_sliced (packet : list Z) (sp : SlicedPacket) (rest : list Z) : Prop :=
  0 <= link_len (link sp) /\ Forall (fun e => 0 <= ext_len e) (link_exts sp) /\
  (exists hd, packet = hd ++ rest /\ zlen hd = link_len (link sp) + exts_len (link_exts sp)) /\ net_in sp rest.
End Summarize.

Lemma apply_link_cursor sp s : snd (apply_link_summary sp s) = link_len (link sp) /\
  payload_len (fst (apply_link_summary sp s)) = payload_len s /\
  packet_len (fst (apply_link_summary sp s)) = packet_len s.
Proof. unfold apply_link_summary. destruct (link sp) as [[| [] | |[]]|]; done. Qed.

Lemma apply_vlan_cursor exts : forall s c, 0 <= c -> Forall (fun e => 0 <= ext_len e) exts ->
  c + exts_len exts <= usize_max ->
  exists s', apply_vlan_summary exts s c = Ok (s', c + exts_len exts) /\ payload_len s' = payload_len s /\
    packet_len s' = packet_len s.
Proof.
  induction exts as [|e exts IH]; intros s c Hc HF Hm; [exists s; by rewrite Z.add_0_r|].
  apply Forall_cons in HF as [He HF]. cbn [exts_len foldr] in Hm. fold (exts_len exts) in Hm.
  assert (0 <= exts_len exts) as H0.
  { clear -HF. induction HF as [|x l Hx _ IH]; cbn; [done|]. fold (exts_len l). lia. }
  cbn [exts_len foldr]. fold (exts_len exts).
  replace (c + (ext_len e + exts_len exts)) with (c + ext_len e + exts_len exts) by lia.
  destruct e as [v t n|n]; cbn [apply_vlan_summary ext_len] in *; unfold add_usize; rewrite checked_ok by lia;
    cbn [mbind res_bind].
  - apply (IH (set_ethertype (push_vlan s v) t)); [lia|done|lia].
  - apply IH; [lia|done|lia].
Qed.

(** [apply_net_summary] moves the cursor to the network payload. *)
Definition net_payload (sp : SlicedPacket) (rest : list Z) : list Z := default rest (ip_payload sp).
Lemma apply_net_cursor sp s c rest : net_in sp rest -> 0 <= c -> c + zlen rest <= usize_max ->
  exists s' hd tl, apply_net_summary sp s c = Ok (s', c + zlen hd) /\ rest = hd ++ net_payload sp rest ++ tl /\
    payload_len s' = payload_len s /\ packet_len s' = packet_len s /\ transport_in (transport sp) (net_payload sp rest).
Proof.
  unfold net_in, apply_net_summary, net_payload. intros H Hc Hm.
  destruct (net sp) as [[a b n ttl f total p|a b n hop f plen hl p|]|].
  - destruct H as (hd & tl & -> & -> & -> & Ht). rewrite !zlen_app in Hm. pose proof (zlen_nonneg hd).
    pose proof (zlen_nonneg p). pose proof (zlen_nonneg tl).
    unfold sat_sub, add_usize. rewrite (clampz_id 0 usize_max (zlen hd + zlen p - zlen p)) by lia.
    replace (zlen hd + zlen p - zlen p) with (zlen hd) by lia. rewrite checked_ok by lia.
    eexists _, hd, tl. split; [reflexivity|done].
  - destruct H as (hd & tl & -> & Hl & -> & -> & Ht). rewrite !zlen_app in Hm. pose proof (zlen_nonneg hd).
    pose proof (zlen_nonneg p). pose proof (zlen_nonneg tl).
    unfold sat_sub, add_usize. rewrite (clampz_id 0 usize_max (zlen hd - hl + zlen p - zlen p)) by lia.
    replace (zlen hd - hl + zlen p - zlen p + hl) with (zlen hd) by lia. rewrite checked_ok by lia.
    cbn [mbind res_bind]. rewrite checked_ok by lia. eexists _, hd, tl. split; [reflexivity|done].
  - destruct H as (Ht & -> & He). rewrite Ht. exists (set_protocol s (lit "arp")), [], []. cbn.
    rewrite zlen_nil, Z.add_0_r, app_nil_r. done.
  - destruct H as (Ht & -> & He). rewrite Ht. eexists _, [], []. cbn [app default from_option].
    rewrite zlen_nil, Z.add_0_r, app_nil_r. split; [reflexivity|]. by destruct (ethertype s).
Qed.

Lemma slice_at {A} (a p b : list A) : take (Z.to_nat (zlen p)) (drop (Z.to_nat (zlen a)) (a ++ p ++ b)) = p.
Proof. unfold zlen. rewrite !Nat2Z.id, drop_app_length. by rewrite take_app_length. Qed.

(** What a summary says of the payload of a packet. *)
Definition locates (s : PacketSummary) (packet p : list Z) : Prop :=
  exists off n, payload_offset s = Some off /\ payload_len s = Some n /\ 0 <= off /\ 0 <= n /\
    off + n <= zlen packet /\ take (Z.to_nat n) (drop (Z.to_nat off) packet) = p.
Lemma locates_at s a p b off : payload_offset s = Some off -> payload_len s = Some (zlen p) -> off = zlen a ->
  locates s (a ++ p ++ b) p.
Proof.
  intros Ho Hn ->. exists (zlen a), (zlen p). rewrite !zlen_app, slice_at. pose proof (zlen_nonneg a).
  pose proof (zlen_nonneg p). pose proof (zlen_nonneg b). repeat split; try done; lia.
Qed.

(** C21: A summary finds the payload: for a packet whose slices lie in it as the
    headers declare, a summary is always made, nothing overflows, and the offset
    and length it gives are within the packet and cut out exactly the payload of
    the innermost layer that was recognised — over any link type, any number of
    VLAN tags and any extension headers. *)
Theorem summary_locates_payload slice t packet sp rest :
  slice t packet = inr sp -> well_sliced packet sp rest -> zlen packet <= usize_max ->
  exists s, summarize_packet slice t packet = Ok s /\ packet_len s = zlen packet /\
    locates s packet (app_payload sp rest).
Proof.
  intros Hs (Hl & HF & (hd & -> & Hhd) & Hn) Hm. unfold summarize_packet. rewrite Hs.
  pose proof (apply_link_cursor sp (initial t (zlen (hd ++ rest)))) as (Hc & Hp & Hk).
  destruct (apply_link_summary _ _) as [s0 c0]. cbn [fst snd] in *. subst c0.
  rewrite zlen_app in Hm. pose proof (zlen_nonneg hd). pose proof (zlen_nonneg rest).
  destruct (apply_vlan_cursor (link_exts sp) s0 (link_len (link sp))) as (s1 & -> & Hp1 & Hk1); [done|done|lia|].
  cbn [mbind res_bind]. rewrite <- Hhd.
  destruct (apply_net_cursor sp s1 (zlen hd) rest Hn) as (s2 & nh & tl & -> & Hr & Hp2 & Hk2 & Ht); [lia|lia|].
  cbn [mbind res_bind]. assert (zlen (hd ++ rest) = zlen hd + zlen rest) as Hlen by apply zlen_app.
  assert (Hz : zlen rest = zlen nh + zlen (net_payload sp rest) + zlen tl) by (rewrite Hr at 1; rewrite !zlen_app; lia).
  pose proof (zlen_nonneg nh). pose proof (zlen_nonneg tl). pose proof (zlen_nonneg (net_payload sp rest)).
  assert (payload_len s2 = None) as Hnone by (rewrite Hp2, Hp1, Hp; done).
  assert (packet_len s2 = zlen (hd ++ rest)) as Hpk by (rewrite Hk2, Hk1, Hk; done).
  unfold apply_transport_summary, app_payload. destruct (transport sp) as [tr|].
  - destruct Ht as (th & tt' & Hnp & Hth). pose proof (zlen_nonneg th). pose proof (zlen_nonneg (t_payload tr)).
    rewrite Hnp, !zlen_app in Hz. pose proof (zlen_nonneg tt'). unfold add_usize.
    rewrite checked_ok by lia. cbn [mbind res_bind payload_len set_payload]. eexists. split; [reflexivity|].
    split; [by destruct tr|].
    replace (hd ++ rest) with ((hd ++ nh ++ th) ++ t_payload tr ++ tt' ++ tl)
      by (rewrite Hr at 1; rewrite Hnp, <- !(assoc_L (++)); done).
    eapply locates_at; [done|done|]. rewrite !zlen_app. lia.
  - cbn [mbind res_bind]. rewrite Hnone. eexists. split; [reflexivity|].
    unfold apply_fallback_payload_summary, net_payload, net_in in *. destruct (ip_payload sp) as [p|]; cbn in Hr, Hz.
    { split; [done|]. replace (hd ++ rest) with ((hd ++ nh) ++ p ++ tl) by (rewrite Hr at 1; by rewrite <- !(assoc_L (++))).
      eapply locates_at; [done|done|]. by rewrite zlen_app. }
    assert (zlen nh = 0) as E0 by lia.
    destruct (ether_payload sp) as [p|]; cbn [default from_option].
    + split; [done|]. assert (exists tl', rest = p ++ tl') as [tl' Htl].
      { destruct (net sp) as [[]|]; [naive_solver..| |]; by destruct Hn as (_ & _ & Hn). }
      rewrite Htl. eapply locates_at; [done|done|lia].
    + rewrite Hnone. rewrite (proj2 (Z.leb_le _ _)) by lia. split; [done|].
      rewrite <- (app_nil_r rest) at 1. replace (hd ++ rest) with (hd ++ rest ++ []) by (by rewrite app_nil_r).
      eapply locates_at; [done| |lia]. cbn. f_equal. rewrite Hpk. lia.
Qed.

(** A tagged UDP datagram with two bytes of padding behind it. *)
Module Tagged.
Definition mac_a : list Z := [0; 17; 34; 51; 68; 85].
Definition mac_b : list Z := [170; 187; 204; 221; 238; 255].
Definition eth : list Z := mac_b ++ mac_a ++ [129; 0].
Definition tag : list Z := [0; 123; 8; 0].
Definition ip_header : list Z := [69; 0; 0; 31; 0; 0; 0; 0; 32; 17; 0; 0; 10; 0; 0; 1; 10; 0; 0; 2].
Definition udp_header : list Z := [20; 233; 0; 53; 0; 11; 0; 0].
Definition body : list Z := [9; 8; 7].
Definition packet : list Z := eth ++ tag ++ ip_header ++ udp_header ++ body ++ [0; 0].
Definition sliced : SlicedPacket :=
  mkSliced (Some (Ethernet2 mac_a mac_b 33024 14)) [Vlan 123 2048 4]
    (Some (Ipv4 [10; 0; 0; 1] [10; 0; 0; 2] 17 32 false 31 (udp_header ++ body)))
    (Some (Udp 5353 53 8 body)) (Some (udp_header ++ body)) None.
Definition slice (_ : PacketLinkType) (_ : list Z) : list Z + SlicedPacket := inr sliced.
End Tagged.

Lemma summary_locates_payload_witness : exists s,
  summarize_packet Tagged.slice Ethernet Tagged.packet = Ok s /\ protocol s = lit "udp" /\ vlan_ids s = [123] /\
  src_mac s = Some (lit "00:11:22:33:44:55") /\ payload_offset s = Some 46 /\ payload_len s = Some 3 /\
  locates s Tagged.packet [9; 8; 7].
Proof.
  destruct (summary_locates_payload Tagged.slice Ethernet Tagged.packet Tagged.sliced
    (Tagged.ip_header ++ Tagged.udp_header ++ Tagged.body ++ [0; 0])) as (s & Hs & _ & Hl).
  - reflexivity.
  - split; [vm_compute; discriminate|]. split; [repeat constructor; vm_compute; discriminate|].
    split; [exists (Tagged.eth ++ Tagged.tag); split; reflexivity|].
    exists Tagged.ip_header, [0; 0]. split; [reflexivity|]. split; [reflexivity|]. split; [reflexivity|].
    exists Tagged.udp_header, []. split; reflexivity.
  - vm_compute. discriminate.
  - exists s. split; [exact Hs|]. vm_compute in Hs. injection Hs as <-. repeat (split; [reflexivity|]). exact Hl.
Defined.

(** ** The JSON object of a summary *)
Definition opt_str (v : option (list Z)) : Value := match v with Some s => VString s | None => VNull end.
Definition opt_num (v : option Z) : Value := match v with Some n => num n | None => VNull end.
Definition summary_fields (s : PacketSummary) : list (list Z * Value) :=
  [(lit "link_type", VString (link_type_fmt (s_link s))); (lit "packet_len", num (packet_len s));
   (lit "protocol", VString (protocol s)); (lit "src_mac", opt_str (src_mac s)); (lit "dst_mac", opt_str (dst_mac s))]
  ++ match vlan_ids s with [] => [] | v => [(lit "vlan_ids", VArray (map num v))] end ++
  [(lit "ethertype", opt_num (ethertype s)); (lit "ip_version", opt_num (ip_version s));
   (lit "src_ip", opt_str (src_ip s)); (lit "dst_ip", opt_str (dst_ip s)); (lit "ip_protocol", opt_num (ip_protocol s));
   (lit "hop_limit", opt_num (hop_limit s)); (lit "fragmented", VBool (fragmented s));
   (lit "src_port", opt_num (src_port s)); (lit "dst_port", opt_num (dst_port s)); (lit "icmp_type", opt_num (icmp_type s));
   (lit "icmp_code", opt_num (icmp_code s)); (lit "payload_offset", opt_num (payload_offset s));
   (lit "payload_len", opt_num (payload_len s))].

(** The summary as the capture runner merges it; [Panic] is excluded by
    [summary_locates_payload]. *)
Definition json_summary (slice : PacketLinkType -> list Z -> list Z + SlicedPacket) (linktype : Z) (data : list Z)
  : list (list Z * Value) + list Z :=
  match summarize_pcap_packet slice linktype data with
  | Ok s => inl (summary_fields s)
  | Err e => inr (error_text e)
  | Panic => inr []
  end.

(** What the capture runner relies on: no field of a summary hides one of the
    fields a packet's record is read back by. *)
Theorem json_summary_ok slice : summary_ok (json_summary slice).
Proof.
  intros l d kvs. unfold json_summary. destruct (summarize_pcap_packet slice l d) as [s|e|]; intros [= <-].
  unfold summary_fields. destruct (vlan_ids s) as [|v vs]; cbn [app];
    repeat (apply Forall_cons; split; [cbn [fst]; apply (bool_decide_unpack _); reflexivity|]); constructor.
Qed.
