(* ===== verification/Commands.v ===== *)
(** * Commands that need no server: extcap capture, profiles, recording

    crates/cli/src/cmd/extcap.rs (a channel as a libpcap stream for Wireshark),
    crates/cli/src/cmd/profile.rs (saved channel specifications) and
    crates/cli/src/cmd/log.rs (recording a channel into a session directory).
    Sources are instances of [Runner.Source]; clocks, TOML and regular
    expressions are arguments. *)
From stdpp Require Import base numbers strings gmap sorting list.
From S2P Require Import Prelude Text Spec Naming Decoder Clock SessionDir Detect Runner Startup Interchange.

Local Open Scope Z_scope.
Local Open Scope tm_scope.

(** ** A source that ends *)
Section Ends.
  Context {S : Type} `{!Source S}.
(** The frames a source gives until it reports its end. *)
Inductive gives : S -> list Frame -> S -> Prop :=
| gives_end s s' : src_recv s = (s', Ok None) -> gives s [] s'
| gives_frame s f s1 fs s2 : src_recv s = (s1, Ok (Some f)) -> gives s1 fs s2 -> gives s (f :: fs) s2.
End Ends.

(** ** extcap *)
Module Extcap.
Definition DLT_USER0 : Z := 147.
Definition SNAPLEN : Z := 65535.
Definition u32_le (z : Z) : list Z := le_bytes 4 z.
Definition u16_le (z : Z) : list Z := le_bytes 2 z.

Definition pcap_global_header (linktype snaplen : Z) : list Z :=
  u32_le 0xa1b2c3d4 ++ u16_le 2 ++ u16_le 4 ++ u32_le 0 ++ u32_le 0 ++ u32_le snaplen ++ u32_le linktype.
Definition pcap_record (ts_sec ts_usec : Z) (data : list Z) (snaplen : Z) : list Z :=
  let orig_len := default u32_max (try_from 0 u32_max (zlen data)) in
  let incl_len := Z.min orig_len snaplen in
  u32_le ts_sec ++ u32_le ts_usec ++ u32_le incl_len ++ u32_le orig_len ++ take (Z.to_nat incl_len) data.

Definition frame_payload (f : Frame) : list Z :=
  match f with FBytes d | FDatagram _ d | FOther _ d | FSsh _ d | FVisa _ d => d end.

(** The reading side of the FIFO accepts the [n]-th record or is gone; the
    clock is read once per record. *)
Section Capture.
  Context {S : Type} `{!Source S}.
  Context (clock : nat -> Z * Z) (accepts : nat -> bool).

Definition record_at (n : nat) (d : list Z) : list Z :=
  let '(secs, micros) := clock n in pcap_record (default u32_max (try_from 0 u32_max secs)) micros d SNAPLEN.

(** The loop of [run_capture]; [out] is what reached the FIFO. *)
Fixpoint capture_loop (fuel n : nat) (s : S) (out : list Z) : option (S * list Z * result unit) :=
  match fuel with
  | O => None
  | Datatypes.S fuel' =>
      match src_recv s with
      | (s1, Err e) => Some (s1, out, Err e)
      | (s1, Panic) => Some (s1, out, Panic)
      | (s1, Ok None) => Some (fst (src_close s1), out, Ok tt)
      | (s1, Ok (Some f)) =>
          match frame_payload f with
          | [] => capture_loop fuel' n s1 out
          | d => if accepts n then capture_loop fuel' (Datatypes.S n) s1 (out ++ record_at n d)
                 else Some (fst (src_close s1), out, Ok tt)
          end
      end
  end.
(** [run_capture] from the opening of the source; [fifo] says whether the FIFO
    opens and takes the header. *)
Definition run_capture (fuel : nat) (s : S) (fifo : bool) : option (S * list Z * result unit) :=
  match src_open s with
  | (s1, Ok _) => if fifo then capture_loop fuel 0 s1 (pcap_global_header DLT_USER0 SNAPLEN)
                  else Some (s1, [], Err E1001PipelineGeneric)
  | (s1, Err e) => Some (s1, [], Err e)
  | (s1, Panic) => Some (s1, [], Panic)
  end.
End Capture.

(** ** A reader of the libpcap format *)
Record Captured := mkCaptured { c_sec : Z; c_usec : Z; c_orig : Z; c_data : list Z }.
Definition u32_at (b : list Z) (i : nat) : Z := le_val (take 4 (drop i b)).
Fixpoint read_records (fuel : nat) (b : list Z) : option (list Captured) :=
  match fuel with
  | O => None
  | S fuel' =>
      match b with
      | [] => Some []
      | _ =>
          if zlen b <? 16 then None
          else
            let n := u32_at b 8 in
            if zlen b - 16 <? n then None
            else (cons (mkCaptured (u32_at b 0) (u32_at b 4) (u32_at b 12) (take (Z.to_nat n) (drop 16 b))))
                   <$> read_records fuel' (drop (16 + Z.to_nat n) b)
      end
  end.
(** Link type, snapshot length and records; each record is at least 16 bytes. *)
Definition read_pcap (b : list Z) : option (Z * Z * list Captured) :=
  if (zlen b <? 24) || negb (u32_at b 0 =? 0xa1b2c3d4) || negb (le_val (take 4 (drop 4 b)) =? 2 + 65536 * 4) then None
  else rs ← read_records (Datatypes.S (length b)) (drop 24 b); Some (u32_at b 20, u32_at b 16, rs).

(** What is meant to be read. *)
Fixpoint captured (clock : nat -> Z * Z) (n : nat) (ds : list (list Z)) : list Captured :=
  match ds with
  | [] => []
  | d :: ds' =>
      mkCaptured (Z.min u32_max (fst (clock n))) (snd (clock n)) (Z.min u32_max (zlen d)) (take (Z.to_nat SNAPLEN) d)
      :: captured clock (S n) ds'
  end.

Definition clock_ok (clock : nat -> Z * Z) : Prop := forall n, 0 <= fst (clock n) /\ 0 <= snd (clock n) < 1000000.
Lemma u32_of z : 0 <= z -> default u32_max (try_from 0 u32_max z) = Z.min u32_max z.
Proof. intros H. unfold try_from, in_range. destruct (0 <=? z) eqn:E1, (z <=? u32_max) eqn:E2; bprop; cbn; lia. Qed.

Lemma u32_at_le pre z rest i : i = length pre -> 0 <= z <= u32_max -> u32_at (pre ++ u32_le z ++ rest) i = z.
Proof.
  intros -> H. unfold u32_at, u32_le. rewrite drop_app_length, take_app_length'; [|by rewrite length_le_bytes].
  apply le_val_le_bytes. unfold u32_max in H. cbn. lia.
Qed.

(** One record is read back whole. *)
Lemma read_record fuel sec usec d rest :
  0 <= sec <= u32_max -> 0 <= usec <= u32_max ->
  read_records (S fuel) (pcap_record sec usec d SNAPLEN ++ rest) =
  cons (mkCaptured sec usec (Z.min u32_max (zlen d)) (take (Z.to_nat SNAPLEN) d)) <$> read_records fuel rest.
Proof.
  intros Hs Hu. unfold pcap_record. pose proof (zlen_nonneg d). rewrite (u32_of (zlen d)) by done.
  set (orig := Z.min u32_max (zlen d)). set (n := Z.min orig SNAPLEN).
  assert (Ho : 0 <= orig <= u32_max) by (unfold orig, u32_max; lia).
  assert (Hn : 0 <= n <= SNAPLEN) by (unfold n, SNAPLEN in *; lia). unfold SNAPLEN in Hn.
  assert (Ht : take (Z.to_nat n) d = take (Z.to_nat SNAPLEN) d).
  { unfold n, orig, u32_max, SNAPLEN. destruct (decide (zlen d <= 65535)) as [L|L].
    - rewrite !take_ge; [done|unfold zlen in L; lia|unfold zlen in *; lia].
    - by replace (Z.min (Z.min 4294967295 (zlen d)) 65535) with 65535 by lia. }
  assert (Hl : length (take (Z.to_nat n) d) = Z.to_nat n).
  { rewrite length_take. unfold n, orig, zlen in *. lia. }
  set (body := take (Z.to_nat n) d) in *. rewrite <- !(assoc_L (++)).
  set (b := u32_le sec ++ u32_le usec ++ u32_le n ++ u32_le orig ++ body ++ rest).
  assert (Hb : zlen b = 16 + n + zlen rest).
  { unfold b, zlen, u32_le. rewrite !length_app, !length_le_bytes, Hl. lia. }
  assert (E0 : u32_at b 0 = sec) by (unfold b; by apply (u32_at_le [])).
  assert (E4 : u32_at b 4 = usec) by (unfold b; apply u32_at_le; [by unfold u32_le; rewrite length_le_bytes|done]).
  assert (E8 : u32_at b 8 = n).
  { unfold b. rewrite (assoc_L (++)). apply u32_at_le; [by unfold u32_le; rewrite length_app, !length_le_bytes|].
    unfold u32_max. lia. }
  assert (E12 : u32_at b 12 = orig).
  { unfold b. rewrite (assoc_L (++)), (assoc_L (++)). apply u32_at_le; [by unfold u32_le; rewrite !length_app, !length_le_bytes|done]. }
  assert (D16 : drop 16 b = body ++ rest).
  { unfold b. rewrite !(assoc_L (++)). rewrite <- (assoc_L (++) _ body). apply drop_app_length'.
    by unfold u32_le; rewrite !length_app, !length_le_bytes. }
  pose proof (zlen_nonneg rest). cbn [read_records]. destruct b as [|x b'] eqn:Eb; [rewrite zlen_nil in Hb; lia|].
  rewrite <- Eb in *. clear Eb. rewrite (proj2 (Z.ltb_ge _ _)) by lia. rewrite E8, E0, E4, E12.
  rewrite (proj2 (Z.ltb_ge _ _)) by lia. rewrite <- drop_drop, D16, <- Hl.
  rewrite take_app_length, drop_app_length. by rewrite Ht.
Qed.

Fixpoint records (clock : nat -> Z * Z) (n : nat) (ds : list (list Z)) : list Z :=
  match ds with [] => [] | d :: ds' => record_at clock n d ++ records clock (S n) ds' end.

Lemma read_records_all clock : clock_ok clock -> forall ds n fuel, (length ds < fuel)%nat ->
  read_records fuel (records clock n ds) = Some (captured clock n ds).
Proof.
  intros Hc ds. induction ds as [|d ds IH]; intros n [|fuel] Hf; cbn in Hf; try lia; [done|].
  cbn [records captured]. unfold record_at. destruct (Hc n) as [Hs Hm]. destruct (clock n) as [secs micros]. cbn in Hs, Hm.
  rewrite (u32_of secs) by done. rewrite read_record by (unfold u32_max; lia).
  rewrite IH by lia. done.
Qed.
Lemma records_length clock n ds : (length ds <= length (records clock n ds))%nat.
Proof.
  revert n. induction ds as [|d ds IH]; intros n; cbn; [done|]. rewrite length_app. specialize (IH (S n)).
  unfold record_at. destruct (clock n). unfold pcap_record, u32_le. rewrite !length_app, !length_le_bytes. lia.
Qed.
Lemma header_read body : read_pcap (pcap_global_header DLT_USER0 SNAPLEN ++ body) =
  rs ← read_records (S (24 + length body)) body; Some (DLT_USER0, SNAPLEN, rs).
Proof.
  unfold read_pcap. set (h := pcap_global_header DLT_USER0 SNAPLEN).
  assert (Hh : length h = 24%nat) by reflexivity.
  assert (forall i n, (i + n <= 24)%nat -> take n (drop i (h ++ body)) = take n (drop i h)) as Hd.
  { intros i n Hi. rewrite drop_app_le by lia. apply take_app_le. rewrite length_drop. lia. }
  unfold u32_at. rewrite !Hd by lia. rewrite zlen_app. replace (zlen h) with 24 by reflexivity.
  pose proof (zlen_nonneg body). rewrite (proj2 (Z.ltb_ge _ _)) by lia.
  rewrite (drop_app_length' h body 24) by done. rewrite length_app, Hh. reflexivity.
Qed.

(** The payloads that are written: the empty ones are skipped. *)
Definition payloads (fs : list Frame) : list (list Z) := filter (fun d => d <> []) (map frame_payload fs).

Section Exact.
  Context {S : Type} `{HS : !Source S}.
  Context (clock : nat -> Z * Z) (accepts : nat -> bool).

Lemma capture_loop_gives s fs s2 : gives s fs s2 -> forall fuel n out j, (length fs < fuel)%nat ->
  (j <= length (payloads fs))%nat -> (forall i, (i < j)%nat -> accepts (n + i) = true) ->
  (j = length (payloads fs) \/ accepts (n + j) = false) ->
  exists s', capture_loop clock accepts fuel n s out = Some (s', out ++ records clock n (take j (payloads fs)), Ok tt).
Proof.
  induction 1 as [s s' E|s f s1 fs s2 E _ IH]; intros [|fuel] n out j Hf Hj Ha He; cbn in Hf; try lia.
  - cbn [capture_loop]. rewrite E. cbn in Hj. assert (j = O) as -> by lia. eexists. cbn. by rewrite app_nil_r.
  - cbn [capture_loop]. rewrite E. unfold payloads in *. cbn [map] in *. destruct (frame_payload f) as [|x d] eqn:Ed.
    + rewrite filter_cons_False in * by (intros H; by apply H). apply IH; [lia|done..].
    + rewrite filter_cons_True in * by done. cbn [length] in *. destruct j as [|j].
      * destruct He as [He|He]; [done|]. rewrite Nat.add_0_r in He. rewrite He. eexists. cbn. by rewrite app_nil_r.
      * pose proof (Ha O ltac:(lia)) as Ha0. rewrite Nat.add_0_r in Ha0. rewrite Ha0.
        destruct (IH fuel (Datatypes.S n) (out ++ record_at clock n (x :: d)) j) as [s' Hs']; [lia|lia| | |].
        { intros i Hi. replace (Datatypes.S n + i)%nat with (n + Datatypes.S i)%nat by lia. apply Ha. lia. }
        { replace (Datatypes.S n + j)%nat with (n + Datatypes.S j)%nat by lia. destruct He as [He|He]; [left; lia|by right]. }
        exists s'. rewrite Hs'. cbn [take records]. by rewrite <- (assoc_L (++)).
Qed.

(** What Wireshark reads: a capture of a source that ends, whose FIFO stays
    open for the first [j] records, is a well-formed libpcap stream of link type
    147 with exactly the non-empty payloads among the first [j], in order, each
    with its time, its original length and its first 65535 bytes; with [j] at
    the end of the stream nothing is missing. *)
Theorem extcap_capture_exact fuel s s1 fs s2 j :
  clock_ok clock -> src_open s = (s1, Ok tt) -> gives s1 fs s2 -> (length fs < fuel)%nat ->
  (j <= length (payloads fs))%nat -> (forall i, (i < j)%nat -> accepts i = true) ->
  (j = length (payloads fs) \/ accepts j = false) ->
  exists s' out, run_capture clock accepts fuel s true = Some (s', out, Ok tt) /\
    read_pcap out = Some (DLT_USER0, SNAPLEN, captured clock 0 (take j (payloads fs))).
Proof.
  intros Hc Ho Hg Hf Hj Ha He. unfold run_capture. rewrite Ho.
  destruct (capture_loop_gives s1 fs s2 Hg fuel 0 (pcap_global_header DLT_USER0 SNAPLEN) j Hf Hj Ha He) as [s' ->].
  eexists _, _. split; [reflexivity|]. rewrite header_read.
  pose proof (records_length clock 0 (take j (payloads fs))).
  rewrite read_records_all by (done || lia). done.
Qed.
End Exact.
End Extcap.

Lemma extcap_capture_exact_witness : exists s' out,
  Extcap.run_capture (fun _ => (5, 7)) (fun n => (n <? 2)%nat) 9
    (mkMock [FBytes [1; 2]; FBytes []; FDatagram None [3]; FBytes [4]] (lit "m")) true = Some (s', out, Ok tt) /\
  Extcap.read_pcap out = Some (147, 65535, [Extcap.mkCaptured 5 7 2 [1; 2]; Extcap.mkCaptured 5 7 1 [3]]).
Proof.
  apply (Extcap.extcap_capture_exact (fun _ => (5, 7)) (fun n => (n <? 2)%nat) 9
    _ (mkMock [FBytes [1; 2]; FBytes []; FDatagram None [3]; FBytes [4]] (lit "m"))
    [FBytes [1; 2]; FBytes []; FDatagram None [3]; FBytes [4]] (mkMock [] (lit "m")) 2).
  - intros n. cbn. lia.
  - reflexivity.
  - repeat (eapply gives_frame; [reflexivity|]). apply gives_end. reflexivity.
  - cbn. lia.
  - vm_compute. lia.
  - intros i Hi. apply Nat.ltb_lt. exact Hi.
  - right. reflexivity.
Defined.

(** ** profile *)
Module Profile.
Inductive Action := AList | AShow (name : list Z) | ASet (name spec : list Z) | ADel (name : list Z).
Inductive ProfileError := InvalidName | BadSpec | ReadError | BadToml | SerialError | WriteError | NotFound.
(** What a command prints. *)
Inductive Shown := Names (ns : list (list Z)) | Text (t : list Z) | Quiet.

Definition name_char (c : Z) : bool := is_ascii_alphanumeric c || (c =? 45) || (c =? 95) || (c =? 46).
Definition name_ok (name : list Z) : bool := negb (bool_decide (name = [])) && forallb name_char name.
Definition file_for (name : list Z) : res ProfileError (list Z) :=
  if name_ok name then Ok (name ++ lit ".toml") else Err InvalidName.

(** [extension() == "toml"] and [file_stem()]: a name that is only the
    extension has none. *)
Definition toml_stem (file : list Z) : option (list Z) :=
  match strip_suffix (lit ".toml") file with
  | Some [] => None
  | s => s
  end.

Section Profile.
  (** [spec::parse], and the TOML text of a profile. *)
  Context (parse : list Z -> option ChannelSpec) (to_toml : ChannelSpec -> option (list Z))
    (from_toml : list Z -> option ChannelSpec).

(** The directory: the text of each file.  [fs::write] truncates first, so a
    failure leaves the start of the text. *)
Abbreviation Files := (gmap (list Z) (list Z)).
Inductive write_fault := WriteOk | OpenFails | Torn (k : nat).

Definition sort_names (ns : list (list Z)) : list (list Z) := merge_sort SerialDetect.str_le ns.
Definition list_ (d : Files) : list (list Z) := sort_names (omap (fun f => toml_stem (fst f)) (map_to_list d)).
Definition read (d : Files) (name : list Z) : res ProfileError ChannelSpec :=
  let* path := file_for name in
  let* body := ok_or (d !! path) ReadError in
  ok_or (from_toml body) BadToml.
Definition write (w : write_fault) (d : Files) (name : list Z) (p : ChannelSpec) : Files * res ProfileError unit :=
  match file_for name with
  | Ok path =>
      match to_toml p with
      | Some body =>
          match w with
          | WriteOk => (<[path := body]> d, Ok tt)
          | OpenFails => (d, Err WriteError)
          | Torn k => (<[path := take k body]> d, Err WriteError)
          end
      | None => (d, Err SerialError)
      end
  | Err e => (d, Err e)
  | Panic => (d, Panic)
  end.
Definition del (d : Files) (name : list Z) : Files * res ProfileError unit :=
  match file_for name with
  | Ok path => match d !! path with Some _ => (delete path d, Ok tt) | None => (d, Err NotFound) end
  | Err e => (d, Err e)
  | Panic => (d, Panic)
  end.

(** [run], the directory existing. *)
Definition run (w : write_fault) (d : Files) (a : Action) : Files * res ProfileError Shown :=
  match a with
  | AList => (d, Ok (Names (list_ d)))
  | AShow name => (d, let* p := read d name in let* t := ok_or (to_toml p) SerialError in Ok (Text t))
  | ASet name spec =>
      match parse spec with
      | Some p => let '(d', r) := write w d name p in (d', (fun _ => Quiet) <$> r)
      | None => (d, Err BadSpec)
      end
  | ADel name => let '(d', r) := del d name in (d', (fun _ => Quiet) <$> r)
  end.

(** ** What is promised: a map from names to specifications *)
Definition spec_run (m : gmap (list Z) ChannelSpec) (a : Action) : gmap (list Z) ChannelSpec * res ProfileError Shown :=
  match a with
  | AList => (m, Ok (Names (sort_names (map fst (map_to_list m)))))
  | AShow name =>
      (m, if name_ok name then
            match m !! name ≫= to_toml with Some t => Ok (Text t) | None => Err ReadError end
          else Err InvalidName)
  | ASet name spec =>
      match parse spec with
      | Some p => if name_ok name
                  then match to_toml p with Some _ => (<[name := p]> m, Ok Quiet) | None => (m, Err SerialError) end
                  else (m, Err InvalidName)
      | None => (m, Err BadSpec)
      end
  | ADel name =>
      if name_ok name
      then match m !! name with Some _ => (delete name m, Ok Quiet) | None => (m, Err NotFound) end
      else (m, Err InvalidName)
  end.
Fixpoint run_all (d : Files) (acts : list Action) : Files * list (res ProfileError Shown) :=
  match acts with
  | [] => (d, [])
  | a :: acts' => let '(d1, r) := run WriteOk d a in let '(d2, rs) := run_all d1 acts' in (d2, r :: rs)
  end.
Fixpoint spec_run_all (m : gmap (list Z) ChannelSpec) (acts : list Action)
  : gmap (list Z) ChannelSpec * list (res ProfileError Shown) :=
  match acts with
  | [] => (m, [])
  | a :: acts' => let '(m1, r) := spec_run m a in let '(m2, rs) := spec_run_all m1 acts' in (m2, r :: rs)
  end.

(** TOML text reads back as what was written. *)
Hypothesis toml_round_trip : forall p t, to_toml p = Some t -> from_toml t = Some p.

Definition file_of (name : list Z) : list Z := name ++ lit ".toml".
#[local] Instance file_of_inj : Inj (=) (=) file_of.
Proof using Type. intros a b H. by apply app_inj_2 in H as [H _]. Qed.
Lemma toml_stem_of name : name <> [] -> toml_stem (file_of name) = Some name.
Proof using Type.
  intros Hn. unfold toml_stem, file_of. rewrite strip_suffix_app. by destruct name.
Qed.

(** The files are the texts of the profiles. *)
Definition stores (d : Files) (m : gmap (list Z) ChannelSpec) : Prop :=
  (forall name p, m !! name = Some p -> name_ok name = true /\ exists t, to_toml p = Some t /\ d !! file_of name = Some t) /\
  (forall f t, d !! f = Some t -> exists name p, f = file_of name /\ m !! name = Some p).

Lemma name_ok_nonempty name : name_ok name = true -> name <> [].
Proof using Type. unfold name_ok. intros H ->. by cbn in H. Qed.
Lemma stores_lookup d m name : stores d m -> name_ok name = true ->
  d !! file_of name = m !! name ≫= to_toml.
Proof using Type.
  intros [H1 H2] Hn. destruct (m !! name) as [p|] eqn:E; cbn.
  - destruct (H1 _ _ E) as (_ & t & Ht & Hd). by rewrite Hd, Ht.
  - destruct (d !! file_of name) as [t|] eqn:Ed; [|done]. destruct (H2 _ _ Ed) as (name' & p & Hf & Hm).
    apply (inj file_of) in Hf as ->. congruence.
Qed.

Lemma toml_stem_Some f n : toml_stem f = Some n -> f = file_of n.
Proof using Type.
  unfold toml_stem. destruct (strip_suffix (lit ".toml") f) as [r|] eqn:E; [|done].
  apply strip_suffix_Some in E as ->. by destruct r; intros [= <-].
Qed.
Lemma stems_nodup (l : list (list Z * list Z)) : NoDup (l.*1) -> NoDup (omap (fun f => toml_stem (fst f)) l).
Proof using Type.
  induction l as [|[f t] l IH]; intros H; cbn; [constructor|]. apply NoDup_cons in H as [Hn H].
  destruct (toml_stem f) as [n|] eqn:E; [|by apply IH]. apply NoDup_cons. split; [|by apply IH].
  intros ([f' t'] & Hin & Hf)%list_elem_of_omap. cbn in Hf. apply Hn.
  apply toml_stem_Some in E as ->, Hf as ->. apply list_elem_of_fmap. by exists (file_of n, t').
Qed.
Lemma list_names d m : stores d m -> list_ d = sort_names (map fst (map_to_list m)).
Proof using Type.
  intros Hs. pose proof Hs as [H1 H2]. unfold list_, sort_names.
  apply (StronglySorted_unique SerialDetect.str_le); [apply StronglySorted_merge_sort; apply _..|].
  rewrite !merge_sort_Permutation. apply NoDup_Permutation.
  - apply stems_nodup. apply NoDup_fst_map_to_list.
  - apply NoDup_fst_map_to_list.
  - intros n. rewrite list_elem_of_omap, list_elem_of_fmap. split.
    + intros ([f t] & Hin & Hf). cbn in Hf. apply elem_of_map_to_list in Hin. destruct (H2 _ _ Hin) as (name & p & -> & Hm).
      apply toml_stem_Some in Hf. apply (inj file_of) in Hf as ->. exists (n, p). split; [done|]. by apply elem_of_map_to_list.
    + intros ([n' p] & -> & Hin). apply elem_of_map_to_list in Hin. destruct (H1 _ _ Hin) as (Hok & t & Ht & Hd).
      exists (file_of n', t). split; [by apply elem_of_map_to_list|]. cbn.
      by apply toml_stem_of, name_ok_nonempty.
Qed.

Lemma stores_insert d m name p t : stores d m -> name_ok name = true -> to_toml p = Some t ->
  stores (<[file_of name := t]> d) (<[name := p]> m).
Proof using Type.
  intros [H1 H2] Hn Ht. split.
  - intros n q [[<- <-]|[Hne H]]%lookup_insert_Some; [split; [done|]; exists t; by rewrite lookup_insert_eq|].
    destruct (H1 _ _ H) as (Hok & t' & Ht' & Hd). split; [done|]. exists t'. split; [done|].
    rewrite lookup_insert_ne; [done|]. by intros E%(inj file_of).
  - intros f u [[<- <-]|[Hne H]]%lookup_insert_Some; [exists name, p; by rewrite lookup_insert_eq|].
    destruct (H2 _ _ H) as (n & q & -> & Hm). exists n, q. split; [done|]. rewrite lookup_insert_ne; [done|]. by intros ->.
Qed.
Lemma stores_delete d m name : stores d m -> stores (delete (file_of name) d) (delete name m).
Proof using Type.
  intros [H1 H2]. split.
  - intros n q [Hne H]%lookup_delete_Some. destruct (H1 _ _ H) as (Hok & t' & Ht' & Hd). split; [done|].
    exists t'. split; [done|]. rewrite lookup_delete_ne; [done|]. by intros E%(inj file_of).
  - intros f u [Hne H]%lookup_delete_Some. destruct (H2 _ _ H) as (n & q & -> & Hm). exists n, q. split; [done|].
    rewrite lookup_delete_ne; [done|]. by intros ->.
Qed.

Lemma run_refines d m a : stores d m ->
  let '(d', r) := run WriteOk d a in let '(m', q) := spec_run m a in stores d' m' /\ r = q.
Proof using toml_round_trip.
  intros Hs. destruct a as [|name|name spec|name]; cbn [run spec_run].
  - by rewrite (list_names d m Hs).
  - split; [done|]. unfold read, file_for. destruct (name_ok name) eqn:Hn; [|done]. cbn [mbind res_bind].
    fold (file_of name). rewrite (stores_lookup d m name Hs Hn). destruct (m !! name) as [p|]; [|done]. cbn.
    destruct (to_toml p) as [t|] eqn:Ht; [|done]. cbn. rewrite (toml_round_trip p t Ht). cbn. by rewrite Ht.
  - destruct (parse spec) as [p|]; [|done]. unfold write, file_for. destruct (name_ok name) eqn:Hn; [|done].
    destruct (to_toml p) as [t|] eqn:Ht; [|done]. split; [|done]. by apply stores_insert.
  - unfold del, file_for. destruct (name_ok name) eqn:Hn; [|done]. fold (file_of name).
    rewrite (stores_lookup d m name Hs Hn). destruct (m !! name) as [p|] eqn:E; [|done]. cbn.
    destruct (proj1 Hs _ _ E) as (_ & t & -> & _). split; [by apply stores_delete|done].
Qed.

(** The profile directory is a map: starting from an empty directory, any
    sequence of list, show, set and delete commands whose writes succeed answers
    exactly as a map from names to specifications does — names sorted, the last
    specification set, unknown and unsafe names refused — and its files are the
    profiles of that map. *)
Theorem profiles_refine acts :
  let '(d, rs) := run_all ∅ acts in
  let '(m, qs) := spec_run_all ∅ acts in
  rs = qs /\ stores d m /\ list_ d = sort_names (map fst (map_to_list m)).
Proof using toml_round_trip.
  assert (G : forall acts d m, stores d m ->
    let '(d', rs) := run_all d acts in let '(m', qs) := spec_run_all m acts in rs = qs /\ stores d' m').
  { clear acts. induction acts as [|a acts IH]; intros d m Hs; cbn [run_all spec_run_all]; [done|].
    pose proof (run_refines d m a Hs) as H. destruct (run WriteOk d a) as [d1 r], (spec_run m a) as [m1 q].
    destruct H as [H1 ->]. specialize (IH d1 m1 H1). destruct (run_all d1 acts), (spec_run_all m1 acts).
    destruct IH as [-> H2]. done. }
  specialize (G acts ∅ ∅). destruct (run_all ∅ acts) as [d rs], (spec_run_all ∅ acts) as [m qs].
  destruct G as [-> Hs]; [by split; intros ? ?; rewrite lookup_empty|]. split; [done|]. split; [done|].
  by apply list_names.
Qed.
End Profile.
End Profile.

(** A failing write over an existing profile. *)
Module ProfileDemo.
Definition to_toml (s : ChannelSpec) : option (list Z) := match s with Mock t => Some t | _ => None end.
Definition from_toml (t : list Z) : option ChannelSpec := Some (Mock t).
Definition parse (s : list Z) : option ChannelSpec := match s with [] => None | _ => Some (Mock s) end.
Definition acts : list Profile.Action :=
  [Profile.ASet (lit "b") (lit "x"); Profile.ASet (lit "a.1") (lit "y"); Profile.ASet (lit "b") (lit "z"); Profile.AList;
   Profile.AShow (lit "b"); Profile.ASet (lit "../c") (lit "x"); Profile.ADel (lit "b"); Profile.AShow (lit "b")].
End ProfileDemo.
Lemma profiles_refine_witness :
  snd (Profile.run_all ProfileDemo.parse ProfileDemo.to_toml ProfileDemo.from_toml ∅ ProfileDemo.acts) =
    [Ok Profile.Quiet; Ok Profile.Quiet; Ok Profile.Quiet; Ok (Profile.Names [lit "a.1"; lit "b"]); Ok (Profile.Text (lit "z"));
     Err Profile.InvalidName; Ok Profile.Quiet; Err Profile.ReadError].
Proof.
  pose proof (Profile.profiles_refine ProfileDemo.parse ProfileDemo.to_toml ProfileDemo.from_toml
    ltac:(intros [] t H; cbn in H; try discriminate H; injection H as <-; reflexivity) ProfileDemo.acts) as H.
  destruct (Profile.run_all _ _ _ _ _) as [d rs]. destruct (Profile.spec_run_all _ _ _ _) as [m qs] eqn:E.
  destruct H as [-> _]. apply (f_equal snd) in E. cbn [snd] in *. rewrite <- E. vm_compute. reflexivity.
Defined.

Theorem torn_profile_lost :
  let d := {[lit "a.toml" := lit "old"]} : gmap (list Z) (list Z) in
  let d' := fst (Profile.run ProfileDemo.parse ProfileDemo.to_toml ProfileDemo.from_toml (Profile.Torn 1) d
                   (Profile.ASet (lit "a") (lit "new"))) in
  Profile.read ProfileDemo.from_toml d (lit "a") = Ok (Mock (lit "old")) /\
  Profile.read ProfileDemo.from_toml d' (lit "a") = Ok (Mock (lit "n")).
Proof. vm_compute. done. Qed.

(** ** Recorded frames
    Files that hold the payloads of frames, and one row for each; what a row
    says beyond where the payload is differs from command to command. *)
Section Recorded.
  Context (base : list Z) (rows0 : list IndexEntry) (about : IndexEntry -> Frame -> Prop).
Definition row_for (file : list Z) (e : IndexEntry) (f : Frame) : Prop :=
  names file e (In, frame_payload f) /\ about e f.
Record recorded (r : RawWriter) (i : Writer IndexEntry) (fs : list Frame) : Prop := {
  rec_bytes : stream (inner r) = base ++ concat (map frame_payload fs);
  rec_pos : pos r = zlen (stream (inner r));
  rec_rows : exists rows, stream i = rows0 ++ rows /\ Forall2 (row_for (stream (inner r))) rows fs }.

Lemma payloads_snoc fs f : concat (map frame_payload (fs ++ [f])) = concat (map frame_payload fs) ++ frame_payload f.
Proof using Type. rewrite map_app, concat_app. cbn. by rewrite app_nil_r. Qed.
Lemma rows_prefix file file' rows fs : file `prefix_of` file' ->
  Forall2 (row_for file) rows fs -> Forall2 (row_for file') rows fs.
Proof using Type.
  intros Hp H. eapply Forall2_impl; [exact H|]. intros e g [Hm Ha]. split; [|done]. by eapply names_prefix.
Qed.

(** One more frame with its row. *)
Lemma recorded_append sp1 sp2 r i fs f row :
  recorded r i fs -> names (stream (inner r) ++ frame_payload f) row (In, frame_payload f) -> about row f ->
  recorded (mkRaw (w_append sp1 (inner r) (frame_payload f)) (pos r + zlen (frame_payload f)))
    (w_append sp2 i [row]) (fs ++ [f]).
Proof using Type.
  intros [H1 H2 (rows & H3 & H4)] Hn Ha. split; cbn [inner pos]; rewrite ?stream_append.
  - by rewrite H1, payloads_snoc, (assoc_L (++)).
  - rewrite zlen_app. lia.
  - exists (rows ++ [row]). rewrite H3, <- (assoc_L (++)). split; [done|]. apply Forall2_app.
    + eapply rows_prefix; [|done]. by apply prefix_app_r.
    + constructor; [done|constructor].
Qed.
(** Flushing, or failing to, changes nothing of what was handed over. *)
Lemma recorded_flush r i fs k1 k2 : recorded r i fs ->
  recorded (mkRaw (fst (w_flush k1 (inner r))) (pos r)) (fst (w_flush k2 i)) fs.
Proof using Type. intros [H1 H2 H3]. split; cbn [inner pos]; rewrite ?stream_flush; done. Qed.
Lemma recorded_pos r i fs : recorded r i fs -> 0 <= pos r.
Proof using Type. intros H. rewrite (rec_pos _ _ _ H). apply zlen_nonneg. Qed.
(** Such a directory replays to the payloads. *)
Lemma rows_replay file rows fs vfs path : Forall2 (row_for file) rows fs -> vfs path = log_dir file rows ->
  exists r frames r' r'',
    replay_open vfs (replay_new path) = (r, Ok tt) /\
    @recv_all _ (ReplaySource_source vfs) (Datatypes.S (length fs)) r = Some (frames, r') /\
    map frame_payload frames = map frame_payload fs /\ replay_recv_ctl r' = (r'', Ok (Some Eof)).
Proof using Type.
  intros HF Hfs.
  destruct (replay_delivers vfs path _ _ (map (fun f => (In, frame_payload f)) fs) Hfs) as (r & frs & r' & r'' & H1 & H2 & H3 & H4).
  { apply Forall2_fmap_r. eapply Forall2_impl; [exact HF|]. by intros e f [Hn _]. }
  exists r, frs, r', r''. rewrite (Forall2_length _ _ _ HF) in H2. split; [done|]. split; [done|]. split; [|done].
  rewrite H3, map_map. done.
Qed.
End Recorded.

(** ** log *)
Module LogCmd.
Inductive LogError := BadRule (spec : list Z) | EmptyRule (spec : list Z) | InvalidRegex (regex : list Z).

Definition normalized_encoding (e : list Z) : list Z :=
  match trim e with [] => lit "utf-8" | t => to_ascii_lowercase t end.
Definition frame_kind (f : Frame) : Kind :=
  match f with FBytes _ => KBytes | FDatagram _ _ => KDatagram | _ => KFrame end.
Definition synth_dual_ts (now_ns : Z) : DualTimestamp := mkTs now_ns now_ns 0 0 0 0 QBestEffort 0 CSystem.

Section Rules.
  Context (build_regex : list Z -> bool -> option (list Z -> Z)).
(** [contains=tag] and [regex=tag]; matching ignores case. *)
Fixpoint contains_rules (specs : list (list Z)) : res LogError LogClassifier :=
  match specs with
  | [] => Ok []
  | s :: ss =>
      let* '(c, t) := ok_or (split_once [61] s) (BadRule s) in
      if is_nil (trim c) || is_nil (trim t) then Err (EmptyRule s)
      else let* rs := contains_rules ss in Ok (contains_with_case (trim c) (trim t) false :: rs)
  end.
Fixpoint regex_rules (specs : list (list Z)) : res LogError LogClassifier :=
  match specs with
  | [] => Ok []
  | s :: ss =>
      let* '(r, t) := ok_or (split_once [61] s) (BadRule s) in
      if is_nil (trim r) || is_nil (trim t) then Err (EmptyRule s)
      else let rule := regex_with_case (trim r) (trim t) false in
           if is_valid build_regex rule then let* rs := regex_rules ss in Ok (rule :: rs)
           else Err (InvalidRegex (trim r))
  end.
Definition classifier_from_specs (specs regex_specs : list (list Z)) : res LogError LogClassifier :=
  let* a := contains_rules specs in let* b := regex_rules regex_specs in Ok (a ++ b).
End Rules.

(** The files being written; [count] frames so far. *)
Record LogState := mkLog { lg_raw : RawWriter; lg_index : Writer IndexEntry; lg_count : Z }.
(** What the disk does with the [n]-th frame: how much spills out of the
    buffers, and whether a write fails. *)
Record DiskAt := mkDisk { d_spill_raw : nat; d_spill_index : nat; d_raw_short : option nat; d_index_fails : bool;
                          d_flush_raw : option nat; d_flush_index : option nat }.
Definition calm : DiskAt := mkDisk 0 0 None false None None.

Section Log.
  Context {S : Type} `{!Source S} (recv_ctl : S -> S * result (option ControlEvt)).
  Context (rfc3339 : Z -> option (list Z)) (tags_of : list Z -> list (list Z)).
  Context (sid : Z) (source_label : list Z) (now : nat -> Z) (disk_at : nat -> DiskAt).

Definition log_row (n : nat) (f : Frame) (o l : Z) : IndexEntry :=
  let e := from_envelope rfc3339 (synth_dual_ts (now n)) sid In (frame_kind f) o l in
  mkIndex (ts_origin e) (ts_ingest e) (e_mono_ns e) (e_boot_id e) (e_node_id e) (e_clock_offset_ms e)
    (e_clock_quality e) (e_drift_ppm e) (e_clock_source e) (e_sid e) (dir e) (kind e) (off e) (len e)
    (e_level e) (tags_of (frame_payload f)) (e_correlation_id e) (Some source_label) (e_host e) (e_schema_id e).

(** [raw.flush().ok(); index.flush().ok()], also what dropping the writers does. *)
Definition flush_both (d : DiskAt) (st : LogState) : LogState :=
  mkLog (mkRaw (fst (w_flush (d_flush_raw d) (inner (lg_raw st)))) (pos (lg_raw st)))
    (fst (w_flush (d_flush_index d) (lg_index st))) (lg_count st).

Definition log_frame (n : nat) (st : LogState) (f : Frame) : LogState * result unit :=
  let d := disk_at n in
  let '(r, a) := raw_append (d_spill_raw d) (d_raw_short d) (lg_raw st) (frame_payload f) in
  let st1 := mkLog r (lg_index st) (lg_count st) in
  match a with
  | Err e => (st1, Err e)
  | Panic => (st1, Panic)
  | Ok (o, l) =>
      if d_index_fails d then (st1, Err E1001PipelineGeneric)
      else
        let i := w_append (d_spill_index d) (lg_index st) [log_row n f o l] in
        match @checked ErrorId 0 u64_max (lg_count st + 1) with
        | Ok c => let st2 := mkLog r i c in ((if c mod 256 =? 0 then flush_both d st2 else st2), Ok tt)
        | _ => (mkLog r i (lg_count st), Panic)
        end
  end.

Definition ends (c : option ControlEvt) : bool :=
  match c with Some Eof | Some (Disconnected _) | Some (CtlError _ _) => true | _ => false end.

Fixpoint log_loop (fuel n : nat) (s : S) (st : LogState) : option (S * LogState * result unit) :=
  match fuel with
  | O => None
  | Datatypes.S fuel' =>
      match src_recv s with
      | (s1, Err e) => Some (s1, st, Err e)
      | (s1, Panic) => Some (s1, st, Panic)
      | (s1, r) =>
          let '(st1, w) := match r with Ok (Some f) => log_frame n st f | _ => (st, Ok tt) end in
          match r, w with
          | _, Err e => Some (s1, st1, Err e)
          | _, Panic => Some (s1, st1, Panic)
          | Ok None, _ => Some (s1, st1, Ok tt)
          | _, _ =>
              match recv_ctl s1 with
              | (s2, Err e) => Some (s2, st1, Err e)
              | (s2, Panic) => Some (s2, st1, Panic)
              | (s2, Ok c) => if ends c then Some (s2, st1, Ok tt) else log_loop fuel' (Datatypes.S n) s2 st1
              end
          end
      end
  end.

(** From the opening of the files on; the writers are flushed when the command
    ends, well or not, and the source is closed when it ends well. *)
Definition log_run (fuel : nat) (s : S) (last : DiskAt) : option (S * LogState * result unit) :=
  match src_open s with
  | (s1, Ok _) =>
      match log_loop fuel 0 s1 (mkLog (raw_create []) (mkWriter [] []) 0) with
      | None => None
      | Some (s2, st, Ok _) => Some (fst (src_close s2), flush_both last st, Ok tt)
      | Some (s2, st, e) => Some (s2, flush_both last st, e)
      end
  | (s1, Err e) => Some (s1, mkLog (raw_create []) (mkWriter [] []) 0, Err e)
  | (s1, Panic) => Some (s1, mkLog (raw_create []) (mkWriter [] []) 0, Panic)
  end.

(** The frames a recording sees: until the source ends, or a control event
    after a frame ends it. *)
Inductive talks : S -> list Frame -> S -> Prop :=
| talks_end s s' : src_recv s = (s', Ok None) -> talks s [] s'
| talks_stop s f s1 c s2 : src_recv s = (s1, Ok (Some f)) -> recv_ctl s1 = (s2, Ok c) -> ends c = true -> talks s [f] s2
| talks_frame s f s1 c s2 fs s3 : src_recv s = (s1, Ok (Some f)) -> recv_ctl s1 = (s2, Ok c) -> ends c = false ->
    talks s2 fs s3 -> talks s (f :: fs) s3.

(** What row [e] says of frame [f]. *)
Definition log_about (e : IndexEntry) (f : Frame) : Prop :=
  kind e = frame_kind f /\ e_tags e = tags_of (frame_payload f) /\ e_source e = Some source_label /\ e_sid e = sid.
Definition row_of : list Z -> IndexEntry -> Frame -> Prop := row_for log_about.
Record logged (st : LogState) (fs : list Frame) : Prop := {
  lg_recorded : recorded [] [] log_about (lg_raw st) (lg_index st) fs;
  lg_counted : lg_count st = zlen fs }.

Lemma log_row_of n f before : row_of (before ++ frame_payload f) (log_row n f (zlen before) (zlen (frame_payload f))) f.
Proof.
  split; [|done]. exact (row_names rfc3339 (sink_create sid None None [] [] [] [] []) (synth_dual_ts (now n)) In before (frame_payload f)).
Qed.
Lemma flush_logged d st fs : logged st fs -> logged (flush_both d st) fs.
Proof. intros [H1 H2]. split; [|done]. by apply recorded_flush. Qed.

(** The writes of the [n]-th frame succeed. *)
Definition healthy (d : DiskAt) : Prop := d_raw_short d = None /\ d_index_fails d = false.
Definition small (f : Frame) : Prop := zlen (frame_payload f) <= u32_max.

Lemma log_frame_ok n st fs f : logged st fs -> healthy (disk_at n) -> small f ->
  zlen (concat (map frame_payload (fs ++ [f]))) <= u64_max -> zlen fs < u64_max ->
  exists st', log_frame n st f = (st', Ok tt) /\ logged st' (fs ++ [f]).
Proof.
  intros [H1 H2] [Hs Hi] Hf Hu Hn. unfold log_frame. rewrite Hs. unfold small in Hf. pose proof (zlen_nonneg fs).
  pose proof (rec_pos _ _ _ _ _ _ H1) as Hp. pose proof (rec_bytes _ _ _ _ _ _ H1) as Hb. cbn [app] in Hb.
  rewrite payloads_snoc, <- Hb, zlen_app, <- Hp in Hu. pose proof (recorded_pos _ _ _ _ _ _ H1).
  rewrite raw_append_ok, Hi, H2, checked_ok by lia.
  assert (L : logged (mkLog (mkRaw (w_append (d_spill_raw (disk_at n)) (inner (lg_raw st)) (frame_payload f))
     (pos (lg_raw st) + zlen (frame_payload f)))
     (w_append (d_spill_index (disk_at n)) (lg_index st) [log_row n f (pos (lg_raw st)) (zlen (frame_payload f))])
     (zlen fs + 1)) (fs ++ [f])).
  { split; [|cbn; by rewrite zlen_app]. apply recorded_append; [done| |]; rewrite Hp; by apply log_row_of. }
  case_if; eexists; (split; [reflexivity|]); [by apply flush_logged|done].
Qed.

Lemma log_loop_talks s gs s2 : talks s gs s2 -> forall fuel n st fs, (length gs < fuel)%nat -> logged st fs ->
  (forall i, healthy (disk_at i)) -> Forall small gs ->
  zlen (concat (map frame_payload (fs ++ gs))) <= u64_max -> zlen (fs ++ gs) <= u64_max ->
  exists st', log_loop fuel n s st = Some (s2, st', Ok tt) /\ logged st' (fs ++ gs).
Proof.
  assert (Hpre : forall fs f gs, zlen (concat (map frame_payload (fs ++ f :: gs))) <= u64_max ->
    zlen (fs ++ f :: gs) <= u64_max -> zlen (concat (map frame_payload (fs ++ [f]))) <= u64_max /\ zlen fs < u64_max).
  { clear. intros fs f gs Ha Hb. rewrite !map_app, !concat_app in *. cbn in *. rewrite !zlen_app, ?zlen_cons in *.
    pose proof (zlen_nonneg gs). pose proof (zlen_nonneg (concat (map frame_payload gs))). rewrite zlen_nil. lia. }
  induction 1 as [s s' E|s f s1 c s2 E Ec He|s f s1 c s2 gs s3 E Ec He _ IH];
    intros [|fuel] n st fs Hf Hl Hh HF Hu Hv; cbn in Hf; try lia; cbn [log_loop]; rewrite E.
  - exists st. by rewrite app_nil_r.
  - apply Forall_cons in HF as [Hs _]. destruct (Hpre _ _ _ Hu Hv) as [P1 P2].
    destruct (log_frame_ok n st fs f Hl (Hh n) Hs P1 P2) as (st' & -> & Hl'). rewrite Ec, He. eauto.
  - apply Forall_cons in HF as [Hs HF]. destruct (Hpre _ _ _ Hu Hv) as [P1 P2].
    destruct (log_frame_ok n st fs f Hl (Hh n) Hs P1 P2) as (st' & -> & Hl'). rewrite Ec, He.
    rewrite cons_middle, app_assoc in Hu, Hv |- *. apply IH; [lia|done..].
Qed.

(** A recording holds what the source gave: when the files can be written and
    flushed at the end — flushes in between may fail — recording a source that
    ends leaves the payloads of all its frames in [raw.bin], in order, and one
    index row per frame that reads back exactly its payload, with its kind, its
    source and the tags of the classification rules. *)
Lemma log_records_exact fuel s s1 fs s2 lst :
  src_open s = (s1, Ok tt) -> talks s1 fs s2 -> (length fs < fuel)%nat -> (forall i, healthy (disk_at i)) ->
  d_flush_raw lst = None -> d_flush_index lst = None -> Forall small fs ->
  zlen (concat (map frame_payload fs)) <= u64_max -> zlen fs <= u64_max ->
  exists s' st, log_run fuel s lst = Some (s', st, Ok tt) /\ lg_count st = zlen fs /\
    disk (inner (lg_raw st)) = concat (map frame_payload fs) /\
    Forall2 (row_of (disk (inner (lg_raw st)))) (disk (lg_index st)) fs.
Proof.
  intros Ho Ht Hf Hh Hr Hi HF Hu Hv. unfold log_run. rewrite Ho.
  assert (L0 : logged (mkLog (raw_create []) (mkWriter [] []) 0) []).
  { split; [|done]. split; [done..|]. exists []. by split. }
  destruct (log_loop_talks s1 fs s2 Ht fuel 0 _ [] Hf L0 Hh HF Hu Hv) as (st & -> & Hl).
  eexists _, _. split; [reflexivity|]. cbn [app] in Hl. apply (flush_logged lst) in Hl.
  assert (Hd : stream (inner (lg_raw (flush_both lst st))) = disk (inner (lg_raw (flush_both lst st))) /\
    stream (lg_index (flush_both lst st)) = disk (lg_index (flush_both lst st))).
  { unfold flush_both, stream. cbn. rewrite Hr, Hi. cbn. by rewrite !app_nil_r. }
  destruct Hd as [D1 D2]. destruct Hl as [[L1 L2 (rows & L3 & L4)] L5]. cbn [app] in *. rewrite D1 in L1, L4.
  rewrite D2 in L3. subst rows. done.
Qed.

(** C33: Record and replay: when the files can be written and flushed at the end
    — flushes in between may fail —, recording a source that ends succeeds,
    leaves one index row per frame with its kind, its source and the tags of the
    classification rules, and the directory opened as a replay source delivers
    the payloads of all frames, byte for byte and in order, and then its end. *)
Theorem log_then_replay fuel s s1 gs s2 lst fs path :
  src_open s = (s1, Ok tt) -> talks s1 gs s2 -> (length gs < fuel)%nat -> (forall i, healthy (disk_at i)) ->
  d_flush_raw lst = None -> d_flush_index lst = None -> Forall small gs ->
  zlen (concat (map frame_payload gs)) <= u64_max -> zlen gs <= u64_max ->
  exists s' st, log_run fuel s lst = Some (s', st, Ok tt) /\ lg_count st = zlen gs /\
    Forall2 (row_of (disk (inner (lg_raw st)))) (disk (lg_index st)) gs /\
    (fs path = log_dir (disk (inner (lg_raw st))) (disk (lg_index st)) ->
     exists r frames r' r'',
       replay_open fs (replay_new path) = (r, Ok tt) /\
       @recv_all _ (ReplaySource_source fs) (Datatypes.S (length gs)) r = Some (frames, r') /\
       map frame_payload frames = map frame_payload gs /\ replay_recv_ctl r' = (r'', Ok (Some Eof))).
Proof.
  intros Ho Ht Hf Hh Hr Hi HF Hu Hv.
  destruct (log_records_exact fuel s s1 gs s2 lst Ho Ht Hf Hh Hr Hi HF Hu Hv) as (s' & st & E & Hc & Hb & Hrows).
  exists s', st. split; [done|]. split; [done|]. split; [done|]. by eapply rows_replay.
Qed.
End Log.
End LogCmd.

Definition log_frames0 : list Frame := [FBytes [1; 2]; FDatagram None [3]; FBytes []].
Definition log_result0 := LogCmd.log_run (fun s => (s, Ok None)) (fun _ => None) (fun _ => [lit "t"]) 7 (lit "mock:m") (fun _ => 0)
  (fun n => LogCmd.mkDisk n 0 None false (Some 1%nat) None) 9 (mkMock log_frames0 (lit "m")) LogCmd.calm.
Lemma log_then_replay_witness : exists s' st,
  log_result0 = Some (s', st, Ok tt) /\ LogCmd.lg_count st = 3 /\
  exists r frames r' r'',
    replay_open (fun _ => log_dir (disk (inner (LogCmd.lg_raw st))) (disk (LogCmd.lg_index st))) (replay_new (lit "log")) = (r, Ok tt) /\
    @recv_all _ (ReplaySource_source (fun _ => log_dir (disk (inner (LogCmd.lg_raw st))) (disk (LogCmd.lg_index st)))) 4 r = Some (frames, r') /\
    map frame_payload frames = [[1; 2]; [3]; []] /\ replay_recv_ctl r' = (r'', Ok (Some Eof)).
Proof.
  eexists _, _. split; [vm_compute; reflexivity|]. split; [reflexivity|].
  destruct (LogCmd.log_then_replay (fun s => (s, Ok None)) (fun _ => None) (fun _ => [lit "t"]) 7 (lit "mock:m") (fun _ => 0)
    (fun n => LogCmd.mkDisk n 0 None false (Some 1%nat) None) 9 (mkMock log_frames0 (lit "m")) (mkMock log_frames0 (lit "m"))
    log_frames0 (mkMock [] (lit "m")) LogCmd.calm
    (fun _ => match log_result0 with
              | Some (_, st, _) => log_dir (disk (inner (LogCmd.lg_raw st))) (disk (LogCmd.lg_index st))
              | None => log_dir [] [] end) (lit "log")) as (s' & st & E & _ & _ & H).
  - reflexivity.
  - repeat (eapply LogCmd.talks_frame; [reflexivity|reflexivity|reflexivity|]). apply LogCmd.talks_end. reflexivity.
  - cbn. lia.
  - done.
  - done.
  - done.
  - repeat constructor; vm_compute; discriminate.
  - vm_compute. discriminate.
  - vm_compute. discriminate.
  - change (log_result0 = Some (s', st, Ok tt)) in E. rewrite E in H. specialize (H eq_refl).
    vm_compute in E. injection E as _ <-. exact H.
Defined.

Example log_rules :
  LogCmd.classifier_from_specs (fun _ _ => None) [lit "ERROR = err"] [] = Ok [contains_with_case (lit "ERROR") (lit "err") false] /\
  LogCmd.classifier_from_specs (fun _ _ => None) [lit "ERROR"] [] = Err (LogCmd.BadRule (lit "ERROR")) /\
  LogCmd.classifier_from_specs (fun _ _ => None) [lit "=x"] [] = Err (LogCmd.EmptyRule (lit "=x")) /\
  LogCmd.classifier_from_specs (fun _ _ => None) [] [lit "[=x"] = Err (LogCmd.InvalidRegex (lit "[")).
Proof. vm_compute. done. Qed.
