(* ===== verification/Watch.v ===== *)
(** * Watching a session from the command line

    crates/cli/src/cmd/watch.rs: the encoding of the text view is asked from the
    server's source list or given, the session is subscribed to, and every data
    frame of the channel becomes one line of JSON.  The socket is the list of
    messages it delivers; MessagePack, UUIDs, text encodings and the rendering of
    JSON are arguments. *)
From stdpp Require Import base numbers strings list.
From S2P Require Import Prelude Text Decoder Clock Wire WsParse Interchange Client.

Local Open Scope Z_scope.
Local Open Scope tm_scope.

Record WatchOptions := mkWatch {
  w_token : option (list Z); w_sid : list Z; w_ch : Z; w_encoding : list Z; w_max_frames : option Z }.
Inductive WatchError :=
| SidInvalid | RecvFailed | FrameInvalid | Unencodable | ListMissing | NotData | PayloadNotMap
| ServerError (id message : list Z).
Abbreviation wres A := (res WatchError A).

Section Watch.
  Context (uuid_str : Z -> list Z) (parse_uuid : list Z -> option Z).
  Context (to_vec_named : Envelope -> option (list Z)) (from_slice : list Z -> option Envelope).
  (** [codec::decode]: the text and whether there were errors; serde_json's
      floats and its text of a value. *)
  Context (decode_text : list Z -> list Z -> list Z * bool) (float_json : Z -> Value) (json_text : Value -> list Z).

Definition is_auto_encoding (e : list Z) : bool :=
  bool_decide (trim e = []) || str_eqb (to_ascii_lowercase (trim e)) (lit "auto").

Definition fail_on_ctl_error (env : Envelope) : wres unit :=
  match env_payload env with
  | MMap _ =>
      if bool_decide (payload_str (env_payload env) "event" = Some (lit "error")) then
        Err (ServerError (default (lit "E-????") (payload_str (env_payload env) "error_id"))
               (default (lit "watch failed") (payload_str (env_payload env) "message")))
      else Ok tt
  | _ => Ok tt
  end.

(** The first entry [sources] whose value is an array. *)
Fixpoint find_sources (entries : list (MValue * MValue)) : option (list MValue) :=
  match entries with
  | [] => None
  | (k, v) :: es =>
      if bool_decide (v_as_str k = Some (lit "sources"))
      then match v with MArr l => Some l | _ => find_sources es end
      else find_sources es
  end.
Fixpoint encoding_in (sid_text : list Z) (sources : list MValue) : option (list Z) :=
  match sources with
  | [] => None
  | s :: ss =>
      if bool_decide (payload_str s "sid" = Some sid_text) then
        match payload_str s "encoding" with
        | Some e => Some (to_ascii_lowercase e)
        | None => match payload_str s "decoder" ≫= strip_prefix (lit "utf8-text:") with
                  | Some e => Some (to_ascii_lowercase e)
                  | None => encoding_in sid_text ss
                  end
        end
      else encoding_in sid_text ss
  end.
Definition source_list_encoding (payload : MValue) (sid : Z) : option (list Z) :=
  match payload with
  | MMap entries => sources ← find_sources entries; encoding_in (uuid_str sid) sources
  | _ => None
  end.

(** Waiting for the source list; what is left of the messages. *)
Fixpoint await_list (ins : list incoming) (sid : Z) : wres (list Z * list incoming) :=
  match ins with
  | [] => Err ListMissing
  | InErr :: _ => Err RecvFailed
  | InOther :: ins' => await_list ins' sid
  | InBinary b :: ins' =>
      match decode from_slice b with
      | Ok env =>
          if negb (bool_decide (env_kind env = Ctl)) then await_list ins' sid
          else
            do* fail_on_ctl_error env in
            if bool_decide (payload_str (env_payload env) "event" = Some (lit "sources"))
            then Ok (default (lit "utf-8") (source_list_encoding (env_payload env) sid), ins')
            else await_list ins' sid
      | _ => Err FrameInvalid
      end
  end.
Definition list_request (seq : Z) : Envelope := envelope_new Ctl seq (MMap [mkey "action" (MStr (lit "list"))]).
(** The frames sent, the encoding, and the messages that are left. *)
Definition resolve_watch_encoding (ins : list incoming) (sid : Z) (requested : list Z) (seq : Z)
  : list Envelope * wres (list Z * list incoming) :=
  if negb (is_auto_encoding (trim requested)) then
    ([], Ok (match trim requested with [] => lit "utf-8" | r => to_ascii_lowercase r end, ins))
  else match encode to_vec_named (list_request seq) with
       | Ok _ => ([list_request seq], await_list ins sid)
       | _ => ([], Err Unencodable)
       end.

(** ** A frame as JSON *)
Definition hex (b : list Z) : list Z := concat (map (show_hex2 false) b).
Definition bin_json (b : list Z) : list (list Z * Value) :=
  [(lit "type", VString (lit "bin")); (lit "len", VNumber (show_nat (zlen b))); (lit "hex", VString (hex b))].
Fixpoint value_to_json (v : MValue) : Value :=
  match v with
  | MNil | MExt _ _ => VNull
  | MBool b => VBool b
  | MInt z => VNumber (show_int z)
  | MF32 x | MF64 x => float_json x
  | MStr s => VString s
  | MBin b => VObject (obj_of (bin_json b))
  | MArr l => VArray (map value_to_json l)
  | MMap m =>
      VObject (fold_left (fun o kv => obj_insert (fst kv) (snd kv) o)
        ((fix go (m : list (MValue * MValue)) : list (list Z * Value) :=
            match m with
            | [] => []
            | (k, x) :: m' =>
                (match v_as_str k with Some s => s | None => json_text (value_to_json k) end, value_to_json x) :: go m'
            end) m) [])
  end.
Definition body_to_json (v : MValue) (encoding : list Z) : Value :=
  match v with
  | MBin b =>
      let '(text, had_errors) := decode_text b encoding in
      VObject (obj_of (bin_json b ++ (if had_errors then [] else [(lit "text", VString text)])))
  | other => value_to_json other
  end.

Definition WATCH_SCHEMA : list Z := lit "tracemux/watch-frame/v1".
Definition head_fields (env : Envelope) : list (list Z * Value) :=
  [(lit "schema", VString WATCH_SCHEMA); (lit "seq", VNumber (show_nat (env_seq env)))]
  ++ match env_sid env with Some s => [(lit "sid", VString s)] | None => [] end
  ++ match env_ch env with Some c => [(lit "ch", VNumber (show_nat c))] | None => [] end.
(** The entries of the payload under a text key; they replace what is there. *)
Fixpoint entry_fields (encoding : list Z) (entries : list (MValue * MValue)) : list (list Z * Value) :=
  match entries with
  | [] => []
  | (k, v) :: es =>
      match v_as_str k with
      | Some key => (key, if str_eqb key (lit "body") then body_to_json v encoding else value_to_json v)
                    :: entry_fields encoding es
      | None => entry_fields encoding es
      end
  end.
Definition data_json (env : Envelope) (encoding : list Z) : wres Value :=
  if negb (bool_decide (env_kind env = Data)) then Err NotData
  else match env_payload env with
       | MMap entries => Ok (VObject (obj_of (head_fields env ++ entry_fields encoding entries)))
       | _ => Err PayloadNotMap
       end.

(** ** The loop *)
Definition is_target_data (env : Envelope) (sid ch : Z) : bool :=
  bool_decide (env_kind env = Data) && bool_decide (env_sid env = Some (uuid_str sid)) && bool_decide (env_ch env = Some ch).
Definition reached (max : option Z) (seen : Z) : bool := match max with Some m => m <=? seen | None => false end.

(** The lines printed and how the command ends; [u64] cannot overflow before
    2^64 lines. *)
Fixpoint watch_loop (ins : list incoming) (sid ch : Z) (encoding : list Z) (max : option Z) (seen : Z)
  : list (list Z) * wres unit :=
  match ins with
  | [] => ([], Ok tt)
  | InErr :: _ => ([], Err RecvFailed)
  | InOther :: ins' => watch_loop ins' sid ch encoding max seen
  | InBinary b :: ins' =>
      match decode from_slice b with
      | Ok env =>
          match (if bool_decide (env_kind env = Ctl) then fail_on_ctl_error env else Ok tt) with
          | Ok _ =>
              if negb (is_target_data env sid ch) then watch_loop ins' sid ch encoding max seen
              else
                match data_json env encoding with
                | Ok j =>
                    let line := json_text j ++ [10] in
                    if reached max (seen + 1) then ([line], Ok tt)
                    else let '(ls, r) := watch_loop ins' sid ch encoding max (seen + 1) in (line :: ls, r)
                | Err e => ([], Err e)
                | Panic => ([], Panic)
                end
          | Err e => ([], Err e)
          | Panic => ([], Panic)
          end
      | _ => ([], Err FrameInvalid)
      end
  end.
Definition sub_request (sid ch seq : Z) : Envelope :=
  with_ch (with_sid (envelope_new Sub seq (MMap [])) (uuid_str sid)) ch.
(** The frames sent, the lines printed and the result. *)
Definition watch (o : WatchOptions) (ins : list incoming) : list Envelope * list (list Z) * wres unit :=
  match parse_uuid (w_sid o) with
  | None => ([], [], Err SidInvalid)
  | Some sid =>
      let '(sent, r) := resolve_watch_encoding ins sid (w_encoding o) 1 in
      match r with
      | Err e => (sent, [], Err e)
      | Panic => (sent, [], Panic)
      | Ok (encoding, rest) =>
          let seq := if is_auto_encoding (w_encoding o) then 2 else 1 in
          let sub := sub_request sid (w_ch o) seq in
          match encode to_vec_named sub with
          | Ok _ => let '(ls, r') := watch_loop rest sid (w_ch o) encoding (w_max_frames o) 0 in (sent ++ [sub], ls, r')
          | _ => (sent, [], Err Unencodable)
          end
      end
  end.

(** ** What is printed *)

(** A message the loop gets past: no failure of the socket, a frame that decodes,
    and no error of the server. *)
Definition passes (sid ch : Z) (i : incoming) : Prop :=
  match i with
  | InErr => False
  | InOther => True
  | InBinary b => exists env, decode from_slice b = Ok env /\ (env_kind env = Ctl -> fail_on_ctl_error env = Ok tt) /\
      (is_target_data env sid ch = true -> exists m, env_payload env = MMap m)
  end.
Definition targets (sid ch : Z) (ins : list incoming) : list Envelope :=
  omap (fun i => match i with
                 | InBinary b => match decode from_slice b with
                                 | Ok env => if is_target_data env sid ch then Some env else None
                                 | _ => None
                                 end
                 | _ => None
                 end) ins.
(** How many lines the limit leaves: one at least. *)
Definition limit (max : option Z) (seen : Z) (l : list Envelope) : list Envelope :=
  match max with Some m => take (Z.to_nat (Z.max 1 (m - seen))) l | None => l end.
Definition line_of (encoding : list Z) (env : Envelope) (line : list Z) : Prop :=
  exists j, data_json env encoding = Ok j /\ line = json_text j ++ [10].

Lemma target_json env sid ch encoding m : is_target_data env sid ch = true -> env_payload env = MMap m ->
  exists j, data_json env encoding = Ok j.
Proof using Type.
  unfold is_target_data, data_json. intros [[Hk%bool_decide_eq_true _]%andb_true_iff _]%andb_true_iff ->.
  rewrite bool_decide_true by done. by eexists.
Qed.

Lemma watch_loop_prints ins sid ch encoding max : Forall (passes sid ch) ins -> forall seen, 0 <= seen ->
  exists ls, watch_loop ins sid ch encoding max seen = (ls, Ok tt) /\
    Forall2 (line_of encoding) (limit max seen (targets sid ch ins)) ls.
Proof using Type.
  induction 1 as [|i ins Hi _ IH]; intros seen Hs.
  - exists []. split; [done|]. unfold limit, targets. cbn. destruct max; rewrite ?take_nil; constructor.
  - destruct i as [|b|]; cbn [watch_loop]; [done| |by apply IH]. destruct Hi as (env & Hd & Hc & Ht).
    unfold targets. cbn [omap list_omap]. fold (targets sid ch ins). rewrite Hd.
    assert ((if bool_decide (env_kind env = Ctl) then fail_on_ctl_error env else Ok tt) = Ok tt) as ->
      by (case_bool_decide; [by apply Hc|done]).
    destruct (is_target_data env sid ch) eqn:E; cbn [negb]; [|by apply IH].
    destruct (Ht eq_refl) as [m Hm]. destruct (target_json env sid ch encoding m E Hm) as [j Hj]. rewrite Hj.
    unfold reached, limit. destruct max as [x|].
    + destruct (Z.leb_spec x (seen + 1)).
      * eexists. split; [reflexivity|]. replace (Z.max 1 (x - seen)) with 1 by lia. cbn.
        constructor; [by exists j|]. constructor.
      * destruct (IH (seen + 1)) as (ls & -> & HF); [lia|]. eexists. split; [reflexivity|].
        replace (Z.to_nat (Z.max 1 (x - seen))) with (S (Z.to_nat (Z.max 1 (x - (seen + 1))))) by lia. cbn [take].
        constructor; [by exists j|exact HF].
    + destruct (IH (seen + 1)) as (ls & -> & HF); [lia|]. eexists. split; [reflexivity|]. constructor; [by exists j|exact HF].
Qed.

(** The line of a frame the server sent holds its body. *)
Lemma data_line_body sid ch seq ts body label kd encoding :
  exists o, data_json (data_envelope uuid_str sid ch seq ts body label kd) encoding = Ok (VObject o) /\
    JsonLines.obj_get (lit "body") o = Some (body_to_json (MBin body) encoding) /\
    JsonLines.obj_get (lit "seq") o = Some (VNumber (show_nat seq)) /\
    JsonLines.obj_get (lit "kind") o = Some (VString kd) /\
    JsonLines.obj_get (lit "ts_origin") o = Some (VNumber (show_int (ts_origin_ns ts))).
Proof using Type. eexists. split; [reflexivity|]. repeat split; vm_compute; reflexivity. Qed.

Lemma body_hex body encoding : bytes_ok body -> exists bo h,
  body_to_json (MBin body) encoding = VObject bo /\ JsonLines.obj_get (lit "hex") bo = Some (VString h) /\ decode_hex h = Ok body.
Proof using Type.
  intros Hb. unfold body_to_json. destruct (decode_text body encoding) as [text err].
  eexists _, (hex body). split; [reflexivity|]. split; [by destruct err; vm_compute|].
  apply (decode_hex_round_trip false body); [done|]. exact (hex_no_space false body Hb).
Qed.

(** What [tracemux watch] prints is the channel: it subscribes to the session,
    and over any messages without failures it prints one line for every data
    frame of that session and channel, in order — all of them, or as many as the
    limit says but one at least —; the line of a frame the server published is a
    JSON object with its sequence number, its kind and its body in hexadecimal
    digits that read back as the bytes. *)
Theorem watch_prints_channel o sid ins sent enc rest b :
  parse_uuid (w_sid o) = Some sid -> resolve_watch_encoding ins sid (w_encoding o) 1 = (sent, Ok (enc, rest)) ->
  encode to_vec_named (sub_request sid (w_ch o) (if is_auto_encoding (w_encoding o) then 2 else 1)) = Ok b ->
  Forall (passes sid (w_ch o)) rest ->
  exists ls,
    watch o ins = (sent ++ [sub_request sid (w_ch o) (if is_auto_encoding (w_encoding o) then 2 else 1)], ls, Ok tt) /\
    Forall2 (line_of enc) (limit (w_max_frames o) 0 (targets sid (w_ch o) rest)) ls /\
    (forall seq ts body label kd line, bytes_ok body ->
       line_of enc (data_envelope uuid_str sid (w_ch o) seq ts body label kd) line ->
       exists obj bo h, line = json_text (VObject obj) ++ [10] /\
         JsonLines.obj_get (lit "seq") obj = Some (VNumber (show_nat seq)) /\
         JsonLines.obj_get (lit "kind") obj = Some (VString kd) /\
         JsonLines.obj_get (lit "body") obj = Some (VObject bo) /\
         JsonLines.obj_get (lit "hex") bo = Some (VString h) /\ decode_hex h = Ok body).
Proof using Type.
  intros Hu Hr Hs HF. destruct (watch_loop_prints rest sid (w_ch o) enc (w_max_frames o) HF 0) as (ls & Hl & HL); [lia|].
  exists ls. split; [|split; [exact HL|]].
  - unfold watch. rewrite Hu, Hr, Hs, Hl. done.
  - intros seq ts body label kd line Hb (j & Hj & ->).
    destruct (data_line_body sid (w_ch o) seq ts body label kd enc) as (obj & Ho & O1 & O2 & O3 & _).
    destruct (body_hex body enc Hb) as (bo & h & B1 & B2 & B3). rewrite Ho in Hj. injection Hj as <-.
    exists obj, bo, h. rewrite B1 in O1. done.
Qed.

(** Finding: a limit of no frames still prints one. *)
Theorem watch_zero_prints_one sid ch encoding env :
  from_slice [] = Some env -> is_target_data env sid ch = true -> env_payload env = MMap [] ->
  exists line, watch_loop [InBinary []] sid ch encoding (Some 0) 0 = ([line], Ok tt).
Proof using Type.
  intros Hd Ht Hm. destruct (target_json env sid ch encoding [] Ht Hm) as [j Hj].
  exists (json_text j ++ [10]). cbn [watch_loop].
  assert (decode from_slice [] = Ok env) as -> by (unfold decode; cbn; by rewrite Hd).
  assert (env_kind env = Data) as Hk.
  { unfold is_target_data in Ht. apply andb_true_iff in Ht as [[H _]%andb_true_iff _]. by apply bool_decide_eq_true in H. }
  rewrite (bool_decide_false (env_kind env = Ctl)) by congruence. rewrite Ht. cbn [negb]. by rewrite Hj.
Qed.
End Watch.

(** ** A concrete watch: the source list, then frames of two channels *)
Module WatchDemo.
Definition uuid_str (z : Z) : list Z := show_nat z.
Definition parse_uuid (s : list Z) : option Z := parse_unsigned 10 (2 ^ 128 - 1) s.
Definition ts : DualTimestamp := mkTs 5 6 0 0 0 0 QUnknown 0 CSystem.
Definition reply : Envelope := envelope_new Ctl 1 (MMap [mkey "event" (MStr (lit "sources"));
  mkey "sources" (MArr [MMap [mkey "sid" (MStr (lit "7")); mkey "decoder" (MStr (lit "utf8-text:SJIS"))]])]).
Definition from_slice (b : list Z) : option Envelope :=
  match b with
  | [0] => Some reply
  | [n] => Some (data_envelope uuid_str 7 (n mod 2) n ts [n; 255] (lit "s") (lit "bytes"))
  | _ => None
  end.
Definition to_vec (e : Envelope) : option (list Z) := Some [1].
Definition options : WatchOptions := mkWatch None (lit "7") 1 (lit " AUTO ") (Some 2).
Definition ins : list incoming := [InOther; InBinary [0]; InBinary [1]; InBinary [2]; InOther; InBinary [3]; InBinary [5]].
Definition result := watch uuid_str parse_uuid to_vec from_slice (fun b _ => (b, false)) (fun _ => VNull)
  (fun _ => lit "json") options ins.
End WatchDemo.
Lemma watch_prints_channel_witness : exists ls,
  WatchDemo.result = ([list_request 1; sub_request WatchDemo.uuid_str 7 1 2], ls, Ok tt) /\ length ls = 2%nat.
Proof.
  destruct (watch_prints_channel WatchDemo.uuid_str WatchDemo.parse_uuid WatchDemo.to_vec WatchDemo.from_slice
    (fun b _ => (b, false)) (fun _ => VNull) (fun _ => lit "json") WatchDemo.options 7 WatchDemo.ins
    [list_request 1] (lit "sjis") [InBinary [1]; InBinary [2]; InOther; InBinary [3]; InBinary [5]] [1])
    as (ls & H1 & H2 & _).
  - vm_compute. reflexivity.
  - vm_compute. reflexivity.
  - vm_compute. reflexivity.
  - repeat (apply Forall_cons; split; [first [exact I | eexists; split; [vm_compute; reflexivity|];
      split; [intros; discriminate | intros _; eexists; reflexivity]]|]). apply Forall_nil. exact I.
  - exists ls. split; [exact H1|]. apply Forall2_length in H2. rewrite <- H2. vm_compute. reflexivity.
Defined.
