(* ===== verification/Host.v ===== *)
(** * The server's certificate, and process-wide counters

    crates/server/src/tls.rs: the certificate bundle, loaded from its directory or
    generated and saved there; crates/core/src/metrics.rs: named counters and
    gauges whose handles share a cell.  rcgen, the PEM parser and rustls are
    arguments. *)
From stdpp Require Import base numbers strings gmap list.
From S2P Require Import Prelude Text.

Local Open Scope Z_scope.
Local Open Scope tm_scope.

(** ** tls.rs *)
Module Tls.
Record CertBundle := mkBundle { cert_pem : list Z; key_pem : list Z }.
Inductive TlsError := Generate (text : list Z) | IoAt (file : list Z) | Pem (text : list Z) | Rustls (text : list Z).
Definition id (e : TlsError) : ErrorId := E2102TlsHandshake.
Definition DEFAULT_SANS : list (list Z) := [lit "localhost"; lit "127.0.0.1"; lit "::1"].
Definition CERT : list Z := lit "server.crt".
Definition KEY : list Z := lit "server.key".

(** The files of the directory; [None] is a file that is not there. *)
Record TlsDir := mkTlsDir { f_cert : option (list Z); f_key : option (list Z) }.
(** How far a save gets: an error may leave the start of the file. *)
Inductive save_io := SaveOk | MkdirFails | CertFails (part : option nat) | KeyFails (part : option nat).
Definition torn (old : option (list Z)) (text : list Z) (part : option nat) : option (list Z) :=
  match part with Some k => Some (take k text) | None => old end.

Section Tls.
  Context (generate : list (list Z) -> list Z + CertBundle).
  (** What cannot be read although it is there, by file name. *)
  Context (readable : list Z -> bool).
  Context (certs_of : list Z -> list Z + list (list Z)) (key_of : list Z -> list Z + list Z).
  Context (install : list (list Z) -> list Z -> option (list Z)).

Definition bundle_generate (sans : list (list Z)) : res TlsError CertBundle :=
  match generate sans with inl e => Err (Generate e) | inr b => Ok b end.
Definition read_file (name : list Z) (f : option (list Z)) : res TlsError (list Z) :=
  match f with Some t => if readable name then Ok t else Err (IoAt name) | None => Err (IoAt name) end.
Definition load (d : TlsDir) : res TlsError CertBundle :=
  let* c := read_file CERT (f_cert d) in
  let* k := read_file KEY (f_key d) in
  Ok (mkBundle c k).
Definition save (b : CertBundle) (d : TlsDir) (io : save_io) : TlsDir * res TlsError unit :=
  match io with
  | MkdirFails => (d, Err (IoAt []))
  | CertFails part => (mkTlsDir (torn (f_cert d) (cert_pem b) part) (f_key d), Err (IoAt CERT))
  | KeyFails part => (mkTlsDir (Some (cert_pem b)) (torn (f_key d) (key_pem b) part), Err (IoAt KEY))
  | SaveOk => (mkTlsDir (Some (cert_pem b)) (Some (key_pem b)), Ok tt)
  end.
Definition parse (b : CertBundle) : res TlsError (list (list Z) * list Z) :=
  match certs_of (cert_pem b) with
  | inl e => Err (Pem (lit "certs: " ++ e))
  | inr [] => Err (Pem (lit "no certificates in PEM"))
  | inr cs => match key_of (key_pem b) with inl e => Err (Pem (lit "key: " ++ e)) | inr k => Ok (cs, k) end
  end.
Definition load_or_generate (d : TlsDir) (io : save_io) : TlsDir * res TlsError CertBundle :=
  match f_cert d, f_key d with
  | Some _, Some _ => (d, load d)
  | _, _ =>
      match bundle_generate DEFAULT_SANS with
      | Ok b => let '(d', r) := save b d io in (d', (fun _ => b) <$> r)
      | Err e => (d, Err e)
      | Panic => (d, Panic)
      end
  end.
Definition build_server_config (b : CertBundle) : res TlsError unit :=
  let* '(cs, k) := parse b in
  match install cs k with None => Ok tt | Some e => Err (Rustls e) end.
(** [certs.into_iter().next().unwrap()] *)
Definition leaf_cert_der (b : CertBundle) : res TlsError (list Z) :=
  let* '(cs, _) := parse b in match cs with c :: _ => Ok c | [] => Panic end.

(** Later starts. *)
Fixpoint starts (d : TlsDir) (ios : list save_io) : TlsDir * list (res TlsError CertBundle) :=
  match ios with
  | [] => (d, [])
  | io :: ios' => let '(d1, r) := load_or_generate d io in let '(d2, rs) := starts d1 ios' in (d2, r :: rs)
  end.

Lemma starts_loaded ios : forall d c k, f_cert d = Some c -> f_key d = Some k ->
  starts d ios = (d, map (fun _ => load d) ios).
Proof.
  induction ios as [|io ios IH]; intros d c k Hc Hk; [done|]. cbn [starts map]. unfold load_or_generate.
  rewrite Hc, Hk. by rewrite (IH d c k).
Qed.

(** The server keeps its identity: once a start has had a certificate, every
    later start whose files can be read presents the same bundle — the same leaf
    certificate, so the same fingerprint for the pins of the clients — whatever
    the generator would make, and nothing of the files changes; and reading the
    leaf of a bundle never panics. *)
Theorem identity_stable d io d' b ios :
  load_or_generate d io = (d', Ok b) -> readable CERT = true -> readable KEY = true ->
  starts d' ios = (d', map (fun _ => Ok b) ios) /\ (forall b', leaf_cert_der b' <> Panic).
Proof.
  intros H Hc Hk. assert (Hf : f_cert d' = Some (cert_pem b) /\ f_key d' = Some (key_pem b)).
  { unfold load_or_generate in H.
    assert (G : forall r : res TlsError CertBundle, (match bundle_generate DEFAULT_SANS with
      | Ok b => let '(d', r) := save b d io in (d', (fun _ => b) <$> r) | Err e => (d, Err e) | Panic => (d, Panic) end) = (d', Ok b) ->
      f_cert d' = Some (cert_pem b) /\ f_key d' = Some (key_pem b)).
    { intros _. destruct (bundle_generate DEFAULT_SANS) as [b0|e|]; [|done..].
      destruct io; cbn; intros E; by simplify_eq. }
    destruct (f_cert d) as [c|] eqn:Ec, (f_key d) as [k|] eqn:Ek; [|by apply (G Panic)..].
    injection H as <- H. unfold load, read_file in H. rewrite Ec, Ek, Hc, Hk in H. by injection H as <-. }
  destruct Hf as [F1 F2]. split.
  - rewrite (starts_loaded ios d' _ _ F1 F2). do 2 f_equal. unfold load, read_file. rewrite F1, F2, Hc, Hk. cbn. by destruct b.
  - intros b'. unfold leaf_cert_der, parse. destruct (certs_of (cert_pem b')) as [e|[|c cs]]; try done.
    by destruct (key_of (key_pem b')).
Qed.

(** Finding: a first start that fails while it writes the key leaves the two
    files there; later starts load what is left of the key, and none of them can
    serve. *)
Theorem torn_key_blocks_starts b k ios :
  generate DEFAULT_SANS = inr b -> readable CERT = true -> readable KEY = true ->
  (exists e, key_of (take k (key_pem b)) = inl e) ->
  let '(d, r) := load_or_generate (mkTlsDir None None) (KeyFails (Some k)) in
  r = Err (IoAt KEY) /\
  Forall (fun r => exists b', r = Ok b' /\ forall u, build_server_config b' <> Ok u) (snd (starts d ios)).
Proof.
  intros Hg Hc Hk [e He]. unfold load_or_generate, bundle_generate. cbn [f_cert f_key]. rewrite Hg. cbn. split; [done|].
  rewrite (starts_loaded ios _ (cert_pem b) (take k (key_pem b))) by done. cbn [snd]. apply Forall_map, Forall_forall.
  intros io _. unfold load, read_file. cbn [f_cert f_key torn]. rewrite Hc, Hk. cbn [mbind res_bind]. eexists. split; [reflexivity|].
  intros u. unfold build_server_config, parse. cbn. destruct (certs_of (cert_pem b)) as [e'|[|c cs]]; try done.
  by rewrite He.
Qed.
End Tls.
End Tls.

Module TlsDemo.
Definition made : Tls.CertBundle := Tls.mkBundle (lit "CERT") (lit "KEY").
Definition generate (_ : list (list Z)) : list Z + Tls.CertBundle := inr made.
End TlsDemo.
Lemma identity_stable_witness :
  Tls.starts (fun _ => inl []) (fun _ => true) (Tls.mkTlsDir (Some (lit "CERT")) (Some (lit "KEY"))) [Tls.SaveOk; Tls.MkdirFails] =
  (Tls.mkTlsDir (Some (lit "CERT")) (Some (lit "KEY")), [Ok TlsDemo.made; Ok TlsDemo.made]).
Proof.
  exact (proj1 (Tls.identity_stable (fun _ => inl []) (fun _ => true) (fun _ => inr []) (fun k => inr k)
    (Tls.mkTlsDir (Some (lit "CERT")) (Some (lit "KEY"))) Tls.SaveOk (Tls.mkTlsDir (Some (lit "CERT")) (Some (lit "KEY")))
    TlsDemo.made [Tls.SaveOk; Tls.MkdirFails] eq_refl eq_refl eq_refl)).
Defined.
Lemma torn_key_blocks_starts_witness :
  let '(d, r) := Tls.load_or_generate TlsDemo.generate (fun _ => true) (Tls.mkTlsDir None None) (Tls.KeyFails (Some 1%nat)) in
  r = Err (Tls.IoAt Tls.KEY) /\
  Forall (fun r => exists b', r = Ok b' /\
    forall u, Tls.build_server_config (fun c => inr [c]) (fun k => if str_eqb k (lit "KEY") then inr k else inl []) (fun _ _ => None) b' <> Ok u)
    (snd (Tls.starts TlsDemo.generate (fun _ => true) d [Tls.SaveOk; Tls.SaveOk])).
Proof.
  apply (Tls.torn_key_blocks_starts TlsDemo.generate (fun _ => true) (fun c => inr [c])
    (fun k => if str_eqb k (lit "KEY") then inr k else inl []) (fun _ _ => None) TlsDemo.made 1 [Tls.SaveOk; Tls.SaveOk]);
    [reflexivity|reflexivity|reflexivity|]. exists []. vm_compute. reflexivity.
Defined.

(** ** metrics.rs: handles share their cell *)
Module Metrics.
Record Registry := mkRegistry {
  counters : gmap (list Z) nat; gauges : gmap (list Z) nat; c_cells : list Z; g_cells : list Z }.
Definition new : Registry := mkRegistry ∅ ∅ [] [].

(** [entry(name).or_default().clone()]: the handle is the cell. *)
Definition counter (r : Registry) (name : list Z) : Registry * nat :=
  match counters r !! name with
  | Some h => (r, h)
  | None => (mkRegistry (<[name := length (c_cells r)]> (counters r)) (gauges r) (c_cells r ++ [0]) (g_cells r), length (c_cells r))
  end.
Definition gauge (r : Registry) (name : list Z) : Registry * nat :=
  match gauges r !! name with
  | Some h => (r, h)
  | None => (mkRegistry (counters r) (<[name := length (g_cells r)]> (gauges r)) (c_cells r) (g_cells r ++ [0]), length (g_cells r))
  end.
(** [fetch_add] wraps around. *)
Definition inc (r : Registry) (h : nat) (n : Z) : Registry :=
  mkRegistry (counters r) (gauges r) (alter (fun v => (v + n) mod 2 ^ 64) h (c_cells r)) (g_cells r).
Definition wrap_i64 (z : Z) : Z := (z + 2 ^ 63) mod 2 ^ 64 - 2 ^ 63.
Definition gauge_set (r : Registry) (h : nat) (v : Z) : Registry :=
  mkRegistry (counters r) (gauges r) (c_cells r) (alter (fun _ => v) h (g_cells r)).
Definition gauge_add (r : Registry) (h : nat) (d : Z) : Registry :=
  mkRegistry (counters r) (gauges r) (c_cells r) (alter (fun v => wrap_i64 (v + d)) h (g_cells r)).

Inductive Snapshot := SCounter (v : Z) | SGauge (v : Z).
(** Counters first: a gauge of the same name replaces the counter. *)
Definition snapshot (r : Registry) : gmap (list Z) Snapshot :=
  ((fun h => SGauge (default 0 (g_cells r !! h))) <$> gauges r) ∪
  ((fun h => SCounter (default 0 (c_cells r !! h))) <$> counters r).

Inductive op := OCounter (name : list Z) | OGauge (name : list Z) | OInc (h : nat) (n : Z) | OSet (h : nat) (v : Z) | OAdd (h : nat) (d : Z).
Definition step (r : Registry) (o : op) : Registry :=
  match o with
  | OCounter n => fst (counter r n)
  | OGauge n => fst (gauge r n)
  | OInc h n => inc r h n
  | OSet h v => gauge_set r h v
  | OAdd h d => gauge_add r h d
  end.
Definition run (r : Registry) (os : list op) : Registry := fold_left step os r.

(** The increments made through handles of cell [h] since it was handed out. *)
Fixpoint added (h : nat) (os : list op) : Z :=
  match os with [] => 0 | OInc k n :: os' => (if decide (k = h) then n else 0) + added h os' | _ :: os' => added h os' end.

Definition wf (r : Registry) : Prop :=
  (forall n h, counters r !! n = Some h -> (h < length (c_cells r))%nat) /\
  (forall n m h, counters r !! n = Some h -> counters r !! m = Some h -> n = m).
Lemma wf_new : wf new.
Proof. split; intros *; cbn; by rewrite lookup_empty. Qed.
Lemma wf_step r o : wf r -> wf (step r o).
Proof.
  intros [W1 W2]. destruct o as [n|n|h n|h v|h d]; cbn.
  - unfold counter. destruct (counters r !! n) as [h|] eqn:E; [done|]. split; cbn.
    + intros m h [[<- <-]|[_ H]]%lookup_insert_Some; rewrite length_app; cbn; [lia|]. specialize (W1 _ _ H). lia.
    + intros m k h [[<- <-]|[N1 H1]]%lookup_insert_Some [[<- H2]|[N2 H2]]%lookup_insert_Some; [done| | |by eapply W2].
      * specialize (W1 _ _ H2). lia.
      * subst. specialize (W1 _ _ H1). lia.
  - unfold gauge. by destruct (gauges r !! n).
  - split; cbn; [|done]. intros m k H. rewrite length_alter. by eapply W1.
  - done.
  - done.
Qed.
Lemma counters_grow os : forall r n h, counters r !! n = Some h -> counters (run r os) !! n = Some h.
Proof.
  induction os as [|o os IH]; intros r n h H; [done|]. cbn. apply IH. destruct o as [m|m|k x|k v|k d]; cbn; try done.
  - unfold counter. destruct (counters r !! m) eqn:E; [done|]. cbn. rewrite lookup_insert_ne; [done|]. by intros ->; congruence.
  - unfold gauge. by destruct (gauges r !! m).
Qed.

(** Counters add up: whatever the order in which handles are asked for and used
    — by any number of clients, under any names —, a name keeps one cell that no
    other name shares, and the value read for it is the sum of all increments
    made through its handles since the cell was made, modulo 2^64. *)
Theorem counters_add_up r os n h v :
  wf r -> counters r !! n = Some h -> c_cells r !! h = Some v -> 0 <= v < 2 ^ 64 ->
  let r' := run r os in
  wf r' /\ snd (counter r' n) = h /\ c_cells r' !! h = Some ((v + added h os) mod 2 ^ 64).
Proof.
  intros W Hn Hv Hb. cbv zeta. assert (Hw : forall os r, wf r -> wf (run r os)).
  { clear. induction os as [|o os IH]; intros r W; [done|]. apply IH. by apply wf_step. }
  split; [by apply Hw|]. split; [unfold counter; by rewrite (counters_grow os r n h Hn)|]. clear Hn W Hw n.
  revert r v Hv Hb. induction os as [|o os IH]; intros r v Hv Hb; cbn [added run fold_left].
  - rewrite Z.add_0_r, Z.mod_small by lia. done.
  - fold (run (step r o) os). destruct o as [m|m|k x|k w|k d].
    + apply IH; [|done]. cbn. unfold counter. destruct (counters r !! m); [done|]. cbn.
      by rewrite lookup_app_l by (by eapply lookup_lt_Some).
    + apply IH; [|done]. cbn. unfold gauge. by destruct (gauges r !! m).
    + destruct (decide (k = h)) as [->|N].
      * rewrite (IH _ ((v + x) mod 2 ^ 64)).
        -- rewrite Z.add_mod_idemp_l by lia. by rewrite Z.add_assoc.
        -- cbn. by rewrite list_lookup_alter_eq, Hv.
        -- apply Z.mod_pos_bound. lia.
      * rewrite Z.add_0_l. apply IH; [|done]. cbn. by rewrite list_lookup_alter_ne.
    + by apply IH.
    + by apply IH.
Qed.

(** Finding: a gauge hides the counter of the same name. *)
Example gauge_hides_counter :
  snapshot (run new [OCounter (lit "n"); OInc 0 5; OGauge (lit "n")]) !! lit "n" = Some (SGauge 0).
Proof. vm_compute. reflexivity. Qed.
End Metrics.
Lemma counters_add_up_witness :
  let r := fst (Metrics.counter Metrics.new (lit "frames")) in
  Metrics.c_cells (Metrics.run r [Metrics.OInc 0 (2 ^ 64 - 1); Metrics.OCounter (lit "other"); Metrics.OInc 1 7; Metrics.OInc 0 3]) !! 0%nat
  = Some 2.
Proof.
  refine (proj2 (proj2 (Metrics.counters_add_up (fst (Metrics.counter Metrics.new (lit "frames")))
    [Metrics.OInc 0 (2 ^ 64 - 1); Metrics.OCounter (lit "other"); Metrics.OInc 1 7; Metrics.OInc 0 3] (lit "frames") 0 0 _ _ _ _))).
  - exact (Metrics.wf_step Metrics.new (Metrics.OCounter (lit "frames")) Metrics.wf_new).
  - vm_compute. reflexivity.
  - reflexivity.
  - lia.
Defined.
