(* ===== verification/Connect.v ===== *)
(** * tracemux connect: a channel on standard output, and saved

    crates/cli/src/cmd/connect.rs, and [open] of crates/cli/src/cmd/spec.rs,
    which makes the source a channel specification names.  Standard output and
    the files of a saved session may fail at any write or flush; the source is
    any instance of [Runner.Source], its control events and the clock are
    arguments. *)
From stdpp Require Import base numbers strings gmap list.
From S2P Require Import Prelude Text Spec Naming Decoder Clock SessionDir Capture Detect Runner Interchange Transports Native Commands.

Local Open Scope Z_scope.
Local Open Scope tm_scope.

(** ** The source of a channel specification *)
Section SpecOpen.
  Context {Addr B : Type} `{!PcapBackend B}.
(** What the operating system will answer to the sources that are made. *)
Record Host := mkHost {
  h_net : list (option (list chunk)); h_ports : list (option (Transports.settings -> option (list chunk)));
  h_binds : list bool; h_datagrams : list (option (Addr * list Z)); h_spawns : list (option (list (result Frame)));
  h_pcap : B }.
(** [Box<dyn Source>]. *)
Inductive SourceBox :=
| BFile (s : FileSource) | BTcp (s : TcpSource) | BUdp (s : Udp Addr) | BPcap (s : PcapSource B)
| BSerial (s : SerialSource) | BProcess (s : ProcessSource) | BMock (s : MockSource).
Definition spec_open (h : Host) (spec : ChannelSpec) : option SourceBox :=
  match spec with
  | File path follow => Some (BFile (file_new path follow))
  | Tcp addr => Some (BTcp (tcp_new addr (h_net h)))
  | Spec.Udp bind => Some (BUdp (mkUdp Addr bind false None None [] [] (h_datagrams h) (h_binds h)))
  | Pcap _ => c ← from_channel_spec spec; Some (BPcap (with_backend c (h_pcap h)))
  | Serial port baud db p sb fl => Some (BSerial (mkSerial port baud db p sb fl [] None (h_ports h)))
  | Process argv => Some (BProcess (process_new argv (h_spawns h)))
  | Mock tag => Some (BMock (mkMock [] tag))
  | _ => None
  end.
Definition box_kind (b : SourceBox) : list Z :=
  match b with
  | BFile _ => lit "file"
  | BTcp s => cm_kind (src_metadata s)
  | BUdp s => cm_kind (@src_metadata _ (UdpSource_source Addr (fun _ => [])) s)
  | BPcap s => cm_kind (src_metadata s)
  | BSerial s => cm_kind (src_metadata s)
  | BProcess s => cm_kind (src_metadata s)
  | BMock s => cm_kind (src_metadata s)
  end.

(** A source that the command line opens calls itself what the specification's
    tag, and so the recorded rows and directory names, call it. *)
Lemma spec_open_kind h spec b : spec_open h spec = Some b -> box_kind b = kind_tag spec.
Proof. destruct spec; cbn; try (intros; by simplify_eq). Qed.
End SpecOpen.

Module Connect.
(** What the command fails with. *)
Inductive ConnectError :=
| SourceFailed (e : ErrorId) | StdoutFailed | SaveNotDirectory | SaveNonEmpty | SaveFailed | LogFailed.

(** ** The path given with [--save] *)
Record SaveDir := mkSaveDir { sd_entries : list (list Z); sd_listable : bool; sd_raw : list Z; sd_index : list IndexEntry }.
Inductive SaveTarget := Missing | NotDirectory | Directory (d : SaveDir).
(** Which steps of making the session directory succeed. *)
Record CreateIo := mkCreateIo { ci_dir : bool; ci_meta : bool; ci_raw : bool; ci_index : bool }.
Record MetaToml := mkMetaToml { mt_command : list Z; mt_spec : ChannelSpec; mt_sid : Z; mt_decoder : list Z; mt_encoding : list Z }.
Record ConnectRecorder := mkRecorder {
  cr_sid : Z; cr_source : list Z; cr_raw : RawWriter; cr_index : Writer IndexEntry; cr_count : Z }.

Definition normalized_encoding (e : list Z) : list Z :=
  match trim e with [] => lit "utf-8" | t => to_ascii_lowercase t end.
Definition write_meta (spec : ChannelSpec) (sid : Z) (decoder encoding : list Z) : MetaToml :=
  mkMetaToml (lit "connect") spec sid decoder encoding.
Definition recorder_create (t : SaveTarget) (io : CreateIo) (spec : ChannelSpec) (encoding : list Z) (sid : Z)
  : res ConnectError (MetaToml * ConnectRecorder) :=
  let* d := match t with
            | Missing => Ok (mkSaveDir [] true [] [])
            | NotDirectory => Err SaveNotDirectory
            | Directory d => if sd_listable d && negb (is_nil (sd_entries d)) then Err SaveNonEmpty else Ok d
            end in
  if negb (ci_dir io) then Err SaveFailed else
  let encoding := normalized_encoding encoding in
  let meta := write_meta spec sid (lit "utf8-text:" ++ encoding) encoding in
  if negb (ci_meta io && ci_raw io && ci_index io) then Err SaveFailed
  else Ok (meta, mkRecorder sid (kind_tag spec ++ [58] ++ iface_tag spec) (raw_create (sd_raw d)) (mkWriter (sd_index d) []) 0).

(** What standard output does with the [n]-th payload: a write that fails after
    some bytes, and whether the flush after it works. *)
Record StdoutAt := mkStdout { so_short : option nat; so_flushes : bool }.

Section Run.
  Context {S : Type} `{!Source S} (recv_ctl : S -> S * result (option ControlEvt)).
  Context (rfc3339 : Z -> option (list Z)) (now : nat -> Z).
  Context (disk_at : nat -> LogCmd.DiskAt) (out_at : nat -> StdoutAt).

Definition synth_dual_ts (now_ns : Z) : DualTimestamp := mkTs now_ns now_ns 0 0 0 0 QBestEffort 0 CSystem.
Definition frame_kind (f : Frame) : Kind :=
  match f with FBytes _ => KBytes | FDatagram _ _ => KDatagram | _ => KFrame end.
Definition rec_row (n : nat) (r : ConnectRecorder) (k : Kind) (o l : Z) : IndexEntry :=
  let e := from_envelope rfc3339 (synth_dual_ts (now n)) (cr_sid r) In k o l in
  mkIndex (ts_origin e) (ts_ingest e) (e_mono_ns e) (e_boot_id e) (e_node_id e) (e_clock_offset_ms e)
    (e_clock_quality e) (e_drift_ppm e) (e_clock_source e) (e_sid e) (dir e) (kind e) (off e) (len e)
    (e_level e) (e_tags e) (e_correlation_id e) (Some (cr_source r)) (e_host e) (e_schema_id e).

(** [flush]: the index is not flushed when the raw file is not. *)
Definition rec_flush (d : LogCmd.DiskAt) (r : ConnectRecorder) : ConnectRecorder * res ConnectError unit :=
  let '(w, ok) := w_flush (LogCmd.d_flush_raw d) (inner (cr_raw r)) in
  let r1 := mkRecorder (cr_sid r) (cr_source r) (mkRaw w (pos (cr_raw r))) (cr_index r) (cr_count r) in
  if negb ok then (r1, Err LogFailed) else
  let '(i, ok) := w_flush (LogCmd.d_flush_index d) (cr_index r1) in
  (mkRecorder (cr_sid r) (cr_source r) (cr_raw r1) i (cr_count r), if ok then Ok tt else Err LogFailed).
Definition rec_append (n : nat) (r : ConnectRecorder) (data : list Z) (k : Kind) : ConnectRecorder * res ConnectError unit :=
  let d := disk_at n in
  let '(w, a) := raw_append (LogCmd.d_spill_raw d) (LogCmd.d_raw_short d) (cr_raw r) data in
  let r1 := mkRecorder (cr_sid r) (cr_source r) w (cr_index r) (cr_count r) in
  match a with
  | Err _ => (r1, Err LogFailed)
  | Panic => (r1, Panic)
  | Ok (o, l) =>
      if LogCmd.d_index_fails d then (r1, Err LogFailed)
      else
        let i := w_append (LogCmd.d_spill_index d) (cr_index r) [rec_row n r k o l] in
        match @checked ErrorId 0 u64_max (cr_count r + 1) with
        | Ok c =>
            let r2 := mkRecorder (cr_sid r) (cr_source r) w i c in
            if c mod 256 =? 0 then rec_flush d r2 else (r2, Ok tt)
        | _ => (mkRecorder (cr_sid r) (cr_source r) w i (cr_count r), Panic)
        end
  end.
Definition write_payload (n : nat) (out : list Z) (rc : option ConnectRecorder) (data : list Z) (k : Kind)
  : list Z * option ConnectRecorder * res ConnectError unit :=
  match so_short (out_at n) with
  | Some m => (out ++ take m data, rc, Err StdoutFailed)
  | None =>
      match rc with
      | None => (out ++ data, None, Ok tt)
      | Some r => let '(r', w) := rec_append n r data k in (out ++ data, Some r', w)
      end
  end.

(** [source.recv().await?] and [source.recv_ctl().await?]. *)
Definition fails {A} (e : ErrorId) : res ConnectError A := Err (SourceFailed e).
Fixpoint connect_loop (fuel n : nat) (s : S) (out : list Z) (rc : option ConnectRecorder)
  : option (S * list Z * option ConnectRecorder * res ConnectError unit) :=
  match fuel with
  | O => None
  | Datatypes.S fuel' =>
      match src_recv s with
      | (s1, Err e) => Some (s1, out, rc, fails e)
      | (s1, Panic) => Some (s1, out, rc, Panic)
      | (s1, Ok None) => Some (s1, out, rc, Ok tt)
      | (s1, Ok (Some f)) =>
          let '(out1, rc1, w) := write_payload n out rc (frame_payload f) (frame_kind f) in
          match w with
          | Err e => Some (s1, out1, rc1, Err e)
          | Panic => Some (s1, out1, rc1, Panic)
          | Ok _ =>
              if negb (so_flushes (out_at n)) then Some (s1, out1, rc1, Err StdoutFailed)
              else match recv_ctl s1 with
                   | (s2, Err e) => Some (s2, out1, rc1, fails e)
                   | (s2, Panic) => Some (s2, out1, rc1, Panic)
                   | (s2, Ok c) =>
                       if LogCmd.ends c then Some (s2, out1, rc1, Ok tt)
                       else connect_loop fuel' (Datatypes.S n) s2 out1 rc1
                   end
          end
      end
  end.

(** Dropping the buffered writers writes what it can. *)
Definition rec_drop (d : LogCmd.DiskAt) (r : ConnectRecorder) : ConnectRecorder :=
  mkRecorder (cr_sid r) (cr_source r) (mkRaw (fst (w_flush (LogCmd.d_flush_raw d) (inner (cr_raw r)))) (pos (cr_raw r)))
    (fst (w_flush (LogCmd.d_flush_index d) (cr_index r))) (cr_count r).

(** After the loop: a last flush, the source is closed, and the writers are
    dropped, also when something failed. *)
Definition connect_finish (last drop_at : LogCmd.DiskAt) (s : S) (out : list Z) (rc : option ConnectRecorder)
    (r : res ConnectError unit) : S * list Z * option ConnectRecorder * res ConnectError unit :=
  let dropped := fmap (rec_drop drop_at) in
  match r with
  | Ok _ =>
      let '(rc1, w) := match rc with
                       | None => (None, Ok tt)
                       | Some c => let '(c', w) := rec_flush last c in (Some c', w)
                       end in
      match w with
      | Ok _ =>
          match src_close s with
          | (s1, Ok _) => (s1, out, dropped rc1, Ok tt)
          | (s1, Err e) => (s1, out, dropped rc1, fails e)
          | (s1, Panic) => (s1, out, dropped rc1, Panic)
          end
      | _ => (s, out, dropped rc1, w)
      end
  | _ => (s, out, dropped rc, r)
  end.
(** [run] from the opening of the source; [save] is the path's state and what
    making the directory meets. *)
Definition connect_run (fuel : nat) (s : S) (spec : ChannelSpec) (encoding : list Z) (sid : Z)
    (save : option (SaveTarget * CreateIo)) (last drop_at : LogCmd.DiskAt)
  : option (S * list Z * option ConnectRecorder * res ConnectError unit) :=
  match src_open s with
  | (s1, Err e) => Some (s1, [], None, fails e)
  | (s1, Panic) => Some (s1, [], None, Panic)
  | (s1, Ok _) =>
      let start rc :=
        match connect_loop fuel 0 s1 [] rc with
        | None => None
        | Some (s2, out, rc', r) => Some (connect_finish last drop_at s2 out rc' r)
        end in
      match save with
      | None => start None
      | Some (t, io) =>
          match recorder_create t io spec encoding sid with
          | Ok (_, rc) => start (Some rc)
          | Err e => Some (s1, [], None, Err e)
          | Panic => Some (s1, [], None, Panic)
          end
      end
  end.

(** ** What a row of a saved session says *)
Section Saved.
  Context (rc0 : ConnectRecorder).
Definition about (e : IndexEntry) (f : Frame) : Prop :=
  kind e = frame_kind f /\ e_sid e = cr_sid rc0 /\ e_source e = Some (cr_source rc0).
Definition holds (r : ConnectRecorder) (fs : list Frame) : Prop :=
  cr_sid r = cr_sid rc0 /\ cr_source r = cr_source rc0 /\
  recorded (stream (inner (cr_raw rc0))) (stream (cr_index rc0)) about (cr_raw r) (cr_index r) fs.

Lemma rec_row_names n r k before d :
  names (before ++ d) (rec_row n r k (zlen before) (zlen d)) (In, d).
Proof using Type.
  exact (row_names rfc3339 (sink_create (cr_sid r) None None [] [] [] [] []) (synth_dual_ts (now n)) In before d).
Qed.
Lemma rec_flush_holds d r fs : holds r fs -> holds (fst (rec_flush d r)) fs.
Proof using Type.
  intros (H1 & H2 & [B P R]). unfold rec_flush.
  pose proof (SessionDir.stream_flush (LogCmd.d_flush_raw d) (inner (cr_raw r))) as Ew.
  destruct (w_flush _ (inner (cr_raw r))) as [w []]; cbn [negb fst snd cr_index] in *;
    [pose proof (SessionDir.stream_flush (LogCmd.d_flush_index d) (cr_index r)) as Ei;
     destruct (w_flush _ (cr_index r)) as [i []]; cbn [fst] in *|];
    (split; [done|split; [done|]]); split; cbn [inner pos cr_raw cr_index]; rewrite ?Ew, ?Ei; done.
Qed.
Lemma rec_drop_holds d r fs : holds r fs -> holds (rec_drop d r) fs.
Proof using Type. intros (H1 & H2 & H3). split; [done|]. split; [done|]. by apply recorded_flush. Qed.

(** In any case the file is at most one payload ahead of its rows. *)
Definition partly (r : ConnectRecorder) (fs : list Frame) (f : Frame) : Prop :=
  exists k rows, stream (inner (cr_raw r)) = stream (inner (cr_raw rc0)) ++ concat (map frame_payload fs) ++ take k (frame_payload f) /\
    stream (cr_index r) = stream (cr_index rc0) ++ rows /\
    (Forall2 (row_for about (stream (inner (cr_raw r)))) rows fs \/
     Forall2 (row_for about (stream (inner (cr_raw r)))) rows (fs ++ [f])).
Lemma holds_partly r fs f : holds r (fs ++ [f]) -> partly r fs f.
Proof using Type.
  intros (_ & _ & [B _ (rows & R1 & R2)]). exists (length (frame_payload f)), rows.
  rewrite B, payloads_snoc, firstn_all. split; [done|]. split; [done|]. right. by rewrite B, payloads_snoc in R2.
Qed.
Lemma holds_before r fs f : holds r fs -> partly r fs f.
Proof using Type.
  intros (_ & _ & [B _ (rows & R1 & R2)]). exists 0%nat, rows.
  rewrite B. cbn [take]. rewrite app_nil_r. split; [done|]. split; [done|]. left. by rewrite B in R2.
Qed.
Lemma ahead_partly r fs f k w c : holds r fs -> stream w = stream (inner (cr_raw r)) ++ take k (frame_payload f) ->
  forall p, partly (mkRecorder (cr_sid r) (cr_source r) (mkRaw w p) (cr_index r) c) fs f.
Proof using Type.
  intros (_ & _ & [B _ (rows & R1 & R2)]) Hw p. exists k, rows. cbn [cr_raw cr_index inner].
  rewrite Hw, B, <- (assoc_L (++)). split; [done|]. split; [done|]. left.
  eapply rows_prefix; [|done]. rewrite B, (assoc_L (++)). by apply prefix_app_r.
Qed.
Lemma rec_append_outcome n r fs f r' w :
  holds r fs -> zlen (frame_payload f) <= u32_max ->
  rec_append n r (frame_payload f) (frame_kind f) = (r', w) ->
  partly r' fs f /\ (w = Ok tt -> holds r' (fs ++ [f])).
Proof using Type.
  intros H Hf E. pose proof H as (H1 & H2 & HR). pose proof (rec_pos _ _ _ _ _ _ HR) as P.
  pose proof (recorded_pos _ _ _ _ _ _ HR) as Hp0.
  pose proof (stream_append (LogCmd.d_spill_raw (disk_at n)) (inner (cr_raw r)) (frame_payload f)) as Hst.
  rewrite <- (firstn_all (frame_payload f)) in Hst at 2. pose proof (ahead_partly r fs f _ _ (cr_count r) H Hst) as Hb.
  unfold rec_append in E. destruct (LogCmd.d_raw_short (disk_at n)) as [k|] eqn:Es.
  { cbn in E. injection E as <- <-. split; [|done]. eapply ahead_partly; [done|apply stream_append]. }
  destruct (decide (pos (cr_raw r) + zlen (frame_payload f) <= u64_max)) as [Hu|Hu]; cycle 1.
  { unfold raw_append in E. rewrite checked_panic in E by lia. cbn in E. injection E as <- <-. by split. }
  rewrite raw_append_ok in E by done. destruct (LogCmd.d_index_fails (disk_at n)); [injection E as <- <-; by split|].
  set (r1 := mkRaw _ _) in E. set (i1 := w_append _ _ _) in E.
  assert (Hn : forall c, holds (mkRecorder (cr_sid r) (cr_source r) r1 i1 c) (fs ++ [f])).
  { intros c. split; [done|]. split; [done|]. cbn [cr_raw cr_index]. apply recorded_append; [done| |].
    - rewrite P. apply rec_row_names.
    - split; [done|]. split; [exact H1|]. cbn. by rewrite H2. }
  destruct (@checked ErrorId 0 u64_max (cr_count r + 1)) as [c|e|];
    [|injection E as <- <-; split; [by apply holds_partly|done]..].
  destruct (c mod 256 =? 0); [|injection E as <- <-; split; [by apply holds_partly|done]].
  pose proof (rec_flush_holds (disk_at n) _ _ (Hn c)) as Hf'. rewrite E in Hf'. cbn [fst] in Hf'.
  split; [by apply holds_partly|done].
Qed.
End Saved.

(** The frames received so far, in order. *)
Inductive received : S -> list Frame -> Prop :=
| received_none s : received s []
| received_last s f s1 : src_recv s = (s1, Ok (Some f)) -> received s [f]
| received_more s f s1 c s2 fs : src_recv s = (s1, Ok (Some f)) -> recv_ctl s1 = (s2, Ok c) -> received s2 fs ->
    received s (f :: fs).
(** Output and saved session after [fs]: the output is a prefix of the payloads,
    whole but for the last one; the saved bytes follow what was there, are never
    ahead of the output, and every row reads back its payload. *)
Definition output_safe (rc0 : option ConnectRecorder) (out : list Z) (rc : option ConnectRecorder) (fs : list Frame) : Prop :=
  out `prefix_of` concat (map frame_payload fs) /\
  match rc0, rc with
  | None, None => True
  | Some r0, Some r =>
      (exists saved, stream (inner (cr_raw r)) = stream (inner (cr_raw r0)) ++ saved /\ saved `prefix_of` out) /\
      exists rows k, stream (cr_index r) = stream (cr_index r0) ++ rows /\
        Forall2 (row_for (about r0) (stream (inner (cr_raw r)))) rows (take k fs)
  | _, _ => False
  end.
Definition saving (rc0 rc : option ConnectRecorder) (fs : list Frame) : Prop :=
  match rc0, rc with None, None => True | Some r0, Some r => holds r0 r fs | _, _ => False end.
Lemma saving_safe rc0 rc fs : saving rc0 rc fs -> output_safe rc0 (concat (map frame_payload fs)) rc fs.
Proof using Type.
  intros H. split; [done|]. destruct rc0 as [r0|], rc as [r|]; try done. destruct H as (_ & _ & [B _ (rows & R1 & R2)]).
  split; [by eexists|]. exists rows, (length fs). by rewrite firstn_all.
Qed.
Lemma partly_safe r0 r fs f : partly r0 r fs f -> output_safe (Some r0) (concat (map frame_payload (fs ++ [f]))) (Some r) (fs ++ [f]).
Proof using Type.
  intros (k & rows & B & R1 & R2). split; [done|]. split.
  - exists (concat (map frame_payload fs) ++ take k (frame_payload f)). rewrite B. split; [done|].
    rewrite payloads_snoc. apply prefix_app. rewrite <- (take_drop k (frame_payload f)) at 2. by apply prefix_app_r.
  - destruct R2 as [R2|R2]; [exists rows, (length fs)|exists rows, (length (fs ++ [f]))].
    + by rewrite take_app_length.
    + by rewrite firstn_all.
Qed.
Lemma write_payload_safe rc0 n rc fs f out1 rc1 w :
  saving rc0 rc fs -> zlen (frame_payload f) <= u32_max ->
  write_payload n (concat (map frame_payload fs)) rc (frame_payload f) (frame_kind f) = (out1, rc1, w) ->
  output_safe rc0 out1 rc1 (fs ++ [f]) /\
  (w = Ok tt -> out1 = concat (map frame_payload (fs ++ [f])) /\ saving rc0 rc1 (fs ++ [f])).
Proof using Type.
  intros H Hf E. unfold write_payload in E. destruct (so_short (out_at n)) as [m|] eqn:Es.
  - injection E as <- <- <-. split; [|done]. apply saving_safe in H as [_ H]. split.
    + rewrite payloads_snoc. apply prefix_app. rewrite <- (take_drop m (frame_payload f)) at 2. by apply prefix_app_r.
    + destruct rc0 as [r0|], rc as [r|]; try done. destruct H as [(sv & H1 & H2) (rows & k & H3 & H4)]. split.
      * exists sv. split; [done|]. by apply prefix_app_r.
      * exists rows, (k `min` length fs)%nat. split; [done|]. rewrite take_app_le by lia.
        by rewrite <- (firstn_all fs), take_take in H4.
  - destruct rc0 as [r0|], rc as [r|]; try done.
    + destruct (rec_append n r (frame_payload f) (frame_kind f)) as [r' w'] eqn:Ea. injection E as <- <- <-.
      apply (rec_append_outcome r0 n r fs f r' w' H Hf) in Ea as [Hp Ho]. rewrite <- payloads_snoc. split; [by apply partly_safe|].
      intros ->. split; [done|]. by apply Ho.
    + injection E as <- <- <-. rewrite <- payloads_snoc. split; [done|]. done.
Qed.

Lemma connect_loop_safe rc0 fuel : forall n s fs rc s' out' rc' r,
  saving rc0 rc fs -> (forall gs, received s gs -> Forall LogCmd.small gs) ->
  connect_loop fuel n s (concat (map frame_payload fs)) rc = Some (s', out', rc', r) ->
  exists gs, received s gs /\ output_safe rc0 out' rc' (fs ++ gs) /\ (r = Ok tt -> saving rc0 rc' (fs ++ gs) /\
    out' = concat (map frame_payload (fs ++ gs))).
Proof using Type.
  induction fuel as [|fuel IH]; intros n s fs rc s' out' rc' r Hs Hsm E; [done|]. cbn [connect_loop] in E.
  destruct (src_recv s) as [s1 [[f|]|e|]] eqn:Er; cycle 1.
  1-3: injection E as <- <- <- <-; exists []; rewrite app_nil_r;
    (split; [constructor|split; [by apply saving_safe|done]]).
  assert (Hf : zlen (frame_payload f) <= u32_max).
  { specialize (Hsm [f] (received_last _ _ _ Er)). by apply Forall_cons in Hsm as [? _]. }
  destruct (write_payload n _ rc (frame_payload f) (frame_kind f)) as [[out1 rc1] w] eqn:Ew.
  apply (write_payload_safe rc0 n rc fs f out1 rc1 w Hs Hf) in Ew as [Hsafe Hok].
  assert (Hstop : forall s2 (r' : res ConnectError unit), r' <> Ok tt \/ w = Ok tt -> Some (s2, out1, rc1, r') = Some (s', out', rc', r) ->
    exists gs, received s gs /\ output_safe rc0 out' rc' (fs ++ gs) /\ (r = Ok tt -> saving rc0 rc' (fs ++ gs) /\
      out' = concat (map frame_payload (fs ++ gs)))).
  { intros s2 r' Hr [= <- <- <- <-]. exists [f]. split; [by eapply received_last|]. split; [done|]. intros ->.
    destruct Hr as [?|Hw]; [done|]. by destruct (Hok Hw). }
  destruct w as [[]|e|]; [|eapply Hstop; [|exact E]; by left..].
  destruct (Hok eq_refl) as [-> Hs1].
  destruct (negb (so_flushes (out_at n))); [eapply Hstop; [|exact E]; by left|].
  destruct (recv_ctl s1) as [s2 [c|e|]] eqn:Ec; [|eapply Hstop; [|exact E]; by left..].
  destruct (LogCmd.ends c); [eapply Hstop; [|exact E]; by right|].
  apply (IH _ _ (fs ++ [f])) in E as (gs & Hg & Ho & Hr); [|done|].
  - exists (f :: gs). split; [by eapply received_more|]. by rewrite <- (assoc_L (++)) in Ho, Hr.
  - intros gs Hg. specialize (Hsm (f :: gs) (received_more _ _ _ _ _ _ Er Ec Hg)). by apply Forall_cons in Hsm as [_ ?].
Qed.

Lemma finish_safe rc0 last drop_at s out rc r fs s' out' rc' r' :
  output_safe rc0 out rc fs -> (r = Ok tt -> saving rc0 rc fs /\ out = concat (map frame_payload fs)) ->
  connect_finish last drop_at s out rc r = (s', out', rc', r') -> output_safe rc0 out' rc' fs.
Proof using Type.
  assert (Hdrop : forall rc, output_safe rc0 out rc fs -> output_safe rc0 out (rec_drop drop_at <$> rc) fs).
  { intros rc1 [Ho H]. split; [done|]. destruct rc0 as [r0|], rc1 as [r1|]; try done. cbn [fmap option_fmap option_map].
    unfold rec_drop. cbn [cr_raw cr_index inner]. by rewrite !SessionDir.stream_flush. }
  intros Ho Hr E. unfold connect_finish in E. destruct r as [[]|e|]; [|injection E as <- <- <- <-; by apply Hdrop..].
  destruct (Hr eq_refl) as [Hs ->].
  destruct (match rc with Some c => _ | None => _ end) as [rc1 w] eqn:Ew.
  assert (H1 : output_safe rc0 (concat (map frame_payload fs)) rc1 fs).
  { apply saving_safe. destruct rc0 as [r0|], rc as [r1|]; try done; [|by injection Ew as <- <-].
    pose proof (rec_flush_holds r0 last r1 fs Hs) as Hf. destruct (rec_flush last r1) as [r2 w2].
    by injection Ew as <- <-. }
  apply Hdrop in H1. destruct w as [[]|e|]; [|by injection E as <- <- <- <-..].
  destruct (src_close s) as [s1 [[]|e|]]; by injection E as <- <- <- <-.
Qed.

(** The target a saved session starts from. *)
Lemma recorder_create_starts t io spec encoding sid m r : recorder_create t io spec encoding sid = Ok (m, r) ->
  holds r r [] /\ cr_count r = 0 /\
  match t with Directory d => sd_listable d = true -> sd_entries d = [] | NotDirectory => False | Missing => stream (inner (cr_raw r)) = [] end.
Proof using Type.
  unfold recorder_create. intros (d & Hd & H)%bind_Ok. destruct (negb (ci_dir io)); [done|].
  destruct (negb _); [done|]. injection H as <- <-. split; [|split; [done|]].
  - split; [done|]. split; [done|]. split; cbn [cr_raw cr_index raw_create inner pos map concat]; unfold stream; cbn [disk buffered];
      rewrite ?app_nil_r; [done..|]. exists []. by rewrite app_nil_r.
  - destruct t as [| |d']; [by injection Hd as <-|done|]. intros Hl. rewrite Hl in Hd. cbn [andb] in Hd.
    by destruct (sd_entries d').
Qed.


(** ** A run in which nothing fails *)
Definition calm_disk (d : LogCmd.DiskAt) : Prop :=
  LogCmd.healthy d /\ LogCmd.d_flush_raw d = None /\ LogCmd.d_flush_index d = None.
Definition calm_out (o : StdoutAt) : Prop := so_short o = None /\ so_flushes o = true.
Lemma rec_flush_ok d r : calm_disk d -> snd (rec_flush d r) = Ok tt.
Proof using Type. intros (_ & H1 & H2). unfold rec_flush. by rewrite H1, H2. Qed.

Lemma rec_append_ok rc0 n r fs f : holds rc0 r fs -> cr_count r = zlen fs -> calm_disk (disk_at n) -> LogCmd.small f ->
  zlen (stream (inner (cr_raw rc0)) ++ concat (map frame_payload (fs ++ [f]))) <= u64_max -> zlen fs < u64_max ->
  exists r', rec_append n r (frame_payload f) (frame_kind f) = (r', Ok tt) /\ cr_count r' = zlen (fs ++ [f]).
Proof using Type.
  intros (_ & _ & HR) Hc Hd Hf Hu Hn. pose proof Hd as ([Hs Hi] & H1 & H2). unfold rec_append.
  pose proof (recorded_pos _ _ _ _ _ _ HR). pose proof (rec_pos _ _ _ _ _ _ HR) as Hp.
  pose proof (rec_bytes _ _ _ _ _ _ HR) as Hb. unfold LogCmd.small in Hf. pose proof (zlen_nonneg fs).
  rewrite payloads_snoc, (assoc_L (++)), <- Hb, zlen_app, <- Hp in Hu.
  rewrite Hs, raw_append_ok, Hi, Hc, checked_ok by lia. rewrite zlen_app. case_if; [|eexists; split; done].
  unfold rec_flush. rewrite H1, H2. cbn. eexists. split; done.
Qed.
Definition counted (rc : option ConnectRecorder) (fs : list Frame) : Prop :=
  match rc with Some r => cr_count r = zlen fs | None => True end.
Definition base_of (rc0 : option ConnectRecorder) : list Z :=
  match rc0 with Some r => stream (inner (cr_raw r)) | None => [] end.
Lemma write_payload_ok rc0 n rc fs f : saving rc0 rc fs -> counted rc fs ->
  calm_disk (disk_at n) -> so_short (out_at n) = None -> LogCmd.small f ->
  zlen (base_of rc0 ++ concat (map frame_payload (fs ++ [f]))) <= u64_max -> zlen fs < u64_max ->
  exists rc1, write_payload n (concat (map frame_payload fs)) rc (frame_payload f) (frame_kind f) =
    (concat (map frame_payload (fs ++ [f])), rc1, Ok tt) /\ saving rc0 rc1 (fs ++ [f]) /\ counted rc1 (fs ++ [f]).
Proof using Type.
  intros H Hc Hd Hs Hf Hu Hn. unfold write_payload. rewrite Hs.
  destruct rc0 as [r0|], rc as [r|]; try done; [|eexists; split; [by rewrite payloads_snoc|done]].
  destruct (rec_append_ok r0 n r fs f H Hc Hd Hf Hu Hn) as (r' & E & Hc'). rewrite E. eexists.
  split; [by rewrite payloads_snoc|].
  destruct (rec_append_outcome r0 n r fs f r' _ H Hf E) as [_ Ho]. split; [by apply Ho|done].
Qed.

Lemma connect_loop_talks rc0 s gs s2 : LogCmd.talks recv_ctl s gs s2 -> forall fuel n fs rc, (length gs < fuel)%nat ->
  saving rc0 rc fs -> counted rc fs -> (forall i, calm_disk (disk_at i)) -> (forall i, calm_out (out_at i)) ->
  Forall LogCmd.small gs -> zlen (base_of rc0 ++ concat (map frame_payload (fs ++ gs))) <= u64_max -> zlen (fs ++ gs) <= u64_max ->
  exists rc', connect_loop fuel n s (concat (map frame_payload fs)) rc =
    Some (s2, concat (map frame_payload (fs ++ gs)), rc', Ok tt) /\ saving rc0 rc' (fs ++ gs).
Proof using Type.
  assert (Hpre : forall fs f gs, zlen (base_of rc0 ++ concat (map frame_payload (fs ++ f :: gs))) <= u64_max ->
    zlen (fs ++ f :: gs) <= u64_max ->
    zlen (base_of rc0 ++ concat (map frame_payload (fs ++ [f]))) <= u64_max /\ zlen fs < u64_max).
  { clear. intros fs f gs Ha Hb. rewrite !map_app, !concat_app in *. cbn in *. rewrite !zlen_app, ?zlen_cons in *.
    pose proof (zlen_nonneg gs). pose proof (zlen_nonneg (concat (map frame_payload gs))). rewrite zlen_nil. lia. }
  induction 1 as [s s' E|s f s1 c s2 E Ec He|s f s1 c s2 gs s3 E Ec He _ IH];
    intros [|fuel] n fs rc Hf Hs Hc Hd Ho HF Hu Hv; cbn in Hf; try lia; cbn [connect_loop]; rewrite E.
  - exists rc. by rewrite app_nil_r.
  - apply Forall_cons in HF as [Hm _]. destruct (Hpre _ _ _ Hu Hv) as [P1 P2]. destruct (Ho n) as [O1 O2].
    destruct (write_payload_ok rc0 n rc fs f Hs Hc (Hd n) O1 Hm P1 P2) as (rc1 & -> & Hs1 & _).
    rewrite O2, Ec, He. cbn. eauto.
  - apply Forall_cons in HF as [Hm HF]. destruct (Hpre _ _ _ Hu Hv) as [P1 P2]. destruct (Ho n) as [O1 O2].
    destruct (write_payload_ok rc0 n rc fs f Hs Hc (Hd n) O1 Hm P1 P2) as (rc1 & -> & Hs1 & Hc1).
    rewrite O2, Ec, He. cbn [negb]. rewrite (cons_middle f fs gs), (app_assoc fs [f] gs) in Hu, Hv |- *. apply IH; [lia|done..].
Qed.

(** A run of [connect] in which nothing fails shows every payload, in order and
    unchanged, and ends well; and the session it saves in a new directory
    replays to what was shown, with one row per frame. *)
Theorem connect_copies fuel s spec encoding sid io last drop_at s1 fs s2 s3 vfs path :
  src_open s = (s1, Ok tt) -> LogCmd.talks recv_ctl s1 fs s2 -> src_close s2 = (s3, Ok tt) -> (length fs < fuel)%nat ->
  (forall i, calm_disk (disk_at i)) -> (forall i, calm_out (out_at i)) -> calm_disk last -> Forall LogCmd.small fs ->
  zlen (concat (map frame_payload fs)) <= u64_max -> zlen fs <= u64_max -> io = mkCreateIo true true true true ->
  let shown := concat (map frame_payload fs) in
  connect_run fuel s spec encoding sid None last drop_at = Some (s3, shown, None, Ok tt) /\
  exists m c0 c, recorder_create Missing io spec encoding sid = Ok (m, c0) /\
    connect_run fuel s spec encoding sid (Some (Missing, io)) last drop_at = Some (s3, shown, Some c, Ok tt) /\
    disk (inner (cr_raw c)) = shown /\ Forall2 (row_for (about c0) shown) (disk (cr_index c)) fs /\
    (vfs path = log_dir (disk (inner (cr_raw c))) (disk (cr_index c)) ->
     exists r frames r' r'',
       replay_open vfs (replay_new path) = (r, Ok tt) /\
       @recv_all _ (ReplaySource_source vfs) (Datatypes.S (length fs)) r = Some (frames, r') /\
       map frame_payload frames = map frame_payload fs /\ replay_recv_ctl r' = (r'', Ok (Some Eof))).
Proof using Type.
  intros Ho Ht Hcl Hf Hd Hout Hl HF Hu Hv -> shown. unfold connect_run. rewrite Ho. split.
  { destruct (connect_loop_talks None s1 fs s2 Ht fuel 0 [] None Hf I I Hd Hout HF Hu Hv) as (rc' & E & Hs).
    cbn [app map concat] in *. rewrite E. destruct rc'; [done|]. unfold connect_finish. by rewrite Hcl. }
  destruct (recorder_create Missing _ spec encoding sid) as [[m c0]|e|] eqn:Ec; [|done..].
  destruct (recorder_create_starts _ _ _ _ _ _ _ Ec) as (H0 & Hc0 & Hb0).
  assert (Hi0 : stream (cr_index c0) = []) by (unfold recorder_create in Ec; cbn in Ec; by injection Ec as <- <-).
  destruct (connect_loop_talks (Some c0) s1 fs s2 Ht fuel 0 [] (Some c0) Hf H0 Hc0 Hd Hout HF) as (rc' & E & Hs);
    [cbn [base_of]; by rewrite Hb0|done|].
  cbn [app map concat] in *. rewrite E. destruct rc' as [c1|]; [|done]. unfold connect_finish.
  pose proof (rec_flush_ok last c1 Hl) as Hfl. pose proof (rec_flush_holds c0 last c1 fs Hs) as Hh.
  destruct (rec_flush last c1) as [c2 w] eqn:Er. cbn [snd fst] in *. subst w. rewrite Hcl.
  exists m, c0, (rec_drop drop_at c2). split; [done|]. split; [done|].
  assert (Hbuf : buffered (inner (cr_raw c2)) = [] /\ buffered (cr_index c2) = []).
  { destruct Hl as (_ & L1 & L2). unfold rec_flush in Er. rewrite L1, L2 in Er. cbn in Er. by injection Er as <-. }
  assert (Hdk : disk (inner (cr_raw (rec_drop drop_at c2))) = stream (inner (cr_raw c2)) /\
                disk (cr_index (rec_drop drop_at c2)) = stream (cr_index c2)).
  { destruct Hbuf as [B1 B2]. unfold rec_drop, w_flush, stream. cbn. rewrite B1, B2.
    destruct (LogCmd.d_flush_raw drop_at), (LogCmd.d_flush_index drop_at); cbn; by rewrite ?take_nil. }
  destruct Hdk as [-> ->]. destruct Hh as (_ & _ & [B _ (rows & R1 & R2)]). rewrite Hb0 in B. rewrite Hi0 in R1. cbn [app] in *.
  rewrite B in R2 |- *. rewrite R1. fold shown in R2 |- *. split; [done|]. split; [done|]. by apply rows_replay with (1 := R2).
Qed.
End Run.
End Connect.

(** ** log: from the options to the session directory *)
Module LogSetup.
Record Options := mkOptions {
  o_spec : list Z; o_prefix : option (list Z); o_name_pattern : option (list Z); o_encoding : list Z;
  o_classify : list (list Z); o_classify_regex : list (list Z) }.
Record MetaToml := mkMetaToml {
  lm_prefix : list Z; lm_spec : ChannelSpec; lm_sid : Z; lm_started : list Z; lm_decoder : list Z; lm_encoding : list Z }.
Inductive SetupError := BadSpec (e : SpecError) | BadRules (e : LogCmd.LogError) | NoDirectory | NoMeta.

Section Setup.
  Context (build_regex : list Z -> bool -> option (list Z -> Z)).
(** [stamp] is the compact form of the current time and [rfc3339] its long one;
    [mkdir] and [meta] say whether making the directory and its description work. *)
Definition log_setup (o : Options) (stamp : list Z) (rfc3339 : option (list Z)) (unix_ns sid : Z) (mkdir meta : bool)
  : res SetupError (list Z * MetaToml * LogClassifier) :=
  let* s := map_err BadSpec (parse (o_spec o)) in
  let prefix := default (lit "tracemux") (o_prefix o) in
  let* classifier := map_err BadRules (LogCmd.classifier_from_specs build_regex (o_classify o) (o_classify_regex o)) in
  let dir_name := SessionName.render_session_name (default SessionName.DEFAULT_CLI_SESSION_NAME_PATTERN (o_name_pattern o))
                    (SessionName.mkParts prefix (kind_tag s) (iface_tag s) stamp unix_ns) in
  if negb mkdir then Err NoDirectory else
  let encoding := LogCmd.normalized_encoding (o_encoding o) in
  if negb meta then Err NoMeta
  else Ok (dir_name, mkMetaToml prefix s sid (default stamp rfc3339) (lit "utf8-text:" ++ encoding) encoding, classifier).

(** Whatever the options say, the directory is one safe path component, so a
    recording never leaves the working directory; and nothing is made before
    the specification and all rules have been accepted. *)
Theorem log_dir_safe o stamp rfc3339 ns sid mkdir meta dir m c :
  log_setup o stamp rfc3339 ns sid mkdir meta = Ok (dir, m, c) ->
  SessionName.safe_name dir /\ parse (o_spec o) = Ok (lm_spec m) /\
  LogCmd.classifier_from_specs build_regex (o_classify o) (o_classify_regex o) = Ok c.
Proof.
  unfold log_setup. intros (s & Hs & H)%bind_Ok. apply bind_Ok in H as (c' & Hc & H).
  destruct (negb mkdir); [done|]. destruct (negb meta); [done|]. injection H as <- <- <-.
  split; [apply SessionName.sanitize_safe|]. cbn. destruct (parse (o_spec o)) as [s'|e|]; [injection Hs as ->|done..].
  split; [done|]. by destruct (LogCmd.classifier_from_specs _ _ _) as [?|?|]; [injection Hc as ->|..].
Qed.
End Setup.
End LogSetup.

(** ** Witnesses *)
Definition connect_frames0 : list Frame := [FBytes [1; 2]; FDatagram None [3]; FBytes [4]].
Definition calm0 : nat -> LogCmd.DiskAt := fun _ => LogCmd.calm.
Definition out0 : nat -> Connect.StdoutAt := fun _ => Connect.mkStdout None true.
Definition all_ok : Connect.CreateIo := Connect.mkCreateIo true true true true.
Definition no_ctl : MockSource -> MockSource * result (option ControlEvt) := fun s => (s, Ok None).

Lemma mock_small gs : Connect.received no_ctl (mkMock connect_frames0 (lit "m")) gs -> Forall LogCmd.small gs.
Proof.
  assert (H : forall (m : MockSource) gs, Forall LogCmd.small (queue m) -> Connect.received no_ctl m gs -> Forall LogCmd.small gs).
  { intros m fs Hm Hr. induction Hr as [s|s f s1 E|s f s1 c s2 fs E Ec _ IH]; [done|..];
      destruct s as [[|g q] t]; cbn in E; simplify_eq; cbn in Hm; apply Forall_cons in Hm as [? ?].
    - by constructor.
    - constructor; [done|]. unfold no_ctl in Ec. simplify_eq. by apply IH. }
  apply H. repeat constructor; vm_compute; discriminate.
Qed.

(** Standard output fails at the second payload. *)
Definition out1 : nat -> Connect.StdoutAt := fun n => Connect.mkStdout (if decide (n = 1%nat) then Some 0%nat else None) true.
Definition connect_result1 := Connect.connect_run no_ctl (fun _ => None) (fun _ => 0) calm0 out1 9 (mkMock connect_frames0 (lit "m"))
  (Mock (lit "m")) (lit "utf-8") 7 (Some (Connect.Missing, all_ok)) LogCmd.calm LogCmd.calm.

Lemma connect_copies_witness :
  Connect.connect_run no_ctl (fun _ => None) (fun _ => 0) calm0 out0 9 (mkMock connect_frames0 (lit "m"))
    (Mock (lit "m")) (lit "utf-8") 7 None LogCmd.calm LogCmd.calm = Some (mkMock [] (lit "m"), [1; 2; 3; 4], None, Ok tt).
Proof.
  apply (Connect.connect_copies no_ctl (fun _ => None) (fun _ => 0) calm0 out0 9 (mkMock connect_frames0 (lit "m")) (Mock (lit "m"))
    (lit "utf-8") 7 all_ok LogCmd.calm LogCmd.calm (mkMock connect_frames0 (lit "m")) connect_frames0 (mkMock [] (lit "m"))
    (mkMock [] (lit "m")) (fun _ => log_dir [] []) (lit "log")); try done.
  - repeat (eapply LogCmd.talks_frame; [reflexivity|reflexivity|reflexivity|]). apply LogCmd.talks_end. reflexivity.
  - cbn. lia.
  - repeat constructor; vm_compute; discriminate.
Defined.

(** Finding: a directory that cannot be listed counts as empty, and the session
    in it is appended to. *)
Theorem unlistable_save_appended d io spec encoding sid :
  Connect.sd_listable d = false -> io = all_ok ->
  exists m r, Connect.recorder_create (Connect.Directory d) io spec encoding sid = Ok (m, r) /\
    disk (inner (Connect.cr_raw r)) = Connect.sd_raw d /\ disk (Connect.cr_index r) = Connect.sd_index d.
Proof. intros Hd ->. unfold Connect.recorder_create. rewrite Hd. cbn. eauto. Qed.
Lemma unlistable_save_appended_witness : exists m r,
  Connect.recorder_create (Connect.Directory (Connect.mkSaveDir [lit "raw.bin"] false [1; 2] [])) all_ok (Mock (lit "m")) (lit "utf-8") 7 = Ok (m, r) /\
  disk (inner (Connect.cr_raw r)) = [1; 2] /\ disk (Connect.cr_index r) = [].
Proof.
  apply (unlistable_save_appended (Connect.mkSaveDir [lit "raw.bin"] false [1; 2] []) all_ok (Mock (lit "m")) (lit "utf-8") 7); reflexivity.
Defined.
Lemma log_dir_safe_witness :
  let o := LogSetup.mkOptions (lit "mock://m") (Some (lit "../x")) None (lit " UTF-8 ") [lit "err=bad"] [] in
  exists dir m c, LogSetup.log_setup (fun _ _ => None) o (lit "20240102-030405") None 5 7 true true = Ok (dir, m, c) /\ SessionName.safe_name dir.
Proof.
  eexists _, _, _. split; [vm_compute; reflexivity|].
  eapply (LogSetup.log_dir_safe (fun _ _ => None) (LogSetup.mkOptions (lit "mock://m") (Some (lit "../x")) None (lit " UTF-8 ") [lit "err=bad"] [])
    (lit "20240102-030405") None 5 7 true true). vm_compute. reflexivity.
Defined.
