(* ===== verification/VirtPeer.v ===== *)
(** * The virtual peer: scenarios, transcripts and its transports

    tools/virt-peer/src: scenario.rs (what a peer sends and how it answers),
    transcript.rs (the JSON lines it keeps), transport/tcp.rs and
    transport/serial.rs, and the options of main.rs.  A peer runs a script and
    a reader that share the writing half behind a lock that is held for one
    chunk; the scheduler's choices are the steps of [Peer.step].  What the
    operating system answers to reads, and whether writes succeed, is given. *)
From stdpp Require Import base numbers strings relations list.
From S2P Require Import Prelude Text.

Local Open Scope Z_scope.
Local Open Scope tm_scope.

(** ** scenario.rs; durations are milliseconds *)
Inductive Eol := EolNone | Lf | Crlf.
Definition append_eol (e : Eol) (bytes : list Z) : list Z :=
  match e with EolNone => bytes | Lf => bytes ++ [10] | Crlf => bytes ++ [13; 10] end.
Record ScenarioConfig := mkScenarioConfig {
  sc_text : list (list Z); sc_hex : list (list Z); sc_repeat : Z; sc_initial_delay_ms : Z; sc_interval_ms : Z; sc_eol : Eol;
  sc_chunk_size : option Z; sc_echo : bool; sc_ack_prefix : list Z; sc_read_chunk : Z; sc_idle_timeout_ms : option Z }.
Record Scenario := mkScenario {
  payloads : list (list Z); repeat_ : Z; initial_delay : Z; interval : Z; chunk_size : option Z; echo : bool;
  ack_prefix : list Z; read_chunk : Z; idle_timeout : option Z }.
Inductive ScenarioError := ReadChunkZero | ChunkSizeZero | OddDigits | InvalidHexByte.

(** Slicing two bytes at a time; a slice inside a character panics. *)
Fixpoint parse_hex_loop (fuel : nat) (s : list Z) : res ScenarioError (list Z) :=
  match fuel with
  | O => Ok []
  | S fuel' =>
      match s with
      | [] => Ok []
      | _ =>
          match split_at_byte 2 s with
          | None => Panic
          | Some (pair_, rest) =>
              let* b := ok_or (parse_unsigned 16 255 pair_) InvalidHexByte in
              let* bs := parse_hex_loop fuel' rest in
              Ok (b :: bs)
          end
      end
  end.
Definition parse_hex (input : list Z) : res ScenarioError (list Z) :=
  let compact := List.filter (fun c => negb (is_whitespace c) && negb ((c =? 95) || (c =? 45)))
    (default input (strip_prefix (lit "0x") input)) in
  if negb (str_len compact mod 2 =? 0) then Err OddDigits else parse_hex_loop (length compact) compact.

Fixpoint parse_all (hs : list (list Z)) : res ScenarioError (list (list Z)) :=
  match hs with [] => Ok [] | h :: hs' => let* b := parse_hex h in let* bs := parse_all hs' in Ok (b :: bs) end.
Definition from_config (c : ScenarioConfig) : res ScenarioError Scenario :=
  if sc_read_chunk c =? 0 then Err ReadChunkZero
  else if bool_decide (sc_chunk_size c = Some 0) then Err ChunkSizeZero
  else
    let* hexes := parse_all (sc_hex c) in
    Ok (mkScenario (map (fun t => append_eol (sc_eol c) (utf8 t)) (sc_text c) ++ hexes) (sc_repeat c)
          (sc_initial_delay_ms c) (sc_interval_ms c) (sc_chunk_size c) (sc_echo c) (utf8 (sc_ack_prefix c)) (sc_read_chunk c)
          (sc_idle_timeout_ms c)).
Definition scripted_payloads (s : Scenario) : list (list Z) :=
  concat (replicate (Z.to_nat (repeat_ s)) (payloads s)).
(** [slice::chunks]. *)
Fixpoint slice_chunks (fuel size : nat) (l : list Z) : list (list Z) :=
  match fuel, l with
  | S fuel', _ :: _ => take size l :: slice_chunks fuel' size (drop size l)
  | _, _ => []
  end.
Definition peer_chunks (s : Scenario) (payload : list Z) : list (list Z) :=
  match chunk_size s with
  | Some size => slice_chunks (length payload) (Z.to_nat size) payload
  | None => [payload]
  end.
Definition echo_payload (s : Scenario) (inbound : list Z) : option (list Z) :=
  if echo s then Some (ack_prefix s ++ inbound) else None.

(** Finding: the virtual peer takes a sign for a hexadecimal digit, and panics on a
    payload whose bytes two by two do not end on characters. *)
Theorem peer_hex_sign_and_panic d c :
  digit_val 16 d = Some (d - 48) -> is_digit d = true -> 0x800 <= c < 0xD800 -> is_whitespace c = false ->
  parse_hex [43; d] = Ok [d - 48] /\ parse_hex [c; 48] = Panic.
Proof.
  intros Hd Hdig Hc Hw. assert (Hdr : 48 <= d <= 57) by (apply in_range_spec in Hdig; lia). split.
  - unfold parse_hex. change (strip_prefix (lit "0x") [43; d]) with (@None (list Z)). cbn [default from_option Datatypes.id].
    assert (Hwd : is_whitespace d = false) by (unfold is_whitespace; decide_ranges; done).
    cbn [List.filter]. rewrite Hwd. rewrite (proj2 (Z.eqb_neq d 95)), (proj2 (Z.eqb_neq d 45)) by lia. cbn [negb orb andb].
    change (is_whitespace 43) with false. cbn [negb orb andb Z.eqb Pos.eqb].
    assert (Hl : utf8_char d = [d]) by (unfold utf8_char; by rewrite (proj2 (Z.ltb_lt d 128)) by lia).
    unfold str_len, utf8. cbn [map concat]. rewrite Hl. change (utf8_char 43) with [43]. cbn [app].
    change (negb (zlen [43; d] mod 2 =? 0)) with false. cbv iota.
    assert (Hsplit : split_at_byte 2 [43; d] = Some ([43; d], [])) by (cbn [split_at_byte]; rewrite Hl; done).
    assert (Hp : parse_unsigned 16 255 [43; d] = Some (d - 48)).
    { unfold parse_unsigned. cbn [parse_digits]. rewrite Hd. cbv iota.
      rewrite (proj2 (Z.leb_le _ 255)) by lia. done. }
    cbn [length parse_hex_loop]. by rewrite Hsplit, Hp.
  - unfold parse_hex. assert (Hsp : strip_prefix (lit "0x") [c; 48] = None).
    { change (lit "0x") with [48; 120]. cbn [strip_prefix]. by rewrite (proj2 (Z.eqb_neq 48 c)) by lia. }
    rewrite Hsp. cbn [default from_option Datatypes.id List.filter]. rewrite Hw.
    rewrite (proj2 (Z.eqb_neq c 95)), (proj2 (Z.eqb_neq c 45)) by lia. change (is_whitespace 48) with false.
    cbn [negb orb andb Z.eqb Pos.eqb].
    assert (Hl : zlen (utf8_char c) = 3) by (unfold utf8_char; decide_ranges; done).
    unfold str_len, utf8. cbn [map concat]. rewrite app_nil_r, zlen_app, Hl. change (zlen (utf8_char 48)) with 1.
    change (negb ((3 + 1) mod 2 =? 0)) with false. cbv iota. cbn [length parse_hex_loop split_at_byte]. by rewrite Hl.
Qed.
Lemma peer_hex_sign_and_panic_witness : parse_hex (lit "+5") = Ok [5] /\ parse_hex [0x3042; 48] = Panic.
Proof. apply (peer_hex_sign_and_panic 53 0x3042); [reflexivity|reflexivity|lia|reflexivity]. Defined.

(** The peer sends a payload whole, in pieces of at most the configured size. *)
Theorem peer_chunks_whole s payload :
  (forall n, chunk_size s = Some n -> 0 < n) ->
  concat (peer_chunks s payload) = payload /\
  forall n, chunk_size s = Some n -> Forall (fun c => 0 < zlen c <= n) (peer_chunks s payload).
Proof.
  intros Hn. unfold peer_chunks. destruct (chunk_size s) as [n|]; [|split; [apply app_nil_r|done]].
  specialize (Hn n eq_refl).
  assert (H : forall fuel l, (length l <= fuel)%nat ->
    concat (slice_chunks fuel (Z.to_nat n) l) = l /\ Forall (fun c => 0 < zlen c <= n) (slice_chunks fuel (Z.to_nat n) l)).
  { induction fuel as [|fuel IH]; intros [|x l] Hl; try (by split); [cbn in Hl; lia|]. cbn [slice_chunks].
    destruct (IH (drop (Z.to_nat n) (x :: l))) as [H1 H2]; [rewrite length_drop; cbn [length] in *; lia|].
    cbn [concat]. rewrite H1, take_drop. split; [done|]. constructor; [|done].
    unfold zlen. rewrite length_take. cbn [length]. lia. }
  destruct (H (length payload) payload) as [H1 H2]; [done|]. split; [done|]. by intros m [= <-].
Qed.
Lemma peer_chunks_whole_witness :
  let s := mkScenario [[1; 2; 3]] 1 0 0 (Some 2) false [] 1 None in
  concat (peer_chunks s [1; 2; 3]) = [1; 2; 3] /\
  forall n, chunk_size s = Some n -> Forall (fun c => 0 < zlen c <= n) (peer_chunks s [1; 2; 3]).
Proof. apply (peer_chunks_whole (mkScenario [[1; 2; 3]] 1 0 0 (Some 2) false [] 1 None) [1; 2; 3]). intros n [= <-]. lia. Defined.

(** ** transcript.rs *)
Module Transcript.
Inductive Direction := In | Out | Event.
Record Row := mkRow {
  transport : list Z; direction : Direction; peer : option (list Z); len : Z; bytes_hex : list Z;
  text : option (list Z); event : option (list Z) }.
Definition hex_digit (n : Z) : Z := if n <? 10 then 48 + n else 87 + n.
Definition hex (bytes : list Z) : list Z :=
  concat (map (fun b => [hex_digit (Z.shiftr b 4); hex_digit (Z.land b 15)]) bytes).
Definition bytes_row (tr : list Z) (d : Direction) (p : option (list Z)) (bytes : list Z) : Row :=
  mkRow tr d p (zlen bytes) (hex bytes) (from_utf8 bytes) None.
Definition event_row (tr : list Z) (p : option (list Z)) (e : list Z) : Row :=
  mkRow tr Event p 0 [] None (Some e).

(** Reading the digits back. *)
Definition hex_value (c : Z) : Z := if c <? 58 then c - 48 else c - 87.
Fixpoint unhex (s : list Z) : list Z :=
  match s with a :: b :: s' => (16 * hex_value a + hex_value b) :: unhex s' | _ => [] end.
Lemma hex_digit_value n : 0 <= n < 16 -> hex_value (hex_digit n) = n.
Proof.
  intros H. unfold hex_digit, hex_value. destruct (Z.ltb_spec n 10).
  - rewrite (proj2 (Z.ltb_lt _ _)) by lia. lia.
  - rewrite (proj2 (Z.ltb_ge _ _)) by lia. lia.
Qed.
(** A row names exactly the bytes it was written for. *)
Theorem hex_unhex bytes : Forall (fun b => 0 <= b < 256) bytes -> unhex (hex bytes) = bytes.
Proof.
  induction 1 as [|b bs Hb _ IH]; [done|]. unfold hex. cbn [map concat app unhex].
  fold (hex bs). rewrite IH. f_equal. rewrite Z.shiftr_div_pow2 by lia.
  assert (Hl : Z.land b 15 = b mod 16) by (change 15 with (Z.ones 4); by rewrite Z.land_ones by lia).
  rewrite Hl. change (2 ^ 4) with 16. pose proof (Z.div_mod b 16 ltac:(lia)). pose proof (Z.mod_pos_bound b 16 ltac:(lia)).
  rewrite !hex_digit_value; [lia|lia|]. split; [apply Z.div_pos; lia|apply Z.div_lt_upper_bound; lia].
Qed.
Lemma hex_unhex_witness : unhex (hex [0; 10; 255]) = [0; 10; 255].
Proof. apply (hex_unhex [0; 10; 255]). repeat constructor; done. Defined.
End Transcript.

(** ** transport/tcp.rs and transport/serial.rs *)
Module Peer.
(** What a read of the port or stream gives. *)
Inductive ReadEvent := Bytes (b : list Z) | Zero | TimedOut (idle : bool) | ReadFails.
(** What the reading loop does then. *)
Inductive After := Got (b : list Z) | Ends (event : list Z) | Again | Broken.
(** [read_loop]: end of stream is zero bytes; the timer runs only when set. *)
Definition tcp_after (idle_timeout : option Z) (e : ReadEvent) : After :=
  match e with
  | Bytes b => Got b
  | Zero => Ends (lit "eof")
  | TimedOut _ => match idle_timeout with Some _ => Ends (lit "idle-timeout") | None => Again end
  | ReadFails => Broken
  end.
(** [read_loop_blocking]: zero bytes are nothing; a timed-out read ends the loop
    when nothing has come for the idle time. *)
Definition serial_after (idle_timeout : option Z) (e : ReadEvent) : After :=
  match e with
  | Bytes b => Got b
  | Zero => Again
  | TimedOut idle => match idle_timeout with Some _ => if idle then Ends (lit "idle-timeout") else Again | None => Again end
  | ReadFails => Broken
  end.

Inductive Author := Script | Reader.
#[export] Instance Author_eq_dec : EqDecision Author.
Proof. solve_decision. Defined.
(** [write_payload]: chunks to write, or a written chunk still to be recorded. *)
Inductive Writing := WChunks (cs : list (list Z)) | WRecord (c : list Z) (cs : list (list Z)).
Inductive ScriptPc := SPayload (ps : list (list Z)) | SWriting (w : Writing) (ps : list (list Z)) | SDone | SFailed.
Inductive ReaderPc := RReading | RInbound (b : list Z) | RWriting (w : Writing) | RStop (e : list Z) | RDone | RFailed.
(** [wire] and [rows] are what was written, in order, by whom. *)
Record St := mkSt {
  wire : list (Author * list Z); rows : list (Author * Transcript.Row); script : ScriptPc; reader : ReaderPc; reads : list ReadEvent }.
(** A write of bytes or of a row succeeds, or stops after [k] bytes. *)
Inductive Io := Fine | Short (k : nat).

Section Peer.
  Context (after : ReadEvent -> After) (sc : Scenario) (transport peer : list Z).

Definition out_row (c : list Z) : Transcript.Row := Transcript.bytes_row transport Transcript.Out (Some peer) c.
Definition in_row (c : list Z) : Transcript.Row := Transcript.bytes_row transport Transcript.In (Some peer) c.
Definition event_row (e : list Z) : Transcript.Row := Transcript.event_row transport (Some peer) e.

(** One step of the writing loop; [None] when it is through with its chunks. *)
Definition write_step (a : Author) (io : Io) (w : Writing) (wi : list (Author * list Z)) (ro : list (Author * Transcript.Row))
  : option (list (Author * list Z) * list (Author * Transcript.Row) * option Writing) :=
  match w, io with
  | WChunks [], _ => None
  | WChunks (c :: cs), Fine => Some (wi ++ [(a, c)], ro, Some (WRecord c cs))
  | WChunks (c :: cs), Short k => Some (wi ++ [(a, take k c)], ro, None)
  | WRecord c cs, Fine => Some (wi, ro ++ [(a, out_row c)], Some (WChunks cs))
  | WRecord c cs, Short _ => Some (wi, ro, None)
  end.
Definition script_step (io : Io) (s : St) : option St :=
  match script s with
  | SPayload [] => Some (mkSt (wire s) (rows s) SDone (reader s) (reads s))
  | SPayload (p :: ps) => Some (mkSt (wire s) (rows s) (SWriting (WChunks (peer_chunks sc p)) ps) (reader s) (reads s))
  | SWriting w ps =>
      match write_step Script io w (wire s) (rows s) with
      | None => Some (mkSt (wire s) (rows s) (SPayload ps) (reader s) (reads s))
      | Some (wi, ro, Some w') => Some (mkSt wi ro (SWriting w' ps) (reader s) (reads s))
      | Some (wi, ro, None) => Some (mkSt wi ro SFailed (reader s) (reads s))
      end
  | SDone | SFailed => None
  end.
Definition reader_step (io : Io) (s : St) : option St :=
  match reader s with
  | RReading =>
      match reads s with
      | [] => None
      | e :: es =>
          let pc := match after e with Got b => RInbound b | Ends ev => RStop ev | Again => RReading | Broken => RFailed end in
          Some (mkSt (wire s) (rows s) (script s) pc es)
      end
  | RInbound b =>
      match io with
      | Short _ => Some (mkSt (wire s) (rows s) (script s) RFailed (reads s))
      | Fine =>
          Some (mkSt (wire s) (rows s ++ [(Reader, in_row b)]) (script s)
                  match echo_payload sc b with Some r => RWriting (WChunks (peer_chunks sc r)) | None => RReading end (reads s))
      end
  | RWriting w =>
      match write_step Reader io w (wire s) (rows s) with
      | None => Some (mkSt (wire s) (rows s) (script s) RReading (reads s))
      | Some (wi, ro, Some w') => Some (mkSt wi ro (script s) (RWriting w') (reads s))
      | Some (wi, ro, None) => Some (mkSt wi ro (script s) RFailed (reads s))
      end
  | RStop e =>
      match io with
      | Short _ => Some (mkSt (wire s) (rows s) (script s) RFailed (reads s))
      | Fine => Some (mkSt (wire s) (rows s ++ [(Reader, event_row e)]) (script s) RDone (reads s))
      end
  | RDone | RFailed => None
  end.
Definition step (a : Author) (io : Io) (s : St) : option St :=
  match a with Script => script_step io s | Reader => reader_step io s end.
Definition steps (s s' : St) : Prop := exists a io, step a io s = Some s'.
(** From [run_stream] or [run_blocking] on, after the opening event. *)
Definition start (opened : list Z) (rs : list ReadEvent) : St :=
  mkSt [] [(Script, event_row opened)] (SPayload (scripted_payloads sc)) RReading rs.

(** [run_stream]: the script is awaited first, and its error ends the run
    whatever the reader does; [run_blocking] waits for both, in this order. *)
Definition tcp_result (s : St) : option bool :=
  match script s, reader s with
  | SFailed, _ => Some false
  | SDone, RDone => Some true
  | SDone, RFailed => Some false
  | _, _ => None
  end.
Definition serial_result (s : St) : option bool :=
  match reader s, script s with
  | RDone, SDone => Some true
  | RDone, SFailed | RFailed, SDone | RFailed, SFailed => Some false
  | _, _ => None
  end.
Fixpoint run (moves : list (Author * Io)) (s : St) : option St :=
  match moves with
  | [] => Some s
  | (a, io) :: ms => s' ← step a io s; run ms s'
  end.

(** ** What each task owes *)
Definition by_author {X} (a : Author) (l : list (Author * X)) : list X :=
  omap (fun p => if decide (fst p = a) then Some (snd p) else None) l.
Definition all_chunks (ps : list (list Z)) : list (list Z) := ps ≫= peer_chunks sc.
Definition reply (b : list Z) : list (list Z) := default [] (peer_chunks sc <$> echo_payload sc b).
Definition inbound (es : list ReadEvent) : list (list Z) :=
  omap (fun e => match after e with Got b => Some b | _ => None end) es.
(** The rows a reader writes for the events it has seen. *)
Definition rows_for (e : ReadEvent) : list Transcript.Row :=
  match after e with Got b => in_row b :: map out_row (reply b) | Ends ev => [event_row ev] | _ => [] end.

Definition w_left (w : Writing) : list (list Z) := match w with WChunks cs => cs | WRecord _ cs => cs end.
Definition w_owed (w : Writing) : list (list Z) := match w with WChunks cs => cs | WRecord c cs => c :: cs end.
Definition script_ok (opened : list Z) (s : St) : Prop :=
  let all := all_chunks (scripted_payloads sc) in
  let wr := by_author Script (wire s) in
  let ro := by_author Script (rows s) in
  let owes left owed := wr ++ left = all /\ ro ++ map out_row owed = event_row opened :: map out_row all in
  match script s with
  | SPayload ps => owes (all_chunks ps) (all_chunks ps)
  | SWriting w ps => owes (w_left w ++ all_chunks ps) (w_owed w ++ all_chunks ps)
  | SDone => owes [] []
  | SFailed => concat wr `prefix_of` concat all /\ ro `prefix_of` event_row opened :: map out_row all
  end.
Definition reader_ok (es : list ReadEvent) (s : St) : Prop :=
  let all := inbound es ≫= reply in
  let wr := by_author Reader (wire s) in
  let ro := by_author Reader (rows s) in
  let owes left owed := wr ++ left = all /\ ro ++ owed = es ≫= rows_for in
  match reader s with
  | RReading => owes [] []
  | RDone => owes [] [] /\ exists e ev, last es = Some e /\ after e = Ends ev
  | RInbound b => owes (reply b) (in_row b :: map out_row (reply b))
  | RWriting w => owes (w_left w) (map out_row (w_owed w))
  | RStop ev => owes [] [event_row ev] /\ exists e, last es = Some e /\ after e = Ends ev
  | RFailed => concat wr `prefix_of` concat all /\ ro `prefix_of` es ≫= rows_for
  end.

Lemma by_same {X} a (l : list (Author * X)) x : by_author a (l ++ [(a, x)]) = by_author a l ++ [x].
Proof using Type. unfold by_author. rewrite omap_app. cbn. by rewrite decide_True by done. Qed.
Lemma by_other {X} a b (l : list (Author * X)) x : a <> b -> by_author a (l ++ [(b, x)]) = by_author a l.
Proof using Type. intros H. unfold by_author. rewrite omap_app. cbn. by rewrite decide_False, app_nil_r by done. Qed.
Lemma concat_prefix (l k : list (list Z)) : l `prefix_of` k -> concat l `prefix_of` concat k.
Proof using Type. intros [m ->]. rewrite concat_app. by apply prefix_app_r. Qed.
Lemma chunk_prefix (l : list (list Z)) c k rest : concat (l ++ [take k c]) `prefix_of` concat (l ++ c :: rest).
Proof using Type.
  rewrite !concat_app. cbn. rewrite app_nil_r. apply prefix_app. rewrite <- (take_drop k c) at 2.
  rewrite <- (assoc_L (++)). by apply prefix_app_r.
Qed.

Definition replies_to (e : ReadEvent) : list (list Z) := match after e with Got b => reply b | _ => [] end.
Lemma seen_snoc es e : (inbound (es ++ [e]) ≫= reply) = (inbound es ≫= reply) ++ replies_to e.
Proof using Type.
  unfold inbound, replies_to. rewrite omap_app, bind_app. cbn. destruct (after e); cbn; by rewrite ?app_nil_r.
Qed.
Lemma rows_snoc es e : ((es ++ [e]) ≫= rows_for) = (es ≫= rows_for) ++ rows_for e.
Proof using Type. rewrite bind_app. cbn. by rewrite app_nil_r. Qed.

(** One step of a writing loop, for the task that takes it and for the other. *)
Lemma write_step_spec a io w wi ro r : write_step a io w wi ro = Some r ->
  let '(wi', ro', w') := r in
  (forall b, b <> a -> by_author b wi' = by_author b wi /\ by_author b ro' = by_author b ro) /\
  match w' with
  | Some w1 => by_author a wi' ++ w_left w1 = by_author a wi ++ w_left w /\
               by_author a ro' ++ map out_row (w_owed w1) = by_author a ro ++ map out_row (w_owed w)
  | None => concat (by_author a wi') `prefix_of` concat (by_author a wi ++ w_left w) /\
            by_author a ro' = by_author a ro
  end.
Proof using Type.
  destruct w as [[|c cs]|c cs], io as [|k]; cbn; intros [= <-]; cbn.
  - rewrite by_same, <- (assoc_L (++)). split; [intros b Hb; by rewrite by_other|done].
  - rewrite by_same. split; [intros b Hb; by rewrite by_other|]. split; [apply chunk_prefix|done].
  - rewrite by_same, <- (assoc_L (++)). split; [intros b Hb; by rewrite by_other|done].
  - split; [done|]. split; [|done]. apply concat_prefix. by apply prefix_app_r.
Qed.
Lemma write_step_end a io w wi ro : write_step a io w wi ro = None -> w = WChunks [].
Proof using Type. by destruct w as [[|c cs]|c cs], io. Qed.

Lemma script_step_ok opened io s s' : script_step io s = Some s' -> script_ok opened s ->
  script_ok opened s' /\ by_author Reader (wire s') = by_author Reader (wire s) /\
  by_author Reader (rows s') = by_author Reader (rows s) /\ reader s' = reader s /\ reads s' = reads s.
Proof using Type.
  unfold script_step, script_ok. cbv beta zeta. destruct (script s) as [[|p ps]|w ps| |] eqn:Es; intros H Hok; try done.
  - injection H as <-. by cbn.
  - injection H as <-. cbn [script wire rows w_left w_owed reader reads]. done.
  - destruct (write_step Script io w (wire s) (rows s)) as [[[wi ro] [w'|]]|] eqn:Ew.
    + injection H as <-. apply write_step_spec in Ew as [Ho [E1 E2]]. cbn [script wire rows reader reads].
      destruct (Ho Reader) as [-> ->]; [done|]. split; [|done]. destruct Hok as [H1 H2].
      rewrite map_app, app_assoc in H2. rewrite map_app, !app_assoc, E1, E2. by rewrite app_assoc in H1.
    + injection H as <-. apply write_step_spec in Ew as [Ho [E1 E2]]. cbn [script wire rows reader reads].
      destruct (Ho Reader) as [-> ->]; [done|]. split; [|done]. destruct Hok as [H1 H2]. split.
      * etransitivity; [exact E1|]. apply concat_prefix. rewrite <- H1, (assoc_L (++)). by apply prefix_app_r.
      * rewrite E2, <- H2. by apply prefix_app_r.
    + apply write_step_end in Ew as ->. injection H as <-. by cbn in *.
Qed.
Lemma reader_step_ok es io s s' : reader_step io s = Some s' -> reader_ok es s ->
  exists es', reader_ok (es ++ es') s' /\ reads s = es' ++ reads s' /\ by_author Script (wire s') = by_author Script (wire s) /\
  by_author Script (rows s') = by_author Script (rows s) /\ script s' = script s.
Proof using Type.
  unfold reader_step, reader_ok. cbv beta zeta. destruct (reader s) as [|b|w|ev| |] eqn:Er; intros H Hok; try done.
  - destruct (reads s) as [|e rs] eqn:Ers; [done|]. injection H as <-. exists [e]. cbn [reader wire rows reads script].
    split; [|done]. destruct Hok as [H1 H2]. rewrite !app_nil_r in H1, H2. rewrite last_snoc, seen_snoc, rows_snoc, H1, H2.
    pose proof (eq_refl (rows_for e)) as Hr. unfold rows_for in Hr at 2. unfold replies_to.
    destruct (after e) as [b|ev| |] eqn:Ea; rewrite Hr, ?app_nil_r; try done. split; [done|]. by exists e.
  - exists []. rewrite (app_nil_r es). destruct Hok as [H1 H2]. destruct io; injection H as <-; cbn [reader wire rows reads script].
    + rewrite by_same, by_other by done. split; [|done]. unfold reply in H1, H2.
      destruct (echo_payload sc b) as [r|]; cbn [fmap option_fmap option_map default from_option w_left w_owed Datatypes.id] in *;
        rewrite <- app_assoc; cbn [app map] in *; done.
    + split; [|done]. rewrite <- H1, <- H2. split; [apply concat_prefix|]; by apply prefix_app_r.
  - exists []. rewrite (app_nil_r es). destruct Hok as [H1 H2].
    destruct (write_step Reader io w (wire s) (rows s)) as [[[wi ro] [w'|]]|] eqn:Ew.
    + injection H as <-. apply write_step_spec in Ew as [Ho [E1 E2]]. cbn [script wire rows reader reads].
      destruct (Ho Script) as [-> ->]; [done|]. split; [|done]. by rewrite E1, E2.
    + injection H as <-. apply write_step_spec in Ew as [Ho [E1 E2]]. cbn [script wire rows reader reads].
      destruct (Ho Script) as [-> ->]; [done|]. split; [|done]. rewrite <- H1. split; [done|].
      rewrite E2, <- H2. by apply prefix_app_r.
    + apply write_step_end in Ew as ->. injection H as <-. by cbn in *.
  - exists []. rewrite (app_nil_r es). destruct Hok as [[H1 H2] (e & He & Ha)]. destruct io; injection H as <-; cbn [reader wire rows reads script].
    + rewrite by_same, by_other, app_nil_r by done. split; [|done]. split; [by rewrite app_nil_r in H1 |- *|]. by exists e, ev.
    + split; [|done]. rewrite <- H1, <- H2. split; [apply concat_prefix|]; by apply prefix_app_r.
Qed.

(** ** The exchange *)
Definition going (s : St) : bool := match reader s with RReading | RInbound _ | RWriting _ => true | _ => false end.
Definition stops (e : ReadEvent) : bool := match after e with Ends _ | Broken => true | _ => false end.
Record exchanged (opened : list Z) (rs es : list ReadEvent) (s : St) : Prop := {
  ex_reads : rs = es ++ reads s;
  ex_script : script_ok opened s;
  ex_reader : reader_ok es s;
  ex_going : going s = true -> Forall (fun e => stops e = false) es }.

Lemma reader_step_going io s s' : reader_step io s = Some s' -> going s' = true ->
  going s = true /\ forall es, reads s = es ++ reads s' -> Forall (fun e => stops e = false) es.
Proof using Type.
  assert (Hnil : forall es, reads s = es ++ reads s -> es = []).
  { intros es E. apply (f_equal length) in E. rewrite length_app in E. destruct es; [done|cbn in E; lia]. }
  unfold reader_step. destruct (reader s) as [|b|w|ev| |] eqn:Er; intros H Hg; unfold going at 1; rewrite Er; try done.
  - destruct (reads s) as [|e rs] eqn:Ers; [done|]. injection H as <-. cbn [reads] in *. split; [done|]. intros es E.
    assert (es = [e]) as ->.
    { apply (f_equal length) in E as El. rewrite length_app in El. cbn in El.
      destruct es as [|x [|y es]]; cbn in El; [lia| |lia]. cbn in E. by injection E as <-. }
    constructor; [|done]. unfold going in Hg. cbn [reader] in Hg. unfold stops. by destruct (after e).
  - destruct io; injection H as <-; cbn [reads] in *; [|done]. split; [done|]. by intros es ->%Hnil.
  - destruct (write_step Reader io w (wire s) (rows s)) as [[[wi ro] [w'|]]|]; injection H as <-; cbn [reads] in *; try done;
      (split; [done|]); by intros es ->%Hnil.
  - destruct io; injection H as <-; done.
Qed.

Lemma exchanged_step opened rs es s s' : exchanged opened rs es s -> steps s s' -> exists es', exchanged opened rs es' s'.
Proof using Type.
  intros [H1 H2 H3 H4] ([|] & io & H); cbn in H.
  - exists es. destruct (script_step_ok opened io s s' H H2) as (K1 & K2 & K3 & K4 & K5). split; [by rewrite K5|done| |].
    + unfold reader_ok in *. by rewrite K2, K3, K4.
    + unfold going. by rewrite K4.
  - destruct (reader_step_ok es io s s' H H3) as (es' & K1 & K2 & K3 & K4 & K5). exists (es ++ es'). split.
    + by rewrite H1, K2, (assoc_L (++)).
    + unfold script_ok in *. by rewrite K3, K4, K5.
    + done.
    + intros Hg. destruct (reader_step_going io s s' H Hg) as [G1 G2]. apply Forall_app. split; [by apply H4|by apply G2].
Qed.
Lemma exchanged_start opened rs : exchanged opened rs [] (start opened rs).
Proof using Type. by split; [..|constructor]. Qed.
Lemma exchanged_run opened rs s : rtc steps (start opened rs) s -> exists es, exchanged opened rs es s.
Proof using Type.
  intros H. pose proof (exchanged_start opened rs) as H0. remember (start opened rs) as s0 eqn:E. clear E.
  revert H0. generalize (@nil ReadEvent). induction H as [s|s s1 s2 Hs _ IH]; intros es He; [by exists es|].
  destruct (exchanged_step opened rs es s s1 He Hs) as [es' He']. by apply (IH es').
Qed.

(** Chunking loses nothing. *)
Definition chunked : Prop := forall n, chunk_size sc = Some n -> 0 < n.
Lemma all_chunks_whole ps : chunked -> concat (all_chunks ps) = concat ps.
Proof using Type.
  intros H. induction ps as [|p ps IH]; [done|]. unfold all_chunks. cbn [mbind list_bind]. rewrite concat_app.
  fold (all_chunks ps). rewrite IH. cbn [concat]. by rewrite (proj1 (peer_chunks_whole sc p H)).
Qed.
Lemma replies_whole bs : chunked -> concat (bs ≫= reply) = concat (omap (echo_payload sc) bs).
Proof using Type.
  intros H. induction bs as [|b bs IH]; [done|]. cbn [mbind list_bind omap list_omap]. rewrite concat_app.
  change (list_bind _ _ reply bs) with (bs ≫= reply). rewrite IH. unfold reply at 1.
  destruct (echo_payload sc b) as [r|]; [|done]. cbn. by rewrite (proj1 (peer_chunks_whole sc r H)).
Qed.

(** C27: What a virtual peer and its counterpart exchange: however script and
    reader interleave and whatever fails, the script's chunks on the wire are a
    prefix of the scripted payloads and the reader's a prefix of the answers to
    what was read, each in order, and the rows each task recorded are the ones
    it owes, in its order.  When the run ends well, all payloads were sent,
    everything read was answered, the transcript has a row for every chunk and
    every read, and the reader stopped at the end of the stream or of the idle
    time. *)
Theorem peer_exchange opened rs s :
  chunked -> rtc steps (start opened rs) s ->
  exists es, rs = es ++ reads s /\
    let sent := by_author Script (wire s) in
    let answered := by_author Reader (wire s) in
    concat sent `prefix_of` concat (scripted_payloads sc) /\
    concat answered `prefix_of` concat (omap (echo_payload sc) (inbound es)) /\
    by_author Script (rows s) `prefix_of` event_row opened :: map out_row (all_chunks (scripted_payloads sc)) /\
    by_author Reader (rows s) `prefix_of` es ≫= rows_for /\
    (script s = SDone -> concat sent = concat (scripted_payloads sc) /\
       by_author Script (rows s) = event_row opened :: map out_row sent) /\
    (reader s = RDone -> concat answered = concat (omap (echo_payload sc) (inbound es)) /\
       by_author Reader (rows s) = es ≫= rows_for /\ exists e ev, last es = Some e /\ after e = Ends ev).
Proof using Type.
  intros Hc Hr. destruct (exchanged_run opened rs s Hr) as [es [H1 H2 H3 _]]. exists es. split; [done|]. cbv zeta.
  rewrite <- (all_chunks_whole (scripted_payloads sc) Hc), <- (replies_whole (inbound es) Hc).
  assert (HS : by_author Script (wire s) `prefix_of` all_chunks (scripted_payloads sc) \/
               concat (by_author Script (wire s)) `prefix_of` concat (all_chunks (scripted_payloads sc))).
  { unfold script_ok in H2. cbv beta zeta in H2. destruct (script s); [left..|right; by destruct H2]; destruct H2 as [<- _]; by apply prefix_app_r. }
  assert (HR : by_author Reader (wire s) `prefix_of` (inbound es ≫= reply) \/
               concat (by_author Reader (wire s)) `prefix_of` concat (inbound es ≫= reply)).
  { unfold reader_ok in H3. cbv beta zeta in H3.
    destruct (reader s); [left..|right; by destruct H3]; [destruct H3 as [<- _]|destruct H3 as [<- _]|destruct H3 as [<- _]|
      destruct H3 as [[<- _] _]|destruct H3 as [[<- _] _]]; by apply prefix_app_r. }
  split; [destruct HS; [by apply concat_prefix|done]|]. split; [destruct HR; [by apply concat_prefix|done]|].
  unfold script_ok, reader_ok in *. cbv beta zeta in *. split; [|split; [|split]].
  - destruct (script s); destruct H2 as [_ E]; try done; rewrite <- E; by apply prefix_app_r.
  - destruct (reader s); [destruct H3 as [_ E]..|destruct H3 as [[_ E] _]|destruct H3 as [[_ E] _]|destruct H3 as [_ E]]; try done;
      rewrite <- E; by apply prefix_app_r.
  - intros Es. rewrite Es in H2. destruct H2 as [E1 E2]. cbn [map] in E2. rewrite !app_nil_r in *. by rewrite E2, E1.
  - intros Er. rewrite Er in H3. destruct H3 as [[E1 E2] E3]. rewrite !app_nil_r in *. by rewrite E1, E2.
Qed.

(** ** The end of a run *)
Definition w_work (w : Writing) : nat := match w with WChunks cs => 2 * length cs + 1 | WRecord _ cs => 2 * length cs + 2 end.
Definition payload_work (ps : list (list Z)) : nat := sum_list (map (fun p => 2 * length (peer_chunks sc p) + 2)%nat ps).
Definition script_work (s : St) : nat :=
  match script s with SPayload ps => S (payload_work ps) | SWriting w ps => w_work w + S (payload_work ps) | _ => 0 end.
Definition reads_work (es : list ReadEvent) : nat := sum_list (map (fun e => 4 + 2 * length (replies_to e))%nat es).
Definition reader_work (s : St) : nat :=
  reads_work (reads s) +
  match reader s with RInbound b => 2 * length (reply b) + 2 | RWriting w => w_work w | RStop _ => 1 | _ => 0 end.
Definition work (s : St) : nat := script_work s + reader_work s.

Lemma write_step_work a io w wi ro r : write_step a io w wi ro = Some r ->
  match snd r with Some w' => (w_work w' < w_work w)%nat | None => True end.
Proof using Type. destruct w as [[|c cs]|c cs], io; cbn; intros [= <-]; cbn; lia. Qed.
Lemma w_work_pos w : (0 < w_work w)%nat.
Proof using Type. destruct w; cbn; lia. Qed.
Lemma step_work s s' : steps s s' -> (work s' < work s)%nat.
Proof using Type.
  intros ([|] & io & H); unfold work; cbn [step] in H.
  - assert (Hs : (script_work s' < script_work s)%nat /\ reader s' = reader s /\ reads s' = reads s).
    { unfold script_step, script_work in *. destruct (script s) as [[|p ps]|w ps| |]; try done.
      - injection H as <-. cbn [script reader reads]. split; [lia|done].
      - injection H as <-. cbn [script reader reads w_work].
        change (payload_work (p :: ps)) with (2 * length (peer_chunks sc p) + 2 + payload_work ps)%nat. split; [lia|done].
      - pose proof (w_work_pos w). destruct (write_step Script io w _ _) as [[[wi ro] [w'|]]|] eqn:Ew; injection H as <-; cbn [script reader reads].
        + apply write_step_work in Ew. cbn [snd] in Ew. split; [lia|done].
        + split; [lia|done].
        + split; [lia|done]. }
    unfold reader_work. destruct Hs as (H1 & -> & ->). lia.
  - assert (Hs : (reader_work s' < reader_work s)%nat /\ script s' = script s).
    { unfold reader_step, reader_work in *. destruct (reader s) as [|b|w|ev| |]; try done.
      - destruct (reads s) as [|e es]; [done|]. injection H as <-. cbn [reads reader script]. split; [|done].
        change (reads_work (e :: es)) with (4 + 2 * length (replies_to e) + reads_work es)%nat.
        unfold replies_to. destruct (after e); lia.
      - destruct io; injection H as <-; cbn [reads reader script]; [|split; [lia|done]]. split; [|done]. unfold reply.
        destruct (echo_payload sc b); cbn; lia.
      - pose proof (w_work_pos w). destruct (write_step Reader io w _ _) as [[[wi ro] [w'|]]|] eqn:Ew; injection H as <-; cbn [reads reader script].
        + apply write_step_work in Ew. cbn [snd] in Ew. split; [lia|done].
        + split; [lia|done].
        + split; [lia|done].
      - destruct io; injection H as <-; cbn [reads reader script]; split; lia || done. }
    unfold script_work. destruct Hs as (H1 & ->). lia.
Qed.
Lemma step_bound n : forall s s', nsteps steps n s s' -> (n <= work s)%nat.
Proof using Type.
  induction n as [|n IH]; intros s s' H; [lia|]. inversion_clear H as [|? ? s1 ? H1 H2]. apply step_work in H1. apply IH in H2. lia.
Qed.
Lemma stuck_ended s : (forall s', ~ steps s s') ->
  (script s = SDone \/ script s = SFailed) /\ (reader s = RDone \/ reader s = RFailed \/ reader s = RReading /\ reads s = []).
Proof using Type.
  intros H.
  assert (HS : script_step Fine s = None) by (destruct (script_step Fine s) as [s'|] eqn:E; [|done]; destruct (H s'); by exists Script, Fine).
  assert (HR : reader_step Fine s = None) by (destruct (reader_step Fine s) as [s'|] eqn:E; [|done]; destruct (H s'); by exists Reader, Fine).
  unfold script_step, reader_step in *. split.
  - destruct (script s) as [[|p ps]|w ps| |]; auto; try done. by destruct (write_step _ _ _ _ _) as [[[? ?] [?|]]|].
  - destruct (reader s) as [|b|w|ev| |]; auto; try done; [by destruct (reads s); auto|].
    by destruct (write_step _ _ _ _ _) as [[[? ?] [?|]]|].
Qed.

(** A peer ends: no run takes more steps than its script and what it reads
    give work for, whatever is scheduled and whatever fails; a run that has come
    to a halt has ended its script, and, once a read has reported the end, an
    idle time-out or an error, its reader too, so both transports return. *)
Theorem peer_ends opened rs :
  Exists (fun e => stops e = true) rs ->
  (forall n s, nsteps steps n (start opened rs) s -> (n <= work (start opened rs))%nat) /\
  (forall s, rtc steps (start opened rs) s -> (forall s', ~ steps s s') ->
     is_Some (tcp_result s) /\ is_Some (serial_result s) /\
     (serial_result s = Some true <-> script s = SDone /\ reader s = RDone)).
Proof using Type.
  intros Hst. split; [intros n s; apply step_bound|]. intros s Hr Hstuck.
  destruct (exchanged_run opened rs s Hr) as [es [H1 _ _ H4]]. destruct (stuck_ended s Hstuck) as [[Es|Es] [Er|[Er|[Er Ers]]]];
    unfold tcp_result, serial_result; rewrite ?Es, ?Er; try (repeat split; try (by eexists); (by intros []) || done).
  all: exfalso; rewrite Ers, app_nil_r in H1; subst es; unfold going in H4; rewrite Er in H4;
    apply Exists_exists in Hst as (e & He & Hs); specialize (H4 eq_refl); rewrite Forall_forall in H4;
    specialize (H4 e He); congruence.
Qed.
End Peer.
End Peer.

(** Finding: on a serial port zero bytes are never the end and never idle: as long
    as the port gives nothing, the reading loop goes round, with an idle
    time-out set or not. *)
Theorem serial_zero_reads_spin sc transport port opened n s idle :
  rtc (Peer.steps (Peer.serial_after idle) sc transport port)
    (Peer.start sc transport port opened (replicate n Peer.Zero)) s ->
  Peer.reader s = Peer.RReading /\ exists k, Peer.reads s = replicate k Peer.Zero.
Proof.
  intros H. assert (H0 : forall s s', rtc (Peer.steps (Peer.serial_after idle) sc transport port) s s' ->
    Peer.reader s = Peer.RReading /\ (exists k, Peer.reads s = replicate k Peer.Zero) ->
    Peer.reader s' = Peer.RReading /\ exists k, Peer.reads s' = replicate k Peer.Zero).
  { clear. induction 1 as [|s s1 s2 ([|] & io & Hs) _ IH]; intros [H1 [k H2]]; [by split; [|exists k]| |]; apply IH; cbn in Hs.
    - unfold Peer.script_step in Hs. repeat case_match; simplify_eq; cbn; by split; [|exists k].
    - unfold Peer.reader_step in Hs. rewrite H1, H2 in Hs. destruct k as [|k]; [done|]. cbn in Hs. simplify_eq. cbn.
      split; [done|]. by exists k. }
  apply (H0 _ _ H). split; [done|]. by exists n.
Qed.

(** ** A peer with a script in two chunks and an echo *)
Definition scenario0 : Scenario := mkScenario [[1; 2; 3]] 1 0 0 (Some 2) true [9] 4 None.
Definition moves0 : list (Peer.Author * Peer.Io) :=
  [(Peer.Script, Peer.Fine); (Peer.Reader, Peer.Fine); (Peer.Script, Peer.Fine); (Peer.Reader, Peer.Fine); (Peer.Reader, Peer.Fine);
   (Peer.Reader, Peer.Fine); (Peer.Script, Peer.Fine); (Peer.Reader, Peer.Fine); (Peer.Script, Peer.Fine); (Peer.Script, Peer.Fine);
   (Peer.Script, Peer.Fine); (Peer.Script, Peer.Fine); (Peer.Reader, Peer.Fine); (Peer.Reader, Peer.Fine)].
Definition peer_run0 := Peer.run (Peer.tcp_after None) scenario0 (lit "tcp") (lit "p") moves0
  (Peer.start scenario0 (lit "tcp") (lit "p") (lit "connected") [Peer.Bytes [7]; Peer.Zero]).
Lemma run_steps after sc tr pe ms : forall s s', Peer.run after sc tr pe ms s = Some s' -> rtc (Peer.steps after sc tr pe) s s'.
Proof.
  induction ms as [|[a io] ms IH]; intros s s' H; cbn in H; [by simplify_eq|].
  destruct (Peer.step after sc tr pe a io s) as [s1|] eqn:E; [|done]. eapply rtc_l; [by exists a, io|by apply IH].
Qed.

(** Finding: the writer's lock is given back before the chunk is recorded, so the
    transcript can show chunks in another order than the wire: here the answer is
    sent after the script's first chunk and recorded before it. *)
Example transcript_order_differs : exists s ms,
  Peer.run (Peer.tcp_after None) scenario0 (lit "tcp") (lit "p") ms
    (Peer.start scenario0 (lit "tcp") (lit "p") (lit "connected") [Peer.Bytes [7]; Peer.Zero]) = Some s /\
  map fst (Peer.wire s) = [Peer.Script; Peer.Reader] /\
  map fst (drop 2 (Peer.rows s)) = [Peer.Reader; Peer.Script].
Proof.
  eexists _, ([(Peer.Script, Peer.Fine); (Peer.Reader, Peer.Fine); (Peer.Reader, Peer.Fine); (Peer.Script, Peer.Fine);
    (Peer.Reader, Peer.Fine); (Peer.Reader, Peer.Fine); (Peer.Script, Peer.Fine)]).
  split; [vm_compute; reflexivity|]. split; reflexivity.
Qed.

Lemma scenario0_chunked : Peer.chunked scenario0.
Proof. intros n [= <-]. lia. Qed.
Lemma peer_exchange_witness : exists s, peer_run0 = Some s /\
  Peer.script s = Peer.SDone /\ Peer.reader s = Peer.RDone /\
  concat (Peer.by_author Peer.Script (Peer.wire s)) = [1; 2; 3] /\ concat (Peer.by_author Peer.Reader (Peer.wire s)) = [9; 7].
Proof.
  eexists. split; [vm_compute; reflexivity|]. split; [done|]. split; [done|].
  edestruct (Peer.peer_exchange (Peer.tcp_after None) scenario0 (lit "tcp") (lit "p") (lit "connected") [Peer.Bytes [7]; Peer.Zero])
    as (es & E & _ & _ & _ & _ & HS & HR); [exact scenario0_chunked|eapply (run_steps _ _ _ _ moves0); vm_compute; reflexivity|].
  split; [apply HS; reflexivity|]. destruct (HR eq_refl) as [H _]. cbn [Peer.reads] in E. rewrite app_nil_r in E. subst es.
  exact H.
Defined.
Lemma peer_ends_witness :
  let s0 := Peer.start scenario0 (lit "tcp") (lit "p") (lit "connected") [Peer.Bytes [7]; Peer.Zero] in
  forall n s, nsteps (Peer.steps (Peer.tcp_after None) scenario0 (lit "tcp") (lit "p")) n s0 s -> (n <= 17)%nat.
Proof.
  intros s0. refine (proj1 (Peer.peer_ends (Peer.tcp_after None) scenario0 (lit "tcp") (lit "p") (lit "connected") [Peer.Bytes [7]; Peer.Zero] _)).
  apply Exists_cons. right. apply Exists_cons. by left.
Defined.
Lemma serial_zero_reads_spin_witness :
  Peer.reader (Peer.start scenario0 (lit "serial") (lit "p") (lit "opened") (replicate 3 Peer.Zero)) = Peer.RReading.
Proof.
  apply (serial_zero_reads_spin scenario0 (lit "serial") (lit "p") (lit "opened") 3 _ (Some 5)). apply rtc_refl.
Defined.

(** ** main.rs and the settings of transport/serial.rs *)
Module PeerArgs.
Inductive TcpModeArg := ListenArg | ConnectArg.
Inductive Mode := Listen | Connect.
Definition mode_from (m : TcpModeArg) : Mode := match m with ListenArg => Listen | ConnectArg => Connect end.
Inductive ParityArg := PNone | PEven | POdd.
Definition parity_token (p : ParityArg) : list Z := lit match p with PNone => "none" | PEven => "even" | POdd => "odd" end.
Inductive StopBitsArg := SOne | STwo.
Definition stop_u8 (s : StopBitsArg) : Z := match s with SOne => 1 | STwo => 2 end.
Inductive FlowArg := FNone | FHardware | FSoftware.
Definition flow_token (f : FlowArg) : list Z := lit match f with FNone => "none" | FHardware => "hardware" | FSoftware => "software" end.
Inductive EolArg := ENone | ELf | ECrlf.
Definition eol_from (e : EolArg) : Eol := match e with ENone => EolNone | ELf => Lf | ECrlf => Crlf end.

Record ScenarioArgs := mkScenarioArgs {
  a_send_text : list (list Z); a_send_hex : list (list Z); a_repeat : Z; a_initial_delay_ms : Z; a_interval_ms : Z; a_eol : EolArg;
  a_chunk_size : option Z; a_echo : bool; a_ack_prefix : list Z; a_read_chunk : Z; a_idle_timeout_ms : option Z;
  a_transcript : option (list Z) }.
Definition into_scenario (a : ScenarioArgs) : res ScenarioError Scenario :=
  from_config (mkScenarioConfig (a_send_text a) (a_send_hex a) (a_repeat a) (a_initial_delay_ms a) (a_interval_ms a)
    (eol_from (a_eol a)) (a_chunk_size a) (a_echo a) (a_ack_prefix a) (a_read_chunk a) (a_idle_timeout_ms a)).
Record TcpArgs := mkTcpArgs { t_mode : TcpModeArg; t_addr : list Z; t_scenario : ScenarioArgs }.
Record SerialArgs := mkSerialArgs {
  s_port : list Z; s_baud : Z; s_data_bits : Z; s_parity : ParityArg; s_stop_bits : StopBitsArg; s_flow : FlowArg;
  s_read_timeout_ms : Z; s_scenario : ScenarioArgs }.
Record TcpConfig := mkTcpConfig { tc_mode : Mode; tc_addr : list Z }.
Record SerialConfig := mkSerialConfig {
  c_port : list Z; c_baud : Z; c_data_bits : Z; c_parity : list Z; c_stop_bits : Z; c_flow : list Z; c_read_timeout_ms : Z }.
(** What a run fails with before it talks to its peer. *)
Inductive StartError := TranscriptFailed | BadScenario (e : ScenarioError) | BadDataBits | BadParity | BadStopBits | BadFlow.
Section Start.
  (** Whether the transcript can be opened. *)
  Context (transcript_opens : list Z -> bool).
(** [Transcript::open]: with no path nothing is kept. *)
Definition transcript_open (path : option (list Z)) : res StartError (option (list Z)) :=
  match path with
  | None => Ok None
  | Some p => if transcript_opens p then Ok (Some p) else Err TranscriptFailed
  end.
Definition run_tcp (a : TcpArgs) : res StartError (TcpConfig * Scenario * option (list Z)) :=
  let* t := transcript_open (a_transcript (t_scenario a)) in
  let* sc := map_err BadScenario (into_scenario (t_scenario a)) in
  Ok (mkTcpConfig (mode_from (t_mode a)) (t_addr a), sc, t).
Definition run_serial (a : SerialArgs) : res StartError (SerialConfig * Scenario * option (list Z)) :=
  let* t := transcript_open (a_transcript (s_scenario a)) in
  let* sc := map_err BadScenario (into_scenario (s_scenario a)) in
  Ok (mkSerialConfig (s_port a) (s_baud a) (s_data_bits a) (parity_token (s_parity a)) (stop_u8 (s_stop_bits a))
        (flow_token (s_flow a)) (s_read_timeout_ms a), sc, t).
End Start.

(** The settings of the serialport crate. *)
Inductive DataBits := Five | Six | Seven | Eight.
Inductive Parity := ParityNone | ParityEven | ParityOdd.
Inductive StopBits := StopOne | StopTwo.
Inductive FlowControl := FlowNone | FlowHardware | FlowSoftware.
Definition data_bits (v : Z) : res StartError DataBits :=
  if v =? 5 then Ok Five else if v =? 6 then Ok Six else if v =? 7 then Ok Seven else if v =? 8 then Ok Eight else Err BadDataBits.
Definition parity (v : list Z) : res StartError Parity :=
  if str_eqb v (lit "none") then Ok ParityNone else if str_eqb v (lit "even") then Ok ParityEven
  else if str_eqb v (lit "odd") then Ok ParityOdd else Err BadParity.
Definition stop_bits (v : Z) : res StartError StopBits :=
  if v =? 1 then Ok StopOne else if v =? 2 then Ok StopTwo else Err BadStopBits.
Definition flow_control (v : list Z) : res StartError FlowControl :=
  if str_eqb v (lit "none") then Ok FlowNone else if str_eqb v (lit "hardware") then Ok FlowHardware
  else if str_eqb v (lit "software") then Ok FlowSoftware else Err BadFlow.
(** The builder of [run_blocking], up to [open]. *)
Definition port_settings (c : SerialConfig) : res StartError (DataBits * Parity * StopBits * FlowControl) :=
  let* d := data_bits (c_data_bits c) in
  let* p := parity (c_parity c) in
  let* s := stop_bits (c_stop_bits c) in
  let* f := flow_control (c_flow c) in
  Ok (d, p, s, f).

Definition parity_of (p : ParityArg) : Parity := match p with PNone => ParityNone | PEven => ParityEven | POdd => ParityOdd end.
Definition stop_of (s : StopBitsArg) : StopBits := match s with SOne => StopOne | STwo => StopTwo end.
Definition flow_of (f : FlowArg) : FlowControl := match f with FNone => FlowNone | FHardware => FlowHardware | FSoftware => FlowSoftware end.
(** A port is opened with the settings that were asked for: whatever the command
    line accepts survives its detour through texts, so only the number of data
    bits can be refused; and the scenario of an accepted run never asks for
    empty chunks, which would not end. *)
Theorem serial_settings_kept opens a c sc t :
  (forall n, a_chunk_size (s_scenario a) = Some n -> 0 <= n) -> run_serial opens a = Ok (c, sc, t) ->
  Peer.chunked sc /\ 0 <> read_chunk sc /\
  ((exists d, data_bits (s_data_bits a) = Ok d /\
     port_settings c = Ok (d, parity_of (s_parity a), stop_of (s_stop_bits a), flow_of (s_flow a))) \/
   ~ 5 <= s_data_bits a <= 8 /\ port_settings c = Err BadDataBits).
Proof.
  intros Hw. unfold run_serial. intros (t' & _ & H)%bind_Ok. apply bind_Ok in H as (sc' & Hsc & H). injection H as <- <- <-.
  assert (Hs : Peer.chunked sc' /\ 0 <> read_chunk sc' /\ True).
  { unfold into_scenario, from_config in Hsc. cbn [sc_read_chunk sc_chunk_size sc_hex] in Hsc.
    destruct (a_read_chunk (s_scenario a) =? 0) eqn:E0; [done|]. apply Z.eqb_neq in E0.
    case_bool_decide as Ec; [done|]. destruct (parse_all _) as [hs|e|]; [|done..]. injection Hsc as <-.
    unfold Peer.chunked. cbn. split; [|done]. intros n Hn. specialize (Hw n Hn).
    destruct (decide (n = 0)) as [->|]; [done|lia]. }
  destruct Hs as (H1 & H2 & _). split; [done|]. split; [done|].
  unfold port_settings. cbn [c_data_bits c_parity c_stop_bits c_flow].
  assert (Hp : parity (parity_token (s_parity a)) = Ok (parity_of (s_parity a))) by (by destruct (s_parity a)).
  assert (Hst : stop_bits (stop_u8 (s_stop_bits a)) = Ok (stop_of (s_stop_bits a))) by (by destruct (s_stop_bits a)).
  assert (Hf : flow_control (flow_token (s_flow a)) = Ok (flow_of (s_flow a))) by (by destruct (s_flow a)).
  rewrite Hp, Hst, Hf. unfold data_bits.
  destruct (Z.eqb_spec (s_data_bits a) 5); [left; eauto|]. destruct (Z.eqb_spec (s_data_bits a) 6); [left; eauto|].
  destruct (Z.eqb_spec (s_data_bits a) 7); [left; eauto|]. destruct (Z.eqb_spec (s_data_bits a) 8); [left; eauto|].
  right. split; [lia|done].
Qed.
End PeerArgs.
Lemma serial_settings_kept_witness : exists c sc t,
  PeerArgs.run_serial (fun _ => true) (PeerArgs.mkSerialArgs (lit "COM1") 9600 7 PeerArgs.PEven PeerArgs.STwo PeerArgs.FHardware 100
    (PeerArgs.mkScenarioArgs [lit "a"] [] 1 0 0 PeerArgs.ECrlf (Some 2) true [] 4 None None)) = Ok (c, sc, t) /\ Peer.chunked sc.
Proof.
  eexists _, _, _. split; [vm_compute; reflexivity|].
  eapply (PeerArgs.serial_settings_kept (fun _ => true) (PeerArgs.mkSerialArgs (lit "COM1") 9600 7 PeerArgs.PEven PeerArgs.STwo PeerArgs.FHardware 100
    (PeerArgs.mkScenarioArgs [lit "a"] [] 1 0 0 PeerArgs.ECrlf (Some 2) true [] 4 None None))).
  - cbn. intros n [= <-]. lia.
  - vm_compute. reflexivity.
Defined.
