(* ===== verification/Config.v ===== *)
(** * The configuration file

    crates/core/src/config/schema_v1.rs: the types of tracemux.toml with their
    defaults, and how they are read from and written to a TOML value, as their
    serde attributes say ([default], [skip_serializing_if], [tag],
    [rename_all]); crates/core/src/source/mod.rs for [ChannelSpec].  A [Codec]
    is a pair of writer and reader; [CodecOk] is the law that what is written
    reads back.  The text form of a TOML value is the toml crate's. *)
From stdpp Require Import base numbers strings sorting list.
From S2P Require Import Prelude Text Spec WsParse Client.

Local Open Scope Z_scope.
Local Open Scope tm_scope.

(** ** TOML values *)
Inductive Toml :=
| TStr (s : list Z) | TInt (z : Z) | TBool (b : bool) | TArr (l : list Toml) | TTab (t : list (list Z * Toml))
| TOtherValue.
Inductive TomlError := MissingField (k : list Z) | BadType | OutOfRange | UnknownVariant.
Fixpoint get (k : list Z) (t : list (list Z * Toml)) : option Toml :=
  match t with
  | [] => None
  | (k', v) :: t' => if str_eqb k k' then Some v else get k t'
  end.

Lemma str_eqb_eq a b : str_eqb a b = true <-> a = b.
Proof. apply bool_decide_eq_true. Qed.

Record Codec (A : Type) := mkCodec { enc : A -> option Toml; dec : Toml -> res TomlError A }.
Arguments mkCodec {A} _ _.
Arguments enc {A} _ _.
Arguments dec {A} _ _.
Class CodecOk {A} (c : Codec A) : Prop := codec_ok : forall a v, enc c a = Some v -> dec c v = Ok a.

(** Texts, truth values, and integers of a width; a TOML integer has 64 bits. *)
Definition c_str : Codec (list Z) :=
  mkCodec (fun s => Some (TStr s)) (fun v => match v with TStr s => Ok s | _ => Err BadType end).
Definition c_bool : Codec bool :=
  mkCodec (fun b => Some (TBool b)) (fun v => match v with TBool b => Ok b | _ => Err BadType end).
Definition c_uint (max : Z) : Codec Z :=
  mkCodec (fun z => if in_range 0 (Z.min max i64_max) z then Some (TInt z) else None)
    (fun v => match v with TInt z => if in_range 0 max z then Ok z else Err OutOfRange | _ => Err BadType end).
Fixpoint dec_list {A} (c : Codec A) (l : list Toml) : res TomlError (list A) :=
  match l with [] => Ok [] | v :: l' => let* a := dec c v in let* r := dec_list c l' in Ok (a :: r) end.
Definition c_list {A} (c : Codec A) : Codec (list A) :=
  mkCodec (fun l => TArr <$> mapM (enc c) l) (fun v => match v with TArr l => dec_list c l | _ => Err BadType end).
Definition c_enum {A} (show : A -> list Z) (all : list A) : Codec A :=
  mkCodec (fun a => Some (TStr (show a)))
    (fun v => match v with
              | TStr s => ok_or (List.find (fun a => str_eqb (show a) s) all) UnknownVariant
              | _ => Err BadType
              end).

#[export] Instance c_str_ok : CodecOk c_str.
Proof. by intros s v [= <-]. Qed.
#[export] Instance c_bool_ok : CodecOk c_bool.
Proof. by intros s v [= <-]. Qed.
#[export] Instance c_uint_ok max : CodecOk (c_uint max).
Proof.
  intros z v. cbn. destruct (in_range 0 (Z.min max i64_max) z) eqn:E; [|done]. intros [= <-]. apply in_range_spec in E.
  cbn. by rewrite (proj2 (in_range_spec 0 max z)) by lia.
Qed.
#[export] Instance c_list_ok {A} (c : Codec A) : CodecOk c -> CodecOk (c_list c).
Proof.
  intros H l v. cbn. destruct (mapM (enc c) l) as [vs|] eqn:E; [|done]. intros [= <-]. cbn. revert vs E.
  induction l as [|a l IH]; intros vs E; cbn in E; [by injection E as <-|].
  destruct (enc c a) as [w|] eqn:Ea; [|done]. cbn in E. destruct (mapM (enc c) l) as [ws|]; [|done]. injection E as <-.
  cbn. rewrite (H a w Ea), (IH ws eq_refl). done.
Qed.

(** ** Fields of a table *)
Abbreviation tfields := (list (list Z * Toml)).
Definition f_req {A} (k : list Z) (c : Codec A) (a : A) : option tfields := v ← enc c a; Some [(k, v)].
Definition f_opt {A} (k : list Z) (c : Codec A) (o : option A) : option tfields :=
  match o with None => Some [] | Some a => f_req k c a end.
Definition f_nonempty {A} (k : list Z) (c : Codec (list A)) (l : list A) : option tfields :=
  match l with [] => Some [] | _ => f_req k c l end.
Definition f_all (fs : list (option tfields)) : option Toml := (fun f => TTab (concat f)) <$> mapM Datatypes.id fs.

Definition d_req {A} (k : list Z) (c : Codec A) (t : tfields) : res TomlError A :=
  match get k t with Some v => dec c v | None => Err (MissingField k) end.
Definition d_default {A} (k : list Z) (c : Codec A) (d : A) (t : tfields) : res TomlError A :=
  match get k t with Some v => dec c v | None => Ok d end.
Definition d_opt {A} (k : list Z) (c : Codec A) (t : tfields) : res TomlError (option A) :=
  match get k t with Some v => Some <$> dec c v | None => Ok None end.
Definition d_table {A} (read : tfields -> res TomlError A) (v : Toml) : res TomlError A :=
  match v with TTab t => read t | _ => Err BadType end.

(** A key that is not among some fields is looked up in the others. *)
Definition keys_in (ks : list (list Z)) (f : tfields) : Prop := forall k, k ∈ map fst f -> k ∈ ks.
Lemma get_skip k f t : k ∉ map fst f -> get k (f ++ t) = get k t.
Proof.
  induction f as [|[k' v] f IH]; [done|]. cbn. intros H. destruct (str_eqb k k') eqn:E.
  - apply str_eqb_eq in E as ->. destruct H. left.
  - apply IH. intros Hk. apply H. by right.
Qed.
Lemma get_none k f : k ∉ map fst f -> get k f = None.
Proof. intros H. rewrite <- (app_nil_r f). by rewrite get_skip. Qed.
Lemma get_here k v t : get k ((k, v) :: t) = Some v.
Proof. cbn. by rewrite (proj2 (str_eqb_eq k k) eq_refl). Qed.

(** Reading the fields that were written, one after the other: [wrote k f r]
    says that [f] holds nothing but [k], and gives [r] when it is looked up. *)
Record wrote (k : list Z) (f : tfields) (r : option Toml) : Prop := {
  wrote_keys : forall k', k' ∈ map fst f -> k' = k;
  wrote_get : get k f = r }.
Lemma f_req_wrote {A} k (c : Codec A) a f : f_req k c a = Some f -> exists v, enc c a = Some v /\ wrote k f (Some v).
Proof.
  unfold f_req. destruct (enc c a) as [v|]; [|done]. cbn. intros [= <-]. exists v. split; [done|]. split; [|apply get_here].
  intros k' [->|H]%elem_of_cons; [done|by apply elem_of_nil in H].
Qed.
Lemma f_opt_wrote {A} k (c : Codec A) o f : f_opt k c o = Some f ->
  exists r, wrote k f r /\ match o, r with Some a, Some v => enc c a = Some v | None, None => True | _, _ => False end.
Proof.
  destruct o as [a|]; cbn.
  - intros (v & E & H)%f_req_wrote. by exists (Some v).
  - intros [= <-]. exists None. split; [|done]. split; [by intros k' H%elem_of_nil|done].
Qed.
Lemma f_nonempty_wrote {A} k (c : Codec (list A)) l f : f_nonempty k c l = Some f ->
  exists r, wrote k f r /\ match r with Some v => enc c l = Some v | None => l = [] end.
Proof.
  destruct l as [|a l]; cbn.
  - intros [= <-]. exists None. split; [|done]. split; [by intros k' H%elem_of_nil|done].
  - intros (v & E & H)%f_req_wrote. by exists (Some v).
Qed.
Lemma wrote_first k g v t : wrote k g (Some v) -> get k (g ++ t) = Some v.
Proof. intros [_ H]. induction g as [|[k' w] g IH]; [done|]. cbn [get app] in *. by destruct (str_eqb k k'); [|apply IH]. Qed.
(** Lookup in written fields, by position. *)
Fixpoint at_key (k : string) (ws : list (string * option Toml)) : option Toml :=
  match ws with [] => None | (k', r) :: ws' => if String.eqb k k' then match r with Some v => Some v | None => at_key k ws' end else at_key k ws' end.
Inductive written : list tfields -> list (string * option Toml) -> Prop :=
| written_nil : written [] []
| written_cons k f r fs ws : wrote (lit k) f r -> written fs ws -> written (f :: fs) ((k, r) :: ws).
Lemma get_written fs ws k : written fs ws -> get (lit k) (concat fs) = at_key k ws.
Proof.
  induction 1 as [|k' f r fs ws [Hk Hg] _ IH]; [done|]. cbn [concat at_key] in *.
  destruct (String.eqb k k') eqn:E.
  - apply String.eqb_eq in E as ->. destruct r as [v|].
    + by apply wrote_first.
    + rewrite get_skip; [done|]. intros Hin. clear IH. induction f as [|[k1 v1] f IH]; [by apply elem_of_nil in Hin|].
      cbn [get] in Hg. destruct (str_eqb (lit k') k1) eqn:E1; [done|]. apply elem_of_cons in Hin as [Hin|Hin].
      * cbn in Hin. rewrite <- Hin in E1. by rewrite (proj2 (str_eqb_eq _ _) eq_refl) in E1.
      * apply IH; [|done|done]. intros k2 H2. apply Hk. by right.
  - rewrite get_skip; [done|]. intros Hin. apply Hk in Hin. apply lit_inj in Hin as ->. by rewrite String.eqb_refl in E.
Qed.

Lemma f_all_Some fs v : f_all fs = Some v -> exists gs, Forall2 (fun o g => o = Some g) fs gs /\ v = TTab (concat gs).
Proof.
  unfold f_all. destruct (mapM Datatypes.id fs) as [gs|] eqn:E; [|done]. intros [= <-]. exists gs. split; [|done].
  apply mapM_Some in E. eapply Forall2_impl; [exact E|]. done.
Qed.

(** ** schema_v1.rs *)
Record NodeCfg := mkNode { n_label : option (list Z) }.
Record SerialStartupCfg := mkSerialCfg {
  sc_open_all : bool; sc_ports : list (list Z); sc_baud : Z; sc_data_bits : Z; sc_parity : list Z; sc_stop_bits : Z; sc_flow : list Z }.
Record TlsCfg := mkTls { tls_enabled : bool; tls_dir : option (list Z) }.
Record ServerCfg := mkServer {
  s_bind : list Z; s_session_root : list Z; s_encoding : list Z; s_detect_mode : list Z; s_session_name_pattern : option (list Z);
  s_serial : SerialStartupCfg; s_token_phc_files : list (list Z); s_tls : TlsCfg; s_require_auth : bool }.
Record ChannelCfg := mkChannel { ch_spec : ChannelSpec; ch_label : option (list Z) }.
Record ExportCfg := mkExport { x_timezone : option (list Z); x_encoding : option (list Z) }.
Record UiCfg := mkUi { live_flush_ms : Z }.
Record RetentionCfg := mkRetention { keep_days : Z }.
(** [channels] is a [BTreeMap]: its entries in the order of their keys. *)
Record ConfigV1 := mkConfig {
  config_version : Z; c_node : NodeCfg; c_server : ServerCfg; c_export : ExportCfg; c_ui : UiCfg;
  c_channels : list (list Z * ChannelCfg); c_retention : RetentionCfg }.

Definition default_server_bind : list Z := lit "127.0.0.1:9443".
Definition default_server_session_root : list Z := lit "tracemux-sessions".
Definition default_server_encoding : list Z := lit "utf-8".
Definition default_server_detect_mode : list Z := lit "configured".
Definition default_server_require_auth : bool := true.
Definition default_serial_baud : Z := 115200.
Definition default_serial_data_bits : Z := 8.
Definition default_serial_parity : list Z := lit "none".
Definition default_serial_stop_bits : Z := 1.
Definition default_serial_flow : list Z := lit "none".
Definition node_default : NodeCfg := mkNode None.
Definition serial_default : SerialStartupCfg :=
  mkSerialCfg false [] default_serial_baud default_serial_data_bits default_serial_parity default_serial_stop_bits default_serial_flow.
Definition tls_default : TlsCfg := mkTls false None.
Definition server_default : ServerCfg :=
  mkServer default_server_bind default_server_session_root default_server_encoding default_server_detect_mode None serial_default []
    tls_default default_server_require_auth.
Definition export_default : ExportCfg := mkExport None None.
Definition ui_default : UiCfg := mkUi 0.
Definition retention_default : RetentionCfg := mkRetention 0.
Definition config_default : ConfigV1 :=
  mkConfig 1 node_default server_default export_default ui_default [] retention_default.

(** ** Their TOML form *)
Definition c_node_cfg : Codec NodeCfg := mkCodec
  (fun n => f_all [f_opt (lit "label") c_str (n_label n)])
  (d_table (fun t => let* l := d_opt (lit "label") c_str t in Ok (mkNode l))).
Definition c_serial_cfg : Codec SerialStartupCfg := mkCodec
  (fun s => f_all [f_req (lit "open_all") c_bool (sc_open_all s); f_nonempty (lit "ports") (c_list c_str) (sc_ports s);
                   f_req (lit "baud") (c_uint u32_max) (sc_baud s); f_req (lit "data_bits") (c_uint u8_max) (sc_data_bits s);
                   f_req (lit "parity") c_str (sc_parity s); f_req (lit "stop_bits") (c_uint u8_max) (sc_stop_bits s);
                   f_req (lit "flow") c_str (sc_flow s)])
  (d_table (fun t =>
     let* o := d_default (lit "open_all") c_bool false t in
     let* p := d_default (lit "ports") (c_list c_str) [] t in
     let* b := d_default (lit "baud") (c_uint u32_max) default_serial_baud t in
     let* d := d_default (lit "data_bits") (c_uint u8_max) default_serial_data_bits t in
     let* y := d_default (lit "parity") c_str default_serial_parity t in
     let* s := d_default (lit "stop_bits") (c_uint u8_max) default_serial_stop_bits t in
     let* f := d_default (lit "flow") c_str default_serial_flow t in
     Ok (mkSerialCfg o p b d y s f))).
Definition c_tls_cfg : Codec TlsCfg := mkCodec
  (fun c => f_all [f_req (lit "enabled") c_bool (tls_enabled c); f_opt (lit "dir") c_str (tls_dir c)])
  (d_table (fun t => let* e := d_default (lit "enabled") c_bool false t in let* d := d_opt (lit "dir") c_str t in Ok (mkTls e d))).
Definition c_server_cfg : Codec ServerCfg := mkCodec
  (fun s => f_all [f_req (lit "bind") c_str (s_bind s); f_req (lit "session_root") c_str (s_session_root s);
                   f_req (lit "encoding") c_str (s_encoding s); f_req (lit "detect_mode") c_str (s_detect_mode s);
                   f_opt (lit "session_name_pattern") c_str (s_session_name_pattern s); f_req (lit "serial") c_serial_cfg (s_serial s);
                   f_nonempty (lit "token_phc_files") (c_list c_str) (s_token_phc_files s); f_req (lit "tls") c_tls_cfg (s_tls s);
                   f_req (lit "require_auth") c_bool (s_require_auth s)])
  (d_table (fun t =>
     let* b := d_default (lit "bind") c_str default_server_bind t in
     let* r := d_default (lit "session_root") c_str default_server_session_root t in
     let* e := d_default (lit "encoding") c_str default_server_encoding t in
     let* d := d_default (lit "detect_mode") c_str default_server_detect_mode t in
     let* n := d_opt (lit "session_name_pattern") c_str t in
     let* s := d_default (lit "serial") c_serial_cfg serial_default t in
     let* p := d_default (lit "token_phc_files") (c_list c_str) [] t in
     let* l := d_default (lit "tls") c_tls_cfg tls_default t in
     let* a := d_default (lit "require_auth") c_bool default_server_require_auth t in
     Ok (mkServer b r e d n s p l a))).
Definition c_export_cfg : Codec ExportCfg := mkCodec
  (fun x => f_all [f_opt (lit "timezone") c_str (x_timezone x); f_opt (lit "encoding") c_str (x_encoding x)])
  (d_table (fun t => let* z := d_opt (lit "timezone") c_str t in let* e := d_opt (lit "encoding") c_str t in Ok (mkExport z e))).
Definition c_ui_cfg : Codec UiCfg := mkCodec
  (fun u => f_all [f_req (lit "live_flush_ms") (c_uint u64_max) (live_flush_ms u)])
  (d_table (fun t => let* l := d_default (lit "live_flush_ms") (c_uint u64_max) 0 t in Ok (mkUi l))).
Definition c_retention_cfg : Codec RetentionCfg := mkCodec
  (fun r => f_all [f_req (lit "keep_days") (c_uint u32_max) (keep_days r)])
  (d_table (fun t => let* k := d_req (lit "keep_days") (c_uint u32_max) t in Ok (mkRetention k))).

(** Each part reads back; the tactic follows the fields of [f_all]. *)
Ltac wrote_field H :=
  first [apply f_req_wrote in H as (? & ? & ?) | apply f_opt_wrote in H as (? & ? & ?) | apply f_nonempty_wrote in H as (? & ? & ?)].
Ltac wrote_all :=
  repeat match goal with
  | H : Forall2 _ (_ :: _) ?gs |- _ => inversion H; clear H; subst
  | H : Forall2 _ [] ?gs |- _ => inversion H; clear H; subst
  end;
  repeat match goal with H : ?o = Some ?g |- _ => match type of g with list (list Z * Toml) => wrote_field H end end.

Ltac codec_fields c :=
  let H := fresh "HW" in
  intros ? ? H; unfold c in *; cbn [enc dec] in *; apply f_all_Some in H as (? & ? & ->); wrote_all; unfold d_table;
  match goal with |- context [concat ?gs] =>
    eassert (H : written gs _) by (repeat (eapply written_cons; [eassumption|]); apply written_nil);
    unfold d_req, d_default, d_opt; rewrite ?(get_written gs _ _ H); cbn [at_key String.eqb Ascii.eqb Bool.eqb]; clear H
  end.
Ltac codec_values :=
  repeat match goal with
  | H : match ?o with Some _ => _ | None => match ?x with _ => _ end end |- _ => destruct o, x; try done
  | H : match ?x with Some v => _ | None => _ = [] end |- _ => destruct x
  end;
  repeat match goal with H : enc ?c ?a = Some ?v |- context [dec ?c ?v] => rewrite (codec_ok (c := c) a v H) end;
  cbn [mbind res_bind fmap res_fmap]; repeat match goal with H : ?l = [] |- _ => rewrite <- H; clear H end; try done.
#[export] Instance c_node_cfg_ok : CodecOk c_node_cfg.
Proof. codec_fields c_node_cfg. destruct a; cbn [n_label] in *. codec_values. Qed.
#[export] Instance c_serial_cfg_ok : CodecOk c_serial_cfg.
Proof.
  codec_fields c_serial_cfg. destruct a; cbn [sc_open_all sc_ports sc_baud sc_data_bits sc_parity sc_stop_bits sc_flow] in *. codec_values.
Qed.
#[export] Instance c_tls_cfg_ok : CodecOk c_tls_cfg.
Proof. codec_fields c_tls_cfg. destruct a; cbn [tls_enabled tls_dir] in *. codec_values. Qed.
#[export] Instance c_server_cfg_ok : CodecOk c_server_cfg.
Proof.
  codec_fields c_server_cfg. destruct a; cbn [s_bind s_session_root s_encoding s_detect_mode s_session_name_pattern s_serial
    s_token_phc_files s_tls s_require_auth] in *. codec_values.
Qed.
#[export] Instance c_export_cfg_ok : CodecOk c_export_cfg.
Proof. codec_fields c_export_cfg. destruct a; cbn [x_timezone x_encoding] in *. codec_values. Qed.
#[export] Instance c_ui_cfg_ok : CodecOk c_ui_cfg.
Proof. codec_fields c_ui_cfg. destruct a; cbn [live_flush_ms] in *. codec_values. Qed.
#[export] Instance c_retention_cfg_ok : CodecOk c_retention_cfg.
Proof. codec_fields c_retention_cfg. destruct a; cbn [keep_days] in *. codec_values. Qed.

(** ** [ChannelSpec], tagged with its kind *)
Inductive SpecKind :=
| KSerial | KTcp | KUdp | KPcap | KFile | KPipe | KProcess | KMock | KReplay | KSyslog | KMqtt | KHttpWebhook
| KTelnet | KSsh | KVisa | KRemote | KJournald | KWinEventLog | KEtw | KJLinkRtt | KCanBus.
Definition kind_name (k : SpecKind) : list Z :=
  lit match k with
      | KSerial => "serial" | KTcp => "tcp" | KUdp => "udp" | KPcap => "pcap" | KFile => "file" | KPipe => "pipe"
      | KProcess => "process" | KMock => "mock" | KReplay => "replay" | KSyslog => "syslog" | KMqtt => "mqtt"
      | KHttpWebhook => "http-webhook" | KTelnet => "telnet" | KSsh => "ssh" | KVisa => "visa" | KRemote => "remote"
      | KJournald => "journald" | KWinEventLog => "win-event-log" | KEtw => "etw" | KJLinkRtt => "j-link-rtt"
      | KCanBus => "can-bus"
      end.
Definition all_kinds : list SpecKind :=
  [KSerial; KTcp; KUdp; KPcap; KFile; KPipe; KProcess; KMock; KReplay; KSyslog; KMqtt; KHttpWebhook; KTelnet; KSsh;
   KVisa; KRemote; KJournald; KWinEventLog; KEtw; KJLinkRtt; KCanBus].
Definition spec_kind (s : ChannelSpec) : SpecKind :=
  match s with
  | Serial _ _ _ _ _ _ => KSerial | Tcp _ => KTcp | Udp _ => KUdp | Pcap _ => KPcap | File _ _ => KFile
  | Pipe _ => KPipe | Process _ => KProcess | Mock _ => KMock | Replay _ => KReplay | Syslog _ => KSyslog
  | Mqtt _ _ => KMqtt | HttpWebhook _ _ => KHttpWebhook | Telnet _ => KTelnet | Ssh _ _ => KSsh | Visa _ => KVisa
  | Remote _ => KRemote | Journald _ => KJournald | WinEventLog _ => KWinEventLog | Etw _ => KEtw
  | JLinkRtt _ => KJLinkRtt | CanBus _ => KCanBus
  end.
Definition c_kind : Codec SpecKind := c_enum kind_name all_kinds.
Definition c_save_mode : Codec PcapSaveMode := c_enum save_mode_fmt [SaveSession; SavePcapng; SaveBoth].
Definition c_publish_mode : Codec PcapPublishMode := c_enum publish_mode_fmt [StatsOnly; Sampled; Full].
Definition spec_fields (s : ChannelSpec) : list (option tfields) :=
  match s with
  | Serial port baud db p sb fl =>
      [f_req (lit "port") c_str port; f_req (lit "baud") (c_uint u32_max) baud; f_req (lit "data_bits") (c_uint u8_max) db;
       f_req (lit "parity") c_str p; f_req (lit "stop_bits") (c_uint u8_max) sb; f_req (lit "flow") c_str fl]
  | Tcp addr | Telnet addr => [f_req (lit "addr") c_str addr]
  | Udp bind | Syslog bind => [f_req (lit "bind") c_str bind]
  | Pcap c =>
      [f_req (lit "interface") c_str (interface c); f_opt (lit "display_name") c_str (display_name c);
       f_req (lit "promiscuous") c_bool (promiscuous c); f_req (lit "snaplen") (c_uint u32_max) (snaplen c);
       f_opt (lit "buffer_bytes") (c_uint u32_max) (buffer_bytes c); f_req (lit "timeout_ms") (c_uint u32_max) (timeout_ms c);
       f_req (lit "immediate") c_bool (immediate c); f_opt (lit "filter") c_str (filter_expr c);
       f_req (lit "save_mode") c_save_mode (save_mode c); f_opt (lit "pcapng_path") c_str (pcapng_path c);
       f_req (lit "publish_mode") c_publish_mode (publish_mode c)]
  | File path follow => [f_req (lit "path") c_str path; f_req (lit "follow") c_bool follow]
  | Pipe path | Replay path => [f_req (lit "path") c_str path]
  | Process argv => [f_req (lit "argv") (c_list c_str) argv]
  | Mock tag => [f_req (lit "tag") c_str tag]
  | Mqtt broker topic => [f_req (lit "broker") c_str broker; f_req (lit "topic") c_str topic]
  | HttpWebhook bind path => [f_req (lit "bind") c_str bind; f_req (lit "path") c_str path]
  | Ssh addr user => [f_req (lit "addr") c_str addr; f_req (lit "user") c_str user]
  | Visa resource => [f_req (lit "resource") c_str resource]
  | Remote url => [f_req (lit "url") c_str url]
  | Journald unit_ => [f_opt (lit "unit") c_str unit_]
  | WinEventLog channel => [f_req (lit "channel") c_str channel]
  | Etw provider => [f_req (lit "provider") c_str provider]
  | JLinkRtt channel => [f_req (lit "channel") (c_uint u8_max) channel]
  | CanBus iface => [f_req (lit "iface") c_str iface]
  end.
Definition read_str (k : string) (t : tfields) : res TomlError (list Z) := d_req (lit k) c_str t.
Definition read_spec (kind : SpecKind) (t : tfields) : res TomlError ChannelSpec :=
  match kind with
  | KSerial =>
    let* p := read_str "port" t in let* b := d_req (lit "baud") (c_uint u32_max) t in
    let* d := d_req (lit "data_bits") (c_uint u8_max) t in let* y := read_str "parity" t in
    let* s := d_req (lit "stop_bits") (c_uint u8_max) t in let* f := read_str "flow" t in Ok (Serial p b d y s f)
  | KTcp => Tcp <$> read_str "addr" t
  | KUdp => Udp <$> read_str "bind" t
  | KPcap =>
    let* i := read_str "interface" t in let* n := d_opt (lit "display_name") c_str t in
    let* p := d_req (lit "promiscuous") c_bool t in let* s := d_req (lit "snaplen") (c_uint u32_max) t in
    let* b := d_opt (lit "buffer_bytes") (c_uint u32_max) t in let* m := d_req (lit "timeout_ms") (c_uint u32_max) t in
    let* im := d_req (lit "immediate") c_bool t in let* f := d_opt (lit "filter") c_str t in
    let* sm := d_req (lit "save_mode") c_save_mode t in let* pa := d_opt (lit "pcapng_path") c_str t in
    let* pm := d_req (lit "publish_mode") c_publish_mode t in Ok (Pcap (mkPcap i n p s b m im f sm pa pm))
  | KFile => let* p := read_str "path" t in let* f := d_req (lit "follow") c_bool t in Ok (File p f)
  | KPipe => Pipe <$> read_str "path" t
  | KProcess => Process <$> d_req (lit "argv") (c_list c_str) t
  | KMock => Mock <$> read_str "tag" t
  | KReplay => Replay <$> read_str "path" t
  | KSyslog => Syslog <$> read_str "bind" t
  | KMqtt => let* b := read_str "broker" t in let* p := read_str "topic" t in Ok (Mqtt b p)
  | KHttpWebhook => let* b := read_str "bind" t in let* p := read_str "path" t in Ok (HttpWebhook b p)
  | KTelnet => Telnet <$> read_str "addr" t
  | KSsh => let* a := read_str "addr" t in let* u := read_str "user" t in Ok (Ssh a u)
  | KVisa => Visa <$> read_str "resource" t
  | KRemote => Remote <$> read_str "url" t
  | KJournald => Journald <$> d_opt (lit "unit") c_str t
  | KWinEventLog => WinEventLog <$> read_str "channel" t
  | KEtw => Etw <$> read_str "provider" t
  | KJLinkRtt => JLinkRtt <$> d_req (lit "channel") (c_uint u8_max) t
  | KCanBus => CanBus <$> read_str "iface" t
  end.
Definition c_spec : Codec ChannelSpec := mkCodec
  (fun s => f_all (f_req (lit "kind") c_kind (spec_kind s) :: spec_fields s))
  (d_table (fun t => let* k := d_req (lit "kind") c_kind t in read_spec k t)).

#[export] Instance c_save_mode_ok : CodecOk c_save_mode.
Proof. intros [] v [= <-]; reflexivity. Qed.
#[export] Instance c_publish_mode_ok : CodecOk c_publish_mode.
Proof. intros [] v [= <-]; reflexivity. Qed.
#[export] Instance c_kind_ok : CodecOk c_kind.
Proof. intros [] v [= <-]; vm_compute; reflexivity. Qed.
(** Reading the tag, then the fields of its variant. *)
#[export] Instance c_spec_ok : CodecOk c_spec.
Proof.
  intros s v H. unfold c_spec in *. cbn [enc dec] in *. unfold d_table.
  apply f_all_Some in H as (gs & HF & ->). inversion HF as [|? g ? hs Hk HF' E1 E2]; subst. clear HF.
  apply f_req_wrote in Hk as (kv & Ek & Hk).
  assert (Hrest : read_spec (spec_kind s) (concat (g :: hs)) = Ok s).
  { destruct s as [port baud db p sb fl|addr|bind|c|path follow|path|argv|tag|path|bind|broker topic|bind path|addr|addr user|resource|url|u|channel|provider|channel|iface];
      cbn [spec_kind spec_fields read_spec] in *; wrote_all;
      match goal with |- context [concat ?gs] =>
        eassert (HW : written gs _) by (repeat (eapply written_cons; [eassumption|]); apply written_nil)
      end;
      unfold read_str, d_req, d_opt; rewrite ?(get_written _ _ _ HW); cbn [at_key String.eqb Ascii.eqb Bool.eqb]; clear HW.
    4: destruct c; cbn [Spec.interface Spec.display_name Spec.promiscuous Spec.snaplen Spec.buffer_bytes Spec.timeout_ms Spec.immediate
         Spec.filter_expr Spec.save_mode Spec.pcapng_path Spec.publish_mode] in *.
    all: codec_values. }
  unfold d_req. cbn [concat] in *. assert (Hg : get (lit "kind") (g ++ concat hs) = Some kv).
  { by apply wrote_first. }
  rewrite Hg, (codec_ok (c := c_kind) _ _ Ek). done.
Qed.

(** ** Channels and the whole file *)
Definition c_channel_cfg : Codec ChannelCfg := mkCodec
  (fun c => f_all [f_req (lit "spec") c_spec (ch_spec c); f_opt (lit "label") c_str (ch_label c)])
  (d_table (fun t => let* s := d_req (lit "spec") c_spec t in let* l := d_opt (lit "label") c_str t in Ok (mkChannel s l))).
#[export] Instance c_channel_cfg_ok : CodecOk c_channel_cfg.
Proof. codec_fields c_channel_cfg. destruct a; cbn [ch_spec ch_label] in *. codec_values. Qed.

(** Order of texts, and insertion into a [BTreeMap]. *)
Fixpoint str_ltb (a b : list Z) : bool :=
  match a, b with
  | _, [] => false
  | [], _ :: _ => true
  | x :: a', y :: b' => if x =? y then str_ltb a' b' else x <? y
  end.
Fixpoint btree_insert {A} (k : list Z) (v : A) (l : list (list Z * A)) : list (list Z * A) :=
  match l with
  | [] => [(k, v)]
  | (k', v') :: l' =>
      if str_eqb k k' then (k, v) :: l' else if str_ltb k k' then (k, v) :: l else (k', v') :: btree_insert k v l'
  end.
Fixpoint dec_entries {A} (c : Codec A) (t : tfields) (acc : list (list Z * A)) : res TomlError (list (list Z * A)) :=
  match t with [] => Ok acc | (k, v) :: t' => let* a := dec c v in dec_entries c t' (btree_insert k a acc) end.
Definition c_map {A} (c : Codec A) : Codec (list (list Z * A)) := mkCodec
  (fun l => TTab <$> mapM (fun p => v ← enc c (snd p); Some (fst p, v)) l)
  (fun v => match v with TTab t => dec_entries c t [] | _ => Err BadType end).
Definition c_config : Codec ConfigV1 := mkCodec
  (fun c => f_all [f_req (lit "config_version") (c_uint u32_max) (config_version c); f_req (lit "node") c_node_cfg (c_node c);
                   f_req (lit "server") c_server_cfg (c_server c); f_req (lit "export") c_export_cfg (c_export c);
                   f_req (lit "ui") c_ui_cfg (c_ui c); f_req (lit "channels") (c_map c_channel_cfg) (c_channels c);
                   f_req (lit "retention") c_retention_cfg (c_retention c)])
  (d_table (fun t =>
     let* v := d_req (lit "config_version") (c_uint u32_max) t in
     let* n := d_default (lit "node") c_node_cfg node_default t in
     let* s := d_default (lit "server") c_server_cfg server_default t in
     let* x := d_default (lit "export") c_export_cfg export_default t in
     let* u := d_default (lit "ui") c_ui_cfg ui_default t in
     let* h := d_default (lit "channels") (c_map c_channel_cfg) [] t in
     let* r := d_default (lit "retention") c_retention_cfg retention_default t in
     Ok (mkConfig v n s x u h r))).

(** A map as [BTreeMap] keeps it. *)
Definition in_order {A} (l : list (list Z * A)) : Prop := StronglySorted (fun p q => str_ltb (fst p) (fst q) = true) l.
Lemma str_ltb_after a : forall b, str_ltb a b = true -> str_eqb b a = false /\ str_ltb b a = false.
Proof.
  induction a as [|x a IH]; intros [|y b]; cbn [str_ltb]; try done.
  destruct (Z.eqb_spec x y) as [->|N].
    - intros [H1 H2]%IH. rewrite Z.eqb_refl. split; [|done]. apply bool_decide_eq_false. apply bool_decide_eq_false in H1. congruence.
    - intros H. apply Z.ltb_lt in H. rewrite (proj2 (Z.eqb_neq y x)), (proj2 (Z.ltb_ge y x)) by lia. split; [|done].
      apply bool_decide_eq_false. congruence.
Qed.
Lemma btree_insert_last {A} k (v : A) l : Forall (fun p => str_ltb (fst p) k = true) l -> btree_insert k v l = l ++ [(k, v)].
Proof.
  induction 1 as [|[k' v'] l H _ IH]; [done|]. cbn [btree_insert fst] in *. apply str_ltb_after in H as [-> ->]. by rewrite IH.
Qed.
Lemma c_map_ok {A} (c : Codec A) l v : CodecOk c -> in_order l -> enc (c_map c) l = Some v -> dec (c_map c) v = Ok l.
Proof.
  intros Hc Ho. cbn. destruct (mapM _ l) as [t|] eqn:E; [|done]. intros [= <-]. cbn.
  assert (H : forall l t acc, in_order (acc ++ l) -> mapM (fun p => v ← enc c (snd p); Some (fst p, v)) l = Some t ->
    dec_entries c t acc = Ok (acc ++ l)).
  { clear -Hc. induction l as [|[k a] l IH]; intros t acc Ho E; cbn in E; [injection E as <-; by rewrite app_nil_r|].
    destruct (enc c a) as [w|] eqn:Ea; [|done]. cbn in E.
    destruct (mapM (fun p => v ← enc c (snd p); Some (fst p, v)) l) as [t'|] eqn:Et; [|done]. cbn in E. injection E as <-.
    cbn [dec_entries]. rewrite (Hc a w Ea). cbn [mbind res_bind]. rewrite btree_insert_last.
    - rewrite (IH t' (acc ++ [(k, a)])); [by rewrite <- (assoc_L (++))|by rewrite <- (assoc_L (++))|done].
    - unfold in_order in Ho. apply Forall_forall. intros p Hp.
      eapply (StronglySorted_app_1_elem_of _ acc ((k, a) :: l) p (k, a) Ho); [done|left]. }
  apply (H l t []); done.
Qed.

(** What can be written: integers of their width, and within TOML's. *)
Definition fits (max z : Z) : Prop := 0 <= z <= Z.min max i64_max.
Definition spec_fits (s : ChannelSpec) : Prop :=
  match s with
  | Serial _ b d _ s _ => fits u32_max b /\ fits u8_max d /\ fits u8_max s
  | Pcap c => fits u32_max (Spec.snaplen c) /\ fits u32_max (Spec.timeout_ms c) /\ (forall n, Spec.buffer_bytes c = Some n -> fits u32_max n)
  | JLinkRtt c => fits u8_max c
  | _ => True
  end.
Record config_fits (c : ConfigV1) : Prop := {
  cf_version : fits u32_max (config_version c);
  cf_serial : fits u32_max (sc_baud (s_serial (c_server c))) /\ fits u8_max (sc_data_bits (s_serial (c_server c))) /\
              fits u8_max (sc_stop_bits (s_serial (c_server c)));
  cf_ui : fits u64_max (live_flush_ms (c_ui c));
  cf_keep : fits u32_max (keep_days (c_retention c));
  cf_channels : Forall (fun p => spec_fits (ch_spec (snd p))) (c_channels c);
  cf_order : in_order (c_channels c) }.

Lemma enc_uint max z : fits max z -> enc (c_uint max) z = Some (TInt z).
Proof. intros H. cbn. by rewrite (proj2 (in_range_spec _ _ _) H). Qed.
Lemma enc_strs l : exists v, enc (c_list c_str) l = Some v.
Proof.
  unfold c_list. cbn [enc]. assert (H : mapM (enc c_str) l = Some (map TStr l)).
  { induction l as [|s l IH]; [done|]. cbn in *. by rewrite IH. }
  rewrite H. by eexists.
Qed.
Lemma f_req_Some {A} k (c : Codec A) a : (exists v, enc c a = Some v) -> exists f, f_req k c a = Some f.
Proof. intros [v E]. unfold f_req. rewrite E. by eexists. Qed.
Lemma f_all_ok fs : Forall (fun o => exists f, o = Some f) fs -> exists v, f_all fs = Some v.
Proof.
  intros H. assert (exists gs, mapM Datatypes.id fs = Some gs) as [gs E].
  { induction H as [|o fs [f ->] _ [gs IH]]; [by exists []|]. exists (f :: gs). cbn in *. by rewrite IH. }
  unfold f_all. rewrite E. by eexists.
Qed.
Ltac enc_fields :=
  apply f_all_ok; repeat (apply Forall_cons; split); try apply Forall_nil_2;
  try match goal with |- exists f, f_opt _ _ ?o = Some f => destruct o; [unfold f_opt|by eexists] end;
  try match goal with |- exists f, f_nonempty _ _ ?l = Some f => destruct l eqn:?; [by eexists|unfold f_nonempty] end;
  try apply f_req_Some; try apply enc_strs; try (by eexists); try (eexists; by apply enc_uint).

Lemma enc_spec s : spec_fits s -> exists v, enc c_spec s = Some v.
Proof.
  intros H. unfold c_spec. cbn [enc]. destruct s; cbn [spec_fits spec_fields spec_kind] in *; enc_fields; destruct H as (? & ? & ?);
    eexists; by apply enc_uint; auto.
Qed.
Lemma enc_server s : fits u32_max (sc_baud (s_serial s)) -> fits u8_max (sc_data_bits (s_serial s)) -> fits u8_max (sc_stop_bits (s_serial s)) ->
  exists v, enc c_server_cfg s = Some v.
Proof.
  intros H1 H2 H3. unfold c_server_cfg. cbn [enc]. enc_fields.
  - unfold c_serial_cfg. cbn [enc]. enc_fields.
  - unfold c_tls_cfg. cbn [enc]. enc_fields.
Qed.
Lemma enc_channels l : Forall (fun p => spec_fits (ch_spec (snd p))) l -> exists v, enc (c_map c_channel_cfg) l = Some v.
Proof.
  intros H. cbn [c_map enc]. assert (exists t, mapM (fun p => v ← enc c_channel_cfg (snd p); Some (fst p, v)) l = Some t) as [t ->]; [|by eexists].
  induction H as [|[k c] l Hc _ [t IH]]; [by exists []|]. cbn [snd] in Hc.
  assert (exists v, enc c_channel_cfg c = Some v) as [v E].
  { unfold c_channel_cfg. cbn [enc]. enc_fields. by apply enc_spec. }
  exists ((k, v) :: t). cbn [mapM fst snd]. rewrite E. cbn [mbind option_bind]. by rewrite IH.
Qed.
Lemma config_encodes c : config_fits c -> exists v, enc c_config c = Some v.
Proof.
  intros [H1 (H2 & H3 & H4) H5 H6 H7 _]. unfold c_config. cbn [enc]. enc_fields.
  - unfold c_node_cfg. cbn [enc]. enc_fields.
  - by apply enc_server.
  - unfold c_export_cfg. cbn [enc]. enc_fields.
  - unfold c_ui_cfg. cbn [enc]. enc_fields.
  - by apply enc_channels.
  - unfold c_retention_cfg. cbn [enc]. enc_fields.
Qed.
Lemma config_decodes c v : in_order (c_channels c) -> enc c_config c = Some v -> dec c_config v = Ok c.
Proof.
  intros Ho. revert v. unfold c_config. cbn [enc dec]. intros v H. apply f_all_Some in H as (? & ? & ->). wrote_all. unfold d_table.
  match goal with |- context [concat ?gs] =>
    eassert (HW : written gs _) by (repeat (eapply written_cons; [eassumption|]); apply written_nil) end.
  unfold d_req, d_default, d_opt. rewrite ?(get_written _ _ _ HW). cbn [at_key String.eqb Ascii.eqb Bool.eqb]. clear HW.
  match goal with H : enc (c_map _) _ = Some _ |- _ => rewrite (c_map_ok _ _ _ _ Ho H) end.
  destruct c. cbn [config_version c_node c_server c_export c_ui c_channels c_retention] in *. codec_values.
Qed.

(** ** Loading a file *)
Section Load.
  (** The toml crate: the text of a value, and the value of a text. *)
  Context (toml_text : Toml -> list Z) (toml_value : list Z -> option Toml).
Definition toml_table (body : list Z) : option tfields := v ← toml_value body; match v with TTab t => Some t | _ => None end.
Definition toml_integer (v : Toml) : option Z := match v with TInt z => Some z | _ => None end.
Definition toml_config (body : list Z) : option ConfigV1 :=
  v ← toml_value body; match dec c_config v with Ok c => Some c | _ => None end.
Definition load_config (body : list Z) : res ConfigMigrationError ConfigV1 :=
  migrate_config_to_latest tfields Toml ConfigV1 toml_table (fun t k => get k t) toml_integer toml_config body.

(** C31: A configuration file is what was saved: every configuration of version 1
    whose numbers TOML can hold can be written, and loading its text, past the
    check of its version, gives the same configuration: settings, defaults and
    channels of every kind in the order of their names. *)
Theorem config_round_trip c :
  (forall v, enc c_config c = Some v -> toml_value (toml_text v) = Some v) -> config_version c = 1 -> config_fits c ->
  exists v, enc c_config c = Some v /\ dec c_config v = Ok c /\ load_config (toml_text v) = Ok c.
Proof.
  intros Ht Hv Hf. destruct (config_encodes c Hf) as [v E]. pose proof (config_decodes c v (cf_order c Hf) E) as Hd. specialize (Ht v E).
  assert (Hc : toml_config (toml_text v) = Some c) by (unfold toml_config; rewrite Ht; cbn [mbind option_bind]; by rewrite Hd).
  exists v. split; [done|]. split; [done|]. unfold load_config, migrate_config_to_latest, detect_config_version.
  assert (Hb : toml_table (toml_text v) ≫= get (lit "config_version") = Some (TInt 1) /\ is_Some (toml_table (toml_text v))).
  { unfold toml_table. rewrite Ht. cbn [mbind option_bind]. clear Ht Hd Hc. unfold c_config in E. cbn [enc] in E.
    apply f_all_Some in E as (gs & HF & ->). split; [|by eexists]. inversion HF as [|o g os hs H1 _ E1 E2]; subst.
    apply f_req_wrote in H1 as (w & Ew & Hw). rewrite Hv in Ew. injection Ew as <-. cbn [concat].
    by apply wrote_first. }
  destruct Hb as [Hb [t Et]]. rewrite Et in *. cbn [ok_or mbind option_bind res_bind] in *. rewrite Hb. cbn.
  by rewrite Hc.
Qed.
End Load.

(** Authentication is required unless the file says otherwise: a configuration
    that does not require it was read from a table with
    [server.require_auth = false]. *)
Theorem auth_required_unless_disabled v c :
  dec c_config v = Ok c -> s_require_auth (c_server c) = false ->
  exists t s, v = TTab t /\ get (lit "server") t = Some (TTab s) /\ get (lit "require_auth") s = Some (TBool false).
Proof.
  unfold c_config. cbn [dec]. unfold d_table. destruct v as [| | | |t|]; try done. intros H Hr.
  apply bind_Ok in H as (ver & _ & H). apply bind_Ok in H as (n & _ & H). apply bind_Ok in H as (s & Hs & H).
  apply bind_Ok in H as (x & _ & H). apply bind_Ok in H as (u & _ & H). apply bind_Ok in H as (h & _ & H).
  apply bind_Ok in H as (r & _ & H). injection H as <-. cbn [c_server] in Hr.
  unfold d_default in Hs. destruct (get (lit "server") t) as [w|] eqn:Eg; [|by injection Hs as <-].
  unfold c_server_cfg in Hs. cbn [dec] in Hs. unfold d_table in Hs. destruct w as [| | | |st|]; try done.
  exists t, st. split; [done|]. split; [done|].
  apply bind_Ok in Hs as (? & _ & Hs). apply bind_Ok in Hs as (? & _ & Hs). apply bind_Ok in Hs as (? & _ & Hs).
  apply bind_Ok in Hs as (? & _ & Hs). apply bind_Ok in Hs as (? & _ & Hs). apply bind_Ok in Hs as (? & _ & Hs).
  apply bind_Ok in Hs as (? & _ & Hs). apply bind_Ok in Hs as (? & _ & Hs). apply bind_Ok in Hs as (a & Ha & Hs).
  injection Hs as <-. cbn [s_require_auth] in Hr. subst a. unfold d_default in Ha.
  destruct (get (lit "require_auth") st) as [w|]; [|done]. cbn in Ha. destruct w; try done. by injection Ha as ->.
Qed.

(** A file with nothing but its version, and one with a channel; unknown keys are
    ignored, and a retention table without days is refused. *)
Example minimal_config : dec c_config (TTab [(lit "config_version", TInt 1)]) = Ok config_default.
Proof. reflexivity. Qed.
Example retention_needs_days :
  dec c_config (TTab [(lit "config_version", TInt 1); (lit "retention", TTab [])]) = Err (MissingField (lit "keep_days")).
Proof. reflexivity. Qed.
Definition config0 : ConfigV1 :=
  mkConfig 1 node_default server_default export_default (mkUi 5)
    [(lit "a", mkChannel (Pcap (mkPcap (lit "eth0") None true 100 (Some 7) 5 false None SaveBoth (Some (lit "x")) Full)) None);
     (lit "b", mkChannel (Serial (lit "COM1") 9600 8 (lit "none") 1 (lit "none")) (Some (lit "left")))] (mkRetention 3).
Lemma config0_fits : config_fits config0.
Proof.
  assert (Hi : i64_max = 2 ^ 63 - 1) by reflexivity.
  split; unfold config0; cbn [config_version c_server server_default s_serial serial_default sc_baud sc_data_bits sc_stop_bits c_ui live_flush_ms
    c_retention keep_days c_channels]; unfold fits, u8_max, u32_max, u64_max in *; try lia.
  - repeat split; cbn; unfold default_serial_baud, default_serial_data_bits, default_serial_stop_bits; lia.
  - repeat (apply Forall_cons; split); [..|apply Forall_nil_2]; cbn; unfold fits, u8_max, u32_max in *; [|lia].
    split; [lia|]. split; [lia|]. intros n [= <-]. lia.
  - repeat (apply SSorted_cons || apply SSorted_nil || apply Forall_cons || split || apply Forall_nil_2); reflexivity.
Qed.
Lemma config_round_trip_witness : exists v, enc c_config config0 = Some v /\
  load_config (fun b => if bool_decide (b = lit "saved") then Some v else None) (lit "saved") = Ok config0.
Proof.
  destruct (config_round_trip (fun _ => lit "saved") (fun b => if bool_decide (b = lit "saved") then enc c_config config0 else None) config0)
    as (v & E & _ & H).
  - intros v E. exact E.
  - reflexivity.
  - exact config0_fits.
  - exists v. rewrite E in H. split; [exact E|exact H].
Defined.
