(* ===== verification/Serve.v ===== *)
(** * tracemux serve: from the command line to a listening server

    crates/cli/src/main.rs (the settings [serve] and [export] work with:
    arguments before the configuration file before defaults), the assembly of
    crates/server/src/lib.rs
    ([run_with_session_root_classifier_encoding_pattern_startup_and_options]),
    and [ws_handler] of crates/server/src/ws.rs.  Sources are started through
    [Ws.SourceApi] and [Startup.StartKeeps]; argon2, TOML, rustls and what the
    operating system answers are arguments. *)
From stdpp Require Import base numbers strings gmap list.
From S2P Require Import Prelude Text Spec Naming Clock Decoder Detect Wire Sessions Runner Manager Export Auth Annotations WsParse Ws WsManager Client Startup Commands Host Config.

Local Open Scope Z_scope.
Local Open Scope tm_scope.

(** ** Arguments *)
Record ServeArgs := mkServeArgs {
  a_config : option (list Z); a_bind : option (list Z); a_session_root : option (list Z); a_session_name_pattern : option (list Z);
  a_no_auth : bool; a_require_auth : bool; a_token_phc : list (list Z); a_token_phc_files : list (list Z); a_tls : bool;
  a_tls_dir : option (list Z); a_encoding : option (list Z); a_detect_mode : option (list Z); a_classify : list (list Z);
  a_classify_regex : list (list Z); a_open_all_serial : bool; a_serial_ports : list (list Z); a_serial_baud : option Z;
  a_serial_data_bits : option Z; a_serial_parity : option (list Z); a_serial_stop_bits : option Z; a_serial_flow : option (list Z) }.
(** [conflicts_with]: clap refuses both flags together. *)
Definition args_accepted (a : ServeArgs) : bool := negb (a_no_auth a && a_require_auth a).

Definition given {A} (o : option A) : bool := match o with Some _ => true | None => false end.
(** The argument, else what the file says, else the default. *)
Definition setting {A} (arg : option A) (config : option ConfigV1) (field : ConfigV1 -> A) (dflt : A) : A :=
  match arg with Some v => v | None => match config with Some c => field c | None => dflt end end.
Definition serve_bind (a : ServeArgs) (c : option ConfigV1) : list Z :=
  setting (a_bind a) c (fun c => s_bind (c_server c)) (lit "127.0.0.1:0").
Definition serve_session_root (a : ServeArgs) (c : option ConfigV1) : list Z :=
  setting (a_session_root a) c (fun c => s_session_root (c_server c)) (lit "tracemux-sessions").
Definition serve_encoding (a : ServeArgs) (c : option ConfigV1) : list Z :=
  setting (a_encoding a) c (fun c => Config.s_encoding (c_server c)) (lit "utf-8").
Definition serve_detect_mode (a : ServeArgs) (c : option ConfigV1) : list Z :=
  setting (a_detect_mode a) c (fun c => s_detect_mode (c_server c)) (lit "configured").
Definition serve_session_name_pattern (a : ServeArgs) (c : option ConfigV1) : option (list Z) :=
  match a_session_name_pattern a with Some p => Some p | None => c ≫= fun c => s_session_name_pattern (c_server c) end.
Definition serve_retention_keep_days (c : option ConfigV1) : Z := match c with Some c => keep_days (c_retention c) | None => 0 end.
(** [WsDeliveryOptions]: the least interval between sends, in milliseconds. *)
Definition serve_ws_delivery (c : option ConfigV1) : Z := match c with Some c => live_flush_ms (c_ui c) | None => 0 end.
Definition serve_export_defaults (c : option ConfigV1) : ExportDefaults :=
  mkDefaults (c ≫= fun c => x_timezone (c_export c)) (c ≫= fun c => x_encoding (c_export c)).
(** [export_timezone] and [export_encoding] of the export command. *)
Definition export_setting (arg : option (list Z)) (c : option ConfigV1) (field : ExportCfg -> option (list Z)) : option (list Z) :=
  match arg with Some v => Some v | None => c ≫= fun c => field (c_export c) end.
Definition serve_no_auth (a : ServeArgs) (c : option ConfigV1) : bool :=
  if a_no_auth a then true else if a_require_auth a then false
  else match c with Some c => negb (s_require_auth (c_server c)) | None => false end.

Definition serve_startup_sources (a : ServeArgs) (c : option ConfigV1) : StartupSources :=
  let channels := match c with
                  | Some c => map (fun p => Startup.mkChannel (fst p) (Config.ch_label (snd p)) (Config.ch_spec (snd p))) (c_channels c)
                  | None => []
                  end in
  let serial := (fun c => s_serial (c_server c)) <$> c in
  let pick {A} (arg : option A) (field : SerialStartupCfg -> A) (dflt : A) :=
    match arg with Some v => v | None => match serial with Some s => field s | None => dflt end end in
  if a_open_all_serial a || match serial with Some s => sc_open_all s | None => false end then
    let ports := match a_serial_ports a with
                 | [] => serial ≫= fun s => match sc_ports s with [] => None | ps => Some ps end
                 | ps => Some ps
                 end in
    mkStartup channels
      (Some (mkAutostart ports
         (mkSerialOptions (pick (a_serial_baud a) sc_baud 115200) (pick (a_serial_data_bits a) sc_data_bits 8)
            (pick (a_serial_parity a) sc_parity (lit "none")) (pick (a_serial_stop_bits a) sc_stop_bits 1)
            (pick (a_serial_flow a) sc_flow (lit "none")))))
  else mkStartup channels None.
Definition serve_security (a : ServeArgs) (c : option ConfigV1) (session_root : list Z) : ServerSecurity :=
  let config_dir : option (list Z) := c ≫= fun c => Config.tls_dir (s_tls (c_server c)) in
  let enabled := match c with Some c => tls_enabled (s_tls (c_server c)) | None => false end in
  let tls := if a_tls a || given (a_tls_dir a) || enabled || given config_dir
             then Some (match a_tls_dir a with Some d => d | None => default (path_join session_root (lit "tls")) config_dir end)
             else None in
  mkSecurity (a_token_phc a)
    (match c with Some c => s_token_phc_files (c_server c) | None => [] end ++ a_token_phc_files a) tls.

(** ** The server's assembly *)
Record ServerRunOptions := mkRunOptions {
  ro_detection_mode : DetectionMode; ro_security : ServerSecurity; ro_retention_keep_days : Z; ro_export_defaults : ExportDefaults;
  ro_ws_delivery : Z }.
Inductive ServeError :=
| ConfigUnreadable | ConfigInvalid (e : ConfigMigrationError) | BadRule (e : LogCmd.LogError) | BadDetectMode
| SecurityFailed (e : SecurityError) | RootFailed | PruneFailed | AuditFailed | AnnotationsFailed (e : AnnotationApiError)
| BindFailed | TlsFailed (e : Tls.TlsError).
(** What is kept on disk: the entries of the session root, the annotations'
    file, and the directory of the TLS identity. *)
Record Disk := mkDisk { d_entries : list Prune.DirEntry; d_notes : option (list Z); d_tls : Tls.TlsDir }.
(** What the operating system answers. *)
Record Os := mkOs {
  os_mkdir : bool; os_now : Z; os_remove : Prune.DirEntry -> bool; os_audit : bool; os_serial : list (list Z);
  os_bind : list Z -> bool; os_save : Tls.save_io }.

Section Serve.
  Context {M : Type} `{HA : !SourceApi M}.
  (** A new source manager with its settings, and the settings of one. *)
  Context (new_manager : Settings -> M) (settings_of : M -> Settings).
  Context (phc_ok : list Z -> bool) (verify_password : list Z -> list Z -> bool) (read_to_string : list Z -> option (list Z)).
  Context (parse_note : list Z -> option Annotation).
  Context (generate : list (list Z) -> list Z + Tls.CertBundle) (readable : list Z -> bool)
    (certs_of : list Z -> list Z + list (list Z)) (key_of : list Z -> list Z + list Z) (install : list (list Z) -> list Z -> option (list Z)).
  Context (build_regex : list Z -> bool -> option (list Z -> Z)) (toml_value : list Z -> option Toml).

(** A server that accepts connections. *)
Record Listening := mkListening {
  l_addr : list Z; l_auth : BearerVerifier; l_no_auth : bool; l_manager : M; l_notes : AnnotationStore; l_defaults : ExportDefaults;
  l_delivery : Z; l_cap : Z; l_tls : option Tls.CertBundle }.

(** The listener, and the certificate when TLS is on. *)
Definition bind_listener (bind : list Z) (tls : option (list Z)) (os : Os) (d : Disk) : Disk * res ServeError (option Tls.CertBundle) :=
  if negb (os_bind os bind) then (d, Err BindFailed)
  else match tls with
       | None => (d, Ok None)
       | Some _ =>
           let '(t, r) := Tls.load_or_generate generate readable (d_tls d) (os_save os) in
           let d' := mkDisk (d_entries d) (d_notes d) t in
           match r with
           | Ok b =>
               match Tls.leaf_cert_der certs_of key_of b with
               | Ok _ => match Tls.build_server_config certs_of key_of install b with
                         | Ok _ => (d', Ok (Some b)) | Err e => (d', Err (TlsFailed e)) | Panic => (d', Panic) end
               | Err e => (d', Err (TlsFailed e))
               | Panic => (d', Panic)
               end
           | Err e => (d', Err (TlsFailed e))
           | Panic => (d', Panic)
           end
       end.

(** Everything up to [serve]; the disk is what the steps so far have left. *)
Definition run_server (bind : list Z) (no_auth : bool) (session_root : list Z) (classifier : LogClassifier) (encoding pattern : list Z)
    (startup : StartupSources) (o : ServerRunOptions) (os : Os) (d : Disk) : Disk * option M * res ServeError Listening :=
  match map_err SecurityFailed (bearer_verifier phc_ok read_to_string (ro_security o)) with
  | Err e => (d, None, Err e)
  | Panic => (d, None, Panic)
  | Ok auth =>
      if negb (os_mkdir os) then (d, None, Err RootFailed)
      else
        let '(es, pruned) := Prune.prune_old_session_dirs_at (ro_retention_keep_days o) (os_now os) (os_remove os) (d_entries d) in
        let d1 := mkDisk es (d_notes d) (d_tls d) in
        match pruned with
        | Err _ => (d1, None, Err PruneFailed)
        | Panic => (d1, None, Panic)
        | Ok _ =>
            if negb (os_audit os) then (d1, None, Err AuditFailed)
            else match Annotations.open parse_note (d_notes d1) with
                 | Err e => (d1, None, Err (AnnotationsFailed e))
                 | Panic => (d1, None, Panic)
                 | Ok notes =>
                     let settings := set_detection_mode (mkMgrSettings (Some session_root) classifier encoding Configured pattern)
                                       (ro_detection_mode o) in
                     let '(m, _) := start_configured_sources settings_of (new_manager settings) (os_serial os) startup in
                     let '(d2, r) := bind_listener bind (Startup.tls_dir (ro_security o)) os d1 in
                     (d2, Some m,
                      let* tls := r in
                      Ok (mkListening bind auth no_auth m notes (ro_export_defaults o) (ro_ws_delivery o) Conn.MAX_CONNS tls))
                 end
        end
  end.

(** [load_serve_config]. *)
Definition load_serve_config (path : option (list Z)) : res ServeError (option ConfigV1) :=
  match path with
  | None => Ok None
  | Some p =>
      let* body := ok_or (read_to_string p) ConfigUnreadable in
      let* c := map_err ConfigInvalid (load_config toml_value body) in
      Ok (Some c)
  end.
Definition run_serve (a : ServeArgs) (os : Os) (d : Disk) : Disk * option M * res ServeError Listening :=
  match (let* config := load_serve_config (a_config a) in
         let* classifier := map_err BadRule (LogCmd.classifier_from_specs build_regex (a_classify a) (a_classify_regex a)) in
         let* mode := ok_or (mode_parse (serve_detect_mode a config)) BadDetectMode in
         Ok (config, classifier, mode)) with
  | Err e => (d, None, Err e)
  | Panic => (d, None, Panic)
  | Ok (config, classifier, mode) =>
      let root := serve_session_root a config in
      run_server (serve_bind a config) (serve_no_auth a config) root classifier (serve_encoding a config)
        (default SessionName.DEFAULT_SERVER_SESSION_NAME_PATTERN (serve_session_name_pattern a config)) (serve_startup_sources a config)
        (mkRunOptions mode (serve_security a config root) (serve_retention_keep_days config) (serve_export_defaults config)
           (serve_ws_delivery config)) os d
  end.

(** ** The entry points of the library with fewer settings *)
Definition run_with_security (bind : list Z) (no_auth : bool) (root : list Z) (cl : LogClassifier) (encoding pattern : list Z)
    (startup : StartupSources) (security : ServerSecurity) : Os -> Disk -> Disk * option M * res ServeError Listening :=
  run_server bind no_auth root cl encoding pattern startup (mkRunOptions Configured security 0 (mkDefaults None None) 0).
Definition run_with_startup (bind : list Z) (no_auth : bool) (root : list Z) (cl : LogClassifier) (encoding pattern : list Z) (startup : StartupSources) :=
  run_with_security bind no_auth root cl encoding pattern startup (mkSecurity [] [] None).
Definition run_with_pattern (bind : list Z) (no_auth : bool) (root : list Z) (cl : LogClassifier) (encoding pattern : list Z) :=
  run_with_startup bind no_auth root cl encoding pattern (mkStartup [] None).
Definition run_with_encoding (bind : list Z) (no_auth : bool) (root : list Z) (cl : LogClassifier) (encoding : list Z) :=
  run_with_pattern bind no_auth root cl encoding SessionName.DEFAULT_SERVER_SESSION_NAME_PATTERN.
Definition run_with_classifier (bind : list Z) (no_auth : bool) (root : list Z) (cl : LogClassifier) := run_with_encoding bind no_auth root cl (lit "utf-8").
Definition run_with_session_root (bind : list Z) (no_auth : bool) (root : list Z) := run_with_classifier bind no_auth root [].
(** [default_session_root]: the variable TRACEMUX_SESSION_ROOT. *)
Definition default_session_root (var : option (list Z)) : list Z := default (lit "tracemux-sessions") var.
Definition run (bind : list Z) (no_auth : bool) (root_var : option (list Z)) := run_with_session_root bind no_auth (default_session_root root_var).

(** ** [ws_handler]: admission of a connection *)
Inductive Upgrade := Unauthorized | CapReached | Upgraded.
Definition ws_handler (l : Listening) (protocol_header : option (list Z)) (peer : IpAddr) (slot_free : bool) : Upgrade :=
  match check_auth phc_ok verify_password protocol_header peer (l_auth l) (l_no_auth l) with
  | AuthRejected _ => Unauthorized
  | _ => if slot_free then Upgraded else CapReached
  end.

(** ** Who is admitted *)
Lemma run_server_auth bind no_auth root cl enc_ pat st o os d d' m l :
  run_server bind no_auth root cl enc_ pat st o os d = (d', m, Ok l) ->
  bearer_verifier phc_ok read_to_string (ro_security o) = Ok (l_auth l) /\ l_no_auth l = no_auth /\ m = Some (l_manager l).
Proof using Type.
  unfold run_server. destruct (bearer_verifier _ _ _) as [v|e|]; cbn [map_err]; [|done..].
  destruct (negb (os_mkdir os)); [done|]. destruct (Prune.prune_old_session_dirs_at _ _ _ _) as [es [?|?|]]; [|done..].
  destruct (negb (os_audit os)); [done|]. destruct (Annotations.open _ _) as [notes|?|]; [|done..].
  destruct (start_configured_sources _ _ _ _) as [mm ?]. destruct (bind_listener _ _ _ _) as [d2 [tls|?|]]; [|done..].
  cbn. intros [= <- <- <-]. done.
Qed.
Lemma run_serve_auth a os d d' m l : run_serve a os d = (d', m, Ok l) ->
  exists config, load_serve_config (a_config a) = Ok config /\
    bearer_verifier phc_ok read_to_string (serve_security a config (serve_session_root a config)) = Ok (l_auth l) /\
    l_no_auth l = serve_no_auth a config.
Proof using Type.
  intros H. unfold run_serve in H. destruct (load_serve_config (a_config a)) as [config|e|]; cbn [mbind res_bind] in H; [|done..].
  destruct (map_err BadRule _) as [cl|e|]; cbn [mbind res_bind] in H; [|done..].
  destruct (ok_or _ BadDetectMode) as [mode|e|]; cbn [mbind res_bind] in H; [|done..].
  apply run_server_auth in H as (Hv & Hn & _). by exists config.
Qed.
(** A server started with nothing but an address lets in nobody, or, without
    authentication, a loopback peer that presents no token. *)
Lemma run_closed bind no_auth var os d d' m l header peer : run bind no_auth var os d = (d', m, Ok l) ->
  ws_handler l header peer true = Upgraded <-> header ≫= extract_bearer = None /\ no_auth = true /\ is_loopback_allowed peer = true.
Proof using Type.
  clear build_regex toml_value. intros H. apply run_server_auth in H as (Hv & Hn & _). injection Hv as Hv. unfold ws_handler, check_auth. rewrite <- Hv, Hn.
  destruct (header ≫= extract_bearer) as [tok|]; cbn; [intuition congruence|]. destruct no_auth, (is_loopback_allowed peer); cbn; intuition congruence.
Qed.
(** Why a server does without a token: the flag, or a file that says so and no
    flag against it. *)
Definition exemption_asked (a : ServeArgs) : Prop :=
  a_no_auth a = true \/
  (a_require_auth a = false /\ exists p body t s, a_config a = Some p /\ read_to_string p = Some body /\ toml_value body = Some (TTab t) /\
     get (lit "server") t = Some (TTab s) /\ get (lit "require_auth") s = Some (TBool false)).
Lemma serve_no_auth_asked a config : load_serve_config (a_config a) = Ok config -> serve_no_auth a config = true -> exemption_asked a.
Proof using Type.
  intros Hc H. unfold serve_no_auth in H. destruct (a_no_auth a) eqn:E1; [by left|]. right.
  destruct (a_require_auth a); [done|]. split; [done|]. destruct config as [c|]; [|done]. apply negb_true_iff in H.
  unfold load_serve_config in Hc. destruct (a_config a) as [p|]; [|done].
  apply bind_Ok in Hc as (body & Hb & Hc). apply bind_Ok in Hc as (c' & Hl & Hc). injection Hc as ->.
  unfold ok_or in Hb. destruct (read_to_string p) as [b|] eqn:Er; [injection Hb as ->|done].
  unfold load_config, migrate_config_to_latest in Hl.
  destruct (detect_config_version _ _ _ _ _ body) as [v|e|]; cbn in Hl; [|done..]. destruct (v =? 1); [|done].
  unfold toml_config in Hl. destruct (toml_value body) as [tv|] eqn:Et; [|done]. cbn [mbind option_bind] in Hl.
  destruct (dec c_config tv) as [c1|?|] eqn:Ed; cbn in Hl; [injection Hl as ->|done..].
  destruct (auth_required_unless_disabled tv c Ed H) as (t & s & -> & H1 & H2). by exists p, body, t, s.
Qed.

(** C13: Who gets in: a server started from the command line upgrades a
    connection only when the token it sent is verified by a hash that was
    provisioned — with [--token-phc], or on a line of a token file named by the
    arguments or the configuration —, or when it sent none, comes from a
    loopback address, and the operator asked for the exemption: with
    [--no-auth], or in the configuration file without [--require-auth].  With
    neither a hash nor the exemption nobody gets in. *)
Theorem serve_admits a os d d' m l header peer slot :
  run_serve a os d = (d', m, Ok l) -> ws_handler l header peer slot = Upgraded ->
  slot = true /\ exists config, load_serve_config (a_config a) = Ok config /\
  ((exists tok, header ≫= extract_bearer = Some tok /\
      Exists (fun h => verify_password (utf8 tok) h = true)
        (provisioned read_to_string (serve_security a config (serve_session_root a config)))) \/
   (header ≫= extract_bearer = None /\ is_loopback_allowed peer = true /\ exemption_asked a)).
Proof using Type.
  intros H Hu. destruct (run_serve_auth _ _ _ _ _ _ H) as (config & Ec & Hv & Hn).
  unfold ws_handler, check_auth in Hu. destruct (header ≫= extract_bearer) as [tok|] eqn:Eh.
  - destruct (verify phc_ok verify_password (l_auth l) tok) as [[]|?|] eqn:Ev; [|done..].
    destruct slot; [|done]. split; [done|]. exists config. split; [done|]. left. exists tok. split; [done|].
    by apply (proj2 (bearer_verifier_exact phc_ok read_to_string verify_password _) (l_auth l) tok Hv).
  - rewrite Hn in Hu. destruct (serve_no_auth a config) eqn:En; cbn [andb] in Hu; [|done].
    destruct (is_loopback_allowed peer) eqn:El; [|done]. destruct slot; [|done]. split; [done|]. exists config. split; [done|].
    right. split; [done|]. split; [done|]. by eapply serve_no_auth_asked.
Qed.

(** ** What is up when the server listens *)
Section Up.
  Context (good : M -> Prop) `{HK : !StartKeeps M good} (good_new : forall s, good (new_manager s)).

End Up.

(** The address is taken last.  A server that cannot bind — another one
    is running there — has pruned the session root and started every source by
    then. *)
Theorem bind_failure_after_start bind no_auth root cl enc_ pat st o os d v notes stats es :
  bearer_verifier phc_ok read_to_string (ro_security o) = Ok v -> os_mkdir os = true -> os_audit os = true ->
  Prune.prune_old_session_dirs_at (ro_retention_keep_days o) (os_now os) (os_remove os) (d_entries d) = (es, Ok stats) ->
  Annotations.open parse_note (d_notes d) = Ok notes -> os_bind os bind = false ->
  exists d' m, run_server bind no_auth root cl enc_ pat st o os d = (d', Some m, Err BindFailed) /\ d_entries d' = es /\
    m = fst (start_configured_sources settings_of (new_manager (set_detection_mode (mkMgrSettings (Some root) cl enc_ Configured pat)
               (ro_detection_mode o))) (os_serial os) st).
Proof using Type.
  intros Hv Hm Ha Hp Hn Hb. unfold run_server. rewrite Hv, Hm, Ha, Hp. cbn [map_err negb d_notes]. rewrite Hn.
  destruct (start_configured_sources _ _ _ _) as [m ts]. unfold bind_listener. rewrite Hb. cbn. by eexists _, _.
Qed.
End Serve.

(** ** A server over the source manager *)
Module ServeDemo.
Lemma keyed_new s : registry_keyed unit (new unit s).
Proof. intros i x H. cbn in H. by rewrite lookup_empty in H. Qed.
Definition new_manager (s : Settings) : WsManager.Server unit := WsManager.mkServer unit (new unit s) 0 (keyed_new s).
Definition settings_of (m : WsManager.Server unit) : Settings := settings unit (sv unit m).
(** A file that asks for a mock channel and no token, and a hash for the token [k]. *)
Definition config_value : Toml :=
  TTab [(lit "config_version", TInt 1); (lit "server", TTab [(lit "require_auth", TBool false); (lit "tls", TTab [(lit "enabled", TBool true)])]);
        (lit "channels", TTab [(lit "demo", TTab [(lit "spec", TTab [(lit "kind", TStr (lit "mock")); (lit "tag", TStr (lit "m"))])])])].
Definition files (p : list Z) : option (list Z) := if bool_decide (p = lit "t.toml") then Some (lit "doc") else None.
Definition toml (body : list Z) : option Toml := if bool_decide (body = lit "doc") then Some config_value else None.
Definition args : ServeArgs :=
  mkServeArgs (Some (lit "t.toml")) None (Some (lit "root")) None false false [7 :: lit "k"] [] false None None None [] [] false [] None None None None None.
Definition os : Os := mkOs true 0 (fun _ => true) true [] (fun _ => true) Tls.SaveOk.
Definition disk0 : Disk := mkDisk [] None (Tls.mkTlsDir None None).
Definition result := @run_serve _ Demo.api new_manager settings_of toy_ok files (fun _ => None) (fun _ => inr (Tls.mkBundle [1] [2])) (fun _ => true)
  (fun c => inr [c]) (fun k => inr k) (fun _ _ => None) (fun _ _ => None) toml args os disk0.
End ServeDemo.

(** It listens, presents its certificate, runs the channel, and admits a loopback
    peer without a token and another one with it. *)
Example serve_demo_up :
  match ServeDemo.result with
  | (_, _, Ok l) =>
      Serve.l_tls l = Some (Tls.mkBundle [1] [2]) /\ l_addr l = lit "127.0.0.1:9443" /\
      @api_running _ Demo.api (l_manager l) 1 = true /\
      ws_handler toy_ok toy_verify l None (V4 127 0 0 1) true = Upgraded /\
      ws_handler toy_ok toy_verify l None (V4 10 0 0 1) true = Unauthorized /\
      ws_handler toy_ok toy_verify l (Some (lit "tracemux.v1, bearer.k")) (V4 10 0 0 1) true = Upgraded
  | _ => False
  end.
Proof. vm_compute. done. Qed.

Definition demo_listening : option (Listening (M := WsManager.Server unit)) := match ServeDemo.result with (_, _, Ok l) => Some l | _ => None end.
Lemma demo_result : exists d' m l, ServeDemo.result = (d', m, Ok l) /\ demo_listening = Some l.
Proof.
  pose proof serve_demo_up as H. unfold demo_listening. destruct ServeDemo.result as [[d' m] [l|e|]]; [|done..]. by exists d', m, l.
Qed.
Lemma serve_admits_witness : exists d' m l, ServeDemo.result = (d', m, Ok l) /\
  ws_handler toy_ok toy_verify l None (V4 127 0 0 1) true = Upgraded /\
  exemption_asked ServeDemo.files ServeDemo.toml ServeDemo.args.
Proof.
  destruct demo_result as (d' & m & l & E & _). exists d', m, l. split; [exact E|].
  assert (Hu : ws_handler toy_ok toy_verify l None (V4 127 0 0 1) true = Upgraded).
  { pose proof serve_demo_up as H. rewrite E in H. apply H. }
  split; [exact Hu|].
  destruct (@serve_admits _ Demo.api ServeDemo.new_manager ServeDemo.settings_of toy_ok toy_verify ServeDemo.files (fun _ => None)
    (fun _ => inr (Tls.mkBundle [1] [2])) (fun _ => true) (fun c => inr [c]) (fun k => inr k) (fun _ _ => None) (fun _ _ => None) ServeDemo.toml
    ServeDemo.args ServeDemo.os ServeDemo.disk0 d' m l None (V4 127 0 0 1) true E Hu) as (_ & config & _ & [(tok & Ht & _)|(_ & _ & Hx)]); [done|exact Hx].
Defined.

Lemma bind_failure_after_start_witness : exists d' m,
  @run_server _ Demo.api ServeDemo.new_manager ServeDemo.settings_of toy_ok ServeDemo.files (fun _ => None) (fun _ => inr (Tls.mkBundle [1] [2]))
    (fun _ => true) (fun c => inr [c]) (fun k => inr k) (fun _ _ => None) (lit "127.0.0.1:0") true (lit "root") [] (lit "utf-8") (lit "p")
    (mkStartup [] None) (mkRunOptions Configured (mkSecurity [] [] None) 0 (mkDefaults None None) 0)
    (mkOs true 0 (fun _ => true) true [] (fun _ => false) Tls.SaveOk) ServeDemo.disk0 = (d', Some m, Err BindFailed).
Proof.
  edestruct (@bind_failure_after_start _ Demo.api ServeDemo.new_manager ServeDemo.settings_of toy_ok ServeDemo.files (fun _ => None)
    (fun _ => inr (Tls.mkBundle [1] [2])) (fun _ => true) (fun c => inr [c]) (fun k => inr k) (fun _ _ => None) (lit "127.0.0.1:0") true (lit "root")
    [] (lit "utf-8") (lit "p") (mkStartup [] None) (mkRunOptions Configured (mkSecurity [] [] None) 0 (mkDefaults None None) 0)
    (mkOs true 0 (fun _ => true) true [] (fun _ => false) Tls.SaveOk) ServeDemo.disk0) as (d' & m & H & _); try (vm_compute; reflexivity).
  exists d', m. exact H.
Defined.
