(* ===== verification/Live.v ===== *)
(** * Live delivery: from a session's broadcast channel to the sockets that watch it

    crates/core/src/session/fanout.rs, crates/core/src/eventbus.rs, and the
    concurrent side of a connection in crates/server/src/ws.rs: the tasks
    [subscribe_session] spawns, the queue they share with the replies of the
    connection's loop, and the task that writes the socket.  tokio's broadcast
    channel is the class [Broadcast], with what its documentation promises as the
    laws of [BroadcastOk]; its bounded queue is written out.  Every interleaving
    of publishers, tasks, replies, subscriptions, cancellations and socket
    failures is a run of [step]. *)
From stdpp Require Import base numbers strings relations gmap list.
From S2P Require Import Prelude Text Sessions Ws.

Local Open Scope Z_scope.
Local Open Scope tm_scope.

(** ** tokio::sync::broadcast *)
Inductive RecvResult (T : Type) := Pending | Got (v : T) | Lagged (n : Z) | Closed.
Arguments Pending {T}.
Arguments Got {T} _.
Arguments Lagged {T} _.
Arguments Closed {T}.

(** A channel is shared by its senders; a receiver keeps its own position.
    [close] is the drop of the last sender, [drop_rx] of one receiver; a receive
    that would wait is [Pending]. *)
Class Broadcast (T : Type) := {
  Chan : Type; Rx : Type;
  channel : Z -> Chan; send : Chan -> T -> Chan * option Z;
  subscribe : Chan -> Chan * Rx; recv : Chan -> Rx -> Rx * RecvResult T;
  drop_rx : Chan -> Chan; close : Chan -> Chan; receiver_count : Chan -> Z }.

(** What a channel is seen as: the values sent so far, how many of the latest it
    keeps, its receivers, whether a sender is left. *)
Record View (T : Type) := mkView { v_sent : list T; v_slots : nat; v_rx : Z; v_open : bool }.
Arguments mkView {T} _ _ _ _.
Arguments v_sent {T} _.
Arguments v_slots {T} _.
Arguments v_rx {T} _.
Arguments v_open {T} _.
Definition view_send {T} (w : View T) (v : T) : View T * option Z :=
  if v_rx w =? 0 then (w, None) else (mkView (v_sent w ++ [v]) (v_slots w) (v_rx w) (v_open w), Some (v_rx w)).
(** A receiver that has fallen behind what is kept learns how many values it
    missed and goes on with the oldest one kept. *)
Definition view_recv {T} (w : View T) (p : nat) : nat * RecvResult T :=
  if (p + v_slots w <? length (v_sent w))%nat
  then ((length (v_sent w) - v_slots w)%nat, Lagged (Z.of_nat (length (v_sent w) - v_slots w - p)))
  else match v_sent w !! p with
       | Some v => (S p, Got v)
       | None => (p, if v_open w then Pending else Closed)
       end.

Class BroadcastOk (T : Type) {B : Broadcast T} := {
  view : Chan -> View T; pos : Rx -> nat;
  channel_view c : 0 < c -> exists n, (Z.to_nat c <= n)%nat /\ view (channel c) = mkView [] n 0 true;
  send_view ch v : (view (fst (send ch v)), snd (send ch v)) = view_send (view ch) v;
  subscribe_view ch : view (fst (subscribe ch)) = mkView (v_sent (view ch)) (v_slots (view ch)) (v_rx (view ch) + 1) (v_open (view ch)) /\
    pos (snd (subscribe ch)) = length (v_sent (view ch));
  recv_view ch r : (pos r <= length (v_sent (view ch)))%nat -> (pos (fst (recv ch r)), snd (recv ch r)) = view_recv (view ch) (pos r);
  drop_rx_view ch : view (drop_rx ch) = mkView (v_sent (view ch)) (v_slots (view ch)) (v_rx (view ch) - 1) (v_open (view ch));
  close_view ch : view (close ch) = mkView (v_sent (view ch)) (v_slots (view ch)) (v_rx (view ch)) false;
  count_view ch : receiver_count ch = v_rx (view ch) }.

(** ** What a receiver hears *)
Section Heard.
  Context {T : Type}.
Fixpoint gots (os : list (RecvResult T)) : list T :=
  match os with [] => [] | Got v :: os' => v :: gots os' | _ :: os' => gots os' end.
Fixpoint skipped (os : list (RecvResult T)) : nat :=
  match os with [] => 0%nat | Lagged n :: os' => (Z.to_nat n + skipped os')%nat | _ :: os' => skipped os' end.
(** [follows l p os q]: hearing [os] leads from position [p] of the sent values
    [l] to position [q]. *)
Inductive follows (l : list T) : nat -> list (RecvResult T) -> nat -> Prop :=
| follows_nil p : (p <= length l)%nat -> follows l p [] p
| follows_got p q os v : follows l p os q -> l !! q = Some v -> follows l p (os ++ [Got v]) (S q)
| follows_lag p q os n : follows l p os q -> (q + Z.to_nat n <= length l)%nat -> follows l p (os ++ [Lagged n]) (q + Z.to_nat n).

Lemma gots_app a b : gots (a ++ b) = gots a ++ gots b.
Proof. induction a as [|[|v|n|] a IH]; cbn; by rewrite ?IH. Qed.
Lemma skipped_app a b : skipped (a ++ b) = (skipped a + skipped b)%nat.
Proof. induction a as [|[|v|n|] a IH]; cbn; rewrite ?IH; lia. Qed.
Lemma follows_bounds l p os q : follows l p os q -> (p <= q <= length l)%nat.
Proof. induction 1 as [p Hp|p q os v _ IH Hv|p q os n _ IH Hn]; [lia| |lia]. apply lookup_lt_Some in Hv. lia. Qed.
Lemma follows_more l l' p os q : follows l p os q -> follows (l ++ l') p os q.
Proof.
  induction 1 as [p Hp|p q os v _ IH Hv|p q os n _ IH Hn]; [|apply follows_got; [done|]|apply follows_lag; [done|]].
  - apply follows_nil. rewrite length_app. lia.
  - by apply lookup_app_l_Some.
  - rewrite length_app. lia.
Qed.
Lemma follows_counts l p os q : follows l p os q -> (length (gots os) + skipped os = q - p)%nat.
Proof.
  intros H. induction H as [p Hp|p q os v Hf IH Hv|p q os n Hf IH Hn]; [cbn; lia| |];
    rewrite gots_app, skipped_app, length_app; cbn; pose proof (follows_bounds _ _ _ _ Hf); lia.
Qed.
Lemma take_drop_snoc (l : list T) p q v : l !! q = Some v -> (p <= q)%nat -> take (S q - p) (drop p l) = take (q - p) (drop p l) ++ [v].
Proof.
  intros Hv Hle. replace (S q - p)%nat with (S (q - p)) by lia. apply take_S_r. rewrite lookup_drop. by replace (p + (q - p))%nat with q by lia.
Qed.
Lemma follows_sublist l p os q : follows l p os q -> gots os `sublist_of` take (q - p) (drop p l).
Proof.
  induction 1 as [p Hp|p q os v Hf IH Hv|p q os n Hf IH Hn]; [cbn; apply sublist_nil_l|..]; pose proof (follows_bounds _ _ _ _ Hf) as Hb.
  - rewrite gots_app, (take_drop_snoc _ _ _ _ Hv) by lia. by apply sublist_app.
  - rewrite gots_app. cbn. rewrite app_nil_r. etrans; [exact IH|].
    assert (take (q - p) (drop p l) = take (q - p) (take (q + Z.to_nat n - p) (drop p l))) as ->.
    { rewrite take_take. f_equal. lia. }
    apply sublist_take.
Qed.
Lemma follows_exact l p os q : follows l p os q -> skipped os = 0%nat -> gots os = take (q - p) (drop p l).
Proof.
  induction 1 as [p Hp|p q os v Hf IH Hv|p q os n Hf IH Hn]; intros Hs; rewrite ?skipped_app in Hs; cbn in Hs.
  - by rewrite Nat.sub_diag.
  - rewrite gots_app, IH by lia. cbn. symmetry. apply take_drop_snoc; [done|]. apply (follows_bounds _ _ _ _ Hf).
  - rewrite gots_app, IH by lia. cbn. rewrite app_nil_r. f_equal. lia.
Qed.
End Heard.

Section Hear.
  Context {T : Type} {B : Broadcast T} {HB : BroadcastOk T}.
(** A receive goes on from where the receiver was, on any of its outcomes; a lag
    is reported only behind what the channel keeps. *)
Lemma recv_follows ch r r' o p os : follows (v_sent (view ch)) p os (pos r) -> recv ch r = (r', o) ->
  match o with
  | Got _ | Lagged _ => follows (v_sent (view ch)) p (os ++ [o]) (pos r') /\ (pos r < pos r')%nat
  | Pending | Closed => pos r' = pos r /\ pos r = length (v_sent (view ch))
  end /\ (forall n, o = Lagged n -> (pos r + v_slots (view ch) < length (v_sent (view ch)))%nat).
Proof using HB.
  intros Hf Hr. pose proof (follows_bounds _ _ _ _ Hf) as Hb. pose proof (recv_view ch r ltac:(lia)) as Hv.
  rewrite Hr in Hv. cbn in Hv. unfold view_recv in Hv.
  destruct (Nat.ltb_spec (pos r + v_slots (view ch)) (length (v_sent (view ch)))) as [Hl|Hl].
  - injection Hv as Hp ->. split; [|by intros ? _]. rewrite Hp. split; [|lia].
    pose proof (follows_lag _ _ _ _ (Z.of_nat (length (v_sent (view ch)) - v_slots (view ch) - pos r)) Hf) as H.
    replace (pos r + Z.to_nat (Z.of_nat (length (v_sent (view ch)) - v_slots (view ch) - pos r)))%nat
      with (length (v_sent (view ch)) - v_slots (view ch))%nat in H by lia. apply H. lia.
  - destruct (v_sent (view ch) !! pos r) as [v|] eqn:E.
    + injection Hv as Hp ->. split; [|done]. rewrite Hp. split; [by apply follows_got|lia].
    + apply lookup_ge_None in E. injection Hv as Hp ->. split; [|by destruct (v_open _)]. destruct (v_open _); lia.
Qed.

(** What a receiver that began at [from] has heard of a channel: its position
    accounts for it, and it missed nothing if the channel still keeps all. *)
Definition hearing (ch : Chan) (from : nat) (os : list (RecvResult T)) (r : Rx) : Prop :=
  follows (v_sent (view ch)) from os (pos r) /\ ((length (v_sent (view ch)) - from <= v_slots (view ch))%nat -> skipped os = 0%nat).
Lemma hearing_recv ch from os r r' o : hearing ch from os r -> recv ch r = (r', o) ->
  match o with Got _ | Lagged _ => hearing ch from (os ++ [o]) r' /\ (pos r < pos r')%nat | _ => pos r = length (v_sent (view ch)) end.
Proof using HB.
  intros [Hf Hm] Hr. destruct (recv_follows _ _ _ _ _ _ Hf Hr) as [Ho Hl]. pose proof (follows_bounds _ _ _ _ Hf) as Hb.
  destruct o as [|v|n|]; [apply Ho| | |apply Ho]; destruct Ho as [Hf' Hlt]; (split; [split; [exact Hf'|]|exact Hlt]); intros H; rewrite skipped_app; cbn.
  - rewrite (Hm H). done.
  - specialize (Hl n eq_refl). lia.
Qed.
Lemma hearing_start ch r : pos r = length (v_sent (view ch)) -> hearing ch (pos r) [] r.
Proof using HB. intros E. split; [|done]. apply follows_nil. lia. Qed.
(** A channel that has gone on since. *)
Definition grows (ch ch' : Chan) : Prop := v_sent (view ch) `prefix_of` v_sent (view ch') /\ v_slots (view ch) = v_slots (view ch').
Lemma grows_refl ch : grows ch ch.
Proof using Type. by split. Qed.
Lemma grows_send ch v : grows ch (fst (send ch v)).
Proof using Type.
  pose proof (send_view ch v) as H. unfold view_send in H. destruct (_ =? _); injection H as H _; unfold grows; rewrite H; cbn; [done|].
  split; [by apply prefix_app_r|done].
Qed.
Lemma grows_subscribe ch : grows ch (fst (subscribe ch)).
Proof using Type. destruct (subscribe_view ch) as [H _]. unfold grows. by rewrite H. Qed.
Lemma grows_drop ch : grows ch (drop_rx ch).
Proof using Type. unfold grows. by rewrite drop_rx_view. Qed.
Lemma grows_close ch : grows ch (close ch).
Proof using Type. unfold grows. by rewrite close_view. Qed.
Lemma hearing_grows ch ch' from os r : grows ch ch' -> hearing ch from os r -> hearing ch' from os r.
Proof using Type.
  intros [[l Hl] Hs] [Hf Hm]. unfold hearing. rewrite Hl, <- Hs. split; [by apply follows_more|]. rewrite length_app. intros H. apply Hm. lia.
Qed.
End Hear.

(** ** crates/core/src/session/fanout.rs *)
Module Fanout.
Definition DEFAULT_CAPACITY : Z := 1024.
Section Fanout.
  Context {B : Broadcast (list Z)}.
Definition with_capacity (capacity : Z) : Chan := channel capacity.
Definition new : Chan := with_capacity DEFAULT_CAPACITY.
Definition subscribe (f : Chan) : Chan * Rx := subscribe f.
Definition publish (f : Chan) (b : list Z) : Chan * Z := Ingest.Fanout_publish Chan send f b.
Definition receiver_count (f : Chan) : Z := receiver_count f.
End Fanout.
End Fanout.

(** ** crates/core/src/eventbus.rs *)
Module EventBus.
Definition DEFAULT_CAPACITY : Z := 1024.
Inductive RecvError := ErrClosed | ErrLagged (n : Z).
Section Bus.
  Context {T : Type} {B : Broadcast T}.
Definition with_capacity (capacity : Z) : Chan := channel capacity.
Definition new : Chan := with_capacity DEFAULT_CAPACITY.
Definition publish (bus : Chan) (v : T) : Chan * Z := let '(tx, r) := send bus v in (tx, default 0 r).
Definition subscriber_count (bus : Chan) : Z := receiver_count bus.
Definition subscribe_bus (bus : Chan) : Chan * Rx := subscribe bus.
(** [None]: the call waits. *)
Definition recv_bus (bus : Chan) (r : Rx) : Rx * option (RecvError + T) :=
  match recv bus r with
  | (r', Pending) => (r', None)
  | (r', Got v) => (r', Some (inr v))
  | (r', Lagged n) => (r', Some (inl (ErrLagged n)))
  | (r', Closed) => (r', Some (inl ErrClosed))
  end.

(** A bus with its subscribers: where each started and what it heard. *)
Record Subscriber := mkSub { s_rx : Rx; s_from : nat; s_heard : list (RecvError + T) }.
Record Bus := mkBus { b_chan : Chan; b_published : list T; b_subs : list Subscriber }.
Inductive Op := Publish (v : T) | Subscribe | Receive (k : nat).
Definition apply_op (b : Bus) (o : Op) : Bus :=
  match o with
  | Publish v =>
      let '(ch, n) := publish (b_chan b) v in
      mkBus ch (if n =? 0 then b_published b else b_published b ++ [v]) (b_subs b)
  | Subscribe =>
      let '(ch, r) := subscribe_bus (b_chan b) in mkBus ch (b_published b) (b_subs b ++ [mkSub r (length (b_published b)) []])
  | Receive k =>
      match b_subs b !! k with
      | Some s =>
          match recv_bus (b_chan b) (s_rx s) with
          | (r, None) => b
          | (r, Some x) => mkBus (b_chan b) (b_published b) (<[k := mkSub r (s_from s) (s_heard s ++ [x])]> (b_subs b))
          end
      | None => b
      end
  end.
Definition run (b : Bus) (os : list Op) : Bus := foldl apply_op b os.
Definition start (capacity : Z) : Bus := mkBus (with_capacity capacity) [] [].
Definition heard (x : RecvError + T) : RecvResult T :=
  match x with inr v => Got v | inl (ErrLagged n) => Lagged n | inl ErrClosed => Closed end.
Definition received (s : Subscriber) : list T := gots (map heard (s_heard s)).
Definition missed (s : Subscriber) : nat := skipped (map heard (s_heard s)).

  Context {HB : BroadcastOk T}.
Definition sub_ok (b : Bus) (s : Subscriber) : Prop := hearing (b_chan b) (s_from s) (map heard (s_heard s)) (s_rx s).
Record bus_ok (n : nat) (b : Bus) : Prop := {
  bo_sent : v_sent (view (b_chan b)) = b_published b;
  bo_open : v_open (view (b_chan b)) = true;
  bo_slots : v_slots (view (b_chan b)) = n;
  bo_subs : Forall (sub_ok b) (b_subs b) }.
Lemma subs_grow b ch : grows (b_chan b) ch -> Forall (sub_ok b) (b_subs b) -> forall p ss, Forall (sub_ok (mkBus ch p ss)) (b_subs b).
Proof using Type. intros Hg Hk p ss. eapply Forall_impl; [exact Hk|]. intros s. by apply hearing_grows. Qed.

Lemma bus_ok_step n b o : bus_ok n b -> bus_ok n (apply_op b o).
Proof using HB.
  intros [Hs Ho Hn Hk]. destruct o as [v| |k]; cbn.
  - unfold publish. pose proof (send_view (b_chan b) v) as Hv. pose proof (grows_send (b_chan b) v) as Hg.
    destruct (send (b_chan b) v) as [ch r]. cbn in Hv, Hg. unfold view_send in Hv.
    destruct (v_rx (view (b_chan b)) =? 0) eqn:E; injection Hv as Hv ->; cbn; rewrite ?E; (split; cbn; rewrite ?Hv; cbn; rewrite ?Hs; [done..|]);
      by apply subs_grow.
  - unfold subscribe_bus. pose proof (grows_subscribe (b_chan b)) as Hg. destruct (subscribe_view (b_chan b)) as [Hv Hp].
    destruct (subscribe (b_chan b)) as [ch r]. cbn in Hv, Hp, Hg. split; cbn; rewrite ?Hv; cbn; rewrite ?Hs; [done..|].
    apply Forall_app. split; [by apply subs_grow|]. apply Forall_singleton. unfold sub_ok. cbn. rewrite <- Hs, <- Hp. apply hearing_start.
    by rewrite Hp, Hv.
  - destruct (b_subs b !! k) as [s|] eqn:Ek; [|by split]. pose proof (Forall_lookup_1 _ _ _ _ Hk Ek) as Hh. unfold recv_bus.
    destruct (recv (b_chan b) (s_rx s)) as [r o] eqn:Er. pose proof (hearing_recv _ _ _ _ _ _ Hh Er) as Hx.
    destruct o as [|v|m|]; [by split|..].
    3: { exfalso. pose proof (recv_view (b_chan b) (s_rx s) ltac:(lia)) as Hv. rewrite Er in Hv. cbn in Hv.
         unfold view_recv in Hv. rewrite Ho in Hv. destruct (_ <? _)%nat; [discriminate Hv|]. destruct (v_sent _ !! _); discriminate Hv. }
    all: split; cbn; [done..|]; apply Forall_insert; [by apply (subs_grow b _ (grows_refl _))|]; unfold sub_ok; cbn; rewrite map_app; apply Hx.
Qed.

(** Slow subscribers lose values, and know how many: what a subscriber received
    is taken from what was published since it subscribed, in order; with the
    values it was told it missed it accounts for everything up to its position;
    nothing is missed by a subscriber that is at most a full channel behind. *)
Theorem bus_accounts capacity ops s : 0 < capacity -> s ∈ b_subs (run (start capacity) ops) ->
  let b := run (start capacity) ops in
  received s `sublist_of` drop (s_from s) (b_published b) /\
  (length (received s) + missed s = pos (s_rx s) - s_from s)%nat /\
  (missed s = 0%nat -> received s `prefix_of` drop (s_from s) (b_published b)) /\
  ((length (b_published b) - s_from s <= Z.to_nat capacity)%nat -> missed s = 0%nat).
Proof using HB.
  intros Hc Hin b. destruct (channel_view capacity Hc) as (n & Hn & Hv).
  assert (H : bus_ok n b).
  { subst b. clear Hin. unfold run. induction ops as [|o ops IH] using rev_ind.
    - split; cbn; unfold with_capacity; by rewrite ?Hv.
    - rewrite foldl_app. by apply bus_ok_step. }
  destruct H as [Hs _ Hsl Hk]. pose proof (proj1 (Forall_forall _ _) Hk s Hin) as [Hf Hm]. rewrite Hs, Hsl in *.
  unfold received, missed. repeat split.
  - etrans; [by apply (follows_sublist _ _ _ _ Hf)|]. apply sublist_take.
  - by apply (follows_counts _ _ _ _ Hf).
  - intros H0. rewrite (follows_exact _ _ _ _ Hf H0). apply prefix_take.
  - intros H. apply Hm. lia.
Qed.
End Bus.
End EventBus.

(** ** crates/server/src/ws.rs: subscriptions, queue and writer of a connection *)
Module Conn.
(** [mpsc::channel(64)]. *)
Definition QUEUE : nat := 64.
Abbreviation Key := (list Z * option Z)%type.

(** The task of a subscription: waiting in [rx.recv], in [tx.send], in the pause
    between two frames, or over.  [t_from] and [t_heard] record what the channel
    had sent when the subscription began and what the task got from it since. *)
Inductive Pc := Receiving | Forwarding (b : list Z) | Sleeping | Over.
Inductive Writer := Taking | Writing (m : option nat * Message) | WriterOver.

Section Live.
  Context {B : Broadcast (list Z)} {HB : BroadcastOk (list Z)}.
  (** Whether [min_send_interval] is not zero. *)
  Variable paced : bool.

Record Task := mkTask { t_chan : nat; t_rx : Rx; t_pc : Pc; t_aborted : bool; t_from : nat; t_heard : list (RecvResult (list Z)) }.
(** A message of the queue carries the task that put it there, [None] for a reply. *)
Record Live := mkLive {
  l_chans : list Chan; l_reg : gmap Z nat; l_tasks : list Task; l_subs : gmap Key nat;
  l_queue : list (option nat * Message); l_writer : Writer; l_socket : list (option nat * Message); l_loop : bool }.
Definition start : Live := mkLive [] ∅ [] ∅ [] Taking [] true.

Definition set_task (s : Live) (k : nat) (t : Task) : Live :=
  mkLive (l_chans s) (l_reg s) (<[k := t]> (l_tasks s)) (l_subs s) (l_queue s) (l_writer s) (l_socket s) (l_loop s).
Definition set_chan (s : Live) (c : nat) (ch : Chan) : Live :=
  mkLive (<[c := ch]> (l_chans s)) (l_reg s) (l_tasks s) (l_subs s) (l_queue s) (l_writer s) (l_socket s) (l_loop s).
Definition set_out (s : Live) (q : list (option nat * Message)) (w : Writer) (sock : list (option nat * Message)) : Live :=
  mkLive (l_chans s) (l_reg s) (l_tasks s) (l_subs s) q w sock (l_loop s).
Definition at_pc (t : Task) (pc : Pc) : Task := mkTask (t_chan t) (t_rx t) pc (t_aborted t) (t_from t) (t_heard t).
Definition hears (t : Task) (rx : Rx) (pc : Pc) (o : RecvResult (list Z)) : Task :=
  mkTask (t_chan t) rx pc (t_aborted t) (t_from t) (t_heard t ++ [o]).
(** A task that ends drops its receiver. *)
Definition finish (s : Live) (k : nat) (t : Task) : Live :=
  match l_chans s !! t_chan t with
  | Some ch => set_task (set_chan s (t_chan t) (drop_rx ch)) k (at_pc t Over)
  | None => set_task s k (at_pc t Over)
  end.
Definition abort (t : Task) : Task := mkTask (t_chan t) (t_rx t) (t_pc t) true (t_from t) (t_heard t).
Definition abort_at (ts : list Task) (k : nat) : list Task := alter abort k ts.
(** The end of the connection's loop: every subscription is aborted, the loop's
    end of the queue is dropped. *)
Definition end_loop (s : Live) : Live :=
  mkLive (l_chans s) (l_reg s) (foldr (fun k ts => abort_at ts k) (l_tasks s) (map snd (map_to_list (l_subs s)))) (l_subs s)
    (l_queue s) (l_writer s) (l_socket s) false.

(** What the tasks and the writer do by themselves.  An aborted task goes on
    until the runtime cancels it. *)
Inductive tick : Live -> Live -> Prop :=
| tk_got s k t ch rx v : l_tasks s !! k = Some t -> t_pc t = Receiving -> l_chans s !! t_chan t = Some ch ->
    recv ch (t_rx t) = (rx, Got v) -> tick s (set_task s k (hears t rx (Forwarding v) (Got v)))
| tk_lag s k t ch rx n : l_tasks s !! k = Some t -> t_pc t = Receiving -> l_chans s !! t_chan t = Some ch ->
    recv ch (t_rx t) = (rx, Lagged n) -> tick s (set_task s k (hears t rx Receiving (Lagged n)))
| tk_closed s k t ch rx : l_tasks s !! k = Some t -> t_pc t = Receiving -> l_chans s !! t_chan t = Some ch ->
    recv ch (t_rx t) = (rx, Closed) -> tick s (finish s k t)
| tk_send s k t v : l_tasks s !! k = Some t -> t_pc t = Forwarding v -> (length (l_queue s) < QUEUE)%nat -> l_writer s <> WriterOver ->
    tick s (set_out (set_task s k (at_pc t (if paced then Sleeping else Receiving))) (l_queue s ++ [(Some k, BinaryMsg v)]) (l_writer s) (l_socket s))
| tk_send_err s k t v : l_tasks s !! k = Some t -> t_pc t = Forwarding v -> l_writer s = WriterOver -> tick s (finish s k t)
| tk_wake s k t : l_tasks s !! k = Some t -> t_pc t = Sleeping -> tick s (set_task s k (at_pc t Receiving))
| tk_cancel s k t : l_tasks s !! k = Some t -> t_aborted t = true -> t_pc t <> Over -> tick s (finish s k t)
| wr_take s m q : l_writer s = Taking -> l_queue s = m :: q -> tick s (set_out s q (Writing m) (l_socket s))
| wr_sent s m : l_writer s = Writing m -> tick s (set_out s (l_queue s) Taking (l_socket s ++ [m]))
| wr_end s : l_writer s = Taking -> l_queue s = [] -> l_loop s = false -> Forall (fun t => t_pc t = Over) (l_tasks s) ->
    tick s (set_out s [] WriterOver (l_socket s)).

(** What happens to them. *)
Inductive event : Live -> Live -> Prop :=
| ev_register s i : event s (mkLive (l_chans s ++ [Fanout.new]) (<[i := length (l_chans s)]> (l_reg s)) (l_tasks s) (l_subs s)
    (l_queue s) (l_writer s) (l_socket s) (l_loop s))
| ev_publish s i c ch b : l_reg s !! i = Some c -> l_chans s !! c = Some ch -> event s (set_chan s c (fst (Fanout.publish ch b)))
| ev_unregister s i c ch : l_reg s !! i = Some c -> l_chans s !! c = Some ch ->
    event s (mkLive (<[c := close ch]> (l_chans s)) (delete i (l_reg s)) (l_tasks s) (l_subs s) (l_queue s) (l_writer s) (l_socket s) (l_loop s))
| ev_subscribe s key i c ch ch' r : l_loop s = true -> l_subs s !! key = None -> l_reg s !! i = Some c -> l_chans s !! c = Some ch ->
    Fanout.subscribe ch = (ch', r) ->
    event s (mkLive (<[c := ch']> (l_chans s)) (l_reg s) (l_tasks s ++ [mkTask c r Receiving false (pos r) []])
      (<[key := length (l_tasks s)]> (l_subs s)) (l_queue s) (l_writer s) (l_socket s) (l_loop s))
| ev_unsubscribe s key k : l_loop s = true -> l_subs s !! key = Some k ->
    event s (mkLive (l_chans s) (l_reg s) (abort_at (l_tasks s) k) (delete key (l_subs s)) (l_queue s) (l_writer s) (l_socket s) (l_loop s))
| ev_reply s m : l_loop s = true -> l_writer s <> WriterOver -> (length (l_queue s) < QUEUE)%nat ->
    event s (set_out s (l_queue s ++ [(None, m)]) (l_writer s) (l_socket s))
| ev_reply_refused s : l_loop s = true -> l_writer s = WriterOver -> event s (end_loop s)
| ev_close s : l_loop s = true -> event s (end_loop s)
| ev_socket_error s m : l_writer s = Writing m -> event s (set_out s [] WriterOver (l_socket s)).
Definition step (s s' : Live) : Prop := tick s s' \/ event s s'.

(** *** What is on its way *)
Definition writing (w : Writer) : list (option nat * Message) := match w with Writing m => [m] | _ => [] end.
Definition in_flight (s : Live) : list (option nat * Message) := l_socket s ++ writing (l_writer s) ++ l_queue s.
Definition frame_of (k : nat) (m : option nat * Message) : option (list Z) :=
  match m with (Some j, BinaryMsg b) => if (j =? k)%nat then Some b else None | _ => None end.
Definition frames (k : nat) (l : list (option nat * Message)) : list (list Z) := omap (frame_of k) l.
#[local] Arguments frames : simpl never.
Definition forwarding (t : Task) (sent : list (list Z)) : Prop :=
  match t_pc t with
  | Forwarding v => gots (t_heard t) = sent ++ [v]
  | Over => exists lost, gots (t_heard t) = sent ++ lost /\ (length lost <= 1)%nat
  | _ => gots (t_heard t) = sent
  end.
Record task_inv (cs : list Chan) (s : Live) (k : nat) (t : Task) : Prop := {
  ti_hears : exists ch, cs !! t_chan t = Some ch /\ hearing ch (t_from t) (t_heard t) (t_rx t);
  ti_socket : frames k (l_socket s) `prefix_of` gots (t_heard t);
  ti_flight : l_writer s <> WriterOver -> forwarding t (frames k (in_flight s)) }.
Definition tagged (n : nat) (m : option nat * Message) : Prop := match fst m with Some k => (k < n)%nat | None => True end.
Record inv (s : Live) : Prop := {
  iv_tasks : forall k t, l_tasks s !! k = Some t -> task_inv (l_chans s) s k t;
  iv_tags : Forall (tagged (length (l_tasks s))) (in_flight s) }.

Lemma frames_app k a b : frames k (a ++ b) = frames k a ++ frames k b.
Proof using Type. apply omap_app. Qed.
Lemma frames_reply k m : frames k [(None, m)] = [].
Proof using Type. by destruct m. Qed.
Lemma frames_task k j v : frames k [(Some j, BinaryMsg v)] = if (j =? k)%nat then [v] else [].
Proof using Type. unfold frames. cbn. by destruct (j =? k)%nat. Qed.
Lemma frames_fresh n l : Forall (tagged n) l -> frames n l = [].
Proof using Type.
  induction 1 as [|[[j|] [b|p]] l Hm _ IH]; unfold frames in *; cbn; try done. cbn in Hm. rewrite (proj2 (Nat.eqb_neq j n)) by lia. exact IH.
Qed.
Lemma tagged_more n m l : (n <= m)%nat -> Forall (tagged n) l -> Forall (tagged m) l.
Proof using Type. intros Hle H. eapply Forall_impl; [exact H|]. intros [[j|] ?]; unfold tagged; cbn; lia. Qed.

Definition all_grow (cs cs' : list Chan) : Prop := forall c ch, cs !! c = Some ch -> exists ch', cs' !! c = Some ch' /\ grows ch ch'.
Lemma all_grow_refl cs : all_grow cs cs.
Proof using Type. intros c ch H. exists ch. split; [done|apply grows_refl]. Qed.
Lemma all_grow_insert cs c ch ch' : cs !! c = Some ch -> grows ch ch' -> all_grow cs (<[c := ch']> cs).
Proof using Type.
  intros Hc Hg d x Hx. destruct (decide (d = c)) as [->|Hne].
  - rewrite list_lookup_insert_eq by (by eapply lookup_lt_Some). simplify_eq. eauto.
  - rewrite list_lookup_insert_ne by done. exists x. split; [done|apply grows_refl].
Qed.
Lemma all_grow_snoc cs ch : all_grow cs (cs ++ [ch]).
Proof using Type. intros c x H. exists x. split; [by apply lookup_app_l_Some|apply grows_refl]. Qed.
Lemma task_inv_grow cs cs' s k t : all_grow cs cs' -> task_inv cs s k t -> task_inv cs' s k t.
Proof using Type.
  intros Hg [(ch & Hc & Hh) Hs Hf]. split; [|done..]. destruct (Hg _ _ Hc) as (ch' & Hc' & Hgr). exists ch'. split; [done|]. by eapply hearing_grows.
Qed.
(** Only what is on its way matters of the state. *)
Lemma task_inv_out cs s s' k t : l_socket s' = l_socket s -> l_writer s' = l_writer s -> l_queue s' = l_queue s ->
  task_inv cs s k t -> task_inv cs s' k t.
Proof using Type. intros E1 E2 E3 [Hh Hs Hf]. split; [done|by rewrite E1|]. unfold in_flight. by rewrite E1, E2, E3. Qed.
Lemma task_inv_abort cs s k t : task_inv cs s k t -> task_inv cs s k (abort t).
Proof using Type. by intros [Hh Hs Hf]. Qed.
Lemma task_inv_over cs s k t : task_inv cs s k t -> task_inv cs s k (at_pc t Over).
Proof using Type.
  intros [Hh Hs Hf]. split; [done..|]. intros Hw. specialize (Hf Hw). revert Hf. unfold forwarding. cbn.
  destruct (t_pc t) as [|v| |]; intros Hf; [exists []|exists [v]|exists []|exact Hf]; cbn; rewrite ?app_nil_r; (split; [done|lia]).
Qed.
(** A step that only changes task [k] and lets channels grow. *)
Lemma live_inv_task s k t t' cs : inv s -> l_tasks s !! k = Some t -> all_grow (l_chans s) cs -> task_inv cs s k t' ->
  inv (mkLive cs (l_reg s) (<[k := t']> (l_tasks s)) (l_subs s) (l_queue s) (l_writer s) (l_socket s) (l_loop s)).
Proof using Type.
  intros [Hi Ht] Hk Hg Hn. split; cbn; [|by rewrite length_insert]. intros j u Hj.
  apply (task_inv_out _ s); [done..|]. destruct (decide (j = k)) as [->|Hne].
  - rewrite list_lookup_insert_eq in Hj by (by eapply lookup_lt_Some). by simplify_eq.
  - rewrite list_lookup_insert_ne in Hj by done. eapply task_inv_grow; [exact Hg|]. by apply Hi.
Qed.
Lemma inv_finish s k t : inv s -> l_tasks s !! k = Some t -> inv (finish s k t).
Proof using Type.
  intros Hi Hk. unfold finish. destruct (iv_tasks s Hi k t Hk) as [(ch & Hc & Hh) Hs Hf]. rewrite Hc.
  pose proof (all_grow_insert _ _ _ _ Hc (grows_drop ch)) as Hg.
  apply (live_inv_task s k t); [done..|]. eapply task_inv_grow; [exact Hg|]. apply task_inv_over. by apply Hi.
Qed.
Lemma inv_hears s k t ch rx o pc : inv s -> l_tasks s !! k = Some t -> t_pc t = Receiving -> l_chans s !! t_chan t = Some ch ->
  recv ch (t_rx t) = (rx, o) -> (exists v, o = Got v /\ pc = Forwarding v) \/ (exists n, o = Lagged n /\ pc = Receiving) ->
  inv (set_task s k (hears t rx pc o)).
Proof using HB.
  intros Hi Hk Hp Hc Hr Ho. destruct (iv_tasks s Hi k t Hk) as [(ch' & Hc' & Hh) Hs Hf]. simplify_eq.
  pose proof (hearing_recv _ _ _ _ _ _ Hh Hr) as Hx. apply (live_inv_task s k t); [done..|apply all_grow_refl|].
  destruct Ho as [(v & -> & ->)|(n & -> & ->)]; destruct Hx as [Hx _];
    (split; cbn; [by exists ch|rewrite gots_app; by apply prefix_app_r|]); intros Hw; specialize (Hf Hw); unfold forwarding in *;
    rewrite Hp in Hf; cbn; rewrite gots_app, Hf; cbn; by rewrite ?app_nil_r.
Qed.
Lemma forwarding_prefix t l : forwarding t l -> l `prefix_of` gots (t_heard t).
Proof using Type.
  unfold forwarding. destruct (t_pc t) as [|v| |]; [intros ->; done|intros ->; by apply prefix_app_r|intros ->; done|].
  intros (lost & -> & _). by apply prefix_app_r.
Qed.
(** A message moves on. *)
Lemma inv_same_flight s q w sock : inv s -> l_writer s <> WriterOver -> sock ++ writing w ++ q = in_flight s -> inv (set_out s q w sock).
Proof using Type.
  intros [Hi Ht] Hw E. split; cbn; [|unfold in_flight; cbn; by rewrite E]. intros k t Hk. destruct (Hi k t Hk) as [Hh Hs Hf].
  split; cbn; [done| |intros _; unfold in_flight; cbn; rewrite E; by apply Hf].
  etrans; [|by apply forwarding_prefix, Hf]. rewrite <- E, frames_app. by apply prefix_app_r.
Qed.
(** What is queued when the writer ends is lost. *)
Lemma inv_over s : inv s -> inv (set_out s [] WriterOver (l_socket s)).
Proof using Type.
  intros [Hi Ht]. split; cbn.
  - intros k t Hk. destruct (Hi k t Hk) as [Hh Hs Hf]. by split.
  - unfold in_flight in *. cbn. rewrite app_nil_r. by apply Forall_app in Ht as [Ht _].
Qed.
Lemma inv_push_reply s m : inv s -> inv (set_out s (l_queue s ++ [(None, m)]) (l_writer s) (l_socket s)).
Proof using Type.
  intros [Hi Ht].
  assert (E : in_flight (set_out s (l_queue s ++ [(None, m)]) (l_writer s) (l_socket s)) = in_flight s ++ [(None, m)]).
  { unfold in_flight. cbn. by rewrite !app_assoc. }
  split; cbn [l_tasks l_chans set_out].
  - intros k t Hk. destruct (Hi k t Hk) as [Hh Hs Hf]. split; [done..|]. intros Hw. rewrite E, frames_app, frames_reply, app_nil_r. by apply Hf.
  - rewrite E. apply Forall_app. split; [done|]. by apply Forall_singleton.
Qed.
Lemma inv_send s k t v : inv s -> l_tasks s !! k = Some t -> t_pc t = Forwarding v -> l_writer s <> WriterOver ->
  inv (set_out (set_task s k (at_pc t (if paced then Sleeping else Receiving))) (l_queue s ++ [(Some k, BinaryMsg v)]) (l_writer s) (l_socket s)).
Proof using Type.
  intros [Hi Ht] Hk Hp Hw. set (s' := set_out _ _ _ _).
  assert (E : in_flight s' = in_flight s ++ [(Some k, BinaryMsg v)]) by (unfold in_flight; cbn; by rewrite !app_assoc).
  split; [|rewrite E; apply Forall_app; subst s'; cbn; rewrite length_insert; split; [done|]; apply Forall_singleton; cbn; by eapply lookup_lt_Some].
  intros j u Hj. cbn in Hj. destruct (decide (j = k)) as [->|Hne].
  - rewrite list_lookup_insert_eq in Hj by (by eapply lookup_lt_Some). injection Hj as <-. destruct (Hi k t Hk) as [Hh Hs Hf].
    split; [done..|]. intros _. specialize (Hf Hw). unfold forwarding in *. rewrite Hp in Hf. rewrite E, frames_app, frames_task, Nat.eqb_refl.
    by destruct paced.
  - rewrite list_lookup_insert_ne in Hj by done. destruct (Hi j u Hj) as [Hh Hs Hf]. split; [done..|]. intros _. rewrite E, frames_app, frames_task.
    rewrite (proj2 (Nat.eqb_neq k j)) by done. rewrite app_nil_r. by apply Hf.
Qed.

Lemma inv_tick s s' : tick s s' -> inv s -> inv s'.
Proof using HB.
  intros [s0 k t ch rx v Hk Hp Hc Hr|s0 k t ch rx n Hk Hp Hc Hr|s0 k t ch rx Hk Hp Hc Hr|s0 k t v Hk Hp Hq Hw|s0 k t v Hk Hp Hw|s0 k t Hk Hp
    |s0 k t Hk Ha Hp|s0 m q Hw Hq|s0 m Hw|s0 Hw Hq Hl Hf] Hi.
  - eapply inv_hears; eauto.
  - eapply inv_hears; eauto.
  - by apply inv_finish.
  - by apply inv_send.
  - by apply inv_finish.
  - apply (live_inv_task s0 k t); [done..|apply all_grow_refl|]. destruct (iv_tasks s0 Hi k t Hk) as [Hh Hs Hf]. split; [done..|].
    intros Hw. specialize (Hf Hw). unfold forwarding in *. by rewrite Hp in Hf.
  - by apply inv_finish.
  - apply inv_same_flight; [done|by rewrite Hw|]. unfold in_flight. by rewrite Hw, Hq.
  - apply inv_same_flight; [done|by rewrite Hw|]. unfold in_flight. rewrite Hw. cbn. by rewrite <- app_assoc.
  - by apply inv_over.
Qed.
(** Channels may grow and tasks may be aborted at any time. *)
Lemma inv_env s cs reg ts subs loop : inv s -> all_grow (l_chans s) cs ->
  length ts = length (l_tasks s) -> (forall k t, ts !! k = Some t -> exists u, l_tasks s !! k = Some u /\ (t = u \/ t = abort u)) ->
  inv (mkLive cs reg ts subs (l_queue s) (l_writer s) (l_socket s) loop).
Proof using Type.
  intros [Hi Ht] Hg Hl Hs. split; cbn; [|by rewrite Hl]. intros k t Hk. destruct (Hs k t Hk) as (u & Hu & Ho). apply (task_inv_out _ s); [done..|].
  eapply task_inv_grow; [exact Hg|]. destruct Ho as [->| ->]; [|apply task_inv_abort]; by apply Hi.
Qed.
Lemma abort_at_lookup ts j k t : abort_at ts j !! k = Some t -> exists u, ts !! k = Some u /\ (t = u \/ t = abort u).
Proof using Type.
  unfold abort_at. destruct (decide (j = k)) as [->|Hne].
  - rewrite list_lookup_alter_eq. intros (u & Hu & ->)%fmap_Some. exists u. by split; [|right].
  - rewrite list_lookup_alter_ne by done. eauto.
Qed.
Lemma inv_end_loop s : inv s -> inv (end_loop s).
Proof using Type.
  intros Hi. unfold end_loop. apply inv_env; [done|apply all_grow_refl|..]; generalize (map snd (map_to_list (l_subs s))) as l.
  - induction l as [|j l IH]; cbn; [done|]. unfold abort_at at 1. by rewrite length_alter.
  - induction l as [|j l IH]; cbn; [eauto|]. intros k t (u & Hu & Ho)%abort_at_lookup. destruct (IH k u Hu) as (w & Hw & Hd). exists w. split; [done|].
    destruct Ho as [->| ->], Hd as [->| ->]; eauto.
Qed.
Lemma inv_event s s' : event s s' -> inv s -> inv s'.
Proof using HB.
  intros [s0 i|s0 i c ch b Hr Hc|s0 i c ch Hr Hc|s0 key i c ch ch' r Hl Hk Hr Hc Hs|s0 key k Hl Hk|s0 m Hl Hw Hq|s0 Hl Hw|s0 Hl|s0 m Hw] Hi.
  - apply inv_env; eauto. apply all_grow_snoc.
  - apply (inv_env s0); eauto. apply (all_grow_insert _ _ _ _ Hc). unfold Fanout.publish, Ingest.Fanout_publish.
    pose proof (grows_send ch b) as Hg. by destruct (send ch b).
  - apply inv_env; eauto. apply (all_grow_insert _ _ _ _ Hc), grows_close.
  - unfold Fanout.subscribe in Hs. pose proof (grows_subscribe ch) as Hg. destruct (subscribe_view ch) as [Hv Hp]. rewrite Hs in Hg, Hv, Hp. cbn in Hg, Hv, Hp.
    pose proof (all_grow_insert _ _ _ _ Hc Hg) as Hgs. destruct Hi as [Hi Ht]. split; cbn.
    + intros k t Hkt. apply lookup_app_Some in Hkt as [Hkt|[Hge Hkt]].
      * apply (task_inv_out _ s0); [done..|]. eapply task_inv_grow; [exact Hgs|]. by apply Hi.
      * apply list_lookup_singleton_Some in Hkt as [E <-]. assert (k = length (l_tasks s0)) as -> by lia. pose proof (frames_fresh _ _ Ht) as Hz.
        split; cbn; [|unfold in_flight in Hz; rewrite frames_app in Hz; by apply app_nil in Hz as [-> _]|intros _; exact (eq_sym Hz)].
        exists ch'. rewrite list_lookup_insert_eq by (by eapply lookup_lt_Some). split; [done|]. apply hearing_start. by rewrite Hv, Hp.
    + unfold in_flight in *. cbn. eapply tagged_more; [|exact Ht]. rewrite length_app. cbn. lia.
  - apply inv_env; [done|apply all_grow_refl|by apply length_alter|]. intros j t. apply abort_at_lookup.
  - by apply inv_push_reply.
  - by apply inv_end_loop.
  - by apply inv_end_loop.
  - by apply inv_over.
Qed.
Lemma live_inv_reachable s : rtc step start s -> inv s.
Proof using HB.
  intros H. refine (rtc_ind_r (fun s => inv s) _ _ _ s H).
  - split; cbn; [by intros ?|]. done.
  - intros y z _ [Hs|Hs] IH; [by eapply inv_tick|by eapply inv_event].
Qed.
(** Every channel keeps at least the default number of frames. *)
Definition slots_ok (cs : list Chan) : Prop := Forall (fun ch => (Z.to_nat Fanout.DEFAULT_CAPACITY <= v_slots (view ch))%nat) cs.
Lemma slots_insert cs c ch ch' : slots_ok cs -> cs !! c = Some ch -> grows ch ch' -> slots_ok (<[c := ch']> cs).
Proof using Type. intros H Hc [_ Hs]. apply Forall_insert; [done|]. rewrite <- Hs. by apply (Forall_lookup_1 _ _ _ _ H Hc). Qed.
Lemma slots_finish s k t : slots_ok (l_chans s) -> slots_ok (l_chans (finish s k t)).
Proof using Type.
  intros H. unfold finish. destruct (l_chans s !! t_chan t) eqn:E; [|done]. cbn. by apply (slots_insert _ _ _ _ H E), grows_drop.
Qed.
Lemma slots_step s s' : step s s' -> slots_ok (l_chans s) -> slots_ok (l_chans s').
Proof using HB.
  intros Hst Hok. destruct Hst as [Ht|Hs]; [destruct Ht; try done; by apply slots_finish|]. rename Hok into H.
  destruct Hs as [s0 i|s0 i c ch b Hr Hc|s0 i c ch Hr Hc|s0 key i c ch ch' r Hl Hk Hr Hc Hs| | | | |]; try done; cbn.
  - apply Forall_app. split; [done|]. apply Forall_singleton. unfold Fanout.new, Fanout.with_capacity.
    destruct (channel_view Fanout.DEFAULT_CAPACITY ltac:(done)) as (n & Hn & ->). exact Hn.
  - apply (slots_insert _ _ _ _ H Hc). unfold Fanout.publish, Ingest.Fanout_publish. pose proof (grows_send ch b) as Hg. by destruct (send ch b).
  - by apply (slots_insert _ _ _ _ H Hc), grows_close.
  - apply (slots_insert _ _ _ _ H Hc). pose proof (grows_subscribe ch) as Hg. unfold Fanout.subscribe in Hs. by rewrite Hs in Hg.
Qed.
Lemma slots_reachable s : rtc step start s -> slots_ok (l_chans s).
Proof using HB. intros H. refine (rtc_ind_r (fun s => slots_ok (l_chans s)) _ _ _ s H); [by apply Forall_nil|]. intros y z _. apply slots_step. Qed.

(** C4: Live frames reach the socket in order, once, and losses are counted.
    Whatever else happens on the connection, the frames written to the socket for
    a subscription are, in order and each at most once, frames published in the
    session after the subscription began; what its task took and what it was
    told it missed account for everything up to its position; if it missed
    nothing the socket has an unbroken beginning of what was published, and it
    can only miss something when more than 1024 frames were published. *)
Theorem live_delivery s k t : rtc step start s -> l_tasks s !! k = Some t ->
  exists ch, l_chans s !! t_chan t = Some ch /\
  let since := drop (t_from t) (v_sent (view ch)) in
  frames k (l_socket s) `sublist_of` since /\
  (length (gots (t_heard t)) + skipped (t_heard t) = pos (t_rx t) - t_from t)%nat /\
  (skipped (t_heard t) = 0%nat -> frames k (l_socket s) `prefix_of` since) /\
  ((length since <= Z.to_nat Fanout.DEFAULT_CAPACITY)%nat -> skipped (t_heard t) = 0%nat).
Proof using HB.
  intros Hr Hk. destruct (iv_tasks s (live_inv_reachable s Hr) k t Hk) as [(ch & Hc & Hf & Hm) Hs _].
  exists ch. split; [done|]. cbn zeta. pose proof (Forall_lookup_1 _ _ _ _ (slots_reachable s Hr) Hc) as Hsl. cbn beta in Hsl.
  split_and!.
  - trans (gots (t_heard t)); [destruct Hs as [l ->]; by apply sublist_inserts_r|]. etrans; [by apply (follows_sublist _ _ _ _ Hf)|]. apply sublist_take.
  - by apply (follows_counts _ _ _ _ Hf).
  - intros H0. etrans; [exact Hs|]. rewrite (follows_exact _ _ _ _ Hf H0). apply prefix_take.
  - rewrite length_drop. intros H. apply Hm. lia.
Qed.

(** *** What is left to do *)
Definition pc_weight (pc : Pc) : nat := match pc with Forwarding _ => 6 | Sleeping => 2 | Receiving => 1 | Over => 0 end.
Definition todo (cs : list Chan) (t : Task) : nat :=
  match t_pc t, cs !! t_chan t with
  | Over, _ | _, None => pc_weight (t_pc t)
  | _, Some ch => (pc_weight (t_pc t) + 6 * (length (v_sent (view ch)) - pos (t_rx t)))%nat
  end.
Definition writer_weight (w : Writer) : nat := match w with Taking => 1 | Writing _ => 2 | WriterOver => 0 end.
Definition measure (s : Live) : nat := (sum_list_with (todo (l_chans s)) (l_tasks s) + 2 * length (l_queue s) + writer_weight (l_writer s))%nat.

Lemma sum_insert {A} (f : A -> nat) l k x y : l !! k = Some x -> (sum_list_with f (<[k := y]> l) + f x = sum_list_with f l + f y)%nat.
Proof using Type.
  revert k. induction l as [|a l IH]; intros [|k] H; simpl in *; simplify_eq; [lia|]. specialize (IH k H). lia.
Qed.
Lemma sum_same {A} (f g : A -> nat) l : (forall x, f x = g x) -> sum_list_with f l = sum_list_with g l.
Proof using Type. intros H. induction l as [|a l IH]; cbn; [done|]. by rewrite H, IH. Qed.
Lemma todo_insert cs c ch ch' t : cs !! c = Some ch -> v_sent (view ch') = v_sent (view ch) -> todo (<[c := ch']> cs) t = todo cs t.
Proof using Type.
  intros Hc E. unfold todo. destruct (decide (t_chan t = c)) as [->|Hne]; [|by rewrite list_lookup_insert_ne by done].
  rewrite list_lookup_insert_eq by (by eapply lookup_lt_Some). by rewrite Hc, E.
Qed.
Lemma measure_task s k t t' : l_tasks s !! k = Some t -> (todo (l_chans s) t' < todo (l_chans s) t)%nat -> (measure (set_task s k t') < measure s)%nat.
Proof using Type. intros Hk Hlt. unfold measure. cbn. pose proof (sum_insert (todo (l_chans s)) _ _ _ t' Hk). lia. Qed.
Lemma todo_over cs t : t_pc t <> Over -> (todo cs (at_pc t Over) < todo cs t)%nat.
Proof using Type. unfold todo. cbn. destruct (t_pc t); try done; destruct (cs !! t_chan t); cbn; lia. Qed.
Lemma measure_finish s k t : l_tasks s !! k = Some t -> t_pc t <> Over -> (measure (finish s k t) < measure s)%nat.
Proof using Type.
  intros Hk Hp. unfold finish. pose proof (measure_task s k t _ Hk (todo_over (l_chans s) t Hp)) as H. destruct (l_chans s !! t_chan t) as [ch|] eqn:Hc; [|done].
  unfold measure in *. cbn in *. rewrite (sum_same _ (todo (l_chans s))); [done|]. intros x. apply (todo_insert _ _ _ _ _ Hc). by rewrite drop_rx_view.
Qed.
Lemma measure_hears s k t ch rx o pc : inv s -> l_tasks s !! k = Some t -> t_pc t = Receiving -> l_chans s !! t_chan t = Some ch ->
  recv ch (t_rx t) = (rx, o) -> (exists v, o = Got v /\ pc = Forwarding v) \/ (exists n, o = Lagged n /\ pc = Receiving) ->
  (measure (set_task s k (hears t rx pc o)) < measure s)%nat.
Proof using HB.
  intros Hi Hk Hp Hc Hr Ho. destruct (iv_tasks s Hi k t Hk) as [(ch' & Hc' & Hh) _ _]. simplify_eq.
  pose proof (hearing_recv _ _ _ _ _ _ Hh Hr) as Hx. apply (measure_task s k t); [done|]. unfold todo. cbn. rewrite Hp, Hc.
  destruct Ho as [(v & -> & ->)|(n & -> & ->)]; destruct Hx as [[Hf _] Hlt]; apply follows_bounds in Hf; cbn; lia.
Qed.
Lemma tick_decreases s s' : inv s -> tick s s' -> (measure s' < measure s)%nat.
Proof using HB.
  intros Hi Ht. revert Hi. destruct Ht as [s0 k t ch rx v Hk Hp Hc Hr|s0 k t ch rx n Hk Hp Hc Hr|s0 k t ch rx Hk Hp Hc Hr|s0 k t v Hk Hp Hq Hw|s0 k t v Hk Hp Hw|s0 k t Hk Hp
    |s0 k t Hk Ha Hp|s0 m q Hw Hq|s0 m Hw|s0 Hw Hq Hl Hf]; intros Hi.
  - eapply measure_hears; eauto.
  - eapply measure_hears; eauto.
  - apply measure_finish; [done|by rewrite Hp].
  - assert (H : (todo (l_chans s0) (at_pc t (if paced then Sleeping else Receiving)) + 4 <= todo (l_chans s0) t)%nat).
    { unfold todo. cbn. rewrite Hp. destruct paced, (l_chans s0 !! t_chan t); cbn; lia. }
    unfold measure. cbn. rewrite length_app. cbn. pose proof (sum_insert (todo (l_chans s0)) _ _ _ (at_pc t (if paced then Sleeping else Receiving)) Hk). lia.
  - apply measure_finish; [done|by rewrite Hp].
  - apply (measure_task s0 k t); [done|]. unfold todo. cbn. rewrite Hp. destruct (l_chans s0 !! t_chan t); cbn; lia.
  - by apply measure_finish.
  - unfold measure. cbn. rewrite Hw, Hq. cbn. lia.
  - unfold measure. cbn. rewrite Hw. cbn. lia.
  - unfold measure. cbn. rewrite Hw, Hq. cbn. lia.
Qed.

(** A task with nothing more to hear, on a connection with nothing more to do. *)
Lemma quiet_task s k t : inv s -> nf tick s -> l_writer s <> WriterOver -> l_tasks s !! k = Some t -> t_pc t <> Over ->
  frames k (l_socket s) = gots (t_heard t) /\ exists ch, l_chans s !! t_chan t = Some ch /\ pos (t_rx t) = length (v_sent (view ch)).
Proof using HB.
  intros Hi Hn Hw Hk Hp. destruct (iv_tasks s Hi k t Hk) as [(ch & Hc & Hh) Hs Hf]. specialize (Hf Hw).
  assert (Hwr : l_writer s = Taking).
  { destruct (l_writer s) as [|m|] eqn:E; [done| |done]. exfalso. apply Hn. eexists. by apply (wr_sent s m). }
  assert (Hq : l_queue s = []).
  { destruct (l_queue s) as [|m q] eqn:E; [done|]. exfalso. apply Hn. eexists. by apply (wr_take s m q). }
  unfold forwarding, in_flight in Hf. rewrite Hwr, Hq in Hf. cbn in Hf. rewrite app_nil_r in Hf.
  destruct (t_pc t) as [|v| |] eqn:E; [..|done].
  - split; [done|]. exists ch. split; [done|]. destruct (recv ch (t_rx t)) as [rx o] eqn:Er.
    pose proof (hearing_recv _ _ _ _ _ _ Hh Er) as Hx. destruct o as [|v|n|]; [exact Hx|..|exact Hx]; exfalso; apply Hn; eexists.
    + by eapply tk_got.
    + by eapply tk_lag.
  - exfalso. apply Hn. eexists. eapply (tk_send s k t v); [done..|by rewrite Hq; unfold QUEUE; cbn; lia|done].
  - exfalso. apply Hn. eexists. by eapply tk_wake.
Qed.

(** C5: Nothing stays undelivered.  When publishers and the peer are quiet a
    connection comes to rest whatever the order in which its tasks and its writer
    go on; and at rest, if the socket did not fail, every running subscription
    has been given, on the socket, every frame published since it began except
    the ones its task was told it missed. *)
Theorem live_drains s : rtc step start s ->
  sn tick s /\
  forall s' k t, rtc tick s s' -> nf tick s' -> l_writer s' <> WriterOver -> l_tasks s' !! k = Some t -> t_pc t <> Over ->
    exists ch, l_chans s' !! t_chan t = Some ch /\
    (length (frames k (l_socket s')) + skipped (t_heard t) = length (drop (t_from t) (v_sent (view ch))))%nat /\
    (skipped (t_heard t) = 0%nat -> frames k (l_socket s') = drop (t_from t) (v_sent (view ch))).
Proof using HB.
  intros Hr. pose proof (live_inv_reachable s Hr) as Hi. split.
  - clear Hr. remember (measure s) as n eqn:En. revert s Hi En. induction n as [n IH] using lt_wf_ind. intros s Hi ->.
    constructor. intros y Hy. apply (IH (measure y)); [by apply tick_decreases|by eapply inv_tick|done].
  - intros s' k t Ht Hn Hw Hk Hp.
    assert (Hi' : inv s').
    { clear -Ht Hi HB. induction Ht as [|x y z Hxy _ IH]; [done|]. apply IH. by eapply inv_tick. }
    destruct (quiet_task s' k t Hi' Hn Hw Hk Hp) as (Hfr & ch & Hc & Hpos).
    destruct (iv_tasks s' Hi' k t Hk) as [(ch' & Hc' & Hf & _) _ _]. simplify_eq. exists ch. split; [done|].
    rewrite Hfr, length_drop. pose proof (follows_counts _ _ _ _ Hf) as Hcn. split; [lia|].
    intros H0. rewrite (follows_exact _ _ _ _ Hf H0), Hpos. apply take_ge. rewrite length_drop. lia.
Qed.
End Live.
End Conn.

(** ** A channel that keeps everything it was sent *)
Module Toy.
#[export] Instance toy (T : Type) : Broadcast T := {
  Chan := View T; Rx := nat; channel c := mkView [] (Z.to_nat c) 0 true; send := view_send;
  subscribe w := (mkView (v_sent w) (v_slots w) (v_rx w + 1) (v_open w), length (v_sent w));
  recv := view_recv; drop_rx w := mkView (v_sent w) (v_slots w) (v_rx w - 1) (v_open w);
  close w := mkView (v_sent w) (v_slots w) (v_rx w) false; receiver_count := v_rx }.
#[export, refine] Instance toy_ok (T : Type) : BroadcastOk T := { view := fun w => w; pos := fun r => r }.
Proof.
  - intros c Hc. by exists (Z.to_nat c).
  - intros w v. cbn. by destruct (view_send w v).
  - done.
  - intros w r _. cbn. by destruct (view_recv w r).
  - done.
  - done.
  - done.
Defined.
End Toy.
Import Toy.

(** A subscriber that reads too late is told what it missed. *)
Example lagged_subscriber :
  let b := EventBus.run (EventBus.start 2) [EventBus.Subscribe; EventBus.Publish 1; EventBus.Publish 2; EventBus.Publish 3; EventBus.Publish 4;
             EventBus.Receive 0; EventBus.Receive 0; EventBus.Receive 0; EventBus.Receive 0] in
  map (fun s => (EventBus.received s, EventBus.missed s)) (EventBus.b_subs b) = [([3; 4], 2%nat)].
Proof. reflexivity. Qed.
Lemma bus_accounts_witness :
  let b := EventBus.run (EventBus.start 2) [EventBus.Subscribe; EventBus.Publish 1; EventBus.Publish 2; EventBus.Receive 0] in
  exists s, s ∈ EventBus.b_subs b /\ EventBus.received s = [1] /\ EventBus.received s `prefix_of` [1; 2].
Proof.
  eexists. split; [by left|]. split; [reflexivity|].
  refine (proj1 (proj2 (proj2 (EventBus.bus_accounts 2 [EventBus.Subscribe; EventBus.Publish 1; EventBus.Publish 2; EventBus.Receive 0] _ _ _))) _);
    [done|by left|reflexivity].
Defined.

(** A session with one frame for one subscriber, from its publication to the socket. *)
Module LiveDemo.
Import Conn.
Definition s1 : Live := mkLive [Fanout.new] {[1 := 0%nat]} [] ∅ [] Taking [] true.
Definition ch2 : Chan := fst (Fanout.subscribe Fanout.new).
Definition t2 (rx : nat) (pc : Pc) (h : list (RecvResult (list Z))) : Task := mkTask 0 rx pc false 0 h.
Definition s2 : Live := mkLive [ch2] {[1 := 0%nat]} [t2 0 Receiving []] {[(lit "s", None) := 0%nat]} [] Taking [] true.
Definition ch3 : Chan := fst (Fanout.publish ch2 [7]).
Definition up (t : Task) q w sock : Live := mkLive [ch3] {[1 := 0%nat]} [t] {[(lit "s", None) := 0%nat]} q w sock true.
Definition frame : option nat * Message := (Some 0%nat, BinaryMsg [7]).
Definition published : Live := up (t2 0 Receiving []) [] Taking [].
Definition delivered : Live := up (t2 1 Receiving [Got [7]]) [] Taking [frame].
Lemma reach_published : rtc (step false) start published.
Proof.
  eapply rtc_l; [right; apply (ev_register _ 1)|]. cbn [l_chans l_reg l_tasks l_subs l_queue l_writer l_socket l_loop start app length]. rewrite insert_empty.
  eapply rtc_l; [right; eapply (ev_subscribe _ (lit "s", None) 1); reflexivity|].
  cbn [l_chans l_reg l_tasks l_subs l_queue l_writer l_socket l_loop app length]. rewrite insert_empty.
  apply rtc_once. right. exact (ev_publish s2 1 0 ch2 [7] eq_refl eq_refl).
Qed.
Lemma published_delivered : rtc (tick false) published delivered.
Proof.
  apply (rtc_l _ _ (up (t2 1 (Forwarding [7]) [Got [7]]) [] Taking [])); [exact (tk_got false published 0 _ ch3 1%nat [7] eq_refl eq_refl eq_refl eq_refl)|].
  apply (rtc_l _ _ (up (t2 1 Receiving [Got [7]]) [frame] Taking [])).
  { refine (tk_send false (up (t2 1 (Forwarding [7]) [Got [7]]) [] Taking []) 0 (t2 1 (Forwarding [7]) [Got [7]]) [7] eq_refl eq_refl _ _); [cbn; unfold QUEUE; lia|done]. }
  apply (rtc_l _ _ (up (t2 1 Receiving [Got [7]]) [] (Writing frame) [])); [exact (wr_take false (up (t2 1 Receiving [Got [7]]) [frame] Taking []) frame [] eq_refl eq_refl)|].
  apply rtc_once. exact (wr_sent false (up (t2 1 Receiving [Got [7]]) [] (Writing frame) []) frame eq_refl).
Qed.
Lemma reach_delivered : rtc (step false) start delivered.
Proof.
  etrans; [exact reach_published|]. eapply (rtc_subrel (tick false)); [|exact published_delivered]. intros x y H. by left.
Qed.
Lemma delivered_rests : nf (tick false) delivered.
Proof.
  intros [s' H]. inversion H as [? k ? ? ? ? Hk Hp Hc Hr|? k ? ? ? ? Hk Hp Hc Hr|? k ? ? ? Hk Hp Hc Hr|? k ? ? Hk Hp|? k ? ? Hk Hp|? k ? Hk Hp
    |? k ? Hk Ha|? ? ? ? Hq|? ? Hw|? ? ? Hl]; subst; try discriminate.
  all: destruct k as [|k]; [cbn in Hk; injection Hk as <-; cbn in *; simplify_eq|by rewrite lookup_nil in Hk || (cbn in Hk; discriminate)].
Qed.
End LiveDemo.

Lemma live_delivery_witness : Conn.frames 0 (Conn.l_socket LiveDemo.delivered) `prefix_of` [[7]] /\
  Conn.frames 0 (Conn.l_socket LiveDemo.delivered) = [[7]].
Proof.
  split; [|reflexivity].
  destruct (Conn.live_delivery false LiveDemo.delivered 0 _ LiveDemo.reach_delivered eq_refl) as (ch & Hc & _ & _ & Hp & _).
  injection Hc as <-. exact (Hp eq_refl).
Defined.
Lemma live_drains_witness : sn (Conn.tick false) LiveDemo.published /\
  Conn.frames 0 (Conn.l_socket LiveDemo.delivered) = [[7]].
Proof.
  destruct (Conn.live_drains false LiveDemo.published LiveDemo.reach_published) as [Hsn Hd]. split; [exact Hsn|].
  destruct (Hd LiveDemo.delivered 0%nat _ LiveDemo.published_delivered LiveDemo.delivered_rests ltac:(discriminate) eq_refl ltac:(discriminate)) as (ch & Hc & _ & He).
  injection Hc as <-. exact (He eq_refl).
Defined.
