(* ===== verification/Limits.v ===== *)
(** * The rate limit of crates/server/src/ratelimit.rs

    [TokenBucket] counts in binary64.  Every number of it is non-negative and
    far from the ends of the exponent range (a refill is at least one nanosecond's
    worth, a balance at most [u32::MAX]), so a float is a rational and an
    operation is the exact one followed by rounding to 53 significant bits,
    ties to even: [rnd], written out below. *)
From Stdlib Require Import QArith Qround Qpower Qabs Lqa Lia.
From stdpp Require Import base numbers list.
From S2P Require Import Prelude.

Local Open Scope Q_scope.

(** ** Rounding to binary64 *)
(** The exponent of the leading bit. *)
Definition expo (x : Q) : Z :=
  let e := (Z.log2 (Qnum x) - Z.log2 (QDen x))%Z in if Qle_bool (2 ^ e) x then e else (e - 1)%Z.
Definition half_even (x : Q) : Z :=
  let f := Qfloor x in
  match Qcompare (x - inject_Z f) (1 # 2) with
  | Lt => f
  | Gt => (f + 1)%Z
  | Eq => if Z.even f then f else (f + 1)%Z
  end.
Definition rnd (x : Q) : Q :=
  if Qle_bool x 0 then 0 else let e := (expo x - 52)%Z in Qred (inject_Z (half_even (x * 2 ^ (- e))) * 2 ^ e).

Lemma half_even_cases x : exists f : Z, half_even x = f /\ inject_Z f - (1 # 2) <= x <= inject_Z f + (1 # 2).
Proof.
  exists (half_even x). split; [done|]. unfold half_even. pose proof (Qfloor_le x) as H1. pose proof (Qlt_floor x) as H2.
  rewrite inject_Z_plus in H2. destruct (Qcompare_spec (x - inject_Z (Qfloor x)) (1 # 2)) as [H|H|H].
  - destruct (Z.even _); rewrite ?inject_Z_plus; change (inject_Z 1) with 1 in *; split; lra.
  - split; lra.
  - rewrite inject_Z_plus. change (inject_Z 1) with 1 in *. split; lra.
Qed.
Lemma half_even_floor x : (Qfloor x <= half_even x <= Qfloor x + 1)%Z.
Proof. unfold half_even. destruct (_ ?= _); [destruct (Z.even _)|..]; lia. Qed.
Lemma half_even_mono x y : x <= y -> (half_even x <= half_even y)%Z.
Proof.
  intros H. pose proof (Qfloor_resp_le x y H) as Hf. pose proof (half_even_floor x) as Hx. pose proof (half_even_floor y) as Hy.
  destruct (Z.eq_dec (Qfloor x) (Qfloor y)) as [E|E]; [|lia]. unfold half_even. rewrite E.
  destruct (Qcompare_spec (x - inject_Z (Qfloor y)) (1 # 2)) as [Hc|Hc|Hc], (Qcompare_spec (y - inject_Z (Qfloor y)) (1 # 2)) as [Hd|Hd|Hd];
    try destruct (Z.even _); try lia; exfalso; lra.
Qed.
Lemma half_even_Z x z : x == inject_Z z -> half_even x = z.
Proof.
  intros H. assert (Hf : Qfloor x = z) by (rewrite H; apply Qfloor_Z). unfold half_even. rewrite Hf.
  destruct (Qcompare_spec (x - inject_Z z) (1 # 2)) as [Hc|Hc|Hc]; [|done|]; exfalso; lra.
Qed.

Lemma pow_pos (e : Z) : 0 < 2 ^ e.
Proof. apply Qpower_0_lt. lra. Qed.
Lemma pow_add (a b : Z) : 2 ^ (a + b) == 2 ^ a * 2 ^ b.
Proof. apply Qpower_plus. lra. Qed.
Lemma pow_Z (n : Z) : (0 <= n)%Z -> 2 ^ n == inject_Z (2 ^ n)%Z.
Proof. intros H. symmetry. apply (Zpower_Qpower 2 n H). Qed.
Lemma pow_mono (a b : Z) : (a <= b)%Z -> 2 ^ a <= 2 ^ b.
Proof.
  intros H. assert (E : b = (a + (b - a))%Z) by lia. rewrite E, pow_add. rewrite (pow_Z (b - a)) by lia.
  pose proof (pow_pos a) as Hp. assert (Hz : 1 <= inject_Z (2 ^ (b - a))%Z).
  { change 1 with (inject_Z 1). rewrite <- Zle_Qle. pose proof (Z.pow_pos_nonneg 2 (b - a)). lia. }
  nra.
Qed.
Lemma expo_spec x : 0 < x -> 2 ^ expo x <= x < 2 ^ (expo x + 1).
Proof.
  intros Hx. destruct x as [n d]. assert (Hn : (0 < n)%Z) by (unfold Qlt in Hx; cbn in Hx; lia).
  destruct (Z.log2_spec n Hn) as [Hn1 Hn2]. destruct (Z.log2_spec (Zpos d) ltac:(lia)) as [Hd1 Hd2].
  set (a := Z.log2 n) in *. set (b := Z.log2 (Zpos d)) in *. pose proof (Z.log2_nonneg n) as Ha. pose proof (Z.log2_nonneg (Zpos d)) as Hb. fold a in Ha. fold b in Hb.
  assert (Hval : (n # d) == inject_Z n / inject_Z (Zpos d)) by (rewrite <- Qmake_Qdiv; reflexivity).
  assert (Hdp : 0 < inject_Z (Zpos d)) by (change 0 with (inject_Z 0); rewrite <- Zlt_Qlt; lia).
  assert (Hq1 : 2 ^ a <= inject_Z n) by (rewrite pow_Z, <- Zle_Qle by lia; lia).
  assert (Hq2 : inject_Z n < 2 ^ (a + 1)) by (rewrite pow_Z, <- Zlt_Qlt by lia; lia).
  assert (Hq3 : 2 ^ b <= inject_Z (Zpos d)) by (rewrite pow_Z, <- Zle_Qle by lia; lia).
  assert (Hq4 : inject_Z (Zpos d) < 2 ^ (b + 1)) by (rewrite pow_Z, <- Zlt_Qlt by lia; lia).
  rewrite pow_add in Hq2, Hq4. change (2 ^ 1) with 2 in *.
  assert (Hab : 2 ^ (a - b) * 2 ^ b == 2 ^ a) by (rewrite <- pow_add; replace (a - b + b)%Z with a by lia; reflexivity).
  pose proof (pow_pos (a - b)) as Hp.
  assert (Hup : (n # d) < 2 * 2 ^ (a - b)).
  { rewrite Hval. apply Qlt_shift_div_r; [done|]. nra. }
  assert (Hlo : 2 ^ (a - b) <= 2 * (n # d)).
  { apply (proj1 (Qmult_le_r _ _ _ Hdp)).
    assert (Hm : (n # d) * inject_Z (Zpos d) == inject_Z n) by (rewrite Hval; field; lra). nra. }
  unfold expo. cbn [Qnum Qden]. fold a b. destruct (Qle_bool (2 ^ (a - b)) (n # d)) eqn:E.
  - apply Qle_bool_iff in E. rewrite pow_add. change (2 ^ 1) with 2. split; lra.
  - assert (Hlt : (n # d) < 2 ^ (a - b)).
    { apply Qnot_le_lt. intros H. apply Qle_bool_iff in H. congruence. }
    replace (a - b - 1 + 1)%Z with (a - b)%Z by lia. split; [|done].
    assert (H2 : 2 ^ (a - b) == 2 ^ (a - b - 1) * 2). { rewrite <- (pow_add _ 1). replace (a - b - 1 + 1)%Z with (a - b)%Z by lia. reflexivity. }
    lra.
Qed.
Lemma expo_mono x y : 0 < x -> x <= y -> (expo x <= expo y)%Z.
Proof.
  intros Hx Hxy. destruct (expo_spec x Hx) as [H1 _]. destruct (expo_spec y) as [_ H2]; [lra|].
  destruct (Z.le_gt_cases (expo x) (expo y)) as [H|H]; [done|]. exfalso. pose proof (pow_mono (expo y + 1) (expo x) ltac:(lia)). lra.
Qed.

(** The significand before rounding. *)
Definition scaled (x : Q) : Q := x * 2 ^ (- (expo x - 52)).
Lemma unscale x (m : Q) : m * 2 ^ (- (expo x - 52)) * 2 ^ (expo x - 52) == m.
Proof. rewrite <- Qmult_assoc, <- pow_add. replace (- (expo x - 52) + (expo x - 52))%Z with 0%Z by lia. change (2 ^ 0) with 1. ring. Qed.
Lemma rnd_pos x : 0 < x -> rnd x == inject_Z (half_even (scaled x)) * 2 ^ (expo x - 52).
Proof.
  intros H. unfold rnd. destruct (Qle_bool x 0) eqn:E; [apply Qle_bool_iff in E; lra|]. apply Qred_correct.
Qed.
Lemma rnd_nonpos x : x <= 0 -> rnd x = 0.
Proof. intros H. unfold rnd. by rewrite (proj2 (Qle_bool_iff x 0) H). Qed.
Lemma scaled_range x : 0 < x -> inject_Z (2 ^ 52) <= scaled x <= inject_Z (2 ^ 53).
Proof.
  intros Hx. destruct (expo_spec x Hx) as [H1 H2]. unfold scaled. pose proof (pow_pos (- (expo x - 52))) as Hp.
  rewrite <- !(pow_Z 52), <- !(pow_Z 53) by lia.
  assert (E1 : 2 ^ 52 == 2 ^ expo x * 2 ^ (- (expo x - 52))) by (rewrite <- pow_add; replace (expo x + - (expo x - 52))%Z with 52%Z by lia; reflexivity).
  assert (E2 : 2 ^ 53 == 2 ^ (expo x + 1) * 2 ^ (- (expo x - 52))) by (rewrite <- pow_add; replace (expo x + 1 + - (expo x - 52))%Z with 53%Z by lia; reflexivity).
  rewrite E1, E2. split; apply Qmult_le_compat_r; lra.
Qed.
Lemma rnd_range x : 0 < x -> 2 ^ expo x <= rnd x <= 2 ^ (expo x + 1).
Proof.
  intros Hx. rewrite (rnd_pos x Hx). destruct (scaled_range x Hx) as [H1 H2]. pose proof (pow_pos (expo x - 52)) as Hp.
  apply half_even_mono in H1, H2. rewrite (half_even_Z _ (2 ^ 52)) in H1 by reflexivity. rewrite (half_even_Z (inject_Z (2 ^ 53)) (2 ^ 53)) in H2 by reflexivity.
  rewrite Zle_Qle in H1, H2. rewrite <- (pow_Z 52) in H1 by lia. rewrite <- (pow_Z 53) in H2 by lia.
  assert (E1 : 2 ^ expo x == 2 ^ 52 * 2 ^ (expo x - 52)) by (rewrite <- pow_add; replace (52 + (expo x - 52))%Z with (expo x) by lia; reflexivity).
  assert (E2 : 2 ^ (expo x + 1) == 2 ^ 53 * 2 ^ (expo x - 52)) by (rewrite <- pow_add; replace (53 + (expo x - 52))%Z with (expo x + 1)%Z by lia; reflexivity).
  rewrite E1, E2. split; apply Qmult_le_compat_r; lra.
Qed.
Lemma rnd_nonneg x : 0 <= rnd x.
Proof.
  destruct (Qlt_le_dec 0 x) as [H|H]; [|rewrite rnd_nonpos by done; lra]. destruct (rnd_range x H). pose proof (pow_pos (expo x)). lra.
Qed.
Lemma rnd_mono x y : x <= y -> rnd x <= rnd y.
Proof.
  intros H. destruct (Qlt_le_dec 0 x) as [Hx|Hx]; [|rewrite (rnd_nonpos x) by done; apply rnd_nonneg].
  assert (Hy : 0 < y) by lra. pose proof (expo_mono x y Hx H) as He. destruct (Z.eq_dec (expo x) (expo y)) as [E|E].
  - rewrite (rnd_pos x Hx), (rnd_pos y Hy). unfold scaled. rewrite E. apply Qmult_le_compat_r; [|pose proof (pow_pos (expo y - 52)); lra].
    rewrite <- Zle_Qle. apply half_even_mono, Qmult_le_compat_r; [done|]. pose proof (pow_pos (- (expo y - 52))). lra.
  - destruct (rnd_range x Hx) as [_ H1]. destruct (rnd_range y Hy) as [H2 _]. pose proof (pow_mono (expo x + 1) (expo y) ltac:(lia)). lra.
Qed.
#[export] Instance rnd_proper : Proper (Qeq ==> Qeq) rnd.
Proof. intros x y E. apply Qle_antisym; apply rnd_mono; rewrite E; lra. Qed.

(** The relative error of one rounding. *)
Definition ulp : Q := 1 # 9007199254740992.
Lemma rnd_error x : 0 <= x -> x * (1 - ulp) <= rnd x <= x * (1 + ulp).
Proof.
  intros Hx0. destruct (Qlt_le_dec 0 x) as [Hx|Hx]; [|rewrite rnd_nonpos by done; assert (x == 0) as -> by lra; split; unfold ulp; lra].
  destruct (half_even_cases (scaled x)) as (f & Ef & Hf). rewrite (rnd_pos x Hx), Ef. pose proof (pow_pos (expo x - 52)) as Hp.
  assert (Hs : scaled x * 2 ^ (expo x - 52) == x) by apply unscale.
  assert (Hlo : (1 # 2) * 2 ^ (expo x - 52) <= x * ulp).
  { destruct (expo_spec x Hx) as [H _].
    assert (E : 2 ^ (expo x) == (inject_Z (2 ^ 52)) * 2 ^ (expo x - 52)).
    { rewrite <- (pow_Z 52), <- pow_add by lia. replace (52 + (expo x - 52))%Z with (expo x) by lia. reflexivity. }
    rewrite E in H. unfold ulp. change (inject_Z (2 ^ 52)) with (4503599627370496 # 1) in H. lra. }
  set (g := inject_Z f) in *. set (r := 2 ^ (expo x - 52)) in *. set (y := scaled x) in *. clearbody g r y. clear Ef.
  split; nra.
Qed.
Lemma rnd_Z z : (0 <= z <= 2 ^ 53)%Z -> rnd (inject_Z z) == inject_Z z.
Proof.
  intros Hz. destruct (Z.eq_dec z 0%Z) as [->|Hne]; [done|]. assert (Hx : 0 < inject_Z z) by (change 0 with (inject_Z 0); rewrite <- Zlt_Qlt; lia).
  rewrite (rnd_pos _ Hx). destruct (expo_spec _ Hx) as [H1 _].
  assert (He : (expo (inject_Z z) <= 53)%Z).
  { destruct (Z.le_gt_cases (expo (inject_Z z)) 53) as [H|H]; [done|]. exfalso. pose proof (pow_mono 54 (expo (inject_Z z)) ltac:(lia)) as Hm.
    assert (Hzz : inject_Z z <= inject_Z (2 ^ 53)) by (rewrite <- Zle_Qle; lia). rewrite (pow_Z 54) in Hm by lia.
    assert (inject_Z (2 ^ 54) <= inject_Z (2 ^ 53)) as Hc by lra. rewrite <- Zle_Qle in Hc. lia. }
  assert (Hi : exists w, scaled (inject_Z z) == inject_Z w).
  { unfold scaled. destruct (Z.le_gt_cases (expo (inject_Z z)) 52) as [H|H].
    - exists (z * 2 ^ (- (expo (inject_Z z) - 52)))%Z. rewrite inject_Z_mult, <- pow_Z by lia. reflexivity.
    - exists (2 ^ 52)%Z. assert (E : expo (inject_Z z) = 53%Z) by lia. rewrite E in *.
      assert (z = 2 ^ 53)%Z as ->. { rewrite (pow_Z 53), <- Zle_Qle in H1 by lia. lia. } reflexivity. }
  destruct Hi as [w Hw]. rewrite (half_even_Z _ w Hw), <- Hw. apply unscale.
Qed.

(** ** TokenBucket *)
Definition RATE_BPS : Z := 1024.
Record TokenBucket := mkBucket { capacity : Z; rate_per_sec : Z; tokens : Q; last : Z }.
(** [Instant]s are nanoseconds of the monotonic clock. *)
Definition new (cap rate now : Z) : res unit TokenBucket :=
  if (rate =? 0)%Z then Panic else Ok (mkBucket cap rate (rnd (inject_Z cap)) now).
Definition f64_min (a b : Q) : Q := if Qle_bool a b then a else b.
(** [Duration::as_secs_f64]. *)
Definition as_secs_f64 (ns : Z) : Q := rnd (rnd (inject_Z (ns / 1000000000)) + rnd (inject_Z (ns mod 1000000000) / inject_Z 1000000000)).
Definition refilled (b : TokenBucket) (now : Z) : Q :=
  let dt := as_secs_f64 (Z.max 0 (now - last b)) in
  f64_min (rnd (tokens b + rnd (dt * inject_Z (rate_per_sec b)))) (inject_Z (capacity b)).
Definition try_consume (b : TokenBucket) (cost now : Z) : TokenBucket * bool :=
  let t := refilled b now in
  let cost_f := inject_Z cost in
  if Qle_bool cost_f t then (mkBucket (capacity b) (rate_per_sec b) (rnd (t - cost_f)) now, true)
  else (mkBucket (capacity b) (rate_per_sec b) t now, false).
Definition available (b : TokenBucket) : Z := Z.min u32_max (Qfloor (if Qle_bool 0 (tokens b) then tokens b else 0)).

(** A run of requests, with what they were granted. *)
Fixpoint consume_all (b : TokenBucket) (calls : list (Z * Z)) : TokenBucket * Z :=
  match calls with
  | [] => (b, 0%Z)
  | (cost, now) :: calls' =>
      let '(b1, ok) := try_consume b cost now in
      let '(b2, n) := consume_all b1 calls' in (b2, ((if ok then cost else 0) + n)%Z)
  end.

Record bucket_ok (b : TokenBucket) : Prop := {
  bk_cap : (0 <= capacity b <= u32_max)%Z; bk_rate : (0 < rate_per_sec b <= u32_max)%Z; bk_tokens : 0 <= tokens b <= inject_Z (capacity b) }.

Lemma f64_min_le a b : f64_min a b <= a /\ f64_min a b <= b.
Proof.
  unfold f64_min. destruct (Qle_bool a b) eqn:E; [apply Qle_bool_iff in E; split; lra|]. split; [|lra].
  apply Qlt_le_weak, Qnot_le_lt. intros H. apply Qle_bool_iff in H. congruence.
Qed.
Lemma f64_min_ge a b x : x <= a -> x <= b -> x <= f64_min a b.
Proof. intros. unfold f64_min. by destruct (Qle_bool a b). Qed.
Lemma inject_nonneg z : (0 <= z)%Z -> 0 <= inject_Z z.
Proof. intros H. change 0 with (inject_Z 0). by rewrite <- Zle_Qle. Qed.
Lemma rnd_cap b : bucket_ok b -> rnd (inject_Z (capacity b)) == inject_Z (capacity b).
Proof. intros [Hc _ _]. apply rnd_Z. unfold u32_max in Hc. lia. Qed.
Lemma refilled_range b now : bucket_ok b -> 0 <= refilled b now <= inject_Z (capacity b).
Proof.
  intros Hb. unfold refilled. split; [|apply f64_min_le]. apply f64_min_ge; [apply rnd_nonneg|]. apply inject_nonneg, Hb.
Qed.
Lemma try_consume_ok b cost now : bucket_ok b -> (0 <= cost)%Z -> bucket_ok (fst (try_consume b cost now)).
Proof.
  intros Hb Hc. destruct (refilled_range b now Hb) as [H0 H1]. pose proof Hb as [Hcap Hr _]. unfold try_consume.
  destruct (Qle_bool _ _); (split; cbn; [done..|]); [|done]. split; [apply rnd_nonneg|].
  rewrite <- (rnd_cap b Hb). apply rnd_mono. pose proof (inject_nonneg cost Hc). lra.
Qed.

(** Seconds, exactly. *)
Definition seconds (ns : Z) : Q := inject_Z ns / inject_Z 1000000000.
Lemma seconds_split ns : seconds ns == inject_Z (ns / 1000000000) + inject_Z (ns mod 1000000000) / inject_Z 1000000000.
Proof. unfold seconds. rewrite (Z.div_mod ns 1000000000) at 1 by done. rewrite inject_Z_plus, inject_Z_mult. field. Qed.
Lemma seconds_parts ns : (0 <= ns)%Z -> 0 <= inject_Z (ns / 1000000000) /\ 0 <= inject_Z (ns mod 1000000000) / inject_Z 1000000000.
Proof.
  intros H. split; [apply inject_nonneg, Z.div_pos; lia|]. apply Qle_shift_div_l; [done|]. rewrite Qmult_0_l.
  apply inject_nonneg. apply Z.mod_pos_bound. lia.
Qed.
Lemma as_secs_upper ns : (0 <= ns)%Z -> as_secs_f64 ns <= seconds ns * ((1 + ulp) * (1 + ulp)).
Proof.
  intros H. destruct (seconds_parts ns H) as [Ha Hb]. rewrite seconds_split. unfold as_secs_f64.
  set (a := inject_Z (ns / 1000000000)) in *. set (c := inject_Z (ns mod 1000000000) / inject_Z 1000000000) in *. clearbody a c.
  destruct (rnd_error a Ha) as [_ H1]. destruct (rnd_error c Hb) as [_ H2]. pose proof (rnd_nonneg a) as Na. pose proof (rnd_nonneg c) as Nc.
  destruct (rnd_error (rnd a + rnd c)) as [_ H3]; [lra|]. unfold ulp in *. lra.
Qed.
Lemma as_secs_lower ns k : (0 <= k <= 2 ^ 53)%Z -> (k * 1000000000 <= ns)%Z -> inject_Z k <= as_secs_f64 ns.
Proof.
  intros Hk Hn. assert (H : (k <= ns / 1000000000)%Z) by (apply Z.div_le_lower_bound; lia).
  unfold as_secs_f64. rewrite <- (rnd_Z k Hk) at 1. apply rnd_mono. rewrite Zle_Qle in H. apply rnd_mono in H. rewrite (rnd_Z k Hk) in H.
  pose proof (rnd_nonneg (inject_Z (ns mod 1000000000) / inject_Z 1000000000)). lra.
Qed.

Definition waited (b : TokenBucket) (now : Z) : Q := seconds (Z.max 0 (now - last b)).
Lemma waited_nonneg b now : 0 <= waited b now.
Proof. unfold waited, seconds. apply Qle_shift_div_l; [done|]. rewrite Qmult_0_l. apply inject_nonneg. lia. Qed.
Lemma refilled_upper b now : bucket_ok b ->
  refilled b now <= tokens b + waited b now * inject_Z (rate_per_sec b) * (1 + 4 * ulp) + ulp * inject_Z (capacity b).
Proof.
  intros Hb. pose proof Hb as [Hcap Hr [Ht0 Ht1]]. unfold refilled. set (dt := as_secs_f64 _). pose proof (as_secs_upper (Z.max 0 (now - last b)) ltac:(lia)) as Hd.
  fold dt in Hd. change (seconds _) with (waited b now) in Hd. pose proof (waited_nonneg b now) as HD. set (D := waited b now) in *.
  assert (HR : 0 <= inject_Z (rate_per_sec b)) by (apply inject_nonneg; lia). set (R := inject_Z (rate_per_sec b)) in *. pose proof (rnd_nonneg (rnd (inject_Z (Z.max 0 (now - last b) / 1000000000)) + rnd (inject_Z (Z.max 0 (now - last b) mod 1000000000) / inject_Z 1000000000))) as Hdt. fold (as_secs_f64 (Z.max 0 (now - last b))) in Hdt. fold dt in Hdt.
  set (r := rnd (dt * R)).
  assert (Hr1 : r <= D * R * (1 + 4 * ulp)).
  { destruct (rnd_error (dt * R)) as [_ H]; [by apply Qmult_le_0_compat|]. fold r in H.
    pose proof (Qmult_le_compat_r _ _ R Hd HR) as H2. assert (HP : 0 <= D * R) by (by apply Qmult_le_0_compat). unfold ulp in *. lra. }
  assert (Hr0 : 0 <= r) by apply rnd_nonneg. destruct (rnd_error (tokens b + r)) as [_ Hs]; [lra|].
  destruct (f64_min_le (rnd (tokens b + r)) (inject_Z (capacity b))) as [H1 H2]. set (C := inject_Z (capacity b)) in *.
  set (m := f64_min _ _) in *. clearbody m C r. unfold ulp in *. destruct (Qlt_le_dec C (tokens b + r)); lra.
Qed.
(** What a call takes and leaves is covered by what was there and what the time
    since the last call brought, but for two roundings of the balance. *)
Lemma try_consume_pays b cost now b' ok : bucket_ok b -> (0 <= cost)%Z -> try_consume b cost now = (b', ok) ->
  inject_Z (if ok then cost else 0%Z) + tokens b' <=
  tokens b + waited b now * inject_Z (rate_per_sec b) * (1 + 4 * ulp) + 2 * ulp * inject_Z (capacity b).
Proof.
  intros Hb Hc H. pose proof (refilled_upper b now Hb) as Hu. destruct (refilled_range b now Hb) as [H0 H1]. pose proof (inject_nonneg _ Hc) as Hc0.
  pose proof (waited_nonneg b now) as HD. unfold try_consume in H. set (t := refilled b now) in *.
  set (W := waited b now * inject_Z (rate_per_sec b) * (1 + 4 * ulp)) in *. set (C := inject_Z (capacity b)) in *. clearbody t W C.
  destruct (Qle_bool (inject_Z cost) t) eqn:E; injection H as <- <-; cbn [tokens].
  - apply Qle_bool_iff in E. destruct (rnd_error (t - inject_Z cost)) as [_ Hx]; [lra|]. unfold ulp in *. lra.
  - change (inject_Z 0) with 0. assert (0 <= ulp * C) by (apply Qmult_le_0_compat; [unfold ulp; lra|lra]). lra.
Qed.

(** Calls in the order of their times, from [t] to [t']. *)
Fixpoint ordered (t : Z) (calls : list (Z * Z)) (t' : Z) : Prop :=
  match calls with
  | [] => t' = t
  | (cost, now) :: calls' => (0 <= cost)%Z /\ (t <= now)%Z /\ ordered now calls' t'
  end.
Lemma ordered_le t calls t' : ordered t calls t' -> (t <= t')%Z.
Proof. revert t. induction calls as [|[c n] calls IH]; intros t; cbn; [lia|]. intros (_ & Hle & H). apply IH in H. lia. Qed.
Lemma seconds_plus a b : seconds (a + b) == seconds a + seconds b.
Proof. unfold seconds. rewrite inject_Z_plus. field. Qed.
Lemma consume_all_pays calls : forall b t', bucket_ok b -> ordered (last b) calls t' ->
  let '(b', n) := consume_all b calls in
  bucket_ok b' /\ capacity b' = capacity b /\
  inject_Z n + tokens b' <= tokens b + seconds (t' - last b) * inject_Z (rate_per_sec b) * (1 + 4 * ulp)
    + 2 * ulp * inject_Z (capacity b) * inject_Z (Z.of_nat (length calls)).
Proof.
  induction calls as [|[cost now] calls IH]; intros b t' Hb Ho; cbn [consume_all ordered] in *.
  - do 2 (split; [done|]). subst t'. rewrite Z.sub_diag. assert (E0 : seconds 0 == 0) by reflexivity. rewrite E0.
    change (inject_Z (Z.of_nat (length (@nil (Z * Z))))) with 0. change (inject_Z 0) with 0. lra.
  - destruct Ho as (Hc & Hle & Ho). destruct (try_consume b cost now) as [b1 ok] eqn:E. pose proof (try_consume_pays _ _ _ _ _ Hb Hc E) as Hp.
    pose proof (try_consume_ok b cost now Hb Hc) as Hb1. rewrite E in Hb1. cbn in Hb1.
    assert (Hf : capacity b1 = capacity b /\ rate_per_sec b1 = rate_per_sec b /\ last b1 = now).
    { unfold try_consume in E. by destruct (Qle_bool _ _); injection E as <- <-. }
    destruct Hf as (Ec & Er & El). rewrite <- El in Ho. specialize (IH b1 t' Hb1 Ho). destruct (consume_all b1 calls) as [b2 n]. destruct IH as (Hb2 & Ec2 & IH).
    split; [done|]. split; [by rewrite Ec2|]. rewrite Ec, Er, El in IH. rewrite inject_Z_plus. cbn [length]. rewrite Nat2Z.inj_succ. unfold Z.succ. rewrite (inject_Z_plus (Z.of_nat _)). change (inject_Z 1) with 1.
    unfold waited in Hp. rewrite Z.max_r in Hp by lia.
    assert (Hs : seconds (t' - last b) == seconds (t' - now) + seconds (now - last b)).
    { rewrite <- seconds_plus. replace (t' - now + (now - last b))%Z with (t' - last b)%Z by lia. reflexivity. }
    rewrite Hs. set (x := seconds (t' - now)) in *. set (y := seconds (now - last b)) in *. set (R := inject_Z (rate_per_sec b)) in *.
    set (C := inject_Z (capacity b)) in *. set (L := inject_Z (Z.of_nat (length calls))) in *. clearbody x y R C L. unfold ulp in *. lra.
Qed.

(** The limit limits.  Whatever is asked of a new bucket, in the order of
    time, the bytes it grants are at most its burst size plus the rate times the
    time that has passed, but for rounding: a relative 2^-51 of the refill and a
    relative 2^-52 of the burst size per call, less than a byte in a million
    calls; and the balance stays between nothing and the burst size. *)
Theorem bucket_limits cap rate t b calls t' b' n :
  (0 <= cap <= u32_max)%Z -> (0 <= rate <= u32_max)%Z -> new cap rate t = Ok b -> ordered t calls t' -> consume_all b calls = (b', n) ->
  inject_Z n <= inject_Z cap + seconds (t' - t) * inject_Z rate * (1 + 4 * ulp) + 2 * ulp * inject_Z cap * inject_Z (Z.of_nat (length calls)) /\
  0 <= tokens b' <= inject_Z cap.
Proof.
  intros Hcap Hrate Hn Ho Hc. unfold new in Hn. destruct (rate =? 0)%Z eqn:Er; [done|]. apply Z.eqb_neq in Er. injection Hn as <-.
  assert (Hb : bucket_ok (mkBucket cap rate (rnd (inject_Z cap)) t)).
  { split; cbn; [lia..|]. rewrite rnd_Z by (unfold u32_max in *; lia). split; [apply inject_nonneg; lia|lra]. }
  pose proof (consume_all_pays calls _ t' Hb Ho) as H. rewrite Hc in H. cbn [tokens last rate_per_sec capacity] in H. destruct H as ([_ _ Ht] & Ec & H).
  cbn in Ec. rewrite Ec in Ht. split; [|done]. rewrite (rnd_Z cap) in H by (unfold u32_max in *; lia). lra.
Qed.

(** The limit lets through: a request no larger than the burst size is granted
    once as many whole seconds have passed since the last call as its bytes take
    at the rate. *)
Theorem bucket_grants b cost k now : bucket_ok b -> (0 <= cost <= capacity b)%Z -> (0 <= k <= 2 ^ 53)%Z -> (cost <= k * rate_per_sec b)%Z ->
  (last b + k * 1000000000 <= now)%Z -> snd (try_consume b cost now) = true.
Proof.
  intros Hb Hc Hk Hr Hn. pose proof Hb as [Hcap Hrate [Ht _]]. unfold try_consume.
  assert (H : Qle_bool (inject_Z cost) (refilled b now) = true); [|by rewrite H]. apply Qle_bool_iff. unfold refilled.
  assert (Hx : rnd (inject_Z cost) == inject_Z cost) by (apply rnd_Z; unfold u32_max in *; lia).
  apply f64_min_ge; [|rewrite <- Zle_Qle; lia]. rewrite <- Hx. apply rnd_mono.
  assert (Hp : inject_Z cost <= rnd (as_secs_f64 (Z.max 0 (now - last b)) * inject_Z (rate_per_sec b))); [|lra].
  rewrite <- Hx at 1. apply rnd_mono. pose proof (as_secs_lower (Z.max 0 (now - last b)) k Hk ltac:(lia)) as Hl.
  assert (HR : 0 <= inject_Z (rate_per_sec b)) by (apply inject_nonneg; lia).
  apply Qle_trans with (inject_Z k * inject_Z (rate_per_sec b)); [rewrite <- inject_Z_mult, <- Zle_Qle; lia|by apply Qmult_le_compat_r].
Qed.

(** The bucket of one kilobyte a second: a full burst, nothing more at once, and
    half a burst after half a second. *)
Example bucket_refills_over_time :
  match new 1024 RATE_BPS 0 with
  | Ok b => (snd (consume_all b [(1024, 0); (1, 0)]%Z), snd (consume_all b [(1024, 0); (1, 0); (512, 500000000)]%Z)) = (1024, 1536)%Z
  | _ => False
  end.
Proof. vm_compute. reflexivity. Qed.
(** Finding: the time of a call replaces the last one even when it lies before it,
    so that the same second can be credited again and again. *)
Example backward_time_refills :
  match new 1000 1000 0 with
  | Ok b => snd (consume_all b [(1000, 1000000000); (1000, 0); (1000, 1000000000); (1000, 0); (1000, 1000000000)]%Z) = 3000%Z
  | _ => False
  end.
Proof. vm_compute. reflexivity. Qed.

Lemma bucket_limits_witness : exists b b', new 1024 1024 0 = Ok b /\ consume_all b [(1024, 0); (1, 0); (512, 500000000)]%Z = (b', 1536%Z) /\
  0 <= tokens b' <= inject_Z 1024.
Proof.
  eexists _, _. split; [reflexivity|]. split; [vm_compute; reflexivity|].
  eapply (proj2 (bucket_limits 1024 1024 0 _ [(1024, 0); (1, 0); (512, 500000000)]%Z 500000000 _ 1536 ltac:(done) ltac:(done) eq_refl _ _)).
  Unshelve. { cbn. lia. } { vm_compute. reflexivity. }
Defined.
Lemma bucket_grants_witness : snd (try_consume (mkBucket 1024 1024 0 0) 1024 1000000000) = true.
Proof. apply (bucket_grants _ 1024 1); cbn; try lia. split; cbn; [by vm_compute..|]. split; [lra|]. by vm_compute. Defined.
