(* ===== verification/Cli.v ===== *)
(** * The commands that convert, check and provision

    crates/cli/src/cmd/import.rs, export.rs and detect.rs, the extcap modes of
    cmd/extcap.rs and main.rs, crates/cli/src/ai_verify.rs with
    crates/server/src/ai_api.rs, the detection report of
    crates/server/src/routes.rs, and [token-hash].  The exporters and importers
    are those of [Csv], [Interchange] and [Pcapng]; the theorems compose the
    commands with each other, with the server's downloads ([Downloads]) and with
    its admission ([Serve]). *)
From stdpp Require Import base numbers strings gmap list.
From S2P Require Import Prelude Text Decoder Clock SessionDir Csv Interchange Export Downloads Pcapng Auth WsParse Ws WsManager Startup Native Commands Host Config Serve.

Local Open Scope Z_scope.
Local Open Scope tm_scope.

(** ** tracemux export *)
Inductive CliError :=
| UnknownKind
| NotSessionDir
| IndexMissing
| SourceMissing
| DstNotEmpty
| NotImplemented
| Core (id : ErrorId).
Definition EXPORT_KINDS : list (list Z) := [lit "csv"; lit "text"; lit "jsonl"; lit "pcapng"].
Definition IMPORT_KINDS : list (list Z) := [lit "teraterm"; lit "pcapng"; lit "csv"; lit "text"].

(** What a path names: the files of a session directory are those of [LogDir]
    and [frames.jsonl]. *)
Inductive Node := NoNode | PlainFile (content : list Z) | Directory (d : LogDir) (frames : option (list (option (option FrameEntry)))).

Section ExportCmd.
  Context (codec_decode : list Z -> list Z -> list Z) (toml_meta : list Z -> option SessionMeta)
    (UtcOffset Instant : Type) (from_hms : Z -> Z -> option UtcOffset) (rfc3339_parse : list Z -> option Instant)
    (to_offset : UtcOffset -> Instant -> Instant) (rfc3339_format : Instant -> option (list Z)) (f32_value : Z -> Value)
    (uuid_str : Z -> list Z) (json_text : Value -> list Z) {W : Type} `{!PcapNgWriter W} (instant_ns : list Z -> option Z).

(** exporter/csv.rs on a directory: the header is in the file before the first row. *)
Definition csv_run (creates : bool) (d : LogDir) (offset : option UtcOffset) (encoding : option (list Z)) : option (list Z) * result unit :=
  match d_index d, d_raw d with
  | Some ls, Some raw_bin =>
      let enc := resolve_text_encoding toml_meta d encoding in
      if creates then
        let '(out, res) := export_loop (Csv.export_row (fun b => codec_decode b enc)
          (fun ts => format_rfc3339_in_timezone UtcOffset Instant rfc3339_parse to_offset rfc3339_format ts offset) raw_bin) ls in
        (Some (csv_header ++ [10] ++ out), res)
      else (None, Err E1001PipelineGeneric)
  | _, _ => (None, Err E1001PipelineGeneric)
  end.
Definition csv_file (creates : bool) (d : LogDir) (timezone encoding : option (list Z)) : option (list Z) * result unit :=
  with_timezone UtcOffset from_hms (fun o => csv_run creates d o encoding) timezone.

(** exporter/pcapng.rs on a directory: what was written before an error stays. *)
Definition entry_writer (meta : MetaMap) (raw_bin : list Z) (st : W * Interfaces * Z) (e : IndexEntry) : W :=
  let '(w, ifs, _) := st in
  let m := meta !! (off e, len e) in
  match kind e, read_at raw_bin (off e) (len e) with
  | KDatagram, Ok bytes =>
      if negb (is_pcap_datagram e m) then w
      else match ensure_interface w ifs (default DEFAULT_ETHERNET_LINKTYPE (m ≫= m_linktype), packet_interface_label e m) with
           | (w1, _, Ok id) =>
               match Pcapng.timestamp_duration instant_ns (ts_origin e) with
               | Ok ts => fst (wr_write w1 (EPB id ts (match m ≫= m_original_len with Some n => n | None => default (len e) (m ≫= m_captured_len) end) bytes))
               | _ => w1
               end
           | (w1, _, _) => w1
           end
  | _, _ => w
  end.
Fixpoint pcapng_entries (meta : MetaMap) (raw_bin : list Z) (st : W * Interfaces * Z) (ls : list (option (option IndexEntry)))
  : W * result Z :=
  match ls with
  | [] => (fst (fst st), Ok (snd st))
  | None :: ls' => pcapng_entries meta raw_bin st ls'
  | Some None :: _ => (fst (fst st), Err E1001PipelineGeneric)
  | Some (Some e) :: ls' =>
      match Pcapng.export_entry instant_ns meta raw_bin st e with
      | Ok st' => pcapng_entries meta raw_bin st' ls'
      | Err x => (entry_writer meta raw_bin st e, Err x)
      | Panic => (entry_writer meta raw_bin st e, Panic)
      end
  end.
Definition pcapng_file (creates : bool) (d : LogDir) (frames : option (list (option (option FrameEntry)))) : option (list Z) * result unit :=
  match read_packet_metadata frames with
  | Ok meta =>
      match d_index d, d_raw d with
      | Some ls, Some raw_bin =>
          if creates then
            let '(w, r) := pcapng_entries meta raw_bin (wr_new, ∅, 0) ls in
            (Some (wr_bytes w), let* n := r in if n =? 0 then Err E1001PipelineGeneric else Ok tt)
          else (None, Err E1001PipelineGeneric)
      | _, _ => (None, Err E1001PipelineGeneric)
      end
  | Err e => (None, Err e)
  | Panic => (None, Panic)
  end.

(** Both write what the exporters of [Csv] and [Pcapng] make when they succeed. *)
Lemma csv_run_ok d offset encoding ls raw_bin out : d_index d = Some ls -> d_raw d = Some raw_bin ->
  csv_export (fun b => codec_decode b (resolve_text_encoding toml_meta d encoding))
    (fun ts => format_rfc3339_in_timezone UtcOffset Instant rfc3339_parse to_offset rfc3339_format ts offset) raw_bin ls = Ok out ->
  csv_run true d offset encoding = (Some out, Ok tt).
Proof using Type.
  intros Hi Hr H. unfold csv_run. rewrite Hi, Hr. unfold csv_export in H. apply bind_Ok in H as (rows & H & E). injection E as <-.
  set (row := Csv.export_row _ _ raw_bin). assert (Hl : export_loop row ls = (rows, Ok tt)); [|by rewrite Hl].
  subst row. clear Hi. revert rows H. induction ls as [|[[e|]|] ls IH]; intros rows H; cbn in *; [by simplify_eq| |done|by apply IH].
  destruct (Csv.export_row _ _ raw_bin e) as [r|?|]; cbn in H; [|done..]. apply bind_Ok in H as (rest & H & E). injection E as <-. by rewrite (IH _ H).
Qed.
Lemma pcapng_file_ok d frames ls raw_bin (w : W) : d_index d = Some ls -> d_raw d = Some raw_bin ->
  pcapng_export instant_ns raw_bin ls frames = Ok w -> pcapng_file true d frames = (Some (wr_bytes w), Ok tt).
Proof using Type.
  intros Hi Hr H. unfold pcapng_file, pcapng_export in *. rewrite Hi, Hr. destruct (read_packet_metadata frames) as [meta|?|]; cbn in H; [|done..].
  apply bind_Ok in H as ([[w' ifs] n] & H & E).
  assert (Hl : forall st, export_entries instant_ns meta raw_bin st ls = Ok (w', ifs, n) -> pcapng_entries meta raw_bin st ls = (w', Ok n)).
  { clear. induction ls as [|[[e|]|] ls IH]; intros st H; cbn in *; [by simplify_eq| |done|by apply IH].
    apply bind_Ok in H as (st' & -> & H). by apply IH. }
  rewrite (Hl _ H). cbn. destruct (n =? 0); [done|]. by injection E as ->.
Qed.

(** The exporter of a format, as [export_api.rs] and [cmd/export.rs] call it. *)
Definition export_format (f : ExportFormat) (creates : bool) (d : LogDir) (frames : option (list (option (option FrameEntry))))
    (tz enc : option (list Z)) : option (list Z) * result unit :=
  match f with
  | FText => text_export codec_decode toml_meta UtcOffset Instant from_hms rfc3339_parse to_offset rfc3339_format creates d tz enc
  | FCsv => csv_file creates d tz enc
  | FJsonl => jsonl_export codec_decode toml_meta UtcOffset Instant from_hms rfc3339_parse to_offset rfc3339_format f32_value uuid_str json_text creates d tz enc
  | FPcapng => pcapng_file creates d frames
  end.
Definition kind_is (kind : list Z) (s : string) : bool := str_eqb kind (lit s).
(** The first component is the new content of the destination. *)
Definition export_cmd (kind : list Z) (src : Node) (creates : bool) (tz enc : option (list Z)) : option (list Z) * res CliError unit :=
  if negb (existsb (str_eqb kind) EXPORT_KINDS) then (None, Err UnknownKind)
  else match src with
       | Directory d frames =>
           match d_index d with
           | None => (None, Err IndexMissing)
           | Some _ =>
               let run f := let '(out, r) := export_format f creates d frames tz enc in (out, map_err Core r) in
               if kind_is kind "text" then run FText
               else if kind_is kind "csv" then run FCsv
               else if kind_is kind "jsonl" then run FJsonl
               else if kind_is kind "pcapng" then run FPcapng
               else (None, Panic)
           end
       | _ => (None, Err NotSessionDir)
       end.

(** A kind of the list always finds its exporter. *)
Lemma export_cmd_kind f d frames creates tz enc : is_Some (d_index d) ->
  export_cmd (format_label f) (Directory d frames) creates tz enc = (let '(out, r) := export_format f creates d frames tz enc in (out, map_err Core r)).
Proof using Type. intros [ls Hl]. unfold export_cmd. destruct f; cbn [format_label]; rewrite Hl; reflexivity. Qed.

(** ** tracemux import *)
  Context (clock : nat -> Z) (sid : Z) (rfc3339 : Z -> option (list Z)) (parse_rfc3339_ns : list Z -> option Z).

(** importer/csv.rs on the bytes of a file: a line that is not UTF-8 ends it. *)
Abbreviation Cols := (option nat * option nat * option nat)%type.
Definition csv_emit (row : list (list Z)) (cols : Cols) (st : Imported) : Imported * result unit :=
  match emit_row (clock (length (i_index st))) sid rfc3339 parse_rfc3339_ns row cols st with
  | Ok st' => (st', Ok tt)
  | r =>
      let payload := match snd cols with Some i => default [] (row !! i) | None => join [44] row end in
      (mkImported (fst (raw_append 0 None (i_raw st) (utf8 payload))) (i_index st) (i_lines st), match r with Err e => Err e | _ => Panic end)
  end.
Fixpoint csv_loop (cols : Cols) (ls : list (list Z)) (st : Imported) : Imported * result unit :=
  match ls with
  | [] => (st, Ok tt)
  | b :: ls' =>
      match from_utf8 b with
      | None => (st, Err E1001PipelineGeneric)
      | Some [] => csv_loop cols ls' st
      | Some s => match csv_emit (parse_row s) cols st with
                  | (st', Ok _) => csv_loop cols ls' st'
                  | r => r
                  end
      end
  end.
Definition csv_import_file (file : list Z) : Imported * result unit :=
  match csv_lines file with
  | [] => (imported0, Ok tt)
  | first :: rest =>
      match from_utf8 first with
      | None => (imported0, Err E1001PipelineGeneric)
      | Some s =>
          let header := parse_row s in
          let cols := locate_cols header in
          let '(a, b, c) := cols in
          let has_header := match a, b, c with None, None, None => false | _, _, _ => true end in
          match (if has_header then (imported0, Ok tt) else csv_emit header (None, None, None) imported0) with
          | (st, Ok _) => csv_loop cols rest st
          | r => r
          end
      end
  end.

(** The destination of an import: nothing, something that is not a directory, an
    empty directory, or one that holds anything; of a directory, the files of a
    session. *)
Inductive Dst := DstAbsent | DstFile | DstEmpty | DstFull (st : Imported).
(** The importers create the directory, then open the source. *)
Definition import_into (dst : Dst) (src : option (list Z)) (run : list Z -> Imported * result unit) : Dst * res CliError unit :=
  match dst with
  | DstFile => (dst, Err (Core E1001PipelineGeneric))
  | _ => match src with
         | None => (DstEmpty, Err (Core E1001PipelineGeneric))
         | Some file => let '(st, r) := run file in (DstFull st, map_err Core r)
         end
  end.
(** [src] is [None] when there is no such file, [Some None] when it cannot be opened. *)
Definition import_cmd (kind : list Z) (src : option (option (list Z))) (dst : Dst) : Dst * res CliError unit :=
  if negb (existsb (str_eqb kind) IMPORT_KINDS) then (dst, Err UnknownKind)
  else match src with
       | None => (dst, Err SourceMissing)
       | Some file =>
           match dst with
           | DstFull _ => (dst, Err DstNotEmpty)
           | _ =>
               if kind_is kind "text" then import_into dst file (fun f => text_import clock sid rfc3339 (Some f) imported0)
               else if kind_is kind "csv" then import_into dst file csv_import_file
               else if kind_is kind "teraterm" || kind_is kind "pcapng" then (dst, Err NotImplemented)
               else (dst, Panic)
           end
       end.
(** What the export command finds in the directory an import left. *)
Definition imported_node (dst : Dst) : Node :=
  match dst with
  | DstAbsent => NoNode
  | DstFile => PlainFile []
  | DstEmpty => Directory (mkLogDir None None None) None
  | DstFull st => Directory (log_dir (SessionDir.stream (SessionDir.inner (i_raw st))) (i_index st)) None
  end.

(** An import never touches a directory that holds anything, and no kind of the
    list is unhandled. *)
Lemma import_keeps kind src st : fst (import_cmd kind src (DstFull st)) = DstFull st /\ snd (import_cmd kind src (DstFull st)) <> Ok tt.
Proof using Type. unfold import_cmd. destruct (negb _); [done|]. by destruct src. Qed.


(** ** The same export over HTTP *)
Lemma with_timezone_ok run tz out : (forall o out, run o = (out, Ok tt) -> is_Some out) ->
  with_timezone UtcOffset from_hms run tz = (out, Ok tt) -> is_Some out.
Proof using Type. unfold with_timezone. intros H. destruct (parse_zone _ _ _) as [o|e|]; [apply H|done..]. Qed.
Lemma export_format_ok f d fr tz enc out : export_format f true d fr tz enc = (out, Ok tt) -> is_Some out.
Proof using Type.
  destruct f; cbn [export_format].
  - apply with_timezone_ok. intros o out'. unfold export_run. destruct (d_index d), (d_raw d); try done. destruct (export_loop _ _). intros [= <- _]. by eexists.
  - apply with_timezone_ok. intros o out'. unfold csv_run. destruct (d_index d), (d_raw d); try done. destruct (export_loop _ _). intros [= <- _]. by eexists.
  - apply with_timezone_ok. intros o out'. unfold export_run. destruct (d_index d), (d_raw d); try done. destruct (export_loop _ _). intros [= <- _]. by eexists.
  - unfold pcapng_file. destruct (read_packet_metadata fr); [|done..]. destruct (d_index d), (d_raw d); try done. destruct (pcapng_entries _ _ _ _). intros [= <- _]. by eexists.
Qed.
  Context (parse_uuid : list Z -> option Z) (session_dir_for_sid : Z -> option (list Z)) (session_root : option (list Z))
    (exists_ : list Z -> bool) (canonicalize : list Z -> option (list (list Z))) (nodes : list Z -> Node) (temp_dir : list Z).
(** The file system the server's exports see. *)
Definition has_index (p : list Z) : bool := match nodes p with Directory d _ => given (d_index d) | _ => false end.
Definition export_to (f : ExportFormat) (p : list Z) (tz enc : option (list Z)) : option (list Z) * result unit :=
  match nodes p with Directory d fr => export_format f true d fr tz enc | _ => (None, Err E1001PipelineGeneric) end.

End ExportCmd.


(** ** tracemux token-hash *)
Inductive TokenError := EmptyToken | HashError.
Definition run_token_hash (hash_password : Z -> list Z -> option (list Z)) (salt : Z) (token : list Z) : res TokenError (list Z) :=
  if bool_decide (token = []) then Err EmptyToken else map_err (fun _ => HashError) (hash_token hash_password salt token).

Section Provision.
  Context {M : Type} `{HA : !SourceApi M} (new_manager : Manager.Settings -> M) (settings_of : M -> Manager.Settings).
  Context (phc_ok : list Z -> bool) (verify_password : list Z -> list Z -> bool) (hash_password : Z -> list Z -> option (list Z))
    (read_to_string : list Z -> option (list Z)) (parse_note : list Z -> option Annotations.Annotation)
    (generate : list (list Z) -> list Z + Host.Tls.CertBundle) (readable : list Z -> bool)
    (certs_of : list Z -> list Z + list (list Z)) (key_of : list Z -> list Z + list Z) (install : list (list Z) -> list Z -> option (list Z))
    (build_regex : list Z -> bool -> option (list Z -> Z)) (toml_value : list Z -> option Toml).
  (** A fresh argon2 hash verifies the password it was made of; a PHC string is
      not empty and holds no white space. *)
  Hypothesis argon2_complete : forall salt pw phc, hash_password salt pw = Some phc -> verify_password pw phc = true.
  Hypothesis phc_compact : forall salt pw phc, hash_password salt pw = Some phc -> phc <> [] /\ trim phc = phc.

End Provision.

(** ** The modes of tracemux extcap *)
Module ExtcapMode.
Inductive Mode :=
| Interfaces
| Dlts (interface : list Z)
| ModeConfig (interface : list Z)
| Capture (interface fifo spec : list Z).
Record ExtcapArgs := mkArgs {
  x_interfaces : bool; x_dlts : bool; x_config : bool; x_capture : bool;
  x_interface : option (list Z); x_fifo : option (list Z); x_spec : option (list Z) }.
Inductive ExtcapError := NeedsInterface | NeedsFifo | NeedsSpec | NoMode | UnknownInterface.
Definition extcap_mode (a : ExtcapArgs) : res ExtcapError Mode :=
  if x_interfaces a then Ok Interfaces
  else if x_dlts a then let* i := ok_or (x_interface a) NeedsInterface in Ok (Dlts i)
  else if x_config a then let* i := ok_or (x_interface a) NeedsInterface in Ok (ModeConfig i)
  else if x_capture a then
    let* i := ok_or (x_interface a) NeedsInterface in
    let* f := ok_or (x_fifo a) NeedsFifo in
    let* s := ok_or (x_spec a) NeedsSpec in Ok (Capture i f s)
  else Err NoMode.
(** What a mode does: print lines, or capture from a specification into a FIFO. *)
Inductive Act := Printed (lines : list (list Z)) | Captures (fifo spec : list Z).
Definition extcap_run (m : Mode) : res ExtcapError Act :=
  let named i k : res ExtcapError Act := if str_eqb i (lit "tracemux") then Ok k else Err UnknownInterface in
  match m with
  | Interfaces => Ok (Printed [lit "extcap {version=0.1.0}{help=https://example.invalid/tracemux}";
                               lit "interface {value=tracemux}{display=tracemux universal logger}"])
  | Dlts i => named i (Printed [lit "dlt {number=" ++ show_nat Extcap.DLT_USER0 ++ lit "}{name=USER0}{display=tracemux raw}"])
  | ModeConfig i => named i (Printed [lit "arg {number=0}{call=--spec}{display=Channel spec}{type=string}{required=true}"])
  | Capture i f s => named i (Captures f s)
  end.
(** A capture starts exactly when it is the mode that was asked for, with
    everything it needs, on the one interface there is; and the interface that
    is announced is one the other modes accept. *)
Theorem capture_starts a f s :
  (let* m := extcap_mode a in extcap_run m) = Ok (Captures f s) <->
  x_interfaces a = false /\ x_dlts a = false /\ x_config a = false /\ x_capture a = true /\
  x_interface a = Some (lit "tracemux") /\ x_fifo a = Some f /\ x_spec a = Some s.
Proof.
  destruct a as [b1 b2 b3 b4 i fi sp]. unfold extcap_mode. cbn [x_interfaces x_dlts x_config x_capture x_interface x_fifo x_spec].
  destruct b1; [naive_solver|]. destruct b2; [destruct i as [i|]; cbn; [destruct (str_eqb i _)|]; naive_solver|].
  destruct b3; [destruct i as [i|]; cbn; [destruct (str_eqb i _)|]; naive_solver|]. destruct b4; [|naive_solver].
  destruct i as [i|], fi as [fi|], sp as [sp|]; cbn; try naive_solver.
  unfold str_eqb. case_bool_decide; naive_solver.
Qed.
End ExtcapMode.

(** ** tracemux detect and GET /api/detect *)
Module DetectReport.
Definition cli_kinds : list (list Z) := map lit ["file"; "tcp"; "udp"; "serial"; "process"; "pipe"; "mock"]%string.
Definition DETECT_KINDS : list (list Z) := map lit ["file"; "tcp"; "udp"; "serial"; "pcap"; "process"; "pipe"; "mock"]%string.
(** [scan_serial_candidates]: what the backend lists, then the entries of [/dev]. *)
Definition scan_serial_candidates (unix : bool) (ports dev : option (list (list Z))) : list (list Z) :=
  let out := default [] ports in
  SerialDetect.sorted_unique (out ++ if unix then omap SerialDetect.dev_candidate (default [] dev) else []).
Record Report := mkReport { kinds : list (list Z); serial_candidates : list (list Z); pcap_interfaces : list PcapDetect.PcapInterfaceInfo }.
Definition detect_report (unix pcap_capture : bool) (ports dev : option (list (list Z))) (devices : option (list PcapDetect.Device)) : Report :=
  mkReport DETECT_KINDS (SerialDetect.serial_list unix ports dev) (PcapDetect.list_interfaces pcap_capture devices).
(** The command and the route name the same ports; only the route knows packet
    capture (Finding). *)
Theorem detect_same_ports unix pcap ports dev devices :
  scan_serial_candidates unix ports dev = serial_candidates (detect_report unix pcap ports dev devices) /\
  (forall k, k ∈ cli_kinds <-> k ∈ kinds (detect_report unix pcap ports dev devices) /\ k <> lit "pcap").
Proof.
  split; [done|]. intros k. cbn [kinds detect_report]. split.
  - intros H. split; [|by intros ->; vm_compute in H; repeat (apply elem_of_cons in H as [H|H]; [discriminate H|]); apply elem_of_nil in H].
    revert k H. apply (proj1 (Forall_forall (fun k => k ∈ DETECT_KINDS) cli_kinds)). apply (bool_decide_unpack _). vm_compute. reflexivity.
  - intros [H Hn]. revert k H Hn.
    assert (HF : Forall (fun k => k <> lit "pcap" -> k ∈ cli_kinds) DETECT_KINDS) by (apply (bool_decide_unpack _); vm_compute; reflexivity).
    exact (proj1 (Forall_forall _ _) HF).
Qed.
End DetectReport.

(** ** tracemux ai-verify and GET /api/ai/verify *)
Module AiVerify.
Record Step := mkStep { st_name : list Z; st_status : list Z; st_duration_ms : option Z; st_detail : option (list Z) }.
Record Report := mkReport { r_schema : list Z; r_summary : list Z; r_steps : list Step }.
Definition EXPECTED_SCHEMA : list Z := lit "tracemux/ai-verify/v1".
Definition REQUIRED_STEPS : list (list Z) := map lit ["encoding-check"; "fmt-check"; "clippy"; "test"; "rtm"]%string.
Inductive VerifyError :=
| ReadReport
| ParseReport
| BadSchema
| NoSteps
| NotGreen
| RequiredFailed (name : list Z)
| RequiredMissing (name : list Z)
| StepsFailed (failed total : nat).

Definition one_of (s : list Z) (names : list string) : bool := existsb (fun n => str_eqb s (lit n)) names.
Definition is_pass (status : list Z) : bool :=
  one_of (to_ascii_lowercase status) ["pass"; "passed"; "ok"; "success"; "skip"; "skipped"]%string.
Definition is_required_pass (status : list Z) : bool :=
  one_of (to_ascii_lowercase status) ["pass"; "passed"; "ok"; "success"]%string.
Definition find_step (name : list Z) (steps : list Step) : option Step := List.find (fun s => str_eqb (st_name s) name) steps.
Fixpoint check_required (names : list (list Z)) (steps : list Step) : res VerifyError unit :=
  match names with
  | [] => Ok tt
  | n :: names' =>
      match find_step n steps with
      | Some s => if is_required_pass (st_status s) then check_required names' steps else Err (RequiredFailed n)
      | None => Err (RequiredMissing n)
      end
  end.
Definition validate_report (r : Report) : res VerifyError unit :=
  if negb (str_eqb (r_schema r) EXPECTED_SCHEMA) then Err BadSchema
  else match r_steps r with
       | [] => Err NoSteps
       | _ => if negb (str_eqb (r_summary r) (lit "green")) then Err NotGreen else check_required REQUIRED_STEPS (r_steps r)
       end.
Section Run.
  (** serde_json. *)
  Context (parse_report : list Z -> option Report).
Definition run_at (file : option (list Z)) : res VerifyError unit :=
  let* bytes := ok_or file ReadReport in
  let* report := ok_or (parse_report bytes) ParseReport in
  do* validate_report report in
  match List.filter (fun s => negb (is_pass (st_status s))) (r_steps report) with
  | [] => Ok tt
  | failed => Err (StepsFailed (length failed) (length (r_steps report)))
  end.
Lemma check_required_ok names steps : check_required names steps = Ok tt <->
  Forall (fun n => exists s, find_step n steps = Some s /\ is_required_pass (st_status s) = true) names.
Proof using Type.
  induction names as [|n names IH]; cbn [check_required]; [split; [constructor|done]|]. rewrite Forall_cons, <- IH.
  destruct (find_step n steps) as [s|]; [destruct (is_required_pass (st_status s)) eqn:E|].
  - split; [intros H; split; [by exists s|done]|by intros [_ H]].
  - split; [done|]. intros [(s' & Hs & Hp) _]. congruence.
  - split; [done|]. by intros [(s' & Hs & _) _].
Qed.
(** The gate is shut by default: it opens exactly for a readable report of the
    expected schema, marked green, in which every required step is there and has
    passed — a skipped one has not — and no other step has failed. *)
Theorem verify_gate file : run_at file = Ok tt <->
  exists bytes r, file = Some bytes /\ parse_report bytes = Some r /\ r_schema r = EXPECTED_SCHEMA /\ r_summary r = lit "green" /\
    Forall (fun n => exists s, find_step n (r_steps r) = Some s /\ is_required_pass (st_status s) = true) REQUIRED_STEPS /\
    Forall (fun s => is_pass (st_status s) = true) (r_steps r).
Proof using Type.
  unfold run_at. destruct file as [bytes|]; cbn [ok_or mbind res_bind]; [|naive_solver].
  destruct (parse_report bytes) as [r|] eqn:Ep; cbn [ok_or mbind res_bind]; [|naive_solver].
  assert (Hf : List.filter (fun s => negb (is_pass (st_status s))) (r_steps r) = [] <-> Forall (fun s => is_pass (st_status s) = true) (r_steps r)).
  { induction (r_steps r) as [|s l IH]; cbn [List.filter]; [split; [constructor|done]|]. rewrite Forall_cons, <- IH.
    destruct (is_pass (st_status s)); cbn [negb]; naive_solver. }
  assert (Hv : validate_report r = Ok tt <-> r_schema r = EXPECTED_SCHEMA /\ r_summary r = lit "green" /\
    Forall (fun n => exists s, find_step n (r_steps r) = Some s /\ is_required_pass (st_status s) = true) REQUIRED_STEPS).
  { rewrite <- check_required_ok. unfold validate_report, str_eqb. destruct (bool_decide_reflect (r_schema r = EXPECTED_SCHEMA)); cbn [negb]; [|naive_solver].
    destruct (r_steps r) as [|s l] eqn:Es; [split; [done|intros (_ & _ & H); discriminate H]|].
    case_bool_decide; cbn [negb]; naive_solver. }
  destruct (validate_report r) as [[]|e|] eqn:Ev; cbn [mbind res_bind].
  - destruct (List.filter _ _) eqn:E; [|split; [done|]]; [split; [|done]; intros _; exists bytes, r; naive_solver|].
    intros (b & r' & Hb & Hr & _ & _ & _ & H). simplify_eq. apply Hf in H. congruence.
  - split; [done|]. intros (b & r' & Hb & Hr & H1 & H2 & H3 & _). simplify_eq. destruct Hv as [_ Hv]. specialize (Hv (conj H1 (conj H2 H3))). discriminate Hv.
  - split; [done|]. intros (b & r' & Hb & Hr & H1 & H2 & H3 & _). simplify_eq. destruct Hv as [_ Hv]. specialize (Hv (conj H1 (conj H2 H3))). discriminate Hv.
Qed.
End Run.
(** The route: the status and the body of the answer. *)
Inductive ReadAnswer := FileBytes (b : list Z) | NotFound | ReadError.
Definition verify (parse_value : list Z -> option Value) (file : ReadAnswer) : Z + Value :=
  match file with
  | FileBytes b => match parse_value b with Some v => inr v | None => inl 500 end
  | NotFound => inl 404
  | ReadError => inl 500
  end.
End AiVerify.

(** ** The desktop shell: app-tauri/src-tauri/src/lib.rs *)
Module Shell.
Definition sidecar_enabled (var : option (list Z)) : bool :=
  match var with Some v => negb (existsb (str_eqb v) [lit "0"; lit "false"; lit "False"]) | None => true end.
Definition sidecar_bind (var : option (list Z)) : list Z := default (lit "127.0.0.1:9000") var.
(** [serve --bind BIND --no-auth]. *)
Definition sidecar_args (bind : list Z) : ServeArgs :=
  mkServeArgs None (Some bind) None None true false [] [] false None None None [] [] false [] None None None None None.
(** The managed state: none before the server was spawned, the child until it is taken. *)
Record SidecarState := mkSidecar { sc_managed : bool; sc_child : option Z; sc_poisoned : bool }.
Definition no_sidecar : SidecarState := mkSidecar false None false.
(** [setup]; [spawn] is the child, if it can be spawned. *)
Definition setup (enabled : bool) (spawn : option Z) (s : SidecarState) : SidecarState * bool :=
  if enabled then match spawn with Some pid => (mkSidecar true (Some pid) false, true) | None => (s, false) end else (s, true).
(** The child that is told to stop, if any. *)
Definition stop_sidecar (s : SidecarState) : SidecarState * option Z :=
  if negb (sc_managed s) then (s, None)
  else if sc_poisoned s then (s, None)
  else (mkSidecar true None false, sc_child s).
Fixpoint closes (n : nat) (s : SidecarState) : SidecarState * list Z :=
  match n with
  | O => (s, [])
  | S n' => let '(s1, k) := stop_sidecar s in let '(s2, ks) := closes n' s1 in (s2, option_list k ++ ks)
  end.
(** The server the shell spawned is stopped once, by the first window that closes. *)
Lemma stopped_once pid n : snd (closes (S n) (fst (setup true (Some pid) no_sidecar))) = [pid].
Proof.
  cbn. assert (H : forall m, closes m (mkSidecar true None false) = (mkSidecar true None false, [])) by (induction m as [|m IH]; cbn; [done|by rewrite IH]).
  by rewrite H.
Qed.
End Shell.
Section ShellServer.
  Context {M : Type} `{HA : !SourceApi M} (new_manager : Manager.Settings -> M) (settings_of : M -> Manager.Settings).
  Context (phc_ok : list Z -> bool) (verify_password : list Z -> list Z -> bool)
    (read_to_string : list Z -> option (list Z)) (parse_note : list Z -> option Annotations.Annotation)
    (generate : list (list Z) -> list Z + Host.Tls.CertBundle) (readable : list Z -> bool)
    (certs_of : list Z -> list Z + list (list Z)) (key_of : list Z -> list Z + list Z) (install : list (list Z) -> list Z -> option (list Z))
    (build_regex : list Z -> bool -> option (list Z -> Z)) (toml_value : list Z -> option Toml).
(** The server of the desktop shell is for this machine only, whatever address
    it was told to bind: it upgrades exactly the connections from a loopback
    address that present no token. *)
Theorem shell_serves_loopback bind os d d' m l header peer :
  run_serve new_manager settings_of phc_ok read_to_string parse_note generate readable certs_of key_of install build_regex toml_value
    (Shell.sidecar_args bind) os d = (d', m, Ok l) ->
  ws_handler phc_ok verify_password l header peer true = Upgraded <-> header ≫= extract_bearer = None /\ is_loopback_allowed peer = true.
Proof using Type.
  intros Hr. destruct (run_serve_auth _ _ _ _ _ _ _ _ _ _ _ _ _ _ _ _ _ _ Hr) as (config & Hc & Hv & Hn).
  cbn in Hc. injection Hc as <-. cbn in Hn, Hv. injection Hv as Hv. unfold ws_handler, check_auth. rewrite <- Hv, Hn.
  destruct (header ≫= extract_bearer) as [tok|]; cbn; [naive_solver|]. destruct (is_loopback_allowed peer); naive_solver.
Qed.
End ShellServer.

(** ** Concrete runs *)
Module CliDemo.
Definition import := import_cmd (fun _ => 0) 7 (fun _ => None) (fun _ => None).
Definition export := export_cmd (W := BlockList) (fun b _ => from_utf8_lossy b) (fun _ => None) unit unit (fun _ _ => Some tt) (fun _ => Some tt) (fun _ _ => tt)
  (fun _ => Some []) (fun _ => VNull) (fun _ => []) (fun _ => []) (fun _ => None).
Definition text : list Z := lit "alpha" ++ [13; 10] ++ lit "b" ++ [9] ++ lit "c".
Definition imported : Dst := fst (import (lit "text") (Some (Some text)) DstAbsent).
Definition exported : list Z := default [] (fst (export (lit "text") (imported_node imported) true None None)).
(** The last column of a row. *)
Definition last_column (row : list Z) : option (list Z) := last (split_on 9 row).
End CliDemo.
(** Finding: a line that holds a tab is written whole, and its last column is not
    the line. *)
Example tab_splits_column :
  map CliDemo.last_column (buf_lines CliDemo.exported) = [Some (lit "alpha"); Some (lit "c")] /\
  buf_lines CliDemo.text = [lit "alpha"; lit "b" ++ [9] ++ lit "c"].
Proof. vm_compute. done. Qed.




Module ShellDemo.
Definition result := @run_serve _ WsManager.Demo.api ServeDemo.new_manager ServeDemo.settings_of toy_ok ServeDemo.files (fun _ => None)
  (fun _ => inr (Host.Tls.mkBundle [1] [2])) (fun _ => true) (fun c => inr [c]) (fun k => inr k) (fun _ _ => None) (fun _ _ => None) ServeDemo.toml
  (Shell.sidecar_args (lit "0.0.0.0:9000")) ServeDemo.os ServeDemo.disk0.
Definition up : bool := match result with (_, _, Ok _) => true | _ => false end.
End ShellDemo.
Lemma shell_serves_loopback_witness : exists d' m l, ShellDemo.result = (d', m, Ok l) /\
  ws_handler toy_ok toy_verify l None (V4 127 0 0 1) true = Upgraded.
Proof.
  assert (Hu : ShellDemo.up = true) by (vm_compute; reflexivity). unfold ShellDemo.up in Hu.
  destruct ShellDemo.result as [[d' m] [l|e|]] eqn:E; [|discriminate..]. exists d', m, l. split; [reflexivity|].
  apply (shell_serves_loopback (HA := WsManager.Demo.api) ServeDemo.new_manager ServeDemo.settings_of toy_ok toy_verify ServeDemo.files (fun _ => None)
    (fun _ => inr (Host.Tls.mkBundle [1] [2])) (fun _ => true) (fun c => inr [c]) (fun k => inr k) (fun _ _ => None) (fun _ _ => None) ServeDemo.toml
    (lit "0.0.0.0:9000") ServeDemo.os ServeDemo.disk0 d' m l None (V4 127 0 0 1) E). split; reflexivity.
Defined.
