(* ===== verification/ClockLog.v ===== *)
(** * clock-table.jsonl as it is written and read

    crates/core/src/log/clock_table.rs: the buffered writer of the clock rows and
    its strict reader, beside the lenient one of crates/core/src/time/
    node_clock_table.rs ([Clock.ClockTable]).  The file is bytes: a buffered
    writer lets any of them reach the disk early, a flush may fail part way, and
    a crash leaves what reached the disk. *)
From stdpp Require Import base numbers strings gmap list.
From S2P Require Import Prelude Text Clock SessionDir.

Local Open Scope Z_scope.
Local Open Scope tm_scope.

(** Lines, and a last one without its line end. *)
Lemma buf_lines_torn ls p : Forall (Forall (fun c => c <> 10 /\ c <> 13)) ls -> Forall (fun c => c <> 10) p -> p <> [] ->
  buf_lines (concat (map (fun l => l ++ [10]) ls) ++ p) = ls ++ [p].
Proof.
  intros HF Hp Hne.
  assert (Hs : split_on 10 (concat (map (fun l => l ++ [10]) ls) ++ p) = ls ++ [p]).
  { clear Hne. induction HF as [|l ls Hl _ IH]; [cbn; by rewrite split_on_none|]. cbn [map concat]. rewrite <- !(assoc_L (++)). cbn [app].
    rewrite split_on_app, IH, split_on_none; [done|]. eapply Forall_impl; [exact Hl|]. naive_solver. }
  unfold buf_lines. rewrite Hs, length_app, last_snoc. cbn [length]. replace (length ls + 1 - 1)%nat with (length ls) by lia.
  rewrite take_app_length. destruct p as [|c p]; [done|]. f_equal. clear Hs. induction HF as [|l ls Hl _ IH]; [done|]. simpl.
  rewrite strip_cr_id, IH; [done|]. eapply Forall_impl; [exact Hl|]. naive_solver.
Qed.

Section ClockLog.
  (** serde_json on one row. *)
  Context (to_string : ClockTable.ClockTableEntry -> list Z) (from_str : list Z -> option ClockTable.ClockTableEntry).

Inductive ReadError := NoFile | BadRow.
Definition ct_create (existing : list Z) : Writer Z := mkWriter existing [].
(** The row, then its line end; [short] is a write error after that many bytes. *)
Definition ct_append (spill : nat) (short : option nat) (w : Writer Z) (e : ClockTable.ClockTableEntry) : Writer Z * bool :=
  let row := to_string e ++ [10] in
  match short with
  | Some k => (w_append spill w (take k row), false)
  | None => (w_append spill w row, true)
  end.
Definition ct_flush (fail : option nat) (w : Writer Z) : Writer Z * bool := w_flush fail w.
Fixpoint read_lines (ls : list (list Z)) : res ReadError (list ClockTable.ClockTableEntry) :=
  match ls with
  | [] => Ok []
  | line :: ls' =>
      match trim line with
      | [] => read_lines ls'
      | _ =>
          let* e := ok_or (from_str line) BadRow in
          let* es := read_lines ls' in Ok (e :: es)
      end
  end.
Definition read_all (file : option (list Z)) : res ReadError (list ClockTable.ClockTableEntry) :=
  let* f := ok_or file NoFile in read_lines (buf_lines f).

(** Rows and flushes, in any order; flushes may fail. *)
Inductive Op := Append (spill : nat) (e : ClockTable.ClockTableEntry) | Flush (fail : option nat).
Definition apply_op (w : Writer Z) (o : Op) : Writer Z :=
  match o with Append n e => fst (ct_append n None w e) | Flush f => fst (ct_flush f w) end.
Definition run (os : list Op) : Writer Z := foldl apply_op (ct_create []) os.
Definition rows_of (os : list Op) : list ClockTable.ClockTableEntry := omap (fun o => match o with Append _ e => Some e | Flush _ => None end) os.
Definition text_of (es : list ClockTable.ClockTableEntry) : list Z := concat (map (fun l => l ++ [10]) (map to_string es)).

(** Documented behaviour of serde_json: an object is one line that begins with a
    brace, reads back, and is not an object when cut short. *)
  Hypothesis serde_round_trip : forall e, from_str (to_string e) = Some e.
  Hypothesis serde_one_line : forall e, Forall (fun c => c <> 10 /\ c <> 13) (to_string e) /\ exists r, to_string e = 123 :: r.
  Hypothesis serde_no_prefix : forall e p q, to_string e = p ++ q -> q <> [] -> from_str p = None.

Lemma run_stream os : stream (run os) = text_of (rows_of os).
Proof using Type.
  unfold run. induction os as [|o os IH] using rev_ind; [done|]. rewrite foldl_app. cbn [foldl]. unfold rows_of, text_of in *. rewrite omap_app.
  destruct o as [n e|f]; cbn [apply_op ct_append fst omap list_omap].
  - rewrite stream_append, IH. rewrite !map_app, concat_app. cbn. by rewrite ?app_nil_r.
  - unfold ct_flush. by rewrite stream_flush, IH, app_nil_r.
Qed.
Lemma trim_brace r : trim (123 :: r) <> [].
Proof using Type.
  unfold trim, trim_matches. rewrite (trim_start_id is_whitespace (123 :: r)) by (by intros c k [= <- _]).
  destruct (trim_end_prefix is_whitespace (123 :: r)) as (k & E & Hk). intros H. rewrite H in E. cbn in E. subst k. by inversion Hk.
Qed.
Lemma torn_head e p q : to_string e = p ++ q -> p <> [] -> trim p <> [] /\ Forall (fun c => c <> 10 /\ c <> 13) p.
Proof using serde_one_line.
  intros E Hp. destruct (serde_one_line e) as [Hl [r Hr]]. destruct p as [|c p]; [done|]. rewrite Hr in E. injection E as <- ->. split; [apply trim_brace|].
  rewrite Hr in Hl. by apply (Forall_app _ (123 :: p) q) in Hl as [Hl _].
Qed.

(** What is left of the rows after a crash: the complete ones, and the beginning
    of the next one. *)
Lemma prefix_rows es : forall d, d `prefix_of` text_of es ->
  exists whole rest p, es = whole ++ rest /\ d = text_of whole ++ p /\ (p = [] \/ exists e r q, rest = e :: r /\ to_string e = p ++ q /\ p <> []).
Proof using Type.
  induction es as [|e es IH]; intros d [k Hd].
  - symmetry in Hd. apply app_nil in Hd as [-> ->]. exists [], [], []. by split_and!; [..|left].
  - change (text_of (e :: es)) with ((to_string e ++ [10]) ++ text_of es) in Hd. symmetry in Hd. apply app_eq_inv in Hd as [(k' & -> & Hk)|(k' & Hk & _)].
    + destruct (IH k') as (whole & rest & p & -> & -> & Hp); [by exists k|]. exists (e :: whole), rest, p. split_and!; [done| |done].
      change (text_of (e :: whole)) with ((to_string e ++ [10]) ++ text_of whole). by rewrite app_assoc.
    + destruct k' as [|c k' _] using rev_ind.
      { rewrite app_nil_r in Hk. exists [e], es, []. split_and!; [done| |by left]. cbn. by rewrite !app_nil_r. }
      rewrite app_assoc in Hk. apply app_inj_tail in Hk as [Hk _]. destruct (decide (d = [])) as [->|Hne].
      { exists [], (e :: es), []. by split_and!; [..|left]. }
      exists [], (e :: es), d. split_and!; [done..|]. right. by exists e, es, k'.
Qed.
Lemma read_lines_rows es : forall tail, read_lines (map to_string es ++ tail) = (let* r := read_lines tail in Ok (es ++ r)).
Proof using serde_round_trip serde_one_line.
  induction es as [|e es IH]; intros tail; cbn [map app read_lines]; [by destruct (read_lines tail)|].
  destruct (serde_one_line e) as [_ [r Hr]]. pose proof (trim_brace r) as Ht. rewrite <- Hr in Ht. destruct (trim (to_string e)) eqn:E; [done|].
  rewrite serde_round_trip. cbn [ok_or mbind res_bind]. rewrite IH. by destruct (read_lines tail).
Qed.
Lemma load_rows es : forall tail t n, ClockTable.load_lines from_str (map to_string es ++ tail) t n =
  ClockTable.load_lines from_str tail (ClockTable.upsert_all es t) n.
Proof using serde_round_trip serde_one_line.
  induction es as [|e es IH]; intros tail t n; [done|]. cbn [map app ClockTable.load_lines].
  destruct (serde_one_line e) as [_ [r Hr]]. pose proof (trim_brace r) as Ht. rewrite <- Hr in Ht. destruct (trim (to_string e)) eqn:E; [done|].
  rewrite serde_round_trip. apply IH.
Qed.
Lemma rows_lines es : Forall (Forall (fun c => c <> 10 /\ c <> 13)) (map to_string es).
Proof using serde_one_line. apply Forall_map, Forall_true. intros e. apply serde_one_line. Qed.

(** The clock table survives a crash.  Whatever bytes of the written rows have
    reached the disk, the lenient reader rebuilds the table of a beginning of
    them — all rows but possibly some not yet flushed — and skips at most the row
    that was cut; the strict reader gives exactly those rows or, when a row was
    cut, an error; after a successful flush both give everything. *)
Theorem clock_log_crash os d : disk (run os) `prefix_of` d -> d `prefix_of` stream (run os) ->
  exists whole rest, rows_of os = whole ++ rest /\
    ((ClockTable.load_jsonl from_str d = (ClockTable.upsert_all whole ∅, 0) /\ read_all (Some d) = Ok whole) \/
     (ClockTable.load_jsonl from_str d = (ClockTable.upsert_all whole ∅, 1) /\ read_all (Some d) = Err BadRow /\ rest <> [])) /\
  (snd (ct_flush None (run os)) = true /\ read_all (Some (disk (fst (ct_flush None (run os))))) = Ok (rows_of os)).
Proof using serde_round_trip serde_one_line serde_no_prefix.
  intros _ Hd. rewrite run_stream in Hd. destruct (prefix_rows _ _ Hd) as (whole & rest & p & E & -> & Hp).
  assert (Hfl : read_all (Some (disk (fst (ct_flush None (run os))))) = Ok (rows_of os)).
  { unfold read_all, ct_flush. cbn [ok_or mbind res_bind w_flush fst disk]. change (disk (run os) ++ buffered (run os)) with (stream (run os)).
    rewrite run_stream. unfold text_of. rewrite buf_lines_concat by apply rows_lines. rewrite <- (app_nil_r (map to_string (rows_of os))), read_lines_rows.
    cbn. by rewrite app_nil_r. }
  assert (Hw : forall r, ClockTable.load_lines from_str (map to_string r) ∅ 0 = (ClockTable.upsert_all r ∅, 0) /\ read_lines (map to_string r) = Ok r).
  { intros r. rewrite <- (app_nil_r (map to_string r)), load_rows, read_lines_rows. cbn. by rewrite app_nil_r. }
  unfold ClockTable.load_jsonl, read_all. cbn [ok_or mbind res_bind].
  destruct Hp as [->|(e & r & q & -> & Hq & Hne)].
  - exists whole, rest. split; [done|]. split; [|done]. left. rewrite app_nil_r. unfold text_of. rewrite buf_lines_concat by apply rows_lines. apply Hw.
  - destruct (torn_head e p q Hq Hne) as [Ht Hl]. unfold text_of. rewrite buf_lines_torn; [|apply rows_lines|by eapply Forall_impl; [exact Hl|naive_solver]|done].
    destruct (decide (q = [])) as [->|Hqn].
    + rewrite app_nil_r in Hq. exists (whole ++ [e]), r. split; [by rewrite <- app_assoc|]. split; [|done]. left. subst p.
      replace (map to_string whole ++ [to_string e]) with (map to_string (whole ++ [e])) by (by rewrite map_app). apply Hw.
    + exists whole, (e :: r). split; [done|]. split; [|done]. right. rewrite load_rows, read_lines_rows. cbn. rewrite (serde_no_prefix e p q Hq Hqn).
      destruct (trim p); [done|]. done.
Qed.
End ClockLog.

(** A row codec with braces, for concrete runs. *)
Definition brace_text (e : ClockTable.ClockTableEntry) : list Z := 123 :: row_text e ++ [125].
Definition brace_parse (s : list Z) : option ClockTable.ClockTableEntry :=
  match last s with Some 125 => match s with 123 :: r => row_parse (take (length r - 1) r) | _ => None end | _ => None end.
Lemma row_text_digits e : Forall (fun c => is_digit c = true) (row_text e).
Proof. apply show_nat_digits. lia. Qed.
Lemma clock_log_crash_witness : exists d whole rest,
  let e := ClockTable.mkEntry [] 1 2 3 0 QSynced in
  let os := [Append 9 e; Append 3 e] in
  d = disk (run brace_text os) /\ rows_of os = whole ++ rest /\ rest <> [] /\
  ClockTable.load_jsonl brace_parse d = (ClockTable.upsert_all whole ∅, 1).
Proof.
  set (e := ClockTable.mkEntry [] 1 2 3 0 QSynced). set (os := [Append 9 e; Append 3 e]).
  destruct (clock_log_crash brace_text brace_parse) with (os := os) (d := disk (run brace_text os)) as (whole & rest & E & [H|(H & _ & Hr)] & _).
  - intros x. unfold brace_parse, brace_text. change (123 :: row_text x ++ [125]) with ((123 :: row_text x) ++ [125]). rewrite last_snoc. cbn [app].
    rewrite length_app. cbn [length]. replace (length (row_text x) + 1 - 1)%nat with (length (row_text x)) by lia. rewrite take_app_length. apply row_round_trip.
  - intros x. split; [|by eexists]. unfold brace_text. apply Forall_cons. split; [done|]. apply Forall_app. split; [apply row_one_line|by apply Forall_singleton].
  - intros x p q E Hq. unfold brace_text in E. destruct q as [|c q _] using rev_ind; [done|]. change (123 :: row_text x ++ [125]) with ((123 :: row_text x) ++ [125]) in E.
    rewrite app_assoc in E. apply app_inj_tail in E as [E _]. unfold brace_parse. destruct (last p) as [c'|] eqn:El; [|done].
    assert (c' <> 125). { apply last_Some_elem_of in El. intros ->. assert (H125 : 125 ∈ 123 :: row_text x) by (rewrite E; apply elem_of_app; by left).
      apply elem_of_cons in H125 as [?|H125]; [done|]. pose proof (row_text_digits x) as Hd. rewrite Forall_forall in Hd. by apply Hd in H125. }
    repeat case_match; done.
  - done.
  - unfold stream. by apply prefix_app_r.
  - exfalso. destruct H as [_ H]. vm_compute in H. discriminate H.
  - exists (disk (run brace_text os)), whole, rest. split_and!; done.
Defined.
