(* ===== verification/Meta.v ===== *)
(** * meta.toml, written by hand and by the TOML library

    [write_meta] and [toml_escape] of crates/server/src/pcap_runner.rs, which
    build the description of a capture's session directory as text, and
    [write_meta] of crates/core/src/logsink/file.rs, which serialises a struct.
    The text is read back with the grammar of TOML's basic strings. *)
From stdpp Require Import base numbers strings list.
From S2P Require Import Prelude Text Config PcapRunner.

Local Open Scope Z_scope.
Local Open Scope tm_scope.

(** ** pcap_runner.rs *)
Definition toml_escape (value : list Z) : list Z :=
  replace [9] [92; 116] (replace [13] [92; 114] (replace [10] [92; 110] (replace [34] [92; 34] (replace [92] [92; 92] value)))).
Definition toml_line (key : string) (value : list Z) : list Z := lit key ++ lit " = " ++ [34] ++ value ++ [34].
Definition pcap_meta_lines (sid created source : list Z) (host : option (list Z)) : list (list Z) :=
  [toml_line "log_format_version" (lit "1.0.0"); toml_line "sid" sid; toml_line "created" created; toml_line "source" (toml_escape source)]
  ++ match host with Some h => [toml_line "host" (toml_escape h)] | None => [] end
  ++ [toml_line "decoder" PCAP_DECODER_LABEL].
Definition pcap_meta (sid created source : list Z) (host : option (list Z)) : list Z :=
  concat (map (fun l => l ++ [10]) (pcap_meta_lines sid created source host)).

(** ** file.rs: the struct the TOML library is given *)
Definition sink_meta (sid created : list Z) (source host : option (list Z)) (decoder : list Z) : option Toml :=
  f_all [f_req (lit "log_format_version") c_str (lit "1.0.0"); f_req (lit "sid") c_str sid; f_req (lit "created") c_str created;
         f_opt (lit "source") c_str source; f_opt (lit "host") c_str host; f_req (lit "decoder") c_str decoder].

(** ** TOML's basic strings: short escapes, and no control character but the tab *)
Definition forbidden (c : Z) : bool := ((c <? 32) && negb (c =? 9)) || (c =? 127).
Definition short_escape (c : Z) : option Z :=
  if c =? 98 then Some 8 else if c =? 116 then Some 9 else if c =? 110 then Some 10 else if c =? 102 then Some 12
  else if c =? 114 then Some 13 else if c =? 34 then Some 34 else if c =? 92 then Some 92 else None.
(** The value up to the closing quote, and what follows it. *)
Fixpoint read_basic (s : list Z) : option (list Z * list Z) :=
  match s with
  | [] => None
  | c :: s' =>
      if c =? 34 then Some ([], s')
      else if c =? 92 then
        match s' with
        | [] => None
        | e :: s'' => x ← short_escape e; '(v, rest) ← read_basic s''; Some (x :: v, rest)
        end
      else if forbidden c then None
      else '(v, rest) ← read_basic s'; Some (c :: v, rest)
  end.
Definition read_pair (line : list Z) : option (list Z * list Z) :=
  i ← find_str (lit " = ") line;
  rest ← strip_prefix (lit " = " ++ [34]) (drop i line);
  match read_basic rest with Some (v, []) => Some (take i line, v) | _ => None end.
Definition read_meta (file : list Z) : option (list (list Z * list Z)) := mapM read_pair (buf_lines file).

(** What [toml_escape] makes of one character. *)
Definition escape_char (c : Z) : list Z :=
  if c =? 92 then [92; 92] else if c =? 34 then [92; 34] else if c =? 10 then [92; 110] else if c =? 13 then [92; 114]
  else if c =? 9 then [92; 116] else [c].
Lemma replace_char c to s : replace [c] to s = s ≫= (fun x => if x =? c then to else [x]).
Proof.
  unfold replace. induction s as [|x s IH]; [done|]. cbn [replace_go]. unfold starts_with. cbn [strip_prefix]. rewrite (Z.eqb_sym c x).
  destruct (x =? c) eqn:E; cbn; rewrite E; f_equal; exact IH.
Qed.
Lemma toml_escape_chars s : toml_escape s = s ≫= escape_char.
Proof.
  unfold toml_escape. rewrite !replace_char. induction s as [|c s IH]; [done|]. cbn [mbind list_bind] in *. rewrite !bind_app, IH. f_equal.
  unfold escape_char. destruct (c =? 92); [done|]. cbn. destruct (c =? 34); [done|]. cbn.
  destruct (c =? 10); [done|]. cbn. destruct (c =? 13); [done|]. cbn. by destruct (c =? 9).
Qed.

(** A value TOML can hold raw or behind the escapes that are made. *)
Definition writable (c : Z) : bool := negb (forbidden c) || (c =? 10) || (c =? 13).
Lemma read_escaped s rest : Forall (fun c => writable c = true) s -> read_basic (toml_escape s ++ 34 :: rest) = Some (s, rest).
Proof.
  rewrite toml_escape_chars. induction 1 as [|c s Hc _ IH]; [done|]. cbn [mbind list_bind] in *. rewrite <- app_assoc. unfold escape_char, writable in *.
  destruct (Z.eqb_spec c 92) as [->|E1]; [cbn; by rewrite IH|]. destruct (Z.eqb_spec c 34) as [->|E2]; [cbn; by rewrite IH|].
  destruct (Z.eqb_spec c 10) as [->|E3]; [cbn; by rewrite IH|]. destruct (Z.eqb_spec c 13) as [->|E4]; [cbn; by rewrite IH|].
  destruct (Z.eqb_spec c 9) as [->|E5]; [cbn; by rewrite IH|]. rewrite !orb_false_r in Hc. apply negb_true_iff in Hc. cbn [app read_basic].
  rewrite (proj2 (Z.eqb_neq c 34)), (proj2 (Z.eqb_neq c 92)), Hc, IH by done. done.
Qed.
Lemma escaped_one_line s : Forall (fun c => c <> 10 /\ c <> 13) (toml_escape s).
Proof.
  rewrite toml_escape_chars. induction s as [|c s IH]; [constructor|]. cbn [mbind list_bind] in *. apply Forall_app. split; [|exact IH].
  unfold escape_char. destruct (c =? 92); [by repeat constructor|]. destruct (c =? 34); [by repeat constructor|].
  destruct (Z.eqb_spec c 10); [by repeat constructor|]. destruct (Z.eqb_spec c 13); [by repeat constructor|]. destruct (c =? 9); by repeat constructor.
Qed.
(** Text that needs no escape. *)
Definition plain (s : list Z) : Prop := Forall (fun c => forbidden c = false /\ c <> 34 /\ c <> 92 /\ c <> 9) s.
Lemma plain_escape s : plain s -> toml_escape s = s /\ Forall (fun c => writable c = true) s.
Proof.
  rewrite toml_escape_chars. induction 1 as [|c s (Hf & H1 & H2 & H9) _ [E HF]]; [by split|]. cbn [mbind list_bind] in *. split.
  - rewrite E. unfold escape_char. rewrite (proj2 (Z.eqb_neq c 92)), (proj2 (Z.eqb_neq c 34)) by done.
    destruct (Z.eqb_spec c 10) as [->|]; [done|]. destruct (Z.eqb_spec c 13) as [->|]; [done|]. by rewrite (proj2 (Z.eqb_neq c 9)).
  - constructor; [|done]. unfold writable. by rewrite Hf.
Qed.
Lemma find_equals k rest : Forall (fun c => c <> 32) k -> find_str (lit " = ") (k ++ lit " = " ++ rest) = Some (length k).
Proof.
  induction 1 as [|c k Hc _ IH]; [done|]. cbn [app find_str]. unfold starts_with at 1. cbn [lit strip_prefix]. change (lit " = ") with [32; 61; 32] in *.
  cbn [strip_prefix]. rewrite (proj2 (Z.eqb_neq 32 c)) by done. by rewrite IH.
Qed.
Lemma read_pair_line key v : forallb (fun c => negb (c =? 32)) (lit key) = true -> Forall (fun c => writable c = true) v ->
  read_pair (toml_line key (toml_escape v)) = Some (lit key, v).
Proof.
  intros Hk Hv. unfold read_pair, toml_line. rewrite find_equals; [|apply Forall_forall; intros c Hc ->; rewrite forallb_forall in Hk; by specialize (Hk 32 (proj1 (list_elem_of_In _ _) Hc))].
  cbn [mbind option_bind]. rewrite drop_app_length, take_app_length, (assoc_L (++) (lit " = ")), strip_prefix_app_same. cbn [mbind option_bind].
  by rewrite read_escaped.
Qed.
Lemma line_one_line key v : forallb (fun c => negb ((c =? 10) || (c =? 13))) (lit key) = true ->
  Forall (fun c => c <> 10 /\ c <> 13) (toml_line key (toml_escape v)).
Proof.
  intros Hk. unfold toml_line. repeat (apply Forall_app; split); try apply escaped_one_line; try (apply (bool_decide_unpack _); vm_compute; reflexivity).
  apply Forall_forall. intros c Hc. rewrite forallb_forall in Hk. specialize (Hk c (proj1 (list_elem_of_In _ _) Hc)).
  apply negb_true_iff, orb_false_iff in Hk as [?%Z.eqb_neq ?%Z.eqb_neq]. done.
Qed.

(** The hand-written description of a capture is the TOML it means: whatever
    backslashes, quotes and line breaks the source label and the host hold, a
    reader finds exactly them, as long as they hold no other control character. *)
Theorem pcap_meta_reads_back sid created source host :
  plain sid -> plain created -> Forall (fun c => writable c = true) source -> Forall (fun c => writable c = true) (default [] host) ->
  read_meta (pcap_meta sid created source host) =
    Some ([(lit "log_format_version", lit "1.0.0"); (lit "sid", sid); (lit "created", created); (lit "source", source)]
          ++ match host with Some h => [(lit "host", h)] | None => [] end ++ [(lit "decoder", PCAP_DECODER_LABEL)]).
Proof.
  intros Hs Hc Hsrc Hh. destruct (plain_escape sid Hs) as [Es Ws]. destruct (plain_escape created Hc) as [Ec Wc].
  assert (E : pcap_meta_lines sid created source host =
    map (fun kv => toml_line (fst kv) (toml_escape (snd kv)))
      ([("log_format_version"%string, lit "1.0.0"); ("sid"%string, sid); ("created"%string, created); ("source"%string, source)]
       ++ match host with Some h => [("host"%string, h)] | None => [] end ++ [("decoder"%string, PCAP_DECODER_LABEL)])).
  { unfold pcap_meta_lines. destruct host; cbn [map app fst snd]; by rewrite Es, Ec. }
  unfold read_meta, pcap_meta. rewrite E. set (kvs := _ ++ _ ++ _).
  assert (HF : Forall (fun kv => forallb (fun c => negb ((c =? 10) || (c =? 13) || (c =? 32))) (lit (fst kv)) = true /\
    Forall (fun c => writable c = true) (snd kv)) kvs).
  { subst kvs. destruct host; cbn in Hh; repeat (apply Forall_cons_2 || apply Forall_nil_2); split; try reflexivity; cbn [snd]; try done;
      apply (bool_decide_unpack _); vm_compute; reflexivity. }
  rewrite buf_lines_concat.
  - transitivity (Some (map (fun kv => (lit (fst kv), snd kv)) kvs)); [|by subst kvs; destruct host].
    clear -HF. induction HF as [|kv kvs [H1 H2] _ IH]; [done|]. cbn [map mapM]. rewrite read_pair_line; [|..|done].
    + cbn [mbind option_bind]. by rewrite IH.
    + rewrite forallb_forall in *. intros c Hc. specialize (H1 c Hc). by apply negb_true_iff, orb_false_iff in H1 as [_ ->].
  - apply Forall_map. eapply Forall_impl; [exact HF|]. intros kv [H1 _]. apply line_one_line.
    rewrite forallb_forall in *. intros c Hin. specialize (H1 c Hin). by apply negb_true_iff, orb_false_iff in H1 as [-> _].
Qed.
(** Finding: any other control character makes the file unreadable as TOML. *)
Example control_breaks_meta : read_meta (pcap_meta (lit "1") (lit "2") (lit "pcap:" ++ [27]) None) = None.
Proof. vm_compute. reflexivity. Qed.
Lemma pcap_meta_reads_back_witness :
  read_meta (pcap_meta (lit "1") (lit "2") (lit "pcap:" ++ [92; 34; 10]) (Some (lit "h"))) =
    Some [(lit "log_format_version", lit "1.0.0"); (lit "sid", lit "1"); (lit "created", lit "2"); (lit "source", lit "pcap:" ++ [92; 34; 10]);
          (lit "host", lit "h"); (lit "decoder", PCAP_DECODER_LABEL)].
Proof. apply (pcap_meta_reads_back (lit "1") (lit "2") _ (Some (lit "h"))); apply (bool_decide_unpack _); vm_compute; reflexivity. Defined.
