(* ===== verification/Routes.v ===== *)
(** * The HTTP surface

    crates/server/src/routes.rs with the routers of export_api.rs,
    annotation_api.rs and ws.rs: the table of routes, the extraction of a
    request's parts, and the dispatch to the handlers of [Downloads],
    [Annotations], [Serve] and [Cli].  The routing of axum is its documented
    rule (a parameter stands for one segment that is not empty, a GET route
    also takes HEAD, 404 and 405 otherwise); decoding of paths, queries and
    bodies is given with the request.  OPTIONS requests are answered by the
    CORS layer and are left out.  The theorems say that the routes do not
    overlap, and what a stranger can get. *)
From stdpp Require Import base numbers strings gmap list.
From S2P Require Import Prelude Text WsManager Auth Annotations Export Downloads Host Startup Config Serve Cli.

Local Open Scope Z_scope.
Local Open Scope tm_scope.

(** ** Routes *)
Inductive Method := GET | HEAD | POST | PUT | DELETE | OtherMethod.
#[export] Instance Method_eq_dec : EqDecision Method.
Proof. solve_decision. Defined.
Inductive Handler :=
| Healthz | Readyz | GetVersion | GetDetect | AiVerifyGet | Range
| ExportGet | ExportTicket | BundleGet | BundleTicket
| NotesList | NoteUpsert | NoteDelete | WsGet.
#[export] Instance Handler_eq_dec : EqDecision Handler.
Proof. solve_decision. Defined.

Inductive Seg := Fixed (s : list Z) | Param.
#[export] Instance Seg_eq_dec : EqDecision Seg.
Proof. solve_decision. Defined.
Abbreviation Route := (list Seg * list (Method * Handler))%type.
Definition segment (s : list Z) : Seg := match s with 58 :: _ => Param | _ => Fixed s end.
Definition pattern (s : string) : list Seg := map segment (split_on 47 (drop 1 (lit s))).
Definition get (h : Handler) : list (Method * Handler) := [(GET, h); (HEAD, h)].
Definition post (h : Handler) : list (Method * Handler) := [(POST, h)].
Definition put (h : Handler) : list (Method * Handler) := [(PUT, h)].
Definition delete_ (h : Handler) : list (Method * Handler) := [(DELETE, h)].
Definition route (p : string) (ms : list (Method * Handler)) : Route := (pattern p, ms).

Definition base_routes : list Route :=
  [route "/healthz" (get Healthz); route "/readyz" (get Readyz); route "/api/version" (get GetVersion);
   route "/api/detect" (get GetDetect); route "/api/ai/verify" (get AiVerifyGet); route "/api/sessions/:sid/range" (get Range)].
Definition export_router : list Route :=
  [route "/api/sessions/:sid/export" (get ExportGet); route "/api/sessions/:sid/export-ticket" (post ExportTicket);
   route "/api/exports/bundle" (get BundleGet); route "/api/exports/bundle-ticket" (post BundleTicket)].
Definition annotation_router : list Route :=
  [route "/api/annotations" (get NotesList); route "/api/annotations/:id" (put NoteUpsert ++ delete_ NoteDelete)].
Definition build_with_exports_and_annotations : list Route := base_routes ++ export_router ++ annotation_router.
Definition ws_router : list Route := [route "/ws" (get WsGet)].
Definition app_routes : list Route := build_with_exports_and_annotations ++ ws_router.

(** The segments a path gives to the parameters of a pattern. *)
Fixpoint path_match (p : list Seg) (path : list (list Z)) : option (list (list Z)) :=
  match p, path with
  | [], [] => Some []
  | Fixed s :: p', x :: path' => if str_eqb s x then path_match p' path' else None
  | Param :: p', x :: path' => if bool_decide (x = []) then None else cons x <$> path_match p' path'
  | _, _ => None
  end.
Inductive Routed := ToHandler (h : Handler) (params : list (list Z)) | MethodNotAllowed | NoRoute.
Definition find_route (rs : list Route) (m : Method) (path : list (list Z)) : Routed :=
  match find_map (fun r => (fun ps => (ps, snd r)) <$> path_match (fst r) path) rs with
  | None => NoRoute
  | Some (ps, ms) =>
      match find_map (fun mh => if bool_decide (fst mh = m) then Some (snd mh) else None) ms with
      | Some h => ToHandler h ps
      | None => MethodNotAllowed
      end
  end.
Definition routed (m : Method) (path : list Z) : Routed :=
  match path with 47 :: rest => find_route app_routes m (split_on 47 rest) | _ => NoRoute end.

(** Two patterns that some path may match. *)
Fixpoint overlap (p q : list Seg) : bool :=
  match p, q with
  | [], [] => true
  | Fixed s :: p', Fixed t :: q' => str_eqb s t && overlap p' q'
  | _ :: p', _ :: q' => overlap p' q'
  | _, _ => false
  end.
Lemma match_fixed s p x path ps : path_match (Fixed s :: p) (x :: path) = Some ps -> s = x /\ path_match p path = Some ps.
Proof. cbn. unfold str_eqb. by case_bool_decide. Qed.
Lemma match_param p x path ps : path_match (Param :: p) (x :: path) = Some ps ->
  x <> [] /\ exists ps', path_match p path = Some ps' /\ ps = x :: ps'.
Proof. cbn. case_bool_decide; [done|]. destruct (path_match p path) as [l|]; [|done]. intros [= <-]. eauto. Qed.
Lemma overlap_sound p : forall q path ps qs, path_match p path = Some ps -> path_match q path = Some qs -> overlap p q = true.
Proof.
  induction p as [|a p IH]; intros [|b q] [|x path] ps qs Hp Hq; cbn [overlap]; try done; try (by destruct a); try (by destruct b).
  assert (H : exists ps' qs', path_match p path = Some ps' /\ path_match q path = Some qs').
  { destruct a, b;
      repeat match goal with
      | H : path_match (Fixed _ :: _) _ = _ |- _ => apply match_fixed in H as [_ H]
      | H : path_match (Param :: _) _ = _ |- _ => apply match_param in H as (_ & ? & H & _)
      end; eauto. }
  destruct H as (ps' & qs' & H1 & H2). pose proof (IH _ _ _ _ H1 H2) as Ho. destruct a as [s|], b as [t|]; try exact Ho.
  apply match_fixed in Hp as [-> _], Hq as [-> _]. rewrite Ho. by rewrite (bool_decide_true _ eq_refl : str_eqb x x = true).
Qed.
(** Merging the routers is not ambiguous: no path belongs to two routes, so the
    order of the routers does not matter (axum refuses to merge otherwise). *)
Theorem routes_unambiguous r1 r2 path ps qs : r1 ∈ app_routes -> r2 ∈ app_routes ->
  path_match (fst r1) path = Some ps -> path_match (fst r2) path = Some qs -> r1 = r2.
Proof.
  intros H1 H2 Hp Hq. pose proof (overlap_sound _ _ _ _ _ Hp Hq) as Ho.
  assert (HF : Forall (fun r => Forall (fun r' => overlap (fst r) (fst r') = true -> r = r') app_routes) app_routes)
    by (apply (bool_decide_unpack _); vm_compute; reflexivity).
  exact (proj1 (Forall_forall _ _) (proj1 (Forall_forall _ _) HF r1 H1) r2 H2 Ho).
Qed.

(** ** Requests and answers *)
(** What axum's extractors answer instead of calling a handler. *)
Inductive Rejection := BadRequest | NotAMethod | PayloadTooLarge | UnsupportedMediaType | Unprocessable | UpgradeRequired.
Definition rejection_status (r : Rejection) : Z :=
  match r with
  | BadRequest => 400 | NotAMethod => 405 | PayloadTooLarge => 413 | UnsupportedMediaType => 415 | Unprocessable => 422
  | UpgradeRequired => 426
  end.
(** The parts of a request, each as its extractor reads it; a header that is
    not text counts as absent. *)
Record Request := mkRequest {
  rq_method : Method; rq_path : list Z; rq_authorization : option (list Z); rq_protocols : option (list Z); rq_peer : IpAddr;
  rq_export : Rejection + ExportQuery; rq_bundle : Rejection + list Z; rq_notes : Rejection + option (list Z);
  rq_bundle_body : Rejection + BundleRequest;
  rq_note_body : Rejection + (AnnotationTarget * list Z * option (list Z));
  rq_upgrade : Rejection + unit }.
(** What the outside answers while it is served: clocks, fresh names, the
    manager's directories, the files and the exporters. *)
Record Env := mkEnv {
  e_now1 : Z; e_now2 : Z; e_now_ms : Z; e_utc : Z; e_name : list Z; e_fresh : Z; e_freshs : nat -> Z; e_fails : step -> bool;
  e_dir : Z -> option (list Z); e_root : option (list Z); e_exists : list Z -> bool; e_canonicalize : list Z -> option (list (list Z));
  e_index : list Z -> bool;
  e_export : ExportFormat -> list Z -> option (list Z) -> option (list Z) -> option (list Z) * result unit;
  e_io : persist_io; e_report : DetectReport.Report; e_verify : AiVerify.ReadAnswer; e_slot : bool }.

Record VersionInfo := mkVersion { v_version : list Z; v_subprotocol : list Z; v_log_format : list Z }.
Definition SUBPROTOCOL : list Z := lit "tracemux.v1".
Definition version_current (pkg_version : list Z) : VersionInfo := mkVersion pkg_version (lit "tracemux.v1") (lit "1.0.0").

Inductive Answer :=
| AText (s : list Z) | AVersion (v : VersionInfo) | ADetect (r : DetectReport.Report) | AVerify (r : Z + Decoder.Value)
| ARange (error_id : list Z) | AExport (r : Downloads.Response) | ANotes (r : Annotations.Response) | AUpgrade (u : Upgrade)
| ARejected (status : Z).
Definition notes_status (r : Annotations.Response) : Z :=
  match r with RList _ | RAnnotation _ => 200 | RNoContent => 204 | RError e _ => Annotations.status e end.
Definition answer_status (a : Answer) : Z :=
  match a with
  | AText _ | AVersion _ | ADetect _ => 200
  | AVerify (inl s) => s
  | AVerify (inr _) => 200
  | ARange _ => 501
  | AExport r => r_status r
  | ANotes r => notes_status r
  | AUpgrade Unauthorized => 401
  | AUpgrade CapReached => 503
  | AUpgrade Upgraded => 101
  | ARejected s => s
  end.

(** The route is reserved: it answers 501 whatever session is named. *)
Definition range_handler (sid : list Z) : Answer := ARange (lit "E-3201").

(** The state the handlers share. *)
Record App := mkApp { ap_notes : AnnotationStore; ap_down : Server }.

Section Routes.
  Context {M : Type} (phc_ok : list Z -> bool) (verify_password : list Z -> list Z -> bool).
  (** UUIDs, dates, header values, percent-encoded path segments, JSON. *)
  Context (parse_uuid : list Z -> option Z) (uuid_str : Z -> list Z) (rfc3339_secs : Z -> option (list Z)) (header_ok : list Z -> bool)
    (percent_decode : list Z -> option (list Z)) (to_string : Annotation -> option (list Z)) (parse_value : list Z -> option Decoder.Value).
  Context (temp_dir pkg_version : list Z).
  Variable l : Listening (M := M).

(** [authorize_export] and [authorize_annotations]. *)
Definition authorized (r : Request) : bool :=
  match authorize_http phc_ok verify_password (rq_authorization r) (rq_peer r) (l_auth l) (l_no_auth l) with Ok _ => true | _ => false end.
Definition notes_request (r : Request) : Annotations.Request :=
  Annotations.mkRequest (rq_authorization r) (rq_peer r) (l_auth l) (l_no_auth l).

(** An extractor that refuses answers for the handler. *)
Definition extract {A} (x : Rejection + A) (s : App) (k : A -> App * Answer) : App * Answer :=
  match x with inl e => (s, ARejected (rejection_status e)) | inr a => k a end.
(** [AxumPath<String>]: the one parameter, decoded. *)
Definition path_param (ps : list (list Z)) : Rejection + list Z :=
  match ps with [p] => match percent_decode p with Some v => inr v | None => inl BadRequest end | _ => inl BadRequest end.
Definition with_down (s : App) (x : Server * Downloads.Response) : App * Answer := (mkApp (ap_notes s) (fst x), AExport (snd x)).
Definition with_notes (s : App) (x : AnnotationStore * Annotations.Response) : App * Answer := (mkApp (fst x) (ap_down s), ANotes (snd x)).

(** The downloads in what the environment answers. *)
Definition export_get (e : Env) (ok : bool) (sid : list Z) (q : ExportQuery) (s : Server) : Server * Downloads.Response :=
  export_handler parse_uuid uuid_str (e_dir e) (e_root e) (e_exists e) (e_canonicalize e) (e_index e) (e_export e)
    header_ok temp_dir (l_defaults l) ok (e_now1 e) (e_fails e) (e_fresh e) sid q s.
Definition bundle_get (e : Env) (ticket : list Z) (s : Server) : Server * Downloads.Response :=
  export_bundle_handler parse_uuid uuid_str rfc3339_secs (e_dir e) (e_root e) (e_exists e) (e_canonicalize e) (e_index e)
    (e_export e) header_ok temp_dir (l_defaults l) (e_now1 e) (e_now_ms e) (e_fails e) (e_fresh e) (e_freshs e) ticket s.

Definition call (h : Handler) (ps : list (list Z)) (e : Env) (r : Request) (s : App) : App * Answer :=
  match h with
  | Healthz | Readyz => (s, AText (lit "ok"))
  | GetVersion => (s, AVersion (version_current pkg_version))
  | GetDetect => (s, ADetect (e_report e))
  | AiVerifyGet => (s, AVerify (AiVerify.verify parse_value (e_verify e)))
  | Range => extract (path_param ps) s (fun sid => (s, range_handler sid))
  | ExportGet =>
      extract (path_param ps) s (fun sid => extract (rq_export r) s (fun q =>
        with_down s (export_get e (authorized r) sid q (ap_down s))))
  | ExportTicket =>
      extract (path_param ps) s (fun sid => extract (rq_export r) s (fun q =>
        with_down s (export_ticket_handler parse_uuid (l_defaults l) (authorized r) (e_now1 e) (e_now2 e) (e_name e) sid q (ap_down s))))
  | BundleTicket =>
      extract (rq_bundle_body r) s (fun req =>
        with_down s (export_bundle_ticket_handler (authorized r) (e_now1 e) (e_now2 e) (e_name e) req (ap_down s)))
  | BundleGet =>
      extract (rq_bundle r) s (fun ticket =>
        with_down s (bundle_get e ticket (ap_down s)))
  | NotesList =>
      extract (rq_notes r) s (fun sid => (s, ANotes (list_handler parse_uuid phc_ok verify_password (ap_notes s) (notes_request r) sid)))
  | NoteUpsert =>
      extract (path_param ps) s (fun id => extract (rq_note_body r) s (fun b =>
        with_notes s (upsert_handler to_string parse_uuid phc_ok verify_password (ap_notes s) (notes_request r) id (fst (fst b)) (snd (fst b))
          (snd b) (e_utc e) (e_io e))))
  | NoteDelete =>
      extract (path_param ps) s (fun id =>
        with_notes s (delete_handler to_string parse_uuid phc_ok verify_password (ap_notes s) (notes_request r) id (e_io e)))
  | WsGet =>
      extract (rq_upgrade r) s (fun _ => (s, AUpgrade (ws_handler phc_ok verify_password l (rq_protocols r) (rq_peer r) (e_slot e))))
  end.
Definition handle (e : Env) (r : Request) (s : App) : App * Answer :=
  match routed (rq_method r) (rq_path r) with
  | ToHandler h ps => call h ps e r s
  | MethodNotAllowed => (s, ARejected 405)
  | NoRoute => (s, ARejected 404)
  end.

(** ** A run: requests, and the responses of earlier downloads being sent *)
Inductive Event := Req (e : Env) (r : Request) | Poll (i : nat) (rd : read) | Drop (i : nat).
Definition app_step (s : App) (ev : Event) : App :=
  match ev with
  | Req e r => fst (handle e r s)
  | Poll i rd => mkApp (ap_notes s) (fst (poll_stream i rd (ap_down s)))
  | Drop i => mkApp (ap_notes s) (drop_stream i (ap_down s))
  end.
(** A server that has just started to listen. *)
Definition app_start (fs : Fs) : App := mkApp (l_notes l) (Downloads.mkServer ∅ ∅ fs []).
Definition app_run (fs : Fs) (evs : list Event) : App := foldl app_step (app_start fs) evs.

(** ** The tickets of a run *)
(** What a request does to the tickets of single downloads, and of bundles. *)
Definition down_op (ev : Event) : option (Tickets.op DownloadTicketScope) :=
  match ev with
  | Req e r =>
      match routed (rq_method r) (rq_path r) with
      | ToHandler h ps =>
          match h, path_param ps, rq_export r with
          | ExportGet, inr sid, inr q =>
              if authorized r then None
              else match q_ticket q, ticket_scope parse_uuid sid q (l_defaults l) with
                   | Some k, Ok sc => Some (Tickets.Consume (e_now1 e) k sc)
                   | _, _ => None
                   end
          | ExportTicket, inr sid, inr q =>
              if authorized r then
                match ticket_scope parse_uuid sid q (l_defaults l) with
                | Ok sc => Some (Tickets.Issue (e_now1 e) (e_now2 e) (e_name e) sc)
                | _ => None
                end
              else None
          | _, _, _ => None
          end
      | _ => None
      end
  | _ => None
  end.
Definition bundle_op (ev : Event) : option (Tickets.op BundleRequest) :=
  match ev with
  | Req e r =>
      match routed (rq_method r) (rq_path r) with
      | ToHandler h ps =>
          match h, rq_bundle r, rq_bundle_body r with
          | BundleGet, inr k, _ => Some (Tickets.Consume (e_now1 e) k (mkBundle [] [] None None None))
          | BundleTicket, _, inr req =>
              if authorized r then
                match validate_bundle_request (zlen (b_entries req)) (b_format req) with
                | Ok _ => Some (Tickets.Issue (e_now1 e) (e_now2 e) (e_name e) req)
                | _ => None
                end
              else None
          | _, _, _ => None
          end
      | _ => None
      end
  | _ => None
  end.
#[local] Instance ExportBundleEntry_eq_dec : EqDecision ExportBundleEntry.
Proof. solve_decision. Defined.
#[local] Instance BundleRequest_eq_dec : EqDecision BundleRequest.
Proof. solve_decision. Defined.

Lemma consume_bundle_table {P} `{!EqDecision P} (ts : gmap (list Z) (Tickets.Ticket P)) now k p :
  fst (Tickets.consume_bundle ts now k) = fst (Tickets.consume ts now k p).
Proof using Type. unfold Tickets.consume_bundle, Tickets.consume. by destruct (Tickets.prune_expired ts now !! k). Qed.
Definition apply_opt {P} `{!EqDecision P} (ts : gmap (list Z) (Tickets.Ticket P)) (o : option (Tickets.op P)) :=
  match o with Some o => Tickets.apply_op ts o | None => ts end.
(** What the downloads leave of the tables. *)
Lemma export_tables e ok sid q s : let s' := fst (export_get e ok sid q s) in
  s_tickets s' = fst (authorize_export_request parse_uuid ok (s_tickets s) (e_now1 e) sid q (l_defaults l)) /\ s_bundles s' = s_bundles s.
Proof using Type.
  unfold export_get, export_handler. destruct (authorize_export_request _ _ _ _ _ _ _) as [ts [[]|?|]]; [|done..].
  by destruct (export_session _ _ _ _ _ _ _ _ _ _ _ _ _ _ _).
Qed.
Lemma bundle_tables e k s : let s' := fst (bundle_get e k s) in
  s_tickets s' = s_tickets s /\ s_bundles s' = fst (Tickets.consume_bundle (s_bundles s) (e_now1 e) k).
Proof using Type.
  unfold bundle_get, export_bundle_handler. destruct (Tickets.consume_bundle _ _ _) as [bs [req|?|]]; [|done..].
  by destruct (export_bundle _ _ _ _ _ _ _ _ _ _ _ _ _ _ _ _ _).
Qed.
Lemma step_tickets s ev :
  s_tickets (ap_down (app_step s ev)) = apply_opt (s_tickets (ap_down s)) (down_op ev) /\
  s_bundles (ap_down (app_step s ev)) = apply_opt (s_bundles (ap_down s)) (bundle_op ev).
Proof using Type.
  destruct ev as [e r|i rd|i]; cbn [app_step down_op bundle_op].
  2: { cbn. unfold poll_stream. destruct (s_streams _ !! i); [|done]. by destruct (poll_next _ _ _) as [[? ?] ?]. }
  2: { cbn. unfold drop_stream. by destruct (s_streams _ !! i). }
  unfold handle. destruct (routed _ _) as [h ps| |]; [|done..].
  destruct h; cbn [call]; try done; unfold extract.
  - by destruct (path_param ps).
  - destruct (path_param ps) as [|sid]; [done|]. destruct (rq_export r) as [|q]; [done|]. cbn [with_down fst ap_down].
    destruct (export_tables e (authorized r) sid q (ap_down s)) as [-> ->]. split; [|done]. unfold authorize_export_request.
    destruct (authorized r); [done|]. destruct (q_ticket q) as [k|]; [|done]. by destruct (ticket_scope _ _ _ _).
  - destruct (path_param ps) as [|sid]; [done|]. destruct (rq_export r) as [|q]; [done|]. cbn [with_down fst ap_down].
    unfold export_ticket_handler. destruct (authorized r); cbn [negb]; [|done]. by destruct (ticket_scope _ _ _ _).
  - destruct (rq_bundle r) as [|k]; [done|]. cbn [with_down fst ap_down].
    destruct (bundle_tables e k (ap_down s)) as [-> ->]. split; [done|]. apply consume_bundle_table.
  - destruct (rq_bundle_body r) as [|req]; [done|]. cbn [with_down fst ap_down].
    unfold export_bundle_ticket_handler. destruct (authorized r); cbn [negb]; [|by destruct (rq_bundle r)].
    destruct (validate_bundle_request _ _); by destruct (rq_bundle r).
  - by destruct (rq_notes r).
  - destruct (path_param ps); [done|]. by destruct (rq_note_body r).
  - by destruct (path_param ps).
  - by destruct (rq_upgrade r).
Qed.
Lemma run_tickets fs evs :
  s_tickets (ap_down (app_run fs evs)) = Tickets.after (omap down_op evs) /\
  s_bundles (ap_down (app_run fs evs)) = Tickets.after (omap bundle_op evs).
Proof using Type.
  induction evs as [|ev evs [IH1 IH2]] using rev_ind; [done|]. unfold app_run in *. rewrite !foldl_app. cbn [foldl].
  destruct (step_tickets (foldl app_step (app_start fs) evs) ev) as [-> ->]. rewrite IH1, IH2, !omap_app. unfold Tickets.after.
  rewrite !foldl_app. unfold apply_opt. cbn. by destruct (down_op ev), (bundle_op ev).
Qed.

(** A ticket [k] that an authorized request was given less than a minute ago,
    for [p], and that no request has presented since. *)
Definition issued {P} (op : Event -> option (Tickets.op P)) (evs : list Event) (now : Z) (k : list Z) (p : P) : Prop :=
  exists evs1 e0 r0 evs2, evs = evs1 ++ Req e0 r0 :: evs2 /\ authorized r0 = true /\
    op (Req e0 r0) = Some (Tickets.Issue (e_now1 e0) (e_now2 e0) k p) /\
    Forall (fun ev => forall o, op ev = Some o -> ~ Tickets.names k o) evs2 /\ now < e_now2 e0 + DOWNLOAD_TICKET_TTL.
Lemma omap_split {A B} (f : A -> option B) xs : forall h1 y h2, omap f xs = h1 ++ y :: h2 ->
  exists xs1 x xs2, xs = xs1 ++ x :: xs2 /\ f x = Some y /\ omap f xs1 = h1 /\ omap f xs2 = h2.
Proof using Type.
  induction xs as [|x xs IH]; intros h1 y h2 H; [by destruct h1|]. cbn in H. destruct (f x) as [z|] eqn:Ef.
  - destruct h1 as [|z' h1]; injection H as <- H.
    + by exists [], x, xs.
    + destruct (IH _ _ _ H) as (xs1 & x' & xs2 & -> & Hx & <- & Hs). exists (x :: xs1), x', xs2. cbn. by rewrite Ef.
  - destruct (IH _ _ _ H) as (xs1 & x' & xs2 & -> & Hx & H1 & Hs). exists (x :: xs1), x', xs2. cbn. by rewrite Ef.
Qed.
(** Both kinds of tickets are issued by requests only, and to authorized ones. *)
Definition issues_authorized {P} (op : Event -> option (Tickets.op P)) : Prop :=
  forall ev n1 n2 k p, op ev = Some (Tickets.Issue n1 n2 k p) ->
    exists e r, ev = Req e r /\ authorized r = true /\ n1 = e_now1 e /\ n2 = e_now2 e.
Lemma down_issues : issues_authorized down_op.
Proof using Type.
  intros [e r| |] n1 n2 k p H; [|done..]. exists e, r. cbn in H. destruct (routed _ _) as [h ps| |]; [|done..].
  destruct h; try done; destruct (path_param ps), (rq_export r); try done; destruct (authorized r); try done;
    repeat (case_match; try done); by simplify_eq.
Qed.
Lemma bundle_issues : issues_authorized bundle_op.
Proof using Type.
  intros [e r| |] n1 n2 k p H; [|done..]. exists e, r. cbn in H. destruct (routed _ _) as [h ps| |]; [|done..].
  destruct h; try done; destruct (rq_bundle r), (rq_bundle_body r); try done; destruct (authorized r); try done;
    repeat (case_match; try done); by simplify_eq.
Qed.
Lemma issued_valid {P} (op : Event -> option (Tickets.op P)) evs now k p : issues_authorized op ->
  Tickets.valid (omap op evs) now k p <-> issued op evs now k p.
Proof using Type.
  intros Ha. split.
  - intros (h1 & n1 & n2 & h2 & E & Hf & Hn). apply omap_split in E as (xs1 & x & xs2 & -> & Hx & <- & <-).
    destruct (Ha _ _ _ _ _ Hx) as (e & r & -> & Hr & -> & ->). exists xs1, e, r, xs2. split_and!; try done.
    apply Forall_forall. intros ev Hev o Ho. eapply (proj1 (Forall_forall _ _) Hf). apply list_elem_of_omap. eauto.
  - intros (xs1 & e & r & xs2 & -> & _ & Hx & Hf & Hn). exists (omap op xs1), (e_now1 e), (e_now2 e), (omap op xs2).
    rewrite omap_app. cbn [omap list_omap]. rewrite Hx. split_and!; try done.
    apply Forall_forall. intros o (ev & Hev & Ho)%list_elem_of_omap. by apply (proj1 (Forall_forall _ _) Hf ev Hev).
Qed.

(** ** A download that was let through is never refused for its credentials *)
Definition calm {A} (r : dres A) : Prop := match r with Err e => err_status e <> 401 | _ => True end.
Definition calm_api {A} (r : eres A) : Prop := calm (map_err Api r).
Lemma calm_bind {A B} (r : dres A) (f : A -> dres B) : calm r -> (forall x, calm (f x)) -> calm (r ≫= f).
Proof using Type. by destruct r as [a|e|]; cbn. Qed.
Lemma calm_bind_api {A B} (r : eres A) (f : A -> eres B) : calm_api r -> (forall x, calm_api (f x)) -> calm_api (r ≫= f).
Proof using Type. by destruct r as [a|e|]; cbn. Qed.
Lemma calm_task {A} (r : dres A) : calm r -> err_status (task_error r) <> 401.
Proof using Type. by destruct r as [a|e|]. Qed.
Lemma calm_format v : calm_api (format_parse v).
Proof using Type. unfold format_parse. by repeat case_match. Qed.
Lemma calm_validate n v : calm_api (validate_bundle_request n v).
Proof using Type. unfold validate_bundle_request. do 2 (case_match; [done|]). apply calm_bind_api; [apply calm_format|done]. Qed.
Lemma calm_unique name used : calm_api (unique_zip_entry_name name used).
Proof using Type. unfold unique_zip_entry_name. by repeat case_match. Qed.
Lemma calm_append z name data copy : calm_api (append_file_from_path z name data copy).
Proof using Type.
  unfold append_file_from_path. apply calm_bind_api; [by destruct (try_from _ _ _)|]. intros n. by repeat case_match.
Qed.
Lemma calm_finish z : calm_api (finish z).
Proof using Type.
  unfold finish. apply calm_bind_api; [|intros [out size]; by case_match].
  generalize (z_out z) 0. induction (z_central z) as [|c cs IH]; intros out n; cbn [write_central]; [done|].
  case_match; [done|]. apply calm_bind_api; [by destruct (try_from _ _ _)|]. intros x. apply IH.
Qed.

Section Served.
  Context (dirs : Z -> option (list Z)) (root : option (list Z)) (exists_ : list Z -> bool) (canon : list Z -> option (list (list Z)))
    (index : list Z -> bool) (export_to : ExportFormat -> list Z -> option (list Z) -> option (list Z) -> option (list Z) * result unit).
Lemma calm_ensure dir : calm (ensure_session_dir root exists_ canon index dir).
Proof using Type.
  unfold ensure_session_dir. case_match; [done|]. apply calm_bind; [by destruct (canon dir)|]. intros cp.
  apply calm_bind; [|by case_match]. destruct root as [rt|]; [|done]. apply calm_bind; [by destruct (canon rt)|]. intros cr. by case_match.
Qed.
Lemma calm_export_one f dir dst tz enc fs : calm (snd (export_one export_to f dir dst tz enc fs)).
Proof using Type. unfold export_one. by destruct (export_to _ _ _ _) as [? [|?|]]. Qed.
Lemma calm_artifact fails tmp name ctype fs : calm (snd (artifact fails tmp name ctype fs)).
Proof using Type. unfold artifact. destruct (fs !! te_path tmp); [|done]. by destruct (_ || _). Qed.
Lemma export_session_calm dflt fails fresh sid q fs :
  calm (snd (export_session parse_uuid uuid_str dirs root exists_ canon index export_to temp_dir dflt fails fresh sid q fs)).
Proof using Type.
  unfold export_session.
  match goal with |- context [match ?x with Ok _ => _ | _ => _ end] => assert (Hx : calm x) end.
  { apply calm_bind; [by destruct (parse_uuid sid)|]. intros i. apply calm_bind; [apply calm_format|]. intros f.
    apply calm_bind; [by destruct (dirs i)|]. intros d. apply calm_bind; [apply calm_ensure|done]. }
  revert Hx. match goal with |- calm ?x -> _ => destruct x as [[[i f] d]|e|] end; intros Hx; [|exact Hx|done].
  set (tmp := temp_new _). destruct (export_one _ _ _ _ _ _ _) as [fs1 r] eqn:Eo.
  assert (Hr : calm r) by (change r with (snd (fs1, r)); rewrite <- Eo; apply calm_export_one).
  destruct r as [[]|e|]; [apply calm_artifact|exact Hr|done].
Qed.
Lemma bundle_jobs_calm dflt entries : calm (bundle_jobs parse_uuid dirs root exists_ canon index dflt entries).
Proof using Type.
  induction entries as [|b bs IH]; cbn [bundle_jobs]; [done|]. apply calm_bind; [by destruct (parse_uuid _)|]. intros i.
  apply calm_bind; [by destruct (dirs i)|]. intros d. apply calm_bind; [apply calm_ensure|]. intros _. by apply calm_bind.
Qed.
Lemma bundle_loop_calm fails f tz pat ms fresh jobs : forall i used z fs,
  calm (snd (bundle_loop uuid_str rfc3339_secs export_to temp_dir fails f tz pat ms fresh i jobs used z fs)).
Proof using Type.
  induction jobs as [|job jobs IH]; intros i used z fs; cbn [bundle_loop]; [done|]. set (tmp := temp_new _).
  destruct (export_one _ _ _ _ _ _ _) as [fs1 r] eqn:Eo.
  assert (Hr : calm r) by (change r with (snd (fs1, r)); rewrite <- Eo; apply calm_export_one).
  match goal with |- context [match ?x with Ok _ => _ | _ => _ end] => assert (Hx : calm x) end.
  { apply calm_bind; [done|]. intros _. apply calm_bind; [apply calm_unique|]. intros [entry used']. case_match; [done|].
    apply calm_bind; [by destruct (fs1 !! _)|]. intros data. apply calm_bind; [apply calm_append|done]. }
  revert Hx. match goal with |- calm ?x -> _ => destruct x as [[u' z']|e|] end; intros Hx; [apply IH|exact Hx|done].
Qed.
Lemma create_bundle_calm fails path jobs f tz pat ms fresh fs :
  calm (snd (create_bundle_zip uuid_str rfc3339_secs export_to temp_dir fails path jobs f tz pat ms fresh fs)).
Proof using Type.
  unfold create_bundle_zip. case_match; [done|]. destruct (bundle_loop _ _ _ _ _ _ _ _ _ _ _ _ _ _ _) as [fs1 r] eqn:El.
  assert (Hr : calm r) by (change r with (snd (fs1, r)); rewrite <- El; apply bundle_loop_calm).
  destruct r as [z|e|]; cbn [mbind res_bind]; [|exact Hr|done]. destruct (fails SFinish); [done|].
  pose proof (calm_finish z) as Hz. unfold calm_api in Hz. by destruct (map_err Api (finish z)).
Qed.
Lemma export_bundle_calm dflt fails now_ms zf fresh req fs :
  calm (snd (export_bundle parse_uuid uuid_str rfc3339_secs dirs root exists_ canon index export_to temp_dir dflt fails now_ms zf fresh req fs)).
Proof using Type.
  unfold export_bundle.
  match goal with |- context [match ?x with Ok _ => _ | _ => _ end] => assert (Hx : calm x) end.
  { apply calm_bind; [apply calm_validate|]. intros _. apply calm_bind; [apply calm_format|]. intros f.
    apply calm_bind; [apply bundle_jobs_calm|done]. }
  revert Hx. match goal with |- calm ?x -> _ => destruct x as [[f jobs]|e|] end; intros Hx; [|exact Hx|done].
  destruct (create_bundle_zip _ _ _ _ _ _ _ _ _ _ _ _ _) as [fs1 r] eqn:Ec.
  assert (Hr : calm r) by (change r with (snd (fs1, r)); rewrite <- Ec; apply create_bundle_calm).
  destruct r as [[]|e|]; [apply calm_artifact|exact Hr|done].
Qed.
End Served.
Lemma respond_calm (a : dres ExportArtifact) : calm a -> r_status (respond header_ok a) <> 401.
Proof using Type. intros H. destruct a as [x|e|]; cbn; [done|exact H|done]. Qed.

(** ** What an answer gives away, and who may have it *)
Definition exposes (a : Answer) : Prop :=
  match a with
  | AExport r => match r_body r with BError _ => False | _ => True end
  | ANotes (RError _ _) => False
  | ANotes _ => True
  | AUpgrade Upgraded => True
  | _ => False
  end.
(** The credentials a request needs: those of the upgrade for [/ws]; a bundle
    is given for a ticket only. *)
Definition admitted (r : Request) : Prop :=
  match routed (rq_method r) (rq_path r) with
  | ToHandler WsGet _ => forall why, check_auth phc_ok verify_password (rq_protocols r) (rq_peer r) (l_auth l) (l_no_auth l) <> AuthRejected why
  | ToHandler BundleGet _ => False
  | _ => authorized r = true
  end.
(** A download with a ticket. *)
Definition ticketed (evs : list Event) (e : Env) (r : Request) : Prop :=
  (exists ps sid q k sc, routed (rq_method r) (rq_path r) = ToHandler ExportGet ps /\ path_param ps = inr sid /\ rq_export r = inr q /\
     q_ticket q = Some k /\ ticket_scope parse_uuid sid q (l_defaults l) = Ok sc /\ issued down_op evs (e_now1 e) k sc) \/
  (exists ps k req, routed (rq_method r) (rq_path r) = ToHandler BundleGet ps /\ rq_bundle r = inr k /\ issued bundle_op evs (e_now1 e) k req).
(** The clock does not go back. *)
Definition earlier (now : Z) (ev : Event) : Prop := match ev with Req e _ => e_now1 e <= now /\ e_now2 e <= now | _ => True end.
Lemma down_before now evs : Forall (earlier now) evs -> Forall (Tickets.before now) (omap down_op evs).
Proof using Type.
  intros H. apply Forall_forall. intros o (ev & Hev & Ho)%list_elem_of_omap. pose proof (proj1 (Forall_forall _ _) H ev Hev) as Hb.
  destruct ev as [e r| |]; [|done..]. cbn in Hb, Ho. destruct (routed _ _) as [h ps| |]; [|done..].
  destruct h; try done; destruct (path_param ps), (rq_export r); try done; destruct (authorized r); try done;
    repeat (case_match; try done); injection Ho as <-; by destruct Hb.
Qed.
Lemma bundle_before now evs : Forall (earlier now) evs -> Forall (Tickets.before now) (omap bundle_op evs).
Proof using Type.
  intros H. apply Forall_forall. intros o (ev & Hev & Ho)%list_elem_of_omap. pose proof (proj1 (Forall_forall _ _) H ev Hev) as Hb.
  destruct ev as [e r| |]; [|done..]. cbn in Hb, Ho. destruct (routed _ _) as [h ps| |]; [|done..].
  destruct h; try done; destruct (rq_bundle r), (rq_bundle_body r); try done; try (destruct (authorized r); try done);
    repeat (case_match; try done); injection Ho as <-; by destruct Hb.
Qed.

(** The two downloads. *)
Lemma export_get_guarded evs e r ps sid q fs : Forall (earlier (e_now1 e)) evs ->
  routed (rq_method r) (rq_path r) = ToHandler ExportGet ps -> path_param ps = inr sid -> rq_export r = inr q ->
  let a := AExport (snd (export_get e (authorized r) sid q (ap_down (app_run fs evs)))) in
  (exposes a -> authorized r = true \/ ticketed evs e r) /\ (authorized r = true \/ ticketed evs e r -> answer_status a <> 401).
Proof using Type.
  intros Hc Hh Hp Hq a. subst a. unfold export_get, export_handler. destruct (run_tickets fs evs) as [-> _].
  assert (Hok : snd (authorize_export_request parse_uuid (authorized r) (Tickets.after (omap down_op evs)) (e_now1 e) sid q (l_defaults l)) = Ok tt <->
    authorized r = true \/ ticketed evs e r).
  { unfold authorize_export_request. destruct (authorized r) eqn:Ea; [by split; [left|]|]. split.
    - destruct (q_ticket q) as [k|] eqn:Ek; [|done]. destruct (ticket_scope _ _ _ _) as [sc|?|] eqn:Es; [|done..].
      rewrite Tickets.consume_ok by by apply down_before. rewrite (issued_valid _ _ _ _ _ down_issues). intros Hi. right. left.
      by exists ps, sid, q, k, sc.
    - intros [?|[(ps' & sid' & q' & k & sc & H1 & H2 & H3 & H4 & H5 & H6)|(? & ? & ? & H1 & _)]]; [done| |congruence].
      rewrite Hh in H1. injection H1 as <-. rewrite Hp in H2. injection H2 as <-. rewrite Hq in H3. injection H3 as <-.
      rewrite H4, H5. rewrite Tickets.consume_ok by by apply down_before. by rewrite (issued_valid _ _ _ _ _ down_issues). }
  destruct (authorize_export_request _ _ _ _ _ _ _) as [ts x]. cbn [snd] in Hok. destruct x as [[]|er|].
  - destruct (export_session _ _ _ _ _ _ _ _ _ _ _ _ _ _ _) as [fs' art] eqn:Ee. split; [intros _; by apply Hok|]. intros _. cbn [snd answer_status].
    apply respond_calm. change art with (snd (fs', art)). rewrite <- Ee. apply export_session_calm.
  - split; [done|]. intros H. apply Hok in H. done.
  - split; [done|]. intros H. apply Hok in H. done.
Qed.
Lemma bundle_get_guarded evs e r ps k fs : Forall (earlier (e_now1 e)) evs ->
  routed (rq_method r) (rq_path r) = ToHandler BundleGet ps -> rq_bundle r = inr k ->
  let a := AExport (snd (bundle_get e k (ap_down (app_run fs evs)))) in
  (exposes a -> ticketed evs e r) /\ (ticketed evs e r -> answer_status a <> 401).
Proof using Type.
  intros Hc Hh Hk a. subst a. unfold bundle_get, export_bundle_handler. destruct (run_tickets fs evs) as [_ ->].
  assert (Hok : (exists req, snd (Tickets.consume_bundle (Tickets.after (omap bundle_op evs)) (e_now1 e) k) = Ok req) <-> ticketed evs e r).
  { split.
    - intros [req Hx]. apply Tickets.consume_bundle_ok in Hx; [|by apply bundle_before].
      apply (issued_valid _ _ _ _ _ bundle_issues) in Hx. right. by exists ps, k, req.
    - intros [(? & ? & ? & ? & ? & H1 & _)|(ps' & k' & req & H1 & H2 & H3)]; [congruence|]. rewrite Hk in H2. injection H2 as <-.
      exists req. apply Tickets.consume_bundle_ok; [by apply bundle_before|]. by apply (issued_valid _ _ _ _ _ bundle_issues). }
  destruct (Tickets.consume_bundle _ _ _) as [bs x]. cbn [snd] in Hok. destruct x as [req|er|].
  - destruct (export_bundle _ _ _ _ _ _ _ _ _ _ _ _ _ _ _ _ _) as [fs' art] eqn:Ee. split; [intros _; apply Hok; by exists req|]. intros _.
    cbn [snd answer_status]. apply respond_calm. change art with (snd (fs', art)). rewrite <- Ee. apply export_bundle_calm.
  - split; [done|]. intros H. apply Hok in H as [? ?]. done.
  - split; [done|]. intros H. apply Hok in H as [? ?]. done.
Qed.

(** The handlers of the notes. *)
Lemma notes_authorized r :
  Annotations.authorized phc_ok verify_password (notes_request r) = if authorized r then Ok tt else Err auth_error.
Proof using Type.
  unfold Annotations.authorized, authorize_annotations, authorized, notes_request. cbn.
  unfold authorize_http. destruct (l_no_auth l && is_loopback_allowed (rq_peer r)); [done|].
  destruct (rq_authorization r ≫= _) as [tok|]; [|done]. cbn. unfold verify.
  induction (hashes (l_auth l)) as [|h hs IH]; cbn [verify_loop]; [done|]. destruct (phc_ok h); [|done]. by destruct (verify_password _ _).
Qed.
Definition mild {A} (r : res AnnotationApiError A) : Prop := match r with Err e => Annotations.status e <> 401 | _ => True end.
Lemma mild_bind {A B} (r : res AnnotationApiError A) (f : A -> res AnnotationApiError B) : mild r -> (forall x, mild (f x)) -> mild (r ≫= f).
Proof using Type. by destruct r; cbn. Qed.
Lemma persist_mild file m io : mild (snd (persist_locked to_string file m io)).
Proof using Type. unfold persist_locked. case_match; [done|]. destruct (render to_string (values m)); [|done]. by repeat (case_match; try done). Qed.
Lemma upsert_mild s i tg txt by_ now io : mild (snd (upsert to_string s i tg txt by_ now io)).
Proof using Type.
  assert (Hx : mild (let* t' := normalize_target tg in let* txt' := normalize_text txt in Ok (t', txt'))).
  { apply mild_bind; [|intros tg'; apply mild_bind; [unfold normalize_text; by case_match|done]].
    unfold normalize_target. destruct (t_kind tg); [by destruct (t_sid tg)|]. cbv zeta. case_match; [done|]. by case_match. }
  revert Hx. unfold upsert. destruct (normalize_target tg ≫= _) as [[tg' txt']|e|]; intros Hx; [|exact Hx|done].
  set (m := <[i := _]> _). pose proof (persist_mild (a_disk s) m io) as Hp. destruct (persist_locked _ _ _ _) as [f r].
  cbn [snd] in *. by destruct r.
Qed.
Lemma remove_mild s i io : mild (snd (remove to_string s i io)).
Proof using Type.
  unfold remove. destruct (annotations s !! i); [|done].
  pose proof (persist_mild (a_disk s) (delete i (annotations s)) io) as Hp. destruct (persist_locked _ _ _ _) as [f r]. cbn [snd] in *. by destruct r.
Qed.
Lemma upsert_guarded s r i tg txt by_ now io :
  let x := upsert_handler to_string parse_uuid phc_ok verify_password s (notes_request r) i tg txt by_ now io in
  (exposes (ANotes (snd x)) \/ fst x <> s -> authorized r = true) /\ (authorized r = true -> notes_status (snd x) <> 401).
Proof using Type.
  unfold upsert_handler. rewrite notes_authorized. destruct (authorized r); [|by split; [intros [?|?]|]].
  split; [done|]. intros _. cbn [mbind res_bind]. unfold parse_annotation_id. destruct (parse_uuid (trim i)) as [u|]; [|done]. cbn [ok_or].
  pose proof (upsert_mild s u tg txt by_ now io) as Hm. by destruct (upsert _ _ _ _ _ _ _ _) as [s' [x|e|]].
Qed.
Lemma delete_guarded s r i io :
  let x := delete_handler to_string parse_uuid phc_ok verify_password s (notes_request r) i io in
  (exposes (ANotes (snd x)) \/ fst x <> s -> authorized r = true) /\ (authorized r = true -> notes_status (snd x) <> 401).
Proof using Type.
  unfold delete_handler. rewrite notes_authorized. destruct (authorized r); [|by split; [intros [?|?]|]].
  split; [done|]. intros _. cbn [mbind res_bind]. unfold parse_annotation_id. destruct (parse_uuid (trim i)) as [u|]; [|done]. cbn [ok_or].
  pose proof (remove_mild s u io) as Hm. by destruct (remove _ _ _ _) as [s' [[]|e|]].
Qed.
Lemma list_guarded s r sid :
  let x := list_handler parse_uuid phc_ok verify_password s (notes_request r) sid in
  (exposes (ANotes x) -> authorized r = true) /\ (authorized r = true -> notes_status x <> 401).
Proof using Type.
  unfold list_handler. rewrite notes_authorized. destruct (authorized r); [|done]. split; [done|]. intros _.
  unfold parse_optional_sid. destruct sid as [x|]; [|done]. case_bool_decide; [done|]. by destruct (parse_uuid (trim x)).
Qed.

(** One request, at any point of a run. *)
Lemma handle_guarded fs evs e r s' a : Forall (earlier (e_now1 e)) evs -> handle e r (app_run fs evs) = (s', a) ->
  (exposes a \/ ap_notes s' <> ap_notes (app_run fs evs) -> admitted r \/ ticketed evs e r) /\
  (admitted r \/ ticketed evs e r -> answer_status a <> 401).
Proof using Type.
  intros Hc. unfold handle, admitted. destruct (routed (rq_method r) (rq_path r)) as [h ps| |] eqn:Eh; [|by intros [= <- <-]; split; [intros [?|?]|]..].
  assert (Hno : forall b, h <> ExportGet -> h <> BundleGet -> b \/ ticketed evs e r <-> b).
  { intros b H1 H2. split; [|by left]. intros [?|[(? & ? & ? & ? & ? & H & _)|(? & ? & ? & H & _)]]; [done|congruence..]. }
  assert (Hrej : forall z, z <> 401 -> (app_run fs evs, ARejected z) = (s', a) ->
    (exposes a \/ ap_notes s' <> ap_notes (app_run fs evs) -> False) /\ answer_status a <> 401).
  { intros z Hz [= <- <-]. split; [by intros [?|?]|done]. }
  assert (Hst : forall x, rejection_status x <> 401) by (by intros []).
  destruct h; cbn [call]; unfold extract.
  (* the public routes *)
  1-4: intros [= <- <-]; split; [by intros [?|?]|done].
  1: intros [= <- <-]; split; [by intros [?|?]|]; intros _; cbn; unfold AiVerify.verify; destruct (e_verify e) as [b| |]; try done; by destruct (parse_value b).
  1: { destruct (path_param ps) as [x|v]; [intros H; by destruct (Hrej _ (Hst x) H)|]. intros [= <- <-]. split; [by intros [?|?]|done]. }
  - destruct (path_param ps) as [x|sid] eqn:Ep; [intros H; by destruct (Hrej _ (Hst x) H)|].
    destruct (rq_export r) as [x|q] eqn:Eq; [intros H; by destruct (Hrej _ (Hst x) H)|]. unfold with_down. intros [= <- <-].
    destruct (export_get_guarded evs e r ps sid q fs Hc Eh Ep Eq) as [H1 H2]. split; [intros [H|H]; [by apply H1|by destruct H]|exact H2].
  - rewrite Hno by done. destruct (path_param ps) as [x|sid]; [intros H; by destruct (Hrej _ (Hst x) H)|].
    destruct (rq_export r) as [x|q]; [intros H; by destruct (Hrej _ (Hst x) H)|]. unfold with_down. intros [= <- <-].
    unfold export_ticket_handler. destruct (authorized r); cbn [negb]; [|by split; [intros [?|?]|]]. split; [done|]. intros _.
    unfold ticket_scope. destruct (parse_uuid sid); [|done]. cbn. pose proof (calm_format (q_format q)) as Hf. by destruct (format_parse _).
  - destruct (rq_bundle r) as [x|k] eqn:Eb; [intros H; by destruct (Hrej _ (Hst x) H)|]. unfold with_down. intros [= <- <-].
    destruct (bundle_get_guarded evs e r ps k fs Hc Eh Eb) as [H1 H2]. split; [intros [H|H]; [by right; apply H1|by destruct H]|].
    intros [H|H]; [done|by apply H2].
  - rewrite Hno by done. destruct (rq_bundle_body r) as [x|req]; [intros H; by destruct (Hrej _ (Hst x) H)|]. unfold with_down. intros [= <- <-].
    unfold export_bundle_ticket_handler. destruct (authorized r); cbn [negb]; [|by split; [intros [?|?]|]]. split; [done|]. intros _.
    pose proof (calm_validate (zlen (b_entries req)) (b_format req)) as Hf. by destruct (validate_bundle_request _ _).
  - rewrite Hno by done. destruct (rq_notes r) as [x|sid]; [intros H; by destruct (Hrej _ (Hst x) H)|]. intros [= <- <-].
    destruct (list_guarded (ap_notes (app_run fs evs)) r sid) as [H1 H2]. split; [intros [H|H]; [by apply H1|by destruct H]|exact H2].
  - rewrite Hno by done. destruct (path_param ps) as [x|i]; [intros H; by destruct (Hrej _ (Hst x) H)|].
    destruct (rq_note_body r) as [x|b]; [intros H; by destruct (Hrej _ (Hst x) H)|]. unfold with_notes. intros [= <- <-]. apply upsert_guarded.
  - rewrite Hno by done. destruct (path_param ps) as [x|i]; [intros H; by destruct (Hrej _ (Hst x) H)|].
    unfold with_notes. intros [= <- <-]. apply delete_guarded.
  - rewrite Hno by done. destruct (rq_upgrade r) as [x|u]; [intros H; by destruct (Hrej _ (Hst x) H)|]. intros [= <- <-].
    unfold ws_handler. destruct (check_auth _ _ _ _ _ _) as [| |why] eqn:Ec.
    + split; [done|]. by destruct (e_slot e).
    + split; [done|]. by destruct (e_slot e).
    + split; [by intros [?|?]|]. intros H. by destruct (H why).
Qed.
(** The token a request presents. *)
Definition presented (r : Request) : option (list Z) :=
  match routed (rq_method r) (rq_path r) with
  | ToHandler WsGet _ => rq_protocols r ≫= extract_bearer
  | _ => rq_authorization r ≫= strip_prefix (lit "Bearer ")
  end.
Lemma admitted_by r : admitted r ->
  (exists tok, presented r = Some tok /\ verify phc_ok verify_password (l_auth l) tok = Ok tt) \/
  (is_loopback_allowed (rq_peer r) = true /\ l_no_auth l = true).
Proof using Type.
  assert (Hhttp : authorized r = true ->
    (exists tok, rq_authorization r ≫= strip_prefix (lit "Bearer ") = Some tok /\ verify phc_ok verify_password (l_auth l) tok = Ok tt) \/
    (is_loopback_allowed (rq_peer r) = true /\ l_no_auth l = true)).
  { unfold authorized, authorize_http. destruct (l_no_auth l && is_loopback_allowed (rq_peer r)) eqn:E.
    - apply andb_true_iff in E as [? ?]. by right.
    - destruct (rq_authorization r ≫= _) as [tok|]; [|done]. destruct (verify _ _ _ tok) as [[]|?|] eqn:Ev; [|done..].
      intros _. left. by exists tok. }
  unfold admitted, presented. destruct (routed _ _) as [h ps| |]; [destruct h; try exact Hhttp; [done|]|exact Hhttp..].
  unfold check_auth. intros Ha. destruct (rq_protocols r ≫= extract_bearer) as [tok|].
  - destruct (verify _ _ _ tok) as [[]|?|] eqn:Ev; [left; by exists tok|by destruct (Ha _ eq_refl)..].
  - destruct (l_no_auth l && is_loopback_allowed (rq_peer r)) eqn:E; [|by destruct (Ha _ eq_refl)].
    apply andb_true_iff in E as [? ?]. by right.
Qed.
End Routes.

(** ** The surface of a server started from the command line *)
Section Surface.
  Context {M : Type} `{HA : !Ws.SourceApi M} (new_manager : Manager.Settings -> M) (settings_of : M -> Manager.Settings).
  Context (phc_ok : list Z -> bool) (verify_password : list Z -> list Z -> bool)
    (read_to_string : list Z -> option (list Z)) (parse_note : list Z -> option Annotation)
    (generate : list (list Z) -> list Z + Host.Tls.CertBundle) (readable : list Z -> bool)
    (certs_of : list Z -> list Z + list (list Z)) (key_of : list Z -> list Z + list Z) (install : list (list Z) -> list Z -> option (list Z))
    (build_regex : list Z -> bool -> option (list Z -> Z)) (toml_value : list Z -> option Toml).
  Context (parse_uuid : list Z -> option Z) (uuid_str : Z -> list Z) (rfc3339_secs : Z -> option (list Z)) (header_ok : list Z -> bool)
    (percent_decode : list Z -> option (list Z)) (to_string : Annotation -> option (list Z)) (parse_value : list Z -> option Decoder.Value)
    (temp_dir pkg_version : list Z).
Abbreviation handles := (handle phc_ok verify_password parse_uuid uuid_str rfc3339_secs header_ok percent_decode to_string parse_value temp_dir pkg_version).
Abbreviation runs := (app_run phc_ok verify_password parse_uuid uuid_str rfc3339_secs header_ok percent_decode to_string parse_value temp_dir pkg_version).
Abbreviation with_ticket := (ticketed phc_ok verify_password parse_uuid percent_decode).

(** C15: What a stranger can get: at any point of a run of requests and
    downloads, a server started from the command line gives out session data,
    notes, a ticket or a live connection, or changes the notes, only for a
    request whose token is verified by a provisioned hash, or from a loopback
    address when the operator asked for the exemption, or for a download with a
    ticket that such a request was given less than a minute ago for the same
    thing and that was not presented since.  And it never refuses those for
    their credentials. *)
Theorem http_guarded a os d d' m l fs evs e r s' ans :
  run_serve new_manager settings_of phc_ok read_to_string parse_note generate readable certs_of key_of install build_regex toml_value a os d = (d', m, Ok l) ->
  Forall (earlier (e_now1 e)) evs -> handles l e r (runs l fs evs) = (s', ans) ->
  (exposes ans \/ ap_notes s' <> ap_notes (runs l fs evs) ->
     with_ticket l evs e r \/
     exists config, load_serve_config read_to_string toml_value (a_config a) = Ok config /\
       ((exists tok, presented r = Some tok /\
           Exists (fun h => verify_password (utf8 tok) h = true)
             (provisioned read_to_string (serve_security a config (serve_session_root a config)))) \/
        (is_loopback_allowed (rq_peer r) = true /\ exemption_asked read_to_string toml_value a))) /\
  (admitted phc_ok verify_password l r \/ with_ticket l evs e r -> answer_status ans <> 401).
Proof using Type.
  intros Hr Hc Hh. edestruct (handle_guarded (M := M)) as [H1 H2]; [exact Hc|exact Hh|]. split; [|exact H2].
  intros Hx. destruct (H1 Hx) as [Ha|Ht]; [right|by left].
  destruct (run_serve_auth _ _ _ _ _ _ _ _ _ _ _ _ _ _ _ _ _ _ Hr) as (config & Hl & Hv & Hn). exists config. split; [done|].
  destruct (admitted_by _ _ _ _ Ha) as [(tok & Hp & Hk)|[Hp Hk]].
  - left. exists tok. split; [done|]. by apply (proj2 (bearer_verifier_exact phc_ok read_to_string verify_password _) (l_auth l) tok Hv).
  - right. split; [done|]. rewrite Hn in Hk. by eapply serve_no_auth_asked.
Qed.
End Surface.

(** ** A stranger with a ticket *)
Module RoutesDemo.
Definition env (now : Z) : Env :=
  mkEnv now now 0 0 (lit "t") 5 (fun _ => 6) (fun _ => false) (fun _ => Some (lit "d")) None (fun _ => true) (fun _ => Some []) (fun _ => true)
    (fun _ _ _ _ => (Some (lit "rows"), Ok tt)) io_ok (DetectReport.detect_report true false None None None) AiVerify.NotFound true.
Definition request (m : Method) (path : list Z) (header : option (list Z)) (q : ExportQuery) : Request :=
  mkRequest m path header None (V4 10 0 0 1) (inr q) (inl BadRequest) (inr None) (inl BadRequest) (inl BadRequest) (inl UpgradeRequired).
Definition asks : Request := request POST (lit "/api/sessions/1/export-ticket") (Some (lit "Bearer k")) (mkQuery (lit "csv") None None None None).
Definition downloads : Request := request GET (lit "/api/sessions/1/export") None query1.
Definition snoops : Request := request GET (lit "/api/annotations") None query1.
Definition handles := handle (M := WsManager.Server unit) toy_ok toy_verify uuid1 (fun _ => lit "u") (fun _ => None) (fun _ => true) Some (fun _ => None)
  (fun _ => None) (lit "tmp") (lit "0.1.0").
Definition runs := app_run (M := WsManager.Server unit) toy_ok toy_verify uuid1 (fun _ => lit "u") (fun _ => None) (fun _ => true) Some (fun _ => None)
  (fun _ => None) (lit "tmp") (lit "0.1.0").
Definition statuses : option (list Z) :=
  (fun l => let evs := [Req (env 1) asks] in
     map (fun '(now, r, evs) => answer_status (snd (handles l (env now) r (runs l ∅ evs))))
       [(2, downloads, []); (1, asks, []); (2, downloads, evs); (3, downloads, evs ++ [Req (env 2) downloads]);
        (60000000002, downloads, evs); (2, snoops, evs); (2, request PUT (lit "/api/annotations") None query1, []);
        (2, request GET (lit "/api/sessions//export") None query1, [])]) <$> demo_listening.
End RoutesDemo.
(** Refused without a ticket; asked for by an authorized client; admitted with
    it; refused a second time, and after a minute; no notes; 405; 404. *)
Example http_demo : RoutesDemo.statuses = Some [401; 200; 200; 401; 401; 401; 405; 404].
Proof. vm_compute. reflexivity. Qed.
Example ticket_download :
  match demo_listening with
  | Some l => exposes (snd (RoutesDemo.handles l (RoutesDemo.env 2) RoutesDemo.downloads (RoutesDemo.runs l ∅ [Req (RoutesDemo.env 1) RoutesDemo.asks])))
  | None => False
  end.
Proof. vm_compute. exact I. Qed.
Lemma http_guarded_witness : exists d' m l, ServeDemo.result = (d', m, Ok l) /\
  ticketed toy_ok toy_verify uuid1 Some l [Req (RoutesDemo.env 1) RoutesDemo.asks] (RoutesDemo.env 2) RoutesDemo.downloads /\
  answer_status (snd (RoutesDemo.handles l (RoutesDemo.env 2) RoutesDemo.downloads (RoutesDemo.runs l ∅ [Req (RoutesDemo.env 1) RoutesDemo.asks]))) <> 401.
Proof.
  destruct demo_result as (d' & m & l & E & El). exists d', m, l. split; [exact E|].
  pose proof ticket_download as Hx. rewrite El in Hx.
  set (evs := [Req (RoutesDemo.env 1) RoutesDemo.asks]) in *.
  destruct (RoutesDemo.handles l (RoutesDemo.env 2) RoutesDemo.downloads (RoutesDemo.runs l ∅ evs)) as [s' ans] eqn:Eh. cbn [snd] in *.
  destruct (@http_guarded _ Demo.api ServeDemo.new_manager ServeDemo.settings_of toy_ok toy_verify ServeDemo.files (fun _ => None)
    (fun _ => inr (Tls.mkBundle [1] [2])) (fun _ => true) (fun c => inr [c]) (fun k => inr k) (fun _ _ => None) (fun _ _ => None) ServeDemo.toml
    uuid1 (fun _ => lit "u") (fun _ => None) (fun _ => true) Some (fun _ => None) (fun _ => None) (lit "tmp") (lit "0.1.0")
    ServeDemo.args ServeDemo.os ServeDemo.disk0 d' m l ∅ evs (RoutesDemo.env 2) RoutesDemo.downloads s' ans E) as [H1 H2].
  - repeat constructor; vm_compute; discriminate.
  - exact Eh.
  - destruct (H1 (or_introl Hx)) as [Ht|(config & _ & [(tok & Hp & _)|[Hl _]])].
    + split; [exact Ht|]. apply H2. right. exact Ht.
    + vm_compute in Hp. discriminate Hp.
    + vm_compute in Hl. discriminate Hl.
Defined.
